(* ===== verification/_CoqProject ===== *)
-Q . S2P
Prelude.v
Pool.v
TcpSeq.v
Callout.v
Tcpcb.v
TcpSack.v
TcpSackFacts.v
TcpCongctl.v
TcpCongctlFacts.v
InCksum.v
InCksumFacts.v
TcpTimer.v
TcpTimerFacts.v
Mbuf.v
MbufFacts.v
MbufInv.v
Sockbuf.v
SockbufFacts.v
IpReass.v
IpReassFacts.v
IpReassOrder.v
SockState.v
IpId.v
Ip.v
IpOutput.v
IpTotal.v
IpFragment.v
IpInput.v
IpInputFacts.v
IpRoundtrip.v
TcpOptions.v
TcpReass.v
TcpReassFacts.v
TcpInput.v
TcpInputFacts.v
TcpInputStream.v
TcpInputState.v
TcpInputPredict.v
TcpOutput.v
TcpOutputFacts.v
TcpOutputStream.v
TcpOutputRun.v
TcpOutputProps.v
TcpRexmt.v
SynCache.v
SynCacheSend.v
SynCacheFacts.v
SynCacheSafe.v
SynCacheMap.v
SynHandshake.v
SynExample.v
Socket.v
SocketView.v
SocketInv.v
SocketCalls.v
SocketGlue.v
SocketRun.v
SocketStep.v
SocketProps.v
InPcb.v
InPcbFacts.v
InPcbOps.v
InPcbProps.v
InPcbExample.v
TcpFront.v
TcpFrontProps.v
TcpFrontExample.v
