(* ===== verification/Prelude.v ===== *)
(** * Verification of the NetBSD network stack ported to DPDK

    The program is NetBSD's TCP/IP stack (src/netbsd/net, src/netbsd/netinet)
    built as a user-space library over DPDK: src/netbsd/porting replaces the
    kernel services (memory pools, mbufs, callouts, sockets), src/glue and
    src/service connect it to drivers and to applications.  A received DPDK
    buffer becomes an mbuf ([m_devget]), goes through IP (checksum,
    reassembly) to TCP or UDP and ends in the receive buffer of a socket; data
    an application sends waits in the send buffer of a socket until TCP has
    transmitted it ([m_copym0]) and it is acknowledged ([sbdrop]); timers run
    from DPDK's timer wheel through callouts.

    This development models that path from the bottom up.  Every definition
    is executable, keeps the names of the source and follows one function or
    loop of it; integers are [Z] with the wrap-around of their C type written
    out ([u16], [u32], [u64], [s32], ...).

    ** Files

    - [Prelude]: functional record update, machine integers, flag words, lists
      with a cursor, the rules of [runs] for computations that may fail, and the
      tactics [upd_simpl], [zcases] and [flag_bits].
    - [Pool]: porting/pool/subr_pool.c, a pool as the ring of its free objects.
    - [TcpSeq]: netinet/tcp_seq.h, comparisons of sequence numbers modulo
      2^32, related to offsets from a base.
    - [Callout]: porting/callout/callout.c as a state machine over the DPDK
      timer; theorem: CALLOUT_PENDING mirrors the timer in every reachable
      state.
    - [Tcpcb]: the control block [struct tcpcb] (the fields the modelled code
      uses), connection states and timers.
    - [TcpSack], [TcpSackFacts]: netinet/tcp_sack.c, the sender's scoreboard of
      holes.  The scoreboard invariant (sorted, disjoint, in the window, counted
      exactly, pool conserved) is kept by every operation; a cumulative ACK
      removes exactly what it covers; retransmission picks the first hole
      that is not retransmitted.
    - [TcpCongctl], [TcpCongctlFacts]: netinet/tcp_congctl.c.  The table of
      operations is a record per algorithm and both instances, Reno and NewReno,
      meet one specification of the windows, whatever [tcp_output] does; the registry keeps reference
      counts equal to the connections that use an algorithm.
    - [InCksum], [InCksumFacts]: netinet/cpu_in_cksum.c (the 64-bit version that
      is built), in4_cksum.c, in_cksum.c.  The unrolled sum over a chain of
      segments, at any alignment, is the sum of RFC 1071.
    - [TcpTimer], [TcpTimerFacts]: netinet/tcp_timer.c, [tcp_setpersist],
      [tcp_xmit_timer] and [tcp_drop].  Retransmission backs off and drops the
      connection if [tcp_output] leaves the timer alone; intervals are bounded and do not decrease.
    - [Mbuf], [MbufFacts], [MbufInv]: porting/mbuf/uipc_mbuf.c over an explicit
      store of mbufs, DPDK buffers with reference counts, and pools, in a state
      and error monad ([None] is a panic or an access outside the store).
      [MbufFacts] relates chains to lists and shows what [m_adj] and
      [m_copydata] do to the bytes; [MbufInv] shows that reference counts are
      exact over all sequences of operations, that [m_freem] gives everything
      back and that [m_copym0] shares the bytes of the original.
    - [Sockbuf], [SockbufFacts]: socket buffers (porting/kern/uipc_socket2.c,
      special_includes/sys/socketvar.h) in the same monad.  A stream buffer is a
      queue of bytes for [sbappendstream] and [sbdrop].
    - [IpReass], [IpReassFacts], [IpReassOrder]: netinet/ip_reass.c.  What is
      delivered is made of received fragments, counters and pool are exact,
      draining frees half, and the fragments of a datagram in any order give it
      back.
    - [SockState]: the state bits of a socket and the transitions the protocols
      call (soisconnecting ... soisdisconnected, socantsendmore, ...) with
      [sbspace] and the wake-ups, from porting/kern/uipc_socket2.c.
    - [TcpOptions]: [tcp_dooptions] of netinet/tcp_input.c with its handlers for
      MSS, window scale, timestamps, SACK-permitted and SACK.  The parser returns
      on every option field, without reading outside of it.
    - [TcpReass], [TcpReassFacts]: [tcp_reass], the queue of out-of-order
      segments.  It refines the set of received positions: what it gives to the
      socket is the contiguous prefix of what arrived, nothing is delivered twice
      or skipped, and queued blocks stay ordered and apart.
    - [TcpInput]: [tcp_input] from the point where the connection is found to
      its end (header prediction, the states SYN_SENT to TIME_WAIT, trimming to
      the window, RST, SYN, ACK, urgent data, text, FIN, all the drop labels)
      and [tcp_close].  A segment of the code between two labels is a definition
      that either continues or stops at a label.
    - [TcpInputFacts]: what each part leaves alone (the receive side, the state of
      the connection), shared by the files below.
    - [TcpInputStream]: the bytes appended to the receive buffer are the bytes
      of the peer's stream from [rcv_nxt] on, for one segment and for every
      sequence of segments.
    - [TcpInputState]: the transitions of [t_state] that one segment can cause, what
      resets a connection, what [tcp_close] gives back, and two defects.
    - [TcpInputPredict]: the fast path does what the slow path does.
    - [TcpOutput]: [tcp_output] (netinet/tcp_output.c) with [tcp_segsize],
      [tcp_build_datapkt] and the options it writes, one definition per part of
      the routine and the loop from [again] to [send].
    - [TcpOutputFacts], [TcpOutputStream], [TcpOutputRun]: what each part leaves
      alone; which bytes of the send buffer a segment carries; a call returns and
      everything it sends is a piece of the stream at the right sequence number.
    - [TcpOutputProps]: the window that is advertised, the burst limit, the
      options of a SYN, the timers, and some defects.
    - [TcpRexmt]: the retransmission timer with [tcp_output]: a connection whose
      peer is silent backs off and is dropped.
    - [IpId]: netinet/ip_id.c, identifications do not repeat.
    - [Ip]: the IP header and its bytes, addresses, interfaces, and the cache of
      a route (netinet/ip.h, in.h, in_var.h, net/route.c).
    - [IpOutput], [IpFragment]: netinet/ip_output.c.  [ip_fragment] cuts a
      datagram into pieces that lay it out without gap or overlap.
    - [IpInput], [IpInputFacts]: netinet/ip_input.c: validation, options, source
      routes, forwarding, delivery.
    - [IpTotal]: a small packet cannot make [ip_output] fail an assertion.
    - [IpRoundtrip]: sender and receiver together: what [ip_output] emits, in any
      order, [ip_input] delivers unchanged.
    - [SynCache]: the SYN cache (the syn_cache_ functions of netinet/tcp_input.c):
      half-open connections as entries of a hash table, their SYN,ACKs byte by
      byte, their timers, and how the ACK turns one into a connection.
    - [SynCacheSend], [SynCacheFacts], [SynCacheSafe], [SynCacheMap]: sending from
      an entry cannot fail; the table, the lists of the listeners, the counters
      and the pool stay consistent over every sequence of events; an entry
      expires; the cache is a finite map from connections to promises.
    - [SynHandshake], [SynExample]: the connection is what the SYN,ACK promised;
      a handshake on concrete packets.
    - [Socket]: stream sockets (porting/kern/uipc_socket.c, uipc_socket2.c), the
      user requests of TCP that change them (netinet/tcp_usrreq.c), and the lists
      of sockets of glue/app_glue.c with the passes that serve them, over a store
      of sockets whose references are addresses ([None] is a null pointer, a freed
      socket or a panic).
    - [SocketView], [SocketInv]: a socket as its owner, its place on a queue and its
      holders; the invariant of queues, back pointers, counters and lists.
    - [SocketCalls], [SocketGlue], [SocketRun], [SocketStep]: each call returns and
      keeps the invariant: the calls of sockets, those of the glue, its passes,
      and every step of the application, of TCP and of the glue.
    - [SocketProps]: the sockets are consistent in every reachable state, calls
      return, closing a listener frees its queues, a pass reports every socket,
      the backlog is bounded; and some defects.
    - [InPcb]: the control blocks (netinet/in_pcb.c): table, hash chains, binding,
      connecting, lookups; and the selection of ports (netinet/rfc6056.c).
    - [InPcbFacts], [InPcbOps]: the chains are what the entries of the control blocks
      say; each operation returns, and what it leaves.
    - [InPcbProps], [InPcbExample]: over all sequences of requests: the table is
      consistent, the lookup of a segment is a search of all control blocks,
      connections are unique, bound ports are exclusive, anonymous ports are not
      checked; a server and a client.  The control blocks that came from the SYN
      cache are kept apart: they are not on the port chain of their port.
    - [TcpFront]: [tcp_input] from its beginning to the point where [TcpInput] takes
      over: header, checksum, lookup, the LISTEN state, and the control block that
      the end of a handshake makes.
    - [TcpFrontProps], [TcpFrontExample]: the front with the control blocks and the
      SYN cache returns on every packet, makes a control block for a finished
      handshake only, answers with the resets of RFC 793 and finds the connection
      of a segment; some packets.

    ** How components meet

    The operations on chains are proved against lists of mbufs ([chain],
    [chain_update], [freed], [copied]); [SockbufFacts] uses only those lemmas of
    [MbufInv].  [IpReass] represents the mbufs of a fragment by their bytes and
    [m_adj] by [adj_bytes], the function that [m_adj] is shown to compute.
    [tcp_output], which the segment processing calls at many places, is a field
    of the environment [tenv] of [TcpInput]; the theorems about the received
    stream use of it that it leaves the receive side of the connection alone
    ([output_keeps_rcv]), and [TcpOutputFacts] shows this of the model of
    [tcp_output] ([tcp_output_keeps_receive_side]).  The theorems of the timers use
    that a call leaves the retransmission timer alone ([output_retransmits]), which
    [TcpRexmt] shows of the model; those of congestion control use nothing of it.  The reassembly queue and the socket are connected by
    [tcp_reass]: [TcpReassFacts] proves it against the abstract view of a stream
    that is received in pieces, and [TcpInputStream] uses only that view.
    [IpRoundtrip] composes [ip_output], [ip_input] and [ip_reass_packet] through
    the layout of pieces that [IpFragment] and [IpReassOrder] share.  The calls of
    sockets are proved against the view of [SocketView], in which only the changes
    that other components see are left; [SocketStep] composes the three actors
    (application, TCP, glue) as one step relation.  The operations on control
    blocks are proved as changes of one control block ([becomes]), from which the
    invariants of [InPcbProps] follow without the chains.  [TcpFrontProps] uses of
    the control blocks and of the SYN cache only that their operations return and
    keep to the reachable states, and what [findpcb] returns; its outcome for a
    connection is the argument of [tcp_input] of [TcpInput].

    ** Fuel

    Loops over chains take as fuel one more than the number of live mbufs
    ([chain_fuel]); [chain_fuel_enough] shows that a chain that ends is shorter.
    [sbdrop] takes twice that, since a round either frees an mbuf or goes to the
    next record.  The scan of the reassembly table stops after its 64 buckets.
    The option parser takes the number of option bytes, since every round consumes
    at least one ([tcp_dooptions_total]), and so does the one for IP options
    ([ip_dooptions_safe]).  The loop of [ip_fragment] takes the length of the
    datagram.  [tcp_output] takes one more than the bytes waiting; without Reno
    four rounds are enough ([tcp_output_burst]).  The search for a bucket in a full
    SYN cache goes around the table at most twice ([overflow_bucket_spec]).  The
    loops over the queues of a listening socket take the lengths of the queues, and
    [socket_calls_return] shows that they end; the loop of a lingering close takes
    any fuel and uses it up ([linger_close_hangs]).  The port selection takes as
    many rounds as its counter allows.
    The theorems state that the operations return, not only what they return.

    ** Not modelled

    [sosend], [soreceive] and the options of sockets; UDP, whose datagrams need those two; ICMP, IGMP and raw IP, of which
    IP keeps the errors it reports as results; the radix tree, the configuration of
    interfaces and ARP, which IP sees as a function from destinations to routes
    and [in_pcbconnect] as a function to source addresses ([in_selectsrc]); the rings
    to other processes and the device, which are calls of DPDK.  Control blocks have
    no vestigial connections (tcp_vtw.c, off by default).  Statistics counters, locks
    (the port runs the stack in one thread and defines them away) and debugging
    checks are left out everywhere; external mbuf storage (M_EXT) is never set by
    the port.  DPDK itself is vendored: its pools, reference counts and timers are
    part of the state of the models. *)

From stdpp Require Export prelude list gmap.
From Stdlib Require Export ZArith Lia.

#[global] Open Scope Z_scope.

(** ** Functional record update

    [set p f r] replaces the field read by the projection [p] with [f]
    of its old value.  A record type opts in by an instance of
    [EtaRecord], which rebuilds a value from its projections; the update
    is then found by abstracting the projection in that eta-expansion. *)

Class EtaRecord (T : Type) : Type := eta_record : T -> T.

Class FieldUpdate {T A : Type} (p : T -> A) : Type :=
  field_update : (A -> A) -> T -> T.

Ltac derive_field_update :=
  match goal with
  | |- @FieldUpdate ?T ?A ?p =>
      let e := constr:(_ : EtaRecord T) in
      let e := eval hnf in (@eta_record T e) in
      let e := match e with _ => eval cbv delta [eta_record] in e end in
      match eval pattern p in e with
      | ?g _ => exact (fun (f : A -> A) (r : T) => g (fun r' => f (p r')) r)
      end
  end.

#[export] Hint Extern 0 (FieldUpdate _) => derive_field_update : typeclass_instances.

Definition set {T A : Type} (p : T -> A) {U : FieldUpdate p} (f : A -> A) (r : T) : T :=
  @field_update T A p U f r.

Declare Scope upd_scope.
#[global] Open Scope upd_scope.

Notation "r <| p := v |>" := (set p (fun _ => v) r)
  (at level 1, left associativity, p at level 10) : upd_scope.

(** ** Machine integers

    A C integer of width [w] is a [Z] with its wrap-around written out:
    [u8]..[u64] are the conversions to the unsigned types, [s16] and
    [s32] those to [short] and [int] (two's complement). *)

Definition u8 (z : Z) : Z := z mod 2 ^ 8.
Definition u16 (z : Z) : Z := z mod 2 ^ 16.
Definition u32 (z : Z) : Z := z mod 2 ^ 32.
Definition u64 (z : Z) : Z := z mod 2 ^ 64.
Definition s16 (z : Z) : Z := (z + 2 ^ 15) mod 2 ^ 16 - 2 ^ 15.
Definition s32 (z : Z) : Z := (z + 2 ^ 31) mod 2 ^ 32 - 2 ^ 31.

Definition is_u16 (z : Z) : Prop := 0 <= z < 2 ^ 16.
Definition is_u32 (z : Z) : Prop := 0 <= z < 2 ^ 32.
Definition is_u64 (z : Z) : Prop := 0 <= z < 2 ^ 64.

(** [flag_set flags f] is the C test [(flags & f) != 0]. *)
Definition flag_set (flags f : Z) : bool := negb (Z.land flags f =? 0).

(** [flags &= ~f] on a 32-bit word. *)
Definition flag_clear (flags f : Z) : Z := Z.land flags (Z.lnot f).

Section machine_integers.
Implicit Types x y z : Z.

Lemma u16_range z : 0 <= u16 z < 2 ^ 16.
Proof. apply Z.mod_pos_bound; lia. Qed.

Lemma u32_range z : 0 <= u32 z < 2 ^ 32.
Proof. apply Z.mod_pos_bound; lia. Qed.

Lemma u64_range z : 0 <= u64 z < 2 ^ 64.
Proof. apply Z.mod_pos_bound; lia. Qed.

Lemma u16_small z : 0 <= z < 2 ^ 16 -> u16 z = z.
Proof. apply Z.mod_small. Qed.

Lemma u32_small z : 0 <= z < 2 ^ 32 -> u32 z = z.
Proof. apply Z.mod_small. Qed.

Lemma u64_small z : 0 <= z < 2 ^ 64 -> u64 z = z.
Proof. apply Z.mod_small. Qed.

Lemma u32_add_u32 x y z : u32 (x + u32 y + z) = u32 (x + y + z).
Proof.
  unfold u32. rewrite <- (Z.add_mod_idemp_l (x + y mod _)) by lia.
  rewrite Z.add_mod_idemp_r, Z.add_mod_idemp_l by lia. done.
Qed.

Lemma u32_sub_u32 x y : u32 (u32 x - y) = u32 (x - y).
Proof. unfold u32. rewrite Zminus_mod_idemp_l. done. Qed.

Lemma s16_small z : - 2 ^ 15 <= z < 2 ^ 15 -> s16 z = z.
Proof. intros; unfold s16; rewrite Z.mod_small; lia. Qed.

Lemma s32_small z : - 2 ^ 31 <= z < 2 ^ 31 -> s32 z = z.
Proof. intros; unfold s32; rewrite Z.mod_small; lia. Qed.

Lemma s32_range z : - 2 ^ 31 <= s32 z < 2 ^ 31.
Proof.
  unfold s32; pose proof (Z.mod_pos_bound (z + 2 ^ 31) (2 ^ 32)); lia.
Qed.

(** [s32] of a difference of two unsigned words, by cases. *)
Lemma s32_diff d :
  - 2 ^ 32 < d < 2 ^ 32 ->
  (- 2 ^ 31 <= d < 2 ^ 31 /\ s32 d = d) \/
  (2 ^ 31 <= d /\ s32 d = d - 2 ^ 32) \/ (d < - 2 ^ 31 /\ s32 d = d + 2 ^ 32).
Proof.
  intros. destruct (Z.lt_ge_cases d (- 2 ^ 31)) as [?|?];
    [|destruct (Z.lt_ge_cases d (2 ^ 31)) as [?|?]].
  - right; right; split; [done|]. unfold s32.
    rewrite <- (Z.mod_add _ 1), Z.mod_small by lia. lia.
  - left; split; [lia|]. apply s32_small; lia.
  - right; left; split; [done|]. unfold s32.
    rewrite <- (Z.mod_add _ (-1)), Z.mod_small by lia. lia.
Qed.

Lemma s32_u32 z : s32 (u32 z) = s32 z.
Proof. unfold s32, u32; rewrite Z.add_mod_idemp_l by lia; done. Qed.
End machine_integers.

(** ** Automation

    [zcases] splits every boolean integer comparison of the goal and
    hands the arithmetic to [lia]; [simplify_upd] computes projections
    of updated records. *)

Create HintDb stack discriminated.
#[export] Hint Resolve u16_range u32_range u64_range s32_range : stack.

Ltac zcase :=
  match goal with
  | |- context [?a <? ?b] => destruct (Z.ltb_spec a b)
  | |- context [?a <=? ?b] => destruct (Z.leb_spec a b)
  | |- context [?a =? ?b] => destruct (Z.eqb_spec a b)
  end.

Ltac zcase_in H :=
  match type of H with
  | context [?a <? ?b] => destruct (Z.ltb_spec a b)
  | context [?a <=? ?b] => destruct (Z.leb_spec a b)
  | context [?a =? ?b] => destruct (Z.eqb_spec a b)
  end.

Ltac zcases := repeat (zcase; simpl in *); try lia.

Ltac simplify_upd := unfold set, field_update in *; simpl in *.

(** [upd_step] reads one field of one update, without unfolding the
    rest of the record; [upd_simpl] does so for every read of the goal. *)
Ltac upd_law H p T A q U :=
  first [ assert (forall (g : A -> A) (x : T), p (@set T A q U g x) = g (p x)) as H
            by (intros; reflexivity)
        | assert (forall (g : A -> A) (x : T), p (@set T A q U g x) = p x) as H
            by (intros; reflexivity) ].

Ltac upd_step :=
  match goal with
  | |- context [?p (@set ?T ?A ?q ?U ?f ?r)] =>
      let H := fresh "Hupd" in upd_law H p T A q U; rewrite (H f r); clear H
  end.

Ltac upd_step_in K :=
  match type of K with
  | context [?p (@set ?T ?A ?q ?U ?f ?r)] =>
      let H := fresh "Hupd" in upd_law H p T A q U; rewrite (H f r) in K; clear H
  end.

Ltac upd_simpl := repeat upd_step; cbv beta.
Tactic Notation "upd_simpl" "in" hyp(H) := repeat upd_step_in H; cbv beta in H.

(** ** Lists with a focused element

    A cursor into a doubly linked queue is an index; these rewrite the
    list operations at the cursor when the list is split around it. *)

Section cursor.
Context {A : Type}.
Implicit Types (l pre post : list A) (x y : A).

Lemma lookup_cursor pre x post i :
  i = length pre -> (pre ++ x :: post) !! i = Some x.
Proof. intros ->; apply list_lookup_middle; done. Qed.

Lemma insert_cursor pre x y post i :
  i = length pre -> <[i := y]> (pre ++ x :: post) = pre ++ y :: post.
Proof.
  intros ->. rewrite insert_app_r_alt by lia.
  rewrite Nat.sub_diag; done.
Qed.

Lemma take_S_cursor pre x post : take (S (length pre)) (pre ++ x :: post) = pre ++ [x].
Proof. rewrite cons_middle, app_assoc. apply take_app_length'. rewrite length_app; simpl; lia. Qed.

Lemma drop_S_cursor pre x post : drop (S (length pre)) (pre ++ x :: post) = post.
Proof. rewrite cons_middle, app_assoc. apply drop_app_length'. rewrite length_app; simpl; lia. Qed.

Lemma alter_cursor (f : A -> A) pre x y post :
  alter f (S (length pre)) (pre ++ x :: y :: post) = pre ++ x :: f y :: post.
Proof. induction pre; simpl; [done|]. f_equal; done. Qed.

Lemma split_at_lookup l i x :
  l !! i = Some x -> exists pre post, l = pre ++ x :: post /\ length pre = i.
Proof.
  intros H. exists (take i l), (drop (S i) l). split.
  - symmetry; apply take_drop_middle; done.
  - apply length_take_le. apply lookup_lt_Some in H. lia.
Qed.
End cursor.

(** ** Flag words

    Tests of single-bit masks are bit tests; [flag_bits] turns every
    test of a closed mask into the bits of the tested word. *)

Section flag_words.
Implicit Types f g m n : Z.

Lemma flag_set_pow2 f n : 0 <= n -> flag_set f (2 ^ n) = Z.testbit f n.
Proof.
  intros Hn. unfold flag_set. destruct (Z.eqb_spec (Z.land f (2 ^ n)) 0) as [E|E]; simpl.
  - apply (f_equal (fun z => Z.testbit z n)) in E.
    rewrite Z.land_spec, Z.pow2_bits_true, Z.bits_0, andb_true_r in E by done. done.
  - destruct (Z.testbit f n) eqn:B; [done|]. exfalso; apply E.
    apply Z.bits_inj'; intros k Hk.
    rewrite Z.land_spec, Z.bits_0, Z.pow2_bits_eqb by done.
    destruct (Z.eqb_spec n k); subst; [by rewrite B | by rewrite andb_false_r].
Qed.

Lemma flag_set_lor_mask f g m : flag_set f (Z.lor g m) = flag_set f g || flag_set f m.
Proof.
  unfold flag_set. rewrite Z.land_lor_distr_r.
  destruct (Z.eqb_spec (Z.land f g) 0) as [E|E], (Z.eqb_spec (Z.land f m) 0) as [E'|E'],
    (Z.eqb_spec (Z.lor (Z.land f g) (Z.land f m)) 0) as [E''|E'']; simpl;
    rewrite ?Z.lor_eq_0_iff in *; tauto.
Qed.

Lemma flag_clear_nonneg f m : 0 <= f -> 0 <= flag_clear f m.
Proof. intros; apply Z.land_nonneg; auto. Qed.
End flag_words.

#[export] Hint Resolve flag_clear_nonneg : stack.

Ltac flag_bits_step :=
  match goal with
  | |- context [flag_set ?x (Z.lor ?a ?b)] => rewrite (flag_set_lor_mask x a b)
  | |- context [flag_set ?x ?m] =>
      let k := eval vm_compute in (Z.log2 m) in
      change (flag_set x m) with (flag_set x (2 ^ k)); rewrite (flag_set_pow2 x k) by lia
  | |- context [Z.testbit (flag_clear ?f ?m) ?k] => unfold flag_clear at 1
  | |- context [Z.testbit (Z.lor ?a ?b) ?k] => rewrite (Z.lor_spec a b k)
  | |- context [Z.testbit (Z.land ?a ?b) ?k] => rewrite (Z.land_spec a b k)
  | |- context [Z.testbit (Z.lnot ?a) ?k] => rewrite (Z.lnot_spec a k) by lia
  | |- context [Z.testbit ?c ?k] =>
      let b := eval vm_compute in (Z.testbit c k) in
      lazymatch b with
      | true => change (Z.testbit c k) with true
      | false => change (Z.testbit c k) with false
      end
  end.

Ltac flag_bits :=
  repeat flag_bits_step;
  rewrite ?andb_true_r, ?andb_false_r, ?orb_true_r, ?orb_false_r; simpl.

(** ** Fallible computations

    [runs o P]: the computation returns, with a result of the given kind.  Proofs
    about operations that may fail are compositions of such statements. *)

Definition runs {A} (o : option A) (P : A -> Prop) : Prop := exists x, o = Some x /\ P x.

Lemma runs_ret {A} (x : A) (P : A -> Prop) : P x -> runs (Some x) P.
Proof. by exists x. Qed.

Lemma runs_bind {A B} (o : option A) (f : A -> option B) (P : A -> Prop) (Q : B -> Prop) :
  runs o P -> (forall x, P x -> runs (f x) Q) -> runs (o ≫= f) Q.
Proof. intros (x & -> & H) F. exact (F x H). Qed.

Lemma runs_mono {A} (o : option A) (P Q : A -> Prop) : runs o P -> (forall x, P x -> Q x) -> runs o Q.
Proof. intros (x & -> & H) F. exists x. auto. Qed.

Lemma runs_is_Some {A} (o : option A) (P : A -> Prop) : runs o P -> is_Some o.
Proof. intros (x & -> & _). by exists x. Qed.
