(* ===== verification/Pool.v ===== *)
(** * Object pools (src/netbsd/porting/pool/subr_pool.c)

    The port replaces NetBSD's pool allocator by DPDK memory pools.  A
    pool created by [pool_init] or [pool_cache_init] owns a fixed number
    of objects; [pool_get] takes the object at the head of the ring of
    free objects and returns NULL when the ring is empty, [pool_put]
    puts an object back at its tail.  The ring is the list of the
    addresses of the free objects. *)

From S2P Require Import Prelude.

Abbreviation addr := positive.

Record pool := mkPool { mempool : list addr }.

#[export] Instance eta_pool : EtaRecord pool := fun r => mkPool (mempool r).

(** [pool_init] : [count] objects, all free. *)
Definition pool_init (count : nat) : pool :=
  mkPool (Pos.of_nat <$> seq 1 count).

Definition pool_get (pp : pool) : option (addr * pool) :=
  match mempool pp with
  | [] => None
  | obj :: rest => Some (obj, mkPool rest)
  end.

Definition pool_put (pp : pool) (v : addr) : pool :=
  mkPool (mempool pp ++ [v]).

(** [pool_cache_get] and [pool_cache_put] are the same calls on a pool
    cache. *)
Definition pool_cache_get (pc : pool) : option (addr * pool) := pool_get pc.
Definition pool_cache_put (pc : pool) (obj : addr) : pool := pool_put pc obj.

(** The objects of a pool, [owned] being those handed out and not yet
    returned, are conserved by both operations. *)
Definition pool_objects (pp : pool) (owned : list addr) : list addr :=
  mempool pp ++ owned.

Lemma pool_get_objects pp obj pp' owned :
  pool_get pp = Some (obj, pp') ->
  pool_objects pp' (obj :: owned) ≡ₚ pool_objects pp owned.
Proof.
  destruct pp as [[|x r]]; intros H; inversion H; subst; clear H.
  unfold pool_objects; simpl. symmetry. apply Permutation_middle.
Qed.

Lemma pool_put_objects pp obj owned :
  pool_objects (pool_put pp obj) owned ≡ₚ pool_objects pp (obj :: owned).
Proof.
  unfold pool_objects, pool_put; simpl. rewrite <- app_assoc. done.
Qed.

Lemma pool_get_None pp : pool_get pp = None <-> mempool pp = [].
Proof. destruct pp as [[|x r]]; done. Qed.

Lemma pool_init_nodup count : NoDup (mempool (pool_init count)).
Proof.
  unfold pool_init. cbn [mempool]. apply NoDup_fmap_2_strong; [|apply NoDup_seq].
  intros x y Hx Hy E. apply elem_of_seq in Hx, Hy. apply (f_equal Pos.to_nat) in E. rewrite !Nat2Pos.id in E; lia.
Qed.
