(* ===== verification/TcpSeq.v ===== *)
(** * TCP sequence numbers (src/netbsd/netinet/tcp_seq.h)

    Sequence numbers are 32-bit unsigned integers compared modulo 2^32.
    [off base x] is the distance from [base] up to [x]; two numbers less
    than 2^31 above a common base are ordered by the macros exactly as
    their distances are. *)

From S2P Require Import Prelude.

Abbreviation tcp_seq := Z.

Definition SEQ_LT (a b : tcp_seq) : bool := s32 (u32 (a - b)) <? 0.
Definition SEQ_LEQ (a b : tcp_seq) : bool := s32 (u32 (a - b)) <=? 0.
Definition SEQ_GT (a b : tcp_seq) : bool := 0 <? s32 (u32 (a - b)).
Definition SEQ_GEQ (a b : tcp_seq) : bool := 0 <=? s32 (u32 (a - b)).
Definition SEQ_MIN (a b : tcp_seq) : tcp_seq := if SEQ_LT a b then a else b.
Definition SEQ_MAX (a b : tcp_seq) : tcp_seq := if SEQ_GT a b then a else b.

(** [(long)((a)-(b))]: on an LP64 machine the 32-bit unsigned difference
    is zero-extended. *)
Definition SEQ_SUB (a b : tcp_seq) : Z := u32 (a - b).

(** Distance above a base. *)
Definition off (base x : tcp_seq) : Z := u32 (x - base).

(** [x] is at most [w] above [base]; with [w < 2^31] such numbers compare
    as integers. *)
Definition in_window (base w x : tcp_seq) : Prop := off base x <= w.

Section offsets.
Variable base : tcp_seq.
Implicit Types a b x y : tcp_seq.

Lemma off_range x : 0 <= off base x < 2 ^ 32.
Proof. apply u32_range. Qed.

(** Without any window, the difference is that of the offsets. *)
Lemma seq_diff_gen a b : s32 (u32 (a - b)) = s32 (off base a - off base b).
Proof.
  rewrite s32_u32. unfold off, u32, s32. f_equal.
  rewrite <- (Z.add_mod_idemp_l (a - b)) by lia.
  rewrite <- (Z.add_mod_idemp_l (_ - _)) by lia.
  do 2 f_equal. rewrite <- Zminus_mod. f_equal. lia.
Qed.

Lemma seq_diff_off a b :
  off base a < 2 ^ 31 -> off base b < 2 ^ 31 ->
  s32 (u32 (a - b)) = off base a - off base b.
Proof.
  intros Ha Hb. rewrite seq_diff_gen.
  pose proof (off_range a). pose proof (off_range b). apply s32_small; lia.
Qed.

Lemma SEQ_LT_off a b :
  off base a < 2 ^ 31 -> off base b < 2 ^ 31 ->
  SEQ_LT a b = (off base a <? off base b).
Proof. intros; unfold SEQ_LT; rewrite seq_diff_off by done. zcases. Qed.

Lemma SEQ_LEQ_off a b :
  off base a < 2 ^ 31 -> off base b < 2 ^ 31 ->
  SEQ_LEQ a b = (off base a <=? off base b).
Proof. intros; unfold SEQ_LEQ; rewrite seq_diff_off by done. zcases. Qed.

Lemma SEQ_GT_off a b :
  off base a < 2 ^ 31 -> off base b < 2 ^ 31 ->
  SEQ_GT a b = (off base b <? off base a).
Proof. intros; unfold SEQ_GT; rewrite seq_diff_off by done. zcases. Qed.

Lemma SEQ_GEQ_off a b :
  off base a < 2 ^ 31 -> off base b < 2 ^ 31 ->
  SEQ_GEQ a b = (off base b <=? off base a).
Proof. intros; unfold SEQ_GEQ; rewrite seq_diff_off by done. zcases. Qed.

Lemma off_SEQ_MAX a b :
  off base a < 2 ^ 31 -> off base b < 2 ^ 31 ->
  off base (SEQ_MAX a b) = Z.max (off base a) (off base b).
Proof. intros; unfold SEQ_MAX; rewrite SEQ_GT_off by done. zcases. Qed.

Lemma off_SEQ_MIN a b :
  off base a < 2 ^ 31 -> off base b < 2 ^ 31 ->
  off base (SEQ_MIN a b) = Z.min (off base a) (off base b).
Proof. intros; unfold SEQ_MIN; rewrite SEQ_LT_off by done. zcases. Qed.

Lemma off_base : off base base = 0.
Proof. unfold off. rewrite Z.sub_diag; done. Qed.

Lemma off_inj x y : is_u32 x -> is_u32 y -> is_u32 base -> off base x = off base y -> x = y.
Proof.
  unfold is_u32, off, u32; intros.
  assert ((x - base) mod 2 ^ 32 = (y - base) mod 2 ^ 32) as E by done.
  destruct (Z.lt_ge_cases x base), (Z.lt_ge_cases y base);
    rewrite ?(Z.mod_small (x - base)), ?(Z.mod_small (y - base)) in E by lia;
    rewrite <- ?(Z.mod_add (x - base) 1), <- ?(Z.mod_add (y - base) 1) in E by lia;
    rewrite ?Z.mod_small in E by lia; lia.
Qed.

(** The unsigned difference of two numbers of the window. *)
Lemma u32_sub_off a b :
  off base b <= off base a -> u32 (a - b) = off base a - off base b.
Proof.
  intros H. pose proof (off_range a). pose proof (off_range b).
  rewrite <- (u32_small (off base a - off base b)) by lia.
  unfold off, u32 in *. rewrite <- Zminus_mod. f_equal. lia.
Qed.
End offsets.

(** Rewrites every comparison of the goal to the order of the offsets
    from [b]; the window side conditions are left to [lia]. *)
Ltac seq_off b :=
  repeat first
    [ rewrite (SEQ_LT_off b) by lia | rewrite (SEQ_LEQ_off b) by lia
    | rewrite (SEQ_GT_off b) by lia | rewrite (SEQ_GEQ_off b) by lia
    | rewrite (off_SEQ_MAX b) by lia | rewrite (off_SEQ_MIN b) by lia ].

Ltac seq_off_in b H :=
  repeat first
    [ rewrite (SEQ_LT_off b) in H by lia | rewrite (SEQ_LEQ_off b) in H by lia
    | rewrite (SEQ_GT_off b) in H by lia | rewrite (SEQ_GEQ_off b) in H by lia
    | rewrite (off_SEQ_MAX b) in H by lia | rewrite (off_SEQ_MIN b) in H by lia ].
