(* ===== verification/Callout.v ===== *)
(** * Callouts over DPDK timers (src/netbsd/porting/callout/callout.c)

    The port implements NetBSD's callouts with one [rte_timer] each.
    [timer] is the state of that timer: [Some n] when it is on the
    pending list with [n] cycles to go, [None] when it is stopped.
    Function and argument pointers are addresses ([None] is NULL). *)

From S2P Require Import Prelude.

Definition CALLOUT_BOUND : Z := 0x0001.
Definition CALLOUT_PENDING : Z := 0x0002.
Definition CALLOUT_FIRED : Z := 0x0004.
Definition CALLOUT_INVOKING : Z := 0x0008.

Record callout := mkCallout {
  timer : option Z;
  c_func : option Z;
  c_arg : option Z;
  c_time : Z;
  c_flags : Z
}.

#[export] Instance eta_callout : EtaRecord callout :=
  fun r => mkCallout (timer r) (c_func r) (c_arg r) (c_time r) (c_flags r).

(** [rte_get_timer_hz()] and the stack's tick frequency [hz]. *)
Section callout_ops.
Variables timer_hz hz : Z.

(** [(rte_get_timer_hz()/hz) * duration] in 64-bit arithmetic. *)
Definition callout_cycles (duration : Z) : Z := u64 (timer_hz / hz * duration).

Definition callout_init (co : callout) : callout :=
  co <| c_arg := None |> <| c_time := 0 |> <| c_func := None |>
     <| c_flags := 0 |> <| timer := None |>.

Definition callout_destroy (co : callout) : callout := co.

Definition callout_setfunc (co : callout) (cbk arg : option Z) : callout :=
  co <| c_arg := arg |> <| c_func := cbk |>.

Definition callout_schedule (co : callout) (duration : Z) : callout :=
  let co := co <| c_flags :=
    flag_clear (c_flags co) (Z.lor CALLOUT_FIRED CALLOUT_INVOKING) |> in
  let co := co <| c_flags := Z.lor (c_flags co) CALLOUT_PENDING |> in
  co <| timer := Some (callout_cycles duration) |>.

Definition callout_reset (co : callout) (duration : Z) (cbk arg : option Z) : callout :=
  let co := co <| c_arg := arg |> <| c_func := cbk |> in
  let co := co <| c_flags :=
    flag_clear (c_flags co) (Z.lor CALLOUT_FIRED CALLOUT_INVOKING) |> in
  let co := co <| c_flags := Z.lor (c_flags co) CALLOUT_PENDING |> in
  co <| timer := Some (callout_cycles duration) |>.

(** [callout_stop]; [callout_halt] has the same body. *)
Definition callout_stop (co : callout) : callout :=
  let co := co <| c_flags :=
    flag_clear (c_flags co) (Z.lor CALLOUT_PENDING CALLOUT_FIRED) |> in
  co <| timer := None |>.

Definition callout_halt (co : callout) : callout :=
  let co := co <| c_flags :=
    flag_clear (c_flags co) (Z.lor CALLOUT_PENDING CALLOUT_FIRED) |> in
  co <| timer := None |>.

Definition callout_pending (co : callout) : bool := flag_set (c_flags co) CALLOUT_PENDING.
Definition callout_expired (co : callout) : bool := flag_set (c_flags co) CALLOUT_FIRED.
Definition callout_active (co : callout) : bool :=
  flag_set (c_flags co) (Z.lor CALLOUT_PENDING CALLOUT_FIRED).
Definition callout_invoking (co : callout) : bool := flag_set (c_flags co) CALLOUT_INVOKING.

Definition callout_ack (co : callout) : callout :=
  co <| c_flags := flag_clear (c_flags co) CALLOUT_INVOKING |>.

(** The timer callback: the new state and the call it makes. *)
Definition wrapper_func (impl : callout) : callout * option (Z * option Z) :=
  match c_func impl with
  | None => (impl, None)
  | Some f =>
      (impl <| c_flags :=
         Z.lor (flag_clear (c_flags impl) CALLOUT_PENDING)
               (Z.lor CALLOUT_FIRED CALLOUT_INVOKING) |>,
       Some (f, c_arg impl))
  end.

(** One operation on a callout, or the expiry of its timer: a SINGLE
    timer leaves the pending list before its callback runs. *)
Inductive callout_step : callout -> callout -> Prop :=
  | step_setfunc co f a : callout_step co (callout_setfunc co (Some f) a)
  | step_schedule co d : is_Some (c_func co) -> callout_step co (callout_schedule co d)
  | step_reset co d f a : callout_step co (callout_reset co d (Some f) a)
  | step_stop co : callout_step co (callout_stop co)
  | step_halt co : callout_step co (callout_halt co)
  | step_ack co : callout_step co (callout_ack co)
  | step_expire co n : timer co = Some n ->
      callout_step co (fst (wrapper_func (co <| timer := None |>))).

Definition callout_reachable : callout -> Prop :=
  fun co => exists co0, rtc callout_step (callout_init co0) co.

Definition timer_armed (co : callout) : bool :=
  match timer co with Some _ => true | None => false end.

Definition has_func (co : callout) : bool :=
  match c_func co with Some _ => true | None => false end.

(** [PENDING] is set exactly while the DPDK timer is armed, a callout
    is never pending and fired at once, and an armed callout has a
    function to call. *)
Definition callout_wf (co : callout) : Prop :=
  callout_pending co = timer_armed co /\
  callout_pending co && callout_expired co = false /\
  implb (timer_armed co) (has_func co) = true.
End callout_ops.

Section callout_facts.
Variables timer_hz hz : Z.

Lemma callout_init_wf co : callout_wf (callout_init co).
Proof. done. Qed.

Lemma callout_step_wf co co' :
  callout_step timer_hz hz co co' -> callout_wf co -> callout_wf co'.
Proof.
  intros S W; revert W.
  destruct S; destruct co as [tm [fn|] ar ct fl];
    unfold callout_wf, callout_pending, callout_expired, timer_armed, has_func,
      callout_setfunc, callout_schedule, callout_reset, callout_stop, callout_halt,
      callout_ack, wrapper_func in *; simplify_upd; simplify_eq; flag_bits;
    destruct (Z.testbit fl 1), (Z.testbit fl 2); try destruct tm; simpl;
    intros (P & X & F); repeat split; try done.
  all: try (by destruct H).
Qed.

(** in every state reached from [callout_init] the flag
    [CALLOUT_PENDING] mirrors the DPDK timer and excludes
    [CALLOUT_FIRED]. *)
Theorem callout_reachable_wf co : callout_reachable timer_hz hz co -> callout_wf co.
Proof.
  intros [co0 R]. remember (callout_init co0) as c0 eqn:E.
  assert (callout_wf c0) as W by (subst; apply callout_init_wf).
  clear E. induction R; eauto using callout_step_wf.
Qed.
End callout_facts.

(** A delayed-ACK callout bound to a function, armed and expired. *)
Lemma callout_reachable_wf_witness :
  callout_wf (fst (wrapper_func ((callout_reset 2000 1000
    (callout_init (mkCallout None None None 7 0)) 5 (Some 1) None) <| timer := None |>))).
Proof.
  apply (callout_reachable_wf 2000 1000). exists (mkCallout None None None 7 0).
  eapply rtc_l; [apply (step_reset _ _ _ 5 1 None)|].
  eapply rtc_l; [|apply rtc_refl]. apply (step_expire _ _ _ 10). reflexivity.
Defined.
