(* ===== verification/Tcpcb.v ===== *)
(** * The TCP control block (src/netbsd/netinet/tcp_var.h, tcp.h, tcp_timer.h)

    [struct tcpcb] restricted to the fields that the modelled parts of
    TCP read or write, with the source's names; sequence numbers and
    flag words are unsigned integers kept below 2^32 by the operations
    that assign them.  The four timers are the callouts of Callout.v. *)

From S2P Require Import Prelude Pool TcpSeq Callout.

Definition TF_ACKNOW : Z := 0x0001.
Definition TF_DELACK : Z := 0x0002.
Definition TF_REQ_SCALE : Z := 0x0020.
Definition TF_RCVD_SCALE : Z := 0x0040.
Definition TF_RCVD_TSTMP : Z := 0x0100.
Definition TF_SACK_PERMIT : Z := 0x0200.
Definition TF_SYN_REXMT : Z := 0x0400.
Definition TF_WILL_SACK : Z := 0x0800.
Definition TF_DEAD : Z := 0x2000.
Definition TF_PMTUD_PEND : Z := 0x4000.
Definition TF_ECN_PERMIT : Z := 0x10000.
Definition TF_ECN_SND_CWR : Z := 0x20000.
Definition TF_ECN_SND_ECE : Z := 0x40000.

Definition TH_FIN : Z := 0x01.
Definition TH_SYN : Z := 0x02.
Definition TH_RST : Z := 0x04.
Definition TH_PUSH : Z := 0x08.
Definition TH_ACK : Z := 0x10.
Definition TH_URG : Z := 0x20.
Definition TH_ECE : Z := 0x40.
Definition TH_CWR : Z := 0x80.

(** The connection states of [tcp_fsm.h]. *)
Definition TCPS_CLOSED : Z := 0.
Definition TCPS_LISTEN : Z := 1.
Definition TCPS_SYN_SENT : Z := 2.
Definition TCPS_SYN_RECEIVED : Z := 3.
Definition TCPS_ESTABLISHED : Z := 4.
Definition TCPS_CLOSE_WAIT : Z := 5.
Definition TCPS_FIN_WAIT_1 : Z := 6.
Definition TCPS_CLOSING : Z := 7.
Definition TCPS_LAST_ACK : Z := 8.
Definition TCPS_FIN_WAIT_2 : Z := 9.
Definition TCPS_TIME_WAIT : Z := 10.

Definition TCPS_HAVERCVDSYN (s : Z) : bool := TCPS_SYN_RECEIVED <=? s.
Definition TCPS_HAVEESTABLISHED (s : Z) : bool := TCPS_ESTABLISHED <=? s.
Definition TCPS_HAVERCVDFIN (s : Z) : bool :=
  (s =? TCPS_CLOSE_WAIT) || ((TCPS_CLOSING <=? s) && negb (s =? TCPS_FIN_WAIT_2)).

Definition TCPT_NTIMERS : nat := 4.
Definition TCPT_REXMT : nat := 0.
Definition TCPT_PERSIST : nat := 1.
Definition TCPT_KEEP : nat := 2.
Definition TCPT_2MSL : nat := 3.

Definition TCPSACK_HAVED : Z := 1.
Definition TCP_SACK_MAX : Z := 3.
Definition TCP_MAXWIN : Z := 65535.
Definition MAX_TCPOPTLEN : Z := 40.

Record tcphdr := mkTcphdr {
  th_seq : tcp_seq;
  th_ack : tcp_seq;
  th_flags : Z
}.

(** [struct sackblk]: a block reported by the peer. *)
Record sackblk := mkSackblk { left : tcp_seq; right : tcp_seq }.

(** [struct sackhole]: a range the peer has not reported, with the next
    sequence number to retransmit in it; [hole_obj] is the address of
    the pool object that holds it. *)
Record sackhole := mkHole {
  hole_obj : addr;
  start : tcp_seq;
  hend : tcp_seq;
  rxmit : tcp_seq
}.

#[export] Instance eta_sackhole : EtaRecord sackhole :=
  fun r => mkHole (hole_obj r) (start r) (hend r) (rxmit r).

(** The congestion control algorithms of [tcp_congctl.c]. *)
Inductive congctl_alg := tcp_reno_ctl | tcp_newreno_ctl.

#[export] Instance congctl_alg_eq_dec : EqDecision congctl_alg.
Proof. solve_decision. Defined.

(** [t_inpcb] is whether the pointer is set, [t_lastm] the address of an mbuf
    of the send buffer; the queues [segq] and [timeq] are fields of [rconn] in TcpReass.v. *)
Record tcpcb := mkTcpcb {
  t_state : Z;
  t_rxtshift : Z;
  t_rxtcur : Z;
  t_timer : list callout;
  t_dupacks : Z;
  t_partialacks : Z;
  t_ourmss : Z;
  t_segsz : Z;
  t_force : Z;
  t_flags : Z;
  t_inpcb : bool;
  t_delack_ch : callout;
  snd_una : tcp_seq;
  snd_nxt : tcp_seq;
  snd_wnd : Z;
  snd_recover : tcp_seq;
  snd_high : tcp_seq;
  rcv_nxt : tcp_seq;
  snd_max : tcp_seq;
  snd_cwnd : Z;
  snd_ssthresh : Z;
  t_rcvtime : Z;
  t_rtttime : Z;
  t_srtt : Z;
  t_rttvar : Z;
  t_rttmin : Z;
  t_softerror : Z;
  snd_scale : Z;
  t_bytes_acked : Z;
  t_segqlen : Z;
  rcv_sack_flags : Z;
  rcv_dsack_block : sackblk;
  snd_holes : list sackhole;
  snd_numholes : Z;
  rcv_lastsack : tcp_seq;
  sack_newdata : tcp_seq;
  snd_fack : tcp_seq;
  t_mtudisc : Z;
  t_pmtud_th_seq : tcp_seq;
  t_congctl : option congctl_alg;
  t_keepidle : Z;
  t_keepintvl : Z;
  t_maxidle : Z;
  t_msl : Z;
  t_peermss : Z;
  rcv_wnd : Z;
  rcv_adv : tcp_seq;
  rcv_up : tcp_seq;
  irs : tcp_seq;
  iss : tcp_seq;
  snd_up : tcp_seq;
  snd_wl1 : tcp_seq;
  snd_wl2 : tcp_seq;
  max_sndwnd : Z;
  last_ack_sent : tcp_seq;
  ts_recent : Z;
  ts_recent_age : Z;
  ts_timebase : Z;
  t_rtseq : tcp_seq;
  requested_s_scale : Z;
  request_r_scale : Z;
  rcv_scale : Z;
  t_inoff : Z;
  t_lastoff : Z;
  t_oobflags : Z;
  t_iobc : Z;
  rfbuf_ts : Z;
  rfbuf_cnt : Z;
  t_pmtud_mss_acked : Z;
  t_lastm : option addr;
  t_lastlen : Z;
  t_pmtud_mtu_sent : Z;
  t_ecn_retries : Z
}.

#[export] Instance eta_tcpcb : EtaRecord tcpcb :=
  fun r => mkTcpcb (t_state r) (t_rxtshift r) (t_rxtcur r) (t_timer r) (t_dupacks r) (t_partialacks r) (t_ourmss r) (t_segsz r) (t_force r) (t_flags r) (t_inpcb r) (t_delack_ch r) (snd_una r) (snd_nxt r) (snd_wnd r) (snd_recover r) (snd_high r) (rcv_nxt r) (snd_max r) (snd_cwnd r) (snd_ssthresh r) (t_rcvtime r) (t_rtttime r) (t_srtt r) (t_rttvar r) (t_rttmin r)
    (t_softerror r) (snd_scale r) (t_bytes_acked r) (t_segqlen r) (rcv_sack_flags r)
    (rcv_dsack_block r) (snd_holes r) (snd_numholes r) (rcv_lastsack r) (sack_newdata r)
    (snd_fack r) (t_mtudisc r) (t_pmtud_th_seq r) (t_congctl r) (t_keepidle r) (t_keepintvl r)
    (t_maxidle r) (t_msl r) (t_peermss r) (rcv_wnd r) (rcv_adv r) (rcv_up r) (irs r) (iss r)
    (snd_up r) (snd_wl1 r) (snd_wl2 r) (max_sndwnd r) (last_ack_sent r) (ts_recent r) (ts_recent_age r)
    (ts_timebase r) (t_rtseq r) (requested_s_scale r) (request_r_scale r) (rcv_scale r)
    (t_inoff r) (t_lastoff r) (t_oobflags r) (t_iobc r) (rfbuf_ts r) (rfbuf_cnt r) (t_pmtud_mss_acked r) (t_lastm r)
    (t_lastlen r) (t_pmtud_mtu_sent r) (t_ecn_retries r).

Definition TCP_SACK_ENABLED (tp : tcpcb) : bool := flag_set (t_flags tp) TF_WILL_SACK.
Definition TCP_ECN_ALLOWED (tp : tcpcb) : bool := flag_set (t_flags tp) TF_ECN_PERMIT.

(** [TCP_TIMER_DISARM(tp, timer)] *)
Definition TCP_TIMER_DISARM (tp : tcpcb) (i : nat) : tcpcb :=
  match t_timer tp !! i with
  | Some co => tp <| t_timer := <[i := callout_stop co]> (t_timer tp) |>
  | None => tp
  end.

Definition callout_zero : callout := mkCallout None None None 0 0.

(** An idle control block, as [memset] and the template of
    [tcp_newtcpcb] leave these fields; concrete inputs start from it. *)
Definition tcpcb_zero : tcpcb :=
  mkTcpcb 0 0 0 (replicate TCPT_NTIMERS callout_zero) 0 (-1) 0 0 0 0 true callout_zero 0 0
    0 0 0 0 0 0 0 0 0 0 0 0 0 0 0 0 0 (mkSackblk 0 0) [] 0 0 0 0 0 0 None 0 0 0 0
    0 0 0 0 0 0 0 0 0 0 0 0 0 0 0 0 0 0 0 0 0 0 0 0 0 None 0 0 0.

Lemma callout_stop_inactive co : callout_active (callout_stop co) = false.
Proof. unfold callout_active, callout_stop; simplify_upd. flag_bits. done. Qed.

(** Disarming a timer touches that timer only and leaves it inactive. *)
Lemma TCP_TIMER_DISARM_spec tp i :
  exists ts, TCP_TIMER_DISARM tp i = tp <| t_timer := ts |> /\
    (forall co, ts !! i = Some co -> callout_active co = false) /\
    (forall j, j <> i -> ts !! j = t_timer tp !! j).
Proof.
  unfold TCP_TIMER_DISARM. destruct (t_timer tp !! i) as [co|] eqn:E.
  - eexists; split; [done|]. split.
    + intros co'. rewrite list_lookup_insert_eq by (eapply lookup_lt_Some; done).
      intros [= <-]. apply callout_stop_inactive.
    + intros j Hj. by rewrite list_lookup_insert_ne.
  - exists (t_timer tp). split; [by destruct tp|]. split; [congruence|done].
Qed.
