(* ===== verification/TcpSack.v ===== *)
(** * TCP selective acknowledgements (src/netbsd/netinet/tcp_sack.c)

    The sender's scoreboard: [snd_holes] is the queue of ranges below
    [rcv_lastsack] that the peer has not reported.  A pointer to an
    element of the queue is its index, NULL is [None].  The module
    globals are threaded through every operation. *)

From S2P Require Import Prelude Pool TcpSeq Callout Tcpcb.

(** ** Globals of the module *)
Record sack_globals := mkSackGlobals {
  sackhole_pool : pool;
  tcp_sack_tp_maxholes : Z;
  tcp_sack_globalmaxholes : Z;
  tcp_sack_globalholes : Z
}.

#[export] Instance eta_sack_globals : EtaRecord sack_globals :=
  fun r => mkSackGlobals (sackhole_pool r) (tcp_sack_tp_maxholes r)
    (tcp_sack_globalmaxholes r) (tcp_sack_globalholes r).

(** [tcp_sack_init], with the limits of [tcp_subr.c]. *)
Definition tcp_sack_init (TCP_SACK_HOLES_COUNT : nat) : sack_globals :=
  mkSackGlobals (pool_init TCP_SACK_HOLES_COUNT) 32 1024 0.

(** ** Allocation and removal of holes *)
Definition sack_allochole (g : sack_globals) (tp : tcpcb)
    : option (addr * sack_globals * tcpcb) :=
  if (tcp_sack_tp_maxholes g <=? snd_numholes tp)
     || (tcp_sack_globalmaxholes g <=? tcp_sack_globalholes g)
  then None
  else
    match pool_get (sackhole_pool g) with
    | None => None
    | Some (hole, pp) =>
        Some (hole,
              g <| sackhole_pool := pp |>
                <| tcp_sack_globalholes := s32 (tcp_sack_globalholes g + 1) |>,
              tp <| snd_numholes := s32 (snd_numholes tp + 1) |>)
    end.

(** The new hole goes after [prev], or to the tail when [prev] is NULL;
    returns its position. *)
Definition sack_inserthole (g : sack_globals) (tp : tcpcb) (st en : tcp_seq)
    (prev : option nat) : option (nat * sack_globals * tcpcb) :=
  match sack_allochole g tp with
  | None => None
  | Some (obj, g, tp) =>
      let hole := mkHole obj st en st in
      let hs := snd_holes tp in
      match prev with
      | Some i =>
          Some (S i, g, tp <| snd_holes := take (S i) hs ++ hole :: drop (S i) hs |>)
      | None => Some (length hs, g, tp <| snd_holes := hs ++ [hole] |>)
      end
  end.

(** Returns the hole that followed: after the removal it has taken the
    removed one's position. *)
Definition sack_removehole (g : sack_globals) (tp : tcpcb) (i : nat)
    : option nat * sack_globals * tcpcb :=
  match snd_holes tp !! i with
  | None => (None, g, tp)
  | Some hole =>
      let hs := delete i (snd_holes tp) in
      ((if decide (i < length hs)%nat then Some i else None),
       g <| tcp_sack_globalholes := s32 (tcp_sack_globalholes g - 1) |>
         <| sackhole_pool := pool_put (sackhole_pool g) (hole_obj hole) |>,
       tp <| snd_numholes := s32 (snd_numholes tp - 1) |> <| snd_holes := hs |>)
  end.

(** ** tcp_new_dsack *)
Definition tcp_new_dsack (tp : tcpcb) (seq : tcp_seq) (len : Z) : tcpcb :=
  if TCP_SACK_ENABLED tp then
    tp <| rcv_dsack_block := mkSackblk seq (u32 (seq + len)) |>
       <| rcv_sack_flags := Z.lor (rcv_sack_flags tp) TCPSACK_HAVED |>
  else tp.

(** ** tcp_sack_option *)

(** [memcpy] of a [uint32_t] followed by [ntohl]; [None] outside of the option. *)
Definition get_be32 (lp : list Z) : option Z :=
  a ← lp !! 0%nat; b ← lp !! 1%nat; c ← lp !! 2%nat; d ← lp !! 3%nat;
  Some (Z.shiftl a 24 + Z.shiftl b 16 + Z.shiftl c 8 + d).

(** A block that is old or invalid. *)
Definition sack_skip (tp : tcpcb) (acked : tcp_seq) (b : sackblk) : bool :=
  SEQ_LEQ (right b) acked || SEQ_GT (right b) (snd_max tp) || SEQ_GEQ (left b) (right b).

(** One insertion step of the sort, moving from the end of the array
    (kept reversed) towards its start. *)
Fixpoint sack_insert_rev (b : sackblk) (rev_blocks : list sackblk) : list sackblk :=
  match rev_blocks with
  | [] => [b]
  | e :: r => if SEQ_LT (left b) (left e) then e :: sack_insert_rev b r else b :: rev_blocks
  end.

(** The extraction loop; [n] is [num_sack_blks - i], which each
    iteration decreases by one, and the result is [t_sack_block]. *)
Fixpoint sack_extract (tp : tcpcb) (acked : tcp_seq) (n : nat) (lp : list Z)
    (t_sack_block : list sackblk) : option (list sackblk) :=
  match n with
  | O => Some t_sack_block
  | S n =>
      left ← get_be32 lp;
      right ← get_be32 (drop 4 lp);
      let b := mkSackblk left right in
      sack_extract tp acked n (drop 8 lp)
        (if sack_skip tp acked b then t_sack_block
         else rev (sack_insert_rev b (rev t_sack_block)))
  end.

(** How the walk over the holes for one block ends: at a position (NULL
    when the tail was passed), with the early return when no hole could
    be allocated, or not at all. *)
Inductive walk_result :=
  | WalkBreak (cur : option nat) (g : sack_globals) (tp : tcpcb)
  | WalkReturn (g : sack_globals) (tp : tcpcb)
  | WalkForever.

(** [while (cur)]: [rest] is the queue from position [i] on, whose head
    is [cur]. *)
Fixpoint sack_walk (sack : sackblk) (g : sack_globals) (tp : tcpcb) (i : nat)
    (rest : list sackhole) : walk_result :=
  match rest with
  | [] => WalkBreak None g tp
  | cur :: next =>
      if SEQ_LEQ (right sack) (start cur) then WalkBreak (Some i) g tp
      else if SEQ_GEQ (left sack) (hend cur) then sack_walk sack g tp (S i) next
      else if SEQ_LEQ (left sack) (start cur) then
        if SEQ_GEQ (right sack) (hend cur) then
          let '(cur', g, tp) := sack_removehole g tp i in WalkBreak cur' g tp
        else
          let cur := cur <| start := right sack |> in
          let cur := cur <| rxmit := SEQ_MAX (rxmit cur) (start cur) |> in
          WalkBreak (Some i) g (tp <| snd_holes := <[i := cur]> (snd_holes tp) |>)
      else if SEQ_GEQ (right sack) (hend cur) then
        let cur := cur <| hend := left sack |> in
        let cur := cur <| rxmit := SEQ_MIN (rxmit cur) (hend cur) |> in
        WalkBreak (match next with [] => None | _ => Some (S i) end) g
          (tp <| snd_holes := <[i := cur]> (snd_holes tp) |>)
      else if SEQ_LT (start cur) (left sack) && SEQ_GT (hend cur) (right sack) then
        match sack_inserthole g tp (right sack) (hend cur) (Some i) with
        | None => WalkReturn g tp
        | Some (j, g, tp) =>
            let tp := tp <| snd_holes :=
              alter (fun tmp => tmp <| rxmit := SEQ_MAX (rxmit cur) (start tmp) |>) j
                (snd_holes tp) |> in
            let cur := cur <| hend := left sack |> in
            let cur := cur <| rxmit := SEQ_MIN (rxmit cur) (hend cur) |> in
            WalkBreak (Some j) g (tp <| snd_holes := <[i := cur]> (snd_holes tp) |>)
        end
      else WalkForever
  end.

(** The scoreboard update, block by block; [None] would be a walk that
    does not terminate. *)
Fixpoint sack_update (th : tcphdr) (blocks : list sackblk) (g : sack_globals) (tp : tcpcb)
    (cur : option nat) : option (sack_globals * tcpcb) :=
  match blocks with
  | [] => Some (g, tp)
  | sack :: blocks =>
      let tp := if SEQ_GEQ (right sack) (snd_fack tp)
                then tp <| snd_fack := right sack |> else tp in
      match snd_holes tp with
      | [] =>
          match sack_inserthole g tp (th_ack th) (left sack) None with
          | None => Some (g, tp)
          | Some (j, g, tp) =>
              sack_update th blocks g (tp <| rcv_lastsack := right sack |>) (Some j)
          end
      | _ =>
          match (match cur with
                 | None => WalkBreak None g tp
                 | Some i => sack_walk sack g tp i (drop i (snd_holes tp))
                 end) with
          | WalkForever => None
          | WalkReturn g tp => Some (g, tp)
          | WalkBreak cur g tp =>
              let finish cur g tp :=
                let tp := if SEQ_LT (rcv_lastsack tp) (right sack)
                          then tp <| rcv_lastsack := right sack |> else tp in
                sack_update th blocks g tp cur in
              if SEQ_LT (rcv_lastsack tp) (left sack) then
                match sack_inserthole g tp (rcv_lastsack tp) (left sack) None with
                | None => Some (g, tp)
                | Some (j, g, tp) => finish (Some j) g tp
                end
              else finish cur g tp
          end
      end
  end.

Definition sack_acked (tp : tcpcb) (th : tcphdr) : tcp_seq :=
  if SEQ_GT (th_ack th) (snd_una tp) then th_ack th else snd_una tp.

Definition sack_first (hs : list sackhole) : option nat :=
  match hs with [] => None | _ => Some 0%nat end.

Definition tcp_sack_option (g : sack_globals) (tp : tcpcb) (th : tcphdr) (cp : list Z)
    (optlen : Z) : option (sack_globals * tcpcb) :=
  if negb (TCP_SACK_ENABLED tp) || negb (flag_set (th_flags th) TH_ACK)
     || (negb (optlen mod 8 =? 2) || (optlen <? 10)) then Some (g, tp)
  else if (tcp_sack_globalmaxholes g =? 0) || (tcp_sack_tp_maxholes g =? 0) then Some (g, tp)
  else if SEQ_LT (th_ack th) (snd_una tp) || SEQ_GT (th_ack th) (snd_max tp) then Some (g, tp)
  else
    let num_sack_blks := Z.to_nat (optlen / 8) in
    blocks ← sack_extract tp (sack_acked tp th) num_sack_blks (drop 2 cp) [];
    sack_update th blocks g tp (sack_first (snd_holes tp)).

(** ** tcp_del_sackholes *)
Fixpoint del_sackholes_loop (lastack : tcp_seq) (g : sack_globals) (tp : tcpcb)
    (rest : list sackhole) : sack_globals * tcpcb :=
  match rest with
  | [] => (g, tp)
  | cur :: next =>
      if SEQ_LEQ (hend cur) lastack then
        let '(_, g, tp) := sack_removehole g tp 0 in del_sackholes_loop lastack g tp next
      else if SEQ_LT (start cur) lastack then
        let cur := cur <| start := lastack |> in
        let cur := if SEQ_LT (rxmit cur) (start cur)
                   then cur <| rxmit := start cur |> else cur in
        (g, tp <| snd_holes := <[0%nat := cur]> (snd_holes tp) |>)
      else (g, tp)
  end.

Definition tcp_del_sackholes (g : sack_globals) (tp : tcpcb) (th : tcphdr)
    : sack_globals * tcpcb :=
  del_sackholes_loop (sack_acked tp th) g tp (snd_holes tp).

(** ** tcp_free_sackholes *)
Fixpoint free_sackholes_loop (g : sack_globals) (tp : tcpcb) (hs : list sackhole)
    : sack_globals * tcpcb :=
  match hs with
  | [] => (g, tp)
  | _ :: next => let '(_, g, tp) := sack_removehole g tp 0 in free_sackholes_loop g tp next
  end.

Definition tcp_free_sackholes (g : sack_globals) (tp : tcpcb) : sack_globals * tcpcb :=
  free_sackholes_loop g tp (snd_holes tp).

(** ** tcp_sack_output

    The hole to retransmit from (its position) and [*sack_bytes_rexmt],
    which is left alone ([None]) when SACK is off. *)
Fixpoint sack_output_loop (una : tcp_seq) (hs : list sackhole) (i : nat) (bytes : Z)
    : option nat * Z :=
  match hs with
  | [] => (None, bytes)
  | cur :: next =>
      if SEQ_LT (rxmit cur) (hend cur) then
        if SEQ_LT (rxmit cur) una then sack_output_loop una next (S i) bytes
        else (Some i, s32 (bytes + u32 (rxmit cur - start cur)))
      else sack_output_loop una next (S i) (s32 (bytes + u32 (rxmit cur - start cur)))
  end.

Definition tcp_sack_output (tp : tcpcb) : option nat * option Z :=
  if negb (TCP_SACK_ENABLED tp) then (None, None)
  else let '(cur, bytes) := sack_output_loop (snd_una tp) (snd_holes tp) 0 0 in
       (cur, Some bytes).

(** ** tcp_sack_adjust *)
Fixpoint sack_adjust_loop (tp : tcpcb) (cur : sackhole) (rest : list sackhole) : tcpcb :=
  match rest with
  | n :: rest =>
      if SEQ_LT (snd_nxt tp) (hend cur) then tp
      else if SEQ_GEQ (snd_nxt tp) (start n) then sack_adjust_loop tp n rest
      else tp <| snd_nxt := start n |>
  | [] =>
      if SEQ_LT (snd_nxt tp) (hend cur) then tp
      else tp <| snd_nxt := rcv_lastsack tp |>
  end.

Definition tcp_sack_adjust (tp : tcpcb) : tcpcb :=
  match snd_holes tp with
  | [] => tp
  | cur :: rest =>
      if SEQ_GEQ (snd_nxt tp) (rcv_lastsack tp) then tp
      else sack_adjust_loop tp cur rest
  end.

(** ** tcp_sack_numblks *)
Definition tcp_sack_numblks (tp : tcpcb) : Z :=
  if negb (TCP_SACK_ENABLED tp) then 0
  else
    let numblks := (if flag_set (rcv_sack_flags tp) TCPSACK_HAVED then 1 else 0)
                   + t_segqlen tp in
    if numblks =? 0 then 0
    else if TCP_SACK_MAX <? numblks then TCP_SACK_MAX else numblks.

(** ** tcp_sack_newack

    [tcp_output] is the send routine of [tcp_output.c]. *)
Definition tcp_sack_newack (tcp_output : tcpcb -> tcpcb) (tp : tcpcb) (th : tcphdr) : tcpcb :=
  if t_partialacks tp <? 0 then tp <| t_dupacks := 0 |>
  else if SEQ_LT (th_ack th) (snd_recover tp) then
    let tp := tp <| t_partialacks := s16 (t_partialacks tp + 1) |> in
    let tp := TCP_TIMER_DISARM tp TCPT_REXMT in
    let tp := tp <| t_rtttime := 0 |> in
    let num_segs := if 2 <? u32 (th_ack th - snd_una tp) / t_segsz tp then 2 else 1 in
    let sack_bytes_rxmt := default 0 (snd (tcp_sack_output tp)) in
    let tp := tp <| snd_cwnd :=
      u32 (sack_bytes_rxmt + (snd_nxt tp - sack_newdata tp) + num_segs * t_segsz tp) |> in
    let tp := tp <| t_flags := Z.lor (t_flags tp) TF_ACKNOW |> in
    tcp_output tp
  else
    let tp := tp <| snd_cwnd :=
      if SEQ_SUB (snd_max tp) (th_ack th) <? snd_ssthresh tp
      then u64 (SEQ_SUB (snd_max tp) (th_ack th) + t_segsz tp)
      else snd_ssthresh tp |> in
    let tp := tp <| t_partialacks := -1 |> <| t_dupacks := 0 |> in
    if SEQ_GT (th_ack th) (snd_fack tp) then tp <| snd_fack := th_ack th |> else tp.
