(* ===== verification/TcpSackFacts.v ===== *)
(** * Correctness of the SACK scoreboard

    Theorems about TcpSack.v.  Sequence numbers are compared by their
    offset above [snd_una]; everything of interest lies in the window
    [snd_una .. snd_max], which TCP keeps below 2^31. *)

From S2P Require Import Prelude Pool TcpSeq Callout Tcpcb TcpSack.

(** ** The invariant *)

(** The holes are nonempty, disjoint, in order, between offsets [lo] and [hi], and
    each has its retransmission point inside. *)
Fixpoint holes_wf (b : tcp_seq) (lo hi : Z) (hs : list sackhole) : Prop :=
  match hs with
  | [] => lo <= hi
  | h :: hs =>
      lo <= off b (start h) <= off b (rxmit h) /\
      (off b (rxmit h) <= off b (hend h) /\ off b (start h) < off b (hend h)) /\
      holes_wf b (off b (hend h)) hi hs
  end.

(** Offset [x] lies in some hole. *)
Definition in_hole (b : tcp_seq) (x : Z) (h : sackhole) : Prop :=
  off b (start h) <= x < off b (hend h).
Definition in_holes (b : tcp_seq) (hs : list sackhole) (x : Z) : Prop :=
  Exists (in_hole b x) hs.

Definition in_block (b : tcp_seq) (x : Z) (blk : sackblk) : Prop :=
  off b (left blk) <= x < off b (right blk).

(** The counters agree with the queue ([others] holes belong to other
    connections) and every pool object is free or in exactly one hole. *)
Definition sack_acct (others : Z) (objs : list addr) (g : sack_globals) (tp : tcpcb) : Prop :=
  snd_numholes tp = Z.of_nat (length (snd_holes tp)) /\
  tcp_sack_globalholes g = others + Z.of_nat (length (snd_holes tp)) /\
  0 <= others /\ others + Z.of_nat (length (snd_holes tp)) < 2 ^ 31 /\
  tcp_sack_globalmaxholes g < 2 ^ 31 /\
  pool_objects (sackhole_pool g) (hole_obj <$> snd_holes tp) ≡ₚ objs.

Definition sack_board (tp : tcpcb) : Prop :=
  snd_holes tp = [] \/
  (holes_wf (snd_una tp) 0 (off (snd_una tp) (rcv_lastsack tp)) (snd_holes tp) /\
   off (snd_una tp) (rcv_lastsack tp) <= off (snd_una tp) (snd_max tp)).

Definition sack_inv (others : Z) (objs : list addr) (g : sack_globals) (tp : tcpcb) : Prop :=
  sack_acct others objs g tp /\ sack_board tp /\
  off (snd_una tp) (snd_max tp) < 2 ^ 31.

(** A block lies above the cumulative acknowledgement, as RFC 2018
    requires of the receiver. *)
Definition peer_ok (th : tcphdr) (blk : sackblk) : Prop :=
  SEQ_LT (th_ack th) (left blk) = true.

(** What survives of the control block: only the scoreboard changes. *)
Definition same_window (tp tp' : tcpcb) : Prop :=
  snd_una tp' = snd_una tp /\ snd_max tp' = snd_max tp.

(** ** Lists of holes *)
Section holes.
Variable b : tcp_seq.
Implicit Types hs : list sackhole.

Lemma holes_wf_le lo hi hs : holes_wf b lo hi hs -> lo <= hi.
Proof.
  revert lo; induction hs as [|h hs IH]; simpl; intros lo; [done|].
  intros (? & ? & H). apply IH in H. lia.
Qed.

Lemma holes_wf_app lo hi hs1 hs2 :
  holes_wf b lo hi (hs1 ++ hs2) <->
  exists mid, holes_wf b lo mid hs1 /\ holes_wf b mid hi hs2.
Proof.
  revert lo; induction hs1 as [|h hs1 IH]; intros lo; simpl.
  - split; [by exists lo; split; [lia|]|]. intros (m & Hm & H).
    destruct hs2; simpl in *; intuition lia.
  - rewrite IH. split.
    + intros (? & ? & m & ? & ?); exists m; done.
    + intros (m & (? & ? & ?) & ?); eauto 6.
Qed.

Lemma holes_wf_weaken lo lo' hi hi' hs :
  holes_wf b lo hi hs -> lo' <= lo -> hi <= hi' -> holes_wf b lo' hi' hs.
Proof.
  revert lo lo'; induction hs as [|h hs IH]; simpl; intros lo lo'; [lia|].
  intros (? & ? & H) ??. repeat split; try lia. eapply IH; eauto; lia.
Qed.

Lemma in_holes_app hs1 hs2 x : in_holes b (hs1 ++ hs2) x <-> in_holes b hs1 x \/ in_holes b hs2 x.
Proof. apply Exists_app. Qed.

Lemma in_holes_cons h hs x : in_holes b (h :: hs) x <-> in_hole b x h \/ in_holes b hs x.
Proof. apply Exists_cons. Qed.

Lemma in_holes_range lo hi hs x : holes_wf b lo hi hs -> in_holes b hs x -> lo <= x < hi.
Proof.
  revert lo; induction hs as [|h hs IH]; intros lo; simpl.
  - intros _ H; inversion H.
  - intros (? & ? & H) [Hx|Hx]%in_holes_cons.
    + apply holes_wf_le in H. unfold in_hole in Hx. lia.
    + eapply IH in Hx; [|done]. lia.
Qed.

(** The offset of a hole that follows [pre]. *)
Lemma holes_wf_cursor lo hi pre h post :
  holes_wf b lo hi (pre ++ h :: post) <->
  exists mid, holes_wf b lo mid pre /\ mid <= off b (start h) <= off b (rxmit h) /\
    (off b (rxmit h) <= off b (hend h) /\ off b (start h) < off b (hend h)) /\
    holes_wf b (off b (hend h)) hi post.
Proof. rewrite holes_wf_app. done. Qed.
End holes.

(** ** Accounting of allocation and removal *)

(** The fields outside the scoreboard's queue and counter. *)
Definition frame (tp tp' : tcpcb) : Prop :=
  same_window tp tp' /\ rcv_lastsack tp' = rcv_lastsack tp.

Lemma frame_refl tp : frame tp tp.
Proof. done. Qed.

Lemma frame_holes tp hs : frame tp (tp <| snd_holes := hs |>).
Proof. done. Qed.

#[export] Hint Resolve frame_refl frame_holes : stack.

Section accounting.
Variables (others : Z) (objs : list addr).
Implicit Types (g : sack_globals) (tp : tcpcb).

(** Changing holes in place keeps the accounts. *)
Lemma sack_acct_holes g tp hs :
  hole_obj <$> hs = hole_obj <$> snd_holes tp ->
  sack_acct others objs g tp -> sack_acct others objs g (tp <| snd_holes := hs |>).
Proof.
  intros E (? & ? & ? & ? & ? & ?).
  assert (length hs = length (snd_holes tp)) as L
    by (rewrite <- (length_fmap hole_obj hs), E; apply length_fmap).
  unfold sack_acct; simplify_upd. rewrite L, E. done.
Qed.

Lemma sack_inserthole_spec g tp st en prev j g' tp' :
  sack_inserthole g tp st en prev = Some (j, g', tp') ->
  sack_acct others objs g tp ->
  sack_acct others objs g' tp' /\ frame tp tp' /\
  exists obj, snd_holes tp' =
    match prev with
    | Some i => take (S i) (snd_holes tp) ++ mkHole obj st en st :: drop (S i) (snd_holes tp)
    | None => snd_holes tp ++ [mkHole obj st en st]
    end /\ j = match prev with Some i => S i | None => length (snd_holes tp) end.
Proof.
  unfold sack_inserthole, sack_allochole. intros H (N & G & O & L & M & P).
  destruct (_ || _) eqn:Lim; [done|]. apply orb_false_iff in Lim as [L1 L2].
  destruct (pool_get _) as [[obj pp]|] eqn:Get; [|done].
  apply (pool_get_objects _ _ _ (hole_obj <$> snd_holes tp)) in Get.
  assert (forall hs, hole_obj <$> hs ≡ₚ obj :: (hole_obj <$> snd_holes tp) ->
    length hs = S (length (snd_holes tp))) as Len.
  { intros hs E. apply Permutation_length in E. simpl in E. rewrite !length_fmap in E. done. }
  destruct prev; simplify_eq H; intros <- <- <-; simplify_upd;
    (split; [|split; [done|eauto]]);
    (match goal with |- sack_acct _ _ _ ?t =>
       assert (hole_obj <$> snd_holes t ≡ₚ obj :: (hole_obj <$> snd_holes tp)) as E end;
     [simpl|]).
  1: { rewrite <- (take_drop (S n) (snd_holes tp)) at 3.
       rewrite !fmap_app, fmap_cons. symmetry. apply Permutation_middle. }
  2: { rewrite fmap_app. symmetry. apply (Permutation_cons_append _ obj). }
  all: pose proof (Len _ E) as Ln; simpl in Ln; unfold sack_acct, s32; simpl;
    rewrite Ln, ?Z.mod_small by lia; repeat split; try lia.
  all: etransitivity; [|exact P]; etransitivity; [|exact Get];
    unfold pool_objects; simpl; apply Permutation_app_head; done.
Qed.

Lemma sack_removehole_spec g tp pre h post cur g' tp' :
  snd_holes tp = pre ++ h :: post ->
  sack_removehole g tp (length pre) = (cur, g', tp') ->
  sack_acct others objs g tp ->
  sack_acct others objs g' tp' /\ frame tp tp' /\ snd_holes tp' = pre ++ post /\
  cur = match post with [] => None | _ => Some (length pre) end.
Proof.
  intros Hs. unfold sack_removehole. rewrite Hs, list_lookup_middle by done.
  rewrite delete_middle. intros H (N & G & O & L & M & P). simplify_eq H; intros <- <- <-.
  simplify_upd. rewrite Hs in *. rewrite length_app in *. simpl in *.
  split; [|split; [done|split; [done|]]].
  - unfold sack_acct, s32; simpl. rewrite length_app, !Z.mod_small by lia.
    repeat split; try lia. rewrite <- P, pool_put_objects.
    unfold pool_objects; simpl. rewrite !fmap_app, fmap_cons.
    apply Permutation_app_head, Permutation_middle.
  - case_decide; destruct post; simpl in *; [lia|done|done|lia].
Qed.
End accounting.

(** ** The walk for one block *)

(** [hs'] still holds every missing offset outside the block and no new
    one. *)
Definition cut_by (b : tcp_seq) (blk : sackblk) (hs hs' : list sackhole) : Prop :=
  (forall x, in_holes b hs x -> ~ in_block b x blk -> in_holes b hs' x) /\
  (forall x, in_holes b hs' x -> in_holes b hs x).

Lemma cut_by_refl b blk hs : cut_by b blk hs hs.
Proof. split; auto. Qed.

(** Replacing one hole by some that cover at least what the block left
    of it, and at most the hole. *)
Lemma cut_by_cursor b blk pre h mid post :
  (forall x, in_hole b x h -> ~ in_block b x blk -> in_holes b mid x) ->
  (forall x, in_holes b mid x -> in_hole b x h) ->
  cut_by b blk (pre ++ h :: post) (pre ++ mid ++ post).
Proof.
  intros A B; split; intros x; rewrite !in_holes_app, in_holes_cons; intuition auto.
Qed.

Definition block_ok (b : tcp_seq) (blk : sackblk) : Prop :=
  off b (left blk) < off b (right blk) /\ off b (right blk) < 2 ^ 31.

Section walk.
Variables (b : tcp_seq) (others : Z) (objs : list addr) (blk : sackblk) (hi : Z).
Hypothesis Hblk : block_ok b blk.
Hypothesis Hhi : hi < 2 ^ 31.

Definition walk_post (tp : tcpcb) (g' : sack_globals) (tp' : tcpcb) : Prop :=
  sack_acct others objs g' tp' /\ frame tp tp' /\
  holes_wf b 0 hi (snd_holes tp') /\ cut_by b blk (snd_holes tp) (snd_holes tp').

(** A walk that replaces the hole at the cursor in place. *)
Lemma walk_replace g tp pre h h' post :
  snd_holes tp = pre ++ h :: post -> sack_acct others objs g tp ->
  hole_obj h' = hole_obj h ->
  holes_wf b 0 hi (pre ++ h' :: post) ->
  (forall x, in_hole b x h -> ~ in_block b x blk -> in_hole b x h') ->
  (forall x, in_hole b x h' -> in_hole b x h) ->
  walk_post tp g (tp <| snd_holes := <[length pre := h']> (snd_holes tp) |>).
Proof.
  intros Hs A O W C1 C2. unfold walk_post. rewrite Hs, insert_cursor by done.
  split; [|split; [done|split; [done|]]].
  - apply sack_acct_holes; [|done]. rewrite Hs, !fmap_app, !fmap_cons, O. done.
  - simplify_upd. apply (cut_by_cursor b blk pre h [h'] post).
    + intros; apply in_holes_cons; auto.
    + intros x [?|E]%in_holes_cons; [auto|inversion E].
Qed.

Lemma sack_walk_spec g tp pre rest :
  snd_holes tp = pre ++ rest -> holes_wf b 0 hi (snd_holes tp) ->
  sack_acct others objs g tp ->
  match sack_walk blk g tp (length pre) rest with
  | WalkBreak _ g' tp' => walk_post tp g' tp'
  | WalkReturn g' tp' => g' = g /\ tp' = tp
  | WalkForever => False
  end.
Proof using Hblk Hhi.
  revert pre; induction rest as [|h post IH]; intros pre Hs W A; simpl.
  { split; [done|split; [done|split; [done|apply cut_by_refl]]]. }
  destruct Hblk as [B1 B2]. pose proof (off_range b (left blk)) as B0.
  pose proof W as W'. rewrite Hs in W'.
  apply holes_wf_cursor in W' as (mid & Wpre & S1 & S2 & Wpost).
  pose proof (holes_wf_le _ _ _ _ Wpost). pose proof (off_range b (start h)).
  pose proof (holes_wf_le _ _ _ _ Wpre).
  seq_off b.
  destruct (Z.leb_spec (off b (right blk)) (off b (start h))).
  { split; [done|split; [done|split; [done|apply cut_by_refl]]]. }
  destruct (Z.leb_spec (off b (hend h)) (off b (left blk))).
  { specialize (IH (pre ++ [h])). rewrite length_app, Nat.add_comm in IH. simpl in IH.
    apply IH; [by rewrite <- app_assoc|done|done]. }
  destruct (Z.leb_spec (off b (left blk)) (off b (start h)));
    destruct (Z.leb_spec (off b (hend h)) (off b (right blk))).
  - destruct (sack_removehole g tp (length pre)) as [[cur g'] tp'] eqn:R.
    eapply sack_removehole_spec in R as (A' & F & Hs' & _); [|done|done].
    split; [done|split; [done|]]. rewrite Hs'. split.
    + apply holes_wf_app. exists mid. split; [done|]. eapply holes_wf_weaken; [done|lia|lia].
    + rewrite Hs. apply (cut_by_cursor b blk pre h [] post).
      * unfold in_hole, in_block; intros; lia.
      * intros x E; inversion E.
  - simplify_upd. eapply walk_replace; [done|done|done| | |]; simpl.
    + apply holes_wf_cursor. exists mid. simpl. rewrite off_SEQ_MAX by lia. repeat split; try done; lia.
    + unfold in_hole, in_block; simpl; intros; lia.
    + unfold in_hole; simpl; intros; lia.
  - simplify_upd. eapply walk_replace; [done|done|done| | |]; simpl.
    + apply holes_wf_cursor. exists mid. simpl. rewrite off_SEQ_MIN by lia.
      repeat split; try lia; try done. eapply holes_wf_weaken; [done|lia|lia].
    + unfold in_hole, in_block; simpl; intros; lia.
    + unfold in_hole; simpl; intros; lia.
  - destruct (Z.ltb_spec (off b (start h)) (off b (left blk))); [|lia].
    destruct (Z.ltb_spec (off b (right blk)) (off b (hend h))); [|lia]. simpl.
    destruct (sack_inserthole g tp (right blk) (hend h) (Some (length pre)))
      as [[[j g'] tp']|] eqn:I; [|done].
    apply (sack_inserthole_spec others objs) in I as (A' & F & obj & Hs' & ->); [|done].
    rewrite Hs, take_S_cursor, drop_S_cursor, <- app_assoc in Hs'. simpl in Hs'.
    simplify_upd. rewrite Hs', alter_cursor, insert_cursor by done.
    split; [|split; [done|split]]; simpl.
    + apply sack_acct_holes; [|done]. by rewrite Hs', !fmap_app, !fmap_cons.
    + apply holes_wf_cursor. exists mid. simpl. rewrite off_SEQ_MIN, off_SEQ_MAX by lia.
      repeat split; try lia; done.
    + rewrite Hs. refine (cut_by_cursor b blk pre h [_; _] post _ _).
      * intros x; rewrite !in_holes_cons; unfold in_hole, in_block; simpl; intros; lia.
      * intros x; rewrite !in_holes_cons; unfold in_hole; simpl.
        intros [?|[?|E]]; [lia|lia|inversion E].
Qed.
End walk.

(** ** Extraction of the blocks *)

Lemma sack_insert_rev_perm blk r : sack_insert_rev blk r ≡ₚ blk :: r.
Proof.
  induction r as [|e r IH]; simpl; [done|]. case_match; [|done]. rewrite IH. constructor.
Qed.

Lemma sack_insert_perm blk l : rev (sack_insert_rev blk (rev l)) ≡ₚ blk :: l.
Proof. rewrite <- Permutation_rev, sack_insert_rev_perm, <- Permutation_rev. done. Qed.

Lemma get_be32_in lp : (4 <= length lp)%nat -> is_Some (get_be32 lp).
Proof. intros L. do 4 (destruct lp as [|? lp]; [simpl in L; lia|]). by eexists. Qed.

(** Every block that is read lies in the option. *)
Lemma sack_extract_total tp acked n : forall lp acc, (8 * n <= length lp)%nat -> is_Some (sack_extract tp acked n lp acc).
Proof.
  induction n as [|n IH]; intros lp acc L; simpl; [by eexists|].
  destruct (get_be32_in lp) as [l ->]; [lia|]. destruct (get_be32_in (drop 4 lp)) as [r ->]; [rewrite length_drop; lia|].
  simpl. apply IH. rewrite length_drop. lia.
Qed.

Lemma sack_extract_valid tp acked n lp acc :
  Forall (fun blk => sack_skip tp acked blk = false) acc ->
  Forall (fun blk => sack_skip tp acked blk = false) (default [] (sack_extract tp acked n lp acc)).
Proof.
  revert lp acc; induction n as [|n IH]; intros lp acc H; simpl; [done|].
  destruct (get_be32 lp); [|constructor]. destruct (get_be32 (drop 4 lp)); [|constructor]. cbn [mbind option_bind].
  apply IH. destruct (sack_skip _ _ _) eqn:E; [done|].
  rewrite sack_insert_perm. constructor; done.
Qed.

Lemma sack_extract_length tp acked n lp acc :
  (length (default [] (sack_extract tp acked n lp acc)) <= n + length acc)%nat.
Proof.
  revert lp acc; induction n as [|n IH]; intros lp acc; simpl; [lia|].
  destruct (get_be32 lp); [|simpl; lia]. destruct (get_be32 (drop 4 lp)); [|simpl; lia]. cbn [mbind option_bind].
  etransitivity; [apply IH|]. case_match; [lia|].
  rewrite sack_insert_perm. simpl. lia.
Qed.

(** A block that passes the filter and lies above the cumulative ACK is
    inside the window. *)
Lemma block_in_window tp th blk :
  off (snd_una tp) (snd_max tp) < 2 ^ 31 ->
  off (snd_una tp) (th_ack th) <= off (snd_una tp) (snd_max tp) ->
  sack_skip tp (th_ack th) blk = false -> peer_ok th blk ->
  block_ok (snd_una tp) blk /\
  off (snd_una tp) (th_ack th) < off (snd_una tp) (left blk) /\
  off (snd_una tp) (right blk) <= off (snd_una tp) (snd_max tp).
Proof.
  set (b := snd_una tp). intros Wm Wa. unfold sack_skip, peer_ok, block_ok.
  unfold SEQ_LT, SEQ_LEQ, SEQ_GT, SEQ_GEQ. rewrite !(seq_diff_gen b).
  pose proof (off_range b (left blk)). pose proof (off_range b (right blk)).
  pose proof (off_range b (th_ack th)).
  intros [[?%Z.leb_gt ?%Z.ltb_ge]%orb_false_iff ?%Z.leb_gt]%orb_false_iff ?%Z.ltb_lt.
  pose proof (s32_diff (off b (right blk) - off b (th_ack th))).
  pose proof (s32_diff (off b (right blk) - off b (snd_max tp))).
  pose proof (s32_diff (off b (left blk) - off b (right blk))).
  pose proof (s32_diff (off b (th_ack th) - off b (left blk))).
  lia.
Qed.

(** ** The scoreboard update *)

Definition block_valid (th : tcphdr) (tp : tcpcb) (blk : sackblk) : Prop :=
  block_ok (snd_una tp) blk /\
  off (snd_una tp) (th_ack th) < off (snd_una tp) (left blk) /\
  off (snd_una tp) (right blk) <= off (snd_una tp) (snd_max tp).

(** Every missing offset of [hs] is still in [hs'] or was reported. *)
Definition kept_or_sacked (b : tcp_seq) (blocks : list sackblk) (hs hs' : list sackhole) : Prop :=
  forall x, in_holes b hs x -> in_holes b hs' x \/ Exists (in_block b x) blocks.

Lemma kept_nil b hs : kept_or_sacked b [] hs hs.
Proof. intros x; auto. Qed.

Lemma kept_stop b blk blocks hs hs' :
  cut_by b blk hs hs' -> kept_or_sacked b (blk :: blocks) hs hs'.
Proof.
  intros [C _] x Hx. destruct (decide (off b (left blk) <= x < off b (right blk))).
  - right. apply Exists_cons. left. done.
  - left. by apply C.
Qed.

Lemma kept_trans b blk blocks hs1 hs2 hs3 :
  kept_or_sacked b [blk] hs1 hs2 -> kept_or_sacked b blocks hs2 hs3 ->
  kept_or_sacked b (blk :: blocks) hs1 hs3.
Proof.
  intros A B x Hx. rewrite Exists_cons. destruct (A x Hx) as [H2|H2].
  - destruct (B x H2); auto.
  - apply Exists_cons in H2 as [?|E]; [auto|inversion E].
Qed.

Lemma kept_app b hs hs' extra blocks :
  kept_or_sacked b blocks hs hs' -> kept_or_sacked b blocks hs (hs' ++ extra).
Proof. intros A x Hx. rewrite in_holes_app. destruct (A x Hx); auto. Qed.

Section update.
Variables (others : Z) (objs : list addr) (th : tcphdr).

(** One walk, from any cursor. *)
Lemma sack_walk_cursor g tp blk i :
  sack_inv others objs g tp -> snd_holes tp <> [] -> block_valid th tp blk ->
  match sack_walk blk g tp i (drop i (snd_holes tp)) with
  | WalkBreak _ g' tp' =>
      walk_post (snd_una tp) others objs blk (off (snd_una tp) (rcv_lastsack tp)) tp g' tp'
  | WalkReturn g' tp' => g' = g /\ tp' = tp
  | WalkForever => False
  end.
Proof.
  intros (A & [?|[W L]] & M) NE (B & _ & _); [done|].
  destruct (decide (i <= length (snd_holes tp))%nat).
  - pose proof (sack_walk_spec (snd_una tp) others objs blk
      (off (snd_una tp) (rcv_lastsack tp)) B ltac:(lia) g tp
      (take i (snd_holes tp)) (drop i (snd_holes tp))) as S.
    rewrite length_take_le in S by lia. apply S; [by rewrite take_drop|done|done].
  - rewrite drop_ge by lia. simpl. split; [done|split; [done|split; [done|apply cut_by_refl]]].
Qed.

(** The end of one iteration: [rcv_lastsack] moves up to the block. *)
Definition bump_lastsack (blk : sackblk) (tp : tcpcb) : tcpcb :=
  if SEQ_LT (rcv_lastsack tp) (right blk) then tp <| rcv_lastsack := right blk |> else tp.

Lemma sack_acct_ext g tp tp' :
  snd_holes tp' = snd_holes tp -> snd_numholes tp' = snd_numholes tp ->
  sack_acct others objs g tp -> sack_acct others objs g tp'.
Proof. unfold sack_acct. intros -> ->. done. Qed.

Lemma bump_lastsack_inv g tp blk hi :
  sack_acct others objs g tp ->
  holes_wf (snd_una tp) 0 hi (snd_holes tp) ->
  hi <= Z.max (off (snd_una tp) (rcv_lastsack tp)) (off (snd_una tp) (right blk)) ->
  off (snd_una tp) (rcv_lastsack tp) <= off (snd_una tp) (snd_max tp) ->
  off (snd_una tp) (snd_max tp) < 2 ^ 31 -> block_valid th tp blk ->
  sack_inv others objs g (bump_lastsack blk tp) /\ same_window tp (bump_lastsack blk tp) /\
  snd_holes (bump_lastsack blk tp) = snd_holes tp.
Proof.
  intros A W H L M (B1 & B2 & B3). unfold bump_lastsack.
  rewrite (SEQ_LT_off (snd_una tp)) by lia.
  pose proof (off_range (snd_una tp) (rcv_lastsack tp)).
  destruct (Z.ltb_spec (off (snd_una tp) (rcv_lastsack tp)) (off (snd_una tp) (right blk)));
    (split; [|done]); (split; [eapply sack_acct_ext; [..|done]; done|]);
    (split; [right|done]); simpl; (split; [|lia]); eapply holes_wf_weaken; [done|lia|lia|done|lia|lia].
Qed.

Definition update_post (blocks : list sackblk) (tp : tcpcb)
    (r : option (sack_globals * tcpcb)) : Prop :=
  exists g' tp', r = Some (g', tp') /\ sack_inv others objs g' tp' /\ same_window tp tp' /\
    kept_or_sacked (snd_una tp) blocks (snd_holes tp) (snd_holes tp').

(** Continuing from a state in which the first block has been dealt
    with. *)
Lemma update_post_step blk blocks tp tp1 r :
  same_window tp tp1 ->
  kept_or_sacked (snd_una tp) [blk] (snd_holes tp) (snd_holes tp1) ->
  update_post blocks tp1 r -> update_post (blk :: blocks) tp r.
Proof.
  intros [U M] K (g' & tp' & -> & I & [U' M'] & K').
  exists g', tp'. split; [done|]. split; [done|]. split; [split; congruence|].
  rewrite U in K'. eapply kept_trans; done.
Qed.

Lemma block_valid_window tp tp1 blocks :
  same_window tp tp1 -> Forall (block_valid th tp) blocks -> Forall (block_valid th tp1) blocks.
Proof. unfold block_valid. intros [-> ->]. done. Qed.

Lemma update_post_now blocks tp g tp1 :
  sack_inv others objs g tp1 -> same_window tp tp1 ->
  kept_or_sacked (snd_una tp) blocks (snd_holes tp) (snd_holes tp1) ->
  update_post blocks tp (Some (g, tp1)).
Proof. intros; exists g, tp1; done. Qed.

(** The tail of an iteration, from the state the walk left. *)
Lemma sack_append_spec blk blocks tp g1 tp1 cur
    (IH : forall g tp cur, sack_inv others objs g tp -> Forall (block_valid th tp) blocks ->
            update_post blocks tp (sack_update th blocks g tp cur)) :
  Forall (block_valid th tp) (blk :: blocks) ->
  off (snd_una tp) (rcv_lastsack tp) <= off (snd_una tp) (snd_max tp) ->
  off (snd_una tp) (snd_max tp) < 2 ^ 31 ->
  walk_post (snd_una tp) others objs blk (off (snd_una tp) (rcv_lastsack tp)) tp g1 tp1 ->
  update_post (blk :: blocks) tp
    (if SEQ_LT (rcv_lastsack tp1) (left blk) then
       match sack_inserthole g1 tp1 (rcv_lastsack tp1) (left blk) None with
       | None => Some (g1, tp1)
       | Some (j, g, tp) => sack_update th blocks g (bump_lastsack blk tp) (Some j)
       end
     else sack_update th blocks g1 (bump_lastsack blk tp1) cur).
Proof.
  intros [V Vs]%Forall_cons L M (A & [SW LS] & W & C). pose proof V as ([B1 B1'] & B2 & B3).
  pose proof (block_valid_window _ _ _ SW Vs) as Vs1.
  pose proof (Forall_cons_2 _ _ _ V (Forall_nil_2 _)) as V1.
  apply (block_valid_window _ _ _ SW), Forall_cons in V1 as [V1 _].
  destruct SW as [U Mx]. rewrite <- U, <- LS in *. rewrite <- Mx in *.
  rewrite (SEQ_LT_off (snd_una tp1)) by lia.
  destruct (Z.ltb_spec (off (snd_una tp1) (rcv_lastsack tp1)) (off (snd_una tp1) (left blk))).
  - destruct (sack_inserthole _ _ _ _ _) as [[[j g2] tp2]|] eqn:I.
    + apply (sack_inserthole_spec others objs) in I as (A2 & [[U2 M2] L2] & obj & H2 & _); [|done].
      destruct (bump_lastsack_inv g2 tp2 blk (off (snd_una tp2) (left blk))) as (I3 & SW3 & H3).
      { done. }
      { rewrite U2, H2. apply holes_wf_app. eexists; split; [done|]. simpl. lia. }
      { rewrite U2, L2. lia. }
      { rewrite U2, L2, M2. lia. }
      { rewrite U2, M2. lia. }
      { unfold block_valid. rewrite U2, M2. done. }
      eapply update_post_step, IH; [|rewrite H3, H2|done|].
      * destruct SW3; split; congruence.
      * apply kept_app, kept_stop. rewrite <- U. done.
      * eapply block_valid_window; [|exact Vs1]. destruct SW3; split; congruence.
    + apply update_post_now; [|split; congruence|rewrite <- U; by apply kept_stop].
      split; [done|]. split; [right; split; [done|lia]|lia].
  - destruct (bump_lastsack_inv g1 tp1 blk (off (snd_una tp1) (rcv_lastsack tp1)))
      as (I3 & SW3 & H3); try done; try lia.
    eapply update_post_step, IH; [|rewrite H3|done|].
    + destruct SW3; split; congruence.
    + rewrite <- U. by apply kept_stop.
    + eapply block_valid_window; [|exact Vs1]. done.
Qed.

(** The first hole of an empty scoreboard. *)
Lemma sack_first_spec blk blocks g tp
    (IH : forall g tp cur, sack_inv others objs g tp -> Forall (block_valid th tp) blocks ->
            update_post blocks tp (sack_update th blocks g tp cur)) :
  snd_holes tp = [] -> sack_inv others objs g tp -> Forall (block_valid th tp) (blk :: blocks) ->
  update_post (blk :: blocks) tp
    (match sack_inserthole g tp (th_ack th) (left blk) None with
     | None => Some (g, tp)
     | Some (j, g, tp) => sack_update th blocks g (tp <| rcv_lastsack := right blk |>) (Some j)
     end).
Proof.
  intros E (A & B & M) [V Vs]%Forall_cons. pose proof V as ([B1 B1'] & B2 & B3).
  destruct (sack_inserthole _ _ _ _ _) as [[[j g2] tp2]|] eqn:I.
  - apply (sack_inserthole_spec others objs) in I as (A2 & [[U2 M2] L2] & obj & H2 & _); [|done].
    rewrite E in H2. eapply update_post_step, IH.
    + split; done.
    + rewrite E. intros x Hx. inversion Hx.
    + split; [eapply sack_acct_ext; [..|done]; done|]. simplify_upd. split; [right|]; simpl.
      * rewrite U2, M2, H2. simpl. pose proof (off_range (snd_una tp) (th_ack th)). lia.
      * rewrite U2, M2. lia.
    + eapply block_valid_window; [|done]. done.
  - apply update_post_now; [done|done|]. rewrite E. intros x Hx; inversion Hx.
Qed.

Lemma sack_update_spec blocks g tp cur :
  sack_inv others objs g tp -> Forall (block_valid th tp) blocks ->
  update_post blocks tp (sack_update th blocks g tp cur).
Proof.
  revert g tp cur; induction blocks as [|blk blocks IH]; intros g tp cur I V; simpl.
  { apply update_post_now; [done|done|apply kept_nil]. }
  set (tp0 := if SEQ_GEQ (right blk) (snd_fack tp) then _ else tp).
  assert (sack_inv others objs g tp0 /\ same_window tp tp0 /\ snd_holes tp0 = snd_holes tp)
    as (I0 & SW0 & E0) by (unfold tp0; case_match; done).
  apply (block_valid_window _ _ _ SW0) in V.
  enough (update_post (blk :: blocks) tp0
    match snd_holes tp0 with
    | [] => match sack_inserthole g tp0 (th_ack th) (left blk) None with
            | None => Some (g, tp0)
            | Some (j, g, tp) =>
                sack_update th blocks g (tp <| rcv_lastsack := right blk |>) (Some j)
            end
    | _ => match (match cur with
                  | None => WalkBreak None g tp0
                  | Some i => sack_walk blk g tp0 i (drop i (snd_holes tp0)) end) with
           | WalkForever => None
           | WalkReturn g tp => Some (g, tp)
           | WalkBreak cur g tp =>
               if SEQ_LT (rcv_lastsack tp) (left blk) then
                 match sack_inserthole g tp (rcv_lastsack tp) (left blk) None with
                 | None => Some (g, tp)
                 | Some (j, g, tp) => sack_update th blocks g (bump_lastsack blk tp) (Some j)
                 end
               else sack_update th blocks g (bump_lastsack blk tp) cur
           end
    end) as (g' & tp' & R & I' & [U' M'] & K').
  { destruct SW0 as [U0 M0]. exists g', tp'. rewrite <- U0, <- E0.
    split; [exact R|]. split; [done|]. split; [split; congruence|done]. }
  destruct (snd_holes tp0) as [|h hs] eqn:Hs; [by apply sack_first_spec|]. rewrite <- Hs.
  pose proof I0 as (A0 & [?|[W0 L0]] & M0); [congruence|].
  assert (match (match cur with
                  | None => WalkBreak None g tp0
                  | Some i => sack_walk blk g tp0 i (drop i (snd_holes tp0)) end) with
    | WalkBreak _ g' tp' =>
      walk_post (snd_una tp0) others objs blk (off (snd_una tp0) (rcv_lastsack tp0)) tp0 g' tp'
    | WalkReturn g' tp' => g' = g /\ tp' = tp0
    | WalkForever => False
    end) as S.
  { destruct cur; [apply sack_walk_cursor; [done|congruence|by apply Forall_cons in V as [? _]]|].
    split; [done|split; [done|split; [done|apply cut_by_refl]]]. }
  destruct (match cur with Some _ => _ | None => _ end) as [c g1 tp1|g1 tp1|]; [| |done].
  - apply sack_append_spec; done.
  - destruct S as [-> ->]. apply update_post_now; [done|done|].
    apply kept_stop, cut_by_refl.
Qed.
End update.

(** ** The guarantees of tcp_sack_option *)

(** The blocks of an option that pass the filter. *)
Definition sack_blocks (tp : tcpcb) (th : tcphdr) (cp : list Z) (optlen : Z) : list sackblk :=
  default [] (sack_extract tp (sack_acked tp th) (Z.to_nat (optlen / 8)) (drop 2 cp) []).

Lemma sack_option_blocks_valid tp th cp optlen :
  off (snd_una tp) (snd_max tp) < 2 ^ 31 ->
  SEQ_LT (th_ack th) (snd_una tp) = false -> SEQ_GT (th_ack th) (snd_max tp) = false ->
  Forall (peer_ok th) (sack_blocks tp th cp optlen) ->
  Forall (block_valid th tp) (sack_blocks tp th cp optlen).
Proof.
  intros M G1 G2 P.
  assert (off (snd_una tp) (th_ack th) <= off (snd_una tp) (snd_max tp)) as L.
  { revert G1 G2. unfold SEQ_LT, SEQ_GT. rewrite !(seq_diff_gen (snd_una tp)), off_base.
    intros ?%Z.ltb_ge ?%Z.ltb_ge. pose proof (off_range (snd_una tp) (th_ack th)).
    pose proof (off_range (snd_una tp) (snd_max tp)).
    pose proof (s32_diff (off (snd_una tp) (th_ack th) - 0)).
    pose proof (s32_diff (off (snd_una tp) (th_ack th) - off (snd_una tp) (snd_max tp))). lia. }
  assert (forall blk, sack_skip tp (sack_acked tp th) blk = sack_skip tp (th_ack th) blk) as Eq.
  { intros blk. unfold sack_acked. destruct (SEQ_GT (th_ack th) (snd_una tp)) eqn:E; [done|].
    unfold sack_skip, SEQ_LEQ. rewrite !(seq_diff_gen (snd_una tp) (right blk)).
    replace (off (snd_una tp) (th_ack th)) with (off (snd_una tp) (snd_una tp)); [done|].
    rewrite off_base. revert G1 E. rewrite (SEQ_LT_off (snd_una tp)), (SEQ_GT_off (snd_una tp)), off_base
      by (rewrite ?off_base; lia). intros ?%Z.ltb_ge ?%Z.ltb_ge. lia. }
  rewrite Forall_forall in *. intros blk Hb. apply block_in_window; auto.
  rewrite <- Eq. pose proof (sack_extract_valid tp (sack_acked tp th) (Z.to_nat (optlen / 8))
    (drop 2 cp) [] (Forall_nil_2 _)) as F. rewrite Forall_forall in F. apply F. done.
Qed.

(** The blocks of an option of [optlen] bytes can be read. *)
Lemma sack_extract_option tp th cp optlen : 10 <= optlen -> optlen mod 8 = 2 -> optlen <= Z.of_nat (length cp) ->
  sack_extract tp (sack_acked tp th) (Z.to_nat (optlen / 8)) (drop 2 cp) [] = Some (sack_blocks tp th cp optlen).
Proof.
  intros L M C. destruct (sack_extract_total tp (sack_acked tp th) (Z.to_nat (optlen / 8)) (drop 2 cp) []) as [bs E].
  { rewrite length_drop. pose proof (Z.div_mod optlen 8). lia. }
  unfold sack_blocks. by rewrite E.
Qed.

Lemma s32_rep z : exists k, s32 z = z - 2 ^ 32 * k.
Proof. exists ((z + 2 ^ 31) / 2 ^ 32). unfold s32. pose proof (Z.div_mod (z + 2 ^ 31) (2 ^ 32)). lia. Qed.

(** The walk over the holes ends for every block that is not empty, whatever the
    holes are. *)
Lemma sack_walk_ends sack rest : SEQ_GEQ (left sack) (right sack) = false -> forall g tp i, sack_walk sack g tp i rest <> WalkForever.
Proof.
  intros V. induction rest as [|cur rest IH]; intros g tp i; simpl; [done|].
  destruct (SEQ_LEQ (right sack) (start cur)); [done|]. destruct (SEQ_GEQ (left sack) (hend cur)) eqn:E1; [apply IH|].
  destruct (SEQ_LEQ (left sack) (start cur)) eqn:E2; [by repeat case_match|].
  destruct (SEQ_GEQ (right sack) (hend cur)) eqn:E3; [done|].
  assert (SEQ_LT (start cur) (left sack) && SEQ_GT (hend cur) (right sack) = true) as ->; [|by destruct (sack_inserthole _ _ _ _ _) as [[[? ?] ?]|]].
  revert V E1 E2 E3. unfold SEQ_GEQ, SEQ_LEQ, SEQ_LT, SEQ_GT. rewrite !Z.leb_gt, !s32_u32. intros V E1 E2 E3.
  assert (s32 (start cur - left sack) < 0 /\ 0 < s32 (hend cur - right sack)) as [A B]; [|apply andb_true_iff; split; by apply Z.ltb_lt].
  destruct (s32_rep (start cur - left sack)) as [k1 R1], (s32_rep (left sack - start cur)) as [k2 R2],
    (s32_rep (hend cur - right sack)) as [k3 R3], (s32_rep (right sack - hend cur)) as [k4 R4],
    (s32_rep (left sack - hend cur)) as [k5 R5], (s32_rep (left sack - right sack)) as [k6 R6].
  pose proof (s32_range (start cur - left sack)). pose proof (s32_range (left sack - start cur)).
  pose proof (s32_range (hend cur - right sack)). pose proof (s32_range (right sack - hend cur)).
  pose proof (s32_range (left sack - hend cur)). pose proof (s32_range (left sack - right sack)). lia.
Qed.
Lemma sack_update_total th blocks : Forall (fun blk => SEQ_GEQ (left blk) (right blk) = false) blocks ->
  forall g tp cur, is_Some (sack_update th blocks g tp cur).
Proof.
  induction 1 as [|blk blocks V _ IH]; intros g tp cur; simpl; [by eexists|].
  set (tp0 := if SEQ_GEQ (right blk) (snd_fack tp) then _ else tp). destruct (snd_holes tp0) as [|h hs].
  - destruct (sack_inserthole _ _ _ _ _) as [[[j g2] tp2]|]; [apply IH|by eexists].
  - pose proof (fun i => sack_walk_ends blk (drop i (h :: hs)) V g tp0 i) as W.
    destruct (match cur with Some i => _ | None => _ end) as [c g1 tp1|g1 tp1|] eqn:E; [|by eexists|].
    + destruct (SEQ_LT _ _); [|apply IH]. destruct (sack_inserthole _ _ _ _ _) as [[[j g2] tp2]|]; [apply IH|by eexists].
    + destruct cur as [i|]; [|done]. by destruct (W i).
Qed.

(** A SACK option that lies in the list of options is processed, whatever its
    blocks are. *)
Lemma tcp_sack_option_total g tp th cp optlen : optlen <= Z.of_nat (length cp) -> is_Some (tcp_sack_option g tp th cp optlen).
Proof.
  intros C. unfold tcp_sack_option. destruct (negb (TCP_SACK_ENABLED tp) || negb (flag_set (th_flags th) TH_ACK) || (negb (optlen mod 8 =? 2) || (optlen <? 10))) eqn:G; [by eexists|].
  destruct ((tcp_sack_globalmaxholes g =? 0) || (tcp_sack_tp_maxholes g =? 0)); [by eexists|]. destruct (SEQ_LT (th_ack th) (snd_una tp) || SEQ_GT (th_ack th) (snd_max tp)); [by eexists|].
  apply orb_false_iff in G as [_ [G1 G2]%orb_false_iff]. apply negb_false_iff, Z.eqb_eq in G1. apply Z.ltb_ge in G2.
  rewrite sack_extract_option by done. apply sack_update_total.
  eapply Forall_impl; [apply sack_extract_valid; constructor|]. unfold sack_skip. intros blk [_ H]%orb_false_iff. done.
Qed.

Lemma tcp_sack_option_run others objs g tp th cp optlen :
  sack_inv others objs g tp -> optlen <= Z.of_nat (length cp) ->
  Forall (peer_ok th) (sack_blocks tp th cp optlen) ->
  exists g' tp', tcp_sack_option g tp th cp optlen = Some (g', tp') /\
    sack_inv others objs g' tp' /\ same_window tp tp' /\
    kept_or_sacked (snd_una tp) (sack_blocks tp th cp optlen) (snd_holes tp) (snd_holes tp').
Proof.
  intros I C P. unfold tcp_sack_option.
  assert (kept_or_sacked (snd_una tp) (sack_blocks tp th cp optlen) (snd_holes tp) (snd_holes tp))
    as K by (intros x; auto).
  destruct (negb (TCP_SACK_ENABLED tp) || negb (flag_set (th_flags th) TH_ACK) || (negb (optlen mod 8 =? 2) || (optlen <? 10))) eqn:G; [by exists g, tp|].
  destruct ((tcp_sack_globalmaxholes g =? 0) || (tcp_sack_tp_maxholes g =? 0)); [by exists g, tp|]. destruct (SEQ_LT (th_ack th) (snd_una tp) || SEQ_GT (th_ack th) (snd_max tp)) eqn:G3; [by exists g, tp|].
  apply orb_false_iff in G3 as [G4 G5].
  apply orb_false_iff in G as [_ [G1 G2]%orb_false_iff]. apply negb_false_iff, Z.eqb_eq in G1. apply Z.ltb_ge in G2.
  rewrite sack_extract_option by done. cbn [mbind option_bind].
  apply sack_update_spec; [done|]. apply sack_option_blocks_valid; try done.
  destruct I as (_ & _ & ?). done.
Qed.

(** C28. Processing a SACK option ends on every option and reads nothing outside
    of it, whatever the peer has put there.  If the blocks lie above the
    cumulative acknowledgement, it keeps the scoreboard well formed (holes
    ordered, disjoint, inside the window, counters and pool consistent) and
    never forgets a byte: an offset recorded as missing before is still
    recorded as missing, unless one of the option's blocks reported it.
    (A block below the acknowledgement breaks the order of the holes, see
    [sack_inverted_hole].) *)
Theorem tcp_sack_option_safe others objs g tp th cp optlen :
  sack_inv others objs g tp -> optlen <= Z.of_nat (length cp) ->
  exists g' tp', tcp_sack_option g tp th cp optlen = Some (g', tp') /\
    (Forall (peer_ok th) (sack_blocks tp th cp optlen) ->
     sack_inv others objs g' tp' /\ same_window tp tp' /\
     kept_or_sacked (snd_una tp) (sack_blocks tp th cp optlen) (snd_holes tp) (snd_holes tp')).
Proof.
  intros I C. destruct (tcp_sack_option_total g tp th cp optlen C) as [[g' tp'] E]. exists g', tp'. split; [done|]. intros P.
  destruct (tcp_sack_option_run others objs g tp th cp optlen I C P) as (g2 & tp2 & E2 & H). rewrite E in E2. by injection E2 as <- <-.
Qed.

(** A witness for the theorem: a connection with two holes, and an
    option that splits the first and extends the scoreboard. *)
Definition ex_globals : sack_globals := mkSackGlobals (mkPool [3; 4; 5]%positive) 32 1024 2.
Definition ex_tcpcb : tcpcb :=
  tcpcb_zero <| t_flags := TF_WILL_SACK |> <| snd_una := 4294967000 |> <| snd_max := 5000 |>
    <| snd_holes := [mkHole 1 4294967000 100 4294967100; mkHole 2 200 300 250] |>
    <| snd_numholes := 2 |> <| rcv_lastsack := 400 |> <| snd_nxt := 150 |>.
Definition ex_hdr : tcphdr := mkTcphdr 0 4294967000 TH_ACK.
(** Kind 5, length 18, blocks [0,50) and [600,700). *)
Definition ex_option : list Z := [5; 18; 0; 0; 0; 0; 0; 0; 0; 50; 0; 0; 2; 88; 0; 0; 2; 188].

Lemma ex_sack_inv : sack_inv 0 [3; 4; 5; 1; 2]%positive ex_globals ex_tcpcb.
Proof.
  split; [|split; [right|]]; try (vm_compute; intuition congruence).
  repeat split; vm_compute; done.
Defined.

Lemma tcp_sack_option_safe_witness :
  exists g' tp', tcp_sack_option ex_globals ex_tcpcb ex_hdr ex_option 18 = Some (g', tp') /\
    (Forall (peer_ok ex_hdr) (sack_blocks ex_tcpcb ex_hdr ex_option 18) ->
     sack_inv 0 [3; 4; 5; 1; 2]%positive g' tp' /\ same_window ex_tcpcb tp' /\
     kept_or_sacked (snd_una ex_tcpcb) (sack_blocks ex_tcpcb ex_hdr ex_option 18)
       (snd_holes ex_tcpcb) (snd_holes tp')) /\
    Forall (peer_ok ex_hdr) (sack_blocks ex_tcpcb ex_hdr ex_option 18).
Proof.
  destruct (tcp_sack_option_safe 0 [3; 4; 5; 1; 2]%positive ex_globals ex_tcpcb ex_hdr ex_option 18 ex_sack_inv) as (g' & tp' & E & H);
    [vm_compute; discriminate|].
  exists g', tp'. split; [exact E|]. split; [exact H|].
  replace (sack_blocks ex_tcpcb ex_hdr ex_option 18) with [mkSackblk 0 50; mkSackblk 600 700]
    by reflexivity.
  repeat constructor.
Defined.

(** ** The number of blocks *)

(** The sorted array [t_sack_block] has room for every block an
    option can carry: its (MAX_TCPOPTLEN - 2) / 8 = 4 entries are never
    exceeded. *)
Theorem sack_blocks_bound tp th cp optlen :
  optlen <= MAX_TCPOPTLEN -> optlen mod 8 = 2 ->
  Z.of_nat (length (sack_blocks tp th cp optlen)) <= (MAX_TCPOPTLEN - 2) / 8.
Proof.
  unfold MAX_TCPOPTLEN. intros H M.
  pose proof (sack_extract_length tp (sack_acked tp th) (Z.to_nat (optlen / 8)) (drop 2 cp) []) as L.
  fold (sack_blocks tp th cp optlen) in L. simpl in L.
  pose proof (Z.div_mod optlen 8). change ((40 - 2) / 8) with 4. lia.
Qed.

Lemma sack_blocks_bound_witness :
  Z.of_nat (length (sack_blocks ex_tcpcb ex_hdr ex_option 18)) <= (MAX_TCPOPTLEN - 2) / 8.
Proof. apply sack_blocks_bound; [vm_compute; discriminate|reflexivity]. Defined.

(** ** tcp_del_sackholes and tcp_free_sackholes *)

Section delete.
Variables (others : Z) (objs : list addr) (b : tcp_seq) (lastack : tcp_seq).
Hypothesis Hack : off b lastack < 2 ^ 31.

Lemma del_sackholes_loop_spec hi rest lo g tp g' tp' :
  hi < 2 ^ 31 -> snd_holes tp = rest -> holes_wf b lo hi rest -> 0 <= lo ->
  sack_acct others objs g tp ->
  del_sackholes_loop lastack g tp rest = (g', tp') ->
  sack_acct others objs g' tp' /\ frame tp tp' /\
  holes_wf b lo hi (snd_holes tp') /\
  forall x, in_holes b (snd_holes tp') x <-> in_holes b rest x /\ off b lastack <= x.
Proof using Hack.
  intros Hhi. revert lo g tp; induction rest as [|h rest IH]; intros lo g tp Hs W Lo A; simpl.
  { intros [= <- <-]. rewrite Hs. split; [done|]. split; [done|]. split; [done|].
    intros x; split; [intros E; inversion E|intros [E _]; inversion E]. }
  destruct W as (S1 & S2 & W). pose proof (holes_wf_le _ _ _ _ W). seq_off b.
  destruct (Z.leb_spec (off b (hend h)) (off b lastack)) as [C|C].
  - destruct (sack_removehole g tp 0) as [[c g1] tp1] eqn:R. intros D.
    apply (sack_removehole_spec others objs g tp [] h rest) in R as (A1 & F1 & H1 & _); try done.
    destruct (IH (off b (hend h)) g1 tp1) as (A2 & F2 & W2 & X2); try done; try lia.
    split; [done|]. split; [destruct F1 as [[] ?], F2 as [[] ?]; repeat split; congruence|].
    split; [eapply holes_wf_weaken; [done|lia|lia]|].
    intros x. rewrite X2, in_holes_cons. unfold in_hole. intuition lia.
  - destruct (Z.ltb_spec (off b (start h)) (off b lastack)) as [C'|C'].
    + match goal with |- context [<[_ := ?x]> _] => set (h' := x) end. intros [= <- <-]. rewrite Hs. simpl.
      assert (hole_obj h' = hole_obj h /\ start h' = lastack /\ hend h' = hend h /\
        off b (rxmit h') = Z.max (off b (rxmit h)) (off b lastack)) as (O & St & En & Rx).
      { unfold h'; simplify_upd. seq_off b. zcases. }
      split; [apply sack_acct_holes; [|done]; by rewrite Hs, !fmap_cons, O|].
      split; [done|]. simplify_upd. rewrite St, En, Rx. split; [repeat split; try lia; done|].
      intros x. rewrite !in_holes_cons. unfold in_hole. rewrite St, En.
      pose proof (in_holes_range b _ _ _ x W). intuition lia.
    + intros [= <- <-]. rewrite Hs. split; [done|]. split; [done|]. split; [done|].
      intros x. pose proof (in_holes_range b _ _ _ x W).
      rewrite !in_holes_cons. unfold in_hole. intuition lia.
Qed.

Lemma free_sackholes_loop_spec rest g tp g' tp' :
  snd_holes tp = rest -> sack_acct others objs g tp ->
  free_sackholes_loop g tp rest = (g', tp') ->
  sack_acct others objs g' tp' /\ frame tp tp' /\ snd_holes tp' = [].
Proof using Type.
  revert g tp; induction rest as [|h rest IH]; intros g tp Hs A; simpl.
  { intros [= <- <-]. done. }
  destruct (sack_removehole g tp 0) as [[c g1] tp1] eqn:R. intros D.
  apply (sack_removehole_spec others objs g tp [] h rest) in R as (A1 & F1 & H1 & _); try done.
  destruct (IH g1 tp1) as (A2 & F2 & H2); try done.
  split; [done|]. split; [|done]. destruct F1 as [[] ?], F2 as [[] ?]; repeat split; congruence.
Qed.
End delete.

(** A cumulative ACK removes from the scoreboard exactly the offsets
    below it, and keeps it well formed. *)
Theorem tcp_del_sackholes_exact others objs g tp th g' tp' :
  sack_inv others objs g tp ->
  off (snd_una tp) (th_ack th) <= off (snd_una tp) (snd_max tp) ->
  tcp_del_sackholes g tp th = (g', tp') ->
  sack_inv others objs g' tp' /\ same_window tp tp' /\
  forall x, in_holes (snd_una tp) (snd_holes tp') x <->
    in_holes (snd_una tp) (snd_holes tp) x /\ off (snd_una tp) (th_ack th) <= x.
Proof.
  intros (A & B & M) Ha. unfold tcp_del_sackholes.
  assert (off (snd_una tp) (sack_acked tp th) = off (snd_una tp) (th_ack th)) as Ea.
  { unfold sack_acked. pose proof (off_range (snd_una tp) (th_ack th)).
    rewrite (SEQ_GT_off (snd_una tp)), off_base by (rewrite ?off_base; lia).
    zcases. rewrite off_base. lia. }
  destruct B as [E|[W L]].
  - rewrite E. intros [= <- <-]. split; [by split; [|split; [left|]]|]. split; [done|].
    rewrite E. intros x; split; [intros X; inversion X|intros [X _]; inversion X].
  - intros D. eapply (del_sackholes_loop_spec others objs (snd_una tp)) in D
      as (A' & [SW LS] & W' & X); [|lia|apply (Z.le_lt_trans _ _ _ L M)|done|exact W|lia|done].
    rewrite Ea in X. split; [|by split].
    split; [done|]. destruct SW as [U Mx]. unfold sack_board. rewrite U, Mx, LS. auto.
Qed.

Lemma tcp_del_sackholes_exact_witness :
  let '(g', tp') := tcp_del_sackholes ex_globals ex_tcpcb (mkTcphdr 0 220 TH_ACK) in
  sack_inv 0 [3; 4; 5; 1; 2]%positive g' tp' /\ same_window ex_tcpcb tp' /\
  forall x, in_holes (snd_una ex_tcpcb) (snd_holes tp') x <->
    in_holes (snd_una ex_tcpcb) (snd_holes ex_tcpcb) x /\
    off (snd_una ex_tcpcb) 220 <= x.
Proof.
  destruct (tcp_del_sackholes ex_globals ex_tcpcb (mkTcphdr 0 220 TH_ACK)) as [g' tp'] eqn:D.
  apply (tcp_del_sackholes_exact 0 _ ex_globals ex_tcpcb (mkTcphdr 0 220 TH_ACK));
    [exact ex_sack_inv|vm_compute; discriminate|exact D].
Defined.

(** [tcp_free_sackholes] empties the scoreboard, so its assertion
    [snd_numholes == 0] holds, and gives every hole back to the pool. *)
Theorem tcp_free_sackholes_all others objs g tp g' tp' :
  sack_inv others objs g tp -> tcp_free_sackholes g tp = (g', tp') ->
  snd_holes tp' = [] /\ snd_numholes tp' = 0 /\ tcp_sack_globalholes g' = others /\
  mempool (sackhole_pool g') ≡ₚ objs.
Proof.
  intros (A & _ & _) D. unfold tcp_free_sackholes in D.
  eapply free_sackholes_loop_spec in D as ((N & G & _ & _ & _ & P) & _ & H); [|done|done].
  rewrite H in *. simpl in *. unfold pool_objects in P. rewrite app_nil_r in P.
  repeat split; [done|lia|done].
Qed.

Lemma tcp_free_sackholes_all_witness :
  let '(g', tp') := tcp_free_sackholes ex_globals ex_tcpcb in
  snd_holes tp' = [] /\ snd_numholes tp' = 0 /\ tcp_sack_globalholes g' = 0 /\
  mempool (sackhole_pool g') ≡ₚ [3; 4; 5; 1; 2]%positive.
Proof.
  destruct (tcp_free_sackholes ex_globals ex_tcpcb) as [g' tp'] eqn:D.
  exact (tcp_free_sackholes_all 0 _ _ _ _ _ ex_sack_inv D).
Defined.

(** ** tcp_sack_adjust *)

Section adjust.
Variables (b : tcp_seq) (hi : Z).
Hypothesis Hhi : hi < 2 ^ 31.

Lemma sack_adjust_loop_spec rest cur tp lo :
  holes_wf b lo hi (cur :: rest) -> 0 <= lo -> hi = off b (rcv_lastsack tp) ->
  off b (snd_nxt tp) < hi ->
  exists nxt, sack_adjust_loop tp cur rest = tp <| snd_nxt := nxt |> /\
    off b (snd_nxt tp) <= off b nxt /\
    (forall x, in_holes b (cur :: rest) x -> off b (snd_nxt tp) <= x -> off b nxt <= x) /\
    (in_holes b (cur :: rest) (off b nxt) \/ hi <= off b nxt \/
     nxt = snd_nxt tp /\ off b nxt < off b (start cur)).
Proof using Hhi.
  assert (forall tp, tp = tp <| snd_nxt := snd_nxt tp |>) as Eta by (intros []; done).
  revert cur lo; induction rest as [|n rest IH]; intros cur lo (S1 & S2 & W) Lo Eh N; simpl.
  - simpl in W. seq_off b. destruct (Z.ltb_spec (off b (snd_nxt tp)) (off b (hend cur))).
    + exists (snd_nxt tp). split; [apply Eta|]. split; [lia|]. split; [auto|].
      rewrite in_holes_cons. unfold in_hole.
      destruct (Z.lt_ge_cases (off b (snd_nxt tp)) (off b (start cur))); [auto|left; left; lia].
    + exists (rcv_lastsack tp). split; [done|]. split; [lia|]. split; [|auto with lia].
      intros x [?|E]%in_holes_cons; [unfold in_hole in *; lia|inversion E].
  - pose proof W as (S3 & S4 & W3). pose proof (holes_wf_le _ _ _ _ W3). seq_off b.
    destruct (Z.ltb_spec (off b (snd_nxt tp)) (off b (hend cur))).
    + exists (snd_nxt tp). split; [apply Eta|]. split; [lia|]. split; [auto|].
      rewrite in_holes_cons. unfold in_hole.
      destruct (Z.lt_ge_cases (off b (snd_nxt tp)) (off b (start cur))); [auto|left; left; lia].
    + destruct (Z.leb_spec (off b (start n)) (off b (snd_nxt tp))).
      * destruct (IH n (off b (hend cur))) as (nxt & -> & N1 & N2 & N3); try done; try lia.
        exists nxt. split; [done|]. split; [done|]. split.
        -- intros x [Hx|Hx]%in_holes_cons; [unfold in_hole in Hx; lia|auto].
        -- rewrite in_holes_cons. destruct N3 as [?|[?|[-> ?]]]; [auto|auto|lia].
      * exists (start n). split; [done|]. split; [lia|]. split.
        -- intros x [Hx|Hx]%in_holes_cons; [unfold in_hole in Hx; lia|].
           intros _. pose proof (in_holes_range b _ _ (n :: rest) x W Hx).
           apply in_holes_cons in Hx as [Hx|Hx]; [unfold in_hole in Hx; lia|].
           pose proof (in_holes_range b _ _ _ x W3 Hx). lia.
        -- left. rewrite !in_holes_cons. right; left. unfold in_hole. lia.
Qed.
End adjust.

(** After a timeout [tcp_sack_adjust] only moves [snd_nxt] forward,
    skips no missing byte, and leaves it on a missing byte or beyond all
    SACKed data (or where it was, before the first hole). *)
Theorem tcp_sack_adjust_skips_sacked others objs g tp h hs :
  sack_inv others objs g tp -> snd_holes tp = h :: hs ->
  off (snd_una tp) (snd_nxt tp) <= off (snd_una tp) (snd_max tp) ->
  exists nxt, tcp_sack_adjust tp = tp <| snd_nxt := nxt |> /\
    off (snd_una tp) (snd_nxt tp) <= off (snd_una tp) nxt /\
    (forall x, in_holes (snd_una tp) (snd_holes tp) x ->
       off (snd_una tp) (snd_nxt tp) <= x -> off (snd_una tp) nxt <= x) /\
    (in_holes (snd_una tp) (snd_holes tp) (off (snd_una tp) nxt) \/
     off (snd_una tp) (rcv_lastsack tp) <= off (snd_una tp) nxt \/
     nxt = snd_nxt tp /\ off (snd_una tp) nxt < off (snd_una tp) (start h)).
Proof.
  intros (_ & [?|[W L]] & M) Hs N; [congruence|]. unfold tcp_sack_adjust. rewrite Hs in *.
  seq_off (snd_una tp).
  destruct (Z.leb_spec (off (snd_una tp) (rcv_lastsack tp)) (off (snd_una tp) (snd_nxt tp))).
  - exists (snd_nxt tp). split; [destruct tp; done|]. split; [lia|]. split; auto.
  - eapply sack_adjust_loop_spec; [|exact W|lia|done|done]. lia.
Qed.

Lemma tcp_sack_adjust_skips_sacked_witness :
  exists nxt, tcp_sack_adjust ex_tcpcb = ex_tcpcb <| snd_nxt := nxt |> /\
    off (snd_una ex_tcpcb) (snd_nxt ex_tcpcb) <= off (snd_una ex_tcpcb) nxt.
Proof.
  destruct (tcp_sack_adjust_skips_sacked 0 _ ex_globals ex_tcpcb
    (mkHole 1 4294967000 100 4294967100) [mkHole 2 200 300 250] ex_sack_inv)
    as (nxt & E & L & _); [reflexivity|vm_compute; discriminate|].
  exists nxt. split; [exact E|exact L].
Defined.

(** ** tcp_sack_output *)

(** Bytes of the holes that have been retransmitted in this recovery. *)
Definition rexmitted (b : tcp_seq) (hs : list sackhole) : Z :=
  foldr (fun h n => off b (rxmit h) - off b (start h) + n) 0 hs.

Lemma rexmitted_range b lo hi hs : holes_wf b lo hi hs -> 0 <= rexmitted b hs <= hi - lo.
Proof.
  revert lo; induction hs as [|h hs IH]; simpl; intros lo; [lia|].
  intros (? & ? & W). apply IH in W. lia.
Qed.

Lemma sack_output_loop_spec b hi hs lo i bytes cur n :
  holes_wf b lo hi hs -> 0 <= lo -> hi < 2 ^ 31 -> 0 <= bytes <= lo ->
  sack_output_loop b hs i bytes = (cur, n) ->
  match cur with
  | Some k => exists pre h post, hs = pre ++ h :: post /\ k = (i + length pre)%nat /\
      Forall (fun h => off b (rxmit h) = off b (hend h)) pre /\
      off b (rxmit h) < off b (hend h) /\ n = bytes + rexmitted b (pre ++ [h])
  | None => Forall (fun h => off b (rxmit h) = off b (hend h)) hs /\ n = bytes + rexmitted b hs
  end.
Proof.
  intros W Lo Hi Hb. revert lo i bytes W Lo Hb; induction hs as [|h hs IH]; intros lo i bytes W Lo Hb; simpl.
  { intros [= <- <-]. split; [done|lia]. }
  destruct W as (S1 & S2 & W). pose proof (holes_wf_le _ _ _ _ W).
  pose proof (off_base b). rewrite !(u32_sub_off b) by lia.
  rewrite s32_small by lia. seq_off b. rewrite off_base.
  destruct (Z.ltb_spec (off b (rxmit h)) (off b (hend h))).
  - destruct (Z.ltb_spec (off b (rxmit h)) 0); [lia|]. intros [= <- <-].
    exists [], h, hs. simpl. repeat split; [lia|done|lia|lia].
  - intros D. eapply IH in D; [|exact W|lia|lia]. destruct cur as [k|].
    + destruct D as (pre & h' & post & -> & -> & F & L & ->).
      exists (h :: pre), h', post. simpl. repeat split; [lia|constructor; [lia|done]|done|lia].
    + destruct D as [F ->]. split; [constructor; [lia|done]|lia].
Qed.

(** [tcp_sack_output] finds the first hole that is not yet fully
    retransmitted and counts, without overflow, the bytes retransmitted
    up to and including it. *)
Theorem tcp_sack_output_first others objs g tp cur bytes :
  sack_inv others objs g tp -> TCP_SACK_ENABLED tp = true ->
  tcp_sack_output tp = (cur, Some bytes) ->
  match cur with
  | Some k => exists pre h post, snd_holes tp = pre ++ h :: post /\ k = length pre /\
      Forall (fun h => off (snd_una tp) (rxmit h) = off (snd_una tp) (hend h)) pre /\
      off (snd_una tp) (rxmit h) < off (snd_una tp) (hend h) /\
      bytes = rexmitted (snd_una tp) (pre ++ [h])
  | None => Forall (fun h => off (snd_una tp) (rxmit h) = off (snd_una tp) (hend h)) (snd_holes tp)
            /\ bytes = rexmitted (snd_una tp) (snd_holes tp)
  end.
Proof.
  intros (_ & B & M) En. unfold tcp_sack_output. rewrite En. simpl.
  destruct (sack_output_loop _ _ _ _) as [c n] eqn:D. intros [= <- <-].
  destruct B as [E|[W L]].
  - rewrite E in *. simpl in D. simplify_eq D; intros <- <-. done.
  - eapply sack_output_loop_spec in D; [|exact W|lia|lia|lia]. destruct c; exact D.
Qed.

Lemma tcp_sack_output_first_witness :
  exists pre h post, snd_holes ex_tcpcb = pre ++ h :: post /\ 0%nat = length pre /\
    Forall (fun h => off (snd_una ex_tcpcb) (rxmit h) = off (snd_una ex_tcpcb) (hend h)) pre /\
    off (snd_una ex_tcpcb) (rxmit h) < off (snd_una ex_tcpcb) (hend h) /\
    100 = rexmitted (snd_una ex_tcpcb) (pre ++ [h]).
Proof.
  exact (tcp_sack_output_first 0 _ ex_globals ex_tcpcb (Some 0%nat) 100 ex_sack_inv
    eq_refl eq_refl).
Defined.

(** ** tcp_sack_newack and tcp_sack_numblks *)

Lemma tcp_sack_output_bytes others objs g tp :
  sack_inv others objs g tp -> 0 <= default 0 (snd (tcp_sack_output tp)) < 2 ^ 31.
Proof.
  intros (_ & B & M). unfold tcp_sack_output. case_match; simpl; [lia|].
  destruct (sack_output_loop _ _ _ _) as [c n] eqn:D. simpl.
  destruct B as [E|[W L]]; [rewrite E in D; simpl in D; simplify_eq; lia|].
  eapply sack_output_loop_spec in D; [|exact W|lia|lia|lia].
  assert (0 <= n <= off (snd_una tp) (rcv_lastsack tp)); [|lia]. destruct c as [k|].
  - destruct D as (pre & h & post & Hs & _ & _ & _ & ->). rewrite Hs, cons_middle, app_assoc in W.
    apply holes_wf_app in W as (mid & W1 & W2). apply rexmitted_range in W1.
    apply holes_wf_le in W2. lia.
  - destruct D as [_ ->]. apply rexmitted_range in W. lia.
Qed.

Lemma tcp_sack_output_ext tp tp' :
  t_flags tp = t_flags tp' -> snd_una tp = snd_una tp' -> snd_holes tp = snd_holes tp' ->
  tcp_sack_output tp = tcp_sack_output tp'.
Proof. intros E E' E''. unfold tcp_sack_output, TCP_SACK_ENABLED. by rewrite E, E', E''. Qed.

(** A partial ACK in SACK recovery hands [tcp_output] a window of the
    bytes in flight plus one or two segments, with the retransmission
    timer stopped and an immediate ACK requested; whatever [tcp_output]
    is. *)
Theorem tcp_sack_newack_partial tcp_output others objs g tp th :
  sack_inv others objs g tp -> 0 <= t_partialacks tp < 2 ^ 15 - 1 ->
  SEQ_LT (th_ack th) (snd_recover tp) = true -> 0 < t_segsz tp < 2 ^ 16 ->
  u32 (snd_nxt tp - sack_newdata tp) < 2 ^ 30 ->
  exists tp' k, tcp_sack_newack tcp_output tp th = tcp_output tp' /\ (k = 1 \/ k = 2) /\
    snd_cwnd tp' = default 0 (snd (tcp_sack_output tp))
                   + u32 (snd_nxt tp - sack_newdata tp) + k * t_segsz tp /\
    t_partialacks tp' = t_partialacks tp + 1 /\ t_rtttime tp' = 0 /\
    flag_set (t_flags tp') TF_ACKNOW = true /\
    (forall co, t_timer tp' !! TCPT_REXMT = Some co -> callout_active co = false).
Proof.
  intros I P R S Nd. unfold tcp_sack_newack.
  destruct (Z.ltb_spec (t_partialacks tp) 0); [lia|]. rewrite R.
  rewrite s16_small by lia.
  destruct (TCP_TIMER_DISARM_spec (tp <| t_partialacks := t_partialacks tp + 1 |>) TCPT_REXMT)
    as (ts & -> & T & _).
  rewrite (tcp_sack_output_ext _ tp) by reflexivity.
  set (k := if 2 <? _ then 2 else 1).
  eexists _, k. split; [reflexivity|]. split; [unfold k; case_match; auto|].
  upd_simpl. split; [|split; [done|split; [done|split; [flag_bits; done|done]]]].
  pose proof (tcp_sack_output_bytes _ _ _ _ I). pose proof (u32_range (snd_nxt tp - sack_newdata tp)).
  assert (k = 1 \/ k = 2) by (unfold k; case_match; auto).
  rewrite <- u32_add_u32. apply u32_small. nia.
Qed.

Lemma tcp_sack_newack_partial_witness :
  exists tp' k,
    tcp_sack_newack (fun t => t) (ex_tcpcb <| t_partialacks := 0 |> <| snd_recover := 4000 |>
      <| t_segsz := 1460 |> <| sack_newdata := 150 |>) ex_hdr = tp' /\ (k = 1 \/ k = 2) /\
    snd_cwnd tp' = 100 + k * 1460.
Proof.
  set (tp := ex_tcpcb <| t_partialacks := 0 |> <| snd_recover := 4000 |>
      <| t_segsz := 1460 |> <| sack_newdata := 150 |>).
  assert (sack_inv 0 [3; 4; 5; 1; 2]%positive ex_globals tp) as I.
  { split; [|split; [right|]]; try (vm_compute; intuition congruence).
    repeat split; vm_compute; done. }
  destruct (tcp_sack_newack_partial (fun t => t) 0 _ ex_globals tp ex_hdr I)
    as (tp' & k & E & K & C & _); try reflexivity; try (vm_compute; split; congruence).
  exists tp', k. split; [exact E|]. split; [exact K|]. exact C.
Defined.

(** The number of SACK blocks to send is between 0 and TCP_SACK_MAX,
    and 0 only when there is nothing to report. *)
Theorem tcp_sack_numblks_bounds tp :
  0 <= t_segqlen tp ->
  0 <= tcp_sack_numblks tp <= TCP_SACK_MAX /\
  (tcp_sack_numblks tp = 0 <->
   TCP_SACK_ENABLED tp = false \/
   t_segqlen tp = 0 /\ flag_set (rcv_sack_flags tp) TCPSACK_HAVED = false).
Proof.
  intros H. unfold tcp_sack_numblks, TCP_SACK_MAX.
  destruct (TCP_SACK_ENABLED tp), (flag_set (rcv_sack_flags tp) TCPSACK_HAVED); simpl;
    zcases; intuition (congruence || lia).
Qed.

Lemma tcp_sack_numblks_bounds_witness :
  0 <= tcp_sack_numblks (ex_tcpcb <| t_segqlen := 7 |>) <= TCP_SACK_MAX.
Proof. apply tcp_sack_numblks_bounds. vm_compute. discriminate. Defined.

(** ** Where the scoreboard is only approximate *)

(** One block that covers two holes removes only the first: the walk
    stops after deleting it, so SACKed bytes stay recorded as missing. *)
Theorem sack_block_over_two_holes :
  exists g tp th cp optlen g' tp' x,
    sack_inv 0 [3; 4; 5; 1; 2]%positive g tp /\
    Forall (peer_ok th) (sack_blocks tp th cp optlen) /\
    tcp_sack_option g tp th cp optlen = Some (g', tp') /\
    Exists (in_block (snd_una tp) x) (sack_blocks tp th cp optlen) /\
    in_holes (snd_una tp) (snd_holes tp') x.
Proof.
  pose (tp := tcpcb_zero <| t_flags := TF_WILL_SACK |> <| snd_una := 50 |> <| snd_max := 5000 |>
    <| snd_holes := [mkHole 1 100 150 100; mkHole 2 200 250 200] |>
    <| snd_numholes := 2 |> <| rcv_lastsack := 300 |>).
  exists ex_globals, tp, (mkTcphdr 0 50 TH_ACK), [5; 10; 0; 0; 0; 90; 0; 0; 1; 44], 10.
  eexists _, _, 160. split; [|split; [|split; [vm_compute; reflexivity|]]].
  - split; [|split; [right|]]; try (vm_compute; intuition congruence).
    repeat split; vm_compute; done.
  - replace (sack_blocks _ _ _ _) with [mkSackblk 90 300] by reflexivity. repeat constructor.
  - replace (sack_blocks _ _ _ _) with [mkSackblk 90 300] by reflexivity.
    split; apply Exists_cons; left; vm_compute; split; congruence.
Qed.

(** A block that starts below the cumulative ACK is not filtered out,
    and on an empty scoreboard it installs a hole that ends before it
    starts. *)
Theorem sack_inverted_hole :
  exists g tp th cp optlen g' tp' h,
    sack_inv 0 [3; 4; 5]%positive g tp /\ snd_holes tp = [] /\
    tcp_sack_option g tp th cp optlen = Some (g', tp') /\
    snd_holes tp' = [h] /\ SEQ_LT (hend h) (start h) = true.
Proof.
  exists (ex_globals <| tcp_sack_globalholes := 0 |>),
    (tcpcb_zero <| t_flags := TF_WILL_SACK |> <| snd_una := 50 |> <| snd_max := 5000 |>),
    (mkTcphdr 0 100 TH_ACK), [5; 10; 0; 0; 0; 90; 0; 0; 1; 44], 10.
  eexists _, _, _. split; [|split; [reflexivity|split; [vm_compute; reflexivity|split; reflexivity]]].
  split; [|split; [left|]]; try (vm_compute; intuition congruence).
  repeat split; vm_compute; done.
Qed.
