(* ===== verification/TcpCongctl.v ===== *)
(** * TCP congestion control (src/netbsd/netinet/tcp_congctl.c)

    Two parts: the registry of algorithms (a queue of named, reference
    counted entries and the global default) and the Reno and NewReno
    algorithms themselves.  As in the source an algorithm is a table of
    functions on the control block; [tcp_output] is an argument of the
    functions that call it. *)

From S2P Require Import Prelude Pool TcpSeq Callout Tcpcb.
From stdpp Require Import strings.

#[local] Open Scope Z_scope.

(** ** The registry *)

Definition EEXIST : Z := 17.
Definition ENOENT : Z := 2.
Definition EBUSY : Z := 16.
Definition EINVAL : Z := 22.

Definition TCPCC_MAXLEN : nat := 12.

(** [struct tcp_congctlent]; [ent_addr] is the address [malloc] gave it. *)
Record tcp_congctlent := mkEnt {
  ent_addr : addr;
  congctl_ctl : congctl_alg;
  congctl_refcnt : Z;
  congctl_name : string
}.

#[export] Instance eta_tcp_congctlent : EtaRecord tcp_congctlent :=
  fun r => mkEnt (ent_addr r) (congctl_ctl r) (congctl_refcnt r) (congctl_name r).

Record congctl_globals := mkCongctlGlobals {
  tcp_congctlhd : list tcp_congctlent;
  tcp_congctl_global : option addr;
  tcp_congctl_global_name : string;
  tcp_congctl_avail : string
}.

#[export] Instance eta_congctl_globals : EtaRecord congctl_globals :=
  fun r => mkCongctlGlobals (tcp_congctlhd r) (tcp_congctl_global r)
    (tcp_congctl_global_name r) (tcp_congctl_avail r).

Definition congctl_globals_initial : congctl_globals := mkCongctlGlobals [] None "" "".

(** [strlcpy(dst, src, TCPCC_MAXLEN - 1)], which the port defines as
    [strncpy]. *)
Definition name_copy (name : string) : string := String.substring 0 (TCPCC_MAXLEN - 1) name.

(** [tcp_congctl_fillnames]: the names joined with a blank. *)
Fixpoint fillnames (es : list tcp_congctlent) : string :=
  match es with
  | [] => ""
  | [e] => congctl_name e
  | e :: es => String.append (congctl_name e) (String.append " " (fillnames es))
  end.

Definition tcp_congctl_fillnames (g : congctl_globals) : congctl_globals :=
  g <| tcp_congctl_avail := fillnames (tcp_congctlhd g) |>.

(** The loop of [tcp_congctl_select]: the entry that holds the old
    algorithm and the entry with the new name, as the two flags
    [old_found] and [new_found] see them; the loop stops at the first
    entry where both are set and [None] is running off its end. *)
Fixpoint select_loop (old : option congctl_alg) (name : string) (es : list tcp_congctlent)
    (old_found : bool) (old_tccp new_tccp : option tcp_congctlent)
    : option (option tcp_congctlent * tcp_congctlent) :=
  match es with
  | [] => None
  | tccp :: es =>
      let hit := negb old_found && bool_decide (Some (congctl_ctl tccp) = old) in
      let old_tccp := if hit then Some tccp else old_tccp in
      let old_found := old_found || hit in
      let new_tccp := match new_tccp with
                      | Some _ => new_tccp
                      | None => if bool_decide (name = congctl_name tccp) then Some tccp else None
                      end in
      match new_tccp with
      | Some n => if old_found then Some (old_tccp, n)
                  else select_loop old name es old_found old_tccp new_tccp
      | None => select_loop old name es old_found old_tccp new_tccp
      end
  end.

(** [e->congctl_refcnt += d] through a pointer to the entry. *)
Definition ent_ref (a : addr) (d : Z) (es : list tcp_congctlent) : list tcp_congctlent :=
  (fun e => if bool_decide (ent_addr e = a)
            then e <| congctl_refcnt := u32 (congctl_refcnt e + d) |> else e) <$> es.

(** [tcp_congctl_select(tp, name)] for a connection. *)
Definition tcp_congctl_select (g : congctl_globals) (tp : tcpcb) (name : string)
    : Z * congctl_globals * tcpcb :=
  match select_loop (t_congctl tp) name (tcp_congctlhd g)
          (bool_decide (t_congctl tp = None)) None None with
  | None => (EINVAL, g, tp)
  | Some (old_tccp, new_tccp) =>
      let es := match old_tccp with
                | Some o => ent_ref (ent_addr o) (-1) (tcp_congctlhd g)
                | None => tcp_congctlhd g
                end in
      let tp := tp <| t_congctl := Some (congctl_ctl new_tccp) |> in
      (0, g <| tcp_congctlhd := ent_ref (ent_addr new_tccp) 1 es |>, tp)
  end.

(** [tcp_congctl_select(NULL, name)]. *)
Definition tcp_congctl_select_global (g : congctl_globals) (name : string)
    : Z * congctl_globals :=
  match select_loop None name (tcp_congctlhd g) true None None with
  | None => (EINVAL, g)
  | Some (_, new_tccp) =>
      (0, g <| tcp_congctl_global := Some (ent_addr new_tccp) |>
            <| tcp_congctl_global_name := name_copy (congctl_name new_tccp) |>)
  end.

(** [malloc] returns the block [a]; the port's [kern_malloc] does not
    honour M_ZERO, so the reference count starts as the word [r0] that
    the block held. *)
Definition tcp_congctl_register (g : congctl_globals) (a : addr) (r0 : Z) (name : string)
    (tcc : congctl_alg) : Z * congctl_globals :=
  if existsb (fun tccp => bool_decide (name = congctl_name tccp)) (tcp_congctlhd g)
  then (EEXIST, g)
  else
    let ntcc := mkEnt a tcc r0 (name_copy name) in
    let first := match tcp_congctlhd g with [] => true | _ => false end in
    let g := g <| tcp_congctlhd := tcp_congctlhd g ++ [ntcc] |> in
    let g := tcp_congctl_fillnames g in
    let g := if first then snd (tcp_congctl_select_global g name) else g in
    (0, g).

(** The loop keeps the last entry with the name. *)
Definition find_name (name : string) (es : list tcp_congctlent) : option tcp_congctlent :=
  foldl (fun r tccp => if bool_decide (name = congctl_name tccp) then Some tccp else r) None es.

Definition tcp_congctl_unregister (g : congctl_globals) (name : string) : Z * congctl_globals :=
  match find_name name (tcp_congctlhd g) with
  | None => (ENOENT, g)
  | Some rtccp =>
      if (Z.of_nat (length (tcp_congctlhd g)) <=? 1)
         || bool_decide (tcp_congctl_global g = Some (ent_addr rtccp))
         || negb (congctl_refcnt rtccp =? 0)
      then (EBUSY, g)
      else
        let g := g <| tcp_congctlhd :=
          filter (fun e => ent_addr e <> ent_addr rtccp) (tcp_congctlhd g) |> in
        (0, tcp_congctl_fillnames g)
  end.

(** [tcp_congctl_release] drops the reference of a connection that goes
    away. *)
Definition tcp_congctl_release (g : congctl_globals) (tp : tcpcb) : congctl_globals :=
  match list_find (fun e => Some (congctl_ctl e) = t_congctl tp) (tcp_congctlhd g) with
  | Some (_, tccp) => g <| tcp_congctlhd := ent_ref (ent_addr tccp) (-1) (tcp_congctlhd g) |>
  | None => g
  end.

Definition tcp_congctl_bystruct (g : congctl_globals) (tcc : congctl_alg) : option string :=
  match list_find (fun e => congctl_ctl e = tcc) (tcp_congctlhd g) with
  | Some (_, tccp) => Some (congctl_name tccp)
  | None => None
  end.

(** [tcp_congctl_init] with the two blocks [malloc] returns. *)
Definition tcp_congctl_init (a1 a2 : addr) (r1 r2 : Z) : congctl_globals :=
  let g := congctl_globals_initial in
  let '(_, g) := tcp_congctl_register g a1 r1 "reno" tcp_reno_ctl in
  let '(_, g) := tcp_congctl_register g a2 r2 "newreno" tcp_newreno_ctl in
  snd (tcp_congctl_select_global g "newreno").

(** ** The algorithms *)

(** libkern's [min] and [max] take [u_int]. *)
Definition umin (a b : Z) : Z := Z.min (u32 a) (u32 b).
Definition umax (a b : Z) : Z := Z.max (u32 a) (u32 b).

Definition tcprexmtthresh : Z := 3.

(** The sysctl variables of [tcp_subr.c]. *)
Record abc_config := mkAbc { tcp_do_abc : bool; tcp_abc_aggressive : Z }.

(** [win = min(snd_wnd, snd_cwnd) / 2 / t_segsz; if (win < 2) win = 2] *)
Definition half_window (tp : tcpcb) : Z :=
  let win := umin (snd_wnd tp) (snd_cwnd tp) / 2 / t_segsz tp in
  if win <? 2 then 2 else win.

Definition tcp_reno_congestion_exp (tp : tcpcb) : tcpcb :=
  let win := half_window tp in
  let tp := tp <| snd_ssthresh := u32 (win * t_segsz tp) |> in
  let tp := tp <| snd_recover := snd_max tp |> in
  let tp := tp <| snd_cwnd := snd_ssthresh tp |> in
  if TCP_ECN_ALLOWED tp then tp <| t_flags := Z.lor (t_flags tp) TF_ECN_SND_CWR |> else tp.

Section algorithms.
Variable tcp_output : tcpcb -> tcpcb.
Variable cfg : abc_config.

Definition tcp_reno_fast_retransmit (tp : tcpcb) (th : tcphdr) : Z * tcpcb :=
  let onxt := snd_nxt tp in
  let tp := tcp_reno_congestion_exp tp in
  let tp := tp <| t_partialacks := 0 |> in
  let tp := TCP_TIMER_DISARM tp TCPT_REXMT in
  let tp := tp <| t_rtttime := 0 |> in
  if TCP_SACK_ENABLED tp then
    let tp := tp <| t_dupacks := tcprexmtthresh |> in
    let tp := tp <| sack_newdata := snd_nxt tp |> in
    let tp := tp <| snd_cwnd := t_segsz tp |> in
    (0, tcp_output tp)
  else
    let tp := tp <| snd_nxt := th_ack th |> in
    let tp := tp <| snd_cwnd := t_segsz tp |> in
    let tp := tcp_output tp in
    let tp := tp <| snd_cwnd := u64 (snd_ssthresh tp + s32 (t_segsz tp * t_dupacks tp)) |> in
    let tp := if SEQ_GT onxt (snd_nxt tp) then tp <| snd_nxt := onxt |> else tp in
    (0, tp).

Definition tcp_reno_slow_retransmit (tp : tcpcb) : tcpcb :=
  let win := half_window tp in
  let tp := tp <| snd_cwnd := t_segsz tp |> in
  let tp := tp <| snd_ssthresh := u32 (win * t_segsz tp) |> in
  tp <| t_partialacks := -1 |> <| t_dupacks := 0 |> <| t_bytes_acked := 0 |>.

Definition tcp_reno_fast_retransmit_newack (tp : tcpcb) (th : tcphdr) : tcpcb :=
  if t_partialacks tp <? 0 then tp <| t_dupacks := 0 |>
  else
    let tp := if snd_ssthresh tp <? snd_cwnd tp
              then tp <| snd_cwnd := snd_ssthresh tp |> else tp in
    tp <| t_partialacks := -1 |> <| t_dupacks := 0 |> <| t_bytes_acked := 0 |>.

(** The window increment and the new [t_bytes_acked]. *)
Definition newack_incr (tp : tcpcb) (th : tcphdr) (cw : Z) : Z * Z :=
  let incr := t_segsz tp in
  if tcp_do_abc cfg then
    let acked := s32 (th_ack th - snd_una tp) in
    if snd_ssthresh tp <=? cw then
      let bytes := u64 (t_bytes_acked tp + acked) in
      if cw <=? bytes then (incr, u64 (bytes - cw)) else (0, bytes)
    else
      let abc_lim := if (tcp_abc_aggressive cfg =? 0) || negb (snd_nxt tp =? snd_max tp)
                     then incr else u32 (incr * 2) in
      (umin acked abc_lim, t_bytes_acked tp)
  else if snd_ssthresh tp <=? cw then (u32 (incr * incr) / cw, t_bytes_acked tp)
  else (incr, t_bytes_acked tp).

Definition tcp_reno_newack (tp : tcpcb) (th : tcphdr) : tcpcb :=
  let cw := u32 (snd_cwnd tp) in
  let '(incr, bytes) := newack_incr tp th cw in
  tp <| t_bytes_acked := bytes |>
     <| snd_cwnd := umin (cw + incr) (Z.shiftl TCP_MAXWIN (snd_scale tp)) |>.

Definition tcp_newreno_fast_retransmit (tp : tcpcb) (th : tcphdr) : Z * tcpcb :=
  if SEQ_LT (th_ack th) (snd_high tp) then (1, tp <| t_dupacks := 0 |>)
  else tcp_reno_fast_retransmit tp th.

Definition tcp_newreno_fast_retransmit_newack (tp : tcpcb) (th : tcphdr) : tcpcb :=
  if t_partialacks tp <? 0 then tp <| t_dupacks := 0 |>
  else if SEQ_LT (th_ack th) (snd_recover tp) then
    let onxt := snd_nxt tp in
    let ocwnd := snd_cwnd tp in
    let tp := tp <| t_partialacks := s16 (t_partialacks tp + 1) |> in
    let tp := if t_partialacks tp =? 1 then TCP_TIMER_DISARM tp TCPT_REXMT else tp in
    let tp := tp <| t_rtttime := 0 |> in
    let tp := tp <| snd_nxt := th_ack th |> in
    let tp := tp <| snd_cwnd := u32 (t_segsz tp + (th_ack th - snd_una tp)) |> in
    let tp := tcp_output tp in
    let tp := tp <| snd_cwnd := ocwnd |> in
    let tp := if SEQ_GT onxt (snd_nxt tp) then tp <| snd_nxt := onxt |> else tp in
    tp <| snd_cwnd := u64 (snd_cwnd tp - u32 (th_ack th - snd_una tp - t_segsz tp)) |>
  else
    let tp := tp <| snd_cwnd :=
      if SEQ_SUB (snd_max tp) (th_ack th) <? snd_ssthresh tp
      then u64 (SEQ_SUB (snd_max tp) (th_ack th) + t_segsz tp)
      else snd_ssthresh tp |> in
    tp <| t_partialacks := -1 |> <| t_dupacks := 0 |> <| t_bytes_acked := 0 |>.

Definition tcp_newreno_newack (tp : tcpcb) (th : tcphdr) : tcpcb :=
  if t_partialacks tp <? 0 then tcp_reno_newack tp th else tp.

(** [struct tcp_congctl]: the table of an algorithm. *)
Record tcp_congctl := mkCongctl {
  fast_retransmit : tcpcb -> tcphdr -> Z * tcpcb;
  slow_retransmit : tcpcb -> tcpcb;
  fast_retransmit_newack : tcpcb -> tcphdr -> tcpcb;
  newack : tcpcb -> tcphdr -> tcpcb;
  cong_exp : tcpcb -> tcpcb
}.

Definition congctl_table (a : congctl_alg) : tcp_congctl :=
  match a with
  | tcp_reno_ctl =>
      mkCongctl tcp_reno_fast_retransmit tcp_reno_slow_retransmit
        tcp_reno_fast_retransmit_newack tcp_reno_newack tcp_reno_congestion_exp
  | tcp_newreno_ctl =>
      mkCongctl tcp_newreno_fast_retransmit tcp_reno_slow_retransmit
        tcp_newreno_fast_retransmit_newack tcp_newreno_newack tcp_reno_congestion_exp
  end.
End algorithms.
