(* ===== verification/TcpCongctlFacts.v ===== *)
(** * Correctness of TCP congestion control

    Theorems about TcpCongctl.v: the contract every algorithm table
    meets, the growth of the window under Appropriate Byte Counting, the
    deflation of NewReno's window, and the reference counts of the
    registry. *)

From S2P Require Import Prelude Pool TcpSeq Callout Tcpcb TcpCongctl.
From stdpp Require Import strings.

#[local] Open Scope Z_scope.

(** ** The contract of an algorithm *)

(** The control block of a live connection: a segment size, a window
    scale within RFC 1323, window counters of 32 bits. *)
Record conn_ok (tp : tcpcb) : Prop := mkConnOk {
  ok_segsz : 0 < t_segsz tp < 2 ^ 16;
  ok_scale : 0 <= snd_scale tp <= 14;
  ok_wnd : 0 <= snd_wnd tp < 2 ^ 32;
  ok_cwnd : 0 <= snd_cwnd tp < 2 ^ 31;
  ok_ssthresh : 0 <= snd_ssthresh tp < 2 ^ 31;
  ok_bytes : 0 <= t_bytes_acked tp < 2 ^ 62;
  ok_dupacks : 0 <= t_dupacks tp < 2 ^ 15
}.

Definition in_recovery (tp : tcpcb) : Prop := 0 <= t_partialacks tp.

Definition max_window (tp : tcpcb) : Z := Z.shiftl TCP_MAXWIN (snd_scale tp).

(** Half the window in flight, in whole segments, at least two. *)
Definition loss_window (tp : tcpcb) : Z :=
  Z.max 2 (Z.min (snd_wnd tp) (snd_cwnd tp) / 2 / t_segsz tp) * t_segsz tp.

(** The control block that fast retransmit hands to [tcp_output]: in recovery, with
    half the window as the threshold, a window of one segment, and no timer or
    measurement for the segment that is sent again; without SACK it is sent
    from the acknowledgement on. *)
Record retransmits (tp : tcpcb) (th : tcphdr) (t0 : tcpcb) : Prop := mkRetransmits {
  ret_recovery : in_recovery t0;
  ret_ssthresh : snd_ssthresh t0 = loss_window tp;
  ret_cwnd : snd_cwnd t0 = t_segsz tp;
  ret_recover : snd_recover t0 = snd_max tp;
  ret_rtt : t_rtttime t0 = 0;
  ret_timer : forall co, t_timer t0 !! TCPT_REXMT = Some co -> callout_active co = false;
  ret_nxt : snd_nxt t0 = if TCP_SACK_ENABLED tp then snd_nxt tp else th_ack th
}.

(** What is done with the control block that [tcp_output] leaves: without SACK the
    window is inflated by the segments that have left the network, and [snd_nxt]
    does not go back. *)
Definition retransmitted (tp t1 : tcpcb) : tcpcb :=
  if TCP_SACK_ENABLED tp then t1
  else t1 <| snd_cwnd := u64 (snd_ssthresh t1 + s32 (t_segsz t1 * t_dupacks t1)) |> <| snd_nxt := SEQ_MAX (snd_nxt tp) (snd_nxt t1) |>.

Record congctl_spec (tcp_output : tcpcb -> tcpcb) (ctl : tcp_congctl) : Prop := mkCongctlSpec {
  (** On a retransmission timeout the window closes to one segment, the
      threshold is half the window in flight and recovery is left. *)
  spec_slow_retransmit : forall tp, conn_ok tp ->
    let tp' := slow_retransmit ctl tp in
    snd_cwnd tp' = t_segsz tp /\ snd_ssthresh tp' = loss_window tp /\
    ~ in_recovery tp' /\ t_dupacks tp' = 0 /\ t_bytes_acked tp' = 0;
  (** On congestion the window is pulled back to the new threshold. *)
  spec_cong_exp : forall tp, conn_ok tp ->
    let tp' := cong_exp ctl tp in
    snd_ssthresh tp' = loss_window tp /\ snd_cwnd tp' = loss_window tp /\
    snd_recover tp' = snd_max tp /\
    (TCP_ECN_ALLOWED tp = true -> flag_set (t_flags tp') TF_ECN_SND_CWR = true);
  (** Fast retransmit either enters recovery with half the window and sends a
      segment again, or refuses and only forgets the duplicate acknowledgements. *)
  spec_fast_retransmit : forall tp th, conn_ok tp ->
    let '(r, tp') := fast_retransmit ctl tp th in
    (r = 0 -> exists t0, retransmits tp th t0 /\ tp' = retransmitted tp (tcp_output t0)) /\
    (r <> 0 -> tp' = tp <| t_dupacks := 0 |>);
  (** An acknowledgement outside recovery touches the duplicate count
      only; one that covers [snd_recover] ends recovery with a window of
      at most the threshold or what is in flight plus a segment. *)
  spec_newack_idle : forall tp th, ~ in_recovery tp ->
    fast_retransmit_newack ctl tp th = tp <| t_dupacks := 0 |>;
  spec_newack_complete : forall tp th, conn_ok tp -> in_recovery tp ->
    SEQ_LT (th_ack th) (snd_recover tp) = false ->
    let tp' := fast_retransmit_newack ctl tp th in
    ~ in_recovery tp' /\ t_dupacks tp' = 0 /\
    snd_cwnd tp' <= snd_ssthresh tp + t_segsz tp;
  (** New data acknowledged opens the window by at most two segments,
      never closes it and never exceeds the scaled maximum. *)
  spec_newack : forall tp th, conn_ok tp -> 0 < s32 (th_ack th - snd_una tp) ->
    t_segsz tp <= snd_cwnd tp <= max_window tp ->
    let tp' := newack ctl tp th in
    snd_cwnd tp <= snd_cwnd tp' <= Z.min (snd_cwnd tp + 2 * t_segsz tp) (max_window tp)
}.

Lemma max_window_bound tp : conn_ok tp -> 65535 <= max_window tp < 2 ^ 30.
Proof.
  intros [_ S _ _ _ _ _]. unfold max_window, TCP_MAXWIN. rewrite Z.shiftl_mul_pow2 by lia.
  assert (2 ^ 0 <= 2 ^ snd_scale tp <= 2 ^ 14) by (split; apply Z.pow_le_mono_r; lia).
  lia.
Qed.

Lemma half_window_loss tp : conn_ok tp ->
  u32 (half_window tp * t_segsz tp) = loss_window tp /\ 0 <= loss_window tp < 2 ^ 31.
Proof.
  intros [S _ W C _ _ _]. unfold half_window, loss_window, umin.
  rewrite (u32_small (snd_wnd tp)), (u32_small (snd_cwnd tp)) by lia. set (m := Z.min (snd_wnd tp) (snd_cwnd tp)).
  assert (0 <= m < 2 ^ 31) by lia.
  assert (0 <= m / 2 / t_segsz tp * t_segsz tp <= m / 2).
  { pose proof (Z.mul_div_le (m / 2) (t_segsz tp)).
    assert (0 <= m / 2) by (apply Z.div_pos; lia).
    assert (0 <= m / 2 / t_segsz tp) by (apply Z.div_pos; lia). nia. }
  assert (m / 2 <= m) by (apply Z.div_le_upper_bound; lia).
  destruct (Z.ltb_spec (m / 2 / t_segsz tp) 2).
  - rewrite Z.max_l by lia. rewrite u32_small; lia.
  - rewrite Z.max_r by lia. rewrite u32_small; lia.
Qed.

(** ** Reno *)

Lemma reno_congestion_exp_spec tp : conn_ok tp ->
  let tp' := tcp_reno_congestion_exp tp in
  snd_ssthresh tp' = loss_window tp /\ snd_cwnd tp' = loss_window tp /\
  snd_recover tp' = snd_max tp /\
  (TCP_ECN_ALLOWED tp = true -> flag_set (t_flags tp') TF_ECN_SND_CWR = true) /\
  t_segsz tp' = t_segsz tp /\ snd_nxt tp' = snd_nxt tp /\ TCP_SACK_ENABLED tp' = TCP_SACK_ENABLED tp.
Proof.
  intros K. unfold tcp_reno_congestion_exp.
  destruct (half_window_loss tp K) as [E _].
  match goal with |- context [TCP_ECN_ALLOWED ?t] =>
    change (TCP_ECN_ALLOWED t) with (TCP_ECN_ALLOWED tp) end.
  destruct (TCP_ECN_ALLOWED tp); cbv zeta; unfold TCP_SACK_ENABLED; upd_simpl; rewrite ?E; repeat split; try done;
    flag_bits; done.
Qed.

Lemma reno_slow_retransmit_spec tp : conn_ok tp ->
  let tp' := tcp_reno_slow_retransmit tp in
  snd_cwnd tp' = t_segsz tp /\ snd_ssthresh tp' = loss_window tp /\
  ~ in_recovery tp' /\ t_dupacks tp' = 0 /\ t_bytes_acked tp' = 0.
Proof.
  intros K. unfold tcp_reno_slow_retransmit, in_recovery. cbv zeta. upd_simpl.
  destruct (half_window_loss tp K) as [E _]. rewrite E. repeat split; lia.
Qed.

Section with_output.
Context (tcp_output : tcpcb -> tcpcb) (cfg : abc_config).

Lemma reno_fast_retransmit_spec tp th : conn_ok tp ->
  exists t0, retransmits tp th t0 /\ tcp_reno_fast_retransmit tcp_output tp th = (0, retransmitted tp (tcp_output t0)).
Proof.
  intros K. unfold tcp_reno_fast_retransmit. cbv zeta.
  destruct (reno_congestion_exp_spec tp K) as (E1 & _ & E3 & _ & E5 & E6 & E7).
  set (t := tcp_reno_congestion_exp tp) in *. clearbody t.
  destruct (TCP_TIMER_DISARM_spec (t <| t_partialacks := 0 |>) TCPT_REXMT) as (ts & -> & Dis & _).
  assert (S : TCP_SACK_ENABLED (t <| t_partialacks := 0 |> <| t_timer := ts |> <| t_rtttime := 0 |>) = TCP_SACK_ENABLED tp)
    by (rewrite <- E7; reflexivity).
  rewrite S. unfold retransmitted. destruct (TCP_SACK_ENABLED tp) eqn:Sk; cbv zeta.
  - eexists. split; [|reflexivity]. split; upd_simpl; rewrite ?Sk; done.
  - match goal with |- context [tcp_output ?x] => exists x; assert (R : retransmits tp th x) by (split; upd_simpl; rewrite ?Sk; done);
      split; [exact R|]; generalize (tcp_output x) end.
    intros t1. unfold SEQ_MAX. upd_simpl. destruct (SEQ_GT _ _); upd_simpl; f_equal; by destruct t1.
Qed.

Lemma newack_incr_bound tp th cw : conn_ok tp -> t_segsz tp <= cw < 2 ^ 31 ->
  0 < s32 (th_ack th - snd_una tp) ->
  let '(incr, bytes) := newack_incr cfg tp th cw in 0 <= incr <= 2 * t_segsz tp.
Proof.
  intros [S _ W C T B D] Cw A. unfold newack_incr.
  pose proof (s32_range (th_ack th - snd_una tp)).
  destruct (tcp_do_abc cfg).
  - destruct (Z.leb_spec (snd_ssthresh tp) cw); [destruct (_ <=? _); lia|].
    unfold umin. destruct (_ || _); rewrite !u32_small by (rewrite ?u32_small; lia); lia.
  - destruct (Z.leb_spec (snd_ssthresh tp) cw); [|lia].
    rewrite u32_small by nia. split; [apply Z.div_pos; nia|].
    apply Z.div_le_upper_bound; nia.
Qed.

Lemma reno_newack_spec tp th : conn_ok tp -> 0 < s32 (th_ack th - snd_una tp) ->
  t_segsz tp <= snd_cwnd tp <= max_window tp ->
  let tp' := tcp_reno_newack cfg tp th in
  snd_cwnd tp <= snd_cwnd tp' <= Z.min (snd_cwnd tp + 2 * t_segsz tp) (max_window tp).
Proof.
  intros K A Cw. pose proof (max_window_bound tp K). destruct (K) as [S _ W C T B D].
  unfold tcp_reno_newack. rewrite (u32_small (snd_cwnd tp)) by lia.
  pose proof (newack_incr_bound tp th (snd_cwnd tp) K ltac:(lia) A) as Bd.
  destruct (newack_incr cfg tp th (snd_cwnd tp)) as [incr bytes]. cbv zeta. upd_simpl.
  fold (max_window tp). unfold umin. rewrite !u32_small by lia. lia.
Qed.

Lemma reno_newack_complete tp th : conn_ok tp -> in_recovery tp ->
  let tp' := tcp_reno_fast_retransmit_newack tp th in
  ~ in_recovery tp' /\ t_dupacks tp' = 0 /\ snd_cwnd tp' <= snd_ssthresh tp + t_segsz tp.
Proof.
  intros [S _ W C T B D] R. unfold tcp_reno_fast_retransmit_newack, in_recovery in *.
  destruct (Z.ltb_spec (t_partialacks tp) 0); [lia|].
  destruct (Z.ltb_spec (snd_ssthresh tp) (snd_cwnd tp)); cbv zeta; upd_simpl; lia.
Qed.

Lemma newreno_newack_complete tp th : conn_ok tp -> in_recovery tp ->
  SEQ_LT (th_ack th) (snd_recover tp) = false ->
  let tp' := tcp_newreno_fast_retransmit_newack tcp_output tp th in
  ~ in_recovery tp' /\ t_dupacks tp' = 0 /\ snd_cwnd tp' <= snd_ssthresh tp + t_segsz tp.
Proof.
  intros [S _ W C T B D] R L. unfold tcp_newreno_fast_retransmit_newack, in_recovery in *.
  destruct (Z.ltb_spec (t_partialacks tp) 0); [lia|]. rewrite L. cbv zeta. upd_simpl.
  split; [lia|]. split; [done|].
  destruct (Z.ltb_spec (SEQ_SUB (snd_max tp) (th_ack th)) (snd_ssthresh tp)); [|lia].
  pose proof (u32_range (snd_max tp - th_ack th)). unfold SEQ_SUB in *.
  rewrite u64_small by lia. lia.
Qed.

Lemma newack_idle_lt tp : ~ in_recovery tp -> (t_partialacks tp <? 0) = true.
Proof. unfold in_recovery. intros. apply Z.ltb_lt. lia. Qed.

(** C32. Both algorithms, Reno and NewReno, meet the contract: the
    response to timeouts, to congestion, to the third duplicate
    acknowledgement and to new acknowledgements, whatever [tcp_output] does
    when it is called and for both settings of Appropriate Byte Counting. *)
Theorem congctl_table_spec a : congctl_spec tcp_output (congctl_table tcp_output cfg a).
Proof.
  destruct a; split; simpl; intros.
  - by apply reno_slow_retransmit_spec.
  - by destruct (reno_congestion_exp_spec tp H) as (? & ? & ? & ? & _).
  - destruct (reno_fast_retransmit_spec tp th H) as (t0 & R & ->). split; [by exists t0|done].
  - unfold tcp_reno_fast_retransmit_newack. by rewrite newack_idle_lt.
  - by apply reno_newack_complete.
  - by apply reno_newack_spec.
  - by apply reno_slow_retransmit_spec.
  - by destruct (reno_congestion_exp_spec tp H) as (? & ? & ? & ? & _).
  - unfold tcp_newreno_fast_retransmit. destruct (SEQ_LT _ _); [done|].
    destruct (reno_fast_retransmit_spec tp th H) as (t0 & R & ->). split; [by exists t0|done].
  - unfold tcp_newreno_fast_retransmit_newack. by rewrite newack_idle_lt.
  - by apply newreno_newack_complete.
  - unfold tcp_newreno_newack. destruct (_ <? _); [by apply reno_newack_spec|].
    pose proof (max_window_bound tp H). destruct H as [? ? ? ? ? ? ?]. lia.
Qed.
End with_output.

(** ** Growth of the window under Appropriate Byte Counting *)

(** A series of acknowledgements of new data, processed in order: each
    opens the window and then advances [snd_una]. *)
Definition ack_step (cfg : abc_config) (tp : tcpcb) (ack : tcp_seq) : tcpcb :=
  (tcp_reno_newack cfg tp (mkTcphdr 0 ack TH_ACK)) <| snd_una := ack |>.

Definition ack_run (cfg : abc_config) (tp : tcpcb) (acks : list tcp_seq) : tcpcb :=
  foldl (ack_step cfg) tp acks.

Fixpoint advancing (una : tcp_seq) (acks : list tcp_seq) : Prop :=
  match acks with
  | [] => True
  | a :: acks => 0 < s32 (a - una) /\ advancing a acks
  end.

Fixpoint bytes_acked (una : tcp_seq) (acks : list tcp_seq) : Z :=
  match acks with
  | [] => 0
  | a :: acks => s32 (a - una) + bytes_acked a acks
  end.

Lemma bytes_acked_nonneg una acks : advancing una acks -> 0 <= bytes_acked una acks.
Proof.
  revert una; induction acks as [|a acks IH]; simpl; intros una; [lia|].
  intros [? ?%IH]. lia.
Qed.

(** One acknowledgement in congestion avoidance: it pays for an increase
    of at most a segment with a window's worth of acknowledged bytes. *)
Lemma ack_step_avoidance cfg tp a : tcp_do_abc cfg = true -> conn_ok tp ->
  0 < snd_cwnd tp <= max_window tp -> snd_ssthresh tp <= snd_cwnd tp ->
  0 < s32 (a - snd_una tp) -> t_bytes_acked tp + s32 (a - snd_una tp) < 2 ^ 62 ->
  let tp' := ack_step cfg tp a in
  conn_ok tp' /\ max_window tp' = max_window tp /\ snd_ssthresh tp' = snd_ssthresh tp /\
  t_segsz tp' = t_segsz tp /\ snd_una tp' = a /\
  ((snd_cwnd tp' = snd_cwnd tp /\
    t_bytes_acked tp' = t_bytes_acked tp + s32 (a - snd_una tp)) \/
   (snd_cwnd tp <= snd_cwnd tp' <= Z.min (snd_cwnd tp + t_segsz tp) (max_window tp) /\
    t_bytes_acked tp' = t_bytes_acked tp + s32 (a - snd_una tp) - snd_cwnd tp)).
Proof.
  intros Abc K Cw Ss A Bt. pose proof (max_window_bound tp K).
  destruct K as [S Sc W C T B D]. unfold ack_step, tcp_reno_newack, newack_incr.
  rewrite Abc. rewrite (u32_small (snd_cwnd tp)) by lia. simpl th_ack.
  destruct (Z.leb_spec (snd_ssthresh tp) (snd_cwnd tp)); [|lia].
  rewrite (u64_small (_ + _)) by lia.
  set (n := t_bytes_acked tp + s32 (a - snd_una tp)) in *.
  destruct (Z.leb_spec (snd_cwnd tp) n); cbv zeta; unfold max_window; upd_simpl;
    fold (max_window tp); unfold umin.
  - rewrite !u32_small, u64_small by lia. split; [split; upd_simpl; lia|]. lia.
  - rewrite !u32_small by lia. split; [split; upd_simpl; lia|]. lia.
Qed.

Lemma growth_step c0 c1 c2 seg :
  0 < c0 <= c1 -> c1 <= c2 -> c1 <= c0 + seg ->
  (c2 - c0) * c0 <= (c2 - c1) * c1 + seg * c0.
Proof.
  intros. assert ((c1 - c0) * c0 <= seg * c0) by (apply Z.mul_le_mono_nonneg_r; lia).
  assert ((c2 - c1) * c0 <= (c2 - c1) * c1) by (apply Z.mul_le_mono_nonneg_l; lia). lia.
Qed.

(** With Appropriate Byte Counting the window grows linearly in
    congestion avoidance: over any series of acknowledgements, of any
    sizes, the growth is at most one segment for every window's worth of
    bytes acknowledged. *)
Theorem abc_linear_growth cfg tp acks : tcp_do_abc cfg = true -> conn_ok tp ->
  0 < snd_cwnd tp <= max_window tp -> snd_ssthresh tp <= snd_cwnd tp ->
  advancing (snd_una tp) acks ->
  t_bytes_acked tp + bytes_acked (snd_una tp) acks < 2 ^ 62 ->
  let tp' := ack_run cfg tp acks in
  snd_cwnd tp <= snd_cwnd tp' <= max_window tp /\
  (snd_cwnd tp' - snd_cwnd tp) * snd_cwnd tp
    <= t_segsz tp * (t_bytes_acked tp + bytes_acked (snd_una tp) acks).
Proof.
  intros Abc K Cw Ss Ad Bt tp'.
  enough (snd_cwnd tp <= snd_cwnd tp' <= max_window tp /\ 0 <= t_bytes_acked tp' /\
    (snd_cwnd tp' - snd_cwnd tp) * snd_cwnd tp + t_segsz tp * t_bytes_acked tp'
      <= t_segsz tp * (t_bytes_acked tp + bytes_acked (snd_una tp) acks)) as G.
  { destruct K as [? ? ? ? ? ? ?]. split; [lia|]. nia. }
  subst tp'. revert tp K Cw Ss Ad Bt. induction acks as [|a acks IH]; simpl; intros.
  { destruct K as [? ? ? ? ? ? ?]. lia. }
  destruct Ad as [A Ad]. pose proof (bytes_acked_nonneg _ _ Ad).
  destruct (ack_step_avoidance cfg tp a Abc K Cw Ss A ltac:(lia)) as (K' & M & T & Sg & U & G).
  specialize (IH (ack_step cfg tp a) K').
  rewrite M, T, Sg, U in IH. unfold ack_run in *. simpl.
  set (fin := foldl (ack_step cfg) (ack_step cfg tp a) acks) in *.
  destruct K as [? ? ? ? ? ? ?], K' as [? ? ? ? ? ? ?].
  destruct G as [[G1 G2]|[G1 G2]]; rewrite G2 in IH; [rewrite G1 in IH|];
    destruct (IH ltac:(lia) ltac:(lia) Ad ltac:(lia)) as (I1 & I2 & I3);
    (split; [lia|]; split; [lia|]); [lia|].
  assert ((snd_cwnd fin - snd_cwnd tp) * snd_cwnd tp
    <= (snd_cwnd fin - snd_cwnd (ack_step cfg tp a)) * snd_cwnd (ack_step cfg tp a)
       + t_segsz tp * snd_cwnd tp) by (apply growth_step; lia).
  lia.
Qed.

Definition ex_conn : tcpcb :=
  tcpcb_zero <| t_segsz := 1460 |> <| snd_wnd := 65535 |> <| snd_cwnd := 14600 |>
    <| snd_ssthresh := 14600 |> <| snd_una := 1000 |> <| snd_nxt := 40000 |>
    <| snd_max := 40000 |> <| snd_recover := 30000 |> <| snd_scale := 2 |>.

Lemma ex_conn_ok : conn_ok ex_conn.
Proof. split; vm_compute; split; congruence. Defined.

Lemma abc_linear_growth_witness :
  let tp' := ack_run (mkAbc true 1) ex_conn [9000; 18000; 30000] in
  snd_cwnd tp' = 14600 + 1460 /\ (snd_cwnd tp' - 14600) * 14600 <= 1460 * 29000.
Proof.
  split; [reflexivity|].
  apply (abc_linear_growth (mkAbc true 1) ex_conn [9000; 18000; 30000]); try exact ex_conn_ok;
    try reflexivity; try (vm_compute; repeat split; congruence).
Defined.

(** ** Partial acknowledgements in NewReno *)

(** The control block that is handed to [tcp_output]. *)
Definition partial_block (tp : tcpcb) (th : tcphdr) : tcpcb :=
  let tp := tp <| t_partialacks := s16 (t_partialacks tp + 1) |> in
  let tp := if t_partialacks tp =? 1 then TCP_TIMER_DISARM tp TCPT_REXMT else tp in
  tp <| t_rtttime := 0 |> <| snd_nxt := th_ack th |> <| snd_cwnd := u32 (t_segsz tp + (th_ack th - snd_una tp)) |>.

(** [tcp_output] keeps the segment size, which [tcp_segsize] may change, and what
    it never changes. *)
Definition segsz_kept (t t1 : tcpcb) : Prop := t_segsz t1 = t_segsz t /\ t_partialacks t1 = t_partialacks t /\ snd_una t1 = snd_una t.

Section partial.
Context (tcp_output : tcpcb -> tcpcb) (tp : tcpcb) (th : tcphdr).
Context (Out : segsz_kept (partial_block tp th) (tcp_output (partial_block tp th))).

(** Every partial acknowledgement retransmits from it with a window of
    the acknowledged bytes and one segment, restores [snd_nxt], and takes
    [u32 (acked - segsz)] off the window. *)
Lemma newreno_partial_form :
  0 <= t_partialacks tp < 2 ^ 15 - 1 -> SEQ_LT (th_ack th) (snd_recover tp) = true ->
  let tp' := tcp_newreno_fast_retransmit_newack tcp_output tp th in
  t_partialacks tp' = t_partialacks tp + 1 /\
  snd_nxt tp' = SEQ_MAX (snd_nxt tp) (snd_nxt (tcp_output (partial_block tp th))) /\
  snd_cwnd tp' = u64 (snd_cwnd tp - u32 (th_ack th - snd_una tp - t_segsz tp)).
Proof using Out.
  intros P R. assert (exists ts, partial_block tp th = tp <| t_partialacks := t_partialacks tp + 1 |> <| t_timer := ts |> <| t_rtttime := 0 |>
    <| snd_nxt := th_ack th |> <| snd_cwnd := u32 (t_segsz tp + (th_ack th - snd_una tp)) |>) as [ts E].
  { unfold partial_block. rewrite s16_small by lia. cbv zeta. upd_simpl. destruct (_ =? 1).
    - destruct (TCP_TIMER_DISARM_spec (tp <| t_partialacks := t_partialacks tp + 1 |>) TCPT_REXMT) as (ts & -> & _). by exists ts.
    - exists (t_timer tp). by destruct tp. }
  unfold tcp_newreno_fast_retransmit_newack. destruct (Z.ltb_spec (t_partialacks tp) 0); [lia|]. rewrite R. cbv zeta.
  change (set snd_cwnd (fun _ => u32 _) _) with (partial_block tp th).
  destruct Out as (O2 & O4 & O5). rewrite E in *. upd_simpl in O2. upd_simpl in O4. upd_simpl in O5.
  unfold SEQ_MAX. destruct (SEQ_GT _ _); upd_simpl; rewrite ?O2, ?O4, ?O5; done.
Qed.

(** A partial acknowledgement of at least a segment keeps the
    connection in recovery and deflates the window by exactly the bytes
    acknowledged less one segment, without wrap-around. *)
Theorem newreno_partial_deflates :
  conn_ok tp -> 0 <= t_partialacks tp < 2 ^ 15 - 1 ->
  SEQ_LT (th_ack th) (snd_recover tp) = true ->
  t_segsz tp <= u32 (th_ack th - snd_una tp) <= snd_cwnd tp + t_segsz tp ->
  let tp' := tcp_newreno_fast_retransmit_newack tcp_output tp th in
  in_recovery tp' /\
  snd_cwnd tp' = snd_cwnd tp - (u32 (th_ack th - snd_una tp) - t_segsz tp).
Proof using Out.
  intros [S _ _ C _ _ _] P R A. destruct (newreno_partial_form P R) as (P' & _ & W). cbv zeta in *. rewrite W. unfold in_recovery. rewrite P'.
  split; [lia|]. rewrite <- u32_sub_u32, (u32_small (_ - _)) by lia. apply u64_small. lia.
Qed.

(** A partial acknowledgement of less than a segment wraps the
    deflation around in 32 bits and, because [snd_cwnd] is 64 bits wide,
    leaves a window of more than 2^63 bytes. *)
Theorem newreno_short_partial_inflates :
  conn_ok tp -> 0 <= t_partialacks tp < 2 ^ 15 - 1 ->
  SEQ_LT (th_ack th) (snd_recover tp) = true ->
  0 < u32 (th_ack th - snd_una tp) < t_segsz tp ->
  2 ^ 63 < snd_cwnd (tcp_newreno_fast_retransmit_newack tcp_output tp th).
Proof using Out.
  intros [S _ _ C _ _ _] P R A. destruct (newreno_partial_form P R) as (_ & _ & W). cbv zeta in *. rewrite W.
  rewrite <- u32_sub_u32. set (d := u32 (th_ack th - snd_una tp)) in *.
  replace (u32 (d - t_segsz tp)) with (d - t_segsz tp + 2 ^ 32)
    by (unfold u32; rewrite <- (Z.mod_add _ 1), Z.mod_small by lia; lia).
  unfold u64. rewrite <- (Z.mod_add _ 1), Z.mod_small by lia. lia.
Qed.
End partial.

Lemma newreno_partial_deflates_witness :
  let tp' := tcp_newreno_fast_retransmit_newack (fun t => t)
    (ex_conn <| t_partialacks := 0 |>) (mkTcphdr 0 4000 TH_ACK) in
  in_recovery tp' /\ snd_cwnd tp' = 14600 - (3000 - 1460).
Proof.
  destruct (newreno_partial_deflates (fun t => t) (ex_conn <| t_partialacks := 0 |>) (mkTcphdr 0 4000 TH_ACK) ltac:(repeat split)) as [R W];
    [split; vm_compute; split; congruence | vm_compute; split; congruence | reflexivity
    | vm_compute; split; congruence |].
  split; [exact R | rewrite W; reflexivity].
Defined.

Lemma newreno_short_partial_inflates_witness :
  2 ^ 63 < snd_cwnd (tcp_newreno_fast_retransmit_newack (fun t => t)
    (ex_conn <| t_partialacks := 0 |>) (mkTcphdr 0 1500 TH_ACK)).
Proof.
  apply (newreno_short_partial_inflates (fun t => t) (ex_conn <| t_partialacks := 0 |>) (mkTcphdr 0 1500 TH_ACK) ltac:(repeat split));
    try reflexivity.
  - split; vm_compute; split; congruence.
  - vm_compute; split; congruence.
  - vm_compute; split; congruence.
Defined.

(** ** The registry

    The registry together with the control blocks of the live
    connections, and what may happen to them. *)

Definition users (conns : list tcpcb) (a : congctl_alg) : Z :=
  Z.of_nat (length (filter (fun tp => t_congctl tp = Some a) conns)).

Definition registered (g : congctl_globals) (a : congctl_alg) : Prop :=
  a ∈ congctl_ctl <$> tcp_congctlhd g.

(** Entries have their own address and algorithm, count the connections
    that use them, and cover every connection and the global default. *)
Record registry_inv (g : congctl_globals) (conns : list tcpcb) : Prop := mkRegistryInv {
  inv_addrs : NoDup (ent_addr <$> tcp_congctlhd g);
  inv_algs : NoDup (congctl_ctl <$> tcp_congctlhd g);
  inv_refcnt : Forall (fun e => congctl_refcnt e = users conns (congctl_ctl e)) (tcp_congctlhd g);
  inv_conns : Forall (fun tp => forall a, t_congctl tp = Some a -> registered g a) conns;
  inv_global : forall x, tcp_congctl_global g = Some x -> x ∈ ent_addr <$> tcp_congctlhd g
}.

(** A new algorithm needs a block of its own (zeroed, as M_ZERO asks)
    and a table not registered under another name; the connections are
    fewer than the count can hold. *)
Inductive registry_step : congctl_globals * list tcpcb -> congctl_globals * list tcpcb -> Prop :=
  | reg_register g conns x name a :
      x ∉ ent_addr <$> tcp_congctlhd g -> ~ registered g a ->
      registry_step (g, conns) (snd (tcp_congctl_register g x 0 name a), conns)
  | reg_unregister g conns name :
      registry_step (g, conns) (snd (tcp_congctl_unregister g name), conns)
  | reg_connect g conns tp : t_congctl tp = None -> Z.of_nat (length conns) < 2 ^ 32 - 1 ->
      registry_step (g, conns) (g, conns ++ [tp])
  | reg_select g conns i tp name r g' tp' :
      conns !! i = Some tp -> tcp_congctl_select g tp name = (r, g', tp') ->
      registry_step (g, conns) (g', <[i := tp']> conns)
  | reg_select_global g conns name :
      registry_step (g, conns) (snd (tcp_congctl_select_global g name), conns)
  | reg_release g conns i tp : conns !! i = Some tp ->
      registry_step (g, conns) (tcp_congctl_release g tp, delete i conns).

Definition uses (tp : tcpcb) (a : congctl_alg) : Z :=
  if decide (t_congctl tp = Some a) then 1 else 0.

Lemma users_app l k a : users (l ++ k) a = users l a + users k a.
Proof. unfold users. rewrite filter_app, length_app. lia. Qed.

Lemma users_cons tp l a : users (tp :: l) a = uses tp a + users l a.
Proof. unfold users, uses. rewrite filter_cons. case_decide; simpl; lia. Qed.

Lemma users_range l a : 0 <= users l a <= Z.of_nat (length l).
Proof. unfold users. pose proof (length_filter (fun tp => t_congctl tp = Some a) l). lia. Qed.

Lemma users_split conns i tp a : conns !! i = Some tp ->
  users conns a = uses tp a + users (delete i conns) a.
Proof.
  intros (pre & post & -> & <-)%split_at_lookup. rewrite delete_middle.
  rewrite !users_app, users_cons. lia.
Qed.

Lemma users_insert conns i tp tp' a : conns !! i = Some tp ->
  users (<[i := tp']> conns) a = users conns a - uses tp a + uses tp' a.
Proof.
  intros (pre & post & -> & <-)%split_at_lookup. rewrite insert_cursor by done.
  rewrite !users_app, !users_cons. lia.
Qed.

Lemma ent_ref_addrs x d es : ent_addr <$> ent_ref x d es = ent_addr <$> es.
Proof.
  unfold ent_ref. rewrite <- list_fmap_compose. apply list_fmap_ext. intros ? e ?; simpl.
  case_bool_decide; done.
Qed.

Lemma ent_ref_algs x d es : congctl_ctl <$> ent_ref x d es = congctl_ctl <$> es.
Proof.
  unfold ent_ref. rewrite <- list_fmap_compose. apply list_fmap_ext. intros ? e ?; simpl.
  case_bool_decide; done.
Qed.

Lemma fmap_inj_elem {A B} (f : A -> B) (l : list A) x y :
  NoDup (f <$> l) -> x ∈ l -> y ∈ l -> f x = f y -> x = y.
Proof.
  intros N (i & Hi)%list_elem_of_lookup (j & Hj)%list_elem_of_lookup E.
  assert (i = j) as ->; [|congruence].
  apply (NoDup_lookup _ i j (f x) N); rewrite list_lookup_fmap, ?Hi, ?Hj; simpl; congruence.
Qed.

(** Adding [d] to the count of the entry of algorithm [c], where [d] is
    the change in its users. *)
Lemma ent_ref_counts o d es n n' :
  NoDup (ent_addr <$> es) -> NoDup (congctl_ctl <$> es) -> o ∈ es ->
  Forall (fun e => congctl_refcnt e = n (congctl_ctl e)) es ->
  (forall a, n' a = n a + (if decide (a = congctl_ctl o) then d else 0)) ->
  (forall a, 0 <= n' a < 2 ^ 32) ->
  Forall (fun e => congctl_refcnt e = n' (congctl_ctl e)) (ent_ref (ent_addr o) d es).
Proof.
  intros Na Nc Ho F N R. unfold ent_ref. rewrite Forall_fmap. rewrite Forall_forall in *.
  intros e He. specialize (F e He). pose proof (R (congctl_ctl e)) as Re. clear R.
  specialize (N (congctl_ctl e)). simpl. case_bool_decide as E.
  - assert (e = o) as -> by (eapply (fmap_inj_elem ent_addr); eauto).
    rewrite decide_True in N by done. upd_simpl. rewrite u32_small; lia.
  - assert (congctl_ctl e <> congctl_ctl o).
    { intros E'. apply E. f_equal. eapply (fmap_inj_elem congctl_ctl); eauto. }
    rewrite decide_False in N by done. lia.
Qed.

Lemma select_loop_spec old name (all : list tcp_congctlent) es fnd ot nt o n :
  es ⊆ all -> (forall k, nt = Some k -> k ∈ all) ->
  select_loop old name es fnd ot nt = Some (o, n) ->
  n ∈ all /\
  (if fnd then o = ot else exists e, o = Some e /\ e ∈ all /\ Some (congctl_ctl e) = old).
Proof.
  revert fnd ot nt. induction es as [|e es IH]; simpl; intros fnd ot nt Sub Nt; [done|].
  assert (e ∈ all) as He by (apply Sub; left).
  assert (es ⊆ all) as Sub' by (intros ? ?; apply Sub; by right).
  set (nt' := match nt with Some _ => nt | None => _ end).
  assert (forall k, nt' = Some k -> k ∈ all) as Nt'.
  { unfold nt'. intros k. destruct nt; [by apply Nt|]. case_bool_decide; [|done]. by intros [= <-]. }
  clearbody nt'. intros S.
  assert (forall t', (if fnd then t' = ot else t' = Some e /\ Some (congctl_ctl e) = old) ->
    (exists k, nt' = Some k /\ (o, n) = (t', k)) \/
    select_loop old name es true t' nt' = Some (o, n) ->
    n ∈ all /\ (if fnd then o = ot else exists e, o = Some e /\ e ∈ all /\
      Some (congctl_ctl e) = old)) as Hit.
  { intros t' Ht [(k & -> & [= -> ->])|Sl].
    - split; [by apply Nt'|]. destruct fnd; [done|]. destruct Ht as [-> ?]. by exists e.
    - destruct (IH _ _ _ Sub' Nt' Sl) as [Hn ->]. split; [done|].
      destruct fnd; [done|]. destruct Ht as [-> ?]. by exists e. }
  destruct fnd; simpl in S; [|case_bool_decide as E; simpl in S].
  - apply (Hit ot); [done|]. destruct nt' as [k|]; [left; exists k; by simplify_eq|by right].
  - apply (Hit (Some e)); [done|]. destruct nt' as [k|]; [left; exists k; by simplify_eq|by right].
  - assert (select_loop old name es false ot nt' = Some (o, n)) as Sl by (destruct nt'; done).
    by apply (IH _ _ _ Sub' Nt' Sl).
Qed.

Lemma registered_ent_ref g x d :
  registered (g <| tcp_congctlhd := ent_ref x d (tcp_congctlhd g) |>) = registered g.
Proof. unfold registered. upd_simpl. by rewrite ent_ref_algs. Qed.

Lemma registry_inv_select_conn g conns i tp name r g' tp' :
  Z.of_nat (length conns) < 2 ^ 32 -> registry_inv g conns -> conns !! i = Some tp ->
  tcp_congctl_select g tp name = (r, g', tp') -> registry_inv g' (<[i := tp']> conns).
Proof.
  intros Len [Na Nc F Cn Gl] Hi. unfold tcp_congctl_select.
  destruct (select_loop _ _ _ _ _ _) as [[o n]|] eqn:S.
  2:{ intros [= <- <- <-]. rewrite list_insert_id by done. done. }
  intros [= <- <- <-]. eapply (select_loop_spec _ _ (tcp_congctlhd g)) in S as [Hn Ho]; [|done|done].
  assert (forall a, 0 <= users (delete i conns) a < 2 ^ 32 - 1) as Bd.
  { intros a. pose proof (users_range (delete i conns) a).
    pose proof (length_delete conns i ltac:(eauto)). apply lookup_lt_Some in Hi. lia. }
  set (es := match o with Some _ => _ | None => _ end).
  assert (ent_addr <$> es = ent_addr <$> tcp_congctlhd g /\
    congctl_ctl <$> es = congctl_ctl <$> tcp_congctlhd g /\
    Forall (fun e => congctl_refcnt e = users (delete i conns) (congctl_ctl e)) es) as (Ea & Ec & Fe).
  { unfold es. case_bool_decide as E; [subst o|destruct Ho as (e & -> & He & E')].
    - split; [done|]. split; [done|]. eapply Forall_impl; [exact F|]. simpl. intros e ->.
      rewrite (users_split _ _ _ _ Hi). unfold uses. rewrite E. simpl. lia.
    - rewrite ent_ref_addrs, ent_ref_algs. split; [done|]. split; [done|].
      eapply ent_ref_counts; eauto; [|intros a; specialize (Bd a); lia]. intros a.
      rewrite (users_split _ _ _ a Hi). unfold uses. rewrite <- E'.
      repeat case_decide; simplify_eq; try lia; congruence. }
  clearbody es. rewrite <- Ea in Na, Gl. rewrite <- Ec in Nc.
  assert (exists n', n' ∈ es /\ ent_addr n' = ent_addr n /\ congctl_ctl n' = congctl_ctl n)
    as (n' & Hn' & An & Cc).
  { apply list_elem_of_lookup in Hn as [k Hk].
    assert ((ent_addr <$> es) !! k = Some (ent_addr n)) as K1
      by (rewrite Ea, list_lookup_fmap, Hk; done).
    assert ((congctl_ctl <$> es) !! k = Some (congctl_ctl n)) as K2
      by (rewrite Ec, list_lookup_fmap, Hk; done).
    rewrite list_lookup_fmap in K1. rewrite list_lookup_fmap in K2. destruct (es !! k) as [n'|] eqn:K; simplify_eq/=.
    exists n'. split; [by eapply list_elem_of_lookup_2|]. done. }
  rewrite <- An, <- Cc.
  assert (registered (g <| tcp_congctlhd := ent_ref (ent_addr n') 1 es |>) = registered g) as Rg.
  { unfold registered. upd_simpl. by rewrite ent_ref_algs, Ec. }
  split; upd_simpl; rewrite ?ent_ref_addrs, ?ent_ref_algs, ?Rg; try done.
  - eapply ent_ref_counts; eauto.
    + intros a. rewrite (users_insert _ _ _ _ _ Hi), (users_split _ _ _ a Hi).
      unfold uses. upd_simpl. repeat case_decide; simplify_eq; try lia; congruence.
    + intros a. pose proof (users_range (<[i := tp <| t_congctl := Some (congctl_ctl n') |>]> conns) a).
      rewrite length_insert in *. lia.
  - apply Forall_insert; [done|]. intros a. upd_simpl. intros [= <-].
    unfold registered. rewrite <- Ec. apply list_elem_of_fmap. eauto.
Qed.

(** An operation that changes neither the entries nor the connections'
    algorithms. *)
Lemma registry_inv_global g g' conns :
  registry_inv g conns -> tcp_congctlhd g' = tcp_congctlhd g ->
  (forall x, tcp_congctl_global g' = Some x -> x ∈ ent_addr <$> tcp_congctlhd g) ->
  registry_inv g' conns.
Proof.
  intros [Na Nc F Cn Gl] E G. split; unfold registered in *; rewrite ?E; auto.
Qed.

Lemma registry_inv_select_global g conns name :
  registry_inv g conns -> registry_inv (snd (tcp_congctl_select_global g name)) conns.
Proof.
  intros I. unfold tcp_congctl_select_global.
  destruct (select_loop _ _ _ _ _ _) as [[o n]|] eqn:S; [simpl|done].
  eapply (select_loop_spec _ _ (tcp_congctlhd g)) in S as [Hn _]; [|done|done].
  eapply registry_inv_global; [done|done|]. upd_simpl. intros x [= <-].
  apply list_elem_of_fmap. eauto.
Qed.

Lemma filter_nil_iff_2 {A} (P : A -> Prop) `{!forall x, Decision (P x)} (l : list A) :
  Forall (fun x => ~ P x) l -> filter P l = [].
Proof. induction 1 as [|x l N _ IH]; [done|]. by rewrite filter_cons_False. Qed.

Lemma NoDup_fmap_filter {A B} (f : A -> B) (P : A -> Prop) `{!forall x, Decision (P x)}
    (l : list A) :
  NoDup (f <$> l) -> NoDup (f <$> filter P l).
Proof.
  induction l as [|x l IH]; simpl; [done|]. intros [N D]%NoDup_cons.
  rewrite filter_cons. case_decide; simpl; [|by apply IH]. apply NoDup_cons. split; [|by apply IH].
  intros (y & E & [_ ?]%list_elem_of_filter)%list_elem_of_fmap. apply N, list_elem_of_fmap. eauto.
Qed.

Lemma registry_inv_register g conns x name a :
  x ∉ ent_addr <$> tcp_congctlhd g -> ~ registered g a -> registry_inv g conns ->
  registry_inv (snd (tcp_congctl_register g x 0 name a)) conns.
Proof.
  intros X A I. unfold tcp_congctl_register. destruct (existsb _ _); [done|]. simpl.
  set (g1 := tcp_congctl_fillnames _). assert (registry_inv g1 conns) as I1.
  { destruct I as [Na Nc F Cn Gl]. unfold g1, tcp_congctl_fillnames.
    split; unfold registered in *; upd_simpl; rewrite ?fmap_app; simpl.
    - apply NoDup_app. split; [done|]. split; [|apply NoDup_singleton].
      intros y Hy ->%list_elem_of_singleton. done.
    - apply NoDup_app. split; [done|]. split; [|apply NoDup_singleton].
      intros y Hy ->%list_elem_of_singleton. done.
    - apply Forall_app. split; [done|]. constructor; [|constructor]. simpl.
      symmetry. unfold users. rewrite (filter_nil_iff_2 _ conns); [done|].
      eapply Forall_impl; [exact Cn|]. simpl. intros tp H E. apply A. apply H. done.
    - eapply Forall_impl; [exact Cn|]. simpl. intros tp H a' E.
      apply elem_of_app. left. by apply H.
    - intros y E. apply elem_of_app. left. by apply Gl. }
  destruct (tcp_congctlhd g); [|done]. by apply registry_inv_select_global.
Qed.

Lemma find_name_elem name es e : find_name name es = Some e -> e ∈ es.
Proof.
  unfold find_name.
  enough (forall r, foldl (fun r tccp => if bool_decide (name = congctl_name tccp)
    then Some tccp else r) r es = Some e -> e ∈ es \/ r = Some e) as G.
  { intros H. by destruct (G _ H). }
  induction es as [|e' es IH]; simpl; intros r; [auto|]. intros [?|E]%IH; [left; by right|].
  case_bool_decide; [simplify_eq; left; by left|by right].
Qed.

Lemma registry_inv_unregister g conns name :
  registry_inv g conns -> registry_inv (snd (tcp_congctl_unregister g name)) conns.
Proof.
  intros I. unfold tcp_congctl_unregister.
  destruct (find_name name _) as [e|] eqn:Fn; [|done]. apply find_name_elem in Fn.
  destruct (_ || _) eqn:B; [done|]. apply orb_false_iff in B as [[_ B]%orb_false_iff C].
  apply bool_decide_eq_false in B. destruct (Z.eqb_spec (congctl_refcnt e) 0) as [R|]; [|done].
  simpl. destruct I as [Na Nc F Cn Gl]. unfold tcp_congctl_fillnames.
  assert (forall e', e' ∈ tcp_congctlhd g -> ent_addr e' <> ent_addr e <-> e' <> e) as Ne.
  { intros e' He'. split; [congruence|]. intros N E. apply N.
    by eapply (fmap_inj_elem ent_addr). }
  split; unfold registered in *; upd_simpl.
  - by apply NoDup_fmap_filter.
  - by apply NoDup_fmap_filter.
  - rewrite Forall_forall in *. intros e' [_ ?]%list_elem_of_filter. auto.
  - rewrite Forall_forall in F. rewrite Forall_forall in Cn. apply Forall_forall.
    intros tp Ht a Ha. specialize (Cn tp Ht a Ha).
    apply list_elem_of_fmap in Cn as (e' & -> & He'). apply list_elem_of_fmap. exists e'.
    split; [done|]. apply list_elem_of_filter. split; [|done]. apply Ne; [done|]. intros ->.
    specialize (F e Fn). rewrite R in F. symmetry in F.
    unfold users in F. apply list_elem_of_lookup in Ht as [i Hi].
    apply (users_split _ _ _ (congctl_ctl e)) in Hi.
    unfold uses in Hi. rewrite decide_True in Hi by done.
    pose proof (users_range (delete i conns) (congctl_ctl e)). unfold users in *. lia.
  - intros x Hx. pose proof (Gl x Hx) as Gx. apply list_elem_of_fmap in Gx as (e' & -> & He').
    apply list_elem_of_fmap. exists e'. split; [done|]. apply list_elem_of_filter. split; [|done].
    congruence.
Qed.

Lemma registry_inv_release g conns i tp :
  Z.of_nat (length conns) < 2 ^ 32 -> registry_inv g conns -> conns !! i = Some tp ->
  registry_inv (tcp_congctl_release g tp) (delete i conns).
Proof.
  intros Len [Na Nc F Cn Gl] Hi. unfold tcp_congctl_release.
  assert (Forall (fun tp => forall a, t_congctl tp = Some a -> registered g a) (delete i conns))
    as Cn' by (by apply Forall_delete).
  assert (forall a, 0 <= users (delete i conns) a < 2 ^ 32) as Bd.
  { intros a. pose proof (users_range (delete i conns) a).
    pose proof (length_delete conns i ltac:(eauto)). lia. }
  destruct (list_find _ _) as [[k e]|] eqn:L.
  - apply list_find_Some in L as (He%list_elem_of_lookup_2 & E & _).
    split; rewrite ?registered_ent_ref; upd_simpl; rewrite ?ent_ref_addrs, ?ent_ref_algs; try done.
    eapply ent_ref_counts; eauto. intros a. rewrite (users_split _ _ _ a Hi). unfold uses.
    repeat case_decide; simplify_eq; try lia; congruence.
  - split; try done. rewrite Forall_forall in F. apply Forall_forall. intros e He. rewrite (F e He).
    rewrite (users_split _ _ _ _ Hi). unfold uses. rewrite decide_False; [lia|].
    intros E. apply list_find_None in L. rewrite Forall_forall in L. by apply (L e He).
Qed.

(** The count of connections stays within an [unsigned int]. *)
Definition registry_ok (s : congctl_globals * list tcpcb) : Prop :=
  registry_inv (fst s) (snd s) /\ Z.of_nat (length (snd s)) < 2 ^ 32.

Lemma registry_step_ok s s' : registry_step s s' -> registry_ok s -> registry_ok s'.
Proof.
  intros St [I L]. destruct St; simpl in *; (split; simpl; [|try done]).
  - by apply registry_inv_register.
  - by apply registry_inv_unregister.
  - destruct I as [Na Nc F Cn Gl]. split; try done.
    + eapply Forall_impl; [exact F|]. simpl. intros e ->. rewrite users_app, users_cons.
      unfold uses. rewrite decide_False by congruence. unfold users. simpl. lia.
    + apply Forall_app. split; [done|]. constructor; [congruence|constructor].
  - rewrite length_app. simpl. lia.
  - by eapply registry_inv_select_conn.
  - by rewrite length_insert.
  - by apply registry_inv_select_global.
  - by eapply registry_inv_release.
  - pose proof (length_delete conns i ltac:(eauto)). lia.
Qed.

(** Starting from [tcp_congctl_init], whatever sequence of
    registrations, removals, selections, new and closed connections
    follows, every entry counts exactly the connections that use it, so
    no connection is left with an algorithm that was unregistered, nor is
    the default. *)
Theorem registry_reachable_inv a1 a2 g conns : a1 <> a2 ->
  rtc registry_step (tcp_congctl_init a1 a2 0 0, []) (g, conns) -> registry_inv g conns.
Proof.
  intros N R. enough (registry_ok (g, conns)) as [? _] by done.
  remember (tcp_congctl_init a1 a2 0 0, []) as s0 eqn:E0.
  assert (registry_ok s0) as O0.
  { subst s0. split; [|done]. simpl. unfold tcp_congctl_init.
    change (tcp_congctl_register congctl_globals_initial a1 0 "reno" tcp_reno_ctl) with
      (0, snd (tcp_congctl_register congctl_globals_initial a1 0 "reno" tcp_reno_ctl)).
    set (g1 := snd (tcp_congctl_register congctl_globals_initial a1 0 "reno" tcp_reno_ctl)).
    assert (tcp_congctlhd g1 = [mkEnt a1 tcp_reno_ctl 0 "reno"]) as H1 by reflexivity.
    assert (registry_inv g1 []) as I1.
    { apply registry_inv_register; [apply not_elem_of_nil|apply not_elem_of_nil|].
      split; try constructor. done. }
    cbv beta iota. destruct (tcp_congctl_register g1 a2 0 "newreno" tcp_newreno_ctl) as [r g2] eqn:E2.
    apply (f_equal snd) in E2. simpl snd in E2 at 2. subst g2. apply registry_inv_select_global, registry_inv_register; [| |done]; unfold registered;
      rewrite H1; simpl; rewrite list_elem_of_singleton; congruence. }
  clear E0 N. induction R; eauto using registry_step_ok.
Qed.

Lemma registry_reachable_inv_witness :
  registry_inv (snd (tcp_congctl_unregister (tcp_congctl_init 1 2 0 0) "reno")) [].
Proof.
  apply (registry_reachable_inv 1 2); [discriminate|].
  eapply rtc_l; [apply (reg_unregister _ _ "reno")|]. apply rtc_refl.
Defined.
