(* ===== verification/InCksum.v ===== *)
(** * The Internet checksum (src/netbsd/netinet/cpu_in_cksum.c, in4_cksum.c,
    in_cksum.c)

    The 64-bit little-endian version.  A chain of mbufs is what the
    routine reads of it: for each mbuf the address of its data (only its
    alignment matters), the memory from there on and [m_len]. *)

From S2P Require Import Prelude.

Record segment := mkSegment { seg_addr : Z; seg_mem : list Z; seg_len : Z }.

(** Loads of 16 and 32 bits. *)
Definition le16 (d : list Z) : Z := nth 0 d 0 + Z.shiftl (nth 1 d 0) 8.
Definition le32 (d : list Z) : Z := le16 d + Z.shiftl (le16 (drop 2 d)) 16.

(** [k] unrolled lines [partial += *(uint32_t * )(data + 4 * i)]. *)
Fixpoint add32 (k : nat) (partial : Z) (data : list Z) : Z :=
  match k with
  | O => partial
  | S k => add32 k (u64 (partial + le32 data)) (drop 4 data)
  end.

(** [partial = (partial << 8) + (partial >> 56)] *)
Definition cksum_swap (partial : Z) : Z :=
  u64 (u64 (Z.shiftl partial 8) + Z.shiftr partial 56).

(** The 64-byte loop; [n] is the number of its iterations, [mlen / 64]. *)
Fixpoint cksum_loop (n : nat) (needs_swap : bool) (sum partial : Z) (data : list Z)
    : Z * Z * list Z :=
  match n with
  | O => (sum, partial, data)
  | S n =>
      let partial := add32 16 partial data in
      let data := drop 64 data in
      if flag_set partial (Z.shiftl 3 62) then
        let partial := if needs_swap then cksum_swap partial else partial in
        let sum := u64 (sum + Z.shiftr partial 32) in
        let sum := u64 (sum + Z.land partial 0xffffffff) in
        cksum_loop n needs_swap sum 0 data
      else cksum_loop n needs_swap sum partial data
  end.

(** [if (mlen & bit) { ... data += bit; }] with [bit / 4] additions. *)
Definition cksum_tail_step (bit : nat) (mlen : Z) (pd : Z * list Z) : Z * list Z :=
  if flag_set mlen (Z.of_nat bit)
  then (add32 (bit / 4) (fst pd) (snd pd), drop bit (snd pd)) else pd.

Definition cksum_tail (mlen partial : Z) (data : list Z) : Z * list Z :=
  let pd := cksum_tail_step 32 mlen (partial, data) in
  let pd := cksum_tail_step 16 mlen pd in
  let pd := cksum_tail_step 8 mlen pd in
  let '(partial, data) := cksum_tail_step 4 mlen pd in
  if flag_set mlen 2 then (u64 (partial + le16 data), drop 2 data) else (partial, data).

(** The part from the 2-byte alignment to [trailing_bytes]: the sum, the
    partial sum, the data left and [mlen]. *)
Definition cksum_words (addr mlen sum partial : Z) (needs_swap : bool) (data : list Z)
    : Z * Z * list Z * Z :=
  let go partial data mlen :=
    let '(sum, partial, data) :=
      cksum_loop (Z.to_nat (mlen / 64)) needs_swap sum partial data in
    let mlen := if 0 <=? mlen then mlen mod 64 else mlen in
    let '(partial, data) := cksum_tail mlen partial data in
    (sum, partial, data, mlen) in
  if flag_set addr 2 then
    if mlen <? 2 then (sum, partial, data, mlen)
    else go (u64 (partial + le16 data)) (drop 2 data) (mlen - 2)
  else go partial data mlen.

(** The body of the main loop from [post_initial_offset], for [mlen > 0]
    bytes at [addr]: the new sum, [started_on_odd] and [len]. *)
Definition cksum_mbuf (addr mlen : Z) (data : list Z) (len sum : Z) (started_on_odd : bool)
    : Z * bool * Z :=
  let mlen := if len <? mlen then len else mlen in
  let len := len - mlen in
  let '(partial, started_on_odd, data, addr, mlen) :=
    if flag_set addr 1
    then (Z.shiftl (nth 0 data 0) 8, negb started_on_odd, drop 1 data, addr + 1, mlen - 1)
    else (0, started_on_odd, data, addr, mlen) in
  let needs_swap := started_on_odd in
  let '(sum, partial, data, mlen) := cksum_words addr mlen sum partial needs_swap data in
  let '(partial, started_on_odd) :=
    if flag_set mlen 1 then (u64 (partial + nth 0 data 0), negb started_on_odd)
    else (partial, started_on_odd) in
  let partial := if needs_swap then cksum_swap partial else partial in
  let sum := u64 (sum + u64 (Z.shiftr partial 32 + Z.land partial 0xffffffff)) in
  (u64 (Z.shiftr sum 32 + Z.land sum 0xffffffff), started_on_odd, len).

(** The main loop over the rest of the chain. *)
Fixpoint cksum_chain (ms : list segment) (len sum : Z) (started_on_odd : bool) : option Z :=
  if len <=? 0 then Some sum
  else
    match ms with
    | [] => None
    | m :: ms =>
        if seg_len m =? 0 then cksum_chain ms len sum started_on_odd
        else
          let '(sum, started_on_odd, len) :=
            cksum_mbuf (seg_addr m) (seg_len m) (seg_mem m) len sum started_on_odd in
          cksum_chain ms len sum started_on_odd
    end.

(** The first loop, which skips [off] bytes and jumps into the main one. *)
Fixpoint cksum_skip (ms : list segment) (len off sum : Z) : option Z :=
  match ms with
  | [] => None
  | m :: ms =>
      if off <? seg_len m then
        let '(sum, started_on_odd, len) :=
          cksum_mbuf (seg_addr m + off) (seg_len m - off) (drop (Z.to_nat off) (seg_mem m))
            len sum false in
        cksum_chain ms len sum started_on_odd
      else if len =? 0 then Some sum
      else cksum_skip ms len (off - seg_len m) sum
  end.

Definition cksum_final (sum : Z) : Z :=
  let final_acc := u32 (Z.shiftr sum 48 + Z.land (Z.shiftr sum 32) 0xffff
                        + Z.land (Z.shiftr sum 16) 0xffff + Z.land sum 0xffff) in
  let final_acc := u32 (Z.shiftr final_acc 16 + Z.land final_acc 0xffff) in
  let final_acc := u32 (Z.shiftr final_acc 16 + Z.land final_acc 0xffff) in
  Z.land (Z.lnot final_acc) 0xffff.

Definition cpu_in_cksum (ms : list segment) (len off initial_sum : Z) : Z :=
  match cksum_skip ms len off initial_sum with
  | Some sum => cksum_final sum
  | None => -1
  end.

Definition in_cksum (ms : list segment) (len : Z) : Z := cpu_in_cksum ms len 0 0.

(** [in4_cksum]; [None] is one of its panics.  The addresses of the IP
    header start 12 bytes into the first mbuf. *)
Definition in4_cksum (ms : list segment) (nxt off len : Z) : option Z :=
  if nxt =? 0 then Some (cpu_in_cksum ms len off 0)
  else if off <? 20 then None
  else
    match ms with
    | [] => None
    | m :: _ =>
        if seg_len m <? 20 then None
        else
          let sum := u32 (Z.shiftl (Z.land len 0xffff + nxt) 8) in
          let w := drop 12 (seg_mem m) in
          let sum :=
            if (seg_addr m + 12) mod 2 =? 0 then
              u32 (sum + le16 w + le16 (drop 2 w) + le16 (drop 4 w) + le16 (drop 6 w))
            else
              let w := drop 11 (seg_mem m) in
              let partial := Z.land (le16 w) 0xff00 + le16 (drop 2 w) + le16 (drop 4 w)
                             + le16 (drop 6 w) + Z.land (le16 (drop 8 w)) 0x00ff in
              u32 (sum + u32 (Z.shiftl partial 8)) in
          Some (cpu_in_cksum ms len off sum)
    end.
