(* ===== verification/InCksumFacts.v ===== *)
(** * Correctness of the Internet checksum

    InCksum.v against the definition of RFC 1071: the complement of the
    one's complement sum of the 16-bit words of the data, padded with a
    zero byte.  The sum is independent of how the data is cut into mbufs
    and of the alignment of each of them. *)

From S2P Require Import Prelude InCksum.

(** ** The reference *)

(** Addition with end-around carry. *)
Definition ones_add (a b : Z) : Z := if a + b <? 2 ^ 16 then a + b else a + b - 65535.

Fixpoint words16 (bytes : list Z) : list Z :=
  match bytes with
  | [] => []
  | [b] => [b]
  | b0 :: b1 :: bytes => b0 + 256 * b1 :: words16 bytes
  end.

Definition rfc1071 (words : list Z) : Z := 65535 - foldl ones_add 0 words.

(** The bytes of a chain. *)
Definition chain_bytes (ms : list segment) : list Z :=
  concat ((fun m => take (Z.to_nat (seg_len m)) (seg_mem m)) <$> ms).

Definition is_byte (b : Z) : Prop := 0 <= b < 256.

Definition segment_ok (m : segment) : Prop :=
  0 <= seg_len m < 2 ^ 31 /\ seg_len m <= Z.of_nat (length (seg_mem m)) /\
  Forall is_byte (seg_mem m) /\ 0 <= seg_addr m.

(** ** Equality of one's complement sums

    Two accumulators stand for the same sum when they agree modulo 65535
    and are both zero or both not: the two representations of zero are
    distinct results of the algorithm. *)
Definition oeq (a b : Z) : Prop :=
  0 <= a /\ 0 <= b /\ a mod 65535 = b mod 65535 /\ (a = 0 <-> b = 0).

#[export] Instance oeq_per : RelationClasses.PER oeq.
Proof. split; unfold oeq; [intros ? ?|intros ? ? ?]; intuition congruence. Qed.

#[export] Instance oeq_add : Proper (oeq ==> oeq ==> oeq) Z.add.
Proof.
  intros a a' (A & A' & Ea & Za) b b' (B & B' & Eb & Zb). unfold oeq.
  rewrite (Zplus_mod a b), (Zplus_mod a' b'), Ea, Eb. lia.
Qed.

Lemma oeq_refl a : 0 <= a -> oeq a a.
Proof. unfold oeq. intuition. Qed.

Lemma oeq_shift a b k : 0 <= a -> 0 <= b -> a = b + 65535 * k -> (a = 0 <-> b = 0) -> oeq a b.
Proof.
  intros A B -> Zr. repeat split; try tauto; try lia.
  rewrite (Z.mul_comm 65535), Z.mod_add; lia.
Qed.

Lemma oeq_mul256 a b : oeq a b -> oeq (256 * a) (256 * b).
Proof. intros (A & B & E & Zr). unfold oeq. rewrite (Z.mul_mod 256 a), E, <- Z.mul_mod by lia. lia. Qed.

(** The canonical representative in 0..65535. *)
Definition norm (n : Z) : Z := if n =? 0 then 0 else (n - 1) mod 65535 + 1.

Lemma norm_oeq a b : oeq a b -> norm a = norm b.
Proof.
  intros (A & B & E & Zr). unfold norm.
  destruct (Z.eqb_spec a 0), (Z.eqb_spec b 0); try tauto; try lia.
  f_equal. rewrite (Zminus_mod a 1), E, <- Zminus_mod. done.
Qed.

Lemma norm_small n : 0 <= n <= 65535 -> norm n = n.
Proof. intros. unfold norm. zcase; [lia|]. rewrite Z.mod_small; lia. Qed.

Lemma ones_add_oeq a b : 0 <= a < 2 ^ 16 -> 0 <= b < 2 ^ 16 ->
  oeq (ones_add a b) (a + b) /\ 0 <= ones_add a b < 2 ^ 16.
Proof.
  intros. unfold ones_add. zcase.
  - split; [apply oeq_refl|]; lia.
  - split; [apply (oeq_shift _ _ (-1)); lia|lia].
Qed.

Lemma foldl_ones_add words acc : 0 <= acc < 2 ^ 16 -> Forall (fun w => 0 <= w < 2 ^ 16) words ->
  oeq (foldl ones_add acc words) (acc + foldr Z.add 0 words) /\
  0 <= foldl ones_add acc words < 2 ^ 16.
Proof.
  intros A F; revert acc A; induction F as [|w ws W F IH]; simpl; intros acc A.
  - split; [|done]. rewrite Z.add_0_r. apply oeq_refl. lia.
  - destruct (ones_add_oeq acc w A W) as [E R]. destruct (IH _ R) as [E' R']. split; [|done].
    etransitivity; [exact E'|]. rewrite Z.add_assoc. apply oeq_add; [done|].
    apply oeq_refl. clear -F. induction F; simpl; lia.
Qed.

Lemma rfc1071_norm words n : Forall (fun w => 0 <= w < 2 ^ 16) words ->
  oeq n (foldr Z.add 0 words) -> rfc1071 words = 65535 - norm n.
Proof.
  intros F E. unfold rfc1071. f_equal. destruct (foldl_ones_add words 0) as [E' R]; [lia|done|].
  rewrite <- (norm_small (foldl ones_add 0 words)) by lia. apply norm_oeq.
  etransitivity; [exact E'|]. by symmetry.
Qed.

(** ** Byte sums

    [bsum odd bytes] weighs the bytes by 1 and 256 in turn, starting with
    256 when [odd]. *)
Fixpoint bsum (odd : bool) (bytes : list Z) : Z :=
  match bytes with
  | [] => 0
  | b :: bytes => (if odd then 256 * b else b) + bsum (negb odd) bytes
  end.

Lemma bsum_nonneg odd l : Forall is_byte l -> 0 <= bsum odd l.
Proof.
  intros F; revert odd; induction F as [|b l B F IH]; intros odd; simpl; [lia|].
  specialize (IH (negb odd)). unfold is_byte in B. destruct odd; lia.
Qed.

Lemma bsum_bound odd l : Forall is_byte l -> bsum odd l <= 2 ^ 16 * Z.of_nat (length l).
Proof.
  intros F; revert odd; induction F as [|b l B F IH]; intros odd; simpl length; [simpl; lia|].
  specialize (IH (negb odd)). unfold is_byte in B. simpl bsum. destruct odd; lia.
Qed.

Lemma bsum_app odd l k :
  bsum odd (l ++ k) = bsum odd l + bsum (xorb odd (Nat.odd (length l))) k.
Proof.
  revert odd; induction l as [|b l IH]; intros odd; [by destruct odd|].
  simpl app. simpl bsum. rewrite IH. simpl length. rewrite Nat.odd_succ, <- Nat.negb_odd.
  replace (xorb odd (negb (Nat.odd (length l)))) with (xorb (negb odd) (Nat.odd (length l)))
    by (by destruct odd, (Nat.odd (length l))). destruct odd; lia.
Qed.

(** Swapping the parity multiplies the sum by 256. *)
Lemma bsum_flip odd l : Forall is_byte l -> oeq (bsum (negb odd) l) (256 * bsum odd l).
Proof.
  intros F; revert odd; induction F as [|b l B F IH]; intros odd; simpl; [apply oeq_refl; lia|].
  unfold is_byte in B. rewrite Z.mul_add_distr_l. apply oeq_add; [|by apply IH].
  destruct odd; simpl; [apply (oeq_shift _ _ (- b)); lia|apply oeq_refl; lia].
Qed.

Lemma words16_sum l : foldr Z.add 0 (words16 l) = bsum false l.
Proof.
  enough (foldr Z.add 0 (words16 l) = bsum false l /\
    forall b, foldr Z.add 0 (words16 (b :: l)) = bsum false (b :: l)) by tauto.
  induction l as [|b l [IH1 IH2]]; simpl; [split; [done|lia || (intros; lia)]|]. split; [apply IH2|]. intros b'. rewrite IH1. lia.
Qed.

Lemma words16_range l : Forall is_byte l -> Forall (fun w => 0 <= w < 2 ^ 16) (words16 l).
Proof.
  intros F. enough (Forall (fun w => 0 <= w < 2 ^ 16) (words16 l) /\
    forall b, is_byte b -> Forall (fun w => 0 <= w < 2 ^ 16) (words16 (b :: l))) by tauto.
  unfold is_byte in *. induction F as [|b l B F [IH1 IH2]]; simpl.
  - split; [done|]. intros b ?. repeat constructor; lia.
  - split; [apply IH2; lia|]. intros b' ?. constructor; [lia|done].
Qed.

(** ** Folding and swapping *)

Lemma land_ones_mod p n : 0 <= n -> Z.land p (2 ^ n - 1) = p mod 2 ^ n.
Proof. intros. rewrite <- Z.land_ones by done. f_equal. rewrite Z.ones_equiv. lia. Qed.

Lemma fold32 p : 0 <= p < 2 ^ 64 ->
  oeq (Z.shiftr p 32 + Z.land p 0xffffffff) p /\
  0 <= Z.shiftr p 32 + Z.land p 0xffffffff < 2 ^ 33.
Proof.
  intros. change 0xffffffff with (2 ^ 32 - 1). rewrite land_ones_mod, Z.shiftr_div_pow2 by lia.
  pose proof (Z.div_mod p (2 ^ 32)). pose proof (Z.mod_pos_bound p (2 ^ 32)).
  assert (0 <= p / 2 ^ 32 < 2 ^ 32) by (split; [apply Z.div_pos|apply Z.div_lt_upper_bound]; lia).
  split; [|lia]. apply (oeq_shift _ _ (- 65537 * (p / 2 ^ 32))); lia.
Qed.

Lemma fold16 p : 0 <= p < 2 ^ 32 ->
  oeq (Z.shiftr p 16 + Z.land p 0xffff) p /\
  0 <= Z.shiftr p 16 + Z.land p 0xffff <= p / 2 ^ 16 + 65535.
Proof.
  intros. change 0xffff with (2 ^ 16 - 1). rewrite land_ones_mod, Z.shiftr_div_pow2 by lia.
  pose proof (Z.div_mod p (2 ^ 16)). pose proof (Z.mod_pos_bound p (2 ^ 16)).
  assert (0 <= p / 2 ^ 16 < 2 ^ 16) by (split; [apply Z.div_pos|apply Z.div_lt_upper_bound]; lia).
  split; [|lia]. apply (oeq_shift _ _ (- (p / 2 ^ 16))); lia.
Qed.

Lemma cksum_swap_oeq p : 0 <= p < 2 ^ 64 ->
  oeq (cksum_swap p) (256 * p) /\ 0 <= cksum_swap p < 2 ^ 64.
Proof.
  intros. split; [|apply u64_range]. unfold cksum_swap.
  rewrite Z.shiftl_mul_pow2, Z.shiftr_div_pow2 by lia.
  assert (p / 2 ^ 56 < 2 ^ 8) by (apply Z.div_lt_upper_bound; lia).
  assert (0 <= p / 2 ^ 56) by (apply Z.div_pos; lia).
  pose proof (Z.div_mod p (2 ^ 56)). pose proof (Z.mod_pos_bound p (2 ^ 56)).
  assert (u64 (p * 2 ^ 8) = p mod 2 ^ 56 * 2 ^ 8) as ->.
  { unfold u64. replace (2 ^ 64) with (2 ^ 56 * 2 ^ 8) by lia.
    rewrite Z.mul_mod_distr_r by lia. done. }
  rewrite u64_small by lia.
  apply (oeq_shift _ _ (- ((2 ^ 64 - 1) / 65535) * (p / 2 ^ 56))); [lia|lia| |lia].
  change ((2 ^ 64 - 1) / 65535) with 281479271743489. lia.
Qed.

Lemma cksum_final_spec sum : 0 <= sum < 2 ^ 40 -> cksum_final sum = 65535 - norm sum.
Proof.
  intros S. unfold cksum_final.
  change (Z.land ?x 0xffff) with (Z.land x (2 ^ 16 - 1)).
  rewrite !(land_ones_mod _ 16) by lia. rewrite !Z.shiftr_div_pow2 by lia.
  rewrite (Z.div_small sum (2 ^ 48)) by lia.
  set (a := 0 + sum / 2 ^ 32 mod 2 ^ 16 + sum / 2 ^ 16 mod 2 ^ 16 + sum mod 2 ^ 16).
  assert (oeq a sum /\ 0 <= a < 2 ^ 18) as [Ea Ra].
  { unfold a. pose proof (Z.div_mod sum (2 ^ 16)). pose proof (Z.mod_pos_bound sum (2 ^ 16)).
    assert (sum / 2 ^ 32 = sum / 2 ^ 16 / 2 ^ 16) as -> by (rewrite Z.div_div by lia; done).
    set (q := sum / 2 ^ 16) in *. assert (0 <= q < 2 ^ 24) by lia.
    pose proof (Z.div_mod q (2 ^ 16)). pose proof (Z.mod_pos_bound q (2 ^ 16)).
    assert (0 <= q / 2 ^ 16 < 2 ^ 8) by lia. rewrite (Z.mod_small (q / 2 ^ 16)) by lia.
    split; [|lia]. apply (oeq_shift _ _ (- q - q / 2 ^ 16)); lia. }
  clearbody a. rewrite (u32_small a) by lia.
  assert (a / 2 ^ 16 < 4) by (apply Z.div_lt_upper_bound; lia).
  destruct (fold16 a) as [Eb Rb]; [lia|]. change 0xffff with (2 ^ 16 - 1) in Eb, Rb.
  rewrite land_ones_mod, Z.shiftr_div_pow2 in Eb, Rb by lia.
  set (b := a / 2 ^ 16 + a mod 2 ^ 16) in *.
  clearbody b. rewrite (u32_small b) by lia.
  destruct (fold16 b) as [Ec Rc]; [lia|]. change 0xffff with (2 ^ 16 - 1) in Ec, Rc.
  rewrite land_ones_mod, Z.shiftr_div_pow2 in Ec, Rc by lia.
  assert (0 <= b / 2 ^ 16 + b mod 2 ^ 16 <= 65535).
  { pose proof (Z.div_mod b (2 ^ 16)). pose proof (Z.mod_pos_bound b (2 ^ 16)). lia. }
  set (c := b / 2 ^ 16 + b mod 2 ^ 16) in *. clearbody c. rewrite (u32_small c) by lia.
  rewrite <- (norm_oeq c sum), norm_small by (lia || (etransitivity; [exact Ec|]; etransitivity; done)).
  unfold Z.lnot. replace (Z.pred (- c)) with (65535 - c + (-1) * 2 ^ 16) by lia.
  rewrite Z.mod_add, Z.mod_small; lia.
Qed.

(** ** Sums over a prefix of the data

    [sums p0 d0 c p d]: an even number [c] of bytes of [d0] has been added
    to [p0], giving [p], and [d] is what is left. *)
Record sums (p0 : Z) (d0 : list Z) (c : nat) (p : Z) (d : list Z) : Prop := mkSums {
  sums_rest : d = drop c d0;
  sums_even : Nat.even c = true;
  sums_len : (c <= length d0)%nat;
  sums_oeq : oeq p (p0 + bsum false (take c d0));
  sums_bound : p0 <= p <= p0 + Z.of_nat c * 2 ^ 30
}.

Lemma sums_refl p d : 0 <= p -> sums p d 0 p d.
Proof. split; simpl; try done; try lia. rewrite Z.add_0_r. by apply oeq_refl. Qed.

Lemma sums_trans p0 d0 c p d c' p' d' : Forall is_byte d0 ->
  sums p0 d0 c p d -> sums p d c' p' d' -> sums p0 d0 (c + c') p' d'.
Proof.
  intros B [-> E L O Bd] [-> E' L' O' Bd']. rewrite length_drop in L'.
  split; [by rewrite drop_drop|by rewrite Nat.even_add, E, E'|lia| |lia].
  rewrite <- take_take_drop, bsum_app.
  assert (Nat.odd (length (take c d0)) = false) as ->.
  { rewrite length_take_le by done. by rewrite <- Nat.negb_even, E. }
  rewrite Z.add_assoc. simpl xorb. etransitivity; [exact O'|].
  apply oeq_add; [done|]. apply oeq_refl, bsum_nonneg, Forall_take, Forall_drop. done.
Qed.

Lemma le16_sums p d : Forall is_byte d -> (2 <= length d)%nat -> 0 <= p -> p + 2 ^ 16 < 2 ^ 64 ->
  sums p d 2 (u64 (p + le16 d)) (drop 2 d).
Proof.
  intros B L P Bd. destruct d as [|b0 [|b1 d]]; simpl in L; try lia.
  apply Forall_cons in B as [B0 [B1 B]%Forall_cons]. unfold is_byte in *.
  unfold le16. simpl nth. rewrite Z.shiftl_mul_pow2 by lia. rewrite u64_small by lia.
  split; simpl; try done; try lia. apply oeq_shift with 0; lia.
Qed.

Lemma le32_sums p d : Forall is_byte d -> (4 <= length d)%nat -> 0 <= p -> p + 2 ^ 32 < 2 ^ 64 ->
  sums p d 4 (u64 (p + le32 d)) (drop 4 d).
Proof.
  intros B L P Bd. destruct d as [|b0 [|b1 [|b2 [|b3 d]]]]; simpl in L; try lia.
  apply Forall_cons in B as [B0 [B1 [B2 [B3 B]%Forall_cons]%Forall_cons]%Forall_cons].
  unfold is_byte in *. unfold le32, le16. simpl nth. rewrite !Z.shiftl_mul_pow2 by lia.
  rewrite u64_small by lia.
  split; simpl; try done; try lia. apply oeq_shift with (b2 + b3 * 256); lia.
Qed.

Lemma add32_sums k p d : Forall is_byte d -> (4 * k <= length d)%nat -> 0 <= p ->
  p + Z.of_nat (4 * k) * 2 ^ 30 < 2 ^ 63 ->
  sums p d (4 * k) (add32 k p d) (drop (4 * k) d).
Proof.
  intros B; revert p d B. induction k as [|k IH]; intros p d B L P Bd; [by apply sums_refl|].
  simpl add32. replace (4 * S k)%nat with (4 + 4 * k)%nat by lia.
  pose proof (le32_sums p d B ltac:(lia) P ltac:(lia)) as S1.
  pose proof (sums_bound _ _ _ _ _ S1) as B1.
  rewrite <- drop_drop. eapply sums_trans; [done|exact S1|].
  apply IH; [by apply Forall_drop|rewrite length_drop; lia|lia|lia].
Qed.

Lemma flag_clear_high p : 0 <= p < 2 ^ 62 -> flag_set p (Z.shiftl 3 62) = false.
Proof.
  intros P. unfold flag_set. apply negb_false_iff, Z.eqb_eq. apply Z.bits_inj'. intros n Hn.
  rewrite Z.land_spec, Z.bits_0. destruct (Z.lt_ge_cases n 62).
  - rewrite (Z.shiftl_spec_low 3 62) by done. apply andb_false_r.
  - assert (Z.testbit p n = false) as ->; [|done]. apply Z.testbit_false; [done|].
    rewrite Z.div_small; [done|]. split; [lia|].
    assert (2 ^ 62 <= 2 ^ n) by (apply Z.pow_le_mono_r; lia). lia.
Qed.

Lemma cksum_loop_S n sw sum p d :
  cksum_loop (S n) sw sum p d =
    let partial := add32 16 p d in
    if flag_set partial (Z.shiftl 3 62) then
      let partial := if sw then cksum_swap partial else partial in
      cksum_loop n sw (u64 (u64 (sum + Z.shiftr partial 32) + Z.land partial 0xffffffff)) 0
        (drop 64 d)
    else cksum_loop n sw sum partial (drop 64 d).
Proof. reflexivity. Qed.

Lemma cksum_loop_sums n sw sum p d : Forall is_byte d -> (64 * n <= length d)%nat -> 0 <= p ->
  p + Z.of_nat (64 * n) * 2 ^ 30 < 2 ^ 62 ->
  exists p', cksum_loop n sw sum p d = (sum, p', drop (64 * n) d) /\
    sums p d (64 * n) p' (drop (64 * n) d).
Proof.
  intros B; revert p d B. induction n as [|n IH]; intros p d B L P Bd.
  { exists p. split; [done|by apply sums_refl]. }
  assert (sums p d (4 * 16) (add32 16 p d) (drop (4 * 16) d)) as S1 by (apply add32_sums; try done; lia).
  pose proof (sums_bound _ _ _ _ _ S1) as B1.
  rewrite cksum_loop_S. cbv zeta. rewrite flag_clear_high by lia.
  destruct (IH (add32 16 p d) (drop 64 d)) as (p' & -> & S2);
    [by apply Forall_drop|rewrite length_drop; lia|lia|lia|].
  exists p'. replace (64 * S n)%nat with (64 + 64 * n)%nat by lia.
  rewrite drop_drop in *. split; [done|]. eapply sums_trans; [done|exact S1|exact S2].
Qed.

(** A conditional step that consumes [bit] bytes. *)
Lemma cksum_tail_step_sums bit mlen p d :
  (bit mod 4 = 0)%nat -> Forall is_byte d -> 0 <= p ->
  (flag_set mlen (Z.of_nat bit) = true -> (bit <= length d)%nat) ->
  p + Z.of_nat bit * 2 ^ 30 < 2 ^ 63 ->
  let c := if flag_set mlen (Z.of_nat bit) then bit else 0%nat in
  exists p', cksum_tail_step bit mlen (p, d) = (p', drop c d) /\ sums p d c p' (drop c d).
Proof.
  intros M B P L Bd. unfold cksum_tail_step. simpl fst. simpl snd.
  destruct (flag_set mlen (Z.of_nat bit)).
  - exists (add32 (bit / 4) p d). split; [done|].
    assert (bit = 4 * (bit / 4))%nat as E by (apply Nat.Div0.div_exact; lia).
    rewrite E at 1 3. apply add32_sums; rewrite <- ?E; try done. by apply L.
  - exists p. split; [done|]. by apply sums_refl.
Qed.

Lemma sums_bytes p d c p' d' : sums p d c p' d' -> Forall is_byte d -> Forall is_byte d'.
Proof. intros [-> _ _ _ _]. apply Forall_drop. Qed.

(** The bits of a count below 64. *)
Definition bit_part (mlen : Z) (bit : nat) : nat :=
  if flag_set mlen (Z.of_nat bit) then bit else 0.

Lemma bit_parts m : 0 <= m < 64 ->
  Z.of_nat (bit_part m 32 + bit_part m 16 + bit_part m 8 + bit_part m 4 + bit_part m 2
            + bit_part m 1) = m.
Proof.
  intros H. assert (m ∈ seqZ 0 64) as E by (apply elem_of_seqZ; lia). revert E.
  assert (Forall (fun m => Z.of_nat (bit_part m 32 + bit_part m 16 + bit_part m 8
    + bit_part m 4 + bit_part m 2 + bit_part m 1) = m) (seqZ 0 64)) as F
    by (vm_compute; repeat constructor).
  rewrite Forall_forall in F. apply F.
Qed.

Lemma cksum_tail_sums mlen p d : 0 <= mlen < 64 -> Forall is_byte d ->
  mlen <= Z.of_nat (length d) -> 0 <= p < 2 ^ 62 ->
  exists p' c, cksum_tail mlen p d = (p', drop c d) /\ sums p d c p' (drop c d) /\
    (c + bit_part mlen 1)%nat = Z.to_nat mlen.
Proof.
  intros M B L P. pose proof (bit_parts mlen M) as Bp. unfold cksum_tail.
  assert (forall b, (bit_part mlen b <= b)%nat) as Bb
    by (intros b; unfold bit_part; case_match; lia).
  pose proof (Bb 32%nat); pose proof (Bb 16%nat); pose proof (Bb 8%nat); pose proof (Bb 4%nat).
  assert (forall b p d, (b mod 4 = 0)%nat -> Forall is_byte d -> 0 <= p -> (b <= 32)%nat ->
    (bit_part mlen b <= length d)%nat -> p < 2 ^ 62 + 2 ^ 38 ->
    exists p', cksum_tail_step b mlen (p, d) = (p', drop (bit_part mlen b) d) /\
      sums p d (bit_part mlen b) p' (drop (bit_part mlen b) d)) as Step.
  { intros b q e ? ? ? ? Lb ?. apply cksum_tail_step_sums; try done; [|lia].
    unfold bit_part in Lb. intros E. by rewrite E in Lb. }
  destruct (Step 32%nat p d) as (p1 & -> & S1); try done; try lia.
  pose proof (sums_bytes _ _ _ _ _ S1 B) as B1. pose proof (sums_bound _ _ _ _ _ S1).
  destruct (Step 16%nat p1 (drop (bit_part mlen 32) d)) as (p2 & -> & S2); try done;
    rewrite ?length_drop; try lia.
  pose proof (sums_bytes _ _ _ _ _ S2 B1) as B2. pose proof (sums_bound _ _ _ _ _ S2).
  destruct (Step 8%nat p2 (drop (bit_part mlen 16) (drop (bit_part mlen 32) d)))
    as (p3 & -> & S3); try done; rewrite ?length_drop; try lia.
  pose proof (sums_bytes _ _ _ _ _ S3 B2) as B3. pose proof (sums_bound _ _ _ _ _ S3).
  destruct (Step 4%nat p3 (drop (bit_part mlen 8) (drop (bit_part mlen 16)
    (drop (bit_part mlen 32) d)))) as (p4 & -> & S4); try done; rewrite ?length_drop; try lia.
  pose proof (sums_bytes _ _ _ _ _ S4 B3) as B4. pose proof (sums_bound _ _ _ _ _ S4).
  pose proof (sums_trans _ _ _ _ _ _ _ _ B (sums_trans _ _ _ _ _ _ _ _ B
    (sums_trans _ _ _ _ _ _ _ _ B S1 S2) S3) S4) as S5.
  rewrite !drop_drop in *. rewrite ?Nat.add_assoc in *.
  set (c4 := (bit_part mlen 32 + bit_part mlen 16 + bit_part mlen 8 + bit_part mlen 4)%nat) in *.
  destruct (flag_set mlen 2) eqn:F2;
    (assert (bit_part mlen 2 = if flag_set mlen 2 then 2 else 0)%nat as E2 by done;
     rewrite F2 in E2).
  - exists (u64 (p4 + le16 (drop c4 d))), (c4 + 2)%nat. split; [done|].
    split; [|lia]. rewrite <- drop_drop. eapply sums_trans; [done|exact S5|].
    apply le16_sums; [done|rewrite length_drop; lia|lia|lia].
  - exists p4, c4. split; [done|]. split; [done|]. lia.
Qed.

(** ** One mbuf *)

Lemma bit_part_1 m : 0 <= m -> bit_part m 1 = Z.to_nat (m mod 2).
Proof.
  intros M. unfold bit_part. change (Z.of_nat 1) with (2 ^ 0). rewrite flag_set_pow2 by lia.
  rewrite <- Z.bit0_mod. by destruct (Z.testbit m 0).
Qed.

Lemma mod_64_2 m : (m mod 64) mod 2 = m mod 2.
Proof. apply Z.mod_mod_divide. by exists 32. Qed.

Lemma cksum_words_sums addr mlen sum p sw d : 0 <= mlen < 2 ^ 31 -> Forall is_byte d ->
  mlen <= Z.of_nat (length d) -> 0 <= p < 2 ^ 17 ->
  exists p' c m', cksum_words addr mlen sum p sw d = (sum, p', drop c d, m') /\
    sums p d c p' (drop c d) /\ (c + bit_part m' 1)%nat = Z.to_nat mlen /\
    bit_part m' 1 = Z.to_nat (mlen mod 2).
Proof.
  intros M B L P. unfold cksum_words.
  assert (forall p d mlen, 0 <= mlen < 2 ^ 31 -> Forall is_byte d ->
    mlen <= Z.of_nat (length d) -> 0 <= p < 2 ^ 18 ->
    exists p' c m',
      (let '(sum, partial, data) := cksum_loop (Z.to_nat (mlen / 64)) sw sum p d in
       let mlen := if 0 <=? mlen then mlen mod 64 else mlen in
       let '(partial, data) := cksum_tail mlen partial data in
       (sum, partial, data, mlen)) = (sum, p', drop c d, m') /\
      sums p d c p' (drop c d) /\ (c + bit_part m' 1)%nat = Z.to_nat mlen /\
      bit_part m' 1 = Z.to_nat (mlen mod 2)) as Go.
  { clear. intros p d mlen M B L P. pose proof (Z.div_mod mlen 64).
    pose proof (Z.mod_pos_bound mlen 64). assert (0 <= mlen / 64) by (apply Z.div_pos; lia).
    destruct (cksum_loop_sums (Z.to_nat (mlen / 64)) sw sum p d) as (p1 & -> & S1);
      [done|lia|lia|lia|].
    destruct (Z.leb_spec 0 mlen); [|lia]. cbv beta zeta iota.
    pose proof (sums_bound _ _ _ _ _ S1).
    destruct (cksum_tail_sums (mlen mod 64) p1 (drop (64 * Z.to_nat (mlen / 64)) d))
      as (p2 & c & -> & S2 & C); [lia|by apply Forall_drop|rewrite length_drop; lia|lia|].
    exists p2, (64 * Z.to_nat (mlen / 64) + c)%nat, (mlen mod 64). rewrite drop_drop in *.
    split; [done|]. split; [by eapply sums_trans|]. split; [lia|].
    by rewrite bit_part_1, mod_64_2 by lia. }
  destruct (flag_set addr 2); [|by apply Go; try done; lia].
  destruct (Z.ltb_spec mlen 2).
  - exists p, 0%nat, mlen. split; [done|]. split; [apply sums_refl; lia|].
    rewrite bit_part_1 by lia. rewrite (Z.mod_small mlen 2) by lia. split; [lia|done].
  - assert (sums p d 2 (u64 (p + le16 d)) (drop 2 d)) as S1 by (apply le16_sums; try done; lia).
    pose proof (sums_bytes _ _ _ _ _ S1 B). pose proof (sums_bound _ _ _ _ _ S1).
    assert (u64 (p + le16 d) < 2 ^ 18).
    { destruct d as [|b0 [|b1 d]]; simpl in L; try lia. unfold is_byte in *.
      apply Forall_cons in B as [B0 [B1 B]%Forall_cons]. unfold le16. simpl nth.
      rewrite Z.shiftl_mul_pow2, u64_small by lia. lia. }
    destruct (Go (u64 (p + le16 d)) (drop 2 d) (mlen - 2)) as (p' & c & m' & E & S2 & C1 & C2);
      [lia|done|rewrite length_drop; lia|lia|].
    exists p', (2 + c)%nat, m'. rewrite <- (drop_drop d c 2). split; [exact E|].
    split; [by eapply sums_trans|]. split; [lia|]. rewrite C2.
    replace (mlen - 2) with (mlen + (-1) * 2) by lia. by rewrite Z.mod_add by lia.
Qed.

(** The bytes summed from an even address, the last odd one included. *)
Lemma sums_last p d c p' m n : Forall is_byte d ->
  sums p d c p' (drop c d) -> (c + bit_part m 1)%nat = n -> (n <= length d)%nat -> p' < 2 ^ 62 ->
  let p'' := if flag_set m 1 then u64 (p' + nth 0 (drop c d) 0) else p' in
  oeq p'' (p + bsum false (take n d)) /\ 0 <= p'' < 2 ^ 63.
Proof.
  intros B [_ E L O Bd] C Ln P. destruct (O) as (O1 & O2 & O3 & O4).
  unfold bit_part in C. change (Z.of_nat 1) with 1 in C. destruct (flag_set m 1); simpl.
  - rewrite <- C, <- take_take_drop, bsum_app, length_take_le by lia.
    assert (Forall is_byte (drop c d)) as Bb by (by apply Forall_drop).
    destruct (drop c d) as [|b r] eqn:D;
      [apply (f_equal length) in D; rewrite length_drop in D; simpl in D; lia|].
    apply Forall_cons in Bb as [Bb _]. unfold is_byte in Bb. simpl nth. rewrite u64_small by lia.
    split; [|lia]. rewrite <- Nat.negb_even, E. simpl. rewrite Z.add_assoc.
    apply oeq_add; [done|]. rewrite Z.add_0_r. apply oeq_refl. lia.
  - rewrite Nat.add_0_r in C. subst n. split; [done|lia].
Qed.

Lemma odd_to_nat m : 0 <= m -> Nat.odd (Z.to_nat m) = negb (m mod 2 =? 0).
Proof.
  intros. pose proof (Z.div_mod m 2). pose proof (Z.mod_pos_bound m 2).
  assert (Z.to_nat m = 2 * Z.to_nat (m / 2) + Z.to_nat (m mod 2))%nat as -> by lia.
  rewrite Nat.odd_add, Nat.odd_mul. simpl.
  assert (m mod 2 = 0 \/ m mod 2 = 1) as [-> | ->] by lia; done.
Qed.

Lemma cksum_mbuf_spec addr mlen d len sum odd :
  0 <= addr -> 0 < mlen < 2 ^ 31 -> 0 < len -> mlen <= Z.of_nat (length d) ->
  Forall is_byte d -> 0 <= sum < 2 ^ 34 ->
  let m := Z.min mlen len in
  exists sum', cksum_mbuf addr mlen d len sum odd
      = (sum', xorb odd (Nat.odd (Z.to_nat m)), len - m) /\
    oeq sum' (sum + bsum odd (take (Z.to_nat m) d)) /\ 0 <= sum' < 2 ^ 34.
Proof.
  intros A M Ln L B S m. unfold cksum_mbuf.
  replace (if len <? mlen then len else mlen) with m by (unfold m; zcase; lia).
  assert (0 < m < 2 ^ 31 /\ m <= Z.of_nat (length d)) as [Hm Lm] by lia. clearbody m.
  assert (forall a p d n sw, Forall is_byte d -> 0 <= p < 2 ^ 17 -> 0 <= n < 2 ^ 31 ->
    n <= Z.of_nat (length d) -> exists p'',
    (let '(sum, partial, data, mlen) := cksum_words a n sum p sw d in
     let '(partial, started) :=
       if flag_set mlen 1 then (u64 (partial + nth 0 data 0), negb sw) else (partial, sw) in
     let partial := if sw then cksum_swap partial else partial in
     let sum := u64 (sum + u64 (Z.shiftr partial 32 + Z.land partial 0xffffffff)) in
     (u64 (Z.shiftr sum 32 + Z.land sum 0xffffffff), started, len - m))
    = (p'', xorb sw (Nat.odd (Z.to_nat n)), len - m) /\ 0 <= p'' < 2 ^ 34 /\
    oeq p'' (sum + (if sw then 256 else 1) * (p + bsum false (take (Z.to_nat n) d)))) as Body.
  { clear -S. intros a p d n sw B P N L.
    destruct (cksum_words_sums a n sum p sw d) as (p' & c & m' & -> & Sm & C1 & C2); try done.
    pose proof (sums_bound _ _ _ _ _ Sm).
    destruct (sums_last _ _ _ _ m' (Z.to_nat n) B Sm C1) as [O R]; [lia|lia|]. simpl in O, R.
    assert (Nat.odd (Z.to_nat n) = flag_set m' 1) as ->.
    { rewrite odd_to_nat by lia. unfold bit_part in C2. change (Z.of_nat 1) with 1 in C2.
      pose proof (Z.mod_pos_bound n 2).
      destruct (flag_set m' 1), (Z.eqb_spec (n mod 2) 0); simpl; try done; exfalso; lia. }
    replace (if flag_set m' 1 then (u64 (p' + nth 0 (drop c d) 0), negb sw) else (p', sw))
      with (if flag_set m' 1 then u64 (p' + nth 0 (drop c d) 0) else p', xorb sw (flag_set m' 1))
      by (by destruct (flag_set m' 1), sw).
    set (q := if flag_set m' 1 then _ else p') in *. clearbody q. cbv beta iota zeta.
    assert (exists q', (if sw then cksum_swap q else q) = q' /\ 0 <= q' < 2 ^ 64 /\
      oeq q' ((if sw then 256 else 1) * (p + bsum false (take (Z.to_nat n) d)))) as (q' & -> & Rq & Oq).
    { eexists. split; [done|]. destruct sw.
      - destruct (cksum_swap_oeq q ltac:(lia)) as [O' R']. split; [done|].
        etransitivity; [exact O'|]. by apply oeq_mul256.
      - rewrite Z.mul_1_l. split; [lia|done]. }
    destruct (fold32 q' Rq) as [O1 R1].
    rewrite (u64_small (Z.shiftr q' 32 + _)) by lia. rewrite (u64_small (sum + _)) by lia.
    destruct (fold32 (sum + (Z.shiftr q' 32 + Z.land q' 0xffffffff)) ltac:(lia)) as [O2 R2].
    rewrite u64_small by lia. eexists. split; [done|]. split; [lia|].
    etransitivity; [exact O2|]. apply oeq_add; [apply oeq_refl; lia|]. by etransitivity. }
  destruct (flag_set addr 1).
  - destruct d as [|b d]; [simpl in *; lia|]. apply Forall_cons in B as [Bb B]. unfold is_byte in Bb.
    simpl nth. rewrite Z.shiftl_mul_pow2 by lia. simpl drop. simpl length in *.
    destruct (Body (addr + 1) (b * 2 ^ 8) d (m - 1) (negb odd)) as (s' & E & R & O); try done; try lia.
    exists s'. split; [|split; [|done]].
    + etransitivity; [exact E|]. f_equal. f_equal. rewrite !odd_to_nat by lia.
      destruct (Z.eqb_spec (m mod 2) 0), (Z.eqb_spec ((m - 1) mod 2) 0), odd; simpl; try done;
        exfalso; Z.to_euclidean_division_equations; lia.
    + etransitivity; [exact O|]. apply oeq_add; [apply oeq_refl; lia|].
      replace (Z.to_nat m) with (Datatypes.S (Z.to_nat (m - 1))) by lia. simpl take.
      replace (b * 2 ^ 8 + bsum false (take (Z.to_nat (m - 1)) d))
        with (bsum true (b :: take (Z.to_nat (m - 1)) d)) by (simpl; lia).
      assert (Forall is_byte (b :: take (Z.to_nat (m - 1)) d)) as Bt
        by (constructor; [done|by apply Forall_take]).
      destruct odd; simpl negb; cbv iota.
      * rewrite Z.mul_1_l. apply oeq_refl, bsum_nonneg. done.
      * symmetry. apply (bsum_flip true). done.
  - destruct (Body addr 0 d m odd) as (s' & E & R & O); try done; try lia.
    exists s'. split; [exact E|]. split; [|done]. etransitivity; [exact O|].
    apply oeq_add; [apply oeq_refl; lia|]. rewrite Z.add_0_l.
    assert (Forall is_byte (take (Z.to_nat m) d)) by (by apply Forall_take).
    destruct odd.
    + symmetry. apply (bsum_flip false). done.
    + rewrite Z.mul_1_l. by apply oeq_refl, bsum_nonneg.
Qed.

(** ** The chain *)

Lemma seg_chain_bytes_cons m ms :
  chain_bytes (m :: ms) = take (Z.to_nat (seg_len m)) (seg_mem m) ++ chain_bytes ms.
Proof. done. Qed.

Lemma seg_bytes_length m : segment_ok m ->
  length (take (Z.to_nat (seg_len m)) (seg_mem m)) = Z.to_nat (seg_len m).
Proof. intros (L & L' & _). apply length_take_le. lia. Qed.

Lemma chain_bytes_ok ms : Forall segment_ok ms -> Forall is_byte (chain_bytes ms).
Proof.
  induction 1 as [|m ms (_ & _ & B & _) _ IH]; [constructor|].
  rewrite seg_chain_bytes_cons. apply Forall_app. split; [by apply Forall_take|done].
Qed.

(** Summing the first part of a mbuf and then the rest of the chain. *)
Lemma bsum_take_app odd a b n k : (n <= length a)%nat -> (k = 0 \/ n = length a)%nat ->
  bsum odd (take (n + k) (a ++ b)) =
  bsum odd (take n a) + bsum (xorb odd (Nat.odd n)) (take k b).
Proof.
  intros L K. destruct K as [-> | ->].
  - rewrite Nat.add_0_r, take_app_le by done. simpl. lia.
  - rewrite (take_ge a) by lia. rewrite take_app_ge by lia.
    replace (length a + k - length a)%nat with k by lia. by rewrite bsum_app.
Qed.

Lemma cksum_chain_spec ms len sum odd : Forall segment_ok ms -> 0 <= len -> 0 <= sum < 2 ^ 34 ->
  if len <=? Z.of_nat (length (chain_bytes ms)) then
    exists sum', cksum_chain ms len sum odd = Some sum' /\ 0 <= sum' < 2 ^ 34 /\
      oeq sum' (sum + bsum odd (take (Z.to_nat len) (chain_bytes ms)))
  else cksum_chain ms len sum odd = None.
Proof.
  intros F; revert len sum odd; induction F as [|m ms Ok F IH]; intros len sum odd Ln S;
    simpl cksum_chain.
  { change (Z.of_nat (length (chain_bytes []))) with 0. change (chain_bytes []) with (@nil Z).
    destruct (Z.leb_spec len 0); [|done]. exists sum. split; [done|]. split; [done|].
    rewrite take_nil. simpl. rewrite Z.add_0_r. apply oeq_refl. lia. }
  rewrite seg_chain_bytes_cons, length_app, seg_bytes_length by done.
  destruct (Ok) as (L1 & L2 & B & A).
  destruct (Z.leb_spec len 0).
  { assert (len = 0) as -> by lia. destruct (Z.leb_spec 0 (Z.of_nat (Z.to_nat (seg_len m) + length (chain_bytes ms)))); [|lia].
    exists sum. split; [done|]. split; [done|]. simpl. rewrite Z.add_0_r. apply oeq_refl. lia. }
  destruct (Z.eqb_spec (seg_len m) 0) as [E|E].
  { rewrite E. exact (IH len sum odd ltac:(lia) S). }
  destruct (cksum_mbuf_spec (seg_addr m) (seg_len m) (seg_mem m) len sum odd)
    as (s1 & -> & O1 & R1); try done; try lia.
  set (k := Z.min (seg_len m) len) in *.
  specialize (IH (len - k) s1 (xorb odd (Nat.odd (Z.to_nat k))) ltac:(lia) R1).
  destruct (Z.leb_spec (len - k) (Z.of_nat (length (chain_bytes ms)))) as [C|C],
    (Z.leb_spec len (Z.of_nat (Z.to_nat (seg_len m) + length (chain_bytes ms)))) as [C'|C']; try lia;
    [|done].
  destruct IH as (s2 & E2 & R2 & O2). exists s2. split; [done|]. split; [done|].
  etransitivity; [exact O2|].
  replace (Z.to_nat len) with (Z.to_nat k + Z.to_nat (len - k))%nat by lia.
  rewrite bsum_take_app; rewrite ?seg_bytes_length; try done; try lia.
  rewrite take_take, Nat.min_l by lia. rewrite Z.add_assoc.
  apply oeq_add; [done|]. apply oeq_refl, bsum_nonneg, Forall_take, chain_bytes_ok. done.
Qed.

Lemma cksum_skip_spec ms len off sum : Forall segment_ok ms -> 0 < len -> 0 <= off ->
  0 <= sum < 2 ^ 34 ->
  if off + len <=? Z.of_nat (length (chain_bytes ms)) then
    exists sum', cksum_skip ms len off sum = Some sum' /\ 0 <= sum' < 2 ^ 34 /\
      oeq sum' (sum + bsum false (take (Z.to_nat len) (drop (Z.to_nat off) (chain_bytes ms))))
  else cksum_skip ms len off sum = None.
Proof.
  intros F Ln; revert off; induction F as [|m ms Ok F IH]; intros off Lo S; simpl cksum_skip.
  { change (Z.of_nat (length (chain_bytes []))) with 0. destruct (Z.leb_spec (off + len) 0); [lia|done]. }
  rewrite seg_chain_bytes_cons, length_app, seg_bytes_length by done.
  destruct (Ok) as (L1 & L2 & B & A). pose proof (seg_bytes_length m Ok) as Lb.
  destruct (Z.ltb_spec off (seg_len m)) as [C|C].
  - destruct (cksum_mbuf_spec (seg_addr m + off) (seg_len m - off)
      (drop (Z.to_nat off) (seg_mem m)) len sum false) as (s1 & -> & O1 & R1); try done; try lia;
      [rewrite length_drop; lia|by apply Forall_drop|].
    set (k := Z.min (seg_len m - off) len) in *.
    pose proof (cksum_chain_spec ms (len - k) s1 (xorb false (Nat.odd (Z.to_nat k))) F
      ltac:(lia) R1) as Ch.
    destruct (Z.leb_spec (len - k) (Z.of_nat (length (chain_bytes ms)))),
      (Z.leb_spec (off + len) (Z.of_nat (Z.to_nat (seg_len m) + length (chain_bytes ms)))); try lia;
      [|done].
    destruct Ch as (s2 & E2 & R2 & O2). exists s2. split; [done|]. split; [done|].
    etransitivity; [exact O2|].
    rewrite drop_app_le by lia.
    replace (Z.to_nat len) with (Z.to_nat k + Z.to_nat (len - k))%nat by lia.
    rewrite bsum_take_app by (rewrite length_drop; lia).
    rewrite take_drop_commute, take_take, Nat.min_l, <- take_drop_commute by lia.
    rewrite Z.add_assoc.
    apply oeq_add; [done|]. apply oeq_refl, bsum_nonneg, Forall_take, chain_bytes_ok. done.
  - destruct (Z.eqb_spec len 0); [lia|].
    specialize (IH (off - seg_len m) ltac:(lia) S).
    destruct (Z.leb_spec (off - seg_len m + len) (Z.of_nat (length (chain_bytes ms)))),
      (Z.leb_spec (off + len) (Z.of_nat (Z.to_nat (seg_len m) + length (chain_bytes ms)))); try lia;
      [|done].
    destruct IH as (s2 & E2 & R2 & O2). exists s2. split; [done|]. split; [done|].
    rewrite drop_app_ge by lia. rewrite Lb.
    replace (Z.to_nat off - Z.to_nat (seg_len m))%nat with (Z.to_nat (off - seg_len m)) by lia. done.
Qed.

(** The accumulator that [in4_cksum] passes, as two words. *)
Definition initial_words (sum : Z) : list Z := [sum mod 2 ^ 16; sum / 2 ^ 16].

(** The sum before it is folded and complemented. *)
Lemma cpu_in_cksum_norm ms len off initial_sum :
  Forall segment_ok ms -> 0 < len -> 0 <= off -> is_u32 initial_sum ->
  cpu_in_cksum ms len off initial_sum =
  if off + len <=? Z.of_nat (length (chain_bytes ms)) then
    65535 - norm (initial_sum +
      bsum false (take (Z.to_nat len) (drop (Z.to_nat off) (chain_bytes ms))))
  else -1.
Proof.
  intros F Ln Lo I. unfold is_u32 in I. unfold cpu_in_cksum.
  pose proof (cksum_skip_spec ms len off initial_sum F Ln Lo ltac:(lia)) as Sk.
  destruct (_ <=? _); [|by rewrite Sk]. destruct Sk as (s & -> & R & O).
  rewrite cksum_final_spec by lia. f_equal. by apply norm_oeq.
Qed.

(** C29. The optimised checksum is the RFC 1071 checksum of the selected
    bytes, for every way the data is spread over mbufs, whatever the
    length and alignment of each of them; with too little data it
    reports -1. *)
Theorem cpu_in_cksum_rfc1071 ms len off initial_sum :
  Forall segment_ok ms -> 0 < len -> 0 <= off -> is_u32 initial_sum ->
  cpu_in_cksum ms len off initial_sum =
  if off + len <=? Z.of_nat (length (chain_bytes ms)) then
    rfc1071 (initial_words initial_sum ++
             words16 (take (Z.to_nat len) (drop (Z.to_nat off) (chain_bytes ms))))
  else -1.
Proof.
  intros F Ln Lo I. rewrite cpu_in_cksum_norm by done. unfold is_u32 in I.
  destruct (_ <=? _); [|done]. symmetry. apply rfc1071_norm.
  - apply Forall_app. split; [|by apply words16_range, Forall_take, Forall_drop, chain_bytes_ok].
    pose proof (Z.mod_pos_bound initial_sum (2 ^ 16)).
    assert (0 <= initial_sum / 2 ^ 16 < 2 ^ 16)
      by (split; [apply Z.div_pos|apply Z.div_lt_upper_bound]; lia).
    repeat constructor; lia.
  - simpl. rewrite words16_sum, Z.add_assoc. apply oeq_add.
    + pose proof (Z.div_mod initial_sum (2 ^ 16)). pose proof (Z.mod_pos_bound initial_sum (2 ^ 16)).
      assert (0 <= initial_sum / 2 ^ 16) by (apply Z.div_pos; lia).
      apply (oeq_shift _ _ (initial_sum / 2 ^ 16)); lia.
    + by apply oeq_refl, bsum_nonneg, Forall_take, Forall_drop, chain_bytes_ok.
Qed.

Definition ex_chain : list segment :=
  [mkSegment 1000 [0x45; 0; 0; 20; 1; 2; 3] 7; mkSegment 2001 [] 0;
   mkSegment 3003 [0x40; 6; 0; 0; 10; 0; 0; 1; 10; 0; 0; 2; 99; 98; 97] 13].

Lemma ex_chain_ok : Forall segment_ok ex_chain.
Proof. repeat constructor; vm_compute; congruence. Defined.

(** Two mbufs of odd length at odd addresses: an IP header and its
    checksum. *)
Lemma cpu_in_cksum_rfc1071_witness :
  cpu_in_cksum ex_chain 20 0 0 =
  if 0 + 20 <=? Z.of_nat (length (chain_bytes ex_chain)) then
    rfc1071 (initial_words 0 ++ words16 (take 20 (drop 0 (chain_bytes ex_chain))))
  else -1.
Proof. apply (cpu_in_cksum_rfc1071 ex_chain 20 0 0); [exact ex_chain_ok| | |]; by vm_compute. Defined.

(** ** The pseudo header *)

(** Source and destination address, a zero byte, the protocol and the
    length, in network order. *)
Definition pseudo_header (ms : list segment) (nxt len : Z) : list Z :=
  take 8 (drop 12 (chain_bytes ms)) ++ [0; nxt; len / 256; len mod 256].

(** The IP header occupies the start of the first mbuf. *)
Definition ip_first (ms : list segment) : Prop :=
  match ms with m :: _ => 20 <= seg_len m | [] => False end.

Lemma oeq_bsum_pseudo a nxt len : Forall is_byte a -> (length a = 8)%nat ->
  0 <= len < 2 ^ 16 -> is_byte nxt ->
  oeq (Z.shiftl (len + nxt) 8 + bsum false a)
      (bsum false (a ++ [0; nxt; len / 256; len mod 256])).
Proof.
  intros B L Ln N. unfold is_byte in N. rewrite bsum_app, L. simpl Nat.odd. simpl xorb. cbv iota.
  rewrite Z.add_comm. apply oeq_add; [by apply oeq_refl, bsum_nonneg|].
  rewrite Z.shiftl_mul_pow2 by lia. simpl bsum.
  pose proof (Z.div_mod len 256). pose proof (Z.mod_pos_bound len 256).
  assert (0 <= len / 256) by (apply Z.div_pos; lia).
  apply (oeq_shift _ _ (len / 256)); lia.
Qed.

(** The sum of the addresses, from either alignment. *)
Lemma in4_addresses_aligned d : Forall is_byte d -> (20 <= length d)%nat ->
  let w := drop 12 d in
  le16 w + le16 (drop 2 w) + le16 (drop 4 w) + le16 (drop 6 w)
  = bsum false (take 8 (drop 12 d)).
Proof.
  intros B L. cbv zeta. assert (length (drop 12 d) >= 8)%nat as L' by (rewrite length_drop; lia).
  destruct (drop 12 d) as [|b0 [|b1 [|b2 [|b3 [|b4 [|b5 [|b6 [|b7 r]]]]]]]]; simpl in L'; try lia.
  unfold le16. simpl. rewrite !Z.shiftl_mul_pow2 by lia. lia.
Qed.

Lemma land_ff00 x y : 0 <= x < 2 ^ 8 -> 0 <= y < 2 ^ 8 -> Z.land (x + y * 2 ^ 8) 0xff00 = y * 2 ^ 8.
Proof.
  intros X Y. change 0xff00 with (Z.shiftl (Z.ones 8) 8). apply Z.bits_inj'. intros n Hn.
  rewrite Z.land_spec, <- (Z.shiftl_mul_pow2 y 8) by lia.
  destruct (Z.lt_ge_cases n 8).
  - rewrite !Z.shiftl_spec_low by lia. apply andb_false_r.
  - rewrite !Z.shiftl_spec_high by lia.
    replace n with (n - 8 + 8) at 1 by lia. rewrite <- (Z.shiftr_spec _ 8) by lia.
    rewrite Z.shiftl_mul_pow2, Z.shiftr_div_pow2, Z.div_add, (Z.div_small x) by lia.
    rewrite <- Z.land_spec, Z.land_ones, Z.mod_small by lia. done.
Qed.

Lemma in4_addresses_odd d : Forall is_byte d -> (20 <= length d)%nat ->
  let w := drop 11 d in
  Z.land (le16 w) 0xff00 + le16 (drop 2 w) + le16 (drop 4 w) + le16 (drop 6 w)
    + Z.land (le16 (drop 8 w)) 0x00ff
  = bsum true (take 8 (drop 12 d)).
Proof.
  intros B L. cbv zeta. assert (length (drop 11 d) >= 9)%nat as L' by (rewrite length_drop; lia).
  change (drop 12 d) with (drop (11 + 1) d). rewrite <- (drop_drop d 1 11).
  assert (Forall is_byte (drop 11 d)) as B' by (by apply Forall_drop).
  destruct (drop 11 d) as [|a [|b0 [|b1 [|b2 [|b3 [|b4 [|b5 [|b6 [|b7 r]]]]]]]]];
    simpl in L'; try lia.
  rewrite !Forall_cons in B'. unfold is_byte in B'.
  unfold le16. simpl nth. simpl bsum. rewrite !Z.shiftl_mul_pow2 by lia.
  rewrite land_ff00 by lia. change 0xff with (2 ^ 8 - 1). rewrite land_ones_mod by lia.
  rewrite Z.mod_add, Z.mod_small by lia. simpl. lia.
Qed.

Lemma ip_addresses m ms : segment_ok m -> 20 <= seg_len m ->
  take 8 (drop 12 (chain_bytes (m :: ms))) = take 8 (drop 12 (seg_mem m)).
Proof.
  intros Ok L. pose proof (seg_bytes_length m Ok). rewrite seg_chain_bytes_cons.
  rewrite drop_app_le, take_app_le by (rewrite ?length_drop; lia).
  rewrite take_drop_commute, take_take, Nat.min_l, <- take_drop_commute by lia. done.
Qed.

(** [in4_cksum] is the RFC 1071 checksum of the pseudo header (the
    addresses of the IP header in front of the payload, the protocol and
    the length) followed by the payload. *)
Theorem in4_cksum_pseudo ms nxt off len :
  Forall segment_ok ms -> ip_first ms -> 20 <= off -> 0 < len < 2 ^ 16 -> 0 < nxt < 256 ->
  in4_cksum ms nxt off len =
  Some (if off + len <=? Z.of_nat (length (chain_bytes ms)) then
          rfc1071 (words16 (pseudo_header ms nxt len ++
                            take (Z.to_nat len) (drop (Z.to_nat off) (chain_bytes ms))))
        else -1).
Proof.
  intros F Ip Lo Ln N. unfold in4_cksum.
  destruct (Z.eqb_spec nxt 0); [lia|]. destruct (Z.ltb_spec off 20); [lia|].
  destruct ms as [|m ms]; [done|]. simpl in Ip. destruct (Z.ltb_spec (seg_len m) 20); [lia|].
  pose proof (Forall_inv F) as Ok. destruct (Ok) as (L1 & L2 & B & A).
  assert (length (take 8 (drop 12 (seg_mem m))) = 8)%nat as L8
    by (rewrite length_take_le; rewrite ?length_drop; lia).
  assert (Forall is_byte (take 8 (drop 12 (seg_mem m)))) as B8 by (by apply Forall_take, Forall_drop).
  set (sum := if _ =? 0 then _ else _).
  assert (is_u32 sum /\ oeq sum (bsum false (pseudo_header (m :: ms) nxt len))) as [U O].
  { unfold pseudo_header. rewrite ip_addresses by done.
    assert (Z.land len 0xffff = len) as E
      by (change 0xffff with (2 ^ 16 - 1); rewrite land_ones_mod, Z.mod_small; lia).
    unfold sum. rewrite E. pose proof (oeq_bsum_pseudo _ nxt len B8 L8 ltac:(lia) ltac:(unfold is_byte; lia)) as Op.
    pose proof (bsum_bound false _ B8). pose proof (bsum_nonneg false _ B8).
    pose proof (bsum_bound true _ B8). pose proof (bsum_nonneg true _ B8). rewrite L8 in *.
    assert (0 <= Z.shiftl (len + nxt) 8 < 2 ^ 25) by (rewrite Z.shiftl_mul_pow2; lia).
    rewrite (u32_small (Z.shiftl (len + nxt) 8)) by lia. unfold is_u32. destruct (_ =? 0).
    - pose proof (in4_addresses_aligned (seg_mem m) B ltac:(lia)) as Ea. cbv zeta in *.
      match goal with |- context [u32 ?x] =>
        replace x with (Z.shiftl (len + nxt) 8 + bsum false (take 8 (drop 12 (seg_mem m))))
          by (rewrite <- Ea; ring) end.
      rewrite u32_small by lia. split; [lia|done].
    - pose proof (in4_addresses_odd (seg_mem m) B ltac:(lia)) as Ea. cbv zeta in *. rewrite Ea.
      rewrite (Z.shiftl_mul_pow2 (bsum _ _)) by lia. rewrite !u32_small by (rewrite ?u32_small; lia).
      split; [lia|]. etransitivity; [|exact Op]. apply oeq_add; [apply oeq_refl; lia|].
      symmetry. rewrite Z.mul_comm. apply (bsum_flip true). done. }
  clearbody sum. f_equal. rewrite cpu_in_cksum_norm by (done || lia).
  destruct (_ <=? _); [|done].
  assert (Forall is_byte (pseudo_header (m :: ms) nxt len)) as Bp.
  { unfold pseudo_header. rewrite ip_addresses by done. apply Forall_app. split; [done|].
    pose proof (Z.mod_pos_bound len 256). unfold is_byte.
    assert (0 <= len / 256 < 256) by (split; [apply Z.div_pos|apply Z.div_lt_upper_bound]; lia).
    repeat constructor; lia. }
  set (pay := take _ (drop _ _)).
  assert (Forall is_byte pay) as By by (by apply Forall_take, Forall_drop, chain_bytes_ok).
  symmetry. apply rfc1071_norm; [by apply words16_range, Forall_app|].
  rewrite words16_sum, bsum_app.
  assert (Nat.odd (length (pseudo_header (m :: ms) nxt len)) = false) as ->.
  { unfold pseudo_header. by rewrite ip_addresses, length_app, L8 by done. }
  apply oeq_add; [done|]. by apply oeq_refl, bsum_nonneg.
Qed.

Lemma in4_cksum_pseudo_witness :
  in4_cksum [mkSegment 1001 (repeat 7 28) 28] 17 20 8 =
  Some (rfc1071 (words16 ([7; 7; 7; 7; 7; 7; 7; 7; 0; 17; 0; 8] ++ repeat 7 8))).
Proof.
  apply (in4_cksum_pseudo [mkSegment 1001 (repeat 7 28) 28] 17 20 8);
    try (repeat constructor; vm_compute; congruence); vm_compute; try done; split; done.
Defined.

(** A length of zero with data at an odd address makes the routine
    take a byte before it tests the count, so the checksum of no data is
    not the checksum of nothing. *)
Theorem cpu_in_cksum_zero_length :
  cpu_in_cksum [mkSegment 1001 [200; 100; 50; 25] 4] 0 0 0 <> rfc1071 [].
Proof. vm_compute. discriminate. Qed.
