(* ===== verification/TcpTimer.v ===== *)
(** * TCP timers (src/netbsd/netinet/tcp_timer.c, tcp_timer.h;
    tcp_setpersist of tcp_output.c, tcp_xmit_timer of tcp_input.c,
    tcp_drop of tcp_subr.c)

    The handlers of the five per-connection timers, the round-trip time
    estimator and the intervals computed from it.  A handler returns the
    control block ([None] once it is closed) and the calls it made to
    other parts of the stack, in order; [tcp_output], which changes the
    control block, is an argument. *)

From S2P Require Import Prelude Pool TcpSeq Callout Tcpcb TcpSack TcpCongctl.

Definition PR_SLOWHZ : Z := 2.
Definition PR_FASTHZ : Z := 5.
Definition ETIMEDOUT : Z := 60.
Definition SO_KEEPALIVE : Z := 0x0008.
Definition TCP_ISSINCR : Z := 0x01000000.

Definition TCPTV_PERSMIN : Z := 5 * PR_SLOWHZ.
Definition TCPTV_PERSMAX : Z := 60 * PR_SLOWHZ.
Definition TCPTV_KEEP_INIT : Z := 75 * PR_SLOWHZ.
Definition TCPTV_KEEP_IDLE : Z := 120 * 60 * PR_SLOWHZ.
Definition TCPTV_KEEPINTVL : Z := 75 * PR_SLOWHZ.
Definition TCPTV_KEEPCNT : Z := 8.
Definition TCPTV_REXMTMAX : Z := 64 * PR_SLOWHZ.
Definition TCP_MAXRXTSHIFT : Z := 12.
Definition TCP_RTT_SHIFT : Z := 3.
Definition TCP_RTTVAR_SHIFT : Z := 2.

Definition tcp_backoff : list Z := [1; 2; 4; 8; 16; 32; 64; 64; 64; 64; 64; 64; 64].
Definition tcp_totbackoff : Z := 511.

(** [tcp_backoff[i]] *)
Definition backoff (i : Z) : Z := nth (Z.to_nat i) tcp_backoff 0.

(** ** Globals *)

Record timer_globals := mkTimerGlobals {
  tcp_keepinit : Z;
  tcp_keepidle : Z;
  tcp_keepintvl : Z;
  tcp_keepcnt : Z;
  tcp_maxpersistidle : Z;
  tcp_delack_ticks : Z;
  tcp_iss_seq : Z;
  tcp_now : Z
}.

#[export] Instance eta_timer_globals : EtaRecord timer_globals :=
  fun r => mkTimerGlobals (tcp_keepinit r) (tcp_keepidle r) (tcp_keepintvl r) (tcp_keepcnt r)
    (tcp_maxpersistidle r) (tcp_delack_ticks r) (tcp_iss_seq r) (tcp_now r).

(** The calls a handler makes. *)
Inductive timer_call :=
  | CallOutput
  | CallSoError (errno : Z)
  | CallClose
  | CallRespond (ack seq : tcp_seq)
  | CallInLosing
  | CallMtudisc.

Section timers.
(** The DPDK timer frequency, [hz], and the send routine. *)
Variables timer_hz hz : Z.
Variable tcp_output : tcpcb -> tcpcb.

Definition tcp_timer_init (g : timer_globals) : timer_globals :=
  let dflt v d := if v =? 0 then d else v in
  g <| tcp_keepinit := dflt (tcp_keepinit g) TCPTV_KEEP_INIT |>
    <| tcp_keepidle := dflt (tcp_keepidle g) TCPTV_KEEP_IDLE |>
    <| tcp_keepintvl := dflt (tcp_keepintvl g) TCPTV_KEEPINTVL |>
    <| tcp_keepcnt := dflt (tcp_keepcnt g) TCPTV_KEEPCNT |>
    <| tcp_maxpersistidle := dflt (tcp_maxpersistidle g) TCPTV_KEEP_IDLE |>
    <| tcp_delack_ticks := dflt (tcp_delack_ticks g) (hz / PR_FASTHZ) |>.

Definition tcp_slowtimo (g : timer_globals) : timer_globals :=
  g <| tcp_iss_seq := u32 (tcp_iss_seq g + TCP_ISSINCR) |> <| tcp_now := u32 (tcp_now g + 1) |>.

(** [TCP_TIMER_ARM(tp, timer, nticks)] *)
Definition TCP_TIMER_ARM (tp : tcpcb) (i : nat) (nticks : Z) : tcpcb :=
  match t_timer tp !! i with
  | Some co => tp <| t_timer :=
      <[i := callout_schedule timer_hz hz co (s32 (nticks * (hz / PR_SLOWHZ)))]> (t_timer tp) |>
  | None => tp
  end.

Definition TCP_TIMER_ISARMED (tp : tcpcb) (i : nat) : bool :=
  match t_timer tp !! i with Some co => callout_active co | None => false end.

Definition timer_expired (tp : tcpcb) (i : nat) : bool :=
  match t_timer tp !! i with Some co => callout_expired co | None => false end.

Definition tcp_canceltimers (tp : tcpcb) : tcpcb :=
  foldl TCP_TIMER_DISARM tp (seq 0 TCPT_NTIMERS).

(** [TCPT_RANGESET(tv, value, tvmin, tvmax)] *)
Definition TCPT_RANGESET (value tvmin tvmax : Z) : Z :=
  let tv := if value <? tvmin then tvmin else value in
  if tvmax <? tv then tvmax else tv.

(** [TCP_REXMTVAL(tp)] *)
Definition TCP_REXMTVAL (tp : tcpcb) : Z :=
  Z.shiftr (s32 (Z.shiftr (t_srtt tp) TCP_RTT_SHIFT + t_rttvar tp)) 2.

(** [rto = TCP_REXMTVAL(tp); if (rto < t_rttmin) rto = t_rttmin] *)
Definition timer_rto (tp : tcpcb) : Z :=
  let rto := u32 (TCP_REXMTVAL tp) in
  if rto <? t_rttmin tp then t_rttmin tp else rto.

Definition tcp_drop (tp : tcpcb) (errno : Z) : list timer_call :=
  if negb (t_inpcb tp) then []
  else
    let calls := if TCPS_SYN_RECEIVED <=? t_state tp then [CallOutput] else [] in
    let errno := if (errno =? ETIMEDOUT) && negb (t_softerror tp =? 0)
                 then t_softerror tp else errno in
    calls ++ [CallSoError errno; CallClose].

(** ** Delayed acknowledgements *)
Definition tcp_delack (tp : tcpcb) : tcpcb * list timer_call :=
  if negb (Z.land (t_flags tp) (Z.lor TF_DEAD TF_DELACK) =? TF_DELACK) then (tp, [])
  else if negb (callout_expired (t_delack_ch tp)) then (tp, [])
  else (tcp_output (tp <| t_flags := Z.lor (t_flags tp) TF_ACKNOW |>), [CallOutput]).

(** ** Retransmission *)

(** The black hole detection and the reset of the estimator. *)
Definition rexmt_losing (tp : tcpcb) : tcpcb * list timer_call :=
  let tp := if negb (t_mtudisc tp =? 0) && (TCP_MAXRXTSHIFT / 6 <? t_rxtshift tp)
            then if t_inpcb tp then tp <| t_mtudisc := 0 |> else tp else tp in
  if TCP_MAXRXTSHIFT / 4 <? t_rxtshift tp then
    (tp <| t_rttvar := s32 (t_rttvar tp + Z.shiftr (t_srtt tp) TCP_RTT_SHIFT) |>
        <| t_srtt := 0 |>,
     if t_inpcb tp then [CallInLosing] else [])
  else (tp, []).

Definition slow_retransmit_of (tp : tcpcb) : tcpcb :=
  match t_congctl tp with
  | Some a => slow_retransmit (congctl_table tcp_output (mkAbc true 1) a) tp
  | None => tp
  end.

Definition tcp_timer_rexmt (g : sack_globals) (tp : tcpcb)
    : sack_globals * option tcpcb * list timer_call :=
  if flag_set (t_flags tp) TF_DEAD then (g, Some tp, [])
  else if negb (timer_expired tp TCPT_REXMT) then (g, Some tp, [])
  else if flag_set (t_flags tp) TF_PMTUD_PEND && t_inpcb tp
          && SEQ_GEQ (t_pmtud_th_seq tp) (snd_una tp)
          && SEQ_LT (t_pmtud_th_seq tp) (snd_una tp + t_ourmss tp) then
    (g, Some (tp <| t_flags := flag_clear (t_flags tp) TF_PMTUD_PEND |>), [CallMtudisc])
  else
    let '(g, tp) := tcp_free_sackholes g tp in
    let tp := tp <| snd_fack := snd_una tp |> in
    let tp := tp <| t_rxtshift := s16 (t_rxtshift tp + 1) |> in
    if TCP_MAXRXTSHIFT <? t_rxtshift tp then
      let tp := tp <| t_rxtshift := TCP_MAXRXTSHIFT |> in
      (g, None, tcp_drop tp (if negb (t_softerror tp =? 0) then t_softerror tp else ETIMEDOUT))
    else
      let tp := tp <| t_rxtcur :=
        TCPT_RANGESET (u32 (timer_rto tp * backoff (t_rxtshift tp))) (t_rttmin tp)
          TCPTV_REXMTMAX |> in
      let tp := TCP_TIMER_ARM tp TCPT_REXMT (t_rxtcur tp) in
      let '(tp, calls) := rexmt_losing tp in
      let tp := tp <| snd_nxt := snd_una tp |> in
      let tp := tp <| snd_high := snd_max tp |> in
      let tp := tp <| t_rtttime := 0 |> in
      let tp := if t_state tp =? TCPS_SYN_SENT
                then tp <| t_flags := Z.lor (t_flags tp) TF_SYN_REXMT |> else tp in
      let tp := slow_retransmit_of tp in
      (g, Some (tcp_output tp), calls ++ [CallOutput]).

(** ** Persistence *)

(** [tcp_setpersist]; [None] is its panic. *)
Definition tcp_setpersist (tp : tcpcb) : option tcpcb :=
  let t := Z.shiftr (s32 (Z.shiftr (t_srtt tp) 2 + t_rttvar tp)) (1 + 2) in
  if TCP_TIMER_ISARMED tp TCPT_REXMT then None
  else
    let t := if u32 t <? t_rttmin tp then s32 (t_rttmin tp) else t in
    let nticks := TCPT_RANGESET (s32 (t * backoff (t_rxtshift tp))) TCPTV_PERSMIN TCPTV_PERSMAX in
    let tp := TCP_TIMER_ARM tp TCPT_PERSIST nticks in
    Some (if t_rxtshift tp <? TCP_MAXRXTSHIFT
          then tp <| t_rxtshift := t_rxtshift tp + 1 |> else tp).

Definition tcp_timer_persist (tg : timer_globals) (tp : tcpcb)
    : option (option tcpcb * list timer_call) :=
  if flag_set (t_flags tp) TF_DEAD then Some (Some tp, [])
  else if negb (timer_expired tp TCPT_PERSIST) then Some (Some tp, [])
  else
    let rto := timer_rto tp in
    let idle := u32 (tcp_now tg - t_rcvtime tp) in
    if (t_rxtshift tp =? TCP_MAXRXTSHIFT)
       && ((u32 (tcp_maxpersistidle tg) <=? idle) || (u32 (rto * tcp_totbackoff) <=? idle)) then
      Some (None, tcp_drop tp ETIMEDOUT)
    else
      match tcp_setpersist tp with
      | None => None
      | Some tp =>
          let tp := tp <| t_force := 1 |> in
          let tp := tcp_output tp in
          Some (Some (tp <| t_force := 0 |>), [CallOutput])
      end.

(** ** Keep-alive; [so_options] are those of the connection's socket. *)
Definition tcp_timer_keep (tg : timer_globals) (tcp_compat_42 : bool) (so_options : Z)
    (tp : tcpcb) : option tcpcb * list timer_call :=
  if flag_set (t_flags tp) TF_DEAD then (Some tp, [])
  else if negb (timer_expired tp TCPT_KEEP) then (Some tp, [])
  else if negb (TCPS_HAVEESTABLISHED (t_state tp)) then (None, tcp_drop tp ETIMEDOUT)
  else if flag_set so_options SO_KEEPALIVE && (t_state tp <=? TCPS_CLOSE_WAIT) then
    if (0 <? t_maxidle tp)
       && (u32 (t_keepidle tp + t_maxidle tp) <=? u32 (tcp_now tg - t_rcvtime tp))
    then (None, tcp_drop tp ETIMEDOUT)
    else
      let ack := if tcp_compat_42 then u32 (rcv_nxt tp - 1) else rcv_nxt tp in
      (Some (TCP_TIMER_ARM tp TCPT_KEEP (t_keepintvl tp)),
       [CallRespond ack (u32 (snd_una tp - 1))])
  else (Some (TCP_TIMER_ARM tp TCPT_KEEP (t_keepidle tp)), []).

(** ** The quiet period *)
Definition tcp_timer_2msl (tg : timer_globals) (g : sack_globals) (tp : tcpcb)
    : sack_globals * option tcpcb * list timer_call :=
  if flag_set (t_flags tp) TF_DEAD then (g, Some tp, [])
  else if negb (timer_expired tp TCPT_2MSL) then (g, Some tp, [])
  else
    let '(g, tp) := tcp_free_sackholes g tp in
    let tp := tp <| snd_fack := snd_una tp |> in
    if negb (t_state tp =? TCPS_TIME_WAIT)
       && ((t_maxidle tp =? 0) || (u32 (tcp_now tg - t_rcvtime tp) <=? t_maxidle tp))
    then (g, Some (TCP_TIMER_ARM tp TCPT_2MSL (t_keepintvl tp)), [])
    else (g, None, [CallClose]).

(** ** The round-trip time estimator

    [msl] is the [tcp_rttlocal] adjustment of [t_msl]: whether it is
    enabled, the threshold and the remote MSL. *)
Definition tcp_xmit_timer (msl : bool * Z * Z) (tp : tcpcb) (rtt : Z) : tcpcb :=
  let '(msl_enable, threshold, msl_remote) := msl in
  let tp :=
    if negb (t_srtt tp =? 0) then
      let delta := s32 (u32 (Z.shiftl rtt 2) - Z.shiftr (t_srtt tp) TCP_RTT_SHIFT) in
      let srtt := s32 (t_srtt tp + delta) in
      let srtt := if srtt <=? 0 then Z.shiftl 1 2 else srtt in
      let delta := if delta <? 0 then s32 (- delta) else delta in
      let delta := s32 (delta - Z.shiftr (t_rttvar tp) TCP_RTTVAR_SHIFT) in
      let rttvar := s32 (t_rttvar tp + delta) in
      let rttvar := if rttvar <=? 0 then Z.shiftl 1 2 else rttvar in
      let tp := tp <| t_srtt := srtt |> <| t_rttvar := rttvar |> in
      if msl_enable && (threshold <? t_srtt tp) && (t_msl tp <? msl_remote)
      then tp <| t_msl := msl_remote |> else tp
    else
      tp <| t_srtt := s32 (Z.shiftl rtt (TCP_RTT_SHIFT + 2)) |>
         <| t_rttvar := s32 (Z.shiftl rtt (TCP_RTTVAR_SHIFT + 2 - 1)) |> in
  let tp := tp <| t_rtttime := 0 |> in
  let tp := tp <| t_rxtshift := 0 |> in
  let tp := tp <| t_rxtcur :=
    TCPT_RANGESET (u32 (TCP_REXMTVAL tp)) (umax (t_rttmin tp) (rtt + 2)) TCPTV_REXMTMAX |> in
  tp <| t_softerror := 0 |>.
End timers.
