(* ===== verification/TcpTimerFacts.v ===== *)
(** * Correctness of the TCP timers

    Theorems about TcpTimer.v: exponential backoff and the end of a
    connection that gets no answer, for any [tcp_output] that leaves the timer alone
    ([output_retransmits]; TcpRexmt.v shows this of the modelled one), the bounds of
    every interval, and the round-trip time estimator against its formula. *)

From S2P Require Import Prelude Pool TcpSeq Callout Tcpcb TcpSack TcpSackFacts TcpCongctl TcpTimer.

(** ** Ranges *)

Lemma TCPT_RANGESET_range v lo hi : lo <= hi -> lo <= TCPT_RANGESET v lo hi <= hi.
Proof. intros. unfold TCPT_RANGESET. destruct (Z.ltb_spec v lo); zcase; lia. Qed.

Lemma TCPT_RANGESET_clamp v lo hi : lo <= hi -> TCPT_RANGESET v lo hi = Z.min hi (Z.max lo v).
Proof. intros. unfold TCPT_RANGESET. destruct (Z.ltb_spec v lo); zcase; lia. Qed.

Lemma TCPT_RANGESET_le v w lo hi : v <= w -> TCPT_RANGESET v lo hi <= TCPT_RANGESET w lo hi.
Proof. intros. unfold TCPT_RANGESET. destruct (Z.ltb_spec v lo), (Z.ltb_spec w lo); repeat zcase; lia. Qed.

Lemma backoff_range i : 0 <= i <= 12 -> 1 <= backoff i <= 64.
Proof.
  intros H. assert (i ∈ seqZ 0 13) as E by (apply elem_of_seqZ; lia).
  assert (Forall (fun i => 1 <= backoff i <= 64) (seqZ 0 13)) as F
    by (repeat constructor; vm_compute; congruence).
  rewrite Forall_forall in F. by apply F.
Qed.

Lemma backoff_le i : 0 <= i <= 11 -> backoff i <= backoff (i + 1).
Proof.
  intros H. assert (i ∈ seqZ 0 12) as E by (apply elem_of_seqZ; lia).
  assert (Forall (fun i => backoff i <= backoff (i + 1)) (seqZ 0 12)) as F
    by (repeat constructor; vm_compute; congruence).
  rewrite Forall_forall in F. by apply F.
Qed.

(** The constant next to the table is its sum. *)
Lemma tcp_totbackoff_sum : tcp_totbackoff = foldr Z.add 0 tcp_backoff.
Proof. reflexivity. Qed.

(** ** A connection whose retransmission timer keeps firing *)

Section rexmt.
Context (timer_hz hz : Z).

(** An open connection with its estimator in range; [t_force] is set only while the
    persist timer calls [tcp_output]. *)
Record rexmt_live (tp : tcpcb) : Prop := mkRexmtLive {
  live_dead : flag_set (t_flags tp) TF_DEAD = false;
  live_pmtud : flag_set (t_flags tp) TF_PMTUD_PEND = false;
  live_inpcb : t_inpcb tp = true;
  live_shift : 0 <= t_rxtshift tp <= 12;
  live_srtt : 0 <= t_srtt tp < 2 ^ 20;
  live_rttvar : 0 <= t_rttvar tp /\ t_srtt tp / 8 + t_rttvar tp < 2 ^ 21;
  live_rttmin : 0 < t_rttmin tp <= TCPTV_REXMTMAX;
  live_timer : exists co f, t_timer tp !! TCPT_REXMT = Some co /\ c_func co = Some f;
  live_force : t_force tp = 0;
  live_congctl : is_Some (t_congctl tp)
}.

(** The control block that the handler gives to [tcp_output]: the retransmission timer
    runs, everything is to be sent again, and there are no holes. *)
Record rexmt_ready (tp : tcpcb) : Prop := mkRexmtReady {
  ready_timer : TCP_TIMER_ISARMED tp TCPT_REXMT = true;
  ready_force : t_force tp = 0;
  ready_nxt : snd_nxt tp = snd_una tp;
  ready_holes : snd_holes tp = [];
  ready_partial : t_partialacks tp < 0
}.

(** What the next expiry depends on: the estimator, the backoff, the timer, and the
    flags that the handler tests. *)
Definition rexmt_view (tp : tcpcb) :=
  (t_rxtshift tp, t_rxtcur tp, (t_srtt tp, t_rttvar tp, t_rttmin tp), t_timer tp !! TCPT_REXMT,
   (t_inpcb tp, t_force tp, t_congctl tp), (flag_set (t_flags tp) TF_DEAD, flag_set (t_flags tp) TF_PMTUD_PEND)).

(** The errors in [err] may be noted by [tcp_output]. *)
Definition rexmt_kept (err : list Z) (tp tp' : tcpcb) : Prop :=
  rexmt_view tp' = rexmt_view tp /\ (t_softerror tp' = t_softerror tp \/ t_softerror tp' ∈ err).

Definition output_retransmits (err : list Z) (tcp_output : tcpcb -> tcpcb) : Prop :=
  forall tp, rexmt_ready tp -> rexmt_kept err tp (tcp_output tp).

(** The timer of a connection fires: DPDK calls the callout's wrapper,
    which marks it and calls the handler. *)
Definition fire (tp : tcpcb) (i : nat) : tcpcb :=
  tp <| t_timer := alter (fun co => fst (wrapper_func (co <| timer := None |>))) i (t_timer tp) |>.

Definition rexmt_fires (tcp_output : tcpcb -> tcpcb) (g : sack_globals) (tp : tcpcb) :=
  tcp_timer_rexmt timer_hz hz tcp_output g (fire tp TCPT_REXMT).

Lemma fire_expired tp : rexmt_live tp -> timer_expired (fire tp TCPT_REXMT) TCPT_REXMT = true.
Proof.
  intros [_ _ _ _ _ _ _ (co & f & E & F) _ _]. unfold timer_expired, fire. upd_simpl.
  rewrite list_lookup_alter, E. simpl. unfold wrapper_func. upd_simpl. rewrite F. simpl.
  unfold callout_expired. upd_simpl. flag_bits. done.
Qed.

(** The control block after [tcp_free_sackholes] differs in the
    scoreboard only. *)
Lemma free_sackholes_frame g tp : exists n,
  snd (tcp_free_sackholes g tp) = tp <| snd_holes := [] |> <| snd_numholes := n |>.
Proof.
  unfold tcp_free_sackholes. remember (snd_holes tp) as l eqn:E. revert g tp E.
  induction l as [|h l IH]; intros g tp E; simpl.
  - exists (snd_numholes tp). destruct tp. simpl in *. by subst.
  - unfold sack_removehole. rewrite <- E. simpl.
    match goal with |- context [free_sackholes_loop ?g ?t l] =>
      destruct (IH g t) as (n & ->); [by upd_simpl|] end. exists n. by destruct tp.
Qed.

Lemma u32_rexmtval tp : 0 <= t_srtt tp < 2 ^ 20 -> 0 <= t_rttvar tp < 2 ^ 24 ->
  u32 (TCP_REXMTVAL tp) = (t_srtt tp / 8 + t_rttvar tp) / 4 /\
  0 <= (t_srtt tp / 8 + t_rttvar tp) / 4 < 2 ^ 23.
Proof.
  intros S V. unfold TCP_REXMTVAL. rewrite !Z.shiftr_div_pow2 by (unfold TCP_RTT_SHIFT; lia).
  change (2 ^ TCP_RTT_SHIFT) with 8. change (2 ^ 2) with 4.
  assert (0 <= t_srtt tp / 8 < 2 ^ 17) by (split; [apply Z.div_pos|apply Z.div_lt_upper_bound]; lia).
  rewrite s32_small by lia.
  assert (0 <= (t_srtt tp / 8 + t_rttvar tp) / 4 < 2 ^ 23)
    by (split; [apply Z.div_pos|apply Z.div_lt_upper_bound]; lia).
  rewrite u32_small by lia. done.
Qed.

Lemma TCP_TIMER_ARM_form tp i n co f : t_timer tp !! i = Some co -> c_func co = Some f ->
  exists ts co', TCP_TIMER_ARM timer_hz hz tp i n = tp <| t_timer := ts |> /\
    ts !! i = Some co' /\ c_func co' = Some f /\ callout_pending co' = true /\
    timer co' = Some (callout_cycles timer_hz hz (s32 (n * (hz / PR_SLOWHZ)))).
Proof.
  intros E F. unfold TCP_TIMER_ARM. rewrite E. eexists _, _. split; [done|].
  rewrite list_lookup_insert_eq by (by eapply lookup_lt_Some). split; [done|].
  unfold callout_schedule, callout_pending. upd_simpl. split; [done|]. flag_bits. done.
Qed.

Lemma slow_retransmit_of_form tcp_output tp : is_Some (t_congctl tp) -> exists c s,
  slow_retransmit_of tcp_output tp =
    tp <| snd_cwnd := c |> <| snd_ssthresh := s |> <| t_partialacks := -1 |>
       <| t_dupacks := 0 |> <| t_bytes_acked := 0 |>.
Proof.
  intros [a E]. unfold slow_retransmit_of. rewrite E. destruct a; simpl; unfold tcp_reno_slow_retransmit; by eexists _, _.
Qed.

(** Moving [srtt] into [rttvar] keeps the retransmission interval. *)
Lemma rexmt_losing_form tp : 0 <= t_srtt tp < 2 ^ 20 -> 0 <= t_rttvar tp < 2 ^ 24 ->
  exists md st rv calls, rexmt_losing tp =
      (tp <| t_mtudisc := md |> <| t_rttvar := rv |> <| t_srtt := st |>, calls) /\
    (st = t_srtt tp /\ rv = t_rttvar tp /\ calls = [] \/
     st = 0 /\ rv = t_rttvar tp + t_srtt tp / 8 /\ calls = if t_inpcb tp then [CallInLosing] else []).
Proof.
  intros S V. unfold rexmt_losing.
  set (tp1 := if _ && _ then _ else tp).
  assert (exists md, tp1 = tp <| t_mtudisc := md |>) as [md E].
  { unfold tp1. destruct (_ && _); [destruct (t_inpcb tp); [by eexists|]|];
      exists (t_mtudisc tp); by destruct tp. }
  clearbody tp1. subst tp1. upd_simpl. change (Z.shiftr ?x TCP_RTT_SHIFT) with (Z.shiftr x 3).
  rewrite Z.shiftr_div_pow2 by lia. change (2 ^ 3) with 8.
  assert (0 <= t_srtt tp / 8 < 2 ^ 17) by (split; [apply Z.div_pos|apply Z.div_lt_upper_bound]; lia).
  rewrite s32_small by lia. destruct (_ <? _).
  - eexists md, 0, _, _. split; [reflexivity|]. by right.
  - exists md, (t_srtt tp), (t_rttvar tp), []. split; [by destruct tp|]. by left.
Qed.

(** The interval of the [n]th retransmission. *)
Definition rexmt_interval (tp : tcpcb) (shift : Z) : Z :=
  TCPT_RANGESET (timer_rto tp * backoff shift) (t_rttmin tp) TCPTV_REXMTMAX.

Lemma timer_rto_range tp : 0 <= t_srtt tp < 2 ^ 20 -> 0 <= t_rttvar tp < 2 ^ 24 ->
  0 < t_rttmin tp <= TCPTV_REXMTMAX -> 0 < timer_rto tp < 2 ^ 23.
Proof.
  unfold TCPTV_REXMTMAX, PR_SLOWHZ. intros S V M. destruct (u32_rexmtval tp S V) as [E R].
  unfold timer_rto. rewrite E. zcase; lia.
Qed.

Lemma rexmt_live_rttvar tp : rexmt_live tp -> 0 <= t_rttvar tp < 2 ^ 24.
Proof.
  intros [_ _ _ _ S V _ _ _ _]. assert (0 <= t_srtt tp / 8) by (apply Z.div_pos; lia). lia.
Qed.

Lemma timer_rto_ext tp tp' :
  0 <= t_srtt tp < 2 ^ 20 -> 0 <= t_rttvar tp < 2 ^ 24 ->
  0 <= t_srtt tp' < 2 ^ 20 -> 0 <= t_rttvar tp' < 2 ^ 24 -> t_rttmin tp' = t_rttmin tp ->
  t_srtt tp' / 8 + t_rttvar tp' = t_srtt tp / 8 + t_rttvar tp -> timer_rto tp' = timer_rto tp.
Proof.
  intros S V S' V' M E. unfold timer_rto.
  rewrite (proj1 (u32_rexmtval tp S V)), (proj1 (u32_rexmtval tp' S' V')), E, M. done.
Qed.

Lemma tcpcb_flags_id tp : tp = tp <| t_flags := t_flags tp |>.
Proof. by destruct tp. Qed.

Lemma rexmt_fires_step err tcp_output g tp : output_retransmits err tcp_output -> rexmt_live tp -> t_rxtshift tp < 12 ->
  exists g' tp' calls, rexmt_fires tcp_output g tp = (g', Some tp', calls ++ [CallOutput]) /\
    rexmt_live tp' /\ t_rxtshift tp' = t_rxtshift tp + 1 /\
    t_rxtcur tp' = rexmt_interval tp (t_rxtshift tp + 1) /\
    timer_rto tp' = timer_rto tp /\ t_rttmin tp' = t_rttmin tp /\
    (t_softerror tp' = t_softerror tp \/ t_softerror tp' ∈ err) /\
    (exists co, t_timer tp' !! TCPT_REXMT = Some co /\ callout_pending co = true /\
      timer co = Some (callout_cycles timer_hz hz (s32 (t_rxtcur tp' * (hz / PR_SLOWHZ))))).
Proof.
  intros Out L Sh. pose proof (rexmt_live_rttvar tp L) as V'.
  unfold rexmt_fires, tcp_timer_rexmt. rewrite fire_expired by done.
  pose proof L as [Dd Pm In S Sr V Mn (co & f & Eco & Ef) Fo Cc].
  change (t_flags (fire tp TCPT_REXMT)) with (t_flags tp). rewrite Dd, Pm. simpl.
  destruct (tcp_free_sackholes g (fire tp TCPT_REXMT)) as [g1 tp1] eqn:Fr.
  destruct (free_sackholes_frame g (fire tp TCPT_REXMT)) as (nh & E1).
  rewrite Fr in E1. simpl in E1. subst tp1. clear Fr. unfold fire. upd_simpl.
  rewrite s16_small by lia.
  destruct (Z.ltb_spec TCP_MAXRXTSHIFT (t_rxtshift tp + 1)) as [B|B];
    [unfold TCP_MAXRXTSHIFT in B; lia|]. clear B.
  match goal with |- context [TCP_TIMER_ARM _ _ (set t_rxtcur (fun _ => ?c) ?t)] => set (cur := c); set (t1 := t) end.
  assert (cur = rexmt_interval tp (t_rxtshift tp + 1)) as Ecur.
  { unfold cur, rexmt_interval. pose proof (timer_rto_range tp Sr V' Mn).
    pose proof (backoff_range (t_rxtshift tp + 1) ltac:(lia)).
    change (timer_rto _) with (timer_rto tp). rewrite u32_small by nia. done. }
  clearbody cur.
  destruct (TCP_TIMER_ARM_form (t1 <| t_rxtcur := cur |>) TCPT_REXMT cur
    (fst (wrapper_func (co <| timer := None |>))) f) as (ts & co' & -> & Ets & Ef' & Pd & Tm).
  { unfold t1. upd_simpl. rewrite list_lookup_alter, Eco. done. }
  { unfold wrapper_func. upd_simpl. rewrite Ef. done. }
  destruct (rexmt_losing_form (t1 <| t_rxtcur := cur |> <| t_timer := ts |>))
    as (md & st & rv & calls & -> & C); [unfold t1; upd_simpl; done..|].
  assert (st = t_srtt tp /\ rv = t_rttvar tp \/ st = 0 /\ rv = t_rttvar tp + t_srtt tp / 8) as C'.
  { unfold t1 in C. revert C. upd_simpl. tauto. }
  clear C. set (t2 := if _ =? TCPS_SYN_SENT then _ else _).
  assert (exists fl, t2 = t1 <| t_rxtcur := cur |> <| t_timer := ts |> <| t_mtudisc := md |>
    <| t_rttvar := rv |> <| t_srtt := st |> <| snd_nxt := snd_una tp |>
    <| snd_high := snd_max tp |> <| t_rtttime := 0 |> <| t_flags := fl |> /\
    flag_set fl TF_DEAD = false /\ flag_set fl TF_PMTUD_PEND = false) as (fl & E2 & F1 & F2).
  { unfold t2. clear t2. unfold t1. upd_simpl. destruct (_ =? TCPS_SYN_SENT).
    - eexists. split; [reflexivity|]. revert Dd Pm. flag_bits. auto.
    - exists (t_flags tp). split; [|done].
      match goal with |- ?x = _ => rewrite (tcpcb_flags_id x) at 1 end. upd_simpl. done. }
  clearbody t2. subst t2.
  match goal with |- context [slow_retransmit_of _ ?t] =>
    destruct (slow_retransmit_of_form tcp_output t) as (w & ss & ->); [exact Cc|]; set (t2 := t) end.
  match goal with |- context [tcp_output ?t] =>
    destruct (Out t) as [Vw Se]; [|set (tp' := tcp_output t) in *] end.
  { split; unfold t2, t1; upd_simpl; try done. unfold TCP_TIMER_ISARMED. upd_simpl. rewrite Ets. unfold callout_active.
    rewrite flag_set_lor_mask. unfold callout_pending in Pd. by rewrite Pd. }
  unfold rexmt_view, t2, t1 in Vw. unfold t2, t1 in Se. revert Vw Se.
  upd_simpl. clearbody tp'. clear t2 t1. intros [= O1 O2 O3 O4 O5 O6 O7 Of Oc O8 O9] O10.
  assert (0 <= t_srtt tp / 8) by (apply Z.div_pos; lia).
  assert (0 <= t_srtt tp' < 2 ^ 20 /\ 0 <= t_rttvar tp' < 2 ^ 24 /\
    t_srtt tp' / 8 + t_rttvar tp' = t_srtt tp / 8 + t_rttvar tp) as (R1 & R2 & R3).
  { rewrite O3, O4. destruct C' as [[-> ->]|[-> ->]]; [lia|]. rewrite Z.div_0_l by lia. lia. }
  exists g1, tp', calls. split; [done|]. split.
  { split; try congruence; try lia. rewrite O6. eauto. }
  split; [done|]. split; [by rewrite O2|]. split; [by apply timer_rto_ext|].
  split; [done|]. split; [done|]. exists co'. rewrite O6, O2, Tm. done.
Qed.

Lemma rexmt_fires_drop tcp_output g tp : rexmt_live tp -> t_rxtshift tp = 12 ->
  exists g' calls, rexmt_fires tcp_output g tp = (g', None, calls) /\
    CallSoError (if t_softerror tp =? 0 then ETIMEDOUT else t_softerror tp) ∈ calls /\
    CallClose ∈ calls.
Proof.
  intros L Sh. unfold rexmt_fires, tcp_timer_rexmt. rewrite fire_expired by done.
  pose proof L as [Dd Pm In _ _ _ _ _ _ _].
  change (t_flags (fire tp TCPT_REXMT)) with (t_flags tp). rewrite Dd, Pm. simpl.
  destruct (tcp_free_sackholes g (fire tp TCPT_REXMT)) as [g1 tp1] eqn:Fr.
  destruct (free_sackholes_frame g (fire tp TCPT_REXMT)) as (nh & E1).
  rewrite Fr in E1. simpl in E1. subst tp1. clear Fr. unfold fire. upd_simpl.
  rewrite s16_small by lia. rewrite Sh. simpl. unfold tcp_drop. upd_simpl. rewrite In. simpl.
  eexists g1, _. split; [done|].
  destruct (Z.eqb_spec (t_softerror tp) 0) as [E|E]; simpl; rewrite ?andb_true_r, ?andb_false_r.
  - split; apply elem_of_app; right; [left|right; left].
  - assert ((if (t_softerror tp =? ETIMEDOUT) then t_softerror tp else t_softerror tp)
      = t_softerror tp) as -> by (by destruct (_ =? ETIMEDOUT)).
    split; apply elem_of_app; right; [left|right; left].
Qed.

(** The timer fires again and again without an answer from the peer, each time with
    a [tcp_output] of its own; the calls are those of the last firing. *)
Fixpoint rexmt_rounds (outs : list (tcpcb -> tcpcb)) (g : sack_globals) (tp : tcpcb)
    : option tcpcb * list timer_call :=
  match outs with
  | [] => (Some tp, [])
  | out :: outs =>
      match rexmt_fires out g tp with
      | (_, None, calls) => (None, calls)
      | (g, Some tp, calls) => match outs with [] => (Some tp, calls) | _ => rexmt_rounds outs g tp end
      end
  end.

Lemma rexmt_rounds_step out outs g tp g' tp' calls :
  rexmt_fires out g tp = (g', Some tp', calls) -> outs <> [] ->
  rexmt_rounds (out :: outs) g tp = rexmt_rounds outs g' tp'.
Proof. intros E N. simpl rexmt_rounds at 1. rewrite E. destruct outs; [done|]. done. Qed.

Lemma rexmt_rounds_spec err outs : Forall (output_retransmits err) outs -> forall g tp, rexmt_live tp ->
  let s := t_rxtshift tp in
  let n := Z.of_nat (length outs) in
  (0 < n <= 12 - s ->
   exists tp' calls co, rexmt_rounds outs g tp = (Some tp', calls ++ [CallOutput]) /\
     t_rxtshift tp' = s + n /\ t_rxtcur tp' = rexmt_interval tp (s + n) /\
     t_timer tp' !! TCPT_REXMT = Some co /\ callout_pending co = true /\
     timer co = Some (callout_cycles timer_hz hz (s32 (t_rxtcur tp' * (hz / PR_SLOWHZ))))) /\
  (n = 13 - s ->
   exists calls soft, rexmt_rounds outs g tp = (None, calls) /\ CallClose ∈ calls /\
     (soft = t_softerror tp \/ soft ∈ err) /\ CallSoError (if soft =? 0 then ETIMEDOUT else soft) ∈ calls).
Proof.
  induction 1 as [|out outs Out _ IH]; intros g tp L s n.
  { pose proof (live_shift _ L). subst n s. simpl. split; lia. }
  pose proof (live_shift _ L) as S. subst n. simpl length. destruct (Z.eq_dec s 12) as [E|E].
  { split; [lia|]. intros Hn. destruct (rexmt_fires_drop out g tp L E) as (g' & calls & F & C1 & C2).
    exists calls, (t_softerror tp). simpl. rewrite F. split; [done|]. split; [done|]. split; [by left|done]. }
  destruct (rexmt_fires_step err out g tp Out L ltac:(lia))
    as (g' & tp' & calls & F & L' & Sh & Cur & Rto & Min & Se & co & Tm).
  destruct outs as [|out2 outs].
  { split; [|simpl; lia]. intros _. exists tp', calls, co. simpl. rewrite F. rewrite Sh, Cur in *. done. }
  rewrite (rexmt_rounds_step _ _ _ _ _ _ _ F) by done.
  destruct (IH g' tp' L') as [IH1 IH2]. rewrite Sh in IH1, IH2. simpl length in *. split.
  - intros Hn. destruct IH1 as (tp'' & calls' & co' & R & S'' & C'' & T''); [lia|].
    exists tp'', calls', co'. split; [done|].
    replace (s + Z.of_nat (Datatypes.S (Datatypes.S (length outs)))) with (t_rxtshift tp + 1 + Z.of_nat (Datatypes.S (length outs))) by lia.
    split; [done|]. split; [|done]. rewrite C''. unfold rexmt_interval. by rewrite Rto, Min.
  - intros Hn. destruct IH2 as (calls' & soft & R & C1 & So & C2); [lia|]. exists calls', soft.
    split; [done|]. split; [done|]. split; [|done]. destruct So as [->|?]; [done|by right].
Qed.

(** Successive retransmission intervals never shrink and stay within
    the connection's minimum and TCPTV_REXMTMAX. *)
Theorem rexmt_interval_monotone tp s :
  rexmt_live tp -> 0 <= s <= 11 ->
  t_rttmin tp <= rexmt_interval tp s <= rexmt_interval tp (s + 1) /\
  rexmt_interval tp (s + 1) <= TCPTV_REXMTMAX.
Proof.
  intros L S. pose proof (rexmt_live_rttvar tp L). destruct L as [_ _ _ _ Sr V Mn _ _ _].
  pose proof (timer_rto_range tp Sr ltac:(lia) Mn). pose proof (backoff_le s S).
  pose proof (TCPT_RANGESET_range (timer_rto tp * backoff s) (t_rttmin tp) TCPTV_REXMTMAX ltac:(lia)).
  pose proof (TCPT_RANGESET_range (timer_rto tp * backoff (s + 1)) (t_rttmin tp) TCPTV_REXMTMAX
    ltac:(lia)).
  pose proof (TCPT_RANGESET_le (timer_rto tp * backoff s) (timer_rto tp * backoff (s + 1))
    (t_rttmin tp) TCPTV_REXMTMAX ltac:(nia)).
  unfold rexmt_interval. lia.
Qed.
End rexmt.

(** An open connection with an estimate of two ticks. *)
Definition ex_rexmt : tcpcb :=
  tcpcb_zero <| t_state := TCPS_ESTABLISHED |> <| t_rttmin := 2 |> <| t_srtt := 64 |>
    <| t_rttvar := 16 |> <| t_segsz := 1460 |> <| t_congctl := Some tcp_newreno_ctl |>
    <| t_timer := replicate 4 (mkCallout None (Some 1) None 0 0) |>.

Lemma ex_rexmt_live : rexmt_live ex_rexmt.
Proof.
  split; try reflexivity; try (vm_compute; split; congruence).
  - exists (mkCallout None (Some 1) None 0 0), 1. split; reflexivity.
  - by eexists.
Defined.

Lemma rexmt_interval_monotone_witness :
  2 <= rexmt_interval ex_rexmt 4 <= rexmt_interval ex_rexmt 5 /\
  rexmt_interval ex_rexmt 5 <= TCPTV_REXMTMAX.
Proof. apply (rexmt_interval_monotone ex_rexmt 4 ex_rexmt_live). lia. Defined.

(** ** The estimator *)

(** The estimator in range: [srtt] and [rttvar] below 2^20, that is
    below nine hours. *)
Definition rtt_ok (tp : tcpcb) : Prop :=
  0 <= t_srtt tp < 2 ^ 20 /\ 0 <= t_rttvar tp < 2 ^ 20.

(** The weighted averages of RFC 2988, in the fixed point of the code. *)
Definition srtt_average (tp : tcpcb) (rtt : Z) : Z := t_srtt tp - t_srtt tp / 8 + 4 * rtt.
Definition rttvar_average (tp : tcpcb) (rtt : Z) : Z :=
  t_rttvar tp - t_rttvar tp / 4 + Z.abs (4 * rtt - t_srtt tp / 8).

Lemma xmit_timer_update msl tp rtt : rtt_ok tp -> t_srtt tp <> 0 -> 0 <= rtt < 2 ^ 14 ->
  let tp' := tcp_xmit_timer msl tp rtt in
  t_srtt tp' = (if srtt_average tp rtt <=? 0 then 4 else srtt_average tp rtt) /\
  t_rttvar tp' = (if rttvar_average tp rtt <=? 0 then 4 else rttvar_average tp rtt).
Proof.
  intros [S V] N R. destruct msl as [[en th] rem]. unfold tcp_xmit_timer.
  destruct (Z.eqb_spec (t_srtt tp) 0); [done|]. simpl negb. cbv iota.
  change (Z.shiftr ?x TCP_RTT_SHIFT) with (Z.shiftr x 3).
  change (Z.shiftr ?x TCP_RTTVAR_SHIFT) with (Z.shiftr x 2).
  rewrite !Z.shiftr_div_pow2, !Z.shiftl_mul_pow2 by lia.
  change (2 ^ 3) with 8. change (1 * 2 ^ 2) with 4. change (2 ^ 2) with 4.
  assert (0 <= t_srtt tp / 8 < 2 ^ 17) by (split; [apply Z.div_pos|apply Z.div_lt_upper_bound]; lia).
  assert (0 <= t_rttvar tp / 4 < 2 ^ 18) by (split; [apply Z.div_pos|apply Z.div_lt_upper_bound]; lia).
  rewrite (u32_small (rtt * 4)) by lia. rewrite (s32_small (rtt * 4 - _)) by lia.
  set (d := rtt * 4 - t_srtt tp / 8).
  assert ((if d <? 0 then s32 (- d) else d) = Z.abs d) as -> by (zcase; rewrite ?s32_small by lia; lia).
  rewrite (s32_small (t_srtt tp + _)), (s32_small (Z.abs d - _)), (s32_small (t_rttvar tp + _)) by lia.
  assert (srtt_average tp rtt = t_srtt tp + d) as -> by (unfold srtt_average, d; lia).
  assert (rttvar_average tp rtt = t_rttvar tp + (Z.abs d - t_rttvar tp / 4)) as ->
    by (unfold rttvar_average, d; lia).
  set (a := if t_srtt tp + d <=? 0 then _ else _).
  set (b := if t_rttvar tp + _ <=? 0 then _ else _). clearbody a b. cbv zeta.
  destruct (_ && _); upd_simpl; done.
Qed.

Lemma xmit_timer_first msl tp rtt : t_srtt tp = 0 -> 0 <= rtt < 2 ^ 14 ->
  t_srtt (tcp_xmit_timer msl tp rtt) = 32 * rtt /\
  t_rttvar (tcp_xmit_timer msl tp rtt) = 8 * rtt.
Proof.
  intros E R. destruct msl as [[en th] rem]. unfold tcp_xmit_timer. rewrite E. simpl negb. cbv iota zeta.
  upd_simpl. change (TCP_RTT_SHIFT + 2) with 5. change (TCP_RTTVAR_SHIFT + 2 - 1) with 3.
  rewrite !Z.shiftl_mul_pow2, !s32_small by lia. lia.
Qed.

Lemma xmit_timer_reset msl tp rtt : 0 <= rtt < 2 ^ 14 -> 0 <= t_rttmin tp < 2 ^ 32 ->
  let tp' := tcp_xmit_timer msl tp rtt in
  t_rxtshift tp' = 0 /\ t_softerror tp' = 0 /\
  Z.min TCPTV_REXMTMAX (Z.max (t_rttmin tp) (rtt + 2)) <= t_rxtcur tp' <= TCPTV_REXMTMAX.
Proof.
  intros R M. destruct msl as [[en th] rem]. unfold tcp_xmit_timer.
  set (t1 := if negb _ then _ else _).
  assert (t_rttmin t1 = t_rttmin tp) as Em.
  { unfold t1. cbv zeta. destruct (negb _); [destruct (_ && _)|]; upd_simpl; done. }
  clearbody t1. cbv zeta. upd_simpl. rewrite Em. split; [done|]. split; [done|].
  unfold umax. rewrite (u32_small (t_rttmin tp)), (u32_small (rtt + 2)) by lia. unfold TCPT_RANGESET.
  set (v := TCP_REXMTVAL _). clearbody v. set (lo := Z.max _ _).
  destruct (Z.ltb_spec (u32 v) lo); zcase; lia.
Qed.

(** The round-trip time estimator computes the averages of RFC 2988
    without overflow, stays in range, clears the backoff, and sets a
    retransmission interval of at least the connection's minimum and the
    measured time plus two ticks (up to TCPTV_REXMTMAX). *)
Theorem tcp_xmit_timer_estimates msl tp rtt :
  rtt_ok tp -> 0 <= rtt < 2 ^ 14 -> 0 <= t_rttmin tp < 2 ^ 32 ->
  let tp' := tcp_xmit_timer msl tp rtt in
  rtt_ok tp' /\ t_rxtshift tp' = 0 /\ t_softerror tp' = 0 /\
  Z.min TCPTV_REXMTMAX (Z.max (t_rttmin tp) (rtt + 2)) <= t_rxtcur tp' <= TCPTV_REXMTMAX /\
  (t_srtt tp = 0 -> t_srtt tp' = 32 * rtt /\ t_rttvar tp' = 8 * rtt) /\
  (t_srtt tp <> 0 -> 0 < srtt_average tp rtt -> t_srtt tp' = srtt_average tp rtt) /\
  (t_srtt tp <> 0 -> 0 < rttvar_average tp rtt -> t_rttvar tp' = rttvar_average tp rtt).
Proof.
  intros O R M tp'.
  assert (t_rxtshift tp' = 0 /\ t_softerror tp' = 0 /\
    Z.min TCPTV_REXMTMAX (Z.max (t_rttmin tp) (rtt + 2)) <= t_rxtcur tp' <= TCPTV_REXMTMAX)
    as (A1 & A2 & A3) by (by apply xmit_timer_reset).
  destruct (Z.eq_dec (t_srtt tp) 0) as [E|E].
  - assert (t_srtt tp' = 32 * rtt /\ t_rttvar tp' = 8 * rtt) as [E1 E2]
      by (by apply xmit_timer_first).
    unfold rtt_ok. rewrite E1, E2. repeat split; try done; try lia.
  - destruct (xmit_timer_update msl tp rtt O E R) as [E1 E2]. fold tp' in E1, E2.
    assert (rtt_ok tp').
    { destruct O as [S V]. unfold rtt_ok. rewrite E1, E2. unfold srtt_average, rttvar_average.
      assert (t_srtt tp / 8 <= t_srtt tp) by (apply Z.div_le_upper_bound; lia).
      assert (0 <= t_srtt tp / 8) by (apply Z.div_pos; lia).
      assert (t_rttvar tp - 4 * (t_rttvar tp / 4) <= 3 /\ t_srtt tp - 8 * (t_srtt tp / 8) <= 7)
        by (pose proof (Z.mod_pos_bound (t_rttvar tp) 4); pose proof (Z.mod_pos_bound (t_srtt tp) 8);
            pose proof (Z.div_mod (t_rttvar tp) 4); pose proof (Z.div_mod (t_srtt tp) 8); lia).
      pose proof (Z.mul_div_le (t_srtt tp) 8). pose proof (Z.mul_div_le (t_rttvar tp) 4).
      repeat zcase; lia. }
    split; [done|]. split; [done|]. split; [done|]. split; [done|]. split; [done|].
    split; intros _ P; rewrite ?E1, ?E2; zcase; lia.
Qed.

Lemma tcp_xmit_timer_estimates_witness :
  let tp' := tcp_xmit_timer (false, 0, 0) ex_rexmt 3 in
  t_srtt tp' = srtt_average ex_rexmt 3 /\ 2 <= t_rxtcur tp' <= TCPTV_REXMTMAX.
Proof.
  destruct (tcp_xmit_timer_estimates (false, 0, 0) ex_rexmt 3) as (_ & _ & _ & B & _ & A & _);
    [vm_compute; repeat split; congruence|lia|vm_compute; split; congruence|].
  split; [apply A; [discriminate|reflexivity]|]. split; [|apply B].
  etransitivity; [|apply B]. vm_compute. discriminate.
Defined.

(** ** Persistence and the other timers *)

Section others.
Context (timer_hz hz : Z).

(** [tcp_setpersist] refuses exactly when the retransmission timer is
    armed (its panic); otherwise it arms the persist timer for 5 to 60
    seconds and keeps the backoff within its table. *)
Theorem tcp_setpersist_bounds tp :
  0 <= t_rxtshift tp <= TCP_MAXRXTSHIFT ->
  (exists co f, t_timer tp !! TCPT_PERSIST = Some co /\ c_func co = Some f) ->
  match tcp_setpersist timer_hz hz tp with
  | None => TCP_TIMER_ISARMED tp TCPT_REXMT = true
  | Some tp' =>
      TCP_TIMER_ISARMED tp TCPT_REXMT = false /\
      t_rxtshift tp' = Z.min TCP_MAXRXTSHIFT (t_rxtshift tp + 1) /\
      exists n co, TCPTV_PERSMIN <= n <= TCPTV_PERSMAX /\
        t_timer tp' !! TCPT_PERSIST = Some co /\ callout_pending co = true /\
        timer co = Some (callout_cycles timer_hz hz (s32 (n * (hz / PR_SLOWHZ))))
  end.
Proof.
  intros S (co & f & E & F). unfold tcp_setpersist.
  destruct (TCP_TIMER_ISARMED tp TCPT_REXMT); [done|]. cbv zeta.
  set (n := TCPT_RANGESET _ _ _).
  assert (TCPTV_PERSMIN <= n <= TCPTV_PERSMAX) as Hn by (apply TCPT_RANGESET_range; done).
  clearbody n. destruct (TCP_TIMER_ARM_form timer_hz hz tp TCPT_PERSIST n co f E F)
    as (ts & co' & -> & E' & _ & P & T). upd_simpl.
  unfold TCP_MAXRXTSHIFT in *. split; [done|].
  destruct (Z.ltb_spec (t_rxtshift tp) 12); upd_simpl; (split; [lia|]); exists n, co'; done.
Qed.

(** [tcp_canceltimers] leaves no timer of the connection active. *)
Theorem tcp_canceltimers_all tp i co :
  length (t_timer tp) = TCPT_NTIMERS ->
  t_timer (tcp_canceltimers tp) !! i = Some co -> callout_active co = false.
Proof.
  unfold tcp_canceltimers. intros L. simpl foldl.
  assert (forall tp j, length (t_timer (TCP_TIMER_DISARM tp j)) = length (t_timer tp)) as Ln.
  { intros t j. unfold TCP_TIMER_DISARM. destruct (t_timer t !! j); [|done]. upd_simpl.
    by rewrite length_insert. }
  assert (forall (ks : list nat) tp, (forall j co, j ∉ ks -> t_timer tp !! j = Some co ->
      callout_active co = false) ->
    forall co, t_timer (foldl TCP_TIMER_DISARM tp ks) !! i = Some co -> callout_active co = false) as G.
  { clear. intros ks. induction ks as [|k ks IH]; simpl; intros tp H co.
    - apply H. apply not_elem_of_nil.
    - apply IH. intros j c Hj. destruct (TCP_TIMER_DISARM_spec tp k) as (ts & -> & A & B). upd_simpl.
      destruct (decide (j = k)) as [->|N]; [apply A|]. rewrite B by done. apply H.
      apply not_elem_of_cons. done. }
  apply (G (seq 0 TCPT_NTIMERS) tp). intros j c Hj Hc. exfalso. apply Hj.
  apply lookup_lt_Some in Hc. apply elem_of_seq. lia.
Qed.

(** The keep-alive timer closes a connection that was never
    established or has been idle for the probing period, probes an idle
    one with the sequence number before [snd_una], and otherwise only
    rearms. *)
Theorem tcp_timer_keep_cases tg compat so_options tp :
  flag_set (t_flags tp) TF_DEAD = false -> timer_expired tp TCPT_KEEP = true ->
  t_inpcb tp = true ->
  let idle := u32 (tcp_now tg - t_rcvtime tp) in
  let probing := flag_set so_options SO_KEEPALIVE && (t_state tp <=? TCPS_CLOSE_WAIT) in
  let '(r, calls) := tcp_timer_keep timer_hz hz tg compat so_options tp in
  (r = None <->
    t_state tp < TCPS_ESTABLISHED \/
    probing = true /\ 0 < t_maxidle tp /\ u32 (t_keepidle tp + t_maxidle tp) <= idle) /\
  (r = None -> CallClose ∈ calls) /\
  (r <> None -> calls = if probing
    then [CallRespond (if compat then u32 (rcv_nxt tp - 1) else rcv_nxt tp) (u32 (snd_una tp - 1))]
    else []).
Proof.
  intros D X In. unfold tcp_timer_keep, TCPS_HAVEESTABLISHED. rewrite D, X. simpl negb. cbv iota.
  assert (forall e, CallClose ∈ tcp_drop tp e) as Dr.
  { intros e. unfold tcp_drop. rewrite In. simpl. apply elem_of_app. right. right. left. }
  destruct (Z.leb_spec TCPS_ESTABLISHED (t_state tp)) as [H|H]; simpl negb; cbv iota zeta.
  2:{ split; [split; [by left|done]|]. split; [done|done]. }
  destruct (_ && _) eqn:P.
  - destruct (Z.ltb_spec 0 (t_maxidle tp)); simpl andb; cbv iota.
    + destruct (Z.leb_spec (u32 (t_keepidle tp + t_maxidle tp)) (u32 (tcp_now tg - t_rcvtime tp)));
        cbv iota; (split; [split; [intros ?; try done; right; done|intros [?|(_ & _ & ?)]; try done; lia]|]);
        split; done.
    + split; [split; [done|intros [?|(_ & ? & _)]; lia]|]. split; done.
  - split; [split; [done|intros [?|(? & _)]; [lia|congruence]]|]. split; done.
Qed.
End others.

Lemma tcp_setpersist_bounds_witness :
  exists tp', tcp_setpersist 2000000 1000 ex_rexmt = Some tp' /\ t_rxtshift tp' = 1 /\
    exists n, TCPTV_PERSMIN <= n <= TCPTV_PERSMAX.
Proof.
  pose proof (tcp_setpersist_bounds 2000000 1000 ex_rexmt ltac:(vm_compute; split; congruence)
    ltac:(exists (mkCallout None (Some 1) None 0 0), 1; split; reflexivity)) as H.
  destruct (tcp_setpersist 2000000 1000 ex_rexmt) as [tp'|]; [|discriminate].
  destruct H as (_ & S & n & co & N & _). exists tp'. split; [reflexivity|].
  split; [exact S|]. exists n. exact N.
Defined.

Lemma tcp_canceltimers_all_witness :
  callout_active (callout_stop (mkCallout None (Some 1) None 0 0)) = false.
Proof. apply (tcp_canceltimers_all ex_rexmt TCPT_KEEP); reflexivity. Defined.

Definition ex_keep : tcpcb :=
  ex_rexmt <| t_timer := replicate 4 (mkCallout None (Some 1) None 0 CALLOUT_FIRED) |>
    <| t_maxidle := 1200 |> <| t_keepidle := 14400 |> <| t_keepintvl := 150 |>.

Lemma tcp_timer_keep_cases_witness :
  let '(r, calls) := tcp_timer_keep 2000000 1000
    (mkTimerGlobals 150 14400 150 8 14400 200 0 20000) false SO_KEEPALIVE ex_keep in
  r = None -> CallClose ∈ calls.
Proof.
  pose proof (tcp_timer_keep_cases 2000000 1000 (mkTimerGlobals 150 14400 150 8 14400 200 0 20000)
    false SO_KEEPALIVE ex_keep eq_refl eq_refl eq_refl) as H.
  destruct (tcp_timer_keep _ _ _ _ _ _) as [r calls]. apply H.
Defined.
