(* ===== verification/Mbuf.v ===== *)
(** * Mbufs (src/netbsd/porting/mbuf/uipc_mbuf.c, special_includes/sys/mbuf.h)

    The port keeps NetBSD's chains of [struct mbuf] but puts the data in
    DPDK buffers: [m_data] points into a buffer that several mbufs may
    share, and [m_paddr] is the handle that holds a reference to it.  The
    store is explicit: a map from addresses to live mbufs, the DPDK
    buffers with their reference counts, and the three pools.  Every
    operation is a function of the store that fails ([None]) where the
    code panics, exits or would touch memory that is not a live mbuf. *)

From S2P Require Import Prelude Pool.

Definition M_EXT : Z := 0x00001.
Definition M_PKTHDR : Z := 0x00002.
Definition M_EOR : Z := 0x00004.
(** M_PKTHDR, M_EOR, M_BCAST, M_MCAST, M_CANFASTFWD, M_ANYCAST6, M_LINK0..2,
    M_AUTHIPHDR, M_DECRYPTED, M_LOOP, M_AUTHIPDGM *)
Definition M_COPYFLAGS : Z := 0x07ff6.
Definition MT_DATA : Z := 1.
Definition MT_SONAME : Z := 3.
Definition MT_CONTROL : Z := 6.
Definition MT_OOBDATA : Z := 7.
Definition M_COPYALL : Z := 1000000000.
Definition MSIZE : Z := 2048.
Definition MLEN : Z := MSIZE.
Definition MHLEN : Z := MSIZE.
Definition RTE_PKTMBUF_HEADROOM : Z := 128.

(** A handle of DPDK: a buffer of its own, or a clone attached to one. *)
Inductive rte := Direct (b : addr) | Indirect (hdl b : addr).

Definition rte_buf (r : rte) : addr := match r with Direct b => b | Indirect _ b => b end.

(** A data pointer: an offset in a buffer, or in a [struct mbuf] itself. *)
Inductive dataptr := InBuf (b : addr) (o : Z) | InMbuf (a : addr) (o : Z).

Definition ptr_add (p : dataptr) (off : Z) : dataptr :=
  match p with InBuf b o => InBuf b (o + off) | InMbuf a o => InMbuf a (o + off) end.

(** [m_pktdat] shares its storage with [m_ext_ref]. *)
Record mbuf := mkMbuf {
  m_next : option addr;
  m_nextpkt : option addr;
  m_data : option dataptr;
  m_len : Z;
  m_flags : Z;
  m_paddr : option rte;
  m_type : Z;
  m_pkthdr_len : Z;
  m_pktdat : option dataptr
}.

#[export] Instance eta_mbuf : EtaRecord mbuf :=
  fun r => mkMbuf (m_next r) (m_nextpkt r) (m_data r) (m_len r) (m_flags r) (m_paddr r)
    (m_type r) (m_pkthdr_len r) (m_pktdat r).

Record rtebuf := mkRtebuf { buf_bytes : list Z; buf_refcnt : Z }.

#[export] Instance eta_rtebuf : EtaRecord rtebuf := fun r => mkRtebuf (buf_bytes r) (buf_refcnt r).

(** [mb_stale] is what the mbufs in the pool still hold. *)
Record mstate := mkMstate {
  mbufs : gmap addr mbuf;
  mb_stale : gmap addr mbuf;
  mb_cache : pool;
  bufs : gmap addr rtebuf;
  mb_data : pool;
  mcl_cache : pool
}.

#[export] Instance eta_mstate : EtaRecord mstate :=
  fun r => mkMstate (mbufs r) (mb_stale r) (mb_cache r) (bufs r) (mb_data r) (mcl_cache r).

(** ** A state and error monad *)

Definition M (A : Type) : Type := mstate -> option (A * mstate).

#[export] Instance M_ret : MRet M := fun A x st => Some (x, st).
#[export] Instance M_bind : MBind M := fun A B f m st =>
  match m st with Some (x, st) => f x st | None => None end.

Definition fail {A} : M A := fun _ => None.

Definition load (a : addr) : M mbuf := fun st =>
  match mbufs st !! a with Some m => Some (m, st) | None => None end.

Definition deref (p : option addr) : M mbuf :=
  match p with Some a => load a | None => fail end.

(** [a->field = ...] *)
Definition update (a : addr) (f : mbuf -> mbuf) : M unit := fun st =>
  match mbufs st !! a with
  | Some m => Some (tt, st <| mbufs := <[a := f m]> (mbufs st) |>)
  | None => None
  end.

(** The length of the longest chain, as fuel for a loop over one. *)
Definition chain_fuel (st : mstate) : nat := S (size (mbufs st)).
Definition with_fuel {A} (k : nat -> M A) : M A := fun st => k (chain_fuel st) st.

(** [m_data + off] *)
Definition data_add (p : option dataptr) (off : Z) : option dataptr :=
  match p with Some p => Some (ptr_add p off) | None => None end.

(** [memcpy] of [n] bytes from [p]. *)
Definition read_bytes (p : option dataptr) (n : Z) : M (list Z) := fun st =>
  if n =? 0 then Some ([], st)
  else
    match p with
    | Some (InBuf b o) =>
        match bufs st !! b with
        | Some rb => Some (take (Z.to_nat n) (drop (Z.to_nat o) (buf_bytes rb)), st)
        | None => None
        end
    | _ => None
    end.

(** ** DPDK buffers *)

(** [rte_pktmbuf_free_seg] of the buffer behind a handle. *)
Definition buf_unref (b : addr) : M unit := fun st =>
  match bufs st !! b with
  | None => None
  | Some rb =>
      let rb := rb <| buf_refcnt := buf_refcnt rb - 1 |> in
      let st := st <| bufs := <[b := rb]> (bufs st) |> in
      Some (tt, if buf_refcnt rb =? 0 then st <| mb_data := pool_put (mb_data st) b |> else st)
  end.

Definition free_mbuf (r : rte) : M unit :=
  match r with
  | Direct b => buf_unref b
  | Indirect hdl b =>
      fun st => buf_unref b (st <| mcl_cache := pool_put (mcl_cache st) hdl |>)
  end.

(** [allocate_mbuf(mb_data)]; [None] when the pool is empty. *)
Definition allocate_mbuf : M (option addr) := fun st =>
  match pool_get (mb_data st) with
  | None => Some (None, st)
  | Some (b, pp) =>
      match bufs st !! b with
      | None => None
      | Some rb => Some (Some b, st <| mb_data := pp |>
                                    <| bufs := <[b := rb <| buf_refcnt := 1 |>]> (bufs st) |>)
      end
  end.

(** [pool_data_mbuf_clone]: a handle attached to the buffer of [r]. *)
Definition pool_data_mbuf_clone (r : rte) : M (option rte) := fun st =>
  match pool_get (mcl_cache st) with
  | None => Some (None, st)
  | Some (hdl, pp) =>
      match bufs st !! rte_buf r with
      | None => None
      | Some rb =>
          Some (Some (Indirect hdl (rte_buf r)),
                st <| mcl_cache := pp |>
                   <| bufs := <[rte_buf r := rb <| buf_refcnt := buf_refcnt rb + 1 |>]> (bufs st) |>)
      end
  end.

(** ** Allocation *)

Definition mbuf_zero : mbuf := mkMbuf None None None 0 0 None 0 0 None.

(** [pool_cache_get(mb_cache)]: the mbuf holds what its last user left. *)
Definition mb_cache_get : M (option addr) := fun st =>
  match pool_cache_get (mb_cache st) with
  | None => Some (None, st)
  | Some (a, pp) =>
      let m := default mbuf_zero (mb_stale st !! a) in
      Some (Some a, st <| mb_cache := pp |> <| mb_stale := delete a (mb_stale st) |>
                       <| mbufs := <[a := m]> (mbufs st) |>)
  end.

Definition m_get_indirect (to_clone : option rte) (type : Z) : M (option addr) :=
  ma ← mb_cache_get;
  match ma with
  | None => mret None
  | Some a =>
      update a (fun m => m <| m_pktdat := Some (InMbuf a 0) |> <| m_type := type |>
                           <| m_next := None |> <| m_nextpkt := None |>) ;;
      match to_clone with
      | None => fail
      | Some r =>
          clone ← pool_data_mbuf_clone r;
          update a (fun m => m <| m_paddr := clone |> <| m_data := None |> <| m_flags := 0 |>) ;;
          mret (Some a)
      end
  end.

Definition m_get (type : Z) : M (option addr) :=
  ma ← mb_cache_get;
  match ma with
  | None => mret None
  | Some a =>
      update a (fun m => m <| m_pktdat := Some (InMbuf a 0) |> <| m_type := type |>
                           <| m_next := None |> <| m_nextpkt := None |>) ;;
      data_buf ← allocate_mbuf;
      match data_buf with
      | None => fail
      | Some b =>
          update a (fun m => m <| m_paddr := Some (Direct b) |>
                               <| m_data := Some (InBuf b RTE_PKTMBUF_HEADROOM) |>
                               <| m_flags := 0 |>) ;;
          mret (Some a)
      end
  end.

Definition m_gethdr (type : Z) : M (option addr) :=
  ma ← m_get type;
  match ma with
  | None => mret None
  | Some a =>
      update a (fun m => m <| m_pktdat := m_data m |> <| m_flags := M_PKTHDR |>
                           <| m_next := None |> <| m_nextpkt := None |>) ;;
      mret (Some a)
  end.

(** [m_devget]: a received buffer [pdesc] of [totlen] bytes at [buf]. *)
Definition m_devget (buf : dataptr) (totlen off0 : Z) (pdesc : rte) : M (option addr) :=
  ma ← mb_cache_get;
  match ma with
  | None => mret None
  | Some a =>
      update a (fun m => m <| m_pktdat := Some (InMbuf a 0) |> <| m_type := MT_DATA |>
        <| m_next := None |> <| m_nextpkt := None |> <| m_paddr := Some pdesc |> <| m_pkthdr_len := totlen |> <| m_len := totlen |>
        <| m_data := Some (ptr_add buf off0) |> <| m_flags := M_PKTHDR |>) ;;
      mret (Some a)
  end.

(** [if(m->m_paddr) { free_mbuf(m->m_paddr); m->m_paddr = NULL; }] *)
Definition m_paddr_free (a : addr) (m : mbuf) : M unit :=
  match m_paddr m with
  | Some r => free_mbuf r ;; update a (fun m => m <| m_paddr := None |>)
  | None => mret tt
  end.

(** [pool_cache_put(mb_cache, m)] *)
Definition mb_cache_put (a : addr) : M unit := fun st =>
  match mbufs st !! a with
  | None => None
  | Some m => Some (tt, st <| mbufs := delete a (mbufs st) |>
                           <| mb_stale := <[a := m]> (mb_stale st) |>
                           <| mb_cache := pool_cache_put (mb_cache st) a |>)
  end.

(** [m_free]: the macro MFREE; returns the successor. *)
Definition m_free (a : addr) : M (option addr) :=
  m ← load a;
  m_paddr_free a m ;;
  mb_cache_put a ;;
  mret (m_next m).

Fixpoint m_freem_loop (fuel : nat) (p : option addr) : M unit :=
  match p with
  | None => mret tt
  | Some a =>
      match fuel with
      | O => fail
      | S fuel => n ← m_free a; m_freem_loop fuel n
      end
  end.

Definition m_freem (p : option addr) : M unit := with_fuel (fun n => m_freem_loop n p).

(** [m_move_pkthdr(to, from)] *)
Definition m_move_pkthdr (to from : addr) : M unit :=
  f ← load from;
  update to (fun t => t <| m_pkthdr_len := m_pkthdr_len f |>
                        <| m_flags := Z.land (m_flags f) M_COPYFLAGS |>
                        <| m_data := m_pktdat t |>) ;;
  update from (fun f => f <| m_flags := flag_clear (m_flags f) M_PKTHDR |>).

(** [(MHLEN - len) &~ (sizeof(long) - 1)] of MH_ALIGN. *)
Definition mh_align (len : Z) : Z := Z.land (MHLEN - len) (Z.lnot 7).

Definition m_prepend (a : addr) (len : Z) : M (option addr) :=
  m ← load a;
  mn ← m_get (m_type m);
  match mn with
  | None => m_freem (Some a) ;; mret None
  | Some n =>
      (if flag_set (m_flags m) M_PKTHDR then m_move_pkthdr n a else mret tt) ;;
      update n (fun t => t <| m_next := Some a |>) ;;
      (if len <? MHLEN
       then update n (fun t => t <| m_data := data_add (m_data t) (mh_align len) |>)
       else mret tt) ;;
      update n (fun t => t <| m_len := len |>) ;;
      mret (Some n)
  end.

(** ** Copying *)

(** [while (off > 0) { if (m == 0) panic; if (off < m->m_len) break; ... }],
    shared by [m_copym0], [m_copydata] and [m_apply]. *)
Fixpoint skip_loop (fuel : nat) (p : option addr) (off : Z) : M (option addr * Z) :=
  if off <=? 0 then mret (p, off)
  else
    match fuel with
    | O => fail
    | S fuel =>
        m ← deref p;
        if off <? m_len m then mret (p, off) else skip_loop fuel (m_next m) (off - m_len m)
    end.

(** [*np = n], where [np] is [&top] or [&last->m_next]. *)
Definition set_np (last : option addr) (top n : option addr) : M (option addr) :=
  match last with
  | None => mret n
  | Some l => update l (fun t => t <| m_next := n |>) ;; mret top
  end.

(** The copying loop of [m_copym0]: each mbuf of the copy is a clone that
    points into the data of the original. *)
Fixpoint copym_loop (fuel : nat) (p : option addr) (off len : Z) (last top : option addr)
    : M (option addr) :=
  if len <=? 0 then mret top
  else
    match p with
    | None => if len =? M_COPYALL then mret top else fail
    | Some a =>
        match fuel with
        | O => fail
        | S fuel =>
            m ← load a;
            n ← m_get_indirect (m_paddr m) (m_type m);
            top ← set_np last top n;
            match n with
            | None => m_freem top ;; mret None
            | Some n =>
                if flag_set (m_flags m) M_EXT then fail
                else
                  let nlen := Z.min (u32 len) (u32 (m_len m - off)) in
                  update n (fun t => t <| m_len := nlen |>
                                       <| m_data := data_add (m_data m) off |>) ;;
                  let len := if len =? M_COPYALL then len else len - nlen in
                  let off := off + nlen in
                  if off =? m_len m then copym_loop fuel (m_next m) 0 len (Some n) top
                  else copym_loop fuel p off len (Some n) top
            end
        end
    end.

(** [m_copym] and [m_dup] (the port makes no difference between them). *)
Definition m_copym0 (p : option addr) (off0 len : Z) : M (option addr) :=
  if (off0 <? 0) || (len <? 0) then fail
  else
    (if off0 =? 0 then deref p ;; mret tt else mret tt) ;;
    with_fuel (fun n => '(p, off) ← skip_loop n p off0; copym_loop (S n) p off len None None).

(** [m_copypacket] returns its argument. *)
Definition m_copypacket (a : addr) : M (option addr) := mret (Some a).

Fixpoint copydata_loop (fuel : nat) (p : option addr) (off len : Z) : M (list Z) :=
  if len <=? 0 then mret []
  else
    match fuel with
    | O => fail
    | S fuel =>
        m ← deref p;
        let count := Z.min (u32 (m_len m - off)) (u32 len) in
        bytes ← read_bytes (data_add (m_data m) off) count;
        rest ← copydata_loop fuel (m_next m) 0 (len - count);
        mret (bytes ++ rest)
    end.

Definition m_copydata (p : option addr) (off len : Z) : M (list Z) :=
  if (off <? 0) || (len <? 0) then fail
  else with_fuel (fun n => '(p, off) ← skip_loop n p off; copydata_loop n p off len).

(** ** Concatenation and trimming *)

Fixpoint last_loop (fuel : nat) (a : addr) : M addr :=
  match fuel with
  | O => fail
  | S fuel =>
      m ← load a;
      match m_next m with Some b => last_loop fuel b | None => mret a end
  end.

(** [while (n)] of [m_cat], with M_TRAILINGSPACE(m) being 0: only an mbuf
    without data is merged (no byte is copied) and freed.  The external
    storage of an mbuf with M_EXT, which M_READONLY looks at, is not
    modelled. *)
Fixpoint cat_loop (fuel : nat) (a : addr) (p : option addr) : M unit :=
  match p with
  | None => mret tt
  | Some b =>
      match fuel with
      | O => fail
      | S fuel =>
          t ← load a;
          n ← load b;
          if flag_set (m_flags t) M_EXT then fail
          else if 0 <? m_len n then update a (fun t => t <| m_next := p |>)
          else
            update a (fun t => t <| m_len := m_len t + m_len n |>) ;;
            n' ← m_free b;
            cat_loop fuel a n'
      end
  end.

Definition m_cat (a : addr) (p : option addr) : M unit :=
  with_fuel (fun n => l ← last_loop n a; cat_loop n l p).

(** [m_adj], trimming from the head. *)
Fixpoint adj_head_loop (fuel : nat) (p : option addr) (len : Z) : M Z :=
  if len <=? 0 then mret len
  else
    match p with
    | None => mret len
    | Some a =>
        match fuel with
        | O => fail
        | S fuel =>
            m ← load a;
            if m_len m <=? len then
              update a (fun t => t <| m_len := 0 |>) ;;
              adj_head_loop fuel (m_next m) (len - m_len m)
            else
              update a (fun t => t <| m_len := m_len t - len |>
                                   <| m_data := data_add (m_data t) len |>) ;;
              mret 0
        end
    end.

(** The length of the chain and its last mbuf. *)
Fixpoint adj_count_loop (fuel : nat) (a : addr) (count : Z) : M (addr * Z) :=
  match fuel with
  | O => fail
  | S fuel =>
      m ← load a;
      let count := count + m_len m in
      match m_next m with Some b => adj_count_loop fuel b count | None => mret (a, count) end
  end.

(** [while (m->m_next) (m = m->m_next)->m_len = 0] *)
Fixpoint adj_zero_loop (fuel : nat) (p : option addr) : M unit :=
  match p with
  | None => mret tt
  | Some a =>
      match fuel with
      | O => fail
      | S fuel =>
          m ← load a;
          update a (fun t => t <| m_len := 0 |>) ;;
          adj_zero_loop fuel (m_next m)
      end
  end.

Fixpoint adj_tail_loop (fuel : nat) (p : option addr) (count : Z) : M unit :=
  match p with
  | None => mret tt
  | Some a =>
      match fuel with
      | O => fail
      | S fuel =>
          m ← load a;
          if count <=? m_len m then
            update a (fun t => t <| m_len := count |>) ;; adj_zero_loop fuel (m_next m)
          else adj_tail_loop fuel (m_next m) (count - m_len m)
      end
  end.

Definition m_adj (mp : option addr) (req_len : Z) : M unit :=
  match mp with
  | None => mret tt
  | Some a =>
      if 0 <=? req_len then
        len ← with_fuel (fun n => adj_head_loop n mp req_len);
        m ← load a;
        if flag_set (m_flags m) M_PKTHDR
        then update a (fun t => t <| m_pkthdr_len := m_pkthdr_len t - (req_len - len) |>)
        else mret tt
      else
        let len := - req_len in
        '(l, count) ← with_fuel (fun n => adj_count_loop n a 0);
        m ← load a;
        lm ← load l;
        if len <=? m_len lm then
          update l (fun t => t <| m_len := m_len t - len |>) ;;
          if flag_set (m_flags m) M_PKTHDR
          then update a (fun t => t <| m_pkthdr_len := m_pkthdr_len t - len |>) else mret tt
        else
          let count := Z.max 0 (count - len) in
          (if flag_set (m_flags m) M_PKTHDR
           then update a (fun t => t <| m_pkthdr_len := count |>) else mret tt) ;;
          with_fuel (fun n => adj_tail_loop n mp count)
  end.

(** ** Looking up a position *)
Fixpoint getptr_loop (fuel : nat) (a : addr) (loc : Z) : M (option (addr * Z)) :=
  if loc <? 0 then mret None
  else
    match fuel with
    | O => fail
    | S fuel =>
        m ← load a;
        if loc <? m_len m then mret (Some (a, loc))
        else
          let loc := loc - m_len m in
          match m_next m with
          | None => if loc =? 0 then mret (Some (a, m_len m)) else mret None
          | Some b => getptr_loop fuel b loc
          end
    end.

Definition m_getptr (a : addr) (loc : Z) : M (option (addr * Z)) :=
  with_fuel (fun n => getptr_loop n a loc).

(** [m_apply]: [f] sees the bytes of each piece and stops the loop with a
    result that is not 0. *)
Fixpoint apply_loop {S : Type} (f : S -> list Z -> Z * S) (fuel : nat) (p : option addr)
    (off len : Z) (s : S) : M (Z * S) :=
  if len <=? 0 then mret (0, s)
  else
    match fuel with
    | O => fail
    | Datatypes.S fuel =>
        m ← deref p;
        let count := Z.min (u32 (m_len m - off)) (u32 len) in
        bytes ← read_bytes (data_add (m_data m) off) count;
        let '(rval, s) := f s bytes in
        if rval =? 0 then apply_loop f fuel (m_next m) 0 (len - count) s else mret (rval, s)
    end.

Definition m_apply {S : Type} (f : S -> list Z -> Z * S) (p : option addr) (off len : Z) (s : S)
    : M (Z * S) :=
  with_fuel (fun n => '(p, off) ← skip_loop n p off; apply_loop f n p off len s).
