(* ===== verification/MbufFacts.v ===== *)
(** * Correctness of the mbuf operations

    A chain in the store is related to a list of mbufs; each operation is
    shown to compute a function of that list (functional refinement), and
    that function to do the right thing to the bytes of the chain. *)

From S2P Require Import Prelude Pool Mbuf.

(** ** Chains *)

Fixpoint chain (h : gmap addr mbuf) (p : option addr) (l : list (addr * mbuf)) : Prop :=
  match l with
  | [] => p = None
  | (a, m) :: l => p = Some a /\ h !! a = Some m /\ chain h (m_next m) l
  end.

Lemma chain_det h p l l' : chain h p l -> chain h p l' -> l = l'.
Proof.
  revert p l'; induction l as [|[a m] l IH]; intros p [|[a' m'] l'] C C'; simpl in *; try done.
  - destruct C' as [? _]. congruence.
  - destruct C as [? _]. congruence.
  - destruct C as (-> & L & C), C' as ([= <-] & L' & C').
    assert (m' = m) as -> by congruence. f_equal. eauto.
Qed.

Lemma chain_suffix h p l1 a m l2 :
  chain h p (l1 ++ (a, m) :: l2) -> chain h (Some a) ((a, m) :: l2).
Proof.
  revert p; induction l1 as [|[b n] l1 IH]; intros p C; simpl in *.
  - destruct C as (_ & ? & ?). done.
  - destruct C as (_ & _ & C). eauto.
Qed.

Lemma chain_lookup h p l a m : chain h p l -> (a, m) ∈ l -> h !! a = Some m.
Proof.
  intros C (l1 & l2 & ->)%list_elem_of_split. by apply chain_suffix in C as (_ & ? & _).
Qed.

(** A chain that ends has no cycle. *)
Lemma chain_NoDup h p l : chain h p l -> NoDup l.*1.
Proof.
  revert p; induction l as [|[a m] l IH]; intros p C; simpl; [constructor|].
  destruct C as (-> & L & C). constructor; [|by eapply IH].
  intros (am & E & (l1 & l2 & ->)%list_elem_of_split)%list_elem_of_fmap.
  destruct am as [a' m']. simpl in E. subst a'.
  pose proof (chain_suffix _ _ _ _ _ _ C) as C'.
  assert ((a, m) :: l1 ++ (a, m') :: l2 = (a, m') :: l2) as E.
  { eapply chain_det; [|exact C']. done. }
  apply (f_equal length) in E. simpl in E. rewrite length_app in E. simpl in E. lia.
Qed.

Lemma chain_fuel_enough st p l : chain (mbufs st) p l -> (length l < chain_fuel st)%nat.
Proof.
  intros C. unfold chain_fuel. pose proof (chain_NoDup _ _ _ C) as N.
  rewrite <- (length_fmap fst l), <- size_dom, <- (size_list_to_set (C := gset addr) l.*1) by done.
  apply le_n_S, subseteq_size. intros a Ha. apply elem_of_list_to_set in Ha.
  apply list_elem_of_fmap in Ha as ([b m] & -> & Hb). apply elem_of_dom.
  exists m. by eapply chain_lookup.
Qed.

(** Writing outside the chain. *)
Lemma chain_insert_ne h p l a m : a ∉ l.*1 -> chain h p l -> chain (<[a := m]> h) p l.
Proof.
  revert p; induction l as [|[b n] l IH]; intros p N C; simpl in *; [done|].
  apply not_elem_of_cons in N as [Na N]. destruct C as (-> & L & C).
  rewrite lookup_insert_ne by congruence. eauto.
Qed.

Lemma chain_delete_ne h p l a : a ∉ l.*1 -> chain h p l -> chain (delete a h) p l.
Proof.
  revert p; induction l as [|[b n] l IH]; intros p N C; simpl in *; [done|].
  apply not_elem_of_cons in N as [Na N]. destruct C as (-> & L & C).
  rewrite lookup_delete_ne by congruence. eauto.
Qed.

(** [store h l] writes the mbufs of [l]. *)
Definition store (h : gmap addr mbuf) (l : list (addr * mbuf)) : gmap addr mbuf :=
  foldr (fun am h => <[am.1 := am.2]> h) h l.

Lemma store_insert_ne h l a m : a ∉ l.*1 -> store (<[a := m]> h) l = <[a := m]> (store h l).
Proof.
  induction l as [|[b n] l IH]; simpl; [done|]. intros [Na N]%not_elem_of_cons.
  rewrite IH by done. by rewrite insert_insert_ne.
Qed.

Lemma store_lookup_ne h l a : a ∉ l.*1 -> store h l !! a = h !! a.
Proof.
  induction l as [|[b n] l IH]; simpl; [done|]. intros [Na N]%not_elem_of_cons.
  rewrite lookup_insert_ne by congruence. auto.
Qed.

Lemma store_chain_id h p l : chain h p l -> store h l = h.
Proof.
  revert p; induction l as [|[a m] l IH]; intros p; simpl; [done|]. intros (-> & L & C).
  rewrite (IH _ C). by apply insert_id.
Qed.

(** Links that agree make a chain of what is stored. *)
Fixpoint linked (p : option addr) (l : list (addr * mbuf)) : Prop :=
  match l with
  | [] => p = None
  | (a, m) :: l => p = Some a /\ linked (m_next m) l
  end.

Lemma chain_linked h p l : chain h p l -> linked p l.
Proof. revert p; induction l as [|[a m] l IH]; intros p; simpl; [done|]. intros (-> & _ & C). eauto. Qed.

Lemma store_chain h p l : NoDup l.*1 -> linked p l -> chain (store h l) p l.
Proof.
  revert p; induction l as [|[a m] l IH]; intros p; simpl; [done|].
  intros [N D]%NoDup_cons [-> L]. split; [done|]. rewrite lookup_insert_eq. split; [done|].
  apply chain_insert_ne; [done|]. by apply IH.
Qed.

(** ** Running the monad *)

Section run.
Context {A B : Type}.

Lemma run_ret (x : A) (k : A -> M B) st : (mret x ≫= k) st = k x st.
Proof. done. Qed.

Lemma run_load a m (k : mbuf -> M B) st : mbufs st !! a = Some m -> (load a ≫= k) st = k m st.
Proof. intros E. unfold mbind, M_bind, load. by rewrite E. Qed.

Lemma run_update a f m (k : unit -> M B) st : mbufs st !! a = Some m ->
  (update a f ≫= k) st = k tt (st <| mbufs := <[a := f m]> (mbufs st) |>).
Proof. intros E. unfold mbind, M_bind, update. by rewrite E. Qed.

Lemma run_bind (e : M A) (k : A -> M B) x st st' : e st = Some (x, st') -> (e ≫= k) st = k x st'.
Proof. intros E. unfold mbind, M_bind. by rewrite E. Qed.
End run.

Lemma update_run a f m st : mbufs st !! a = Some m ->
  update a f st = Some (tt, st <| mbufs := <[a := f m]> (mbufs st) |>).
Proof. intros E. unfold update. by rewrite E. Qed.

Lemma mstate_mbufs_id st : st <| mbufs := mbufs st |> = st.
Proof. by destruct st. Qed.

Lemma mstate_mbufs_2 st h h' : st <| mbufs := h |> <| mbufs := h' |> = st <| mbufs := h' |>.
Proof. reflexivity. Qed.

(** ** The bytes of a chain *)

Definition mbuf_bytes (bs : gmap addr rtebuf) (m : mbuf) : list Z :=
  match m_data m with
  | Some (InBuf b o) =>
      match bs !! b with
      | Some rb => take (Z.to_nat (m_len m)) (drop (Z.to_nat o) (buf_bytes rb))
      | None => []
      end
  | _ => []
  end.

Definition chain_bytes (bs : gmap addr rtebuf) (l : list (addr * mbuf)) : list Z :=
  concat ((fun am => mbuf_bytes bs am.2) <$> l).

(** The data of an mbuf lies inside a buffer. *)
Definition mbuf_ok (bs : gmap addr rtebuf) (m : mbuf) : Prop :=
  0 <= m_len m < 2 ^ 31 /\
  exists b o rb, m_data m = Some (InBuf b o) /\ bs !! b = Some rb /\ 0 <= o /\
    o + m_len m <= Z.of_nat (length (buf_bytes rb)).

Definition chain_ok (bs : gmap addr rtebuf) (l : list (addr * mbuf)) : Prop :=
  Forall (fun am => mbuf_ok bs am.2) l.

Definition chain_len (l : list (addr * mbuf)) : Z := foldr (fun am n => m_len am.2 + n) 0 l.

Lemma mbuf_bytes_length bs m : mbuf_ok bs m -> Z.of_nat (length (mbuf_bytes bs m)) = m_len m.
Proof.
  intros (L & b & o & rb & D & E & O & H). unfold mbuf_bytes. rewrite D, E.
  rewrite length_take_le; [lia|]. rewrite length_drop. lia.
Qed.

Lemma chain_len_nonneg bs l : chain_ok bs l -> 0 <= chain_len l.
Proof. induction 1 as [|[a m] l [? _] _ IH]; simpl in *; lia. Qed.

Lemma chain_bytes_cons bs a m l : chain_bytes bs ((a, m) :: l) = mbuf_bytes bs m ++ chain_bytes bs l.
Proof. done. Qed.

Lemma chain_bytes_length bs l : chain_ok bs l -> Z.of_nat (length (chain_bytes bs l)) = chain_len l.
Proof.
  induction 1 as [|[a m] l K _ IH]; [done|]. simpl in K.
  rewrite chain_bytes_cons, length_app, Nat2Z.inj_add, IH, mbuf_bytes_length by done. done.
Qed.

Lemma chain_len_app l1 l2 : chain_len (l1 ++ l2) = chain_len l1 + chain_len l2.
Proof. induction l1 as [|[a m] l1 IH]; simpl; [done|]. rewrite IH. lia. Qed.

Lemma chain_bytes_app bs l1 l2 : chain_bytes bs (l1 ++ l2) = chain_bytes bs l1 ++ chain_bytes bs l2.
Proof. unfold chain_bytes. by rewrite fmap_app, concat_app. Qed.

(** Dropping bytes at the head of an mbuf, and keeping only its head. *)
Lemma mbuf_bytes_advance bs m n : mbuf_ok bs m -> 0 <= n <= m_len m ->
  let m' := m <| m_len := m_len m - n |> <| m_data := data_add (m_data m) n |> in
  mbuf_ok bs m' /\ mbuf_bytes bs m' = drop (Z.to_nat n) (mbuf_bytes bs m).
Proof.
  intros (L & b & o & rb & D & E & O & H) N. unfold mbuf_ok, mbuf_bytes. upd_simpl. rewrite D. simpl.
  split; [split; [lia|]; exists b, (o + n), rb; repeat split; try done; lia|].
  rewrite E. rewrite skipn_firstn_comm, drop_drop. f_equal; [lia|]. f_equal. lia.
Qed.

Lemma mbuf_bytes_truncate bs m n : mbuf_ok bs m -> 0 <= n <= m_len m ->
  let m' := m <| m_len := n |> in
  mbuf_ok bs m' /\ mbuf_bytes bs m' = take (Z.to_nat n) (mbuf_bytes bs m).
Proof.
  intros (L & b & o & rb & D & E & O & H) N. unfold mbuf_ok, mbuf_bytes. upd_simpl. rewrite D.
  split; [split; [lia|]; exists b, o, rb; repeat split; try done; lia|].
  rewrite E, take_take. f_equal. lia.
Qed.

(** ** m_adj, from the head *)

Fixpoint adj_head (l : list (addr * mbuf)) (len : Z) : list (addr * mbuf) :=
  match l with
  | [] => []
  | (a, m) :: l =>
      if len <=? 0 then (a, m) :: l
      else if m_len m <=? len then (a, m <| m_len := 0 |>) :: adj_head l (len - m_len m)
      else (a, m <| m_len := m_len m - len |> <| m_data := data_add (m_data m) len |>) :: l
  end.

Lemma adj_head_addrs l len : (adj_head l len).*1 = l.*1.
Proof.
  revert len; induction l as [|[a m] l IH]; intros len; simpl; [done|].
  repeat case_match; simpl; by rewrite ?IH.
Qed.

Lemma adj_head_linked p l len : linked p l -> linked p (adj_head l len).
Proof.
  revert p len; induction l as [|[a m] l IH]; intros p len; simpl; [done|]. intros [-> L].
  repeat case_match; simpl; (split; [done|]); upd_simpl; auto.
Qed.

Lemma adj_head_bytes bs l len : chain_ok bs l -> 0 <= len ->
  chain_ok bs (adj_head l len) /\
  chain_bytes bs (adj_head l len) = drop (Z.to_nat len) (chain_bytes bs l).
Proof.
  intros K; revert len; induction K as [|[a m] l Km K IH]; intros len L; simpl adj_head.
  { split; [constructor|]. unfold chain_bytes. simpl. by rewrite drop_nil. }
  simpl in Km. pose proof (mbuf_bytes_length bs m Km) as Lm. rewrite chain_bytes_cons.
  destruct (Z.leb_spec len 0).
  { assert (len = 0) as -> by lia. split; [by constructor|]. done. }
  destruct (Z.leb_spec (m_len m) len); rewrite chain_bytes_cons.
  - destruct (mbuf_bytes_truncate bs m 0 Km) as [K0 B0]; [destruct Km; lia|].
    destruct (IH (len - m_len m) ltac:(lia)) as [K1 B1].
    split; [by constructor|]. rewrite B0, B1. simpl. rewrite drop_app_ge by lia. f_equal. lia.
  - destruct (mbuf_bytes_advance bs m len Km) as [K0 B0]; [lia|].
    split; [by constructor|]. rewrite B0. rewrite drop_app_le by lia. done.
Qed.

Lemma adj_head_loop_run fuel p l len st :
  chain (mbufs st) p l -> (length l < fuel)%nat -> Forall (fun am => 0 <= m_len am.2) l -> 0 <= len ->
  adj_head_loop fuel p len st =
    Some (Z.max 0 (len - chain_len l), st <| mbufs := store (mbufs st) (adj_head l len) |>).
Proof.
  revert p l len st. induction fuel as [|fuel IH]; intros p l len st C F P L; [lia|].
  destruct l as [|[a m] l]; simpl in C.
  { subst p. simpl. rewrite mstate_mbufs_id. destruct (Z.leb_spec len 0); simpl; unfold mret, M_ret;
      f_equal; f_equal; lia. }
  destruct C as (-> & Ha & C). apply Forall_cons in P as [Pm P]. simpl in Pm.
  assert (0 <= chain_len l) as Lc by (clear -P; induction P as [|[? ?] ? ? ? IH]; simpl in *; lia).
  simpl adj_head_loop. simpl adj_head. destruct (Z.leb_spec len 0).
  { rewrite (store_chain_id _ (Some a)) by done. rewrite mstate_mbufs_id. unfold mret, M_ret.
    f_equal. f_equal. simpl. lia. }
  rewrite (run_load _ _ _ _ Ha).
  pose proof (chain_NoDup _ (Some a) ((a, m) :: l) (conj eq_refl (conj Ha C))) as Nd.
  simpl in Nd. apply NoDup_cons in Nd as [Na Nd].
  destruct (Z.leb_spec (m_len m) len).
  - rewrite (run_update _ _ _ _ _ Ha).
    rewrite (IH (m_next m) l); [|upd_simpl; by apply chain_insert_ne|simpl in F; lia|done|lia].
    upd_simpl. simpl. rewrite store_insert_ne by (by rewrite adj_head_addrs).
    f_equal. f_equal. lia.
  - rewrite (run_update _ _ _ _ _ Ha). unfold mret, M_ret. simpl.
    rewrite (store_chain_id _ _ _ C). f_equal. f_equal. lia.
Qed.

(** ** m_adj, from the tail *)

Definition zero_lens (l : list (addr * mbuf)) : list (addr * mbuf) :=
  (fun am => (am.1, am.2 <| m_len := 0 |>)) <$> l.

Fixpoint adj_tail (l : list (addr * mbuf)) (count : Z) : list (addr * mbuf) :=
  match l with
  | [] => []
  | (a, m) :: l =>
      if count <=? m_len m then (a, m <| m_len := count |>) :: zero_lens l
      else (a, m) :: adj_tail l (count - m_len m)
  end.

Lemma zero_lens_addrs l : (zero_lens l).*1 = l.*1.
Proof. induction l as [|[a m] l IH]; simpl; [done|]. f_equal. done. Qed.

Lemma adj_tail_addrs l count : (adj_tail l count).*1 = l.*1.
Proof.
  revert count; induction l as [|[a m] l IH]; intros count; simpl; [done|].
  case_match; simpl; by rewrite ?IH, ?zero_lens_addrs.
Qed.

Lemma zero_lens_linked p l : linked p l -> linked p (zero_lens l).
Proof.
  revert p; induction l as [|[a m] l IH]; intros p; simpl; [done|]. intros [-> L].
  split; [done|]. upd_simpl. by apply IH.
Qed.

Lemma adj_tail_linked p l count : linked p l -> linked p (adj_tail l count).
Proof.
  revert p count; induction l as [|[a m] l IH]; intros p count; simpl; [done|]. intros [-> L].
  case_match; simpl; (split; [done|]); upd_simpl; auto using zero_lens_linked.
Qed.

Lemma m_len_id m : m <| m_len := m_len m |> = m.
Proof. by destruct m. Qed.

Lemma zero_lens_id bs l : chain_ok bs l -> chain_len l = 0 -> zero_lens l = l.
Proof.
  induction 1 as [|[a m] l [P _] K IH]; simpl in *; [done|]. intros E.
  pose proof (chain_len_nonneg bs l K). f_equal; [|apply IH; lia].
  assert (m_len m = 0) as E' by lia. f_equal. rewrite <- (m_len_id m) at 2. by rewrite E'.
Qed.

Lemma zero_lens_bytes bs l : chain_ok bs l ->
  chain_ok bs (zero_lens l) /\ chain_bytes bs (zero_lens l) = [].
Proof.
  induction 1 as [|[a m] l Km K [IH1 IH2]]; [split; [constructor|done]|]. simpl in Km.
  destruct (mbuf_bytes_truncate bs m 0 Km) as [K0 B0]; [destruct Km; lia|].
  split; [by constructor|]. simpl zero_lens. rewrite chain_bytes_cons, B0, IH2. done.
Qed.

Lemma adj_tail_bytes bs l count : chain_ok bs l -> 0 <= count ->
  chain_ok bs (adj_tail l count) /\
  chain_bytes bs (adj_tail l count) = take (Z.to_nat count) (chain_bytes bs l).
Proof.
  intros K; revert count; induction K as [|[a m] l Km K IH]; intros count L; simpl adj_tail.
  { split; [constructor|]. unfold chain_bytes. simpl. by rewrite take_nil. }
  simpl in Km. pose proof (mbuf_bytes_length bs m Km) as Lm.
  destruct (Z.leb_spec count (m_len m)); rewrite !chain_bytes_cons.
  - destruct (mbuf_bytes_truncate bs m count Km) as [K0 B0]; [lia|].
    destruct (zero_lens_bytes bs l K) as [K1 B1].
    split; [by constructor|]. rewrite B0, B1, app_nil_r. rewrite take_app_le by lia. done.
  - destruct (IH (count - m_len m) ltac:(lia)) as [K1 B1]. split; [by constructor|].
    rewrite B1, take_app_ge by lia. f_equal. f_equal. lia.
Qed.

(** Taking the whole amount from the last mbuf is the same. *)
Lemma adj_tail_last bs pre x lm len : chain_ok bs (pre ++ [(x, lm)]) -> 0 <= len <= m_len lm ->
  adj_tail (pre ++ [(x, lm)]) (chain_len (pre ++ [(x, lm)]) - len) =
  pre ++ [(x, lm <| m_len := m_len lm - len |>)].
Proof.
  intros K L. induction pre as [|[a m] pre IH]; simpl.
  { rewrite Z.add_0_r. destruct (Z.leb_spec (m_len lm - len) (m_len lm)); [done|lia]. }
  simpl in K. apply Forall_cons in K as [Km K]. specialize (IH K).
  assert (len <= chain_len (pre ++ [(x, lm)])) as Le.
  { clear -K L. induction pre as [|[a m] pre IH]; simpl; [lia|].
    simpl in K. apply Forall_cons in K as [[? _] K]. simpl in *. specialize (IH K). lia. }
  destruct (Z.leb_spec (m_len m + chain_len (pre ++ [(x, lm)]) - len) (m_len m)) as [C|C].
  - replace (m_len m + chain_len (pre ++ [(x, lm)]) - len) with (m_len m) by lia.
    rewrite m_len_id. f_equal. rewrite <- IH.
    replace (chain_len (pre ++ [(x, lm)]) - len) with 0 by lia.
    clear -K. induction pre as [|[a m] pre IH]; simpl in *.
    + apply Forall_cons in K as [[? _] _]. simpl in *. destruct (Z.leb_spec 0 (m_len lm)); [done|lia].
    + apply Forall_cons in K as [[? _] K]. simpl in *. destruct (Z.leb_spec 0 (m_len m)); [done|lia].
  - f_equal. rewrite <- IH. f_equal. lia.
Qed.

Lemma adj_zero_loop_run fuel p l st : chain (mbufs st) p l -> (length l < fuel)%nat ->
  adj_zero_loop fuel p st = Some (tt, st <| mbufs := store (mbufs st) (zero_lens l) |>).
Proof.
  revert p l st. induction fuel as [|fuel IH]; intros p l st C F; [lia|].
  destruct l as [|[a m] l]; simpl in C.
  { subst p. simpl. rewrite mstate_mbufs_id. done. }
  pose proof (chain_NoDup _ p ((a, m) :: l) C) as Nd. destruct C as (-> & Ha & C).
  simpl in Nd. apply NoDup_cons in Nd as [Na Nd]. simpl adj_zero_loop.
  rewrite (run_load _ _ _ _ Ha), (run_update _ _ _ _ _ Ha).
  rewrite (IH (m_next m) l); [|upd_simpl; by apply chain_insert_ne|simpl in F; lia].
  upd_simpl. simpl. rewrite store_insert_ne by (by rewrite zero_lens_addrs). done.
Qed.

Lemma adj_tail_loop_run fuel p l count st : chain (mbufs st) p l -> (length l < fuel)%nat ->
  adj_tail_loop fuel p count st = Some (tt, st <| mbufs := store (mbufs st) (adj_tail l count) |>).
Proof.
  revert p l count st. induction fuel as [|fuel IH]; intros p l count st C F; [lia|].
  destruct l as [|[a m] l]; simpl in C.
  { subst p. simpl. rewrite mstate_mbufs_id. done. }
  pose proof (chain_NoDup _ p ((a, m) :: l) C) as Nd. destruct C as (-> & Ha & C).
  simpl in Nd. apply NoDup_cons in Nd as [Na Nd]. simpl adj_tail_loop. simpl in F.
  rewrite (run_load _ _ _ _ Ha). simpl adj_tail. destruct (Z.leb_spec count (m_len m)).
  - rewrite (run_update _ _ _ _ _ Ha).
    rewrite (adj_zero_loop_run fuel (m_next m) l); [|upd_simpl; by apply chain_insert_ne|lia].
    upd_simpl. simpl. rewrite store_insert_ne by (by rewrite zero_lens_addrs). done.
  - rewrite (IH (m_next m) l) by (done || lia). simpl.
    rewrite (insert_id (store _ _)); [done|]. rewrite store_lookup_ne; [done|].
    by rewrite adj_tail_addrs.
Qed.

Lemma adj_count_loop_run fuel a m l count st : chain (mbufs st) (Some a) ((a, m) :: l) ->
  (length l < fuel)%nat ->
  exists pre x lm, (a, m) :: l = pre ++ [(x, lm)] /\
    adj_count_loop fuel a count st = Some ((x, count + chain_len ((a, m) :: l)), st).
Proof.
  revert a m l count. induction fuel as [|fuel IH]; intros a m l count C F; [lia|].
  destruct C as (_ & Ha & C). simpl adj_count_loop. rewrite (run_load _ _ _ _ Ha).
  destruct l as [|[b n] l]; simpl in C.
  - rewrite C. exists [], a, m. split; [done|]. unfold mret, M_ret. simpl. f_equal. f_equal. f_equal. lia.
  - destruct C as (E & Hb & C). rewrite E.
    destruct (IH b n l (count + m_len m)) as (pre & x & lm & El & Er);
      [done|simpl in F; lia|].
    exists ((a, m) :: pre), x, lm. rewrite El. split; [done|]. rewrite Er, <- El. simpl.
    f_equal. f_equal. f_equal. lia.
Qed.

(** ** m_adj *)

(** What an operation on the chain at [p] may change: the mbufs of the
    chain, not the others, nor any buffer or pool. *)
Record chain_update (st st' : mstate) (l l' : list (addr * mbuf)) (p : option addr) : Prop := {
  upd_chain : chain (mbufs st') p l';
  upd_addrs : l'.*1 = l.*1;
  upd_frame : forall a, a ∉ l.*1 -> mbufs st' !! a = mbufs st !! a;
  upd_rest : st' = st <| mbufs := mbufs st' |>
}.

Lemma chain_update_store st p l l' : chain (mbufs st) p l -> l'.*1 = l.*1 -> linked p l' ->
  chain_update st (st <| mbufs := store (mbufs st) l' |>) l l' p.
Proof.
  intros C E L. split; upd_simpl; try done.
  - apply store_chain; [|done]. rewrite E. by eapply chain_NoDup.
  - intros a Ha. apply store_lookup_ne. by rewrite E.
Qed.

(** Setting the packet length of the first mbuf. *)
Definition set_pktlen (n : Z) (l : list (addr * mbuf)) : list (addr * mbuf) :=
  match l with (a, m) :: l => (a, m <| m_pkthdr_len := n |>) :: l | [] => [] end.

Lemma chain_update_pktlen st st' a m l m1 l1 n :
  chain_update st st' ((a, m) :: l) ((a, m1) :: l1) (Some a) ->
  let st'' := st' <| mbufs := <[a := m1 <| m_pkthdr_len := n |>]> (mbufs st') |> in
  chain_update st st'' ((a, m) :: l) ((a, m1 <| m_pkthdr_len := n |>) :: l1) (Some a).
Proof.
  intros [C A F R]. pose proof (chain_NoDup _ _ _ C) as Nd. simpl in *.
  apply NoDup_cons in Nd as [Na Nd]. destruct C as (_ & Ha & C).
  split; simpl; upd_simpl; try done.
  - rewrite lookup_insert_eq. split; [done|]. split; [done|]. by apply chain_insert_ne.
  - intros b Hb. rewrite lookup_insert_ne by (intros ->; apply Hb; left). auto.
  - rewrite R at 1. done.
Qed.

Lemma chain_bytes_pktlen bs a m n l :
  chain_bytes bs ((a, m <| m_pkthdr_len := n |>) :: l) = chain_bytes bs ((a, m) :: l).
Proof. done. Qed.

(** The packet header of a chain records its length. *)
Definition pkthdr_ok (l : list (addr * mbuf)) : Prop :=
  match l with
  | (_, m) :: _ => flag_set (m_flags m) M_PKTHDR = true -> m_pkthdr_len m = chain_len l
  | [] => True
  end.

(** The result of [m_adj] on the bytes. *)
Definition adj_bytes (req_len : Z) (bytes : list Z) : list Z :=
  if 0 <=? req_len then drop (Z.to_nat req_len) bytes
  else take (length bytes - Z.to_nat (- req_len)) bytes.

Lemma adj_head_cons a m l len : exists m1 l1, adj_head ((a, m) :: l) len = (a, m1) :: l1 /\
  m_flags m1 = m_flags m /\ m_pkthdr_len m1 = m_pkthdr_len m.
Proof. simpl. repeat case_match; eexists _, _; (split; [done|]); upd_simpl; done. Qed.

Lemma adj_tail_cons a m l count : exists m1 l1, adj_tail ((a, m) :: l) count = (a, m1) :: l1 /\
  m_flags m1 = m_flags m /\ m_pkthdr_len m1 = m_pkthdr_len m.
Proof. simpl. repeat case_match; eexists _, _; (split; [done|]); upd_simpl; done. Qed.

Lemma m_adj_head_run st a m l req_len :
  chain (mbufs st) (Some a) ((a, m) :: l) -> chain_ok (bufs st) ((a, m) :: l) -> 0 <= req_len ->
  exists st' l', m_adj (Some a) req_len st = Some (tt, st') /\
    chain_update st st' ((a, m) :: l) l' (Some a) /\
    chain_bytes (bufs st) l' = chain_bytes (bufs st) (adj_head ((a, m) :: l) req_len) /\
    chain_ok (bufs st) l' /\
    (pkthdr_ok ((a, m) :: l) -> pkthdr_ok l').
Proof.
  intros C K L. unfold m_adj. destruct (Z.leb_spec 0 req_len); [|lia].
  pose proof (chain_len_nonneg _ _ K) as Lc.
  pose proof (chain_fuel_enough st _ _ C) as Fu.
  erewrite run_bind; [|apply adj_head_loop_run; [exact C|exact Fu| |done]].
  2:{ eapply Forall_impl; [exact K|]. intros [? ?] [? _]; simpl in *; lia. }
  destruct (adj_head_bytes _ _ req_len K L) as [K' B'].
  pose proof (chain_update_store st _ _ _ C (adj_head_addrs _ req_len)
    (adj_head_linked _ _ req_len (chain_linked _ _ _ C))) as U.
  pose proof (chain_bytes_length _ _ K') as Ln. rewrite B', length_drop in Ln.
  pose proof (chain_bytes_length _ _ K) as Ln0.
  destruct (adj_head_cons a m l req_len) as (m1 & l1 & E1 & Fl & Pl). rewrite E1 in *.
  assert (mbufs (st <| mbufs := store (mbufs st) ((a, m1) :: l1) |>) !! a = Some m1) as Ha.
  { upd_simpl. simpl. apply lookup_insert_eq. }
  rewrite (run_load _ _ _ _ Ha). rewrite Fl. destruct (flag_set (m_flags m) M_PKTHDR) eqn:Ph.
  - rewrite (update_run _ _ _ _ Ha). eexists _, _. split; [done|].
    split; [by apply chain_update_pktlen|]. split; [done|]. split; [apply Forall_cons in K' as [K1 K2]; constructor; [exact K1|exact K2]|].
    unfold pkthdr_ok. rewrite Ph. upd_simpl. intros P _. rewrite Pl, P by done.
    change (chain_len ((a, set m_pkthdr_len _ m1) :: l1)) with (chain_len ((a, m1) :: l1)). lia.
  - eexists _, _. split; [done|]. split; [exact U|]. split; [done|]. split; [done|].
    unfold pkthdr_ok. rewrite Fl, Ph. done.
Qed.

Lemma store_app h l k : store h (l ++ k) = store (store h k) l.
Proof. unfold store. by rewrite foldr_app. Qed.

Lemma store_id h l : Forall (fun am => h !! am.1 = Some am.2) l -> store h l = h.
Proof.
  induction 1 as [|[a m] l E _ IH]; simpl in *; [done|]. rewrite IH. by apply insert_id.
Qed.

Lemma chain_lookup_all h p l : chain h p l -> Forall (fun am => h !! am.1 = Some am.2) l.
Proof. intros C. apply Forall_forall. intros [a m] H. by eapply chain_lookup. Qed.

(** Replacing the last mbuf of a chain. *)
Lemma store_last h p pre x lm lm' : chain h p (pre ++ [(x, lm)]) ->
  store h (pre ++ [(x, lm')]) = <[x := lm']> h.
Proof.
  intros C. rewrite store_app. simpl. rewrite store_insert_ne.
  - f_equal. apply store_id. apply chain_lookup_all in C. by apply Forall_app in C as [? _].
  - apply chain_NoDup in C. rewrite fmap_app in C. apply NoDup_app in C as (_ & N & _).
    intros H. apply (N x H). simpl. left.
Qed.

(** The outcome of trimming a chain to the bytes [bytes]. *)
Definition adj_result (st st' : mstate) (l l' : list (addr * mbuf)) (p : option addr)
    (bytes : list Z) : Prop :=
  chain_update st st' l l' p /\ chain_bytes (bufs st) l' = bytes /\ chain_ok (bufs st) l' /\
  (pkthdr_ok l -> pkthdr_ok l').

(** Writing back a trimmed tail, with the packet length set to [cnt] when
    the chain has a packet header. *)
Lemma adj_tail_close st a m l cnt m1 l1 : let L := (a, m) :: l in
  chain (mbufs st) (Some a) L -> chain_ok (bufs st) L -> 0 <= cnt <= chain_len L ->
  adj_tail L cnt = (a, m1) :: l1 ->
  let st1 := st <| mbufs := store (mbufs st) ((a, m1) :: l1) |> in
  let bytes := take (Z.to_nat cnt) (chain_bytes (bufs st) L) in
  (flag_set (m_flags m) M_PKTHDR = false ->
   adj_result st st1 L ((a, m1) :: l1) (Some a) bytes) /\
  (forall n, flag_set (m_flags m) M_PKTHDR = true -> (pkthdr_ok L -> n = cnt) ->
   adj_result st (st1 <| mbufs := <[a := m1 <| m_pkthdr_len := n |>]> (mbufs st1) |>) L
     ((a, m1 <| m_pkthdr_len := n |>) :: l1) (Some a) bytes).
Proof.
  intros L C K Lc E1 st1 bytes.
  destruct (adj_tail_bytes _ _ cnt K ltac:(lia)) as [K' B'].
  pose proof (chain_update_store st _ _ _ C (adj_tail_addrs _ cnt)
    (adj_tail_linked _ _ cnt (chain_linked _ _ _ C))) as U.
  pose proof (chain_bytes_length _ _ K') as Ln. rewrite B', length_take in Ln.
  pose proof (chain_bytes_length _ _ K) as Ln0.
  destruct (adj_tail_cons a m l cnt) as (m1' & l1' & E1' & Fl & Pl). fold L in E1'.
  rewrite E1 in *. injection E1' as <- <-. split; [intros Ph|intros n Ph Hn].
  - split; [exact U|]. split; [done|]. split; [done|]. unfold pkthdr_ok. rewrite Fl, Ph. done.
  - split; [exact (chain_update_pktlen st st1 a m l m1 l1 n U)|]. split; [done|].
    split; [apply Forall_cons in K' as [K1 K2]; constructor; [exact K1|exact K2]|].
    intros Po. rewrite (Hn Po). unfold pkthdr_ok. upd_simpl. intros _.
    change (cnt = chain_len ((a, m1) :: l1)). lia.
Qed.

(** Both ways of trimming the tail end in the same store. *)
Lemma adj_short_store st a m l pre x lm len : let L := (a, m) :: l in
  chain (mbufs st) (Some a) L -> chain_ok (bufs st) L -> L = pre ++ [(x, lm)] ->
  0 <= len <= m_len lm ->
  store (mbufs st) (adj_tail L (chain_len L - len)) =
    <[x := lm <| m_len := m_len lm - len |>]> (mbufs st) /\ len <= chain_len L.
Proof.
  intros L C K El Le. rewrite El in *. split.
  - rewrite (adj_tail_last (bufs st)) by done. by eapply store_last.
  - apply Forall_app in K as [K _]. clear -K Le.
    induction K as [|[? ?] ? [? _] _ IH]; simpl in *; lia.
Qed.

(** A change of the packet length commutes with trimming. *)
Lemma adj_scan_store h a m l cnt n m1 l1 : a ∉ l.*1 -> adj_tail ((a, m) :: l) cnt = (a, m1) :: l1 ->
  store (<[a := m <| m_pkthdr_len := n |>]> h) (adj_tail ((a, m <| m_pkthdr_len := n |>) :: l) cnt) =
  <[a := m1 <| m_pkthdr_len := n |>]> (store h ((a, m1) :: l1)).
Proof.
  intros Na E1. assert (a ∉ l1.*1) as Na1.
  { pose proof (adj_tail_addrs ((a, m) :: l) cnt) as Ad. rewrite E1 in Ad.
    change (a :: l1.*1 = a :: l.*1) in Ad. injection Ad as Ad. by rewrite Ad. }
  revert E1. simpl. destruct (_ <=? _); intros [= <- <-]; simpl;
    rewrite store_insert_ne by done; by rewrite !insert_insert_eq.
Qed.

Lemma m_adj_tail_run st a m l req_len : let L := (a, m) :: l in
  chain (mbufs st) (Some a) L -> chain_ok (bufs st) L -> req_len < 0 ->
  exists st' l', m_adj (Some a) req_len st = Some (tt, st') /\
    adj_result st st' L l' (Some a)
      (take (Z.to_nat (Z.max 0 (chain_len L + req_len))) (chain_bytes (bufs st) L)).
Proof.
  intros L C K Lr. unfold m_adj. destruct (Z.leb_spec 0 req_len); [lia|].
  pose proof (chain_fuel_enough st _ _ C) as Fu. pose proof (chain_len_nonneg _ _ K).
  destruct (adj_count_loop_run (chain_fuel st) a m l 0 st C) as (pre & x & lm & El & Er);
    [simpl in Fu; lia|]. rewrite Z.add_0_l in Er. fold L in El, Er.
  erewrite run_bind; [|exact Er]. cbv beta iota zeta.
  assert (mbufs st !! a = Some m) as Ha by (by destruct C as (_ & ? & _)).
  assert (mbufs st !! x = Some lm) as Hx.
  { eapply chain_lookup; [exact C|]. rewrite El. apply elem_of_app. right. left. }
  rewrite (run_load _ _ _ _ Ha), (run_load _ _ _ _ Hx).
  set (cnt := Z.max 0 (chain_len L + req_len)).
  destruct (adj_tail_cons a m l cnt) as (m1 & l1 & E1 & _ & Pl).
  destruct (adj_tail_close st a m l cnt m1 l1 C K ltac:(fold L; lia) E1) as [Cl1 Cl2].
  destruct (Z.leb_spec (- req_len) (m_len lm)) as [Sh|Sh].
  - destruct (adj_short_store st a m l pre x lm (- req_len) C K El ltac:(lia)) as [Es Le].
    fold L in Es, Le. assert (cnt = chain_len L - - req_len) as Ec by lia.
    rewrite <- Ec in Es. fold L in E1. rewrite E1 in Es.
    rewrite (run_update _ _ _ _ _ Hx), <- Es.
    destruct (flag_set (m_flags m) M_PKTHDR) eqn:Ph; [|eexists _, _; split; [done|by apply Cl1]].
    rewrite (update_run _ _ m1) by (upd_simpl; simpl; apply lookup_insert_eq).
    eexists _, _. split; [done|]. apply Cl2; [done|]. unfold pkthdr_ok, L. rewrite Ph, Pl.
    intros P. rewrite P by done. fold L. lia.
  - replace (Z.max 0 (chain_len L - - req_len)) with cnt by lia.
    destruct (flag_set (m_flags m) M_PKTHDR) eqn:Ph.
    + erewrite run_bind; [|exact (update_run _ _ _ _ Ha)].
      pose proof (chain_NoDup _ _ _ C) as Nd. simpl in Nd. apply NoDup_cons in Nd as [Na _].
      unfold with_fuel. rewrite (adj_tail_loop_run _ _ ((a, m <| m_pkthdr_len := cnt |>) :: l)).
      * upd_simpl. rewrite (adj_scan_store _ _ _ _ _ _ _ _ Na E1).
        eexists _, _. split; [done|]. by apply Cl2.
      * destruct C as (_ & _ & C). upd_simpl. simpl. rewrite lookup_insert_eq.
        split; [done|]. split; [done|]. by apply chain_insert_ne.
      * unfold chain_fuel. upd_simpl. rewrite map_size_insert_Some by eauto. exact Fu.
    + erewrite run_bind; [|done]. unfold with_fuel.
      rewrite (adj_tail_loop_run _ _ L) by done. fold L in E1. rewrite E1.
      eexists _, _. split; [done|]. by apply Cl1.
Qed.

(** [m_adj] removes exactly the requested bytes from the head (or, for
    a negative request, the tail) of the packet, however it is spread
    over the chain; it keeps every mbuf linked and its data inside its
    buffer, keeps a correct packet length correct, and touches nothing
    else. *)
Theorem m_adj_bytes st a m l req_len :
  chain (mbufs st) (Some a) ((a, m) :: l) -> chain_ok (bufs st) ((a, m) :: l) ->
  exists st' l', m_adj (Some a) req_len st = Some (tt, st') /\
    adj_result st st' ((a, m) :: l) l' (Some a)
      (adj_bytes req_len (chain_bytes (bufs st) ((a, m) :: l))).
Proof.
  intros C K. unfold adj_bytes. destruct (Z.leb_spec 0 req_len) as [H|H].
  - destruct (m_adj_head_run st a m l req_len C K H) as (st' & l' & E & U & B & K' & P).
    exists st', l'. split; [done|]. split; [done|]. split; [|done].
    rewrite B. apply (adj_head_bytes _ _ req_len K H).
  - destruct (m_adj_tail_run st a m l req_len C K H) as (st' & l' & E & R).
    exists st', l'. split; [done|].
    replace (length (chain_bytes (bufs st) ((a, m) :: l)) - Z.to_nat (- req_len))%nat
      with (Z.to_nat (Z.max 0 (chain_len ((a, m) :: l) + req_len))); [done|].
    pose proof (chain_bytes_length _ _ K). lia.
Qed.

(** Two mbufs of five and three bytes, in two buffers. *)
Definition ex_mbuf (next : option addr) (b : addr) (len flags pktlen : Z) : mbuf :=
  mkMbuf next None (Some (InBuf b 2)) len flags (Some (Direct b)) MT_DATA pktlen None.
Definition ex_chain : list (addr * mbuf) :=
  [(1%positive, ex_mbuf (Some 2%positive) 1 5 M_PKTHDR 8); (2%positive, ex_mbuf None 2 3 0 0)].
Definition ex_bufs : gmap addr rtebuf :=
  <[1%positive := mkRtebuf [0; 0; 1; 2; 3; 4; 5; 0] 1]>
  (<[2%positive := mkRtebuf [0; 0; 6; 7; 8; 0] 1]> ∅).
Definition ex_state : mstate :=
  mkMstate (list_to_map ex_chain) ∅ (mkPool [3; 4; 5]%positive) ex_bufs (mkPool []) (mkPool [10; 11; 12]%positive).

Lemma ex_state_chain : chain (mbufs ex_state) (Some 1%positive) ex_chain.
Proof. repeat split; vm_compute; reflexivity. Qed.

Lemma ex_state_ok : chain_ok (bufs ex_state) ex_chain.
Proof.
  repeat constructor; simpl; try lia.
  - exists 1%positive, 2, (mkRtebuf [0; 0; 1; 2; 3; 4; 5; 0] 1). repeat split; simpl; lia.
  - exists 2%positive, 2, (mkRtebuf [0; 0; 6; 7; 8; 0] 1). repeat split; simpl; lia.
Qed.

Lemma m_adj_bytes_witness : exists st' l', m_adj (Some 1%positive) (-4) ex_state = Some (tt, st') /\
  adj_result ex_state st' ex_chain l' (Some 1%positive) [1; 2; 3; 4].
Proof. apply (m_adj_bytes ex_state); [apply ex_state_chain|apply ex_state_ok]. Defined.

(** ** m_copydata and m_apply *)

Lemma chain_app_inv h p l1 l2 : chain h p (l1 ++ l2) -> exists p', chain h p' l2.
Proof.
  revert p; induction l1 as [|[a m] l1 IH]; intros p C; simpl in C; [eauto|].
  destruct C as (_ & _ & C). eauto.
Qed.

(** Where [skip_loop] stops. *)
Definition at_offset (l2 : list (addr * mbuf)) (off : Z) : Prop :=
  off = 0 \/ exists a m l, l2 = (a, m) :: l /\ 0 < off < m_len m.

Lemma skip_loop_run fuel bs p l off st :
  chain (mbufs st) p l -> chain_ok bs l -> 0 <= off <= chain_len l -> (length l < fuel)%nat ->
  exists l1 l2 p' off', l = l1 ++ l2 /\ chain (mbufs st) p' l2 /\ chain_len l1 + off' = off /\
    at_offset l2 off' /\ skip_loop fuel p off st = Some ((p', off'), st).
Proof.
  revert p l off. induction fuel as [|fuel IH]; intros p l off C K L F; [lia|].
  simpl skip_loop. destruct (Z.leb_spec off 0).
  { exists [], l, p, off. simpl. repeat split; try done. left. lia. }
  destruct l as [|[a m] l]; [simpl in L; lia|]. destruct C as (-> & Ha & C).
  simpl deref. rewrite (run_load _ _ _ _ Ha). destruct (Z.ltb_spec off (m_len m)).
  { exists [], ((a, m) :: l), (Some a), off. repeat split; try done. right. exists a, m, l. split; [done|]. lia. }
  apply Forall_cons in K as [Km K]. simpl in L, F.
  destruct (IH (m_next m) l (off - m_len m) C K) as (l1 & l2 & p' & off' & -> & C2 & E & A & R); [lia..|].
  exists ((a, m) :: l1), l2, p', off'. simpl. repeat split; try done. lia.
Qed.

Lemma skip_loop_panics fuel bs p l off st :
  chain (mbufs st) p l -> chain_ok bs l -> chain_len l < off -> skip_loop fuel p off st = None.
Proof.
  revert p l off. induction fuel as [|fuel IH]; intros p l off C K L;
    pose proof (chain_len_nonneg _ _ K); simpl skip_loop; (destruct (Z.leb_spec off 0); [lia|]); [done|].
  destruct l as [|[a m] l]; simpl in C; [by subst p|]. destruct C as (-> & Ha & C).
  simpl deref. rewrite (run_load _ _ _ _ Ha). apply Forall_cons in K as [Km K]. simpl in *.
  pose proof (chain_len_nonneg _ _ K).
  destruct (Z.ltb_spec off (m_len m)); [lia|]. apply (IH _ l); try done. lia.
Qed.

Lemma read_bytes_run st m off n : mbuf_ok (bufs st) m -> 0 <= off -> 0 <= n -> off + n <= m_len m ->
  read_bytes (data_add (m_data m) off) n st =
    Some (take (Z.to_nat n) (drop (Z.to_nat off) (mbuf_bytes (bufs st) m)), st).
Proof.
  intros (L & b & o & rb & D & E & O & H) Ho Hn Hl. unfold read_bytes, mbuf_bytes. rewrite D. simpl.
  destruct (Z.eqb_spec n 0) as [->|]; [by rewrite take_0|]. rewrite E. f_equal. f_equal.
  rewrite skipn_firstn_comm, drop_drop, take_take. f_equal; [lia|]. f_equal. lia.
Qed.

(** A piece of a list that starts in its first part. *)
Lemma take_drop_app {A} (x y : list A) off len n : 0 <= off <= Z.of_nat (length x) -> 0 <= len ->
  n = Z.min (Z.of_nat (length x) - off) len ->
  take (Z.to_nat len) (drop (Z.to_nat off) (x ++ y)) =
    take (Z.to_nat n) (drop (Z.to_nat off) x) ++ take (Z.to_nat (len - n)) y.
Proof.
  intros Ho Hl ->. rewrite drop_app_le by lia. rewrite take_app. rewrite length_drop. f_equal.
  - destruct (Z.le_gt_cases len (Z.of_nat (length x) - off)).
    + f_equal. lia.
    + rewrite !take_ge; rewrite ?length_drop; try lia. done.
  - f_equal. lia.
Qed.

(** The first piece of a copy that starts at [off] of the chain [l]. *)
Lemma piece_length off len n : 0 <= off <= n -> 0 <= len < 2 ^ 31 -> n < 2 ^ 31 ->
  Z.min (u32 (n - off)) (u32 len) = Z.min (n - off) len.
Proof. intros. rewrite !u32_small by lia. done. Qed.

Lemma at_offset_head bs a m l off : mbuf_ok bs m -> at_offset ((a, m) :: l) off -> 0 <= off <= m_len m.
Proof. intros [? _] [->|(a' & m' & l' & [= <- <- <-] & ?)]; lia. Qed.

Lemma copydata_loop_run fuel p l off len st :
  chain (mbufs st) p l -> chain_ok (bufs st) l -> at_offset l off -> 0 <= len < 2 ^ 31 ->
  (length l < fuel)%nat -> copydata_loop fuel p off len st =
    if off + len <=? chain_len l
    then Some (take (Z.to_nat len) (drop (Z.to_nat off) (chain_bytes (bufs st) l)), st) else None.
Proof.
  revert p l off len. induction fuel as [|fuel IH]; intros p l off len C K A L F; [lia|].
  simpl copydata_loop. destruct (Z.leb_spec len 0).
  { assert (len = 0) as -> by lia. rewrite take_0. pose proof (chain_len_nonneg _ _ K).
    destruct (Z.leb_spec (off + 0) (chain_len l)); [done|].
    destruct A as [->|(a & m & l' & -> & ?)]; [lia|].
    apply Forall_cons in K as [_ K]. pose proof (chain_len_nonneg _ _ K). simpl in *. lia. }
  destruct l as [|[a m] l].
  { simpl in C. subst p. destruct A as [->|(? & ? & ? & ? & _)]; [|done].
    simpl chain_len. destruct (Z.leb_spec (0 + len) 0); [lia|]. done. }
  destruct C as (-> & Ha & C). simpl deref. rewrite (run_load _ _ _ _ Ha).
  apply Forall_cons in K as [Km K]. simpl in Km, F.
  pose proof (at_offset_head _ _ _ _ _ Km A) as Ao. pose proof Km as [Lm _].
  rewrite piece_length by lia. set (n := Z.min (m_len m - off) len).
  erewrite run_bind; [|apply read_bytes_run; [done|lia..]].
  assert (copydata_loop fuel (m_next m) 0 (len - n) st =
    if 0 + (len - n) <=? chain_len l
    then Some (take (Z.to_nat (len - n)) (chain_bytes (bufs st) l), st) else None) as Er.
  { apply (IH _ l); try done; [by left|lia|lia]. }
  simpl chain_len. unfold mbind, M_bind. rewrite Er.
  pose proof (mbuf_bytes_length _ _ Km). pose proof (chain_len_nonneg _ _ K).
  replace (0 + (len - n) <=? chain_len l) with (off + len <=? m_len m + chain_len l).
  2:{ destruct (Z.leb_spec (off + len) (m_len m + chain_len l)), (Z.leb_spec (0 + (len - n)) (chain_len l)); lia. }
  destruct (off + len <=? m_len m + chain_len l); [|done]. unfold mret, M_ret. f_equal. f_equal.
  rewrite chain_bytes_cons. symmetry. apply take_drop_app; lia.
Qed.

(** [m_copydata] copies exactly the bytes [off .. off+len) of the packet,
    wherever mbuf boundaries fall, and changes nothing; it panics exactly
    when the packet is shorter than that. *)
Theorem m_copydata_exact st p l off len :
  chain (mbufs st) p l -> chain_ok (bufs st) l -> 0 <= off -> 0 <= len < 2 ^ 31 ->
  m_copydata p off len st =
    if off + len <=? chain_len l
    then Some (take (Z.to_nat len) (drop (Z.to_nat off) (chain_bytes (bufs st) l)), st) else None.
Proof.
  intros C K O L. unfold m_copydata. destruct (Z.ltb_spec off 0); [lia|].
  destruct (Z.ltb_spec len 0); [lia|]. simpl. unfold with_fuel.
  pose proof (chain_fuel_enough st _ _ C) as Fu.
  destruct (Z.le_gt_cases off (chain_len l)) as [Le|Gt].
  2:{ destruct (Z.leb_spec (off + len) (chain_len l)); [lia|].
      unfold mbind, M_bind. by rewrite (skip_loop_panics _ _ _ _ _ _ C K) by lia. }
  destruct (skip_loop_run (chain_fuel st) _ _ _ off st C K) as (l1 & l2 & p' & off' & -> & C2 & E & A & R);
    [lia..|].
  erewrite run_bind; [|exact R]. cbv beta iota zeta. apply Forall_app in K as [K1 K2].
  rewrite (copydata_loop_run _ _ l2); [|done..|rewrite length_app in Fu; lia].
  rewrite chain_len_app. rewrite <- E.
  replace (chain_len l1 + off' + len <=? chain_len l1 + chain_len l2) with (off' + len <=? chain_len l2).
  2:{ destruct (Z.leb_spec (off' + len) (chain_len l2)), (Z.leb_spec (chain_len l1 + off' + len) (chain_len l1 + chain_len l2)); lia. }
  destruct (off' + len <=? _); [|done]. do 3 f_equal.
  rewrite chain_bytes_app, drop_app_ge; pose proof (chain_bytes_length _ _ K1); pose proof (chain_len_nonneg _ _ K1).
  - f_equal. destruct A as [->|(? & ? & ? & -> & ?)]; lia.
  - destruct A as [->|(? & ? & ? & -> & ?)]; lia.
Qed.

Lemma m_copydata_exact_witness : m_copydata (Some 1%positive) 3 4 ex_state = Some ([4; 5; 6; 7], ex_state).
Proof. apply (m_copydata_exact ex_state _ ex_chain); [apply ex_state_chain|apply ex_state_ok|lia..]. Defined.
