(* ===== verification/MbufInv.v ===== *)
(** * The mbuf heap: reference counts, freeing and copying

    Every buffer of DPDK is held by as many live mbufs as its reference
    count says (plus the references [ext] that drivers hold), a buffer is
    in its pool exactly when nobody holds it, and no object is in a pool
    twice or both free and in use.  All operations keep this invariant;
    under it [m_freem] gives everything back and [m_copym0] returns a
    copy that shares the bytes of the original. *)

From S2P Require Import Prelude Pool Mbuf MbufFacts.

(** ** Counting the mbufs that hold an object *)

Section refs.
Variable key : mbuf -> option addr.

Definition hits (m : mbuf) (b : addr) : Z := if decide (key m = Some b) then 1 else 0.

Definition refs (h : gmap addr mbuf) (b : addr) : Z :=
  Z.of_nat (size (filter (fun am => key am.2 = Some b) h)).

Lemma refs_fresh h a m b : h !! a = None -> refs (<[a := m]> h) b = refs h b + hits m b.
Proof.
  intros E. unfold refs, hits. destruct (decide (key m = Some b)) as [K|K].
  - rewrite map_filter_insert_True by done. rewrite map_size_insert_None; [lia|].
    apply map_lookup_filter_None. auto.
  - rewrite map_filter_insert_False by done. rewrite delete_id by done. lia.
Qed.

Lemma refs_delete h a m b : h !! a = Some m -> refs (delete a h) b = refs h b - hits m b.
Proof.
  intros E. rewrite <- (insert_delete_id h a m E) at 2.
  rewrite refs_fresh by apply lookup_delete_eq. lia.
Qed.

Lemma refs_insert h a m m' b : h !! a = Some m -> refs (<[a := m']> h) b = refs h b - hits m b + hits m' b.
Proof.
  intros E. rewrite <- insert_delete_eq. rewrite refs_fresh by apply lookup_delete_eq.
  by rewrite (refs_delete _ _ m).
Qed.

Lemma refs_nonneg h b : 0 <= refs h b.
Proof. unfold refs. lia. Qed.

Lemma refs_pos h a m b : h !! a = Some m -> key m = Some b -> 0 < refs h b.
Proof.
  intros E K. pose proof (refs_delete h a m b E) as D. pose proof (refs_nonneg (delete a h) b).
  unfold hits in D. rewrite decide_True in D by done. lia.
Qed.

Lemma hits_some m b : key m = Some b -> hits m b = 1.
Proof. intros E. unfold hits. by rewrite decide_True. Qed.

Lemma hits_ne m b : key m <> Some b -> hits m b = 0.
Proof. intros E. unfold hits. by rewrite decide_False. Qed.

Lemma hits_key m m' b : key m' = key m -> hits m' b = hits m b.
Proof. intros E. unfold hits. by rewrite E. Qed.
End refs.

(** The buffer an mbuf holds, and the DPDK handle of a clone. *)
Definition buf_key (m : mbuf) : option addr := rte_buf <$> m_paddr m.
Definition hdl_key (m : mbuf) : option addr :=
  match m_paddr m with Some (Indirect hdl _) => Some hdl | _ => None end.

Lemma key_paddr m m' : m_paddr m' = m_paddr m -> buf_key m' = buf_key m /\ hdl_key m' = hdl_key m.
Proof. unfold buf_key, hdl_key. intros ->. done. Qed.

Definition same_bytes (bs bs' : gmap addr rtebuf) : Prop :=
  forall b, buf_bytes <$> bs' !! b = buf_bytes <$> bs !! b.

Lemma same_bytes_insert bs b rb rb' : bs !! b = Some rb -> buf_bytes rb' = buf_bytes rb ->
  same_bytes bs (<[b := rb']> bs).
Proof.
  intros E B c. destruct (decide (b = c)) as [<-|N].
  - rewrite lookup_insert_eq, E. simpl. by rewrite B.
  - by rewrite lookup_insert_ne.
Qed.

#[export] Instance same_bytes_refl : Reflexive same_bytes.
Proof. intros bs b. done. Qed.

#[export] Instance same_bytes_trans : Transitive same_bytes.
Proof. intros x y z H1 H2 b. by rewrite (H2 b), (H1 b). Qed.

(** Bytes and bounds depend on the contents of the buffers only. *)
Lemma mbuf_bytes_same bs bs' m : same_bytes bs bs' -> mbuf_bytes bs' m = mbuf_bytes bs m.
Proof.
  intros S. unfold mbuf_bytes. destruct (m_data m) as [[b o|]|]; try done.
  specialize (S b). destruct (bs' !! b), (bs !! b); simpl in S; congruence.
Qed.

Lemma mbuf_ok_same bs bs' m : same_bytes bs bs' -> mbuf_ok bs m -> mbuf_ok bs' m.
Proof.
  intros S (L & b & o & rb & D & E & O & H). split; [done|].
  specialize (S b). rewrite E in S. destruct (bs' !! b) as [rb'|] eqn:E'; [|done].
  simpl in S. assert (buf_bytes rb' = buf_bytes rb) as B by congruence.
  exists b, o, rb'. repeat split; try done. by rewrite B.
Qed.

Lemma chain_bytes_same bs bs' l : same_bytes bs bs' -> chain_bytes bs' l = chain_bytes bs l.
Proof.
  intros S. induction l as [|[a m] l IH]; [done|]. by rewrite !chain_bytes_cons, IH, (mbuf_bytes_same bs bs').
Qed.

Lemma chain_ok_same bs bs' l : same_bytes bs bs' -> chain_ok bs l -> chain_ok bs' l.
Proof. intros S K. eapply Forall_impl; [exact K|]. intros am. by apply mbuf_ok_same. Qed.

(** ** The invariant *)

Section invariant.
Variable ext : addr -> Z.
Hypothesis ext_nonneg : forall b, 0 <= ext b.

Record minv (st : mstate) : Prop := {
  inv_cache : NoDup (mempool (mb_cache st)) /\
    forall a, a ∈ mempool (mb_cache st) -> mbufs st !! a = None;
  inv_stale : forall a m, mb_stale st !! a = Some m -> m_paddr m = None;
  inv_refs : forall b rb, bufs st !! b = Some rb -> buf_refcnt rb = refs buf_key (mbufs st) b + ext b;
  inv_paddr : forall a m b, mbufs st !! a = Some m -> buf_key m = Some b -> is_Some (bufs st !! b);
  inv_data : NoDup (mempool (mb_data st)) /\
    forall b, b ∈ mempool (mb_data st) <-> exists rb, bufs st !! b = Some rb /\ buf_refcnt rb = 0;
  inv_handles : NoDup (mempool (mcl_cache st)) /\
    forall hdl, refs hdl_key (mbufs st) hdl <= 1 /\
      (hdl ∈ mempool (mcl_cache st) -> refs hdl_key (mbufs st) hdl = 0)
}.

(** A write that leaves [m_paddr] alone. *)
Lemma minv_write st a m m' : minv st -> mbufs st !! a = Some m -> m_paddr m' = m_paddr m ->
  minv (st <| mbufs := <[a := m']> (mbufs st) |>).
Proof.
  intros [[I1 I2] I3 I4 I5 I6 [I7 I8]] E P. destruct (key_paddr _ _ P) as [Kb Kh].
  split; upd_simpl; try done.
  - split; [done|]. intros c Hc. specialize (I2 c Hc). rewrite lookup_insert_ne by congruence. done.
  - intros b rb Hb. rewrite (refs_insert _ _ _ m) by done. rewrite (hits_key _ m m') by done.
    rewrite (I4 b rb Hb). lia.
  - intros c n b Hc Kc. destruct (decide (a = c)) as [<-|N].
    + rewrite lookup_insert_eq in Hc. injection Hc as <-. rewrite Kb in Kc. eauto.
    + rewrite lookup_insert_ne in Hc by done. eauto.
  - split; [done|]. intros hdl. rewrite (refs_insert _ _ _ m) by done.
    rewrite (hits_key _ m m') by done. specialize (I8 hdl). split; [lia|]. intros Hh. apply I8 in Hh. lia.
Qed.

(** The pool hands out an mbuf that holds nothing. *)
Lemma mb_cache_get_run st a pp : minv st -> pool_cache_get (mb_cache st) = Some (a, pp) ->
  exists m, mb_cache_get st = Some (Some a, st <| mb_cache := pp |> <| mb_stale := delete a (mb_stale st) |>
                                               <| mbufs := <[a := m]> (mbufs st) |>) /\
    m_paddr m = None /\ mbufs st !! a = None /\
    minv (st <| mb_cache := pp |> <| mb_stale := delete a (mb_stale st) |>
             <| mbufs := <[a := m]> (mbufs st) |>).
Proof.
  intros [[I1 I2] I3 I4 I5 I6 [I7 I8]] G. unfold mb_cache_get. rewrite G.
  set (m := default mbuf_zero (mb_stale st !! a)).
  assert (m_paddr m = None) as P.
  { unfold m. destruct (mb_stale st !! a) eqn:E; simpl; [eauto|done]. }
  unfold pool_cache_get, pool_get in G. destruct (mempool (mb_cache st)) as [|x r] eqn:Ep; [done|].
  injection G as <- <-. apply NoDup_cons in I1 as [N1 I1].
  assert (mbufs st !! x = None) as E by (apply I2; left).
  exists m. split; [done|]. split; [done|]. split; [done|].
  assert (buf_key m = None /\ hdl_key m = None) as [Kb Kh] by (unfold buf_key, hdl_key; by rewrite P).
  split; upd_simpl; simpl; try done.
  - split; [done|]. intros c Hc. rewrite lookup_insert_ne by congruence. apply I2. by right.
  - intros c n [_ Hc]%lookup_delete_Some. eauto.
  - intros b rb Hb. rewrite refs_fresh, hits_ne by (done || congruence). rewrite (I4 b rb Hb). lia.
  - intros c n b Hc Kc. destruct (decide (x = c)) as [<-|N].
    + rewrite lookup_insert_eq in Hc. congruence.
    + rewrite lookup_insert_ne in Hc by done. eauto.
  - split; [done|]. intros hdl. rewrite refs_fresh, hits_ne by (done || congruence).
    rewrite Z.add_0_r. apply I8.
Qed.
(** The mbuf [a], which holds nothing, takes the buffer [b] out of its pool. *)
Lemma minv_attach_direct st a m m' b pp rb : minv st -> mbufs st !! a = Some m -> m_paddr m = None ->
  m_paddr m' = Some (Direct b) -> pool_get (mb_data st) = Some (b, pp) -> bufs st !! b = Some rb ->
  minv (st <| mb_data := pp |> <| bufs := <[b := rb <| buf_refcnt := 1 |>]> (bufs st) |>
           <| mbufs := <[a := m']> (mbufs st) |>).
Proof.
  intros [[I1 I2] I3 I4 I5 [I6 I6'] [I7 I8]] E P P' G Hb.
  unfold pool_get in G. destruct (mempool (mb_data st)) as [|x r] eqn:Ep; [done|]. injection G as -> <-.
  apply NoDup_cons in I6 as [N6 I6].
  assert (buf_refcnt rb = 0) as R0.
  { destruct (proj1 (I6' b)) as (rb' & ? & ?); [left|]. congruence. }
  pose proof (I4 b rb Hb) as Rb. pose proof (refs_nonneg buf_key (mbufs st) b). pose proof (ext_nonneg b).
  assert (buf_key m = None /\ hdl_key m = None) as [Kb Kh] by (unfold buf_key, hdl_key; by rewrite P).
  assert (buf_key m' = Some b /\ hdl_key m' = None) as [Kb' Kh'] by (unfold buf_key, hdl_key; by rewrite P').
  split; upd_simpl; simpl; try done.
  - split; [done|]. intros c Hc. specialize (I2 c Hc). rewrite lookup_insert_ne by congruence. done.
  - intros c rc Hc. rewrite (refs_insert _ _ _ m) by done. rewrite (hits_ne _ m) by congruence.
    destruct (decide (b = c)) as [<-|N].
    + rewrite lookup_insert_eq in Hc. injection Hc as <-. upd_simpl. rewrite hits_some by done. lia.
    + rewrite lookup_insert_ne in Hc by done. rewrite hits_ne by congruence. rewrite (I4 c rc Hc). lia.
  - intros c n d Hc Kc. destruct (decide (b = d)) as [<-|Nb]; [rewrite lookup_insert_eq; eauto|].
    rewrite lookup_insert_ne by done. destruct (decide (a = c)) as [<-|N].
    + rewrite lookup_insert_eq in Hc. congruence.
    + rewrite lookup_insert_ne in Hc by done. eauto.
  - split; [done|]. intros c. destruct (decide (b = c)) as [<-|N].
    + rewrite lookup_insert_eq. split; [done|]. intros (? & [= <-] & ?). done.
    + rewrite lookup_insert_ne by done. rewrite <- I6', elem_of_cons. clear -N. intuition congruence.
  - split; [done|]. intros hdl. rewrite (refs_insert _ _ _ m), !hits_ne by (done || congruence).
    specialize (I8 hdl). split; [lia|]. intros Hh. apply I8 in Hh. lia.
Qed.

(** The mbuf [a] takes a handle and shares the buffer [b] that is in use. *)
Lemma minv_attach_clone st a m m' b hdl pp rb : minv st -> mbufs st !! a = Some m -> m_paddr m = None ->
  m_paddr m' = Some (Indirect hdl b) -> pool_get (mcl_cache st) = Some (hdl, pp) ->
  bufs st !! b = Some rb -> 0 < buf_refcnt rb ->
  minv (st <| mcl_cache := pp |> <| bufs := <[b := rb <| buf_refcnt := buf_refcnt rb + 1 |>]> (bufs st) |>
           <| mbufs := <[a := m']> (mbufs st) |>).
Proof.
  intros [[I1 I2] I3 I4 I5 [I6 I6'] [I7 I8]] E P P' G Hb Pos.
  unfold pool_get in G. destruct (mempool (mcl_cache st)) as [|x r] eqn:Ep; [done|]. injection G as -> <-.
  apply NoDup_cons in I7 as [N7 I7].
  assert (buf_key m = None /\ hdl_key m = None) as [Kb Kh] by (unfold buf_key, hdl_key; by rewrite P).
  assert (buf_key m' = Some b /\ hdl_key m' = Some hdl) as [Kb' Kh'] by (unfold buf_key, hdl_key; by rewrite P').
  split; upd_simpl; simpl; try done.
  - split; [done|]. intros c Hc. specialize (I2 c Hc). rewrite lookup_insert_ne by congruence. done.
  - intros c rc Hc. rewrite (refs_insert _ _ _ m) by done. rewrite (hits_ne _ m) by congruence.
    destruct (decide (b = c)) as [<-|N].
    + rewrite lookup_insert_eq in Hc. injection Hc as <-. upd_simpl. rewrite hits_some by done.
      rewrite (I4 b rb Hb). lia.
    + rewrite lookup_insert_ne in Hc by done. rewrite hits_ne by congruence. rewrite (I4 c rc Hc). lia.
  - intros c n d Hc Kc. destruct (decide (b = d)) as [<-|Nb]; [rewrite lookup_insert_eq; eauto|].
    rewrite lookup_insert_ne by done. destruct (decide (a = c)) as [<-|N].
    + rewrite lookup_insert_eq in Hc. congruence.
    + rewrite lookup_insert_ne in Hc by done. eauto.
  - split; [done|]. intros c. rewrite I6'. destruct (decide (b = c)) as [<-|N].
    + rewrite lookup_insert_eq. split; intros (? & E1 & E2).
      * rewrite Hb in E1. injection E1 as <-. lia.
      * injection E1 as <-. upd_simpl in E2. lia.
    + by rewrite lookup_insert_ne.
  - split; [done|]. intros h. rewrite (refs_insert _ _ _ m), (hits_ne _ m) by (done || congruence).
    destruct (I8 h) as [J1 J2]. destruct (decide (hdl = h)) as [<-|N].
    + rewrite hits_some by done. specialize (J2 ltac:(left)). split; [lia|done].
    + rewrite hits_ne by congruence. split; [lia|]. intros Hh. specialize (J2 ltac:(by right)). lia.
Qed.

(** The state after the reference of the mbuf [a] is dropped. *)
Definition unref_bufs (st : mstate) (b : addr) (rb : rtebuf) : gmap addr rtebuf :=
  <[b := rb <| buf_refcnt := buf_refcnt rb - 1 |>]> (bufs st).
Definition unref_pool (st : mstate) (b : addr) (rb : rtebuf) : pool :=
  if buf_refcnt rb - 1 =? 0 then pool_put (mb_data st) b else mb_data st.
Definition unref_handles (st : mstate) (r : rte) : pool :=
  match r with Direct _ => mcl_cache st | Indirect hdl _ => pool_put (mcl_cache st) hdl end.

Lemma minv_detach st a m m' r rb : minv st -> mbufs st !! a = Some m -> m_paddr m = Some r ->
  m_paddr m' = None -> bufs st !! rte_buf r = Some rb ->
  minv (st <| bufs := unref_bufs st (rte_buf r) rb |> <| mb_data := unref_pool st (rte_buf r) rb |>
           <| mcl_cache := unref_handles st r |> <| mbufs := <[a := m']> (mbufs st) |>).
Proof.
  intros [[I1 I2] I3 I4 I5 [I6 I6'] [I7 I8]] E P P' Hb.
  assert (buf_key m' = None /\ hdl_key m' = None) as [Kb' Kh'] by (unfold buf_key, hdl_key; by rewrite P').
  assert (buf_key m = Some (rte_buf r)) as Kb by (unfold buf_key; by rewrite P).
  pose proof (I4 _ _ Hb) as Rb. pose proof (refs_pos _ _ _ _ _ E Kb) as Pb. pose proof (ext_nonneg (rte_buf r)).
  split; upd_simpl; simpl; try done.
  - split; [done|]. intros c Hc. specialize (I2 c Hc). rewrite lookup_insert_ne by congruence. done.
  - intros c rc Hc. rewrite (refs_insert _ _ _ m) by done. rewrite (hits_ne _ m') by congruence.
    unfold unref_bufs in Hc. destruct (decide (rte_buf r = c)) as [<-|N].
    + rewrite lookup_insert_eq in Hc. injection Hc as <-. upd_simpl. rewrite hits_some by done. lia.
    + rewrite lookup_insert_ne in Hc by done. rewrite hits_ne by congruence. rewrite (I4 c rc Hc). lia.
  - intros c n d Hc Kc. unfold unref_bufs.
    destruct (decide (rte_buf r = d)) as [<-|Nb]; [rewrite lookup_insert_eq; eauto|].
    rewrite lookup_insert_ne by done. destruct (decide (a = c)) as [<-|N].
    + rewrite lookup_insert_eq in Hc. congruence.
    + rewrite lookup_insert_ne in Hc by done. eauto.
  - assert (rte_buf r ∉ mempool (mb_data st)) as Nf.
    { rewrite I6'. intros (? & E1 & E2). rewrite Hb in E1. injection E1 as <-. lia. }
    unfold unref_pool, unref_bufs. split.
    { destruct (_ =? 0); [|done]. simpl. apply NoDup_app. split; [done|]. split; [|apply NoDup_singleton].
      intros c Hc ->%list_elem_of_singleton. done. }
    intros c. destruct (decide (rte_buf r = c)) as [<-|N].
    + rewrite lookup_insert_eq. destruct (Z.eqb_spec (buf_refcnt rb - 1) 0) as [R0|R0]; simpl.
      * rewrite elem_of_app, list_elem_of_singleton. split; [|auto]. eauto.
      * split; [done|]. intros (? & [= <-] & E2). upd_simpl in E2. lia.
    + rewrite lookup_insert_ne by done. rewrite <- I6'. destruct (_ =? 0); simpl; [|done].
      rewrite elem_of_app, list_elem_of_singleton. clear -N. intuition congruence.
  - assert (hdl_key m = match r with Indirect h _ => Some h | Direct _ => None end) as Kh.
    { unfold hdl_key. rewrite P. done. }
    assert (forall h, refs hdl_key (<[a := m']> (mbufs st)) h = refs hdl_key (mbufs st) h - hits hdl_key m h) as Rh.
    { intros h. rewrite (refs_insert _ _ _ m) by done. rewrite (hits_ne _ m') by congruence. lia. }
    destruct r as [b|hdl b]; simpl in *.
    + split; [done|]. intros h. rewrite Rh, hits_ne by congruence. rewrite Z.sub_0_r. apply I8.
    + pose proof (refs_pos _ _ _ _ _ E Kh). split.
      { apply NoDup_app. split; [done|]. split; [|apply NoDup_singleton].
        intros c Hc ->%list_elem_of_singleton. apply (proj2 (I8 hdl)) in Hc. lia. }
      intros h. rewrite Rh. destruct (I8 h) as [J1 J2]. rewrite elem_of_app, list_elem_of_singleton.
      destruct (decide (hdl = h)) as [<-|N].
      * rewrite hits_some by done. split; [|intros _]; lia.
      * rewrite hits_ne by congruence. split; [lia|]. intros [Hh| ->]; [|done]. apply J2 in Hh. lia.
Qed.

(** An mbuf that holds nothing goes back to the pool. *)
Lemma minv_put st a m : minv st -> mbufs st !! a = Some m -> m_paddr m = None ->
  minv (st <| mbufs := delete a (mbufs st) |> <| mb_stale := <[a := m]> (mb_stale st) |>
           <| mb_cache := pool_cache_put (mb_cache st) a |>).
Proof.
  intros [[I1 I2] I3 I4 I5 I6 [I7 I8]] E P.
  assert (buf_key m = None /\ hdl_key m = None) as [Kb Kh] by (unfold buf_key, hdl_key; by rewrite P).
  split; upd_simpl; simpl; try done.
  - split.
    + apply NoDup_app. split; [done|]. split; [|apply NoDup_singleton].
      intros c Hc ->%list_elem_of_singleton. apply I2 in Hc. congruence.
    + intros c [Hc| ->%list_elem_of_singleton]%elem_of_app; [|apply lookup_delete_eq].
      apply lookup_delete_None. right. auto.
  - intros c n. destruct (decide (a = c)) as [<-|N].
    + rewrite lookup_insert_eq. by intros [= <-].
    + rewrite lookup_insert_ne by done. eauto.
  - intros b rb Hb. rewrite (refs_delete _ _ _ m), hits_ne by (done || congruence). rewrite (I4 b rb Hb). lia.
  - intros c n b [_ Hc]%lookup_delete_Some. eauto.
  - split; [done|]. intros hdl. rewrite (refs_delete _ _ _ m), hits_ne by (done || congruence).
    rewrite Z.sub_0_r. apply I8.
Qed.
(** ** Freeing *)

(** [st'] is [st] without the mbufs of [l], which are back in their pool. *)
Record freed (st st' : mstate) (l : list addr) : Prop := {
  freed_inv : minv st';
  freed_lookup : forall a, mbufs st' !! a = if decide (a ∈ l) then None else mbufs st !! a;
  freed_cache : mempool (mb_cache st') = mempool (mb_cache st) ++ l;
  freed_bytes : same_bytes (bufs st) (bufs st')
}.

Lemma freed_nil st : minv st -> freed st st [].
Proof. intros I. split; [done| |by rewrite app_nil_r|done]. intros a. rewrite decide_False; [done|]. apply not_elem_of_nil. Qed.

Lemma freed_cons st st' st'' a l : freed st st' [a] -> freed st' st'' l -> freed st st'' (a :: l).
Proof.
  intros [I L C B] [I' L' C' B']. split; [done| | |by etrans].
  - intros c. rewrite (L' c), (L c).
    pose proof (elem_of_cons l c a) as E1. pose proof (list_elem_of_singleton c a) as E2.
    destruct (decide (c ∈ l)), (decide (c ∈ [a])), (decide (c ∈ a :: l)); tauto.
  - rewrite C', C, <- app_assoc. done.
Qed.

Lemma m_paddr_free_run st a m : minv st -> mbufs st !! a = Some m ->
  exists st', m_paddr_free a m st = Some (tt, st') /\ minv st' /\
    mbufs st' = <[a := m <| m_paddr := None |>]> (mbufs st) /\ mb_cache st' = mb_cache st /\
    same_bytes (bufs st) (bufs st').
Proof.
  intros I E. unfold m_paddr_free. destruct (m_paddr m) as [r|] eqn:P.
  2:{ exists st. split; [done|]. split; [done|]. split; [|done]. symmetry. apply insert_id.
      rewrite E. destruct m; simpl in P; by subst. }
  destruct (inv_paddr _ I a m (rte_buf r) E) as [rb Hb]; [unfold buf_key; by rewrite P|].
  pose proof (minv_detach st a m (m <| m_paddr := None |>) r rb I E P eq_refl Hb) as I'.
  eexists. split; [|split; [exact I'|split; [done|split; [done|]]]].
  - destruct r as [b|hdl b]; simpl in Hb; unfold mbind, M_bind, free_mbuf, buf_unref, update, unref_bufs, unref_pool;
      simpl; rewrite Hb; simpl; (destruct (_ =? 0); simpl; rewrite E; done).
  - upd_simpl. by eapply same_bytes_insert.
Qed.

Lemma m_free_run st a m : minv st -> mbufs st !! a = Some m ->
  exists st', m_free a st = Some (m_next m, st') /\ freed st st' [a].
Proof.
  intros I E. destruct (m_paddr_free_run st a m I E) as (st1 & E1 & I1 & M1 & C1 & B1).
  unfold m_free. rewrite (run_load _ _ _ _ E). erewrite run_bind; [|exact E1].
  assert (mbufs st1 !! a = Some (m <| m_paddr := None |>)) as E2 by (rewrite M1; apply lookup_insert_eq).
  unfold mbind, M_bind, mb_cache_put. rewrite E2. eexists. split; [done|]. split.
  - by apply minv_put.
  - intros c. upd_simpl. rewrite M1. destruct (decide (c ∈ [a])) as [->%list_elem_of_singleton|N].
    + apply lookup_delete_eq.
    + rewrite list_elem_of_singleton in N. by rewrite lookup_delete_ne, lookup_insert_ne by congruence.
  - upd_simpl. simpl. by rewrite C1.
  - upd_simpl. done.
Qed.

(** Freeing mbufs leaves the rest of a chain as it is. *)
Lemma freed_chain st st' l p k : freed st st' l -> (forall a, a ∈ l -> a ∉ k.*1) ->
  chain (mbufs st) p k -> chain (mbufs st') p k.
Proof.
  intros F N C. revert p C N. induction k as [|[a m] k IH]; intros p C N; simpl in *; [done|].
  destruct C as (-> & E & C). split; [done|]. split.
  - rewrite (freed_lookup _ _ _ F). rewrite decide_False; [done|]. intros H. apply (N a H). left.
  - apply IH; [done|]. intros c Hc Hk. apply (N c Hc). by right.
Qed.

Lemma m_freem_loop_run fuel st p l : minv st -> chain (mbufs st) p l -> (length l < fuel)%nat ->
  exists st', m_freem_loop fuel p st = Some (tt, st') /\ freed st st' l.*1.
Proof.
  revert st p l. induction fuel as [|fuel IH]; intros st p l I C F; [lia|].
  destruct l as [|[a m] l]; simpl in C.
  { subst p. exists st. split; [done|]. by apply freed_nil. }
  pose proof (chain_NoDup _ p ((a, m) :: l) C) as Nd. destruct C as (-> & E & C).
  simpl in Nd. apply NoDup_cons in Nd as [Na Nd]. simpl m_freem_loop.
  destruct (m_free_run st a m I E) as (st1 & E1 & F1). erewrite run_bind; [|exact E1].
  destruct (IH st1 (m_next m) l) as (st2 & E2 & F2); [by apply F1| |simpl in F; lia|].
  - eapply freed_chain; [exact F1| |done]. intros c ->%list_elem_of_singleton. done.
  - exists st2. split; [done|]. by eapply freed_cons.
Qed.

(** [m_freem] frees a whole chain: every mbuf is back in its pool, in
    order, no other mbuf is touched, the data of the buffers is intact,
    and the reference counts stay exact, so that a buffer returns to its
    pool when, and only when, its last holder is freed. *)
Theorem m_freem_all st p l : minv st -> chain (mbufs st) p l ->
  exists st', m_freem p st = Some (tt, st') /\ freed st st' l.*1.
Proof. intros I C. apply m_freem_loop_run; [done|done|]. by eapply chain_fuel_enough. Qed.

(** ** Copying *)

(** The mbuf [m_get_indirect] returns: a clone without data yet. *)
Lemma m_get_indirect_run st r ty a pp hdl pp' rb : minv st ->
  pool_cache_get (mb_cache st) = Some (a, pp) -> pool_get (mcl_cache st) = Some (hdl, pp') ->
  bufs st !! rte_buf r = Some rb -> 0 < buf_refcnt rb ->
  exists st' m, m_get_indirect (Some r) ty st = Some (Some a, st') /\ minv st' /\
    mbufs st !! a = None /\ mbufs st' = <[a := m]> (mbufs st) /\
    m_paddr m = Some (Indirect hdl (rte_buf r)) /\ m_next m = None /\ m_flags m = 0 /\
    mb_cache st' = pp /\ mcl_cache st' = pp' /\ same_bytes (bufs st) (bufs st').
Proof.
  intros I G G' Hb Pos. destruct (mb_cache_get_run st a pp I G) as (m0 & E0 & P0 & Fr & I0).
  unfold m_get_indirect. erewrite run_bind; [|exact E0]. cbv beta iota.
  set (st0 := st <| mb_cache := pp |> <| mb_stale := _ |> <| mbufs := _ |>) in *.
  assert (mbufs st0 !! a = Some m0) as Ha by (unfold st0; upd_simpl; apply lookup_insert_eq).
  rewrite (run_update _ _ _ _ _ Ha). upd_simpl. unfold st0 at 1. upd_simpl. rewrite insert_insert_eq.
  set (m1 := m0 <| m_pktdat := _ |> <| m_type := _ |> <| m_next := _ |> <| m_nextpkt := _ |>).
  set (st1 := st0 <| mbufs := _ |>).
  assert (pool_data_mbuf_clone r st1 = Some (Some (Indirect hdl (rte_buf r)),
    st1 <| mcl_cache := pp' |> <| bufs := <[rte_buf r := rb <| buf_refcnt := buf_refcnt rb + 1 |>]> (bufs st) |>)) as Ec.
  { unfold pool_data_mbuf_clone. change (mcl_cache st1) with (mcl_cache st).
    change (bufs st1) with (bufs st). by rewrite G', Hb. }
  erewrite run_bind; [|exact Ec].
  set (st2 := st1 <| mcl_cache := _ |> <| bufs := _ |>).
  assert (mbufs st2 !! a = Some m1) as H1 by (apply lookup_insert_eq).
  rewrite (run_update _ _ _ _ _ H1).
  set (m2 := m1 <| m_paddr := _ |> <| m_data := _ |> <| m_flags := _ |>).
  assert (minv st1) as I1.
  { pose proof (minv_write st0 a m0 m1 I0 Ha eq_refl) as J. unfold st1, st0 in *.
    upd_simpl in J. by rewrite insert_insert_eq in J. }
  pose proof (minv_attach_clone st1 a m1 m2 (rte_buf r) hdl pp' rb I1 H1 P0 eq_refl G' Hb Pos) as I2.
  eexists _, m2. split; [done|]. split; [exact I2|]. split; [done|].
  split; [unfold st2, st1, st0; upd_simpl; by rewrite insert_insert_eq|].
  repeat (split; [done|]). unfold st2. upd_simpl. by eapply same_bytes_insert.
Qed.

(** A copy in progress: the copies made so far are the chain [l'] from
    [top] to [last], next to the mbufs of the original store [st0]. *)
Record copying (st0 st : mstate) (top last : option addr) (l' : list (addr * mbuf)) : Prop := {
  cp_inv : minv st;
  cp_chain : chain (mbufs st) top l';
  cp_last : last = fst <$> list.last l';
  cp_src : mbufs st0 ⊆ mbufs st;
  cp_fresh : forall a, a ∈ l'.*1 -> mbufs st0 !! a = None;
  cp_bytes : same_bytes (bufs st0) (bufs st)
}.

Lemma copying_start st : minv st -> copying st st None None [].
Proof. intros I. split; try done. intros a H. by apply not_elem_of_nil in H. Qed.

(** The links of the copies when [n] follows the last one. *)
Definition relink (l : list (addr * mbuf)) (n : addr) : list (addr * mbuf) :=
  match list.last l with
  | Some (x, mx) => take (length l - 1) l ++ [(x, mx <| m_next := Some n |>)]
  | None => []
  end.

Lemma relink_snoc pre x mx n : relink (pre ++ [(x, mx)]) n = pre ++ [(x, mx <| m_next := Some n |>)].
Proof.
  unfold relink. rewrite last_snoc, length_app. simpl. rewrite Nat.add_sub, take_app_length. done.
Qed.

Lemma relink_props l n bs : (relink l n).*1 = l.*1 /\ chain_bytes bs (relink l n) = chain_bytes bs l /\
  (chain_ok bs l -> chain_ok bs (relink l n)).
Proof.
  destruct l as [|[x mx] pre _] using rev_ind; [done|]. rewrite relink_snoc, !fmap_app, !chain_bytes_app.
  split; [done|]. split; [done|]. unfold chain_ok. rewrite !Forall_app, !Forall_singleton. done.
Qed.

Lemma chain_extend h h' p pre x mx mx' k : chain h p (pre ++ [(x, mx)]) -> h' !! x = Some mx' ->
  (forall a, a ∈ pre.*1 -> h' !! a = h !! a) -> chain h' (m_next mx') k ->
  chain h' p (pre ++ (x, mx') :: k).
Proof.
  revert p. induction pre as [|[b n] pre IH]; intros p C Hx Hp Hk; simpl in *.
  { destruct C as (-> & _ & _). done. }
  destruct C as (-> & E & C). split; [done|]. split; [rewrite Hp; [done|left]|].
  apply IH; try done. intros a Ha. apply Hp. by right.
Qed.

(** One more copy: the new mbuf [n] is linked in and filled by [f]. *)
Lemma copying_step st0 st st1 top last l' n m1 f : copying st0 st top last l' -> minv st1 ->
  mbufs st !! n = None -> mbufs st1 = <[n := m1]> (mbufs st) -> same_bytes (bufs st) (bufs st1) ->
  m_next (f m1) = None -> m_paddr (f m1) = m_paddr m1 ->
  exists top' st2 st3, set_np last top (Some n) st1 = Some (top', st2) /\
    update n f st2 = Some (tt, st3) /\ copying st0 st3 top' (Some n) (relink l' n ++ [(n, f m1)]) /\
    mb_cache st3 = mb_cache st1 /\ mcl_cache st3 = mcl_cache st1.
Proof.
  intros [I C La Sr Fr B] I1 Nn M1 B1 Nx Pa.
  assert (mbufs st1 !! n = Some m1) as H1 by (rewrite M1; apply lookup_insert_eq).
  assert (mbufs st0 !! n = None) as N0 by (eapply lookup_weaken_None; done).
  assert (mbufs st0 ⊆ mbufs st1) as S1 by (rewrite M1; by apply insert_subseteq_r).
  destruct l' as [|[x mx] pre _] using rev_ind.
  - simpl in La. subst last. exists (Some n), st1. eexists. split; [done|].
    split; [by apply update_run|]. split; [|done]. split; upd_simpl; try done.
    + by apply (minv_write _ _ m1).
    + simpl. rewrite lookup_insert_eq. done.
    + by apply insert_subseteq_r.
    + intros a ->%list_elem_of_singleton. done.
    + by etrans.
  - rewrite last_snoc in La. simpl in La. subst last. rewrite relink_snoc.
    assert (mbufs st !! x = Some mx) as Hx by (eapply chain_lookup; [exact C|]; set_solver).
    assert (n <> x) as Nnx by congruence.
    assert (mbufs st1 !! x = Some mx) as Hx1 by (by rewrite M1, lookup_insert_ne).
    assert (mbufs st0 !! x = None) as Fx by (apply Fr; rewrite fmap_app; set_solver).
    pose proof (chain_NoDup _ _ _ C) as Nd. rewrite fmap_app in Nd. apply NoDup_app in Nd as (_ & Nd & _).
    exists top. eexists _, _. split; [unfold set_np; rewrite (run_update _ _ _ _ _ Hx1); done|].
    split; [apply (update_run _ _ m1); upd_simpl; by rewrite lookup_insert_ne|]. split; [|done].
    assert (forall a, a <> n -> a <> x -> <[n := f m1]> (<[x := mx <| m_next := Some n |>]> (mbufs st1)) !! a =
              mbufs st !! a) as Ho.
    { intros a A1 A2. by rewrite !lookup_insert_ne, M1, lookup_insert_ne. }
    split; upd_simpl; try done.
    + assert (minv (st1 <| mbufs := <[x := mx <| m_next := Some n |>]> (mbufs st1) |>)) as Ix
        by (by apply (minv_write _ _ mx)).
      eapply (minv_write _ n m1 (f m1)) in Ix; [|upd_simpl; by rewrite lookup_insert_ne|done]. exact Ix.
    + rewrite <- app_assoc. simpl. eapply chain_extend; [exact C| | |].
      * rewrite lookup_insert_ne by done. apply lookup_insert_eq.
      * intros a Ha. apply Ho; [|intros ->; apply (Nd x Ha); simpl; left].
        intros ->. apply list_elem_of_fmap in Ha as ([c mc] & -> & Hc).
        assert (mbufs st !! c = Some mc) as Hcc by (eapply chain_lookup; [exact C|]; apply elem_of_app; by left).
        simpl in Nn. congruence.
      * simpl. rewrite lookup_insert_eq. done.
    + by rewrite last_snoc.
    + apply insert_subseteq_r; [done|]. by apply insert_subseteq_r.
    + intros a. rewrite !fmap_app. simpl. intros [[Ha|Ha]%elem_of_app|Ha]%elem_of_app.
      * apply Fr. rewrite fmap_app. apply elem_of_app. by left.
      * apply list_elem_of_singleton in Ha as ->. done.
      * apply list_elem_of_singleton in Ha as ->. done.
    + by etrans.
Qed.

(** The mbufs [m_copym0] can copy: they hold the buffer their data is in. *)
Definition copyable (m : mbuf) : Prop :=
  flag_set (m_flags m) M_EXT = false /\
  exists r o, m_paddr m = Some r /\ m_data m = Some (InBuf (rte_buf r) o).

Lemma mbuf_piece bs m n off nlen : mbuf_ok bs m -> 0 <= off -> 0 <= nlen -> off + nlen <= m_len m ->
  m_data n = data_add (m_data m) off -> m_len n = nlen ->
  mbuf_ok bs n /\ mbuf_bytes bs n = take (Z.to_nat nlen) (drop (Z.to_nat off) (mbuf_bytes bs m)).
Proof.
  intros (L & b & o & rb & D & E & O & H) Ho Hn Hl Dn Ln. rewrite D in Dn. simpl in Dn. split.
  - split; [lia|]. exists b, (o + off), rb. repeat split; try done; lia.
  - unfold mbuf_bytes. rewrite Dn, D, E, Ln. rewrite skipn_firstn_comm, drop_drop, take_take.
    f_equal; [lia|]. f_equal. lia.
Qed.

Lemma relink_copyable l n : Forall (fun am => copyable am.2) l -> Forall (fun am => copyable am.2) (relink l n).
Proof.
  destruct l as [|[x mx] pre _] using rev_ind; [done|]. rewrite relink_snoc, !Forall_app, !Forall_singleton. done.
Qed.

(** A pool with objects hands one out. *)
Lemma pool_get_some pp n : (0 < n)%nat -> (n <= length (mempool pp))%nat ->
  exists a pp', pool_get pp = Some (a, pp') /\ (n - 1 <= length (mempool pp'))%nat.
Proof.
  unfold pool_get. destruct (mempool pp) as [|a r]; simpl; [lia|]. intros. eexists _, _.
  split; [done|]. simpl. lia.
Qed.

(** The rest of a copy of [len] bytes after a first piece of [nlen]. *)
Definition copy_rest (len nlen : Z) : Z := if len =? M_COPYALL then len else len - nlen.

Definition copy_fits (l : list (addr * mbuf)) (off len : Z) : Prop :=
  chain_len l < M_COPYALL /\ 0 <= len /\ (off + len <= chain_len l \/ len = M_COPYALL).

Lemma copy_rest_bytes {A} (x y : list A) off len n :
  0 <= off <= Z.of_nat (length x) -> 0 <= len -> Z.of_nat (length x + length y) < M_COPYALL ->
  n = Z.min (Z.of_nat (length x) - off) len ->
  take (Z.to_nat len) (drop (Z.to_nat off) (x ++ y)) =
    take (Z.to_nat n) (drop (Z.to_nat off) x) ++ take (Z.to_nat (copy_rest len n)) y.
Proof.
  intros Ho Hl Hs En. rewrite (take_drop_app x y off len n) by done. f_equal. unfold copy_rest.
  destruct (Z.eqb_spec len M_COPYALL); [|done]. rewrite !take_ge by lia. done.
Qed.

Section copym.
Variable st0 : mstate.

(** The body of the loop for the mbuf [m]: one clone is made of it. *)
Lemma copym_body st top last l' a m off nlen : copying st0 st top last l' -> mbufs st0 !! a = Some m ->
  copyable m -> mbuf_ok (bufs st0) m -> (0 < length (mempool (mb_cache st)))%nat ->
  (0 < length (mempool (mcl_cache st)))%nat -> 0 <= off -> 0 <= nlen -> off + nlen <= m_len m ->
  exists n st1 top' st2 st3 mn, m_get_indirect (m_paddr m) (m_type m) st = Some (Some n, st1) /\
    set_np last top (Some n) st1 = Some (top', st2) /\
    update n (fun t => t <| m_len := nlen |> <| m_data := data_add (m_data m) off |>) st2 = Some (tt, st3) /\
    copying st0 st3 top' (Some n) (relink l' n ++ [(n, mn)]) /\ copyable mn /\ mbuf_ok (bufs st0) mn /\
    mbuf_bytes (bufs st0) mn = take (Z.to_nat nlen) (drop (Z.to_nat off) (mbuf_bytes (bufs st0) m)) /\
    (length (mempool (mb_cache st)) - 1 <= length (mempool (mb_cache st3)))%nat /\
    (length (mempool (mcl_cache st)) - 1 <= length (mempool (mcl_cache st3)))%nat.
Proof.
  intros Cp Ha (Fx & r & o & Pr & Dr) Km L1 L2 Ho Hn Hl.
  destruct (pool_get_some (mb_cache st) _ L1 (Nat.le_refl _)) as (n & pp & G & Lp).
  destruct (pool_get_some (mcl_cache st) _ L2 (Nat.le_refl _)) as (hdl & pp' & G' & Lp').
  pose proof (lookup_weaken _ _ _ _ Ha (cp_src _ _ _ _ _ Cp)) as Hs.
  assert (buf_key m = Some (rte_buf r)) as Kb by (unfold buf_key; by rewrite Pr).
  pose proof (cp_inv _ _ _ _ _ Cp) as I.
  destruct (inv_paddr _ I _ _ _ Hs Kb) as [rb Hb]. pose proof (inv_refs _ I _ _ Hb) as Rb.
  pose proof (refs_pos _ _ _ _ _ Hs Kb). pose proof (ext_nonneg (rte_buf r)).
  destruct (m_get_indirect_run st r (m_type m) n pp hdl pp' rb I G G' Hb ltac:(lia))
    as (st1 & m1 & E1 & I1 & N1 & M1 & P1 & X1 & F1 & C1 & C2 & B1).
  rewrite Pr. exists n, st1.
  destruct (copying_step st0 st st1 top last l' n m1
    (fun t => t <| m_len := nlen |> <| m_data := data_add (m_data m) off |>)) as
    (top' & st2 & st3 & E2 & E3 & Cp3 & C3 & C4); try done.
  set (mn := _ <| m_data := _ |>) in Cp3.
  destruct (mbuf_piece (bufs st0) m mn off nlen) as [Kn Bn]; try done.
  exists top', st2, st3, mn. repeat (split; [done|]). split.
  { split; [unfold mn; upd_simpl; by rewrite F1|]. exists (Indirect hdl (rte_buf r)), (o + off).
    split; [exact P1|]. unfold mn. upd_simpl. by rewrite Dr. }
  split; [done|]. split; [done|]. rewrite C3, C4, C1, C2. lia.
Qed.

Lemma copym_loop_run fuel st p l off len top last l' : chain (mbufs st0) p l -> chain_ok (bufs st0) l ->
  Forall (fun am => copyable am.2) l -> at_offset l off -> copy_fits l off len ->
  (length l < fuel)%nat -> (length l <= length (mempool (mb_cache st)))%nat ->
  (length l <= length (mempool (mcl_cache st)))%nat ->
  copying st0 st top last l' -> chain_ok (bufs st0) l' -> Forall (fun am => copyable am.2) l' ->
  exists q st' k, copym_loop fuel p off len last top st = Some (q, st') /\
    (exists z, copying st0 st' q z k) /\ chain_ok (bufs st0) k /\ Forall (fun am => copyable am.2) k /\
    chain_bytes (bufs st0) k = chain_bytes (bufs st0) l' ++
      take (Z.to_nat len) (drop (Z.to_nat off) (chain_bytes (bufs st0) l)).
Proof.
  revert st p l off len top last l'. induction fuel as [|fuel IH];
    intros st p l off len top last l' C K Cy A Fi F Lb Lc Cp K' Cy'; [lia|].
  simpl copym_loop. destruct (Z.leb_spec len 0).
  { exists top, st, l'. split; [done|]. split; [by eexists|]. split; [done|]. split; [done|].
    destruct Fi as (_ & ? & _). replace len with 0 by lia. by rewrite take_0, app_nil_r. }
  destruct l as [|[a m] l]; simpl in C.
  { subst p. destruct A as [->|(? & ? & ? & ? & _)]; [|done]. destruct Fi as (_ & _ & [Fi|Fi]); [simpl in Fi; lia|].
    rewrite Fi, Z.eqb_refl. exists top, st, l'. split; [done|]. split; [by eexists|]. split; [done|]. split; [done|].
    change (chain_bytes (bufs st0) []) with (@nil Z). by rewrite drop_nil, take_nil, app_nil_r. }
  destruct C as (-> & Ha & C). apply Forall_cons in K as [Km K]. apply Forall_cons in Cy as [Cm Cy]. simpl in Km, Cm, F, Lb, Lc.
  pose proof (at_offset_head _ _ _ _ _ Km A) as Ao. destruct Fi as (Fi & Ln & Fl). simpl in Fi, Fl.
  pose proof (chain_len_nonneg _ _ K) as Lk. pose proof (mbuf_bytes_length _ _ Km) as Bm.
  pose proof (chain_bytes_length _ _ K) as Bk. unfold M_COPYALL in *.
  rewrite (run_load a m); [|by eapply lookup_weaken, Cp].
  rewrite !u32_small by lia. set (nlen := Z.min len (m_len m - off)).
  destruct (copym_body st top last l' a m off nlen) as
    (n & st1 & top' & st2 & st3 & mn & E1 & E2 & E3 & Cp3 & Cn & Kn & Bn & L3 & L4); [done|done|done|done|lia..|].
  erewrite run_bind; [|exact E1]. erewrite run_bind; [|exact E2]. cbv beta iota zeta.
  rewrite (proj1 Cm). erewrite run_bind; [|exact E3].
  destruct (relink_props l' n (bufs st0)) as (Ra & Rb & Rk).
  assert (chain_ok (bufs st0) (relink l' n ++ [(n, mn)])) as Kr.
  { apply Forall_app. split; [by apply Rk|]. by apply Forall_singleton. }
  assert (Forall (fun am => copyable am.2) (relink l' n ++ [(n, mn)])) as Cr.
  { apply Forall_app. split; [by apply relink_copyable|]. by apply Forall_singleton. }
  assert (take (Z.to_nat len) (drop (Z.to_nat off) (chain_bytes (bufs st0) ((a, m) :: l))) =
    mbuf_bytes (bufs st0) mn ++ take (Z.to_nat (copy_rest len nlen)) (chain_bytes (bufs st0) l)) as Eb.
  { rewrite chain_bytes_cons, Bn. apply copy_rest_bytes; unfold M_COPYALL; lia. }
  assert (chain_bytes (bufs st0) (relink l' n ++ [(n, mn)]) =
    chain_bytes (bufs st0) l' ++ mbuf_bytes (bufs st0) mn) as Ec.
  { rewrite chain_bytes_app, Rb. f_equal. rewrite chain_bytes_cons. apply app_nil_r. }
  fold M_COPYALL. fold (copy_rest len nlen). rewrite Eb, app_assoc, <- Ec.
  destruct (Z.eqb_spec (off + nlen) (m_len m)) as [Eo|Eo].
  - rewrite <- (drop_0 (chain_bytes _ l)). apply (IH _ _ _ 0); try done; try lia; [by left|].
    unfold copy_fits, copy_rest, M_COPYALL. split; [lia|]. destruct (Z.eqb_spec len 1000000000); lia.
  - assert (copy_rest len nlen = 0) as ->.
    { unfold copy_rest, M_COPYALL. destruct (Z.eqb_spec len 1000000000); lia. }
    destruct fuel; [lia|]. exists top', st3, (relink l' n ++ [(n, mn)]). split; [done|].
    split; [by eexists|]. split; [done|]. split; [done|]. by rewrite take_0, app_nil_r.
Qed.
End copym.

(** A finished copy of the bytes [bytes]. *)
Record copied (st st' : mstate) (q : option addr) (k : list (addr * mbuf)) (bytes : list Z) : Prop := {
  copied_inv : minv st';
  copied_chain : chain (mbufs st') q k;
  copied_ok : chain_ok (bufs st') k;
  copied_holds : Forall (fun am => copyable am.2) k;
  copied_bytes : chain_bytes (bufs st') k = bytes;
  copied_fresh : forall a, a ∈ k.*1 -> mbufs st !! a = None;
  copied_source : mbufs st ⊆ mbufs st';
  copied_data : same_bytes (bufs st) (bufs st')
}.

(** [m_copym0] ([m_copym], [m_dup]) of [len] bytes at [off] returns a
    fresh chain with exactly those bytes; each of its mbufs shares, and
    holds a counted reference to, the buffer its data is in; the original
    chain and every other mbuf are unchanged and all reference counts
    stay exact. *)
Theorem m_copym0_shares st a m l off len : minv st -> chain (mbufs st) (Some a) ((a, m) :: l) ->
  chain_ok (bufs st) ((a, m) :: l) -> Forall (fun am => copyable am.2) ((a, m) :: l) ->
  0 <= off <= chain_len ((a, m) :: l) -> copy_fits ((a, m) :: l) off len ->
  (S (length l) <= length (mempool (mb_cache st)))%nat ->
  (S (length l) <= length (mempool (mcl_cache st)))%nat ->
  exists q st' k, m_copym0 (Some a) off len st = Some (q, st') /\
    copied st st' q k (take (Z.to_nat len) (drop (Z.to_nat off) (chain_bytes (bufs st) ((a, m) :: l)))).
Proof.
  intros I C K Cy Ho (Fi & Ln & Fl) Lb Lc. unfold m_copym0.
  destruct (Z.ltb_spec off 0); [lia|]. destruct (Z.ltb_spec len 0); [lia|]. cbv beta iota delta [orb].
  assert (((if off =? 0 then deref (Some a) ;; mret tt else mret tt) : M unit) st = Some (tt, st)) as E0.
  { destruct (off =? 0); [|done]. destruct C as (_ & Ha & _). simpl. by rewrite (run_load _ _ _ _ Ha). }
  erewrite run_bind; [|exact E0]. unfold with_fuel. cbv beta.
  pose proof (chain_fuel_enough st _ _ C) as Fu.
  destruct (skip_loop_run (chain_fuel st) _ _ _ off st C K) as (l1 & l2 & p' & off' & El & C2 & E & A & R);
    [lia|lia|].
  erewrite run_bind; [|exact R]. cbv beta iota zeta.
  rewrite El in K, Cy, Fi, Fl, Fu |- *. apply Forall_app in K as [K1 K2]. apply Forall_app in Cy as [_ Cy].
  rewrite chain_len_app in Fi, Fl. rewrite length_app in Fu. pose proof (chain_len_nonneg _ _ K1).
  apply (f_equal length) in El. rewrite length_app in El. simpl in El.
  assert (copy_fits l2 off' len) as Fi2 by (unfold copy_fits, M_COPYALL in *; lia).
  destruct (copym_loop_run st (S (chain_fuel st)) st p' l2 off' len None None []) as
    (q & st' & k & Er & [z Cp] & Kk & Ck & Bk); try done; try lia; [by apply copying_start|by constructor|].
  exists q, st', k. split; [exact Er|]. destruct Cp as [I' C' _ S' F' B'].
  split; try done; [by eapply chain_ok_same|].
  rewrite (chain_bytes_same _ _ _ B'), Bk, chain_bytes_app. simpl. f_equal.
  pose proof (chain_bytes_length _ _ K1) as B1.
  destruct A as [->|(? & ? & ? & -> & ?)]; rewrite drop_app_ge by lia; f_equal; lia.
Qed.

(** ** Every operation keeps the invariant *)

Definition pres {A} (e : M A) : Prop := forall st x st', minv st -> e st = Some (x, st') -> minv st'.

Lemma pres_ret {A} (x : A) : pres (mret x).
Proof. intros st y st' I [= <- <-]. done. Qed.

Lemma pres_fail {A} : pres (@fail A).
Proof. by intros st y st' I E. Qed.

Lemma pres_bind {A B} (e : M A) (k : A -> M B) : pres e -> (forall x, pres (k x)) -> pres (e ≫= k).
Proof.
  intros He Hk st y st' I. unfold mbind, M_bind. destruct (e st) as [[x st1]|] eqn:E; [|done].
  apply Hk. by eapply He.
Qed.

Lemma pres_fuel {A} (k : nat -> M A) : (forall n, pres (k n)) -> pres (with_fuel k).
Proof. intros H st. apply H. Qed.

Lemma pres_load a : pres (load a).
Proof. intros st x st' I. unfold load. case_match; [|done]. by intros [= <- <-]. Qed.

Lemma pres_deref p : pres (deref p).
Proof. destruct p; [apply pres_load|apply pres_fail]. Qed.

Lemma pres_update a f : (forall m, m_paddr (f m) = m_paddr m) -> pres (update a f).
Proof.
  intros H st x st' I. unfold update. destruct (mbufs st !! a) as [m|] eqn:E; [|done].
  intros [= <- <-]. by apply (minv_write _ _ m).
Qed.

Lemma pres_m_free a : pres (m_free a).
Proof.
  intros st x st' I E. destruct (mbufs st !! a) as [m|] eqn:Ha.
  - destruct (m_free_run st a m I Ha) as (st1 & E1 & F1). rewrite E1 in E. injection E as <- <-. apply F1.
  - unfold m_free, mbind, M_bind, load in E. by rewrite Ha in E.
Qed.

(** A fresh mbuf, initialised by [f], before it is given a buffer. *)
Lemma pres_alloc {A} (f : addr -> mbuf -> mbuf) (k : addr -> M A) (z : M A) :
  (forall a m, m_paddr (f a m) = m_paddr m) -> pres z ->
  (forall a m st x st', minv st -> mbufs st !! a = Some m -> m_paddr m = None -> k a st = Some (x, st') -> minv st') ->
  pres (ma ← mb_cache_get; match ma with None => z | Some a => update a (f a) ;; k a end).
Proof.
  intros Hf Hz Hk st x st' I. destruct (pool_cache_get (mb_cache st)) as [[a pp]|] eqn:G.
  - destruct (mb_cache_get_run st a pp I G) as (m & E & P & Fr & I0). erewrite run_bind; [|exact E]. cbv beta iota.
    set (st0 := _ <| mbufs := _ |>) in I0 |- *.
    assert (mbufs st0 !! a = Some m) as Ha by (apply lookup_insert_eq).
    rewrite (run_update _ _ _ _ _ Ha). apply (Hk a (f a m)).
    + by apply (minv_write _ _ m).
    + upd_simpl. apply lookup_insert_eq.
    + by rewrite Hf.
  - unfold mbind, M_bind, mb_cache_get. rewrite G. by apply Hz.
Qed.

Lemma pres_m_get type : pres (m_get type).
Proof.
  apply (pres_alloc (fun a m => m <| m_pktdat := Some (InMbuf a 0) |> <| m_type := type |>
                                  <| m_next := None |> <| m_nextpkt := None |>)
    (fun a => data_buf ← allocate_mbuf; match data_buf with None => fail | Some b => _ end)); [done|apply pres_ret|].
  intros a m st x st' I Ha P. unfold mbind, M_bind, allocate_mbuf.
  destruct (pool_get (mb_data st)) as [[b pp]|] eqn:G; [|done].
  destruct (bufs st !! b) as [rb|] eqn:Hb; [|done]. unfold update. upd_simpl. rewrite Ha. intros [= <- <-].
  by apply (minv_attach_direct st a m).
Qed.

(** A clone of the buffer of the live mbuf [a]. *)
Lemma pres_m_get_indirect {A} a (k : mbuf -> option addr -> M A) : (forall m n, pres (k m n)) ->
  pres (m ← load a; n ← m_get_indirect (m_paddr m) (m_type m); k m n).
Proof.
  intros Hk st x st' I E. destruct (mbufs st !! a) as [m|] eqn:Ha.
  2:{ unfold mbind, M_bind, load in E. by rewrite Ha in E. }
  rewrite (run_load _ _ _ _ Ha) in E. unfold mbind at 1, M_bind in E.
  destruct (m_get_indirect (m_paddr m) (m_type m) st) as [[n st1]|] eqn:En; [|done].
  apply Hk in E; [done|]. clear E Hk. revert En.
  destruct (m_paddr m) as [r|] eqn:P.
  2:{ intros En. refine (pres_alloc (fun a m0 => m0 <| m_pktdat := Some (InMbuf a 0) |> <| m_type := m_type m |>
        <| m_next := None |> <| m_nextpkt := None |>) (fun a => fail) _ _ _ _ st n st1 I En); [done|apply pres_ret|done]. }
  assert (buf_key m = Some (rte_buf r)) as Kb by (unfold buf_key; by rewrite P).
  destruct (inv_paddr _ I _ _ _ Ha Kb) as [rb Hb]. pose proof (inv_refs _ I _ _ Hb) as Rb.
  pose proof (refs_pos _ _ _ _ _ Ha Kb). pose proof (ext_nonneg (rte_buf r)).
  unfold m_get_indirect. destruct (pool_cache_get (mb_cache st)) as [[c pp]|] eqn:G.
  2:{ unfold mbind, M_bind, mb_cache_get. rewrite G. by intros [= <- <-]. }
  destruct (mb_cache_get_run st c pp I G) as (m0 & E0 & P0 & Fr & I0). erewrite run_bind; [|exact E0]. cbv beta iota.
  set (st0 := _ <| mbufs := _ |>) in I0 |- *.
  assert (mbufs st0 !! c = Some m0) as Hc by (apply lookup_insert_eq).
  rewrite (run_update _ _ _ _ _ Hc).
  set (m1 := _ <| m_nextpkt := _ |>). set (st2 := _ <| mbufs := _ |>).
  assert (minv st2) as I2 by (by apply (minv_write _ _ m0)).
  assert (mbufs st2 !! c = Some m1) as H2 by (apply lookup_insert_eq).
  assert (bufs st2 !! rte_buf r = Some rb) as Hb2 by done.
  unfold mbind, M_bind, pool_data_mbuf_clone.
  destruct (pool_get (mcl_cache st2)) as [[hdl pp']|] eqn:G2.
  - rewrite Hb2. unfold update. upd_simpl. rewrite H2. intros [= <- <-].
    apply (minv_attach_clone st2 c m1 _ (rte_buf r) hdl); try done. lia.
  - unfold update. rewrite H2. intros [= <- <-]. exact (minv_write st2 c m1
      (m1 <| m_paddr := None |> <| m_data := None |> <| m_flags := 0 |>) I2 H2 (eq_sym P0)).
Qed.

Create HintDb mpres discriminated.
Hint Resolve pres_ret pres_fail pres_load pres_deref pres_m_free pres_m_get : mpres.

(** Takes a program apart; leaves the loops. *)
Ltac pres_step :=
  match goal with
  | |- pres (mbind _ (load _)) => apply pres_bind; [apply pres_load|intros ?]
  | |- pres (mbind _ _) => apply pres_bind; [|intros ?]
  | |- pres (update _ _) => apply pres_update; intros []; reflexivity
  | |- pres (with_fuel _) => apply pres_fuel; intros ?
  | |- pres (match ?x with _ => _ end) => destruct x
  | |- pres (let _ := _ in _) => cbv zeta
  | |- pres _ => solve [eauto with mpres]
  end.
Ltac pres_tac := repeat pres_step.

Lemma pres_m_freem p : pres (m_freem p).
Proof.
  apply pres_fuel. intros n. revert p. induction n as [|n IH]; intros [a|]; simpl m_freem_loop; pres_tac.
Qed.

Lemma pres_skip_loop n p off : pres (skip_loop n p off).
Proof. revert p off. induction n as [|n IH]; intros p off; simpl skip_loop; pres_tac. Qed.

Lemma pres_last_loop n a : pres (last_loop n a).
Proof. revert a. induction n as [|n IH]; intros a; simpl last_loop; pres_tac. Qed.

Lemma pres_cat_loop n a p : pres (cat_loop n a p).
Proof. revert p. induction n as [|n IH]; intros [b|]; simpl cat_loop; pres_tac. Qed.

Lemma pres_adj_head_loop n p len : pres (adj_head_loop n p len).
Proof. revert p len. induction n as [|n IH]; intros p len; simpl adj_head_loop; pres_tac. Qed.

Lemma pres_adj_count_loop n a c : pres (adj_count_loop n a c).
Proof. revert a c. induction n as [|n IH]; intros a c; simpl adj_count_loop; pres_tac. Qed.

Lemma pres_adj_zero_loop n p : pres (adj_zero_loop n p).
Proof. revert p. induction n as [|n IH]; intros [b|]; simpl adj_zero_loop; pres_tac. Qed.

Hint Resolve pres_m_freem pres_skip_loop pres_last_loop pres_cat_loop pres_adj_head_loop
  pres_adj_count_loop pres_adj_zero_loop : mpres.

Lemma pres_adj_tail_loop n p c : pres (adj_tail_loop n p c).
Proof. revert p c. induction n as [|n IH]; intros [b|] c; simpl adj_tail_loop; pres_tac. Qed.

Hint Resolve pres_adj_tail_loop : mpres.

Lemma pres_m_gethdr type : pres (m_gethdr type).
Proof. unfold m_gethdr. pres_tac. Qed.

Lemma pres_m_move_pkthdr to from : pres (m_move_pkthdr to from).
Proof. unfold m_move_pkthdr. pres_tac. Qed.

Hint Resolve pres_m_move_pkthdr : mpres.

Lemma pres_m_prepend a len : pres (m_prepend a len).
Proof. unfold m_prepend. pres_tac. Qed.

Lemma pres_m_cat a p : pres (m_cat a p).
Proof. unfold m_cat. pres_tac. Qed.

Lemma pres_m_adj p len : pres (m_adj p len).
Proof. unfold m_adj. pres_tac. Qed.

Lemma pres_set_np last top n : pres (set_np last top n).
Proof. unfold set_np. pres_tac. Qed.

Hint Resolve pres_set_np : mpres.

Lemma pres_copym_loop n p off len last top : pres (copym_loop n p off len last top).
Proof.
  revert p off len last top. induction n as [|n IH]; intros [a|] off len last top; simpl copym_loop;
    (destruct (_ <=? _); [pres_tac|]); try solve [pres_tac].
  apply pres_m_get_indirect. intros m [c|]; pres_tac.
Qed.

Hint Resolve pres_copym_loop : mpres.

Lemma pres_m_copym0 p off len : pres (m_copym0 p off len).
Proof. unfold m_copym0. pres_tac. Qed.
End invariant.

Arguments minv : clear implicits.
Arguments freed : clear implicits.

(** Three mbufs and three handles in the pools, every buffer held once. *)
Lemma ex_state_inv : minv (fun _ => 0) ex_state.
Proof.
  split.
  - split; [apply (bool_decide_unpack _); vm_compute; exact I|].
    intros a. simpl. rewrite !elem_of_cons. intros [->|[->|[->|H]]]; [done..|by apply not_elem_of_nil in H].
  - intros a m H. vm_compute in H. done.
  - intros b rb. simpl. unfold ex_bufs.
    intros [[<- <-]|[_ [[<- <-]|[_ H]]%lookup_insert_Some]]%lookup_insert_Some; [done..|].
    by rewrite lookup_empty in H.
  - intros a m b H K. assert (In (a, m) ex_chain) as Hi.
    { apply list_elem_of_In. by apply elem_of_list_to_map_2. }
    destruct Hi as [[= <- <-]|[[= <- <-]|[]]]; vm_compute in K; injection K as <-; vm_compute; eauto.
  - split; [constructor|]. intros b. simpl. split; [intros H; by apply not_elem_of_nil in H|].
    intros (rb & H & R). unfold ex_bufs in H.
    apply lookup_insert_Some in H as [[<- <-]|[_ [[<- <-]|[_ H]]%lookup_insert_Some]]; [done..|].
    by rewrite lookup_empty in H.
  - split; [apply (bool_decide_unpack _); vm_compute; exact I|]. intros hdl. unfold refs.
    assert (filter (fun am => hdl_key am.2 = Some hdl) (mbufs ex_state) = ∅) as ->; [|done].
    apply map_empty. intros a. apply map_lookup_filter_None. right. intros m H.
    assert (In (a, m) ex_chain) as Hi.
    { apply list_elem_of_In. by apply elem_of_list_to_map_2. }
    destruct Hi as [[= <- <-]|[[= <- <-]|[]]]; vm_compute; done.
Qed.

Lemma m_freem_all_witness : exists st', m_freem (Some 1%positive) ex_state = Some (tt, st') /\
  freed (fun _ => 0) ex_state st' [1%positive; 2%positive].
Proof.
  apply (m_freem_all (fun _ => 0) (fun _ => Z.le_refl 0) ex_state _ ex_chain); [apply ex_state_inv|apply ex_state_chain].
Defined.

Lemma m_copym0_shares_witness : exists q st' k, m_copym0 (Some 1%positive) 2 4 ex_state = Some (q, st') /\
  copied (fun _ => 0) ex_state st' q k [3; 4; 5; 6].
Proof.
  apply (m_copym0_shares (fun _ => 0) (fun _ => Z.le_refl 0) ex_state 1 (ex_mbuf (Some 2%positive) 1 5 M_PKTHDR 8) (tail ex_chain) 2 4);
    [apply ex_state_inv|apply ex_state_chain|apply ex_state_ok| | | |simpl; lia|simpl; lia].
  - repeat constructor; [exists (Direct 1), 2|exists (Direct 2), 2]; done.
  - simpl. lia.
  - unfold copy_fits, M_COPYALL. simpl. lia.
Defined.

(** ** The life of the mbuf heap *)

Definition ext_add (ext : addr -> Z) (b : addr) (n : Z) : addr -> Z :=
  fun c => if decide (c = b) then ext c + n else ext c.

(** One operation of the stack or of a driver.  A driver takes a buffer
    for reception ([step_rx]) and hands it to the stack with [m_devget]. *)
Inductive mstep : (addr -> Z) * mstate -> (addr -> Z) * mstate -> Prop :=
  | step_get ext st st' type r : m_get type st = Some (r, st') -> mstep (ext, st) (ext, st')
  | step_gethdr ext st st' type r : m_gethdr type st = Some (r, st') -> mstep (ext, st) (ext, st')
  | step_free ext st st' a r : m_free a st = Some (r, st') -> mstep (ext, st) (ext, st')
  | step_freem ext st st' p r : m_freem p st = Some (r, st') -> mstep (ext, st) (ext, st')
  | step_prepend ext st st' a len r : m_prepend a len st = Some (r, st') -> mstep (ext, st) (ext, st')
  | step_copym ext st st' p off len r : m_copym0 p off len st = Some (r, st') -> mstep (ext, st) (ext, st')
  | step_cat ext st st' a p r : m_cat a p st = Some (r, st') -> mstep (ext, st) (ext, st')
  | step_adj ext st st' p len r : m_adj p len st = Some (r, st') -> mstep (ext, st) (ext, st')
  | step_rx ext st st' b : allocate_mbuf st = Some (Some b, st') -> mstep (ext, st) (ext_add ext b 1, st')
  | step_devget ext st st' o totlen off b a : 0 < ext b -> is_Some (bufs st !! b) ->
      m_devget (InBuf b o) totlen off (Direct b) st = Some (Some a, st') ->
      mstep (ext, st) (ext_add ext b (-1), st').

Lemma minv_rx ext st st' b : (forall b, 0 <= ext b) -> minv ext st -> allocate_mbuf st = Some (Some b, st') ->
  minv (ext_add ext b 1) st'.
Proof.
  intros Ne [I1 I3 I4 I5 [I6 I6'] I8]. unfold allocate_mbuf.
  destruct (pool_get (mb_data st)) as [[c pp]|] eqn:G; [|done].
  destruct (bufs st !! c) as [rb|] eqn:Hb; [|done]. intros [= <- <-].
  unfold pool_get in G. destruct (mempool (mb_data st)) as [|x r] eqn:Ep; [done|]. injection G as -> <-.
  apply NoDup_cons in I6 as [N6 I6]. pose proof (I4 c rb Hb) as Rb.
  assert (buf_refcnt rb = 0) as R0.
  { destruct (proj1 (I6' c)) as (rb' & ? & ?); [left|]. congruence. }
  split; upd_simpl; simpl; try done.
  - intros d rd Hd. unfold ext_add. destruct (decide (d = c)) as [->|N].
    + rewrite lookup_insert_eq in Hd. injection Hd as <-. upd_simpl. lia.
    + rewrite lookup_insert_ne in Hd by done. eauto.
  - intros a m d Ha Kd. destruct (decide (c = d)) as [<-|N]; [rewrite lookup_insert_eq; eauto|].
    rewrite lookup_insert_ne by done. eauto.
  - split; [done|]. intros d. destruct (decide (c = d)) as [<-|N].
    + rewrite lookup_insert_eq. split; [done|]. intros (? & [= <-] & ?). done.
    + rewrite lookup_insert_ne by done. rewrite <- I6', elem_of_cons. clear -N. intuition congruence.
Qed.

(** The mbuf [a] takes over the driver's reference. *)
Lemma minv_take ext st a m m' b : minv ext st -> mbufs st !! a = Some m -> m_paddr m = None ->
  m_paddr m' = Some (Direct b) -> is_Some (bufs st !! b) ->
  minv (ext_add ext b (-1)) (st <| mbufs := <[a := m']> (mbufs st) |>).
Proof.
  intros [[I1 I2] I3 I4 I5 I6 [I7 I8]] E P P' Hb.
  assert (buf_key m = None /\ hdl_key m = None) as [Kb Kh] by (unfold buf_key, hdl_key; by rewrite P).
  assert (buf_key m' = Some b /\ hdl_key m' = None) as [Kb' Kh'] by (unfold buf_key, hdl_key; by rewrite P').
  split; upd_simpl; try done.
  - split; [done|]. intros c Hc. specialize (I2 c Hc). rewrite lookup_insert_ne by congruence. done.
  - intros c rc Hc. rewrite (refs_insert _ _ _ m) by done. rewrite (hits_ne _ m) by congruence.
    rewrite (I4 c rc Hc). unfold ext_add. destruct (decide (c = b)) as [->|N].
    + rewrite hits_some by done. lia.
    + rewrite hits_ne by congruence. lia.
  - intros c n d Hc Kc. destruct (decide (a = c)) as [<-|N].
    + rewrite lookup_insert_eq in Hc. injection Hc as <-. rewrite Kb' in Kc. by injection Kc as <-.
    + rewrite lookup_insert_ne in Hc by done. eauto.
  - split; [done|]. intros hdl. rewrite (refs_insert _ _ _ m), !hits_ne by (done || congruence).
    specialize (I8 hdl). split; [lia|]. intros Hh. apply I8 in Hh. lia.
Qed.

Lemma minv_devget ext st st' o totlen off b a : (forall b, 0 <= ext b) -> minv ext st -> is_Some (bufs st !! b) ->
  m_devget (InBuf b o) totlen off (Direct b) st = Some (Some a, st') -> minv (ext_add ext b (-1)) st'.
Proof.
  intros Ne I Hb. unfold m_devget. destruct (pool_cache_get (mb_cache st)) as [[c pp]|] eqn:G.
  2:{ unfold mbind, M_bind, mb_cache_get. by rewrite G. }
  destruct (mb_cache_get_run ext st c pp I G) as (m & E & P & Fr & I0). erewrite run_bind; [|exact E]. cbv beta iota.
  set (st0 := _ <| mbufs := _ |>) in I0 |- *.
  assert (mbufs st0 !! c = Some m) as Hc by (apply lookup_insert_eq).
  rewrite (run_update _ _ _ _ _ Hc). intros E'. apply (f_equal (fmap snd)) in E'.
  injection E' as <-. by apply (minv_take ext st0 c m).
Qed.

Lemma mstep_inv s s' : mstep s s' -> (forall b, 0 <= s.1 b) -> minv s.1 s.2 ->
  (forall b, 0 <= s'.1 b) /\ minv s'.1 s'.2.
Proof.
  destruct 1; simpl in *; intros Ne I; (split; [try done|]).
  - by eapply pres_m_get.
  - by eapply pres_m_gethdr.
  - by eapply pres_m_free.
  - by eapply pres_m_freem.
  - by eapply pres_m_prepend.
  - by eapply pres_m_copym0.
  - by eapply pres_m_cat.
  - by eapply pres_m_adj.
  - intros c. unfold ext_add. specialize (Ne c). destruct (decide (c = b)); lia.
  - by eapply minv_rx.
  - intros c. unfold ext_add. specialize (Ne c). destruct (decide (c = b)) as [->|]; lia.
  - by eapply minv_devget.
Qed.

(** C7. Whatever sequence of mbuf operations the stack and the drivers
    perform, reference counts are exact: the count of a DPDK buffer is the
    number of live mbufs that hold it plus the references of drivers, a
    buffer is in its pool exactly when that count is 0, and no mbuf or
    clone handle is both free and in use (no leak, no double free). *)
Theorem mbuf_heap_reachable_inv s s' : rtc mstep s s' -> (forall b, 0 <= s.1 b) -> minv s.1 s.2 ->
  minv s'.1 s'.2.
Proof.
  intros R. induction R as [s|s s1 s2 S _ IH]; [done|]. intros Ne I.
  destruct (mstep_inv _ _ S Ne I) as [Ne1 I1]. auto.
Qed.

Lemma mbuf_heap_reachable_inv_witness : exists st', m_freem (Some 1%positive) ex_state = Some (tt, st') /\
  minv (fun _ => 0) st'.
Proof.
  destruct (m_freem (Some 1%positive) ex_state) as [[[] st']|] eqn:E; [|vm_compute in E; discriminate].
  exists st'. split; [done|].
  apply (mbuf_heap_reachable_inv (fun _ => 0, ex_state) (fun _ => 0, st')); [|done|apply ex_state_inv].
  apply rtc_once, (step_freem _ _ _ (Some 1%positive) tt E).
Defined.

(** [m_prepend] in front of a packet header: [m_move_pkthdr] sets
    [m_data] to [m_pktdat], which [m_get] has made point to the mbuf
    structure itself, so the room for the header is not in the buffer. *)
Theorem m_prepend_pkthdr_data st a m n st' len : mbufs st !! a = Some m ->
  flag_set (m_flags m) M_PKTHDR = true -> m_prepend a len st = Some (Some n, st') -> n <> a ->
  exists t o, mbufs st' !! n = Some t /\ m_data t = Some (InMbuf n o).
Proof.
  intros Ha Fl E Na. unfold m_prepend in E. rewrite (run_load _ _ _ _ Ha) in E.
  unfold mbind at 1, M_bind in E. destruct (m_get (m_type m) st) as [[[c|] st1]|] eqn:G; [| |done].
  2:{ unfold mbind, M_bind in E. destruct (m_freem (Some a) st1) as [[[] ?]|]; done. }
  assert (c = n) as ->.
  { revert E. unfold mbind, M_bind. repeat case_match; try done. all: intros [= -> _]; done. }
  assert (exists t, mbufs st1 !! n = Some t /\ m_pktdat t = Some (InMbuf n 0)) as (t & Ht & Pt).
  { revert G. unfold m_get, mbind, M_bind, mb_cache_get, update, allocate_mbuf.
    destruct (pool_cache_get (mb_cache st)) as [[d pp]|]; [|done]. upd_simpl. rewrite lookup_insert_eq.
    upd_simpl. destruct (pool_get (mb_data st)) as [[b pp']|]; [|done]. destruct (bufs st !! b); [|done].
    upd_simpl. rewrite lookup_insert_eq. intros [= -> <-]. upd_simpl.
    rewrite lookup_insert_eq. eexists. split; [done|]. done. }
  rewrite Fl in E. unfold m_move_pkthdr in E.
  destruct (mbufs st1 !! a) as [m1|] eqn:Ha1.
  2:{ unfold mbind, M_bind, load in E. by rewrite Ha1 in E. }
  revert E. unfold mbind, M_bind, mret, M_ret, load, update. rewrite Ha1, Ht. upd_simpl.
  rewrite lookup_insert_ne, Ha1 by done. upd_simpl.
  rewrite lookup_insert_ne, lookup_insert_eq by done. upd_simpl.
  destruct (len <? MHLEN); upd_simpl; repeat (rewrite lookup_insert_eq; upd_simpl); intros [= <-]; upd_simpl;
    rewrite ?lookup_insert_eq; (eexists; eexists; split; [reflexivity|]); upd_simpl; rewrite Pt; reflexivity.
Qed.

Lemma m_prepend_pkthdr_data_witness :
  let st := ex_state <| mb_data := mkPool [3%positive] |> <| bufs := <[3%positive := mkRtebuf [] 0]> ex_bufs |> in
  exists st', m_prepend 1 14 st = Some (Some 3%positive, st') /\
    exists t o, mbufs st' !! 3%positive = Some t /\ m_data t = Some (InMbuf 3 o).
Proof.
  intros st. destruct (m_prepend 1 14 st) as [[r st']|] eqn:E; [|vm_compute in E; discriminate].
  assert (r = Some 3%positive) as ->.
  { apply (f_equal (fmap fst)) in E. vm_compute in E. injection E as <-. reflexivity. }
  exists st'. split; [done|].
  apply (m_prepend_pkthdr_data st 1 (ex_mbuf (Some 2%positive) 1 5 M_PKTHDR 8) 3 st' 14);
    [reflexivity|reflexivity|exact E|discriminate].
Defined.
