(* ===== verification/Sockbuf.v ===== *)
(** * Socket buffers (src/netbsd/porting/kern/uipc_socket2.c, special_includes/sys/socketvar.h)

    A socket buffer is a queue of records linked by [m_nextpkt], each a
    chain of mbufs in the store of [Mbuf].  The operations take the
    buffer and return it changed, in the monad of the store.  The socket
    lock is always held ([mutex_owned] is 1 in the port) and the
    SBLAST..CHK checks are compiled out. *)

From S2P Require Import Prelude Pool Mbuf.

Definition MCLBYTES : Z := 2048.
Definition SB_MAX : Z := 256 * 1024.
Definition PIPE_BUF : Z := 512.
Definition ENOBUFS : Z := 55.
Definition sock_loan_thresh : Z := 4096.

(** [sb_tx_space] is the counter of the application's ring set that
    [service_reflect_tx_socket_buf] changes, when the socket of the
    buffer has one. *)
Record sockbuf := mkSockbuf {
  sb_cc : Z;
  sb_hiwat : Z;
  sb_mbcnt : Z;
  sb_mbmax : Z;
  sb_lowat : Z;
  sb_mb : option addr;
  sb_mbtail : option addr;
  sb_lastrecord : option addr;
  sb_tx_space : option Z
}.

#[export] Instance eta_sockbuf : EtaRecord sockbuf :=
  fun r => mkSockbuf (sb_cc r) (sb_hiwat r) (sb_mbcnt r) (sb_mbmax r) (sb_lowat r) (sb_mb r)
    (sb_mbtail r) (sb_lastrecord r) (sb_tx_space r).

(** ** Accounting *)

Definition s64 (z : Z) : Z := (z + 2 ^ 63) mod 2 ^ 64 - 2 ^ 63.

(** [lmin(sb_hiwat - sb_cc, sb_mbmax - sb_mbcnt)], of unsigned differences
    read as [long]. *)
Definition sbspace (sb : sockbuf) : Z :=
  Z.min (s64 (sb_hiwat sb - sb_cc sb)) (s64 (sb_mbmax sb - sb_mbcnt sb)).

(** The external storage of an mbuf with M_EXT is not modelled. *)
Definition sballoc (sb : sockbuf) (m : mbuf) : M sockbuf :=
  if flag_set (m_flags m) M_EXT then fail
  else mret (sb <| sb_cc := u64 (sb_cc sb + m_len m) |> <| sb_mbcnt := u64 (sb_mbcnt sb + MSIZE) |>).

Definition sbfree (sb : sockbuf) (m : mbuf) : M sockbuf :=
  if flag_set (m_flags m) M_EXT then fail
  else mret (sb <| sb_cc := u64 (sb_cc sb - m_len m) |> <| sb_mbcnt := u64 (sb_mbcnt sb - MSIZE) |>).

(** [service_reflect_tx_socket_buf(sb->sb_so, count)] *)
Definition service_reflect_tx_socket_buf (sb : sockbuf) (count : Z) : sockbuf :=
  match sb_tx_space sb with
  | Some n => sb <| sb_tx_space := Some (s32 (n + count)) |>
  | None => sb
  end.

Definition sb_max_set (new_sbmax : Z) : option (Z * Z) :=
  if new_sbmax <? 16 * 1024 then None
  else Some (new_sbmax, u64 (new_sbmax * MCLBYTES) / (MSIZE + MCLBYTES)).

(** [sbreserve]: [None] is the return value 0. *)
Definition sbreserve (sb_max sb_max_adj : Z) (sb : sockbuf) (cc : Z) : option sockbuf :=
  if (cc =? 0) || (sb_max_adj <? cc) then None
  else
    let sb := sb <| sb_hiwat := cc |> <| sb_mbmax := Z.min (u32 (cc * 2)) (u32 sb_max) |> in
    Some (if sb_hiwat sb <? u64 (sb_lowat sb) then sb <| sb_lowat := sb_hiwat sb |> else sb).

(** ** Linking records *)

(** SBLINKRECORDCHAIN(sb, m0, mlast) *)
Definition SBLINKRECORDCHAIN (sb : sockbuf) (m0 mlast : option addr) : M sockbuf :=
  match sb_lastrecord sb with
  | Some l =>
      update l (fun t => t <| m_nextpkt := m0 |>) ;;
      mret (sb <| sb_lastrecord := mlast |>)
  | None => mret (sb <| sb_mb := m0 |> <| sb_lastrecord := mlast |>)
  end.

Definition SBLINKRECORD (sb : sockbuf) (m0 : option addr) : M sockbuf := SBLINKRECORDCHAIN sb m0 m0.

(** [m->m_len == 0 && (eor == 0 || (((o = m->m_next) || (o = n)) && o->m_type == m->m_type))] *)
Definition sbcompress_empty (m : mbuf) (n : option addr) (eor : Z) : M bool :=
  if negb (m_len m =? 0) then mret false
  else if eor =? 0 then mret true
  else
    match (match m_next m with Some o => Some o | None => n end) with
    | None => mret false
    | Some o => om ← load o; mret (m_type om =? m_type m)
    end.

(** [n && (n->m_flags & M_EOR) == 0 && m->m_len <= MCLBYTES / 4 &&
    m->m_len <= M_TRAILINGSPACE(n) && n->m_type == m->m_type] *)
Definition sbcompress_merge (m : mbuf) (n : option addr) : M bool :=
  match n with
  | None => mret false
  | Some n =>
      nm ← load n;
      mret (negb (flag_set (m_flags nm) M_EOR) && (m_len m <=? MCLBYTES / 4) && (m_len m <=? 0)
            && (m_type nm =? m_type m))
  end.

(** [if (n) n->m_next = m; else sb->sb_mb = m;] *)
Definition sb_link (sb : sockbuf) (n : option addr) (a : addr) : M sockbuf :=
  match n with
  | Some n => update n (fun t => t <| m_next := Some a |>) ;; mret sb
  | None => mret (sb <| sb_mb := Some a |>)
  end.

(** The loop of [sbcompress]; the result has the last mbuf and [eor]. *)
Fixpoint sbcompress_loop (fuel : nat) (sb : sockbuf) (p n : option addr) (eor : Z)
    : M (sockbuf * option addr * Z) :=
  match p with
  | None => mret (sb, n, eor)
  | Some a =>
      match fuel with
      | O => fail
      | S fuel =>
          m ← load a;
          let eor := Z.lor eor (Z.land (m_flags m) M_EOR) in
          empty ← sbcompress_empty m n eor;
          if (empty : bool) then
            let sb := if decide (sb_lastrecord sb = Some a)
                      then sb <| sb_lastrecord := m_next m |> else sb in
            p ← m_free a;
            sbcompress_loop fuel sb p n eor
          else
            merge ← sbcompress_merge m n;
            if (merge : bool) then
              if m_len m <? 0 then fail
              else
                match n with
                | None => fail
                | Some b =>
                    update b (fun t => t <| m_len := m_len t + m_len m |>) ;;
                    let sb := sb <| sb_cc := u64 (sb_cc sb + m_len m) |> in
                    p ← m_free a;
                    sbcompress_loop fuel sb p n eor
                end
            else
              sb ← sb_link sb n a;
              let sb := sb <| sb_mbtail := Some a |> in
              sb ← sballoc sb m;
              m ← load a;
              update a (fun t => t <| m_flags := flag_clear (m_flags t) M_EOR |> <| m_next := None |>) ;;
              sbcompress_loop fuel sb (m_next m) (Some a) eor
      end
  end.

Definition sbcompress (sb : sockbuf) (p n : option addr) : M sockbuf :=
  with_fuel (fun fuel =>
    '(sb, n, eor) ← sbcompress_loop fuel sb p n 0;
    (if eor =? 0 then mret tt
     else match n with
          | Some n => update n (fun t => t <| m_flags := Z.lor (m_flags t) eor |>)
          | None => mret tt
          end) ;;
    mret sb).

(** ** Appending *)

(** [m = m0->m_next; m0->m_next = 0; if (m && (m0->m_flags & M_EOR)) ...],
    then [sbcompress(sb, m, m0)]: the end of [sbappendrecord] and
    [sbinsertoob]. *)
Definition sb_compress_rest (sb : sockbuf) (m0 : addr) : M sockbuf :=
  m0m ← load m0;
  update m0 (fun t => t <| m_next := None |>) ;;
  (match m_next m0m with
   | Some a =>
       if flag_set (m_flags m0m) M_EOR then
         update m0 (fun t => t <| m_flags := flag_clear (m_flags t) M_EOR |>) ;;
         update a (fun t => t <| m_flags := Z.lor (m_flags t) M_EOR |>)
       else mret tt
   | None => mret tt
   end) ;;
  sbcompress sb (m_next m0m) (Some m0).

Definition sbappendrecord (sb : sockbuf) (p : option addr) : M sockbuf :=
  match p with
  | None => mret sb
  | Some m0 =>
      m ← load m0;
      sb ← sballoc sb m;
      sb ← SBLINKRECORD sb (Some m0);
      sb_compress_rest sb m0
  end.

(** The scan of the last record: [None] when one of its mbufs ends a
    record, otherwise its last mbuf. *)
Fixpoint eor_scan (fuel : nat) (n : addr) : M (option addr) :=
  match fuel with
  | O => fail
  | S fuel =>
      m ← load n;
      if flag_set (m_flags m) M_EOR then mret None
      else match m_next m with Some b => eor_scan fuel b | None => mret (Some n) end
  end.

Definition sbappend (sb : sockbuf) (p : option addr) : M sockbuf :=
  match p with
  | None => mret sb
  | Some m =>
      match sb_lastrecord sb with
      | Some l =>
          n ← with_fuel (fun fuel => eor_scan fuel l);
          match n with
          | None => sbappendrecord sb p
          | Some n => sbcompress sb p (Some n)
          end
      | None => sbcompress (sb <| sb_lastrecord := Some m |>) p None
      end
  end.

(** [KASSERT(sb->sb_mb == sb->sb_lastrecord)] ends the process. *)
Definition sbappendstream (sb : sockbuf) (a : addr) : M sockbuf :=
  if decide (sb_mb sb = sb_lastrecord sb) then
    m ← load a;
    let sb := service_reflect_tx_socket_buf sb (m_len m) in
    sb ← sbcompress sb (Some a) (sb_mbtail sb);
    mret (sb <| sb_lastrecord := sb_mb sb |>)
  else fail.

(** [again: switch (m->m_type)]: whether the record is out-of-band data,
    to be followed. *)
Fixpoint oob_train (fuel : nat) (a : addr) : M bool :=
  match fuel with
  | O => fail
  | S fuel =>
      m ← load a;
      if m_type m =? MT_OOBDATA then mret true
      else if m_type m =? MT_CONTROL then
        match m_next m with Some b => oob_train fuel b | None => mret false end
      else mret false
  end.

(** The record after which to insert ([None]: at the head) and the one
    that follows. *)
Fixpoint oob_scan (fuel : nat) (prev p : option addr) : M (option addr * option addr) :=
  match p with
  | None => mret (prev, None)
  | Some a =>
      match fuel with
      | O => fail
      | S fuel =>
          oob ← with_fuel (fun n => oob_train n a);
          if (oob : bool) then m ← load a; oob_scan fuel p (m_nextpkt m) else mret (prev, p)
      end
  end.

Definition sbinsertoob (sb : sockbuf) (p : option addr) : M sockbuf :=
  match p with
  | None => mret sb
  | Some m0 =>
      '(prev, next) ← with_fuel (fun fuel => oob_scan fuel None (sb_mb sb));
      m ← load m0;
      sb ← sballoc sb m;
      update m0 (fun t => t <| m_nextpkt := next |>) ;;
      let sb := match next with None => sb <| sb_lastrecord := Some m0 |> | Some _ => sb end in
      sb ← (match prev with
            | Some l => update l (fun t => t <| m_nextpkt := Some m0 |>) ;; mret sb
            | None => mret (sb <| sb_mb := Some m0 |>)
            end);
      sb_compress_rest sb m0
  end.

(** ** Records with an address *)

(** [memcpy] of [bytes] to [p]: the room has to be in a buffer. *)
Definition write_bytes (p : option dataptr) (bytes : list Z) : M unit := fun st =>
  match p with
  | Some (InBuf b o) =>
      match bufs st !! b with
      | Some rb =>
          if (0 <=? o) && (o + Z.of_nat (length bytes) <=? Z.of_nat (length (buf_bytes rb))) then
            let new := take (Z.to_nat o) (buf_bytes rb) ++ bytes
                       ++ drop (Z.to_nat o + length bytes) (buf_bytes rb) in
            Some (tt, st <| bufs := <[b := rb <| buf_bytes := new |>]> (bufs st) |>)
          else None
      | None => None
      end
  | _ => None
  end.

(** The total length of a chain and its last mbuf. *)
Fixpoint space_loop (fuel : nat) (p last : option addr) (space : Z) : M (option addr * Z) :=
  match p with
  | None => mret (last, space)
  | Some a =>
      match fuel with
      | O => fail
      | S fuel => m ← load a; space_loop fuel (m_next m) (Some a) (s32 (space + m_len m))
      end
  end.

(** [for (n = m; n->m_next != NULL; n = n->m_next) sballoc(sb, n); sballoc(sb, n)] *)
Fixpoint sballoc_loop (fuel : nat) (sb : sockbuf) (a : addr) : M (sockbuf * addr) :=
  match fuel with
  | O => fail
  | S fuel =>
      m ← load a;
      sb ← sballoc sb m;
      match m_next m with Some b => sballoc_loop fuel sb b | None => mret (sb, a) end
  end.

Definition sb_link_record (sb : sockbuf) (a : addr) : M sockbuf :=
  '(sb, nlast) ← with_fuel (fun fuel => sballoc_loop fuel sb a);
  sb ← SBLINKRECORD sb (Some a);
  mret (sb <| sb_mbtail := Some nlast |>).

(** [sbappendaddr]; [asa] are the bytes of the address, [sa_len] many. *)
Definition sbappendaddr (sb : sockbuf) (asa : list Z) (m0 control : option addr) : M (sockbuf * bool) :=
  let sa_len := Z.of_nat (length asa) in
  space ← (match m0 with
           | None => mret sa_len
           | Some a =>
               m ← load a;
               if flag_set (m_flags m) M_PKTHDR then mret (s32 (sa_len + m_pkthdr_len m)) else fail
           end);
  '(n, space) ← with_fuel (fun fuel => space_loop fuel control None space);
  if sbspace sb <? space then mret (sb, false)
  else
    ma ← m_get MT_SONAME;
    match ma with
    | None => mret (sb, false)
    | Some a =>
        if MLEN <? sa_len then fail
        else
          update a (fun t => t <| m_len := sa_len |>) ;;
          m ← load a;
          write_bytes (m_data m) asa ;;
          next ← (match n with
                  | Some n => update n (fun t => t <| m_next := m0 |>) ;; mret control
                  | None => mret m0
                  end);
          update a (fun t => t <| m_next := next |>) ;;
          sb ← sb_link_record sb a;
          mret (sb, true)
    end.

Definition sbappendcontrol (sb : sockbuf) (m0 : option addr) (control : addr) : M (sockbuf * bool) :=
  '(n, space) ← with_fuel (fun fuel => space_loop fuel (Some control) None 0);
  '(_, space) ← with_fuel (fun fuel => space_loop fuel m0 None space);
  if sbspace sb <? space then mret (sb, false)
  else
    (match n with
     | Some n => update n (fun t => t <| m_next := m0 |>)
     | None => fail
     end) ;;
    sb ← sb_link_record sb control;
    mret (sb, true).

(** ** Dropping *)

(** [while (len > 0) { ... }] of [sbdrop]. *)
Fixpoint sbdrop_loop (fuel : nat) (sb : sockbuf) (p next : option addr) (len : Z)
    : M (sockbuf * option addr * option addr) :=
  if len <=? 0 then mret (sb, p, next)
  else
    match fuel with
    | O => fail
    | S fuel =>
        match p with
        | None =>
            match next with
            | None => fail
            | Some a => m ← load a; sbdrop_loop fuel sb next (m_nextpkt m) len
            end
        | Some a =>
            m ← load a;
            if len <? m_len m then
              update a (fun t => t <| m_len := m_len t - len |> <| m_data := data_add (m_data t) len |>) ;;
              let sb := sb <| sb_cc := u64 (sb_cc sb - len) |> in
              mret (service_reflect_tx_socket_buf sb len, p, next)
            else
              let sb := service_reflect_tx_socket_buf sb (m_len m) in
              sb ← sbfree sb m;
              p ← m_free a;
              sbdrop_loop fuel sb p next (len - m_len m)
        end
    end.

(** [while (m && m->m_len == 0) { ... }] *)
Fixpoint sbdrop_empty (fuel : nat) (sb : sockbuf) (p : option addr) : M (sockbuf * option addr) :=
  match p with
  | None => mret (sb, p)
  | Some a =>
      match fuel with
      | O => fail
      | S fuel =>
          m ← load a;
          if m_len m =? 0 then
            sb ← sbfree sb m;
            p ← m_free a;
            sbdrop_empty fuel sb p
          else mret (sb, p)
      end
  end.

(** [if (m) { sb->sb_mb = m; m->m_nextpkt = next; } else sb->sb_mb = next;]
    and the repair of [sb_mbtail] and [sb_lastrecord]. *)
Definition sbdrop_finish (sb : sockbuf) (p next : option addr) : M sockbuf :=
  sb ← (match p with
        | Some a => update a (fun t => t <| m_nextpkt := next |>) ;; mret (sb <| sb_mb := p |>)
        | None => mret (sb <| sb_mb := next |>)
        end);
  match sb_mb sb with
  | None => mret (sb <| sb_mbtail := None |> <| sb_lastrecord := None |>)
  | Some a =>
      m ← load a;
      match m_nextpkt m with
      | None => mret (sb <| sb_lastrecord := Some a |>)
      | Some _ => mret sb
      end
  end.

Definition sbdrop (sb : sockbuf) (len : Z) : M sockbuf :=
  next ← (match sb_mb sb with Some a => m ← load a; mret (m_nextpkt m) | None => mret None end);
  '(sb, p, next) ← with_fuel (fun fuel => sbdrop_loop (2 * fuel) sb (sb_mb sb) next len);
  '(sb, p) ← with_fuel (fun fuel => sbdrop_empty fuel sb p);
  sbdrop_finish sb p next.

(** [while (sb->sb_mbcnt) sbdrop(sb, (int)sb->sb_cc)] and the assertions. *)
Fixpoint sbflush_loop (fuel : nat) (sb : sockbuf) : M sockbuf :=
  if sb_mbcnt sb =? 0 then mret sb
  else
    match fuel with
    | O => fail
    | S fuel => sb ← sbdrop sb (s32 (sb_cc sb)); sbflush_loop fuel sb
    end.

Definition sbflush (sb : sockbuf) : M sockbuf :=
  sb ← with_fuel (fun fuel => sbflush_loop fuel sb);
  match sb_mb sb, sb_mbtail sb, sb_lastrecord sb with
  | None, None, None => if sb_cc sb =? 0 then mret sb else fail
  | _, _, _ => fail
  end.

Definition sbrelease (sb : sockbuf) : M sockbuf :=
  sb ← sbflush sb;
  mret (sb <| sb_mbmax := 0 |>).

Fixpoint sbdroprecord_loop (fuel : nat) (sb : sockbuf) (a : addr) : M sockbuf :=
  match fuel with
  | O => fail
  | S fuel =>
      m ← load a;
      sb ← sbfree sb m;
      p ← m_free a;
      match p with Some b => sbdroprecord_loop fuel sb b | None => mret sb end
  end.

Definition SB_EMPTY_FIXUP (sb : sockbuf) : sockbuf :=
  match sb_mb sb with
  | None => sb <| sb_mbtail := None |> <| sb_lastrecord := None |>
  | Some _ => sb
  end.

Definition sbdroprecord (sb : sockbuf) : M sockbuf :=
  sb ← (match sb_mb sb with
        | Some a =>
            m ← load a;
            with_fuel (fun fuel => sbdroprecord_loop fuel (sb <| sb_mb := m_nextpkt m |>) a)
        | None => mret sb
        end);
  mret (SB_EMPTY_FIXUP sb).

(** [soreserve]: the two buffers of a socket; an error releases the first. *)
Definition soreserve (sb_max sb_max_adj : Z) (snd rcv : sockbuf) (sndcc rcvcc : Z)
    : M (sockbuf * sockbuf * Z) :=
  let lowat := Z.max sock_loan_thresh MCLBYTES in
  let hiwat := lowat + PIPE_BUF in
  let sndcc := if sndcc <? hiwat then hiwat else sndcc in
  match sbreserve sb_max sb_max_adj snd sndcc with
  | None => mret (snd, rcv, ENOBUFS)
  | Some snd =>
      match sbreserve sb_max sb_max_adj rcv rcvcc with
      | None => snd ← sbrelease snd; mret (snd, rcv, ENOBUFS)
      | Some rcv =>
          let rcv := if sb_lowat rcv =? 0 then rcv <| sb_lowat := 1 |> else rcv in
          let snd := if sb_lowat snd =? 0 then snd <| sb_lowat := lowat |> else snd in
          let snd := if sb_hiwat snd <? u64 (sb_lowat snd) then snd <| sb_lowat := sb_hiwat snd |> else snd in
          mret (snd, rcv, 0)
      end
  end.
