(* ===== verification/SockbufFacts.v ===== *)
(** * Socket buffers are queues

    For a stream socket the buffer is one record and behaves as a queue of
    bytes: [sbappendstream] adds the bytes of a chain at the end and
    [sbdrop] removes bytes from the front, the counters being exact. *)

From S2P Require Import Prelude Pool Mbuf MbufFacts MbufInv Sockbuf.

(** ** Streams *)

(** Mbufs as they are kept in a stream buffer: not empty, no end of
    record, not the start of another record. *)
Definition queued (m : mbuf) : Prop :=
  0 < m_len m /\ flag_set (m_flags m) M_EXT = false /\ flag_set (m_flags m) M_EOR = false /\
  m_nextpkt m = None.

(** Mbufs that may be appended: empty ones will be discarded. *)
Definition appendable (m : mbuf) : Prop :=
  flag_set (m_flags m) M_EXT = false /\ Z.land (m_flags m) M_EOR = 0 /\ m_nextpkt m = None.

Record stream (st : mstate) (sb : sockbuf) (l : list (addr * mbuf)) : Prop := {
  stream_chain : chain (mbufs st) (sb_mb sb) l;
  stream_ok : chain_ok (bufs st) l;
  stream_queued : Forall (fun am => queued am.2) l;
  stream_cc : sb_cc sb = chain_len l;
  stream_mbcnt : sb_mbcnt sb = MSIZE * Z.of_nat (length l);
  stream_tail : sb_mbtail sb = fst <$> list.last l
}.

Definition fits (l : list (addr * mbuf)) : Prop :=
  chain_len l < 2 ^ 31 /\ MSIZE * Z.of_nat (length l) < 2 ^ 63.

(** Mbufs outside [l] are as before. *)
Definition untouched (st st' : mstate) (l : list (addr * mbuf)) : Prop :=
  forall a, a ∉ l.*1 -> mbufs st' !! a = mbufs st !! a.

Lemma chain_head h p a m l : chain h p ((a, m) :: l) -> p = Some a /\ h !! a = Some m /\ chain h (m_next m) l /\ a ∉ l.*1.
Proof.
  intros C. pose proof (chain_NoDup _ _ _ C) as N. simpl in N. apply NoDup_cons in N as [N _].
  by destruct C as (-> & ? & ?).
Qed.

Lemma fmap_last_cons {A B} (f : A -> B) x (l : list A) : l <> [] -> f <$> list.last (x :: l) = f <$> list.last l.
Proof. destruct l; done. Qed.

(** The mbufs left after [len] bytes are dropped. *)
Fixpoint drop_mbufs (l : list (addr * mbuf)) (len : Z) : list (addr * mbuf) :=
  match l with
  | [] => []
  | (a, m) :: l =>
      if len <=? 0 then (a, m) :: l
      else if len <? m_len m
      then (a, m <| m_len := m_len m - len |> <| m_data := data_add (m_data m) len |>) :: l
      else drop_mbufs l (len - m_len m)
  end.

Lemma drop_mbufs_nonpos l len : len <= 0 -> drop_mbufs l len = l.
Proof. destruct l as [|[a m] l]; simpl; [done|]. intros. destruct (Z.leb_spec len 0); [done|lia]. Qed.

Lemma drop_mbufs_bytes bs l len : chain_ok bs l -> Forall (fun am => queued am.2) l -> 0 <= len <= chain_len l ->
  chain_ok bs (drop_mbufs l len) /\ Forall (fun am => queued am.2) (drop_mbufs l len) /\
  chain_len (drop_mbufs l len) = chain_len l - len /\
  chain_bytes bs (drop_mbufs l len) = drop (Z.to_nat len) (chain_bytes bs l) /\
  (length (drop_mbufs l len) <= length l)%nat /\
  (drop_mbufs l len <> [] -> fst <$> list.last (drop_mbufs l len) = fst <$> list.last l).
Proof.
  intros K Q. revert len. induction K as [|[a m] l Km K IH]; intros len L.
  { simpl in L. simpl. unfold chain_bytes. simpl. rewrite drop_nil. split; [constructor|]. repeat (split; [done || lia|]). done. }
  apply Forall_cons in Q as [Qm Q]. simpl in L, Km, Qm. simpl drop_mbufs.
  pose proof (mbuf_bytes_length _ _ Km) as Bm. pose proof (chain_len_nonneg _ _ K). destruct Km as [Lm Km'].
  pose proof (conj Lm Km') as Km. destruct (Z.leb_spec len 0).
  { replace len with 0 by lia. simpl. rewrite Z.sub_0_r.
    split; [by constructor|]. split; [by constructor|]. done. }
  destruct (Z.ltb_spec len (m_len m)).
  - destruct (mbuf_bytes_advance bs m len Km ltac:(lia)) as [K1 B1].
    split; [by constructor|]. split.
    { constructor; [|done]. destruct Qm as (? & ? & ? & ?). unfold queued. simpl. upd_simpl. repeat split; try done. lia. }
    split; [simpl; upd_simpl; lia|]. split.
    { rewrite !chain_bytes_cons, B1, drop_app_le by lia. done. }
    split; [done|]. intros _. destruct l; done.
  - destruct (IH Q (len - m_len m) ltac:(lia)) as (J1 & J2 & J3 & J4 & J5 & J6).
    split; [done|]. split; [done|]. split; [simpl; lia|]. split.
    { rewrite J4, chain_bytes_cons, drop_app_ge by lia. f_equal. lia. }
    split; [simpl; lia|]. intros Ne. rewrite J6 by done. destruct l; done.
Qed.

(** What [service_reflect_tx_socket_buf] adds to the counter. *)
Definition credit (sb : sockbuf) (n : Z) : option Z := (fun x => s32 (x + n)) <$> sb_tx_space sb.

Lemma s32_add_s32 x y : s32 (s32 x + y) = s32 (x + y).
Proof.
  unfold s32. f_equal. replace ((x + 2 ^ 31) mod 2 ^ 32 - 2 ^ 31 + y + 2 ^ 31) with ((x + 2 ^ 31) mod 2 ^ 32 + y) by lia.
  rewrite Z.add_mod_idemp_l by lia. f_equal. lia.
Qed.

Lemma credit_reflect sb n : sb_tx_space (service_reflect_tx_socket_buf sb n) = credit sb n.
Proof. unfold service_reflect_tx_socket_buf, credit. destruct (sb_tx_space sb) eqn:E; simpl; [done|]. by rewrite E. Qed.

Lemma reflect_form sb n : service_reflect_tx_socket_buf sb n = sb <| sb_tx_space := credit sb n |>.
Proof.
  unfold service_reflect_tx_socket_buf, credit. destruct sb as [? ? ? ? ? ? ? ? [n0|]]; done.
Qed.

(** A buffer whose counters and counter of the application moved. *)
Definition recount (sb : sockbuf) (cc mbcnt : Z) (tx : option Z) : sockbuf :=
  sb <| sb_cc := cc |> <| sb_mbcnt := mbcnt |> <| sb_tx_space := tx |>.

Section stream.
Variable ext : addr -> Z.
Hypothesis ext_nonneg : forall b, 0 <= ext b.

Lemma sbfree_run sb m st : flag_set (m_flags m) M_EXT = false ->
  sbfree sb m st = Some (sb <| sb_cc := u64 (sb_cc sb - m_len m) |> <| sb_mbcnt := u64 (sb_mbcnt sb - MSIZE) |>, st).
Proof. intros E. unfold sbfree. by rewrite E. Qed.

Lemma sballoc_run sb m st : flag_set (m_flags m) M_EXT = false ->
  sballoc sb m st = Some (sb <| sb_cc := u64 (sb_cc sb + m_len m) |> <| sb_mbcnt := u64 (sb_mbcnt sb + MSIZE) |>, st).
Proof. intros E. unfold sballoc. by rewrite E. Qed.

Lemma recount_id sb : recount sb (sb_cc sb) (sb_mbcnt sb) (sb_tx_space sb) = sb.
Proof. by destruct sb. Qed.

Definition tx_ok (sb : sockbuf) : Prop := forall n, sb_tx_space sb = Some n -> s32 n = n.

Lemma credit_0 sb : tx_ok sb -> credit sb 0 = sb_tx_space sb.
Proof.
  unfold credit, tx_ok. destruct (sb_tx_space sb) as [n|]; simpl; [|done]. intros H. by rewrite Z.add_0_r, H.
Qed.
Lemma credit_ok sb cc mbcnt n : tx_ok (recount sb cc mbcnt (credit sb n)).
Proof.
  intros x. unfold recount, credit. upd_simpl. destruct (sb_tx_space sb); simpl; [|done].
  intros [= <-]. apply s32_small, s32_range.
Qed.

Lemma credit_credit sb cc mbcnt n k : credit (recount sb cc mbcnt (credit sb n)) k = credit sb (n + k).
Proof.
  unfold recount, credit. upd_simpl. destruct (sb_tx_space sb); simpl; [|done].
  by rewrite s32_add_s32, Z.add_assoc.
Qed.

Lemma recount_recount sb c1 n1 t1 c2 n2 t2 : recount (recount sb c1 n1 t1) c2 n2 t2 = recount sb c2 n2 t2.
Proof. by destruct sb. Qed.

(** ** Dropping *)

Lemma sbdrop_loop_run fuel st sb p l len : minv ext st -> chain (mbufs st) p l ->
  Forall (fun am => queued am.2) l -> 0 <= len <= chain_len l -> (length l < fuel)%nat -> tx_ok sb ->
  chain_len l <= sb_cc sb < 2 ^ 63 -> MSIZE * Z.of_nat (length l) <= sb_mbcnt sb < 2 ^ 63 ->
  let l' := drop_mbufs l len in
  exists st' p', sbdrop_loop fuel sb p None len st =
      Some ((recount sb (sb_cc sb - len) (sb_mbcnt sb - MSIZE * Z.of_nat (length l - length l')) (credit sb len), p', None), st') /\
    minv ext st' /\ chain (mbufs st') p' l' /\ same_bytes (bufs st) (bufs st') /\ untouched st st' l.
Proof.
  revert st sb p l len. induction fuel as [|fuel IH]; intros st sb p l len I C Q L F T Lc Lm; [lia|].
  cbv zeta in *. simpl sbdrop_loop. destruct (Z.leb_spec len 0) as [L0|L0].
  { replace len with 0 by lia. rewrite drop_mbufs_nonpos, Nat.sub_diag, credit_0, !Z.sub_0_r by (done || lia).
    rewrite recount_id. exists st, p. done. }
  destruct l as [|[a m] l]; [simpl in L; lia|].
  apply chain_head in C as (-> & Ha & C & Na). apply Forall_cons in Q as [Qm Q]. simpl in L, F, Qm, Lc, Lm.
  rewrite (run_load _ _ _ _ Ha). simpl drop_mbufs. destruct (Z.leb_spec len 0); [lia|].
  destruct Qm as (Pm & Ex & Eo & Np). assert (0 <= chain_len l) as Lp.
  { clear -Q. induction Q as [|[? ?] ? [? _] _ IH]; simpl in *; lia. }
  destruct (Z.ltb_spec len (m_len m)) as [Lt|Ge].
  - rewrite (run_update _ _ _ _ _ Ha). rewrite reflect_form. eexists _, (Some a). split.
    { simpl length. rewrite Nat.sub_diag. change (MSIZE * Z.of_nat 0) with 0. rewrite Z.sub_0_r. rewrite u64_small by lia.
      by destruct sb. }
    split; [by apply (minv_write _ _ _ m)|]. split.
    { split; [done|]. upd_simpl. rewrite lookup_insert_eq. split; [done|]. by apply chain_insert_ne. }
    split; [done|]. intros c Hc. upd_simpl. rewrite lookup_insert_ne; [done|]. intros ->. apply Hc. left.
  - rewrite reflect_form. erewrite run_bind; [|by apply sbfree_run]. upd_simpl.
    destruct (m_free_run ext ext_nonneg st a m I Ha) as (st1 & E1 & F1). erewrite run_bind; [|exact E1].
    rewrite !u64_small by (unfold MSIZE in *; lia).
    destruct (IH st1 (recount sb (sb_cc sb - m_len m) (sb_mbcnt sb - MSIZE) (credit sb (m_len m))) (m_next m) l
      (len - m_len m)) as (st2 & p2 & E2 & I2 & C2 & B2 & U2).
    + apply F1.
    + eapply freed_chain; [exact F1| |done]. intros c ->%list_elem_of_singleton. done.
    + done.
    + lia.
    + lia.
    + apply credit_ok.
    + unfold recount. upd_simpl. lia.
    + unfold recount. upd_simpl. unfold MSIZE in *. lia.
    + exists st2, p2. split.
      { simpl length. destruct (Nat.le_gt_cases (length (drop_mbufs l (len - m_len m))) (length l)) as [Le|Gt].
        2:{ exfalso. clear -Gt. revert Gt. generalize (len - m_len m). induction l as [|[x y] l IH]; intros n; simpl; [lia|].
            destruct (n <=? 0); [simpl; lia|]. destruct (n <? m_len y); [simpl; lia|]. intros G. apply (IH (n - m_len y)). lia. }
        refine (eq_trans _ (eq_trans E2 _)); [by destruct sb|]. rewrite recount_recount, credit_credit.
        refine (f_equal (fun x => Some (x, p2, None, st2)) _). rewrite (Nat.sub_succ_l _ _ Le).
        change (sb_cc (recount _ _ _ _)) with (sb_cc sb - m_len m).
        change (sb_mbcnt (recount _ _ _ _)) with (sb_mbcnt sb - MSIZE).
        unfold MSIZE. f_equal; [lia|lia|f_equal; lia]. }
      split; [done|]. split; [done|]. split; [etrans; [apply F1|done]|].
      intros c Hc. simpl in Hc. apply not_elem_of_cons in Hc as [Hc1 Hc2]. rewrite (U2 c Hc2).
      rewrite (freed_lookup _ _ _ _ F1). rewrite decide_False; [done|]. by rewrite list_elem_of_singleton.
Qed.
Lemma nextpkt_id m : m_nextpkt m = None -> m <| m_nextpkt := None |> = m.
Proof. intros E. destruct m; simpl in E; by subst. Qed.

Lemma sbdrop_empty_run fuel sb p l st : chain (mbufs st) p l -> Forall (fun am => queued am.2) l ->
  (0 < fuel)%nat -> sbdrop_empty fuel sb p st = Some ((sb, p), st).
Proof.
  intros C Q F. destruct fuel as [|fuel]; [lia|]. destruct l as [|[a m] l]; simpl in C; [by subst p|].
  destruct C as (-> & Ha & _). simpl sbdrop_empty. rewrite (run_load _ _ _ _ Ha).
  apply Forall_cons in Q as [(? & _) _]. simpl in *. by destruct (Z.eqb_spec (m_len m) 0); [lia|].
Qed.

Lemma sbdrop_finish_run sb p l st : chain (mbufs st) p l -> Forall (fun am => queued am.2) l ->
  sbdrop_finish sb p None st =
    Some (sb <| sb_mb := p |> <| sb_mbtail := match p with Some _ => sb_mbtail sb | None => None end |>
             <| sb_lastrecord := p |>, st).
Proof.
  intros C Q. unfold sbdrop_finish. destruct l as [|[a m] l]; simpl in C; [subst p; by destruct sb|].
  destruct C as (-> & Ha & _). apply Forall_cons in Q as [(_ & _ & _ & Np) _]. simpl in Np.
  assert (st <| mbufs := <[a := m <| m_nextpkt := None |>]> (mbufs st) |> = st) as Es.
  { rewrite nextpkt_id, insert_id by done. apply mstate_mbufs_id. }
  erewrite run_bind; [|rewrite (run_update _ _ _ _ _ Ha), Es; done]. upd_simpl.
  rewrite (run_load _ _ _ _ Ha), Np. by destruct sb.
Qed.

Lemma sbdrop_loop_panics fuel st sb p l len : minv ext st -> chain (mbufs st) p l ->
  Forall (fun am => queued am.2) l -> chain_len l < len -> sbdrop_loop fuel sb p None len st = None.
Proof.
  revert st sb p l len. induction fuel as [|fuel IH]; intros st sb p l len I C Q L;
    (assert (0 <= chain_len l) by (clear -Q; induction Q as [|[? ?] ? [? _] _ IH]; simpl in *; lia));
    simpl sbdrop_loop; (destruct (Z.leb_spec len 0); [lia|]); [done|].
  destruct l as [|[a m] l]; [simpl in C; by subst p|].
  apply chain_head in C as (-> & Ha & C & Na). apply Forall_cons in Q as [(Pm & Ex & Eo & Np) Q]. simpl in *.
  assert (0 <= chain_len l) by (clear -Q; induction Q as [|[? ?] ? [? _] _ IH]; simpl in *; lia).
  rewrite (run_load _ _ _ _ Ha). destruct (Z.ltb_spec len (m_len m)); [lia|].
  erewrite run_bind; [|by apply sbfree_run].
  destruct (m_free_run ext ext_nonneg st a m I Ha) as (st1 & E1 & F1). erewrite run_bind; [|exact E1].
  apply (IH _ _ _ l); [apply F1| |done|lia].
  eapply freed_chain; [exact F1| |done]. intros c ->%list_elem_of_singleton. done.
Qed.

Lemma head_nextpkt st sb l : stream st sb l ->
  (match sb_mb sb with Some a => m ← load a; mret (m_nextpkt m) | None => mret None end : M (option addr)) st =
  Some (None, st).
Proof.
  intros [C _ Q _ _ _]. destruct l as [|[a m] l]; simpl in C; [by rewrite C|].
  destruct C as (-> & Ha & _). rewrite (run_load _ _ _ _ Ha).
  apply Forall_cons in Q as [(_ & _ & _ & Np) _]. simpl in Np. by rewrite Np.
Qed.

(** The mbufs a stream buffer can hold do not overflow its counters. *)
Lemma stream_small st sb l : stream st sb l -> fits l ->
  chain_len l <= sb_cc sb < 2 ^ 63 /\ MSIZE * Z.of_nat (length l) <= sb_mbcnt sb < 2 ^ 63.
Proof. intros [_ _ _ -> -> _] [? ?]. lia. Qed.

(** C31. [sbdrop] of [len] bytes from a stream buffer removes exactly the
    first [len] bytes of the queue and frees the mbufs they were in; the
    counters, the tail and the last record stay right, no mbuf outside
    the buffer is touched and the counter of the application is credited
    with [len]; it panics exactly when fewer bytes are queued. *)
Theorem sbdrop_stream st sb l len : minv ext st -> stream st sb l -> fits l -> tx_ok sb -> 0 <= len ->
  (len <= chain_len l -> exists st' sb' l', sbdrop sb len st = Some (sb', st') /\ minv ext st' /\
     stream st' sb' l' /\ sb_lastrecord sb' = sb_mb sb' /\ same_bytes (bufs st) (bufs st') /\
     chain_bytes (bufs st') l' = drop (Z.to_nat len) (chain_bytes (bufs st) l) /\
     untouched st st' l /\ sb_tx_space sb' = credit sb len) /\
  (chain_len l < len -> sbdrop sb len st = None).
Proof.
  intros I S F T L. pose proof (stream_small _ _ _ S F) as [Sc Sm]. pose proof (head_nextpkt _ _ _ S) as Hn.
  pose proof S as [C K Q Cc Mc Tl]. pose proof (chain_fuel_enough st _ _ C) as Fu.
  unfold sbdrop. split; intros Len; erewrite run_bind by exact Hn; unfold with_fuel.
  2:{ unfold mbind, M_bind. by rewrite (sbdrop_loop_panics _ _ _ _ _ _ I C Q Len). }
  destruct (sbdrop_loop_run (2 * chain_fuel st) st sb (sb_mb sb) l len I C Q) as (st' & p' & E & I' & C' & B' & U');
    [lia|lia|done|done|done|].
  destruct (drop_mbufs_bytes (bufs st) l len K Q ltac:(lia)) as (J1 & J2 & J3 & J4 & J5 & J6).
  erewrite run_bind by exact E. cbv beta iota.
  erewrite run_bind by (eapply sbdrop_empty_run; [exact C'|exact J2|unfold chain_fuel; lia]). cbv beta iota.
  rewrite (sbdrop_finish_run _ _ _ _ C' J2). eexists st', _, (drop_mbufs l len). split; [done|]. split; [done|].
  split; [|repeat (split; [done|]); rewrite (chain_bytes_same _ _ _ B'); done].
  split; unfold recount; upd_simpl; try done.
  - by eapply chain_ok_same.
  - lia.
  - rewrite Mc. unfold MSIZE. lia.
  - destruct (drop_mbufs l len) as [|[b n] k] eqn:El; simpl in C'; [by subst p'|].
    destruct C' as (-> & _). rewrite Tl. symmetry. by apply J6.
Qed.
(** ** Appending *)

Lemma chain_agree h h' p k : (forall a, a ∈ k.*1 -> h' !! a = h !! a) -> chain h p k -> chain h' p k.
Proof.
  revert p. induction k as [|[a m] k IH]; intros p H C; simpl in *; [done|]. destruct C as (-> & E & C).
  split; [done|]. rewrite H by left. split; [done|]. apply IH; [|done]. intros c Hc. apply H. by right.
Qed.

Lemma chain_len_relink l a : chain_len (relink l a) = chain_len l.
Proof.
  destruct l as [|[x mx] pre _] using rev_ind; [done|]. by rewrite relink_snoc, !chain_len_app.
Qed.

Lemma length_relink l a : length (relink l a) = length l.
Proof.
  destruct l as [|[x mx] pre _] using rev_ind; [done|]. by rewrite relink_snoc, !length_app.
Qed.

Lemma relink_queued l a : Forall (fun am => queued am.2) l -> Forall (fun am => queued am.2) (relink l a).
Proof.
  destruct l as [|[x mx] pre _] using rev_ind; [done|]. rewrite relink_snoc, !Forall_app, !Forall_singleton.
  done.
Qed.

(** The mbuf [a] as it is when it is the new tail of a buffer. *)
Definition tailed (m : mbuf) : mbuf := m <| m_flags := flag_clear (m_flags m) M_EOR |> <| m_next := None |>.

Lemma tailed_queued m : appendable m -> 0 < m_len m -> queued (tailed m).
Proof.
  intros (Ex & Eo & Np) L. unfold queued, tailed. upd_simpl. repeat split; try done.
  - revert Ex. flag_bits. done.
  - flag_bits. done.
Qed.

(** Links the new tail [a], whatever the queue. *)
Lemma sb_link_chain st sb l a m : minv ext st -> chain (mbufs st) (sb_mb sb) l -> sb_mbtail sb = fst <$> list.last l ->
  mbufs st !! a = Some m -> a ∉ l.*1 ->
  exists st1, sb_link sb (sb_mbtail sb) a st = Some (sb <| sb_mb := match l with [] => Some a | _ => sb_mb sb end |>, st1) /\
    minv ext st1 /\ bufs st1 = bufs st /\ mbufs st1 !! a = Some m /\ untouched st st1 l /\
    forall h m', h !! a = Some m' -> m_next m' = None -> (forall c, c <> a -> h !! c = mbufs st1 !! c) ->
      chain h (match l with [] => Some a | _ => sb_mb sb end) (relink l a ++ [(a, m')]).
Proof.
  intros I C Tl Ha Na. destruct l as [|[x mx] pre _] using rev_ind.
  { rewrite Tl. exists st. do 5 (split; [done|]). intros h m' E N _. simpl. by rewrite N. }
  rewrite last_snoc in Tl. rewrite Tl. simpl. rewrite relink_snoc.
  assert (mbufs st !! x = Some mx) as Hx by (eapply chain_lookup; [exact C|]; apply elem_of_app; right; left).
  rewrite fmap_app in Na. apply not_elem_of_app in Na as [Na Nx]. simpl in Nx. rewrite list_elem_of_singleton in Nx.
  pose proof (chain_NoDup _ _ _ C) as Nd. rewrite fmap_app in Nd. apply NoDup_app in Nd as (_ & Nd & _).
  exists (st <| mbufs := <[x := mx <| m_next := Some a |>]> (mbufs st) |>). split.
  { rewrite (run_update _ _ _ _ _ Hx). destruct pre; by destruct sb. }
  split; [by apply (minv_write _ _ _ mx)|]. split; [done|]. upd_simpl.
  split; [by rewrite lookup_insert_ne|]. split.
  { intros c Hc. upd_simpl. rewrite lookup_insert_ne; [done|]. intros ->. apply Hc. rewrite fmap_app. apply elem_of_app. right. left. }
  intros h m' E N Ho. replace (match pre ++ [(x, mx)] with [] => Some a | _ => sb_mb sb end) with (sb_mb sb) by (by destruct pre).
  rewrite <- app_assoc. eapply chain_extend; [exact C| | |simpl; by rewrite N].
  - rewrite Ho by done. apply lookup_insert_eq.
  - intros c Hc. rewrite Ho by (intros ->; done). rewrite lookup_insert_ne; [done|]. intros ->. apply (Nd c Hc). left.
Qed.

(** One round of the loop that keeps the mbuf [a]. *)
Lemma stream_link st sb l a m : minv ext st -> stream st sb l -> mbufs st !! a = Some m -> a ∉ l.*1 ->
  appendable m -> 0 < m_len m -> mbuf_ok (bufs st) m -> fits ((a, m) :: l) ->
  exists st1 st2 sb1 sb2, sb_link sb (sb_mbtail sb) a st = Some (sb1, st1) /\
    sballoc (sb1 <| sb_mbtail := Some a |>) m st1 = Some (sb2, st1) /\ mbufs st1 !! a = Some m /\
    update a (fun t => t <| m_flags := flag_clear (m_flags t) M_EOR |> <| m_next := None |>) st1 = Some (tt, st2) /\
    minv ext st2 /\ stream st2 sb2 (relink l a ++ [(a, tailed m)]) /\ sb_mbtail sb2 = Some a /\
    bufs st2 = bufs st /\ sb_lastrecord sb2 = sb_lastrecord sb /\ sb_tx_space sb2 = sb_tx_space sb /\
    untouched st st2 ((a, m) :: l).
Proof.
  intros I S Ha Na Ap Lm Km Fi. pose proof S as [C K Q Cc Mc Tl]. destruct Fi as [Fc Fm].
  destruct (sb_link_chain st sb l a m I C Tl Ha Na) as (st1 & E1 & I1 & B1 & H1 & U1 & Ch).
  pose proof (chain_len_nonneg _ _ K). destruct (relink_props l a (bufs st)) as (Ra & _ & Rk).
  eexists st1, _, _, _. split; [exact E1|]. split; [apply sballoc_run; apply Ap|]. split; [done|].
  split; [by apply (update_run _ _ m)|]. split; [by apply (minv_write _ _ _ m)|].
  split; [|do 4 (split; [done|]); intros c Hc; apply not_elem_of_cons in Hc as [Hc1 Hc2]; simpl in Hc1;
           upd_simpl; rewrite lookup_insert_ne by done; by apply U1].
  simpl in Fc, Fm. split; upd_simpl.
  - apply Ch; [apply lookup_insert_eq|done|]. intros c Hc. by rewrite lookup_insert_ne.
  - rewrite B1. apply Forall_app. split; [by apply Rk|]. by apply Forall_singleton.
  - apply Forall_app. split; [by apply relink_queued|]. apply Forall_singleton. by apply tailed_queued.
  - rewrite chain_len_app, chain_len_relink, Cc. simpl. unfold tailed. upd_simpl. rewrite u64_small; lia.
  - rewrite length_app, length_relink, Mc. simpl. unfold MSIZE in *. rewrite u64_small; lia.
  - by rewrite last_snoc.
Qed.

Lemma sbcompress_loop_run fuel st sb p k l : minv ext st -> stream st sb l -> chain (mbufs st) p k ->
  (forall a, a ∈ k.*1 -> (a ∉ l.*1) /\ sb_lastrecord sb <> Some a) -> chain_ok (bufs st) k ->
  Forall (fun am => appendable am.2) k -> fits (l ++ k) -> (length k < fuel)%nat ->
  exists st' sb' l', sbcompress_loop fuel sb p (sb_mbtail sb) 0 st = Some ((sb', sb_mbtail sb', 0), st') /\
    minv ext st' /\ stream st' sb' l' /\ sb_lastrecord sb' = sb_lastrecord sb /\ sb_tx_space sb' = sb_tx_space sb /\
    same_bytes (bufs st) (bufs st') /\
    chain_bytes (bufs st) l' = chain_bytes (bufs st) l ++ chain_bytes (bufs st) k /\
    untouched st st' (l ++ k).
Proof.
  revert st sb p k l. induction fuel as [|fuel IH]; intros st sb p k l I S C D K Ap Fi F; [lia|].
  destruct k as [|[a m] k].
  { simpl in C. subst p. exists st, sb, l. rewrite !app_nil_r. done. }
  apply chain_head in C as (-> & Ha & C & Na). apply Forall_cons in K as [Km K]. apply Forall_cons in Ap as [Am Ap].
  simpl in Km, Am, F. destruct (D a ltac:(left)) as [Nl Nr]. simpl sbcompress_loop. rewrite (run_load _ _ _ _ Ha).
  pose proof Am as (Ex & Eo & Np). rewrite Eo. change (Z.lor 0 0) with 0.
  assert (fits (l ++ k)) as Fk.
  { destruct Fi as [Fc Fm]. rewrite chain_len_app in Fc. rewrite length_app in Fm. simpl in Fc, Fm. destruct Km as [? _].
    unfold fits. rewrite chain_len_app, length_app. unfold MSIZE in *. lia. }
  assert (sbcompress_empty m (sb_mbtail sb) 0 st = Some (m_len m =? 0, st)) as Ee.
  { unfold sbcompress_empty. by destruct (m_len m =? 0). }
  erewrite run_bind by exact Ee. destruct (Z.eqb_spec (m_len m) 0) as [L0|L0].
  - rewrite decide_False by done.
    destruct (m_free_run ext ext_nonneg st a m I Ha) as (st1 & E1 & F1). erewrite run_bind by exact E1.
    destruct (IH st1 sb (m_next m) k l) as (st2 & sb2 & l2 & E2 & I2 & S2 & R2 & T2 & B2 & Y2 & U2); try done; try lia.
    + apply F1.
    + destruct S as [SC SK SQ Sc Sm St]. split; try done; [|by eapply chain_ok_same, SK; apply F1].
      eapply freed_chain; [exact F1| |done]. by intros c ->%list_elem_of_singleton.
    + eapply freed_chain; [exact F1| |done]. by intros c ->%list_elem_of_singleton.
    + intros c Hc. apply D. by right.
    + eapply chain_ok_same, K; apply F1.
    + exists st2, sb2, l2. split; [done|]. split; [done|]. split; [done|]. split; [done|]. split; [done|].
      split; [etrans; [apply F1|done]|]. split.
      * rewrite !(chain_bytes_same _ _ _ (freed_bytes _ _ _ _ F1)) in Y2. rewrite Y2, chain_bytes_cons.
        pose proof (mbuf_bytes_length _ _ Km) as Bm. rewrite L0 in Bm. by destruct (mbuf_bytes (bufs st) m).
      * intros c. rewrite fmap_app. intros [Hc1 [Hc2 Hc3]%not_elem_of_cons]%not_elem_of_app. simpl in Hc2.
        rewrite U2 by (rewrite fmap_app; by apply not_elem_of_app).
        rewrite (freed_lookup _ _ _ _ F1), decide_False; [done|]. by rewrite list_elem_of_singleton.
  - assert (0 < m_len m) as Lm by (destruct Km; lia).
    assert (sbcompress_merge m (sb_mbtail sb) st = Some (false, st)) as Em.
    { unfold sbcompress_merge. rewrite (stream_tail _ _ _ S). destruct l as [|[x mx] pre _] using rev_ind; [done|].
      rewrite last_snoc. simpl.
      rewrite (run_load x mx) by (eapply chain_lookup; [apply S|]; apply elem_of_app; right; left).
      destruct (Z.leb_spec (m_len m) 0); [lia|]. by rewrite !andb_false_r. }
    erewrite run_bind by exact Em. cbv iota.
    destruct (stream_link st sb l a m) as (st1 & st2 & sb1 & sb2 & E1 & E2 & H1 & E3 & I2 & S2 & T2 & B2 & R2 & X2 & U2); try done.
    { destruct Fi as [Fc Fm]. rewrite chain_len_app in Fc. rewrite length_app in Fm. simpl in Fc, Fm.
      pose proof (chain_len_nonneg _ _ K). split; simpl; unfold MSIZE in *; lia. }
    erewrite run_bind by exact E1. erewrite run_bind by exact E2. rewrite (run_load _ _ _ _ H1).
    erewrite run_bind by exact E3. rewrite <- T2.
    assert (forall c, c ∈ k.*1 -> c ∉ ((a, m) :: l).*1) as Dk.
    { intros c Hc. simpl. rewrite not_elem_of_cons. split; [by intros ->|]. apply D. by right. }
    destruct (relink_props l a (bufs st)) as (Ra & Rb & _).
    destruct (IH st2 sb2 (m_next m) k (relink l a ++ [(a, tailed m)])) as (st3 & sb3 & l3 & E4 & I3 & S3 & R3 & X3 & B3 & Y3 & U3); try done; try lia.
    + eapply chain_agree; [|exact C]. intros c Hc. by apply U2, Dk.
    + intros c Hc. rewrite fmap_app, Ra, R2. simpl. split; [|apply D; by right].
      specialize (Dk c Hc). simpl in Dk. rewrite not_elem_of_cons in Dk. rewrite not_elem_of_app, not_elem_of_cons.
      split; [tauto|]. split; [tauto|apply not_elem_of_nil].
    + by rewrite B2.
    + destruct Fi as [Fc Fm]. rewrite chain_len_app in Fc. rewrite length_app in Fm. simpl in Fc, Fm.
      unfold fits. rewrite !chain_len_app, !length_app, chain_len_relink, length_relink. simpl. unfold tailed. upd_simpl.
      unfold MSIZE in *. lia.
    + exists st3, sb3, l3. split; [done|]. split; [done|]. split; [done|]. split; [by rewrite R3|]. split; [by rewrite X3|].
      rewrite B2 in B3, Y3. split; [done|]. split.
      * rewrite Y3, chain_bytes_app, Rb, !chain_bytes_cons, <- app_assoc. f_equal. by rewrite app_nil_r.
      * intros c. rewrite fmap_app. intros [Hc1 [Hc2 Hc3]%not_elem_of_cons]%not_elem_of_app. simpl in Hc2.
        rewrite U3; [apply U2; simpl; by rewrite not_elem_of_cons|].
        rewrite !fmap_app, Ra. simpl. rewrite !not_elem_of_app, not_elem_of_cons.
        split; [split; [done|split; [done|apply not_elem_of_nil]]|done].
Qed.
(** C30. [sbappendstream] adds exactly the bytes of the chain at the end of
    the queue, discarding empty mbufs; the counters, the tail and the last
    record are right, no mbuf outside the buffer and the chain is touched,
    and all reference counts stay exact.  The counter of the application
    is credited with the length of the first mbuf of the chain. *)
Theorem sbappendstream_stream st sb l a m k : minv ext st -> stream st sb l -> sb_lastrecord sb = sb_mb sb ->
  chain (mbufs st) (Some a) ((a, m) :: k) -> (forall c, c ∈ ((a, m) :: k).*1 -> c ∉ l.*1) ->
  chain_ok (bufs st) ((a, m) :: k) -> Forall (fun am => appendable am.2) ((a, m) :: k) ->
  fits (l ++ (a, m) :: k) ->
  exists st' sb' l', sbappendstream sb a st = Some (sb', st') /\ minv ext st' /\ stream st' sb' l' /\
    sb_lastrecord sb' = sb_mb sb' /\ same_bytes (bufs st) (bufs st') /\
    chain_bytes (bufs st') l' = chain_bytes (bufs st) l ++ chain_bytes (bufs st) ((a, m) :: k) /\
    untouched st st' (l ++ (a, m) :: k) /\ sb_tx_space sb' = credit sb (m_len m).
Proof.
  intros I S La C D K Ap Fi. pose proof (chain_fuel_enough st _ _ C) as Fu.
  unfold sbappendstream. rewrite decide_True by done. destruct (chain_head _ _ _ _ _ C) as (_ & Ha & _ & _).
  rewrite (run_load _ _ _ _ Ha). rewrite reflect_form. upd_simpl. set (sb0 := sb <| sb_tx_space := credit sb (m_len m) |>).
  assert (stream st sb0 l) as S0 by (destruct S; by split).
  destruct (sbcompress_loop_run (chain_fuel st) st sb0 (Some a) ((a, m) :: k) l I S0 C) as
    (st' & sb' & l' & E & I' & S' & R' & T' & B' & Y' & U'); try done.
  { intros c Hc. split; [by apply D|]. change (sb_lastrecord sb0) with (sb_lastrecord sb). rewrite La.
    intros Hs. destruct S as [SC _ _ _ _ _]. destruct l as [|[x mx] l]; simpl in SC; [congruence|].
    destruct SC as (Ex & _). apply (D c Hc). assert (x = c) as -> by congruence. left. }
  change (sb_mbtail sb0) with (sb_mbtail sb) in E.
  assert (sbcompress sb0 (Some a) (sb_mbtail sb) st = Some (sb', st')) as Ec.
  { unfold sbcompress, with_fuel. erewrite run_bind by exact E. done. }
  erewrite run_bind by exact Ec. exists st', (sb' <| sb_lastrecord := sb_mb sb' |>), l'.
  split; [done|]. split; [done|]. split; [destruct S'; by split|]. split; [done|]. split; [done|].
  split; [by rewrite (chain_bytes_same _ _ _ B')|]. split; [done|]. upd_simpl. by rewrite T'.
Qed.
End stream.

(** ** Examples *)

Definition sb_empty : sockbuf := mkSockbuf 0 8192 0 16384 1 None None None (Some 1000).

Lemma sb_empty_stream st : stream st sb_empty [].
Proof. split; try done; constructor. Qed.

Lemma sbappendstream_stream_witness : exists st' sb' l',
  sbappendstream sb_empty 1 ex_state = Some (sb', st') /\ minv (fun _ => 0) st' /\ stream st' sb' l' /\
  sb_lastrecord sb' = sb_mb sb' /\ same_bytes (bufs ex_state) (bufs st') /\
  chain_bytes (bufs st') l' = [1; 2; 3; 4; 5; 6; 7; 8] /\ untouched ex_state st' ex_chain /\
  sb_tx_space sb' = Some 1005.
Proof.
  apply (sbappendstream_stream (fun _ => 0) (fun _ => Z.le_refl 0) ex_state sb_empty [] 1
    (ex_mbuf (Some 2%positive) 1 5 M_PKTHDR 8) (tail ex_chain));
    [apply ex_state_inv|apply sb_empty_stream|done|apply ex_state_chain|by intros c _ []%elem_of_nil|apply ex_state_ok| |].
  - repeat constructor; done.
  - split; simpl; unfold MSIZE; lia.
Defined.

(** A buffer that holds the example chain. *)
Definition ex_sb : sockbuf := mkSockbuf 8 8192 4096 16384 1 (Some 1%positive) (Some 2%positive) (Some 1%positive) (Some 1000).

Lemma ex_sb_stream : stream ex_state ex_sb ex_chain.
Proof.
  split; [apply ex_state_chain|apply ex_state_ok|repeat constructor; done|done..].
Qed.

Lemma sbdrop_stream_witness : exists st' sb' l', sbdrop ex_sb 6 ex_state = Some (sb', st') /\ minv (fun _ => 0) st' /\
  stream st' sb' l' /\ sb_lastrecord sb' = sb_mb sb' /\ same_bytes (bufs ex_state) (bufs st') /\
  chain_bytes (bufs st') l' = [7; 8] /\ untouched ex_state st' ex_chain /\ sb_tx_space sb' = Some 1006.
Proof.
  apply (sbdrop_stream (fun _ => 0) (fun _ => Z.le_refl 0) ex_state ex_sb ex_chain 6);
    [apply ex_state_inv|apply ex_sb_stream|split; simpl; unfold MSIZE; lia|by intros n [= <-]|lia|simpl; lia].
Defined.

(** The counter of the application is credited twice for the same
    bytes: eight bytes appended to the send buffer and then acknowledged
    raise [tx_space] by the length of the first mbuf at the append and by
    eight at the drop, while the application took eight off it when it
    queued them. *)
Theorem tx_space_credited_twice :
  ((sb ← sbappendstream sb_empty 1; sb ← sbdrop sb 8; mret (sb_cc sb, sb_mbcnt sb, sb_tx_space sb)) : M _) ex_state
    ≫= (fun r => Some r.1) = Some (0, 0, Some (1000 + 5 + 8)).
Proof. vm_compute. reflexivity. Qed.
