(* ===== verification/IpReass.v ===== *)
(** * Reassembly of IPv4 fragments (src/netbsd/netinet/ip_reass.c)

    Fragments wait in queues, one per datagram, kept in a hash table with
    a time to live.  The mbuf chain of a fragment is represented by the
    bytes it carries: [m_adj] is [adj_bytes] of [MbufFacts], [m_cat] is
    concatenation.  Header fields are in host order; [ip_id], [ip_src] and
    [ip_dst], which are only compared and hashed, are as in memory. *)

From S2P Require Import Prelude Pool MbufFacts.

Definition IP_MF : Z := 0x2000.
Definition IP_OFFMASK : Z := 0x1fff.
Definition IP_MAXPACKET : Z := 65535.
Definition IP_MINFRAGSIZE : Z := 69.
Definition IPFRAGTTL : Z := 60.
Definition IPREASS_HASH_SIZE : Z := 64.
Definition IPREASS_HASH_MASK : Z := IPREASS_HASH_SIZE - 1.
Definition EINVAL : Z := 22.
Definition ENOMEM : Z := 12.

Record ip := mkIp {
  ip_hl : Z; ip_tos : Z; ip_len : Z; ip_id : Z; ip_off : Z; ip_p : Z; ip_src : Z; ip_dst : Z
}.

#[export] Instance eta_ip : EtaRecord ip :=
  fun r => mkIp (ip_hl r) (ip_tos r) (ip_len r) (ip_id r) (ip_off r) (ip_p r) (ip_src r) (ip_dst r).

Record ipfr_qent := mkQent { ipqe_addr : addr; ipqe_ip : ip; ipqe_m : list Z; ipqe_mff : bool }.

#[export] Instance eta_qent : EtaRecord ipfr_qent :=
  fun r => mkQent (ipqe_addr r) (ipqe_ip r) (ipqe_m r) (ipqe_mff r).

Record ipfr_queue := mkQueue {
  ipq_fragq : list ipfr_qent;
  ipq_ttl : Z; ipq_p : Z; ipq_id : Z; ipq_src : Z; ipq_dst : Z;
  ipq_nfrags : Z; ipq_tos : Z
}.

#[export] Instance eta_queue : EtaRecord ipfr_queue :=
  fun r => mkQueue (ipq_fragq r) (ipq_ttl r) (ipq_p r) (ipq_id r) (ipq_src r) (ipq_dst r)
    (ipq_nfrags r) (ipq_tos r).

Record reass_globals := mkReass {
  ip_frags : list (list ipfr_queue);
  ipfren_cache : pool;
  ip_nfragpackets : Z; ip_nfrags : Z;
  ip_maxfragpackets : Z; ip_maxfrags : Z;
  ip_nmbclusters : Z; nmbclusters : Z;
  dropscanidx : Z
}.

#[export] Instance eta_reass : EtaRecord reass_globals :=
  fun r => mkReass (ip_frags r) (ipfren_cache r) (ip_nfragpackets r) (ip_nfrags r) (ip_maxfragpackets r)
    (ip_maxfrags r) (ip_nmbclusters r) (nmbclusters r) (dropscanidx r).

(** The payload of a packet given back, and its header. *)
Record packet := mkPacket { pkt_ip : ip; pkt_data : list Z }.

Definition IPREASS_HASH (x y : Z) : Z :=
  Z.land (Z.lxor (Z.lor (Z.land x 0xf) (Z.shiftl (Z.land (Z.shiftr x 8) 0xf) 4)) y) IPREASS_HASH_MASK.

Definition ip_nmbclusters_changed (g : reass_globals) : reass_globals :=
  g <| ip_maxfrags := Z.quot (nmbclusters g) 4 |> <| ip_nmbclusters := nmbclusters g |>.

Definition CHECK_NMBCLUSTER_PARAMS (g : reass_globals) : reass_globals :=
  if ip_nmbclusters g =? nmbclusters g then g else ip_nmbclusters_changed g.

(** [cache] is the pool cache of entries, [clusters] the value of nmbclusters. *)
Definition ip_reass_init (cache : pool) (clusters : Z) : reass_globals :=
  ip_nmbclusters_changed (mkReass (replicate 64 []) cache 0 0 200 0 0 clusters 0).

(** ** Reassembly of one datagram *)

Definition bucket (g : reass_globals) (hash : Z) : list ipfr_queue :=
  default [] (ip_frags g !! Z.to_nat hash).

Definition set_bucket (g : reass_globals) (hash : Z) (b : list ipfr_queue) : reass_globals :=
  g <| ip_frags := <[Z.to_nat hash := b]> (ip_frags g) |>.

(** Return entries to the pool, in order. *)
Definition put_qents (cache : pool) (l : list ipfr_qent) : pool :=
  foldl (fun c q => pool_cache_put c (ipqe_addr q)) cache l.

(** The entries before the first one that begins after [off], and the rest. *)
Fixpoint find_after (off : Z) (l : list ipfr_qent) : list ipfr_qent * list ipfr_qent :=
  match l with
  | [] => ([], [])
  | q :: l' =>
      if off <? ip_off (ipqe_ip q) then ([], l)
      else let '(pre, post) := find_after off l' in (q :: pre, post)
  end.

(** Take [i] bytes off the front of an entry. *)
Definition qent_trim (q : ipfr_qent) (i : Z) : ipfr_qent :=
  q <| ipqe_ip := ((ipqe_ip q) <| ip_off := u16 (ip_off (ipqe_ip q) + i) |>
                               <| ip_len := u16 (ip_len (ipqe_ip q) - i) |>) |>
    <| ipqe_m := adj_bytes i (ipqe_m q) |>.

(** The part of the new entry that the preceding one does not provide;
    [None] when it provides everything. *)
Definition trim_front (pre : list ipfr_qent) (q : ipfr_qent) : option ipfr_qent :=
  match last pre with
  | None => Some q
  | Some p =>
      let i := ip_off (ipqe_ip p) + ip_len (ipqe_ip p) - ip_off (ipqe_ip q) in
      if 0 <? i then if ip_len (ipqe_ip q) <=? i then None else Some (qent_trim q i)
      else Some q
  end.

(** The succeeding entries that are kept, trimmed, and those dequeued. *)
Fixpoint trim_next (end_ : Z) (post : list ipfr_qent) : list ipfr_qent * list ipfr_qent :=
  match post with
  | [] => ([], [])
  | q :: post' =>
      if end_ <=? ip_off (ipqe_ip q) then (post, [])
      else
        let i := end_ - ip_off (ipqe_ip q) in
        if i <? ip_len (ipqe_ip q) then (qent_trim q i :: post', [])
        else let '(keep, gone) := trim_next end_ post' in (keep, q :: gone)
  end.

(** The end of the data when the entries follow each other from [next]. *)
Fixpoint contiguous (next : Z) (l : list ipfr_qent) : option Z :=
  match l with
  | [] => Some next
  | q :: l => if ip_off (ipqe_ip q) =? next then contiguous (next + ip_len (ipqe_ip q)) l else None
  end.

(** Take the queue at [i] out of its bucket and out of the counters. *)
Definition remove_queue (g : reass_globals) (hash : Z) (i : nat) (fp : ipfr_queue) : reass_globals :=
  (set_bucket g hash (delete i (bucket g hash)))
    <| ip_nfrags := ip_nfrags g - ipq_nfrags fp |> <| ip_nfragpackets := ip_nfragpackets g - 1 |>
    <| ipfren_cache := put_qents (ipfren_cache g) (ipq_fragq fp) |>.

Definition ip_freef (g : reass_globals) (hash : Z) (i : nat) : reass_globals :=
  match bucket g hash !! i with
  | Some fp => remove_queue g hash i fp
  | None => g
  end.

(** From [insert] on: the queue [fp], at [i], has the new entry. *)
Definition reass_check (g : reass_globals) (hash : Z) (i : nat) (fp : ipfr_queue)
    : option packet * reass_globals :=
  match contiguous 0 (ipq_fragq fp), last (ipq_fragq fp), head (ipq_fragq fp) with
  | Some next, Some p, Some q =>
      if ipqe_mff p then (None, g)
      else
        let hl := Z.shiftl (ip_hl (ipqe_ip q)) 2 in
        if IP_MAXPACKET <? next + hl then (None, ip_freef g hash i)
        else
          let hdr := (ipqe_ip q) <| ip_len := u16 (hl + next) |> <| ip_src := ipq_src fp |>
                                 <| ip_dst := ipq_dst fp |> in
          (Some (mkPacket hdr (concat (ipqe_m <$> ipq_fragq fp))), remove_queue g hash i fp)
  | _, _, _ => (None, g)
  end.

(** [dropfrag], with the queue count of [fp] not increased. *)
Definition dropfrag (g : reass_globals) (ipqe : ipfr_qent) : option packet * reass_globals :=
  (None, g <| ipfren_cache := pool_cache_put (ipfren_cache g) (ipqe_addr ipqe) |>).

(** [ip_reass]: [fp] is the place of the queue in its bucket; [malloced]
    tells whether [malloc] returns memory.  The entry comes with the bytes
    of the whole fragment, header included. *)
Definition ip_reass (malloced : bool) (g : reass_globals) (ipqe : ipfr_qent) (fp : option nat) (hash : Z)
    : option packet * reass_globals :=
  let ih := ipqe_ip ipqe in
  let ipqe := ipqe <| ipqe_m := adj_bytes (Z.shiftl (ip_hl ih) 2) (ipqe_m ipqe) |> in
  match fp with
  | None =>
      if (0 <=? ip_maxfragpackets g) && (ip_maxfragpackets g <=? ip_nfragpackets g) then dropfrag g ipqe
      else if negb malloced then dropfrag g ipqe
      else
        let fp := mkQueue [ipqe] IPFRAGTTL (ip_p ih) (ip_id ih) (ip_src ih) (ip_dst ih) 1 (ip_tos ih) in
        let g := g <| ip_nfrags := ip_nfrags g + 1 |> <| ip_nfragpackets := ip_nfragpackets g + 1 |> in
        reass_check (set_bucket g hash (fp :: bucket g hash)) hash 0 fp
  | Some i =>
      match bucket g hash !! i with
      | None => (None, g)
      | Some fp =>
          let '(pre, post) := find_after (ip_off ih) (ipq_fragq fp) in
          match trim_front pre ipqe with
          | None => dropfrag g ipqe
          | Some ipqe =>
              let '(keep, gone) := trim_next (ip_off (ipqe_ip ipqe) + ip_len (ipqe_ip ipqe)) post in
              let ngone := Z.of_nat (length gone) in
              let fp := fp <| ipq_fragq := pre ++ ipqe :: keep |>
                           <| ipq_nfrags := u16 (ipq_nfrags fp + 1 - ngone) |> in
              let g := g <| ip_nfrags := ip_nfrags g + 1 - ngone |>
                         <| ipfren_cache := put_qents (ipfren_cache g) gone |> in
              reass_check (set_bucket g hash (<[i := fp]> (bucket g hash))) hash i fp
          end
      end
  end.

(** The queue of a datagram in its bucket. *)
Definition queue_matches (ih : ip) (fp : ipfr_queue) : bool :=
  (ip_id ih =? ipq_id fp) && (ip_src ih =? ipq_src fp) && (ip_dst ih =? ipq_dst fp) && (ip_p ih =? ipq_p fp).

Fixpoint find_queue (ih : ip) (l : list ipfr_queue) : option nat :=
  match l with
  | [] => None
  | fp :: l => if queue_matches ih fp then Some O else S <$> find_queue ih l
  end.

(** [ip_reass_packet]: the error or the packet that is complete. *)
Definition ip_reass_packet (malloced : bool) (g : reass_globals) (bytes : list Z) (ih : ip)
    : (Z + option packet) * reass_globals :=
  let hlen := Z.shiftl (ip_hl ih) 2 in
  let len := ip_len ih in
  let off := Z.shiftl (Z.land (ip_off ih) IP_OFFMASK) 3 in
  if (if 0 <? off then off + hlen else len) <? IP_MINFRAGSIZE - 1 then (inl EINVAL, g)
  else
    let flen := u32 (len - hlen) in
    let mff := flag_set (ip_off ih) IP_MF in
    if mff && ((flen =? 0) || negb (Z.land flen 7 =? 0)) then (inl EINVAL, g)
    else
      let ih := ih <| ip_len := u16 flen |> <| ip_off := u16 off |> in
      let hash := IPREASS_HASH (ip_src ih) (ip_id ih) in
      let fp := find_queue ih (bucket g hash) in
      let tos := match fp with Some i => ipq_tos <$> bucket g hash !! i | None => None end in
      if (match tos with Some tos => negb (tos =? ip_tos ih) | None => false end) then (inl EINVAL, g)
      else
        match pool_cache_get (ipfren_cache g) with
        | None => (inl ENOMEM, g)
        | Some (a, cache) =>
            let g := g <| ipfren_cache := cache |> in
            let '(r, g) := ip_reass malloced g (mkQent a ih bytes mff) fp hash in
            (inr r, g)
        end.

(** ** Aging *)

(** What [ip_reass_ttl_decr] accumulates: the queues kept in the bucket, the
    counters of the module, the entries counted and the histogram. *)
Record decr_state := mkDecr {
  dc_nfrags : Z; dc_nfragpackets : Z; dc_cache : pool; dc_count : Z; dc_histo : list Z
}.

#[export] Instance eta_decr : EtaRecord decr_state :=
  fun r => mkDecr (dc_nfrags r) (dc_nfragpackets r) (dc_cache r) (dc_count r) (dc_histo r).

Definition ttl_decr_queue (ticks : Z) (s : decr_state) (fp : ipfr_queue) : option ipfr_queue * decr_state :=
  let fp := fp <| ipq_ttl := if ipq_ttl fp <=? ticks then 0 else ipq_ttl fp - ticks |> in
  if ipq_ttl fp =? 0 then
    (None, s <| dc_nfrags := dc_nfrags s - ipq_nfrags fp |> <| dc_nfragpackets := dc_nfragpackets s - 1 |>
             <| dc_cache := put_qents (dc_cache s) (ipq_fragq fp) |>)
  else
    (Some fp, s <| dc_count := u32 (dc_count s + ipq_nfrags fp) |>
                <| dc_histo := alter (fun n => u32 (n + ipq_nfrags fp)) (Z.to_nat (ipq_ttl fp)) (dc_histo s) |>).

Fixpoint ttl_decr_bucket (ticks : Z) (s : decr_state) (l : list ipfr_queue) : list ipfr_queue * decr_state :=
  match l with
  | [] => ([], s)
  | fp :: l =>
      let '(r, s) := ttl_decr_queue ticks s fp in
      let '(l, s) := ttl_decr_bucket ticks s l in
      (match r with Some fp => fp :: l | None => l end, s)
  end.

Fixpoint ttl_decr_table (ticks : Z) (s : decr_state) (t : list (list ipfr_queue))
    : list (list ipfr_queue) * decr_state :=
  match t with
  | [] => ([], s)
  | b :: t =>
      let '(b, s) := ttl_decr_bucket ticks s b in
      let '(t, s) := ttl_decr_table ticks s t in
      (b :: t, s)
  end.

(** [for (i = IPFRAGTTL, median = 0; i >= 0; i--) ...]; [n] is i + 1. *)
Fixpoint median_loop (n : nat) (histo : list Z) (median keepfraction : Z) : Z :=
  match n with
  | O => -1
  | S n =>
      let median := u32 (median + default 0 (histo !! n)) in
      if keepfraction <=? median then Z.of_nat n else median_loop n histo median keepfraction
  end.

(** [None] where the assertion on the number of fragments fails. *)
Definition ip_reass_ttl_decr (ticks : Z) (g : reass_globals) : option (Z * reass_globals) :=
  let s := mkDecr (ip_nfrags g) (ip_nfragpackets g) (ipfren_cache g) 0 (replicate 61 0) in
  let '(t, s) := ttl_decr_table ticks s (ip_frags g) in
  let g := g <| ip_frags := t |> <| ip_nfrags := dc_nfrags s |> <| ip_nfragpackets := dc_nfragpackets s |>
             <| ipfren_cache := dc_cache s |> in
  if u32 (ip_nfrags g) =? dc_count s then
    let dropfraction := Z.quot (ip_nfrags g) 2 in
    let keepfraction := u32 (ip_nfrags g - dropfraction) in
    Some (u32 (median_loop 61 (dc_histo s) 0 keepfraction), g)
  else None.

Definition ip_reass_drophalf (g : reass_globals) : option reass_globals :=
  match ip_reass_ttl_decr 0 g with
  | None => None
  | Some (median_ticks, g) => snd <$> ip_reass_ttl_decr median_ticks g
  end.

Definition ip_reass_drain (g : reass_globals) : option reass_globals := ip_reass_drophalf g.

(** [while (LIST_FIRST(&ip_frags[i]) != NULL) ip_freef(LIST_FIRST(&ip_frags[i]))] *)
Fixpoint free_bucket (n : nat) (g : reass_globals) (hash : Z) : reass_globals :=
  match n with
  | O => g
  | S n => free_bucket n (ip_freef g hash 0) hash
  end.

(** The drain to the limit on packets; [start] is [dropscanidx]. *)
Fixpoint drop_scan (fuel : nat) (g : reass_globals) (start i : Z) : reass_globals * Z :=
  match fuel with
  | O => (g, i)
  | S fuel =>
      if ip_maxfragpackets g <? ip_nfragpackets g then
        let g := free_bucket (length (bucket g i)) g i in
        let i := if IPREASS_HASH_SIZE <=? i + 1 then 0 else i + 1 in
        if i =? start then (g, i) else drop_scan fuel g start i
      else (g, i)
  end.

Definition ip_reass_slowtimo (g : reass_globals) : option reass_globals :=
  match ip_reass_ttl_decr 1 g with
  | None => None
  | Some (median_ttl, g) =>
      let g := CHECK_NMBCLUSTER_PARAMS g in
      match (if ip_maxfrags g <? ip_nfrags g then snd <$> ip_reass_ttl_decr median_ttl g else Some g) with
      | None => None
      | Some g =>
          Some (if ip_maxfragpackets g <? 0 then g
                else let '(g, i) := drop_scan 64 g (dropscanidx g) (dropscanidx g) in g <| dropscanidx := i |>)
      end
  end.
