(* ===== verification/IpReassFacts.v ===== *)
(** * Correctness of IPv4 reassembly

    What is delivered is made of received fragments, byte for byte; the
    counters, limits and the pool of entries stay exact; draining drops
    at least half of the fragments; and a datagram whose fragments arrive
    in any order is put together again. *)

From S2P Require Import Prelude Pool MbufFacts IpReass.

(** ** Fragments and entries *)

(** A fragment as received: the header with the length of the data and the
    offset in bytes, the data and the more-fragments flag. *)
Record fragment := mkFragment { f_ip : ip; f_data : list Z; f_mff : bool }.

Definition e_off (e : ipfr_qent) : Z := ip_off (ipqe_ip e).
Definition e_len (e : ipfr_qent) : Z := ip_len (ipqe_ip e).
Definition e_end (e : ipfr_qent) : Z := e_off e + e_len e.

Definition fragment_ok (f : fragment) : Prop :=
  0 <= ip_off (f_ip f) < 2 ^ 16 /\ 0 <= ip_len (f_ip f) < 2 ^ 16 /\
  ip_len (f_ip f) = Z.of_nat (length (f_data f)) /\ 0 <= ip_hl (f_ip f) < 16.

(** The datagram a fragment or queue belongs to. *)
Definition ip_key (h : ip) : Z * Z * Z * Z * Z := (ip_id h, ip_src h, ip_dst h, ip_p h, ip_tos h).
Definition queue_key (fp : ipfr_queue) : Z * Z * Z * Z * Z :=
  (ipq_id fp, ipq_src fp, ipq_dst fp, ipq_p fp, ipq_tos fp).

(** An entry is a received fragment without its first [j] bytes. *)
Definition entry_from (H : list fragment) (key : Z * Z * Z * Z * Z) (e : ipfr_qent) : Prop :=
  exists f j, f ∈ H /\ fragment_ok f /\ ip_key (f_ip f) = key /\ 0 <= j /\ (j = 0 \/ j < ip_len (f_ip f)) /\
    ipqe_ip e = (f_ip f) <| ip_off := ip_off (f_ip f) + j |> <| ip_len := ip_len (f_ip f) - j |> /\
    ipqe_m e = drop (Z.to_nat j) (f_data f) /\ ipqe_mff e = f_mff f.

(** Offsets and lengths are 16-bit numbers. *)
Definition entry_wf (e : ipfr_qent) : Prop :=
  0 <= e_off e < 2 ^ 16 /\ 0 <= e_len e < 2 ^ 16 /\ 0 <= ip_hl (ipqe_ip e) < 16.

Definition legal (e : ipfr_qent) : Prop := e_end e <= IP_MAXPACKET.
Definition good (H : list fragment) key (e : ipfr_qent) : Prop := entry_from H key e /\ legal e.
Definition poisoned (l : list ipfr_qent) : Prop := Exists (fun e => IP_MAXPACKET < e_end e) l.

Lemma entry_from_mono H H' key e : (forall f, f ∈ H -> f ∈ H') -> entry_from H key e -> entry_from H' key e.
Proof. intros S (f & j & Hf & R). exists f, j. auto. Qed.

Lemma entry_from_length H key e : entry_from H key e -> Z.of_nat (length (ipqe_m e)) = e_len e.
Proof.
  intros (f & j & _ & (_ & Lf & Lm & _) & _ & J1 & J2 & E & M & _). unfold e_len. rewrite M, length_drop, E. upd_simpl.
  lia.
Qed.

Lemma entry_from_wf H key e : entry_from H key e -> legal e -> entry_wf e.
Proof.
  intros (f & j & _ & (Lo & Lf & Lm & Hl) & _ & J1 & J2 & E & _) L.
  unfold legal, e_end, entry_wf, e_off, e_len, IP_MAXPACKET in *. rewrite E in *. upd_simpl. upd_simpl in L. lia.
Qed.

(** Trimming the front without wrapping around. *)
Lemma qent_trim_spec e i : entry_wf e -> 0 < i < e_len e -> e_off e + i <= IP_MAXPACKET ->
  e_off (qent_trim e i) = e_off e + i /\ e_len (qent_trim e i) = e_len e - i /\
  e_end (qent_trim e i) = e_end e /\ ipqe_m (qent_trim e i) = drop (Z.to_nat i) (ipqe_m e).
Proof.
  intros (Lo & Ll & _) Li Le. unfold IP_MAXPACKET in Le. unfold e_end, e_off, e_len, qent_trim, adj_bytes in *.
  upd_simpl. unfold u16. rewrite !Z.mod_small by lia. destruct (Z.leb_spec 0 i); [|lia]. repeat split; lia.
Qed.

Lemma qent_trim_wf e i : entry_wf e -> entry_wf (qent_trim e i).
Proof.
  intros (_ & _ & Hl). unfold entry_wf, e_off, e_len, qent_trim. upd_simpl. split; [apply u16_range|].
  split; [apply u16_range|done].
Qed.

Lemma qent_trim_good H key e i : good H key e -> 0 < i < e_len e -> good H key (qent_trim e i).
Proof.
  intros [(f & j & Hf & Kf & Ky & J1 & J2 & E & Em & Ef) L] Li.
  assert (entry_wf e) as We by (eapply entry_from_wf; [exists f, j; eauto 10|done]).
  assert (e_off e + i <= IP_MAXPACKET) as Lo by (unfold legal, e_end in L; lia).
  destruct (qent_trim_spec e i We Li Lo) as (To & Tl & Te & Tm). split; [|unfold legal; by rewrite Te].
  assert (e_off e = ip_off (f_ip f) + j /\ e_len e = ip_len (f_ip f) - j) as [Eo El].
  { unfold e_off, e_len. rewrite E. by upd_simpl. }
  exists f, (j + i). split; [done|]. split; [done|]. split; [done|]. split; [lia|]. split; [right; lia|]. split.
  - unfold e_off, e_len in *. unfold qent_trim in *. upd_simpl in To. upd_simpl in Tl. upd_simpl.
    rewrite To, Tl, Eo, El, E. upd_simpl. rewrite <- Z.add_assoc, Z.sub_add_distr. done.
  - split; [rewrite Tm, Em, drop_drop; f_equal; lia|done].
Qed.

(** ** One more entry *)

Lemma find_after_app off l pre post : find_after off l = (pre, post) -> l = pre ++ post.
Proof.
  revert pre post. induction l as [|q l IH]; intros pre post; simpl; [by intros [= <- <-]|].
  destruct (off <? _); [by intros [= <- <-]|]. destruct (find_after off l) as [pre' post'].
  intros [= <- <-]. simpl. f_equal. by apply IH.
Qed.

Lemma trim_next_addrs end_ post keep gone : trim_next end_ post = (keep, gone) ->
  ipqe_addr <$> post = (ipqe_addr <$> gone) ++ (ipqe_addr <$> keep).
Proof.
  revert keep gone. induction post as [|q post IH]; intros keep gone; simpl; [by intros [= <- <-]|].
  destruct (_ <=? _); [by intros [= <- <-]|]. destruct (_ <? _); [by intros [= <- <-]|].
  destruct (trim_next end_ post) as [k g]. intros [= <- <-]. simpl. f_equal. by apply IH.
Qed.

Lemma trim_next_wf end_ post keep gone : trim_next end_ post = (keep, gone) -> Forall entry_wf post ->
  Forall entry_wf keep.
Proof.
  revert keep gone. induction post as [|q post IH]; intros keep gone; simpl; [by intros [= <- <-]|].
  intros T [Wq W]%Forall_cons. revert T.
  destruct (_ <=? _); [intros [= <- <-]; by constructor|]. destruct (_ <? _).
  - intros [= <- <-]. constructor; [by apply qent_trim_wf|done].
  - destruct (trim_next end_ post) as [k g]. intros [= <- <-]. by eapply IH.
Qed.

Lemma trim_next_good H key end_ post keep gone : trim_next end_ post = (keep, gone) ->
  Forall (good H key) post -> Forall (good H key) keep.
Proof.
  revert keep gone. induction post as [|q post IH]; intros keep gone; simpl; [by intros [= <- <-]|].
  intros T [Wq W]%Forall_cons. revert T. fold (e_off q) (e_len q).
  destruct (Z.leb_spec end_ (e_off q)); [intros [= <- <-]; by constructor|].
  destruct (Z.ltb_spec (end_ - e_off q) (e_len q)).
  - intros [= <- <-]. constructor; [|done]. apply qent_trim_good; [done|lia].
  - destruct (trim_next end_ post) as [k g]. intros [= <- <-]. by eapply IH.
Qed.

Lemma trim_next_poisoned end_ post keep gone : trim_next end_ post = (keep, gone) -> Forall entry_wf post ->
  poisoned post -> poisoned keep \/ IP_MAXPACKET < end_.
Proof.
  revert keep gone. induction post as [|q post IH]; intros keep gone; simpl; [intros _ _ P; inversion P|].
  intros T [Wq W]%Forall_cons P. revert T. fold (e_off q) (e_len q).
  destruct (Z.leb_spec end_ (e_off q)); [intros [= <- <-]; by left|].
  destruct (Z.ltb_spec (end_ - e_off q) (e_len q)).
  - intros [= <- <-]. destruct (Z.le_gt_cases end_ IP_MAXPACKET) as [Le|]; [left|right; lia].
    apply Exists_cons in P as [P|P]; [|by right]. left.
    by destruct (qent_trim_spec q (end_ - e_off q) Wq) as (_ & _ & -> & _); [lia|lia|].
  - destruct (trim_next end_ post) as [k g]. intros [= <- <-].
    apply Exists_cons in P as [P|P]; [right; unfold e_end in P; lia|by eapply IH].
Qed.

Lemma last_elem {A} (l : list A) x : last l = Some x -> x ∈ l.
Proof. intros (l' & ->)%last_Some. apply elem_of_app. right. left. Qed.

Lemma trim_front_spec H key pre e e' : trim_front pre e = Some e' -> entry_wf e ->
  ipqe_addr e' = ipqe_addr e /\ entry_wf e' /\ (good H key e -> good H key e') /\
  (Forall legal pre -> IP_MAXPACKET < e_end e -> IP_MAXPACKET < e_end e').
Proof.
  unfold trim_front. intros T We. destruct (last pre) as [p|] eqn:Lp; [|by injection T as <-].
  revert T. fold (e_off p) (e_len p) (e_off e) (e_len e). set (i := e_off p + e_len p - e_off e).
  destruct (Z.ltb_spec 0 i); [|by intros [= <-]]. destruct (Z.leb_spec (e_len e) i); [done|]. intros [= <-].
  split; [done|]. split; [by apply qent_trim_wf|]. split; [intros G; by apply qent_trim_good|].
  intros L P. apply last_elem in Lp. rewrite Forall_forall in L. specialize (L p Lp). unfold legal, e_end in L.
  destruct (qent_trim_spec e i We) as (_ & _ & -> & _); [lia|unfold i; lia|done].
Qed.

Definition queue_good (H : list fragment) key (l : list ipfr_qent) : Prop :=
  Forall (good H key) l \/ poisoned l.

(** The queue after a fragment is put in. *)
Lemma insert_good H key l e e' pre post keep gone : Forall entry_wf l -> queue_good H key l -> entry_wf e ->
  entry_from H key e -> find_after (e_off e) l = (pre, post) -> trim_front pre e = Some e' ->
  trim_next (e_end e') post = (keep, gone) ->
  Forall entry_wf (pre ++ e' :: keep) /\ queue_good H key (pre ++ e' :: keep) /\
  (ipqe_addr <$> l) ++ [ipqe_addr e] ≡ₚ (ipqe_addr <$> pre ++ e' :: keep) ++ (ipqe_addr <$> gone).
Proof.
  intros W Q We Fe Fa Tf Tn. apply find_after_app in Fa as ->. apply Forall_app in W as [Wp Wq].
  destruct (trim_front_spec H key _ _ _ Tf We) as (Ea & We' & Ge & Pe). split; [|split].
  - apply Forall_app. split; [done|]. constructor; [done|]. by eapply trim_next_wf.
  - destruct Q as [G|P].
    + apply Forall_app in G as [Gp Gq]. destruct (Z.le_gt_cases (e_end e) IP_MAXPACKET) as [Le|Gt].
      * left. apply Forall_app. split; [done|]. constructor; [by apply Ge|]. by eapply trim_next_good.
      * right. apply Exists_app. right. left. apply Pe; [|lia].
        eapply Forall_impl; [exact Gp|]. by intros x [_ ?].
    + right. apply Exists_app in P as [P|P]; apply Exists_app; [by left|right].
      destruct (trim_next_poisoned _ _ _ _ Tn Wq P) as [K|K]; [by right|by left].
  - rewrite !fmap_app. rewrite (trim_next_addrs _ _ _ _ Tn). simpl. rewrite Ea.
    rewrite <- !app_assoc. apply Permutation_app_head. rewrite !app_assoc, <- Permutation_cons_append.
    simpl. by rewrite Permutation_app_comm.
Qed.

(** ** Delivery *)

(** A packet made of fragments of one datagram in [H]: each byte is the byte
    at that offset of a received fragment, the data ends where the last
    fragment does, and the header is the one of the first fragment. *)
Definition reassembled (H : list fragment) key (pkt : packet) : Prop :=
  let n := Z.of_nat (length (pkt_data pkt)) in
  (forall k, 0 <= k < n -> exists f, f ∈ H /\ ip_key (f_ip f) = key /\
     ip_off (f_ip f) <= k < ip_off (f_ip f) + ip_len (f_ip f) /\
     pkt_data pkt !! Z.to_nat k = f_data f !! Z.to_nat (k - ip_off (f_ip f))) /\
  (exists f, f ∈ H /\ ip_key (f_ip f) = key /\ f_mff f = false /\ ip_off (f_ip f) + ip_len (f_ip f) = n) /\
  (exists f, f ∈ H /\ ip_key (f_ip f) = key /\ ip_off (f_ip f) = 0 /\
     pkt_ip pkt = (f_ip f) <| ip_len := Z.shiftl (ip_hl (f_ip f)) 2 + n |> /\
     Z.shiftl (ip_hl (f_ip f)) 2 + n <= IP_MAXPACKET).

Lemma contiguous_le n l next : contiguous n l = Some next -> Forall entry_wf l ->
  n <= next /\ Forall (fun e => e_end e <= next) l.
Proof.
  revert n. induction l as [|e l IH]; intros n; simpl; [intros [= <-] _; split; [lia|constructor]|].
  fold (e_off e) (e_len e). destruct (Z.eqb_spec (e_off e) n) as [<-|]; [|done].
  intros C [We W]%Forall_cons. destruct (IH _ C W) as [L F]. destruct We as (_ & ? & _).
  split; [lia|]. constructor; [exact L|done].
Qed.

Lemma contiguous_byte H key n l next : contiguous n l = Some next -> Forall (entry_from H key) l ->
  n + Z.of_nat (length (concat (ipqe_m <$> l))) = next /\
  forall k, n <= k < next -> exists e, e ∈ l /\ e_off e <= k < e_end e /\
    concat (ipqe_m <$> l) !! Z.to_nat (k - n) = ipqe_m e !! Z.to_nat (k - e_off e).
Proof.
  revert n. induction l as [|e l IH]; intros n; [intros [= <-] _; split; intros; simpl; lia|].
  change (concat (ipqe_m <$> e :: l)) with (ipqe_m e ++ concat (ipqe_m <$> l)). simpl contiguous.
  fold (e_off e) (e_len e). destruct (Z.eqb_spec (e_off e) n) as [E|]; [|done].
  intros C [Fe F]%Forall_cons. destruct (IH _ C F) as [L B]. pose proof (entry_from_length _ _ _ Fe) as Le.
  rewrite length_app. split; [lia|]. intros k Hk. destruct (Z.lt_ge_cases k (n + e_len e)) as [Lt|Ge].
  - exists e. split; [left|]. split; [unfold e_end; lia|]. rewrite lookup_app_l by lia. f_equal. lia.
  - destruct (B k ltac:(lia)) as (e' & He & Re & Ee). exists e'. split; [by right|]. split; [done|].
    rewrite lookup_app_r by lia. rewrite <- Ee. f_equal. lia.
Qed.

Lemma entry_from_byte H key e k : entry_from H key e -> e_off e <= k < e_end e ->
  exists f, f ∈ H /\ ip_key (f_ip f) = key /\ ip_off (f_ip f) <= k < ip_off (f_ip f) + ip_len (f_ip f) /\
    ipqe_m e !! Z.to_nat (k - e_off e) = f_data f !! Z.to_nat (k - ip_off (f_ip f)).
Proof.
  intros (f & j & Hf & _ & Ky & J1 & J2 & E & M & _). unfold e_end, e_off, e_len. rewrite E. upd_simpl. intros R.
  exists f. split; [done|]. split; [done|]. split; [lia|]. rewrite M, lookup_drop. f_equal. lia.
Qed.

Lemma contiguous_last n l next p : contiguous n l = Some next -> last l = Some p -> e_end p = next.
Proof.
  revert n. induction l as [|e l IH]; intros n; [done|]. simpl contiguous. fold (e_off e) (e_len e).
  destruct (Z.eqb_spec (e_off e) n) as [<-|]; [|done]. destruct l as [|e' l]; [by intros [= <-] [= <-]|].
  intros C L. by apply (IH _ C).
Qed.

Lemma contiguous_head n l next q : contiguous n l = Some next -> head l = Some q -> e_off q = n.
Proof.
  destruct l as [|e l]; [done|]. simpl. fold (e_off e). destruct (Z.eqb_spec (e_off e) n) as [<-|]; [|done].
  by intros _ [= <-].
Qed.

(** What [reass_check] delivers. *)
Lemma reass_check_delivers H g hash i fp pkt g' : Forall entry_wf (ipq_fragq fp) ->
  queue_good H (queue_key fp) (ipq_fragq fp) -> reass_check g hash i fp = (Some pkt, g') ->
  reassembled H (queue_key fp) pkt /\ g' = remove_queue g hash i fp.
Proof.
  intros W Q. unfold reass_check. destruct (contiguous 0 (ipq_fragq fp)) as [next|] eqn:C; [|done].
  destruct (last (ipq_fragq fp)) as [p|] eqn:Lp; [|done]. destruct (head (ipq_fragq fp)) as [q|] eqn:Hq; [|done].
  destruct (ipqe_mff p) eqn:Mp; [done|]. set (hl := Z.shiftl (ip_hl (ipqe_ip q)) 2).
  assert (q ∈ ipq_fragq fp) as Eq by (destruct (ipq_fragq fp); [done|]; injection Hq as ->; left).
  pose proof (contiguous_le _ _ _ C W) as [Ln Le]. rewrite Forall_forall in W.
  assert (0 <= hl) as Hl by (unfold hl; rewrite Z.shiftl_mul_pow2 by lia; destruct (W q Eq) as (_ & _ & ?); lia).
  destruct (Z.ltb_spec IP_MAXPACKET (next + hl)) as [Big|Fit]; [done|]. intros [= <- <-]. split; [|done].
  destruct Q as [G|P].
  2:{ apply Exists_exists in P as (e & He & Pe). rewrite Forall_forall in Le. specialize (Le e He). lia. }
  assert (Forall (entry_from H (queue_key fp)) (ipq_fragq fp)) as F by (eapply Forall_impl; [exact G|]; by intros ? []).
  destruct (contiguous_byte _ _ _ _ _ C F) as [Lt B]. rewrite Z.add_0_l in Lt.
  rewrite Forall_forall in F. unfold reassembled. simpl pkt_data. rewrite Lt. split; [|split].
  - intros k Hk. destruct (B k Hk) as (e & He & Re & Ee). rewrite Z.sub_0_r in Ee.
    destruct (entry_from_byte _ _ _ k (F e He) Re) as (f & Hf & Ky & Rf & Ef). exists f. by rewrite Ee, Ef.
  - destruct (F p (last_elem _ _ Lp)) as (f & j & Hf & _ & Ky & J1 & J2 & E & _ & Mf).
    pose proof (contiguous_last _ _ _ _ C Lp) as Ep. exists f. split; [done|]. split; [done|]. split; [congruence|].
    unfold e_end, e_off, e_len in Ep. rewrite E in Ep. upd_simpl in Ep. lia.
  - destruct (F q Eq) as (f & j & Hf & (Lo & _) & Ky & J1 & J2 & E & _ & _).
    pose proof (contiguous_head _ _ _ _ C Hq) as Eo. unfold e_off in Eo. rewrite E in Eo. upd_simpl in Eo.
    assert (ip_off (f_ip f) = 0 /\ j = 0) as [O0 ->] by lia. exists f. split; [done|]. split; [done|]. split; [done|].
    unfold hl in *. rewrite E in *. upd_simpl in Fit. unfold IP_MAXPACKET in *. simpl pkt_ip.
    unfold queue_key, ip_key in Ky. injection Ky as K1 K2 K3 K4 K5. split; [|lia].
    destruct (f_ip f) eqn:Ef. simpl in *. subst. unfold set, field_update. simpl. f_equal. unfold u16. apply Z.mod_small.
    upd_simpl in Hl. lia.
Qed.

(** ** The table of queues *)

Definition queue_ok (H : list fragment) (fp : ipfr_queue) : Prop :=
  Forall entry_wf (ipq_fragq fp) /\ queue_good H (queue_key fp) (ipq_fragq fp) /\
  ipq_nfrags fp = Z.of_nat (length (ipq_fragq fp)) /\ 1 <= ipq_ttl fp <= IPFRAGTTL.

Definition ents (l : list ipfr_queue) : list ipfr_qent := concat (ipq_fragq <$> l).
Definition queues (g : reass_globals) : list ipfr_queue := concat (ip_frags g).

(** [objs] are the entries of the pool, [fl] those in the hands of the
    caller, [H] the fragments received. *)
Record reass_inv (objs : list addr) (H : list fragment) (fl : list addr) (g : reass_globals) : Prop := {
  ri_table : length (ip_frags g) = 64%nat;
  ri_queues : Forall (queue_ok H) (queues g);
  ri_packets : ip_nfragpackets g = Z.of_nat (length (queues g));
  ri_nfrags : ip_nfrags g = Z.of_nat (length (ents (queues g)));
  ri_pool : mempool (ipfren_cache g) ++ fl ++ (ipqe_addr <$> ents (queues g)) ≡ₚ objs;
  ri_limit : 0 <= ip_maxfragpackets g -> ip_nfragpackets g <= ip_maxfragpackets g;
  ri_scan : 0 <= dropscanidx g < 64;
  ri_small : Z.of_nat (length objs) < 2 ^ 16
}.

Lemma ents_app l1 l2 : ents (l1 ++ l2) = ents l1 ++ ents l2.
Proof. unfold ents. by rewrite fmap_app, concat_app. Qed.

Lemma ents_cons fp l : ents (fp :: l) = ipq_fragq fp ++ ents l.
Proof. done. Qed.

Lemma put_qents_mempool c l : mempool (put_qents c l) = mempool c ++ (ipqe_addr <$> l).
Proof.
  revert c. induction l as [|q l IH]; intros c; simpl; [by rewrite app_nil_r|]. rewrite IH. simpl. by rewrite <- app_assoc.
Qed.

Lemma queue_ok_mono H H' fp : (forall f, f ∈ H -> f ∈ H') -> queue_ok H fp -> queue_ok H' fp.
Proof.
  intros S (W & [G|P] & N & T); (split; [done|]); (split; [|done]); [left|by right].
  eapply Forall_impl; [exact G|]. intros e [F L]. split; [|done]. by eapply entry_from_mono.
Qed.

Lemma reass_inv_mono objs H H' fl g : (forall f, f ∈ H -> f ∈ H') -> reass_inv objs H fl g -> reass_inv objs H' fl g.
Proof.
  intros S []. split; try done. eapply Forall_impl; [done|]. intros fp. by apply queue_ok_mono.
Qed.

Lemma bucket_split g hash : length (ip_frags g) = 64%nat -> 0 <= hash < 64 ->
  exists t1 t2, ip_frags g = t1 ++ bucket g hash :: t2 /\ forall b, ip_frags (set_bucket g hash b) = t1 ++ b :: t2.
Proof.
  intros L Hh. unfold bucket, set_bucket.
  destruct (lookup_lt_is_Some_2 (ip_frags g) (Z.to_nat hash)) as [b Hb]; [lia|].
  destruct (split_at_lookup _ _ _ Hb) as (t1 & t2 & E & Lt). exists t1, t2. rewrite Hb. simpl. split; [done|].
  intros b'. upd_simpl. rewrite E. by apply insert_cursor.
Qed.

Lemma IPREASS_HASH_range x y : 0 <= IPREASS_HASH x y < 64.
Proof.
  unfold IPREASS_HASH. change IPREASS_HASH_MASK with (Z.ones 6). rewrite Z.land_ones by lia.
  apply Z.mod_pos_bound. lia.
Qed.

(** Replacing the queues [fps] of a bucket by [fps']. *)
Lemma inv_replace objs H fl fl' g g' t1 t2 b1 b2 fps fps' : reass_inv objs H fl g ->
  ip_frags g = t1 ++ (b1 ++ fps ++ b2) :: t2 -> ip_frags g' = t1 ++ (b1 ++ fps' ++ b2) :: t2 ->
  Forall (queue_ok H) fps' ->
  ip_nfragpackets g' = ip_nfragpackets g - Z.of_nat (length fps) + Z.of_nat (length fps') ->
  ip_nfrags g' = ip_nfrags g - Z.of_nat (length (ents fps)) + Z.of_nat (length (ents fps')) ->
  mempool (ipfren_cache g') ++ fl' ++ (ipqe_addr <$> ents fps') ≡ₚ
    mempool (ipfren_cache g) ++ fl ++ (ipqe_addr <$> ents fps) ->
  (0 <= ip_maxfragpackets g' -> ip_nfragpackets g' <= ip_maxfragpackets g') ->
  dropscanidx g' = dropscanidx g -> reass_inv objs H fl' g'.
Proof.
  intros [I1 I2 I3 I4 I5 I6 I7 I8] E E' Q Np Nf Pp Lm Ds. unfold queues in *. rewrite E in *.
  rewrite concat_app, concat_cons, <- !app_assoc in *.
  set (L1 := concat t1) in *. set (L2 := concat t2) in *.
  assert (concat (ip_frags g') = L1 ++ b1 ++ fps' ++ b2 ++ L2) as Ec.
  { by rewrite E', concat_app, concat_cons, <- !app_assoc. }
  split; unfold queues; rewrite ?Ec; try done; try lia.
  - rewrite E'. rewrite length_app in *. simpl in *. lia.
  - rewrite !Forall_app in *. tauto.
  - rewrite Np, I3, !length_app. lia.
  - rewrite Nf, I4, !ents_app, !length_app. lia.
  - rewrite <- I5, !ents_app, !fmap_app.
    set (A := ipqe_addr <$> ents L1). set (B := ipqe_addr <$> ents b1).
    set (C := (ipqe_addr <$> ents b2) ++ (ipqe_addr <$> ents L2)).
    transitivity ((mempool (ipfren_cache g') ++ fl' ++ (ipqe_addr <$> ents fps')) ++ A ++ B ++ C).
    + rewrite <- !app_assoc. do 2 apply Permutation_app_head. rewrite !app_assoc.
      apply Permutation_app_tail. rewrite Permutation_app_comm. by rewrite app_assoc.
    + rewrite Pp. rewrite <- !app_assoc. do 2 apply Permutation_app_head. rewrite !app_assoc.
      apply Permutation_app_tail. rewrite <- app_assoc. by rewrite Permutation_app_comm.
Qed.

(** Taking a queue out of the table. *)
Lemma remove_queue_inv objs H fl g hash i fp : reass_inv objs H fl g -> 0 <= hash < 64 ->
  bucket g hash !! i = Some fp -> reass_inv objs H fl (remove_queue g hash i fp).
Proof.
  intros I Hh Hi. destruct (bucket_split g hash (ri_table _ _ _ _ I) Hh) as (t1 & t2 & E & Es).
  destruct (split_at_lookup _ _ _ Hi) as (b1 & b2 & Eb & Lb).
  assert (queue_ok H fp) as (_ & _ & Nf & _).
  { pose proof (ri_queues _ _ _ _ I) as Q. unfold queues in Q. rewrite E, Eb in Q. rewrite Forall_forall in Q. apply Q.
    rewrite concat_app, concat_cons. apply elem_of_app. right. apply elem_of_app. left. apply elem_of_app. right. left. }
  pose proof (ri_limit _ _ _ _ I). 
  eapply (inv_replace _ _ _ _ g _ t1 t2 b1 b2 [fp] []); [exact I|by rewrite E, Eb| |constructor|..];
    unfold remove_queue; upd_simpl.
  - fold (set_bucket g hash (delete i (bucket g hash))). rewrite Es, Eb. f_equal. f_equal.
    rewrite <- Lb. simpl. by rewrite delete_middle.
  - simpl. lia.
  - rewrite Nf. unfold ents. simpl. rewrite app_nil_r. lia.
  - rewrite put_qents_mempool. unfold ents. simpl. rewrite !app_nil_r, <- app_assoc.
    apply Permutation_app_head, Permutation_app_comm.
  - change (ip_maxfragpackets (set_bucket _ _ _)) with (ip_maxfragpackets g). lia.
  - done.
Qed.

Lemma reass_check_inv objs H g hash i fp r g' : reass_inv objs H [] g -> 0 <= hash < 64 ->
  bucket g hash !! i = Some fp -> reass_check g hash i fp = (r, g') -> reass_inv objs H [] g'.
Proof.
  intros I Hh Hi. unfold reass_check, ip_freef. rewrite Hi. repeat case_match; intros [= <- <-]; try done;
    by apply remove_queue_inv.
Qed.

Lemma dropfrag_inv objs H g e r g' : reass_inv objs H [ipqe_addr e] g -> dropfrag g e = (r, g') ->
  reass_inv objs H [] g' /\ r = None.
Proof.
  intros [] [= <- <-]. split; [|done]. split; try done. upd_simpl. simpl.
  rewrite <- app_assoc. simpl. done.
Qed.

(** A fragment as an entry. *)
Lemma fragment_entry H f a : f ∈ H -> fragment_ok f ->
  let e := mkQent a (f_ip f) (f_data f) (f_mff f) in entry_wf e /\ entry_from H (ip_key (f_ip f)) e.
Proof.
  intros Hf K. pose proof K as (? & ? & _ & ?). split; [done|]. exists f, 0.
  split; [done|]. split; [done|]. split; [done|]. split; [lia|]. split; [by left|]. split; [|done].
  simpl. rewrite Z.add_0_r, Z.sub_0_r. by destruct (f_ip f).
Qed.

Lemma entries_small objs H fl g l1 fp l2 : reass_inv objs H fl g -> queues g = l1 ++ fp :: l2 ->
  Z.of_nat (length fl + length (ipq_fragq fp)) < 2 ^ 16.
Proof.
  intros I E. pose proof (ri_pool _ _ _ _ I) as P. pose proof (ri_small _ _ _ _ I) as S.
  rewrite <- P in S. rewrite !length_app, length_fmap, E, ents_app, ents_cons, !length_app in S. lia.
Qed.

(** The queue [fp] with the entry [e] put in. *)
Lemma ip_reass_insert objs H g hash i fp e e' pre post keep gone : reass_inv objs H [ipqe_addr e] g ->
  0 <= hash < 64 -> bucket g hash !! i = Some fp -> entry_wf e -> entry_from H (queue_key fp) e ->
  find_after (e_off e) (ipq_fragq fp) = (pre, post) -> trim_front pre e = Some e' ->
  trim_next (e_end e') post = (keep, gone) ->
  let ngone := Z.of_nat (length gone) in
  let fp' := fp <| ipq_fragq := pre ++ e' :: keep |> <| ipq_nfrags := u16 (ipq_nfrags fp + 1 - ngone) |> in
  let g' := g <| ip_nfrags := ip_nfrags g + 1 - ngone |> <| ipfren_cache := put_qents (ipfren_cache g) gone |> in
  let g'' := set_bucket g' hash (<[i := fp']> (bucket g' hash)) in
  queue_ok H fp' /\ reass_inv objs H [] g'' /\ bucket g'' hash !! i = Some fp'.
Proof.
  intros I Hh Hi We Fe Fa Tf Tn ngone fp' g' g''.
  destruct (bucket_split g hash (ri_table _ _ _ _ I) Hh) as (t1 & t2 & E & Es).
  destruct (split_at_lookup _ _ _ Hi) as (b1 & b2 & Eb & Lb).
  assert (queues g = (concat t1 ++ b1) ++ fp :: b2 ++ concat t2) as Eq.
  { unfold queues. rewrite E, Eb, concat_app, concat_cons. by rewrite <- !app_assoc. }
  pose proof (ri_queues _ _ _ _ I) as Q. rewrite Eq, Forall_app, Forall_cons in Q. destruct Q as (_ & (W & G & N & T) & _).
  destruct (insert_good H _ _ _ _ _ _ _ _ W G We Fe Fa Tf Tn) as (W' & G' & P').
  pose proof (entries_small _ _ _ _ _ _ _ I Eq) as Sm. simpl in Sm.
  assert (length (ipq_fragq fp) + 1 = length (pre ++ e' :: keep) + length gone)%nat as Ln.
  { apply Permutation_length in P'. rewrite !length_app, !length_fmap in P'. simpl in P'. lia. }
  assert (1 <= length (pre ++ e' :: keep))%nat as L1 by (rewrite length_app; simpl; lia).
  assert (queue_ok H fp') as Q'.
  { unfold fp', queue_ok, queue_key. upd_simpl. split; [done|]. split; [done|]. split; [|done].
    unfold u16. rewrite Z.mod_small; unfold ngone; lia. }
  split; [done|]. split.
  2:{ unfold g''. unfold set_bucket, bucket. upd_simpl. rewrite list_lookup_insert_eq.
      - simpl. apply list_lookup_insert_eq. exact (lookup_lt_Some _ _ _ Hi).
      - change (ip_frags g') with (ip_frags g). rewrite (ri_table _ _ _ _ I). lia. }
  eapply (inv_replace _ _ _ _ g _ t1 t2 b1 b2 [fp] [fp']); [exact I|by rewrite E, Eb| |by constructor|..].
  - unfold g''. change (ip_frags (set_bucket g' hash ?b)) with (ip_frags (set_bucket g hash b)).
    rewrite Es. change (bucket g' hash) with (bucket g hash). rewrite Eb, insert_cursor by done. done.
  - simpl. change (ip_nfragpackets g'') with (ip_nfragpackets g). lia.
  - change (ip_nfrags g'') with (ip_nfrags g + 1 - ngone). unfold ents, fp', ngone. simpl. upd_simpl.
    rewrite !app_nil_r. lia.
  - change (ipfren_cache g'') with (put_qents (ipfren_cache g) gone). rewrite put_qents_mempool.
    unfold ents, fp'. simpl. upd_simpl. rewrite !app_nil_r, <- app_assoc. apply Permutation_app_head.
    rewrite (Permutation_app_comm (ipqe_addr <$> gone)). rewrite <- P'. by rewrite <- Permutation_cons_append.
  - apply (ri_limit _ _ _ _ I).
  - done.
Qed.

(** A new queue for the entry [e]. *)
Lemma ip_reass_new objs H g hash e : reass_inv objs H [ipqe_addr e] g -> 0 <= hash < 64 -> entry_wf e ->
  entry_from H (ip_key (ipqe_ip e)) e ->
  (0 <= ip_maxfragpackets g -> ip_nfragpackets g < ip_maxfragpackets g) ->
  let ih := ipqe_ip e in
  let fp := mkQueue [e] IPFRAGTTL (ip_p ih) (ip_id ih) (ip_src ih) (ip_dst ih) 1 (ip_tos ih) in
  let g' := g <| ip_nfrags := ip_nfrags g + 1 |> <| ip_nfragpackets := ip_nfragpackets g + 1 |> in
  let g'' := set_bucket g' hash (fp :: bucket g' hash) in
  queue_ok H fp /\ reass_inv objs H [] g'' /\ bucket g'' hash !! 0%nat = Some fp.
Proof.
  intros I Hh We Fe Lm ih fp g' g''.
  destruct (bucket_split g hash (ri_table _ _ _ _ I) Hh) as (t1 & t2 & Eg & Es).
  assert (queue_ok H fp) as Q.
  { split; [by constructor|]. split; [|unfold IPFRAGTTL; done].
    destruct (Z.le_gt_cases (e_end e) IP_MAXPACKET); [left; by repeat constructor|right; left; lia]. }
  split; [done|]. split.
  - eapply (inv_replace _ _ _ _ g _ t1 t2 [] (bucket g hash) [] [fp]);
      [exact I|exact Eg|exact (Es _)|by constructor|..].
    + change (ip_nfragpackets g'') with (ip_nfragpackets g + 1). simpl. lia.
    + change (ip_nfrags g'') with (ip_nfrags g + 1). unfold ents. simpl. lia.
    + done.
    + change (ip_nfragpackets g'') with (ip_nfragpackets g + 1).
      change (ip_maxfragpackets g'') with (ip_maxfragpackets g). lia.
    + done.
  - unfold g'', bucket, set_bucket. upd_simpl. rewrite list_lookup_insert_eq; [done|].
    change (ip_frags g') with (ip_frags g). rewrite (ri_table _ _ _ _ I). lia.
Qed.

Lemma ip_reass_ok objs H g a ih bytes mff fp hash r g' malloced : reass_inv objs H [a] g -> 0 <= hash < 64 ->
  let f := mkFragment ih (adj_bytes (Z.shiftl (ip_hl ih) 2) bytes) mff in
  f ∈ H -> fragment_ok f ->
  (forall i, fp = Some i -> exists q, bucket g hash !! i = Some q /\ queue_key q = ip_key ih) ->
  ip_reass malloced g (mkQent a ih bytes mff) fp hash = (r, g') ->
  reass_inv objs H [] g' /\ forall pkt, r = Some pkt -> reassembled H (ip_key ih) pkt.
Proof.
  intros I Hh f Hf Kf Hq. unfold ip_reass. cbv zeta. simpl ipqe_ip.
  destruct (fragment_entry H f a Hf Kf) as [We Fe]. cbv zeta in We, Fe. simpl f_ip in We, Fe. simpl f_data in We, Fe.
  set (e := mkQent a ih (adj_bytes (Z.shiftl (ip_hl ih) 2) bytes) mff) in *.
  change ((mkQent a ih bytes mff) <| ipqe_m := adj_bytes (Z.shiftl (ip_hl ih) 2) (ipqe_m (mkQent a ih bytes mff)) |>) with e.
  assert (forall r g', dropfrag g e = (r, g') -> reass_inv objs H [] g' /\ forall pkt, r = Some pkt -> reassembled H (ip_key ih) pkt) as Dr.
  { intros r0 g0 E. destruct (dropfrag_inv objs H g e r0 g0 I E) as [? ->]. done. }
  destruct fp as [i|].
  - destruct (Hq i eq_refl) as (q & Hi & Kq). rewrite Hi.
    destruct (find_after (ip_off ih) (ipq_fragq q)) as [pre post] eqn:Fa.
    destruct (trim_front pre e) as [e'|] eqn:Tf; [|apply Dr].
    fold (e_off e') (e_len e'). fold (e_end e'). destruct (trim_next (e_end e') post) as [keep gone] eqn:Tn.
    rewrite <- Kq in Fe.
    destruct (ip_reass_insert objs H g hash i q e e' pre post keep gone I Hh Hi We Fe Fa Tf Tn) as (Q' & I' & Hi').
    intros E. split; [by eapply reass_check_inv|]. intros pkt ->. destruct Q' as (W' & G' & _).
    apply (reass_check_delivers H _ _ _ _ _ _ W' G') in E as [R _].
    unfold queue_key in R. upd_simpl in R. fold (queue_key q) in R. by rewrite Kq in R.
  - destruct ((0 <=? ip_maxfragpackets g) && (ip_maxfragpackets g <=? ip_nfragpackets g)) eqn:Lim; [apply Dr|].
    destruct malloced; [|apply Dr]. cbn [negb].
    destruct (ip_reass_new objs H g hash e I Hh We Fe) as (Q' & I' & Hi').
    { intros M. apply andb_false_iff in Lim as [Lim|Lim]; apply Z.leb_gt in Lim; lia. }
    intros E. split; [by eapply reass_check_inv|]. intros pkt ->. destruct Q' as (W' & G' & _).
    by apply (reass_check_delivers H _ _ _ _ _ _ W' G') in E as [R _].
Qed.

(** ** Arrival of a fragment *)

Definition input_ok (ih : ip) (bytes : list Z) : Prop :=
  0 <= ip_hl ih < 16 /\ Z.shiftl (ip_hl ih) 2 <= ip_len ih < 2 ^ 16 /\ ip_len ih = Z.of_nat (length bytes) /\
  0 <= ip_off ih < 2 ^ 16.

(** The fragment in a packet. *)
Definition frag_of (ih : ip) (bytes : list Z) : fragment :=
  let hlen := Z.shiftl (ip_hl ih) 2 in
  mkFragment (ih <| ip_len := ip_len ih - hlen |> <| ip_off := 8 * (ip_off ih mod 2 ^ 13) |>)
    (drop (Z.to_nat hlen) bytes) (flag_set (ip_off ih) IP_MF).

Lemma frag_off x : Z.shiftl (Z.land x IP_OFFMASK) 3 = 8 * (x mod 2 ^ 13).
Proof. change IP_OFFMASK with (Z.ones 13). rewrite Z.land_ones, Z.shiftl_mul_pow2 by lia. lia. Qed.

Lemma shiftl_2 x : Z.shiftl x 2 = 4 * x.
Proof. rewrite Z.shiftl_mul_pow2 by lia. lia. Qed.

Lemma frag_of_ok ih bytes : input_ok ih bytes -> fragment_ok (frag_of ih bytes).
Proof.
  intros (Hl & Hn & Hb & Ho). unfold fragment_ok, frag_of. rewrite shiftl_2 in *. simpl f_ip. simpl f_data. upd_simpl.
  rewrite length_drop. pose proof (Z.mod_pos_bound (ip_off ih) (2 ^ 13) ltac:(lia)). lia.
Qed.

Lemma find_queue_spec ih l i : find_queue ih l = Some i -> exists q, l !! i = Some q /\ queue_matches ih q = true.
Proof.
  revert i. induction l as [|q l IH]; intros i; simpl; [done|]. destruct (queue_matches ih q) eqn:M.
  - intros [= <-]. by exists q.
  - destruct (find_queue ih l) as [j|]; [|done]. intros [= <-]. simpl. by apply IH.
Qed.

Lemma queue_matches_key ih q : queue_matches ih q = true -> ipq_tos q = ip_tos ih -> queue_key q = ip_key ih.
Proof.
  unfold queue_matches, queue_key, ip_key. rewrite !andb_true_iff, !Z.eqb_eq. intros [[[-> ->] ->] ->] ->. done.
Qed.

Lemma ip_reass_packet_ok objs H g bytes ih malloced r g' : reass_inv objs H [] g -> input_ok ih bytes ->
  ip_reass_packet malloced g bytes ih = (r, g') ->
  reass_inv objs (frag_of ih bytes :: H) [] g' /\
  forall pkt, r = inr (Some pkt) -> reassembled (frag_of ih bytes :: H) (ip_key ih) pkt.
Proof.
  intros I0 K. assert (reass_inv objs (frag_of ih bytes :: H) [] g) as I.
  { eapply reass_inv_mono, I0. intros f Hf. by right. }
  clear I0. unfold ip_reass_packet. cbv zeta. rewrite frag_off, shiftl_2.
  set (off := 8 * (ip_off ih mod 2 ^ 13)). set (hlen := 4 * ip_hl ih).
  pose proof K as (Hl & Hn & Hb & Ho). rewrite shiftl_2 in Hn. fold hlen in Hn.
  assert (0 <= off < 2 ^ 16) as Lo by (pose proof (Z.mod_pos_bound (ip_off ih) (2 ^ 13) ltac:(lia)); lia).
  assert (0 <= hlen) as Lh by lia.
  destruct (_ <? IP_MINFRAGSIZE - 1); [by intros [= <- <-]|]. rewrite (u32_small (ip_len ih - hlen)) by lia.
  destruct (_ && _); [by intros [= <- <-]|].
  assert (u16 (ip_len ih - hlen) = ip_len ih - hlen /\ u16 off = off) as [-> ->]
    by (unfold u16; rewrite !Z.mod_small by lia; done).
  set (ih' := ih <| ip_len := ip_len ih - hlen |> <| ip_off := off |>).
  change (IPREASS_HASH (ip_src ih') (ip_id ih')) with (IPREASS_HASH (ip_src ih) (ip_id ih)).
  set (hash := IPREASS_HASH (ip_src ih) (ip_id ih)). set (fp := find_queue ih' (bucket g hash)).
  destruct (match match fp with Some i => ipq_tos <$> bucket g hash !! i | None => None end with
            Some tos => negb (tos =? ip_tos ih') | None => false end) eqn:Tos;
    [by intros [= <- <-]|].
  destruct (pool_cache_get (ipfren_cache g)) as [[a cache]|] eqn:G; [|by intros [= <- <-]].
  destruct (ip_reass malloced _ _ fp hash) as [r1 g1] eqn:E. intros [= <- <-].
  unfold pool_cache_get, pool_get in G. destruct (mempool (ipfren_cache g)) as [|x rest] eqn:Ec; [done|].
  injection G as -> <-.
  assert (reass_inv objs (frag_of ih bytes :: H) [a] (g <| ipfren_cache := mkPool rest |>)) as Ia.
  { destruct I as [J1 J2 J3 J4 J5 J6 J7 J8]. split; try done. upd_simpl. simpl. rewrite <- J5, Ec. simpl.
    by rewrite <- Permutation_middle. }
  assert (frag_of ih bytes = mkFragment ih' (adj_bytes (Z.shiftl (ip_hl ih') 2) bytes) (flag_set (ip_off ih) IP_MF)) as Ef.
  { unfold frag_of. change (ip_hl ih') with (ip_hl ih). rewrite shiftl_2. fold hlen off. unfold adj_bytes.
    destruct (Z.leb_spec 0 hlen); [done|lia]. }
  pose proof (ip_reass_ok objs (frag_of ih bytes :: H) _ a ih' bytes (flag_set (ip_off ih) IP_MF) fp hash r1 g1 malloced Ia
    (IPREASS_HASH_range _ _)) as R. cbv zeta in R. destruct R as [I1 R1]; [| | |exact E|].
  - rewrite <- Ef. left.
  - rewrite <- Ef. by apply frag_of_ok.
  - intros i Hi. change (bucket (g <| ipfren_cache := mkPool rest |>) hash) with (bucket g hash).
    destruct (find_queue_spec _ _ _ Hi) as (q & Hq & Mq). exists q. split; [done|]. rewrite Hi, Hq in Tos. simpl in Tos.
    apply queue_matches_key; [done|]. apply negb_false_iff, Z.eqb_eq in Tos. exact Tos.
  - split; [done|]. intros pkt [= ->]. exact (R1 pkt eq_refl).
Qed.

(** ** Aging *)

(** The queue [ticks] later, if it lives. *)
Definition aged (ticks : Z) (fp : ipfr_queue) : option ipfr_queue :=
  if ipq_ttl fp <=? ticks then None else Some (fp <| ipq_ttl := ipq_ttl fp - ticks |>).

(** The entries of the queues whose time to live is at least [k]. *)
Definition frags_from (l : list ipfr_queue) (k : Z) : Z :=
  Z.of_nat (length (ents (filter (fun fp => k <= ipq_ttl fp) l))).

Lemma ttl_decr_bucket_app ticks s l1 l2 :
  ttl_decr_bucket ticks s (l1 ++ l2) =
    let '(k1, s1) := ttl_decr_bucket ticks s l1 in
    let '(k2, s2) := ttl_decr_bucket ticks s1 l2 in (k1 ++ k2, s2).
Proof.
  revert s. induction l1 as [|fp l1 IH]; intros s; simpl; [by destruct (ttl_decr_bucket ticks s l2)|].
  destruct (ttl_decr_queue ticks s fp) as [r s1]. rewrite IH. destruct (ttl_decr_bucket ticks s1 l1) as [k1 s2].
  destruct (ttl_decr_bucket ticks s2 l2) as [k2 s3]. by destruct r.
Qed.

Lemma ttl_decr_table_flat ticks s t t' s' : ttl_decr_table ticks s t = (t', s') ->
  ttl_decr_bucket ticks s (concat t) = (concat t', s') /\ length t' = length t.
Proof.
  revert s t' s'. induction t as [|b t IH]; intros s t' s'; simpl; [by intros [= <- <-]|].
  rewrite ttl_decr_bucket_app. destruct (ttl_decr_bucket ticks s b) as [b' s1].
  destruct (ttl_decr_table ticks s1 t) as [t1 s2] eqn:E. intros [= <- <-].
  destruct (IH _ _ _ E) as [-> E2]. split; [done|]. simpl. by rewrite E2.
Qed.

(** What the histogram holds for the queues [l]. *)
Definition frags_at (l : list ipfr_queue) (k : Z) : Z :=
  Z.of_nat (length (ents (filter (fun fp => ipq_ttl fp = k) l))).

Definition histo_is (histo : list Z) (f : Z -> Z) : Prop :=
  length histo = 61%nat /\ forall k, (k <= 60)%nat -> histo !! k = Some (f (Z.of_nat k)).

Lemma aged_ok H ticks fp fp' : 0 <= ticks -> queue_ok H fp -> aged ticks fp = Some fp' ->
  queue_ok H fp' /\ ipq_fragq fp' = ipq_fragq fp /\ ipq_ttl fp' = ipq_ttl fp - ticks.
Proof.
  unfold aged. intros Tk (W & G & N & T). destruct (Z.leb_spec (ipq_ttl fp) ticks); [done|]. intros [= <-].
  unfold queue_ok, queue_key. upd_simpl. repeat (split; try done); lia.
Qed.

(** The counters after the queues [l]. *)
Record decr_ok (l l' : list ipfr_queue) (s s' : decr_state) : Prop := {
  do_nfrags : dc_nfrags s' = dc_nfrags s - Z.of_nat (length (ents l)) + Z.of_nat (length (ents l'));
  do_packets : dc_nfragpackets s' = dc_nfragpackets s - Z.of_nat (length l) + Z.of_nat (length l');
  do_pool : mempool (dc_cache s') ++ (ipqe_addr <$> ents l') ≡ₚ mempool (dc_cache s) ++ (ipqe_addr <$> ents l);
  do_count : dc_count s' = dc_count s + Z.of_nat (length (ents l'));
  do_histo : forall f, histo_is (dc_histo s) f -> (forall k, 0 <= f k) ->
    (forall k, f k + Z.of_nat (length (ents l)) < 2 ^ 32) -> histo_is (dc_histo s') (fun k => f k + frags_at l' k)
}.

Lemma frags_at_cons fp l k : frags_at (fp :: l) k =
  (if decide (ipq_ttl fp = k) then Z.of_nat (length (ipq_fragq fp)) else 0) + frags_at l k.
Proof.
  unfold frags_at. rewrite filter_cons. destruct (decide (ipq_ttl fp = k)); [|lia].
  rewrite ents_cons, length_app. lia.
Qed.

Lemma ttl_decr_bucket_ok H ticks s l l' s' : 0 <= ticks -> Forall (queue_ok H) l ->
  0 <= dc_count s -> dc_count s + Z.of_nat (length (ents l)) < 2 ^ 32 ->
  ttl_decr_bucket ticks s l = (l', s') -> l' = omap (aged ticks) l /\ Forall (queue_ok H) l' /\ decr_ok l l' s s'.
Proof.
  intros Tk Q. revert s l' s'. induction Q as [|fp l Qf Q IH]; intros s l' s' C0 C1; simpl.
  { intros [= <- <-]. split; [done|]. split; [constructor|]. split; try done; try (simpl; lia).
    intros f [Hl Hf] _ _. split; [done|]. intros k Hk. rewrite (Hf k Hk). unfold frags_at. simpl. f_equal. lia. }
  unfold ttl_decr_queue. rewrite ents_cons, length_app in C1. pose proof Qf as (W & G & N & T).
  destruct (aged ticks fp) as [fp'|] eqn:Ag.
  - destruct (aged_ok _ _ _ _ Tk Qf Ag) as (Q' & Fq & Tt). unfold aged in Ag.
    destruct (Z.leb_spec (ipq_ttl fp) ticks); [done|]. injection Ag as Ag. rewrite Ag, Tt.
    destruct (Z.eqb_spec (ipq_ttl fp - ticks) 0); [lia|].
    assert (ipq_nfrags fp' = Z.of_nat (length (ipq_fragq fp))) as Nf by (rewrite <- Ag; exact N). rewrite Nf.
    set (s1 := s <| dc_count := _ |> <| dc_histo := _ |>).
    destruct (ttl_decr_bucket ticks s1 l) as [l2 s2] eqn:E. intros [= <- <-].
    assert (dc_count s1 = dc_count s + Z.of_nat (length (ipq_fragq fp))) as Cs by (unfold s1; upd_simpl; apply u32_small; lia).
    destruct (IH s1 l2 s2) as (-> & Q2 & D); [lia|lia|done|]. split; [done|]. split; [by constructor|].
    destruct D as [D1 D2 D3 D4 D5]. split.
    + rewrite D1. unfold s1. upd_simpl. rewrite !ents_cons, Fq, !length_app. lia.
    + rewrite D2. unfold s1. upd_simpl. simpl length. lia.
    + rewrite !ents_cons, Fq, !fmap_app. rewrite Permutation_app_swap_app, D3. unfold s1. upd_simpl.
      by rewrite <- Permutation_app_swap_app.
    + rewrite D4, Cs, !ents_cons, Fq, length_app. lia.
    + intros f Hf Fp Fs.
      assert (histo_is (dc_histo s1) (fun k => f k + (if decide (ipq_ttl fp' = k) then Z.of_nat (length (ipq_fragq fp')) else 0))) as H1.
      { destruct Hf as [Hl Hf]. unfold s1. upd_simpl. split; [by rewrite length_alter|]. intros k Hk.
        destruct (decide (Z.to_nat (ipq_ttl fp - ticks) = k)) as [<-|Nk].
        - rewrite list_lookup_alter_eq, (Hf _ Hk). simpl. rewrite Z2Nat.id by lia. rewrite Tt, decide_True, Fq by done. f_equal.
          specialize (Fs (ipq_ttl fp - ticks)). specialize (Fp (ipq_ttl fp - ticks)).
          rewrite ents_cons, length_app in Fs. apply u32_small. lia.
        - rewrite list_lookup_alter_ne, (Hf _ Hk) by done. rewrite Tt, decide_False; [f_equal; lia|]. intros Ek. lia. }
      destruct (D5 _ H1) as [L5 H5].
      * intros k. specialize (Fp k). destruct (decide _); lia.
      * intros k. specialize (Fs k). rewrite ents_cons, length_app in Fs. rewrite Fq. destruct (decide _); lia.
      * split; [done|]. intros k Hk. rewrite (H5 k Hk). f_equal. rewrite frags_at_cons. lia.
  - unfold aged in Ag. destruct (Z.leb_spec (ipq_ttl fp) ticks); [|done]. upd_simpl. change (0 =? 0) with true. cbv iota.
    set (s1 := s <| dc_nfrags := _ |> <| dc_nfragpackets := _ |> <| dc_cache := _ |>).
    destruct (ttl_decr_bucket ticks s1 l) as [l2 s2] eqn:E. intros [= <- <-].
    destruct (IH s1 l2 s2) as (-> & Q2 & D); [done|unfold s1; upd_simpl; lia|done|]. split; [done|]. split; [done|].
    destruct D as [D1 D2 D3 D4 D5]. split.
    + rewrite D1. unfold s1. upd_simpl. rewrite !ents_cons, !length_app. lia.
    + rewrite D2. unfold s1. upd_simpl. simpl length. lia.
    + rewrite D3. unfold s1. upd_simpl. rewrite put_qents_mempool, ents_cons, fmap_app, app_assoc. done.
    + rewrite D4. done.
    + intros f Hf Fp Fs. apply D5; [done|done|]. intros k. specialize (Fs k). rewrite ents_cons, length_app in Fs. lia.
Qed.

Lemma frags_from_S l k : frags_from l k = frags_at l k + frags_from l (k + 1).
Proof.
  induction l as [|fp l IH]; [done|]. rewrite frags_at_cons. unfold frags_from in *. rewrite !filter_cons.
  repeat destruct (decide _); try lia; rewrite ?ents_cons, ?length_app; lia.
Qed.

Lemma frags_from_all l k : Forall (fun fp => k <= ipq_ttl fp) l -> frags_from l k = Z.of_nat (length (ents l)).
Proof.
  unfold frags_from. induction 1 as [|fp l K _ IH]; [done|]. rewrite filter_cons, decide_True by done.
  rewrite !ents_cons, !length_app. lia.
Qed.

Lemma frags_from_none l k : Forall (fun fp => ipq_ttl fp < k) l -> frags_from l k = 0.
Proof.
  unfold frags_from. induction 1 as [|fp l K _ IH]; [done|]. rewrite filter_cons, decide_False by lia. done.
Qed.

Lemma frags_from_mono l k : 0 <= frags_from l (k + 1) <= frags_from l k.
Proof. rewrite (frags_from_S l k). unfold frags_at, frags_from. lia. Qed.

(** [r] is the median: enough fragments live at least that long, and too
    few live longer. *)
Definition is_median (l : list ipfr_queue) (keep r : Z) : Prop :=
  0 <= r <= 60 /\ keep <= frags_from l r /\ (frags_from l (r + 1) < keep \/ r = 60).

Lemma median_loop_spec n histo l keep : histo_is histo (frags_at l) -> (n <= 61)%nat -> keep <= frags_from l 0 ->
  frags_from l 0 < 2 ^ 32 -> n = 61%nat \/ frags_from l (Z.of_nat n) < keep ->
  is_median l keep (median_loop n histo (frags_from l (Z.of_nat n)) keep).
Proof.
  intros [Hl Hh] Ln Lk Lt. induction n as [|n IH]; intros Hn.
  { destruct Hn as [|Hn]; [done|]. change (Z.of_nat 0) with 0 in Hn. lia. }
  simpl median_loop. rewrite (Hh n) by lia. simpl default.
  assert (frags_from l (Z.of_nat (S n)) + frags_at l (Z.of_nat n) = frags_from l (Z.of_nat n)) as E.
  { rewrite (frags_from_S l (Z.of_nat n)). replace (Z.of_nat (S n)) with (Z.of_nat n + 1) by lia. lia. }
  rewrite E. assert (0 <= frags_from l (Z.of_nat n) <= frags_from l 0) as [Lo Hi].
  { split; [unfold frags_from; lia|]. clear -l. induction n as [|n IH]; [apply Z.le_refl|].
    pose proof (frags_from_mono l (Z.of_nat n)). replace (Z.of_nat (S n)) with (Z.of_nat n + 1) by lia. lia. }
  rewrite u32_small by lia. destruct (Z.leb_spec keep (frags_from l (Z.of_nat n))) as [Le|Gt].
  - split; [lia|]. split; [done|]. destruct Hn as [Hn|Hn]; [right; lia|left].
    replace (Z.of_nat n + 1) with (Z.of_nat (S n)) by lia. done.
  - apply IH; [lia|by right].
Qed.

Lemma omap_aged_length ticks l : (length (omap (aged ticks) l) <= length l)%nat.
Proof. induction l as [|fp l IH]; csimpl; [lia|]. destruct (aged ticks fp); csimpl; lia. Qed.

Lemma omap_aged_ents ticks l : (length (ents (omap (aged ticks) l)) <= length (ents l))%nat.
Proof.
  induction l as [|fp l IH]; [done|]. csimpl. unfold aged at 1. destruct (_ <=? _);
    rewrite !ents_cons, !length_app; [|upd_simpl]; lia.
Qed.

Lemma ttl_decr_ok objs H ticks g : reass_inv objs H [] g -> 0 <= ticks ->
  exists r g', ip_reass_ttl_decr ticks g = Some (r, g') /\ reass_inv objs H [] g' /\
    queues g' = omap (aged ticks) (queues g) /\
    is_median (queues g') (ip_nfrags g' - Z.quot (ip_nfrags g') 2) r /\
    ip_maxfrags g' = ip_maxfrags g /\ ip_maxfragpackets g' = ip_maxfragpackets g.
Proof.
  intros I Tk. pose proof I as [J1 J2 J3 J4 J5 J6 J7 J8]. unfold ip_reass_ttl_decr.
  set (s := mkDecr _ _ _ _ _). destruct (ttl_decr_table ticks s (ip_frags g)) as [t s'] eqn:E.
  destruct (ttl_decr_table_flat _ _ _ _ _ E) as [Ef Lt].
  assert (Z.of_nat (length (ents (queues g))) < 2 ^ 16) as Sm.
  { rewrite <- J5 in J8. simpl in J8. rewrite length_app, length_fmap in J8. lia. }
  destruct (ttl_decr_bucket_ok H ticks s (queues g) (concat t) s' Tk J2) as (Et & Q' & D); [done|simpl; lia|exact Ef|].
  destruct D as [D1 D2 D3 D4 D5]. simpl in D1, D2, D3, D4. upd_simpl.
  assert (dc_nfrags s' = Z.of_nat (length (ents (concat t)))) as Nf by lia.
  assert (length (ents (concat t)) <= length (ents (queues g)))%nat as Le by (rewrite Et; apply omap_aged_ents).
  assert (length (concat t) <= length (queues g))%nat as Lq by (rewrite Et; apply omap_aged_length).
  rewrite Z.add_0_l in D4. rewrite Nf, u32_small, D4, Z.eqb_refl by lia.
  assert (frags_from (concat t) 0 = Z.of_nat (length (ents (concat t)))) as F0.
  { apply frags_from_all. eapply Forall_impl; [exact Q'|]. intros fp (_ & _ & _ & ?). lia. }
  assert (frags_from (concat t) 61 = 0) as F61.
  { apply frags_from_none. eapply Forall_impl; [exact Q'|]. intros fp (_ & _ & _ & ?). unfold IPFRAGTTL in *. lia. }
  assert (histo_is (dc_histo s') (frags_at (concat t))) as Hh.
  { destruct (D5 (fun _ => 0)) as [L5 H5]; [|lia|intros; simpl; lia|split; [done|]; intros k Hk; by rewrite (H5 k Hk)].
    split; [done|]. intros k Hk. exact (lookup_replicate_2 61 0 k ltac:(lia)). }
  pose proof (Z.quot_pos (Z.of_nat (length (ents (concat t)))) 2 ltac:(lia) ltac:(lia)).
  pose proof (Z.quot_le_upper_bound (Z.of_nat (length (ents (concat t)))) 2 (Z.of_nat (length (ents (concat t)))) ltac:(lia) ltac:(lia)).
  set (n := Z.of_nat (length (ents (concat t)))) in *.
  rewrite (u32_small (n - Z.quot n 2)) by lia.
  pose proof (median_loop_spec 61 (dc_histo s') (concat t) (n - Z.quot n 2) Hh) as Ml.
  change (Z.of_nat 61) with 61 in Ml. rewrite F61, F0 in Ml. specialize (Ml ltac:(lia) ltac:(lia) ltac:(lia) ltac:(by left)).
  rewrite (u32_small (median_loop _ _ _ _)) by (destruct Ml; lia).
  eexists _, _. split; [reflexivity|]. split; [|split; [exact Et|split; [|done]]].
  - split; unfold queues in *; upd_simpl; try done.
    + lia.
    + rewrite D2, J3. lia.
    + simpl. simpl in J5. by rewrite D3.
    + rewrite D2, J3. lia.
  - unfold queues. upd_simpl. exact Ml.
Qed.

Lemma aged_0 H l : Forall (queue_ok H) l -> omap (aged 0) l = l.
Proof.
  induction 1 as [|fp l (_ & _ & _ & T) _ IH]; [done|]. csimpl. rewrite IH. unfold aged.
  destruct (Z.leb_spec (ipq_ttl fp) 0); [lia|]. rewrite Z.sub_0_r. by destruct fp.
Qed.

Lemma omap_aged_from r l : Z.of_nat (length (ents (omap (aged r) l))) = frags_from l (r + 1).
Proof.
  unfold frags_from. induction l as [|fp l IH]; [done|]. csimpl. rewrite filter_cons. unfold aged at 1.
  destruct (Z.leb_spec (ipq_ttl fp) r), (decide (r + 1 <= ipq_ttl fp)); try lia.
  rewrite !ents_cons, !length_app. upd_simpl. lia.
Qed.

Lemma free_bucket_inv objs H n g hash : reass_inv objs H [] g -> 0 <= hash < 64 ->
  reass_inv objs H [] (free_bucket n g hash).
Proof.
  intros I Hh. revert g I. induction n as [|n IH]; intros g I; simpl; [done|]. apply IH. unfold ip_freef.
  destruct (bucket g hash !! 0%nat) as [fp|] eqn:E; [|done]. by apply remove_queue_inv.
Qed.

Lemma drop_scan_inv objs H fuel g start i g' i' : reass_inv objs H [] g -> 0 <= i < 64 ->
  drop_scan fuel g start i = (g', i') -> reass_inv objs H [] g' /\ 0 <= i' < 64.
Proof.
  revert g i. induction fuel as [|fuel IH]; intros g i I Hi; simpl; [by intros [= <- <-]|].
  destruct (_ <? _); [|by intros [= <- <-]]. unfold IPREASS_HASH_SIZE.
  pose proof (free_bucket_inv objs H (length (bucket g i)) g i I Hi) as I'.
  destruct (Z.leb_spec 64 (i + 1)); (destruct (_ =? start); [intros [= <- <-]; split; [done|lia]|apply IH; [done|lia]]).
Qed.

Lemma reass_inv_scan objs H g i : reass_inv objs H [] g -> 0 <= i < 64 -> reass_inv objs H [] (g <| dropscanidx := i |>).
Proof. intros [] Hi. by split. Qed.

Lemma reass_inv_clusters objs H g : reass_inv objs H [] g -> reass_inv objs H [] (CHECK_NMBCLUSTER_PARAMS g).
Proof. unfold CHECK_NMBCLUSTER_PARAMS. intros I. destruct (_ =? _); [done|]. destruct I. by split. Qed.

Lemma slowtimo_ok objs H g : reass_inv objs H [] g ->
  exists g', ip_reass_slowtimo g = Some g' /\ reass_inv objs H [] g'.
Proof.
  intros I. unfold ip_reass_slowtimo. destruct (ttl_decr_ok objs H 1 g I ltac:(lia)) as (r & g1 & -> & I1 & _ & (R & _) & _).
  apply reass_inv_clusters in I1. set (g2 := CHECK_NMBCLUSTER_PARAMS g1) in *.
  assert (exists g3, (if ip_maxfrags g2 <? ip_nfrags g2 then snd <$> ip_reass_ttl_decr r g2 else Some g2) = Some g3 /\
    reass_inv objs H [] g3) as (g3 & -> & I3).
  { destruct (_ <? _); [|by exists g2]. destruct (ttl_decr_ok objs H r g2 I1 ltac:(lia)) as (r' & g3 & -> & I3 & _).
    by exists g3. }
  eexists. split; [reflexivity|]. destruct (_ <? 0); [done|].
  destruct (drop_scan 64 g3 (dropscanidx g3) (dropscanidx g3)) as [g4 i] eqn:E.
  destruct (drop_scan_inv objs H _ _ _ _ _ _ I3 (ri_scan _ _ _ _ I3) E) as [I4 Hi]. by apply reass_inv_scan.
Qed.

Lemma drain_ok objs H g : reass_inv objs H [] g -> exists g' r, ip_reass_drain g = Some g' /\ reass_inv objs H [] g' /\
  queues g' = omap (aged r) (queues g) /\ 2 * ip_nfrags g' <= ip_nfrags g.
Proof.
  intros I. unfold ip_reass_drain, ip_reass_drophalf.
  destruct (ttl_decr_ok objs H 0 g I ltac:(lia)) as (r & g1 & -> & I1 & Q1 & (R & _ & M) & _).
  rewrite (aged_0 H) in Q1 by apply I. destruct (ttl_decr_ok objs H r g1 I1 ltac:(lia)) as (r' & g2 & -> & I2 & Q2 & _).
  exists g2, r. split; [done|]. split; [done|]. rewrite Q1 in Q2. split; [done|].
  rewrite (ri_nfrags _ _ _ _ I2), Q2, omap_aged_from. rewrite Q1 in M.
  rewrite (ri_nfrags _ _ _ _ I1), Q1 in M. rewrite (ri_nfrags _ _ _ _ I).
  set (n := Z.of_nat (length (ents (queues g)))) in *.
  destruct M as [M| ->].
  - rewrite Z.quot_div_nonneg in M by lia. pose proof (Z.div_mod n 2 ltac:(lia)). pose proof (Z.mod_pos_bound n 2 ltac:(lia)). lia.
  - change (60 + 1) with 61. rewrite frags_from_none; [lia|]. eapply Forall_impl; [apply I|].
    intros fp (_ & _ & _ & ?). unfold IPFRAGTTL in *. lia.
Qed.

(** ** The life of the reassembly table *)

(** One event; the first component collects the fragments received. *)
Inductive reass_step : list fragment * reass_globals -> list fragment * reass_globals -> Prop :=
  | step_packet H g malloced bytes ih r g' : input_ok ih bytes ->
      ip_reass_packet malloced g bytes ih = (r, g') -> reass_step (H, g) (frag_of ih bytes :: H, g')
  | step_slowtimo H g g' : ip_reass_slowtimo g = Some g' -> reass_step (H, g) (H, g')
  | step_drain H g g' : ip_reass_drain g = Some g' -> reass_step (H, g) (H, g').

Lemma reass_init_inv cache clusters : Z.of_nat (length (mempool cache)) < 2 ^ 16 ->
  reass_inv (mempool cache) [] [] (ip_reass_init cache clusters).
Proof.
  intros L. unfold ip_reass_init, ip_nmbclusters_changed.
  split; unfold queues; upd_simpl; try done; simpl; try lia. by rewrite app_nil_r.
Qed.

Lemma reass_reachable objs s s' : rtc reass_step s s' -> reass_inv objs s.1 [] s.2 -> reass_inv objs s'.1 [] s'.2.
Proof.
  induction 1 as [s|s s1 s2 S _ IH]; [done|]. intros I. apply IH. clear IH.
  destruct S as [H g mal bytes ih r g' K E|H g g' E|H g g' E]; simpl in *.
  - by eapply ip_reass_packet_ok.
  - destruct (slowtimo_ok _ _ _ I) as (g1 & E1 & I1). rewrite E1 in E. by injection E as <-.
  - destruct (drain_ok _ _ _ I) as (g1 & r & E1 & I1 & _). rewrite E1 in E. by injection E as <-.
Qed.

(** C9. A packet that reassembly delivers is made of received fragments of
    one datagram only, whatever was sent before: every byte is the byte at
    that offset of a received fragment with the same identification,
    addresses, protocol and type of service, the packet ends where a last
    fragment ends, and its header is the one of a first fragment, with the
    total length.  Overlapping, repeated, oversized or interleaved
    fragments cannot break this. *)
Theorem reass_no_forgery cache clusters H g malloced bytes ih pkt g' :
  Z.of_nat (length (mempool cache)) < 2 ^ 16 -> rtc reass_step ([], ip_reass_init cache clusters) (H, g) ->
  input_ok ih bytes -> ip_reass_packet malloced g bytes ih = (inr (Some pkt), g') ->
  reassembled (frag_of ih bytes :: H) (ip_key ih) pkt.
Proof.
  intros L R K E. pose proof (reass_reachable (mempool cache) _ _ R (reass_init_inv cache clusters L)) as I. simpl in I.
  by eapply (proj2 (ip_reass_packet_ok _ _ _ _ _ _ _ _ I K E)).
Qed.

(** In every reachable state the counters of packets and fragments are
    those of the table, the packets are within the limit, every entry of
    the pool is either free or in exactly one queue, and neither the timer
    nor draining can fail the assertion on the number of fragments. *)
Theorem reass_reachable_inv cache clusters H g : Z.of_nat (length (mempool cache)) < 2 ^ 16 ->
  rtc reass_step ([], ip_reass_init cache clusters) (H, g) ->
  reass_inv (mempool cache) H [] g /\ is_Some (ip_reass_slowtimo g) /\ is_Some (ip_reass_drain g).
Proof.
  intros L R. pose proof (reass_reachable (mempool cache) _ _ R (reass_init_inv cache clusters L)) as I. simpl in I.
  split; [done|]. destruct (slowtimo_ok _ _ _ I) as (g1 & -> & _). destruct (drain_ok _ _ _ I) as (g2 & r & -> & _). eauto.
Qed.

(** Draining under memory pressure frees at least half of the fragments,
    those of the datagrams closest to their timeout, and keeps the table
    consistent. *)
Theorem reass_drain_half objs H g : reass_inv objs H [] g -> exists g' r, ip_reass_drain g = Some g' /\
  reass_inv objs H [] g' /\ queues g' = omap (aged r) (queues g) /\ 2 * ip_nfrags g' <= ip_nfrags g.
Proof. intros I. by apply drain_ok. Qed.
