(* ===== verification/IpReassOrder.v ===== *)
(** * Reassembly in any order

    The fragments of one datagram, arriving in any order, give back the
    datagram with the arrival of the last one, and nothing before. *)

From stdpp Require Import sorting.
From S2P Require Import Prelude Pool MbufFacts IpReass IpReassFacts.

(** A piece of a datagram: its offset, data and more-fragments flag. *)
Record piece := mkPiece { p_off : Z; p_data : list Z; p_mff : bool }.

Definition p_len (x : piece) : Z := Z.of_nat (length (p_data x)).
Definition p_end (x : piece) : Z := p_off x + p_len x.
Definition p_total (l : list piece) : Z := Z.of_nat (length (concat (p_data <$> l))).

(** The pieces of a datagram cut into [chunks]. *)
Fixpoint layout (off : Z) (chunks : list (list Z)) : list piece :=
  match chunks with
  | [] => []
  | c :: cs =>
      mkPiece off c (match cs with [] => false | _ => true end) :: layout (off + Z.of_nat (length c)) cs
  end.

Abbreviation before := (fun x y : piece => p_off x < p_off y).

#[export] Instance before_antisymm : AntiSymm (=) before.
Proof. intros x y Hx Hy. lia. Qed.

Lemma p_total_cons x l : p_total (x :: l) = p_len x + p_total l.
Proof. unfold p_total, p_len. csimpl. rewrite length_app. lia. Qed.

Lemma p_total_app l k : p_total (l ++ k) = p_total l + p_total k.
Proof. induction l as [|x l IH]; [done|]. simpl. rewrite !p_total_cons, IH. lia. Qed.

Lemma p_total_perm l k : l ≡ₚ k -> p_total l = p_total k.
Proof. induction 1; rewrite ?p_total_cons; lia. Qed.

Lemma p_total_pos l : Forall (fun x => 0 < p_len x) l -> l <> [] -> 0 < p_total l.
Proof.
  destruct 1 as [|x l Hx Hl]; [done|]. intros _. rewrite p_total_cons. unfold p_total. lia.
Qed.

(** Offsets grow along the layout, and the pieces do not overlap. *)
Lemma layout_after off chunks : Forall (fun x => off <= p_off x) (layout off chunks).
Proof.
  revert off. induction chunks as [|c cs IH]; intros off; constructor; [simpl; lia|].
  eapply Forall_impl; [apply IH|]. simpl. lia.
Qed.

Lemma layout_sorted off chunks : Forall (fun x => 0 < p_len x) (layout off chunks) ->
  StronglySorted before (layout off chunks).
Proof.
  revert off. induction chunks as [|c cs IH]; intros off; simpl; [constructor|].
  intros [Hc H]%Forall_cons. constructor; [by apply IH|]. unfold p_len in Hc. simpl in Hc.
  eapply Forall_impl; [apply layout_after|]. simpl. lia.
Qed.

Lemma layout_disjoint off chunks x y : x ∈ layout off chunks -> y ∈ layout off chunks -> p_off x < p_off y ->
  p_end x <= p_off y.
Proof.
  revert off. induction chunks as [|c cs IH]; intros off; simpl; [by intros ?%not_elem_of_nil|].
  pose proof (layout_after (off + Z.of_nat (length c)) cs) as A. rewrite Forall_forall in A.
  rewrite !elem_of_cons. intros [->|Hx] [->|Hy] L; simpl in *.
  - lia.
  - unfold p_end, p_len. simpl. by apply A.
  - specialize (A x Hx). lia.
  - eauto.
Qed.

Lemma layout_data off chunks : concat (p_data <$> layout off chunks) = concat chunks.
Proof. revert off. induction chunks as [|c cs IH]; intros off; [done|]. csimpl. by rewrite IH. Qed.

(** Only the last piece ends the datagram. *)
Lemma layout_last off chunks x : x ∈ layout off chunks -> p_mff x = false -> p_end x = off + p_total (layout off chunks).
Proof.
  revert off. induction chunks as [|c cs IH]; intros off; simpl; [by intros ?%not_elem_of_nil|].
  rewrite elem_of_cons, p_total_cons. intros [->|Hx] M.
  - destruct cs; [|done]. unfold p_end, p_len, p_total. simpl. lia.
  - rewrite (IH _ Hx M). unfold p_len. simpl. lia.
Qed.

Lemma layout_mff off c cs : exists pre z, layout off (c :: cs) = pre ++ [z] /\ p_mff z = false.
Proof.
  revert off c. induction cs as [|d cs IH]; intros off c.
  - by exists [], (mkPiece off c false).
  - destruct (IH (off + Z.of_nat (length c)) d) as (pre & z & E & M).
    exists (mkPiece off c true :: pre), z. split; [|done].
    change (layout off (c :: d :: cs)) with (mkPiece off c true :: layout (off + Z.of_nat (length c)) (d :: cs)).
    by rewrite E.
Qed.

Section datagram.
(** The header of the datagram and the bytes of the header of a piece. *)
Variables (h : ip) (hb : piece -> list Z).
Abbreviation hlen := (4 * ip_hl h).

Definition hdr (x : piece) : ip := h <| ip_len := p_len x |> <| ip_off := p_off x |>.

(** The packet that carries a piece. *)
Definition wire (x : piece) : ip * list Z :=
  (h <| ip_len := hlen + p_len x |> <| ip_off := p_off x / 8 + (if p_mff x then IP_MF else 0) |>,
   hb x ++ p_data x).

Definition piece_ok (x : piece) : Prop :=
  0 < p_len x /\ 0 <= p_off x /\ p_off x mod 8 = 0 /\ (p_mff x = true -> p_len x mod 8 = 0) /\
  68 <= (if 0 <? p_off x then p_off x else p_len x) + hlen.

Definition is_ent (e : ipfr_qent) (x : piece) : Prop :=
  ipqe_ip e = hdr x /\ ipqe_m e = p_data x /\ ipqe_mff e = p_mff x.

Lemma is_ent_off e x : is_ent e x -> ip_off (ipqe_ip e) = p_off x /\ ip_len (ipqe_ip e) = p_len x.
Proof. intros [-> _]. by unfold hdr; upd_simpl. Qed.

(** The list of entries [l] holds the pieces [xs]. *)
Lemma contiguous_total n l xs next : Forall2 is_ent l xs -> contiguous n l = Some next -> next = n + p_total xs.
Proof.
  intros F. revert n. induction F as [|e x l xs E F IH]; intros n; simpl; [intros [= <-]; unfold p_total; simpl; lia|].
  destruct (is_ent_off _ _ E) as [-> ->]. destruct (_ =? n); [|done]. intros C. rewrite (IH _ C), p_total_cons. lia.
Qed.

Lemma contiguous_layout off chunks l : Forall2 is_ent l (layout off chunks) ->
  contiguous off l = Some (off + p_total (layout off chunks)).
Proof.
  revert off l. induction chunks as [|c cs IH]; intros off l F; simpl in F; inversion F as [|e x l' xs E F' E1 E2]; subst.
  { unfold p_total. simpl. f_equal. lia. }
  simpl contiguous. destruct (is_ent_off _ _ E) as [-> ->]. simpl p_off. rewrite Z.eqb_refl. simpl layout.
  rewrite p_total_cons. unfold p_len at 1. simpl p_data. rewrite (IH _ _ F'). f_equal. unfold p_len. simpl. lia.
Qed.

Lemma ents_data l xs : Forall2 is_ent l xs -> ipqe_m <$> l = p_data <$> xs.
Proof. induction 1 as [|e x l xs (_ & E & _) _ IH]; [done|]. csimpl. by rewrite E, IH. Qed.

Lemma find_after_pieces y l xs : Forall2 is_ent l xs -> StronglySorted before xs -> Forall (fun x => p_off x <> p_off y) xs ->
  exists pre post xpre xpost, find_after (p_off y) l = (pre, post) /\ xs = xpre ++ xpost /\
    Forall2 is_ent pre xpre /\ Forall2 is_ent post xpost /\ Forall (fun x => p_off x < p_off y) xpre /\
    Forall (fun x => p_off y < p_off x) xpost.
Proof.
  induction 1 as [|e x l xs E F IH]; intros S N; [by exists [], [], [], []|].
  apply StronglySorted_cons in S as [Sx S]. apply Forall_cons in N as [Nx N]. simpl find_after.
  destruct (is_ent_off _ _ E) as [-> _]. destruct (Z.ltb_spec (p_off y) (p_off x)) as [Lt|Ge].
  - exists [], (e :: l), [], (x :: xs). repeat split; try done; [by constructor|]. constructor; [done|].
    eapply Forall_impl; [exact Sx|]. simpl. lia.
  - destruct (IH S N) as (pre & post & xpre & xpost & -> & -> & F1 & F2 & B & A).
    exists (e :: pre), post, (x :: xpre), xpost. repeat split; try done; [by constructor|]. constructor; [lia|done].
Qed.
Variable chunks : list (list Z).
Abbreviation F := (layout 0 chunks).
Hypothesis F_ok : Forall piece_ok F.
Hypothesis F_total : p_total F + hlen <= IP_MAXPACKET.
Hypothesis F_some : chunks <> [].
Hypothesis h_ok : 5 <= ip_hl h < 16.
Hypothesis hb_ok : forall x, Z.of_nat (length (hb x)) = hlen.

Lemma F_pos : Forall (fun x => 0 < p_len x) F.
Proof. eapply Forall_impl; [exact F_ok|]. by intros x [? _]. Qed.

(** A new piece goes in its place and nothing is trimmed. *)
Lemma insert_piece l xs e y : Forall2 is_ent l xs -> StronglySorted before xs -> is_ent e y ->
  (forall x, x ∈ xs -> x ∈ F) -> y ∈ F -> Forall (fun x => p_off x <> p_off y) xs ->
  exists pre post xs', find_after (p_off y) l = (pre, post) /\ trim_front pre e = Some e /\
    trim_next (p_end y) post = (post, []) /\ Forall2 is_ent (pre ++ e :: post) xs' /\ StronglySorted before xs' /\
    xs' ≡ₚ y :: xs.
Proof.
  intros Fl S E In Iy N. destruct (find_after_pieces y l xs Fl S N) as (pre & post & xpre & xpost & Ef & -> & F1 & F2 & B & A).
  apply StronglySorted_app in S as (_ & S1 & S2). rewrite Forall_forall in B, A.
  exists pre, post, (xpre ++ y :: xpost). split; [done|]. destruct (is_ent_off _ _ E) as [Eo El]. split; [|split; [|split; [|split]]].
  - unfold trim_front. destruct (last pre) as [p|] eqn:Lp; [|done].
    apply last_Some in Lp as (pre' & ->). apply Forall2_app_inv_l in F1 as (x1 & x2 & F1 & Fp & ->).
    inversion Fp as [|? x ? ? Ep Fn]; subst. inversion Fn; subst. destruct (is_ent_off _ _ Ep) as [-> ->]. rewrite Eo.
    assert (x ∈ x1 ++ [x]) as Hx by (apply elem_of_app; right; left).
    pose proof (layout_disjoint 0 chunks x y (In x ltac:(apply elem_of_app; by left)) Iy (B x Hx)) as D. unfold p_end in D.
    destruct (Z.ltb_spec 0 (p_off x + p_len x - p_off y)); [lia|done].
  - destruct post as [|q post]; [done|]. simpl. inversion F2 as [|? x ? xpost' Eq F2']; subst.
    destruct (is_ent_off _ _ Eq) as [-> _]. assert (x ∈ x :: xpost') as Hx by left.
    pose proof (layout_disjoint 0 chunks y x Iy (In x ltac:(apply elem_of_app; by right)) (A x Hx)).
    destruct (Z.leb_spec (p_end y) (p_off x)); [done|lia].
  - apply Forall2_app; [done|]. by constructor.
  - apply StronglySorted_app. split; [|split; [done|constructor; [done|by apply Forall_forall]]].
    intros x1 x2 H1 [->|H2]%elem_of_cons; [by apply B|]. specialize (B _ H1). specialize (A _ H2). lia.
  - by rewrite <- Permutation_middle.
Qed.

(** A queue with the pieces [xs] while [rest] is still to come. *)
Lemma check_pieces g hash i fp xs rest : Forall2 is_ent (ipq_fragq fp) xs -> StronglySorted before xs ->
  xs ++ rest ≡ₚ F -> ipq_src fp = ip_src h -> ipq_dst fp = ip_dst h ->
  reass_check g hash i fp =
    match rest with
    | [] => (Some (mkPacket (h <| ip_len := hlen + p_total F |> <| ip_off := 0 |>) (concat chunks)), remove_queue g hash i fp)
    | _ => (None, g)
    end.
Proof.
  intros Fl S P Es Ed. unfold reass_check. destruct rest as [|z rest].
  - rewrite app_nil_r in P.
    assert (xs = F) as -> by (eapply StronglySorted_unique; [apply _|done|by apply layout_sorted, F_pos|done]).
    rewrite (contiguous_layout 0 chunks _ Fl). destruct chunks as [|c cs]; [done|].
    destruct (layout_mff 0 c cs) as (pre & z & Ez & Mz).
    assert (exists p, last (ipq_fragq fp) = Some p /\ ipqe_mff p = false) as (p & -> & ->).
    { rewrite Ez in Fl. apply Forall2_app_inv_r in Fl as (l1 & l2 & _ & F2 & ->).
      inversion F2 as [|p ? l3 ? (_ & _ & Ep) F3]; subst. inversion F3; subst. exists p. by rewrite last_snoc, Ep. }
    destruct (ipq_fragq fp) as [|q l] eqn:Eq; [simpl in Fl; inversion Fl|]. change (head (q :: l)) with (Some q). cbv iota.
    pose proof (ents_data _ _ Fl) as Dt. rewrite Dt, layout_data.
    simpl in Fl. apply Forall2_cons in Fl as [[Eh _] _]. cbv zeta. rewrite Eh.
    unfold hdr. upd_simpl. rewrite shiftl_2. rewrite Z.add_0_l.
    destruct (Z.ltb_spec IP_MAXPACKET (p_total (layout 0 (c :: cs)) + hlen)); [lia|].
    f_equal. f_equal. f_equal. rewrite Es, Ed. unfold IP_MAXPACKET in *.
    assert (0 <= p_total (layout 0 (c :: cs))) by (unfold p_total; lia).
    unfold u16. rewrite Z.mod_small by lia. by destruct h.
  - destruct (contiguous 0 (ipq_fragq fp)) as [next|] eqn:C; [|done].
    destruct (last (ipq_fragq fp)) as [p|] eqn:Lp; [|done]. destruct (head (ipq_fragq fp)) as [q|]; [|done].
    destruct (ipqe_mff p) eqn:Mp; [done|]. exfalso.
    pose proof (contiguous_total _ _ _ _ Fl C) as Tn. pose proof (contiguous_last _ _ _ _ C Lp) as Te.
    apply last_Some in Lp as (l' & El). rewrite El in Fl. apply Forall2_app_inv_l in Fl as (x1 & x2 & _ & F2 & ->).
    inversion F2 as [|? x ? ? Ep Fn]; subst. inversion Fn; subst. destruct (is_ent_off _ _ Ep) as [Eo Eln].
    destruct Ep as (_ & _ & Em). rewrite Mp in Em.
    assert (x ∈ F) as Hx by (rewrite <- P; rewrite !elem_of_app; left; right; left).
    pose proof (layout_last 0 chunks x Hx (eq_sym Em)) as Le. unfold e_end, e_off, e_len in Te. rewrite Eo, Eln in Te.
    unfold p_end in Le. pose proof (p_total_perm _ _ P) as Tp. rewrite p_total_app in Tp.
    assert (0 < p_total (z :: rest)); [|lia]. apply p_total_pos; [|done].
    pose proof F_pos as Fp. rewrite <- P in Fp. by apply Forall_app in Fp as [_ ?].
Qed.
Abbreviation hash := (IPREASS_HASH (ip_src h) (ip_id h)).
Abbreviation datagram := (mkPacket (h <| ip_len := hlen + p_total F |> <| ip_off := 0 |>) (concat chunks)).

Lemma layout_bounds off cs x : x ∈ layout off cs -> p_end x <= off + p_total (layout off cs).
Proof.
  revert off. induction cs as [|c cs IH]; intros off; simpl; [by intros ?%not_elem_of_nil|].
  rewrite elem_of_cons, p_total_cons. intros [->|Hx].
  - unfold p_end, p_total. simpl. lia.
  - specialize (IH _ Hx). unfold p_len. simpl. lia.
Qed.

Lemma mf_bit a (b : bool) : 0 <= a < 2 ^ 13 -> flag_set (a + (if b then IP_MF else 0)) IP_MF = b.
Proof.
  intros L. change IP_MF with (2 ^ 13). rewrite flag_set_pow2, Z.testbit_odd, Z.shiftr_div_pow2 by lia.
  destruct b.
  - replace (a + 2 ^ 13) with (a + 1 * 2 ^ 13) by lia. rewrite Z.div_add, Z.div_small by lia. done.
  - rewrite Z.add_0_r, Z.div_small by lia. done.
Qed.

(** The checks of [ip_reass_packet] let a piece through. *)
Lemma wire_packet g x a cache : x ∈ F -> pool_cache_get (ipfren_cache g) = Some (a, cache) ->
  (forall i q, find_queue (hdr x) (bucket g hash) = Some i -> bucket g hash !! i = Some q -> ipq_tos q = ip_tos h) ->
  ip_reass_packet true g (wire x).2 (wire x).1 =
    let '(r, g') := ip_reass true (g <| ipfren_cache := cache |>) (mkQent a (hdr x) (hb x ++ p_data x) (p_mff x))
                      (find_queue (hdr x) (bucket g hash)) hash in (inr r, g').
Proof.
  intros Hx G T. pose proof (layout_bounds _ _ _ Hx) as Le. unfold p_end in Le.
  rewrite Forall_forall in F_ok. destruct (F_ok x Hx) as (Lp & Lo & O8 & M8 & Mn). unfold IP_MAXPACKET in F_total.
  unfold ip_reass_packet, wire. cbv zeta. simpl fst. simpl snd. upd_simpl. rewrite frag_off, shiftl_2.
  assert (0 <= p_off x / 8 < 2 ^ 13) as Ld by (split; [apply Z.div_pos; lia|apply Z.div_lt_upper_bound; lia]).
  rewrite mf_bit by done.
  assert (8 * ((p_off x / 8 + (if p_mff x then IP_MF else 0)) mod 2 ^ 13) = p_off x) as ->.
  { assert ((p_off x / 8 + (if p_mff x then IP_MF else 0)) mod 2 ^ 13 = p_off x / 8) as ->.
    { destruct (p_mff x); [replace IP_MF with (1 * 2 ^ 13) by done; rewrite Z.mod_add by lia|rewrite Z.add_0_r]; by apply Z.mod_small. }
    pose proof (Z.div_mod (p_off x) 8 ltac:(lia)). lia. }
  replace ((if 0 <? p_off x then p_off x + hlen else hlen + p_len x) <? IP_MINFRAGSIZE - 1) with false.
  2:{ symmetry. apply Z.ltb_ge. unfold IP_MINFRAGSIZE. destruct (0 <? p_off x); lia. }
  replace (hlen + p_len x - hlen) with (p_len x) by lia. rewrite u32_small by lia.
  assert (p_mff x && ((p_len x =? 0) || negb (Z.land (p_len x) 7 =? 0)) = false) as ->.
  { destruct (p_mff x); [|done]. specialize (M8 eq_refl). destruct (Z.eqb_spec (p_len x) 0); [lia|]. simpl.
    change 7 with (Z.ones 3). rewrite Z.land_ones by lia. change (2 ^ 3) with 8. by rewrite M8. }
  assert (u16 (p_len x) = p_len x /\ u16 (p_off x) = p_off x) as [-> ->] by (unfold u16; rewrite !Z.mod_small by lia; done).
  change (h <| ip_len := _ |> <| ip_off := _ |> <| ip_len := p_len x |> <| ip_off := p_off x |>) with (hdr x).
  rewrite G.
  destruct (find_queue (hdr x) (bucket g hash)) as [i|] eqn:Fq.
  - destruct (bucket g hash !! i) as [q|] eqn:Bq; simpl; [|done]. rewrite (T i q eq_refl Bq). change (ip_tos (hdr x)) with (ip_tos h).
    rewrite Z.eqb_refl. done.
  - done.
Qed.
Lemma strip_header x : adj_bytes (Z.shiftl (ip_hl (hdr x)) 2) (hb x ++ p_data x) = p_data x.
Proof.
  change (ip_hl (hdr x)) with (ip_hl h). rewrite shiftl_2. unfold adj_bytes. destruct (Z.leb_spec 0 hlen); [|lia].
  rewrite <- (hb_ok x), Nat2Z.id. apply drop_app_length.
Qed.

Lemma matches_hdr x q : queue_matches (hdr x) q = queue_matches h q.
Proof. done. Qed.

Lemma matches_addrs q : queue_matches h q = true -> ipq_src q = ip_src h /\ ipq_dst q = ip_dst h.
Proof. unfold queue_matches. rewrite !andb_true_iff, !Z.eqb_eq. intros [[[_ ->] ->] _]. done. Qed.

(** The queue of the datagram is the first of its bucket and holds the
    pieces [xs]; [n] more entries can be had. *)
Definition pending (g : reass_globals) (xs : list piece) (n : nat) : Prop :=
  length (ip_frags g) = 64%nat /\ (n <= length (mempool (ipfren_cache g)))%nat /\ StronglySorted before xs /\
  exists fp b, bucket g hash = fp :: b /\ queue_matches h fp = true /\ ipq_tos fp = ip_tos h /\
    Forall2 is_ent (ipq_fragq fp) xs.

Lemma bucket_set_bucket g b : length (ip_frags g) = 64%nat -> bucket (set_bucket g hash b) hash = b.
Proof.
  intros L. unfold bucket, set_bucket. upd_simpl. rewrite list_lookup_insert_eq; [done|].
  pose proof (IPREASS_HASH_range (ip_src h) (ip_id h)). lia.
Qed.

Lemma pool_cache_get_S pp n : (S n <= length (mempool pp))%nat ->
  exists a pp', pool_cache_get pp = Some (a, pp') /\ (n <= length (mempool pp'))%nat.
Proof.
  unfold pool_cache_get, pool_get. destruct (mempool pp) as [|a r]; simpl; [lia|]. intros L.
  exists a, (mkPool r). split; [done|]. simpl. lia.
Qed.

(** The outcome of the arrival of [y] when [rest] is still to come. *)
Definition arrives (r : Z + option packet) (g' : reass_globals) (xs rest : list piece) : Prop :=
  match rest with
  | [] => r = inr (Some datagram)
  | _ => r = inr None /\ exists xs', xs' ++ rest ≡ₚ F /\ pending g' xs' (length rest)
  end.

Lemma arrives_check g fp b xs rest : length (ip_frags g) = 64%nat -> (length rest <= length (mempool (ipfren_cache g)))%nat ->
  bucket g hash = fp :: b -> queue_matches h fp = true -> ipq_tos fp = ip_tos h ->
  Forall2 is_ent (ipq_fragq fp) xs -> StronglySorted before xs -> xs ++ rest ≡ₚ F ->
  exists r g', reass_check g hash 0 fp = (r, g') /\ arrives (inr r) g' xs rest.
Proof.
  intros L N B M T Fl S P. destruct (matches_addrs _ M) as [Es Ed].
  rewrite (check_pieces g hash 0 fp xs rest Fl S P Es Ed).
  destruct rest as [|z rest]; [by eexists _, _|]. eexists _, _. split; [done|]. split; [done|]. exists xs. split; [done|].
  split; [done|]. split; [done|]. split; [done|]. by exists fp, b.
Qed.

Lemma arrive_first g y rest : length (ip_frags g) = 64%nat ->
  (S (length rest) <= length (mempool (ipfren_cache g)))%nat ->
  (0 <= ip_maxfragpackets g -> ip_nfragpackets g < ip_maxfragpackets g) ->
  find_queue h (bucket g hash) = None -> y :: rest ≡ₚ F ->
  exists r g', ip_reass_packet true g (wire y).2 (wire y).1 = (r, g') /\ arrives r g' [y] rest.
Proof.
  intros L N Lm Fn P. destruct (pool_cache_get_S _ _ N) as (a & cache & G & Nc).
  assert (y ∈ F) as Hy by (rewrite <- P; left).
  assert (find_queue (hdr y) (bucket g hash) = None) as Fq.
  { rewrite <- Fn. generalize (bucket g hash). intros l. induction l as [|q l IH]; [done|]. simpl.
    rewrite matches_hdr. by rewrite IH. }
  rewrite (wire_packet g y a cache Hy G) by (rewrite Fq; done). rewrite Fq. unfold ip_reass. cbv zeta. upd_simpl.
  simpl ipqe_ip. simpl ipqe_m. rewrite strip_header.
  replace ((0 <=? ip_maxfragpackets g) && (ip_maxfragpackets g <=? ip_nfragpackets g)) with false.
  2:{ symmetry. apply andb_false_iff. destruct (Z.leb_spec 0 (ip_maxfragpackets g)); [right; apply Z.leb_gt; lia|by left]. }
  cbn [negb]. set (e := (mkQent a (hdr y) (hb y ++ p_data y) (p_mff y)) <| ipqe_m := p_data y |>).
  set (fp := mkQueue [e] _ _ _ _ _ _ _). set (g1 := g <| ipfren_cache := cache |> <| ip_nfrags := _ |> <| ip_nfragpackets := _ |>).
  destruct (arrives_check (set_bucket g1 hash (fp :: bucket g hash)) fp (bucket g hash) [y] rest) as (r & g' & E & A).
  - unfold set_bucket. upd_simpl. rewrite length_insert. done.
  - done.
  - by apply bucket_set_bucket.
  - unfold queue_matches, fp. simpl. by rewrite !Z.eqb_refl.
  - done.
  - repeat constructor.
  - repeat constructor.
  - done.
  - eexists _, _. rewrite E. done.
Qed.

Lemma F_NoDup_off xs y rest : xs ++ y :: rest ≡ₚ F -> Forall (fun x => p_off x <> p_off y) xs.
Proof.
  intros P. assert (NoDup (p_off <$> F)) as N.
  { pose proof (layout_sorted 0 chunks F_pos) as S. clear -S. induction S as [|x l S IH Fx]; [constructor|].
    csimpl. constructor; [|done]. intros (z & E & Hz)%list_elem_of_fmap. rewrite Forall_forall in Fx. specialize (Fx z Hz). lia. }
  rewrite <- P, fmap_app in N. csimpl in N. apply NoDup_app in N as (_ & N & _). apply Forall_forall. intros x Hx E.
  apply (N (p_off x)); [by apply list_elem_of_fmap_2|]. rewrite E. left.
Qed.

Lemma arrive_next g xs y rest : pending g xs (S (length rest)) -> xs ++ y :: rest ≡ₚ F ->
  exists r g' xs', ip_reass_packet true g (wire y).2 (wire y).1 = (r, g') /\ arrives r g' xs' rest.
Proof.
  intros (L & N & S & fp & b & B & M & T & Fl) P. destruct (pool_cache_get_S _ _ N) as (a & cache & G & Nc).
  assert (y ∈ F) as Hy by (rewrite <- P; apply elem_of_app; right; left).
  assert (find_queue (hdr y) (bucket g hash) = Some 0%nat) as Fq by (rewrite B; simpl; by rewrite matches_hdr, M).
  rewrite (wire_packet g y a cache Hy G).
  2:{ intros i q. rewrite Fq, B. intros [= <-] [= <-]. done. }
  rewrite Fq. unfold ip_reass. cbv zeta. change (bucket (g <| ipfren_cache := cache |>) hash) with (bucket g hash). rewrite B.
  simpl ipqe_ip. simpl ipqe_m. rewrite strip_header. change ((fp :: b) !! 0%nat) with (Some fp). cbv iota.
  set (e := (mkQent a (hdr y) (hb y ++ p_data y) (p_mff y)) <| ipqe_m := p_data y |>).
  destruct (insert_piece (ipq_fragq fp) xs e y Fl S) as (pre & post & xs' & Ef & Tf & Tn & Fl' & S' & P');
    [done| |done|by eapply F_NoDup_off|].
  { intros x Hx. rewrite <- P. apply elem_of_app. by left. }
  change (ip_off (hdr y)) with (p_off y). rewrite Ef, Tf.
  change (ip_off (ipqe_ip e) + ip_len (ipqe_ip e)) with (p_end y). rewrite Tn. simpl length.
  set (fp' := fp <| ipq_fragq := _ |> <| ipq_nfrags := _ |>). set (g1 := _ <| ip_nfrags := _ |> <| ipfren_cache := _ |>).
  change (<[0%nat := fp']> (bucket g1 hash)) with (<[0%nat := fp']> (bucket g hash)). rewrite B. change (<[0%nat := fp']> (fp :: b)) with (fp' :: b).
  destruct (arrives_check (set_bucket g1 hash (fp' :: b)) fp' b xs' rest) as (r & g' & E & A).
  - unfold set_bucket. upd_simpl. rewrite length_insert. done.
  - done.
  - by apply bucket_set_bucket.
  - done.
  - done.
  - done.
  - done.
  - by rewrite P', <- P, <- Permutation_middle.
  - eexists _, _, _. rewrite E. done.
Qed.
End datagram.

(** Packets handed to [ip_reass_packet] one after the other. *)
Fixpoint receive (g : reass_globals) (l : list (ip * list Z)) : list (Z + option packet) * reass_globals :=
  match l with
  | [] => ([], g)
  | (ih, bytes) :: l =>
      let '(r, g) := ip_reass_packet true g bytes ih in
      let '(rs, g) := receive g l in (r :: rs, g)
  end.

(** The fragments of a datagram that is cut as IP allows: every piece has
    data, all but the last a multiple of 8 bytes, and none is tiny. *)
Definition fragmented (h : ip) (hb : piece -> list Z) (chunks : list (list Z)) : Prop :=
  Forall (piece_ok h) (layout 0 chunks) /\ p_total (layout 0 chunks) + 4 * ip_hl h <= IP_MAXPACKET /\
  chunks <> [] /\ 5 <= ip_hl h < 16 /\ (forall x, Z.of_nat (length (hb x)) = 4 * ip_hl h).

(** All arrivals but the last give nothing, the last the datagram. *)
Lemma receive_rest h hb chunks g ys xs : fragmented h hb chunks -> pending h g xs (length ys) ->
  xs ++ ys ≡ₚ layout 0 chunks -> ys <> [] ->
  exists g', receive g (wire h hb <$> ys) =
    (replicate (length ys - 1) (inr None) ++
     [inr (Some (mkPacket (h <| ip_len := 4 * ip_hl h + p_total (layout 0 chunks) |> <| ip_off := 0 |>) (concat chunks)))], g').
Proof.
  intros (K1 & K2 & K3 & K4 & K5). revert g xs. induction ys as [|y ys IH]; intros g xs Pe P Ne; [done|].
  destruct (arrive_next h hb chunks K1 K2 K3 K4 K5 g xs y ys Pe P) as (r & g1 & xs1 & E & A).
  rewrite fmap_cons. destruct (wire h hb y) as [ih bytes] eqn:W. simpl in E. cbn [receive]. rewrite E.
  destruct ys as [|z ys]; [eexists; unfold arrives in A; by rewrite A|].
  destruct A as (-> & xs2 & P2 & Pe2). destruct (IH g1 xs2 Pe2 P2 ltac:(done)) as (g2 & ->).
  exists g2. simpl. by rewrite Nat.sub_0_r.
Qed.

(** All fragments arrive, in any order. *)
Lemma receive_any_order h hb chunks g ys : fragmented h hb chunks -> ys ≡ₚ layout 0 chunks ->
  length (ip_frags g) = 64%nat -> (length ys <= length (mempool (ipfren_cache g)))%nat ->
  (0 <= ip_maxfragpackets g -> ip_nfragpackets g < ip_maxfragpackets g) ->
  find_queue h (bucket g (IPREASS_HASH (ip_src h) (ip_id h))) = None ->
  exists g', receive g (wire h hb <$> ys) =
    (replicate (length ys - 1) (inr None) ++
     [inr (Some (mkPacket (h <| ip_len := 4 * ip_hl h + p_total (layout 0 chunks) |> <| ip_off := 0 |>) (concat chunks)))], g').
Proof.
  intros K P L N Lm Fn. pose proof K as (K1 & K2 & K3 & K4 & K5).
  destruct ys as [|y ys]; [destruct chunks; [done|]; by apply Permutation_nil_l in P|].
  destruct (arrive_first h hb chunks K1 K2 K3 K4 K5 g y ys L N Lm Fn P) as (r & g1 & E & A).
  rewrite fmap_cons. destruct (wire h hb y) as [ih bytes] eqn:W. simpl in E. cbn [receive]. rewrite E.
  destruct ys as [|z ys]; [eexists; unfold arrives in A; by rewrite A|].
  destruct A as (-> & xs2 & P2 & Pe2). destruct (receive_rest h hb chunks g1 (z :: ys) xs2 K Pe2 P2 ltac:(done)) as (g2 & ->).
  exists g2. simpl. by rewrite Nat.sub_0_r.
Qed.

(** A datagram whose fragments all arrive, in any order, is delivered
    with the arrival of the last of them, whole and with the header of its
    first fragment; before that nothing is delivered.  (The table has room
    for one more datagram, the pool enough entries, and no fragments of an
    earlier datagram with the same identification are waiting.) *)
Theorem reass_any_order h hb chunks g ys : fragmented h hb chunks -> ys ≡ₚ layout 0 chunks ->
  length (ip_frags g) = 64%nat -> (length ys <= length (mempool (ipfren_cache g)))%nat ->
  (0 <= ip_maxfragpackets g -> ip_nfragpackets g < ip_maxfragpackets g) ->
  find_queue h (bucket g (IPREASS_HASH (ip_src h) (ip_id h))) = None ->
  exists g', receive g (wire h hb <$> ys) =
    (replicate (length ys - 1) (inr None) ++
     [inr (Some (mkPacket (h <| ip_len := 4 * ip_hl h + p_total (layout 0 chunks) |> <| ip_off := 0 |>) (concat chunks)))], g').
Proof. apply receive_any_order. Qed.

(** A datagram of 51 bytes in two fragments. *)
Definition ex_h : ip := mkIp 5 0 0 7 0 17 0x0a000001 0x0a000002.
Definition ex_hb (_ : piece) : list Z := replicate 20 0.
Definition ex_chunks : list (list Z) := [replicate 48 1; [2; 3; 4]].
Definition ex_first : piece := mkPiece 0 (replicate 48 1) true.
Definition ex_second : piece := mkPiece 48 [2; 3; 4] false.
Definition ex_g : reass_globals := ip_reass_init (mkPool [1; 2; 3]%positive) 1000.

Lemma ex_fragmented : fragmented ex_h ex_hb ex_chunks.
Proof.
  split; [|split; [|split; [done|split; [simpl; lia|done]]]].
  - repeat constructor; vm_compute; congruence.
  - vm_compute. congruence.
Qed.

Lemma reass_any_order_witness : exists g', receive ex_g (wire ex_h ex_hb <$> [ex_second; ex_first]) =
  ([inr None; inr (Some (mkPacket (mkIp 5 0 71 7 0 17 0x0a000001 0x0a000002) (replicate 48 1 ++ [2; 3; 4])))], g').
Proof.
  apply (reass_any_order ex_h ex_hb ex_chunks ex_g [ex_second; ex_first]);
    [apply ex_fragmented|apply perm_swap|done|simpl; lia|simpl; lia|done].
Defined.

Lemma reass_no_forgery_witness : exists g1 pkt g2,
  ip_reass_packet true ex_g (wire ex_h ex_hb ex_second).2 (wire ex_h ex_hb ex_second).1 = (inr None, g1) /\
  ip_reass_packet true g1 (wire ex_h ex_hb ex_first).2 (wire ex_h ex_hb ex_first).1 = (inr (Some pkt), g2) /\
  reassembled [frag_of (wire ex_h ex_hb ex_first).1 (wire ex_h ex_hb ex_first).2;
               frag_of (wire ex_h ex_hb ex_second).1 (wire ex_h ex_hb ex_second).2]
    (ip_key (wire ex_h ex_hb ex_first).1) pkt.
Proof.
  destruct (ip_reass_packet true ex_g (wire ex_h ex_hb ex_second).2 (wire ex_h ex_hb ex_second).1) as [r1 g1] eqn:E1.
  destruct (ip_reass_packet true g1 (wire ex_h ex_hb ex_first).2 (wire ex_h ex_hb ex_first).1) as [r2 g2] eqn:E2.
  assert (r1 = inr None) as -> by (vm_compute in E1; injection E1 as <- _; reflexivity).
  assert (exists pkt, r2 = inr (Some pkt)) as [pkt ->].
  { vm_compute in E1. injection E1 as <-. vm_compute in E2. injection E2 as <- _. eexists. reflexivity. }
  exists g1, pkt, g2. split; [done|]. split; [done|].
  eapply (reass_no_forgery (mkPool [1; 2; 3]%positive) 1000 _ g1 true); [simpl; lia| | |exact E2].
  - apply rtc_once. eapply step_packet; [|exact E1]. repeat split; vm_compute; congruence.
  - repeat split; vm_compute; congruence.
Defined.

Lemma reass_reachable_inv_witness : reass_inv [1; 2; 3]%positive [] [] ex_g /\
  is_Some (ip_reass_slowtimo ex_g) /\ is_Some (ip_reass_drain ex_g).
Proof. apply (reass_reachable_inv (mkPool [1; 2; 3]%positive) 1000); [simpl; lia|apply rtc_refl]. Defined.

Lemma reass_drain_half_witness : exists g' r, ip_reass_drain ex_g = Some g' /\
  reass_inv [1; 2; 3]%positive [] [] g' /\ queues g' = omap (aged r) (queues ex_g) /\ 2 * ip_nfrags g' <= ip_nfrags ex_g.
Proof.
  apply (reass_drain_half [1; 2; 3]%positive []). apply (reass_init_inv (mkPool [1; 2; 3]%positive) 1000). simpl. lia.
Defined.
