(* ===== verification/SockState.v ===== *)
(** * The state word of a socket

    The flags of [so_state] (src/special_includes/sys/socketvar.h) and the
    changes that the functions of src/netbsd/porting/kern/uipc_socket2.c make
    to it.  Wakeups are recorded by the components that call these. *)

From S2P Require Import Prelude.

Definition SS_NOFDREF : Z := 0x001.
Definition SS_ISCONNECTED : Z := 0x002.
Definition SS_ISCONNECTING : Z := 0x004.
Definition SS_ISDISCONNECTING : Z := 0x008.
Definition SS_CANTSENDMORE : Z := 0x010.
Definition SS_CANTRCVMORE : Z := 0x020.
Definition SS_RCVATMARK : Z := 0x040.
Definition SS_ISABORTING : Z := 0x080.
Definition SS_ISCONFIRMING : Z := 0x200.
Definition SS_ISDISCONNECTED : Z := 0x800.

Definition flags_set (s f : Z) : Z := Z.lor s f.

Definition state_connecting (s : Z) : Z :=
  flags_set (flag_clear s (Z.lor SS_ISCONNECTED SS_ISDISCONNECTING)) SS_ISCONNECTING.

Definition state_connected (s : Z) : Z :=
  flags_set (flag_clear s (Z.lor (Z.lor SS_ISCONNECTING SS_ISDISCONNECTING) SS_ISCONFIRMING)) SS_ISCONNECTED.

Definition state_disconnecting (s : Z) : Z :=
  flags_set (flag_clear s SS_ISCONNECTING) (Z.lor (Z.lor SS_ISDISCONNECTING SS_CANTRCVMORE) SS_CANTSENDMORE).

Definition state_disconnected (s : Z) : Z :=
  flags_set (flag_clear s (Z.lor (Z.lor SS_ISCONNECTING SS_ISCONNECTED) SS_ISDISCONNECTING))
    (Z.lor (Z.lor SS_CANTRCVMORE SS_CANTSENDMORE) SS_ISDISCONNECTED).

Definition state_cantsendmore (s : Z) : Z := flags_set s SS_CANTSENDMORE.
Definition state_cantrcvmore (s : Z) : Z := flags_set s SS_CANTRCVMORE.
