(* ===== verification/IpId.v ===== *)
(** * Identifications of IP packets (src/netbsd/netinet/ip_id.c, in_var.h)

    The generator of random identifications is a shuffled table of all of
    them with a window of half its size that moves by one slot per draw.
    Random numbers are arguments of the operations.  [None] is an access
    outside of the table. *)

From S2P Require Import Prelude.

Definition IPID_MAXID : Z := 65535.
Definition IPID_NUMIDS : Z := 32768.

Record ipid_state := mkIpid { ids_start_slot : Z; ids_slots : list Z }.

#[export] Instance eta_ipid : EtaRecord ipid_state := fun r => mkIpid (ids_start_slot r) (ids_slots r).

(** Exchange of two slots. *)
Definition swap_slots (i k : nat) (l : list Z) : list Z :=
  match l !! i, l !! k with
  | Some t, Some u => <[k := t]> (<[i := u]> l)
  | _, _ => l
  end.

(** [for (i = __arraycount(ids->ids_slots); --i > 0;)]; [rnd i] is the
    random number of the round for [i]. *)
Fixpoint shuffle (i : nat) (rnd : nat -> Z) (l : list Z) : list Z :=
  match i with
  | O => l
  | S i' => shuffle i' rnd (swap_slots i (Z.to_nat (u32 (rnd i) mod (Z.of_nat i + 1))) l)
  end.

(** [rnd 0] is the random number for the first slot of the window. *)
Definition ip_id_init (rnd : nat -> Z) : ipid_state :=
  mkIpid (u16 (rnd O)) (shuffle (Z.to_nat (IPID_MAXID - 1)) rnd (seqZ 0 IPID_MAXID)).

Definition htons (z : Z) : Z := (u16 z mod 2 ^ 8) * 2 ^ 8 + u16 z / 2 ^ 8.

Definition ip_randomid (r : Z) (ids : ipid_state) (salt : Z) : option (Z * ipid_state) :=
  let start := ids_start_slot ids in
  let k := Z.land r (IPID_NUMIDS - 1) + start in
  let k := if IPID_MAXID <=? k then k - IPID_MAXID else k in
  match ids_slots ids !! Z.to_nat k with
  | None => None
  | Some id =>
      match (if k =? start then Some (ids_slots ids)
             else match ids_slots ids !! Z.to_nat start with
                  | None => None
                  | Some first => Some (<[Z.to_nat start := id]> (<[Z.to_nat k := first]> (ids_slots ids)))
                  end) with
      | None => None
      | Some slots =>
          let start := u16 (start + 1) in
          let start := if start =? IPID_MAXID then 0 else start in
          let id := id + salt in
          let id := if IPID_MAXID <=? id then id - IPID_MAXID else id in
          Some (htons (id + 1), mkIpid start slots)
      end
  end.

(** [ip_newid_range], with the counter [ip_id] and the random generator;
    [salt] is that of the address, 0 without one. *)
Definition ip_newid_range (ip_do_randomid : bool) (r : Z) (ids : ipid_state) (ip_id salt num : Z)
    : option (Z * Z * ipid_state) :=
  if ip_do_randomid then
    match ip_randomid r ids salt with
    | Some (id, ids) => Some (id, ip_id, ids)
    | None => None
    end
  else
    let ip_id := if u16 (ip_id + num) <? ip_id then 1 else ip_id in
    Some (htons ip_id, u16 (ip_id + num), ids).

Definition ip_newid (ip_do_randomid : bool) (r : Z) (ids : ipid_state) (ip_id salt : Z) : option (Z * Z * ipid_state) :=
  ip_newid_range ip_do_randomid r ids ip_id salt 1.

(** Draws in a row, each with its random number and the salt of its address; the
    results are the salts and the identifications. *)
Fixpoint draws (rs : list (Z * Z)) (ids : ipid_state) : option (list (Z * Z) * ipid_state) :=
  match rs with
  | [] => Some ([], ids)
  | (r, salt) :: rs =>
      match ip_randomid r ids salt with
      | None => None
      | Some (id, ids) =>
          match draws rs ids with
          | None => None
          | Some (l, ids) => Some ((salt, id) :: l, ids)
          end
      end
  end.

(** ** The invariant: the table is a permutation of all numbers *)

Definition ids_ok (ids : ipid_state) : Prop :=
  0 <= ids_start_slot ids < IPID_MAXID /\ ids_slots ids ≡ₚ seqZ 0 IPID_MAXID.

Lemma ids_length ids : ids_ok ids -> length (ids_slots ids) = Z.to_nat IPID_MAXID.
Proof. intros [_ P]. by rewrite P, length_seqZ. Qed.

Lemma ids_NoDup ids : ids_ok ids -> NoDup (ids_slots ids).
Proof. intros [_ P]. rewrite P. apply NoDup_seqZ. Qed.

Lemma ids_range ids k id : ids_ok ids -> ids_slots ids !! k = Some id -> 0 <= id < IPID_MAXID.
Proof.
  intros [_ P] E. apply list_elem_of_lookup_2 in E. rewrite P in E. apply elem_of_seqZ in E. lia.
Qed.

(** An exchange of two slots is a permutation. *)
Lemma swap_insert (l : list Z) i k t u : l !! i = Some t -> l !! k = Some u -> <[k := t]> (<[i := u]> l) ≡ₚ l.
Proof.
  intros Ei Ek. pose proof (list_insert_id l i t Ei) as I. destruct (decide (i = k)) as [<-|N].
  { rewrite Ei in Ek. injection Ek as ->. by rewrite list_insert_insert_eq, I. }
  assert (length (<[k:=t]> (<[i:=u]> l)) = length l) as L by (by rewrite !length_insert).
  apply Permutation_inj. split; [done|].
  exists (fun j => if decide (j = i) then k else if decide (j = k) then i else j). split.
  - intros x y. repeat destruct (decide _); congruence.
  - intros j. pose proof (lookup_lt_Some _ _ _ Ei). pose proof (lookup_lt_Some _ _ _ Ek).
    destruct (decide (j = i)) as [->|Ni]; [|destruct (decide (j = k)) as [->|Nk]].
    + by rewrite list_lookup_insert_ne, list_lookup_insert_eq, Ek by done.
    + by rewrite list_lookup_insert_eq, Ei by (by rewrite length_insert).
    + by rewrite !list_lookup_insert_ne by done.
Qed.

Lemma swap_slots_perm i k l : swap_slots i k l ≡ₚ l.
Proof.
  unfold swap_slots. destruct (l !! i) eqn:Ei; [|done]. destruct (l !! k) eqn:Ek; [|done]. by apply swap_insert.
Qed.

Lemma shuffle_perm i rnd l : shuffle i rnd l ≡ₚ l.
Proof. revert l. induction i as [|i IH]; intros l; [done|]. simpl. by rewrite IH, swap_slots_perm. Qed.

Lemma ip_id_init_ok rnd : u16 (rnd O) <> IPID_MAXID -> ids_ok (ip_id_init rnd).
Proof.
  intros N. split; [|apply shuffle_perm]. pose proof (u16_range (rnd O)). unfold IPID_MAXID in *. unfold ip_id_init. cbn [ids_start_slot]. lia.
Qed.

(** ** One draw *)

(** The position [j + 1] slots behind the window. *)
Definition behind (start j : Z) : Z := (start - 1 - j) mod IPID_MAXID.

(** The numbers drawn last, the latest first, wait behind the window. *)
Definition parked (ids : ipid_state) (used : list Z) : Prop :=
  forall j id, used !! j = Some id -> ids_slots ids !! Z.to_nat (behind (ids_start_slot ids) (Z.of_nat j)) = Some id.

Lemma window_slot r start : 0 <= start < IPID_MAXID ->
  let d := Z.land r (IPID_NUMIDS - 1) in
  0 <= d < IPID_NUMIDS /\ (if IPID_MAXID <=? d + start then d + start - IPID_MAXID else d + start) = (start + d) mod IPID_MAXID.
Proof.
  intros L d. assert (0 <= d < IPID_NUMIDS) as D.
  { unfold d. change (IPID_NUMIDS - 1) with (Z.ones 15). rewrite Z.land_ones by lia. by apply (Z.mod_pos_bound r (2 ^ 15)). }
  split; [done|]. unfold IPID_MAXID, IPID_NUMIDS in *. zcase.
  - rewrite <- (Z.mod_add (start + d) (-1)) by lia. rewrite Z.mod_small; lia.
  - rewrite Z.mod_small; lia.
Qed.

Lemma next_start start : 0 <= start < IPID_MAXID ->
  (if u16 (start + 1) =? IPID_MAXID then 0 else u16 (start + 1)) = (start + 1) mod IPID_MAXID.
Proof.
  intros L. unfold IPID_MAXID, u16 in *. rewrite (Z.mod_small (start + 1) (2 ^ 16)) by lia. zcase.
  - replace (start + 1) with 65535 by lia. done.
  - rewrite Z.mod_small; lia.
Qed.

Lemma behind_next start j : 0 <= start < IPID_MAXID ->
  behind ((start + 1) mod IPID_MAXID) (j + 1) = behind start j /\ behind ((start + 1) mod IPID_MAXID) 0 = start.
Proof.
  intros L. unfold behind. split.
  - replace ((start + 1) mod IPID_MAXID - 1 - (j + 1)) with ((start + 1) mod IPID_MAXID + (- 2 - j)) by lia.
    rewrite Z.add_mod_idemp_l by done. f_equal. lia.
  - replace ((start + 1) mod IPID_MAXID - 1 - 0) with ((start + 1) mod IPID_MAXID + - 1) by lia.
    rewrite Z.add_mod_idemp_l by done. replace (start + 1 + - 1) with start by lia. by apply Z.mod_small.
Qed.

(** The window does not reach the slots behind it. *)
Lemma behind_window start d j : 0 <= start < IPID_MAXID -> 0 <= d < IPID_NUMIDS -> 0 <= j < IPID_NUMIDS - 1 ->
  behind start j <> (start + d) mod IPID_MAXID.
Proof.
  unfold behind, IPID_MAXID, IPID_NUMIDS. intros L D J E.
  pose proof (Z.mod_divide (d + 1 + j) 65535 ltac:(lia)) as [M _].
  assert ((d + 1 + j) mod 65535 = 0) as Z0; [|apply M in Z0 as [q Q]; lia].
  replace (d + 1 + j) with ((start + d) - (start - 1 - j)) by lia. rewrite Zminus_mod, <- E, Z.sub_diag. done.
Qed.

Definition salted (id salt : Z) : Z :=
  htons ((if IPID_MAXID <=? id + salt then id + salt - IPID_MAXID else id + salt) + 1).

Lemma draw_spec r ids salt used : ids_ok ids -> parked ids used -> Z.of_nat (length used) < IPID_NUMIDS ->
  exists id ids', ip_randomid r ids salt = Some (salted id salt, ids') /\ ids_ok ids' /\
    0 <= id < IPID_MAXID /\ (id ∉ used) /\ parked ids' (id :: used).
Proof.
  intros K P U. pose proof K as [L Pm]. destruct (window_slot r _ L) as [D Ek].
  unfold ip_randomid. cbv zeta. rewrite Ek. set (d := Z.land r (IPID_NUMIDS - 1)) in *. set (start := ids_start_slot ids) in *.
  set (k := (start + d) mod IPID_MAXID) in *. pose proof (ids_length _ K) as Ln.
  assert (0 <= k < IPID_MAXID) as Lk by (apply Z.mod_pos_bound; done).
  destruct (lookup_lt_is_Some_2 (ids_slots ids) (Z.to_nat k)) as [id Eid]; [lia|].
  destruct (lookup_lt_is_Some_2 (ids_slots ids) (Z.to_nat start)) as [first Ef]; [lia|]. rewrite Eid, Ef, next_start by done.
  set (slots := <[Z.to_nat start := id]> (<[Z.to_nat k := first]> (ids_slots ids))).
  assert ((if k =? start then Some (ids_slots ids) else Some slots) = Some slots) as ->.
  { destruct (Z.eqb_spec k start) as [E|]; [|done]. f_equal. unfold slots. rewrite E in Eid |- *. rewrite Ef in Eid. injection Eid as ->.
    by rewrite list_insert_insert_eq, list_insert_id by done. }
  assert (forall j, 0 <= j < IPID_NUMIDS - 1 -> Z.to_nat (behind start j) <> Z.to_nat k /\ Z.to_nat (behind start j) <> Z.to_nat start) as Far.
  { intros j J. pose proof (behind_window start d j L D J) as N1. pose proof (behind_window start 0 j L ltac:(unfold IPID_NUMIDS; lia) J) as N2.
    rewrite Z.add_0_r, (Z.mod_small start) in N2 by done. fold k in N1.
    assert (0 <= behind start j < IPID_MAXID) by (apply Z.mod_pos_bound; done). lia. }
  exists id, (mkIpid ((start + 1) mod IPID_MAXID) slots). split; [done|]. split; [|split; [by eapply ids_range|split]].
  - split; [apply Z.mod_pos_bound; done|]. simpl. unfold slots. by rewrite (swap_insert _ _ _ _ _ Eid Ef).
  - intros (j & Ej)%list_elem_of_lookup_1. pose proof (lookup_lt_Some _ _ _ Ej) as Lj. unfold IPID_NUMIDS in *.
    specialize (P _ _ Ej). fold start in P. destruct (Far (Z.of_nat j) ltac:(lia)) as [N _]. apply N.
    exact (NoDup_lookup _ _ _ _ (ids_NoDup _ K) P Eid).
  - intros [|j] x Ex; simpl.
    + injection Ex as <-. change (Z.of_nat 0) with 0. destruct (behind_next start 0 L) as [_ ->]. unfold slots.
      apply list_lookup_insert_eq. rewrite length_insert. lia.
    + simpl in Ex. pose proof (lookup_lt_Some _ _ _ Ex) as Lj. unfold IPID_NUMIDS in *.
      replace (Z.of_nat (S j)) with (Z.of_nat j + 1) by lia. destruct (behind_next start (Z.of_nat j) L) as [-> _].
      destruct (Far (Z.of_nat j) ltac:(lia)) as [N1 N2]. unfold slots. rewrite !list_lookup_insert_ne by done. by apply P.
Qed.

(** ** Draws in a row *)

Lemma htons_range z : 0 < z < 2 ^ 16 -> 0 < htons z < 2 ^ 16.
Proof.
  intros L. unfold htons, u16. rewrite (Z.mod_small z) by lia.
  pose proof (Z.div_mod z (2 ^ 8) ltac:(lia)). pose proof (Z.mod_pos_bound z (2 ^ 8) ltac:(lia)).
  assert (0 <= z / 2 ^ 8 < 2 ^ 8) by (split; [apply Z.div_pos|apply Z.div_lt_upper_bound]; lia). lia.
Qed.

Lemma htons_inj x y : is_u16 x -> is_u16 y -> htons x = htons y -> x = y.
Proof.
  unfold is_u16, htons, u16. intros X Y. rewrite (Z.mod_small x), (Z.mod_small y) by lia.
  pose proof (Z.div_mod x (2 ^ 8) ltac:(lia)). pose proof (Z.mod_pos_bound x (2 ^ 8) ltac:(lia)).
  pose proof (Z.div_mod y (2 ^ 8) ltac:(lia)). pose proof (Z.mod_pos_bound y (2 ^ 8) ltac:(lia)).
  assert (0 <= x / 2 ^ 8 < 2 ^ 8) by (split; [apply Z.div_pos|apply Z.div_lt_upper_bound]; lia).
  assert (0 <= y / 2 ^ 8 < 2 ^ 8) by (split; [apply Z.div_pos|apply Z.div_lt_upper_bound]; lia). lia.
Qed.

Lemma salted_range id salt : 0 <= id < IPID_MAXID -> is_u16 salt -> 0 < salted id salt < 2 ^ 16.
Proof. unfold is_u16, IPID_MAXID, salted. intros. apply htons_range. unfold IPID_MAXID. zcase; lia. Qed.

Lemma salted_inj x y salt : 0 <= x < IPID_MAXID -> 0 <= y < IPID_MAXID -> is_u16 salt ->
  salted x salt = salted y salt -> x = y.
Proof.
  unfold salted, is_u16, IPID_MAXID. intros X Y R.
  destruct (Z.leb_spec 65535 (x + salt)), (Z.leb_spec 65535 (y + salt)); intros E; apply htons_inj in E; unfold is_u16; lia.
Qed.

(** The identifications that the numbers of the table give. *)
Definition salted_all (salts l : list Z) : list (Z * Z) := zip_with (fun salt id => (salt, salted id salt)) salts l.

(** As many draws as fit behind the window give fresh numbers. *)
Lemma draws_spec rs ids used : ids_ok ids -> parked ids used -> Z.of_nat (length used) + Z.of_nat (length rs) <= IPID_NUMIDS ->
  exists l ids', draws rs ids = Some (salted_all rs.*2 l, ids') /\ ids_ok ids' /\ length l = length rs /\
    Forall (fun id => 0 <= id < IPID_MAXID) l /\ NoDup l /\ (forall id, id ∈ l -> id ∉ used).
Proof.
  revert ids used. induction rs as [|[r salt] rs IH]; intros ids used K P U; simpl.
  { exists [], ids. repeat split; try done; try apply K; [constructor|]. by intros ? ?%not_elem_of_nil. }
  simpl length in U. destruct (draw_spec r ids salt used K P) as (id & ids1 & -> & K1 & Ri & Fresh & P1); [lia|].
  destruct (IH ids1 (id :: used) K1 P1) as (l & ids2 & -> & K2 & Ll & Rl & Nd & Fl); [simpl; lia|].
  exists (id :: l), ids2. split; [done|]. split; [done|]. split; [simpl; lia|]. split; [by constructor|]. split.
  - constructor; [|done]. intros Hin. apply (Fl _ Hin). left.
  - intros x [->|Hx]%elem_of_cons; [done|]. intros Hu. apply (Fl _ Hx). by right.
Qed.

(** The invariant is kept by draws of any number. *)
Lemma draws_ok rs ids : ids_ok ids -> exists l ids', draws rs ids = Some (l, ids') /\ ids_ok ids'.
Proof.
  revert ids. induction rs as [|[r salt] rs IH]; intros ids K; [by exists [], ids|]. simpl.
  destruct (draw_spec r ids salt [] K) as (id & ids1 & -> & K1 & _); [by intros ? ? ?|done|].
  destruct (IH ids1 K1) as (l & ids2 & -> & K2). by eexists _, ids2.
Qed.

Lemma salted_all_elem salts l x : x ∈ salted_all salts l -> exists salt id, salt ∈ salts /\ id ∈ l /\ x = (salt, salted id salt).
Proof.
  revert l. induction salts as [|salt salts IH]; intros [|id l]; simpl; try by intros ?%elem_of_nil.
  intros [->|H]%elem_of_cons; [exists salt, id; split; [by left|split; [by left|done]]|].
  destruct (IH _ H) as (salt' & id' & ? & ? & ?). exists salt', id'. split; [by right|split; [by right|done]].
Qed.

Lemma salted_all_NoDup salts l : Forall is_u16 salts -> Forall (fun id => 0 <= id < IPID_MAXID) l -> NoDup l -> NoDup (salted_all salts l).
Proof.
  revert l. induction salts as [|salt salts IH]; intros [|id l] R F N; simpl; try constructor.
  - intros (salt' & id' & _ & Hid & [= E1 E2])%salted_all_elem. subst salt'. apply NoDup_cons in N as [N _].
    inversion R. inversion F as [|? ? Fi Fl]. subst. rewrite Forall_forall in Fl. apply salted_inj in E2; [by subst|done|by apply Fl|done].
  - inversion R. inversion F. inversion N. subst. by apply IH.
Qed.

(** C35. After any number of draws from the generator of identifications, the next
    32768 draws give no identification twice to draws with the same salt, that is to
    packets of the same local address, and never 0: an identification of an address can
    come back only after half of the numbers have been used, as the comment on the
    generator promises.  No draw reads or writes outside of the table.  The first slot
    of the window is a random 16-bit number, and the hypothesis excludes the value
    65535, see [ip_id_init_overrun]. *)
Theorem ip_randomid_no_reuse rnd before rs : u16 (rnd O) <> IPID_MAXID -> Forall is_u16 rs.*2 ->
  Z.of_nat (length rs) <= IPID_NUMIDS ->
  exists l0 ids l ids', draws before (ip_id_init rnd) = Some (l0, ids) /\ draws rs ids = Some (l, ids') /\
    l.*1 = rs.*2 /\ Forall (fun x => 0 < x.2 < 2 ^ 16) l /\ NoDup l.
Proof.
  intros N R L. destruct (draws_ok before (ip_id_init rnd) (ip_id_init_ok _ N)) as (l0 & ids & E0 & K).
  destruct (draws_spec rs ids [] K) as (l & ids' & E & _ & Ll & Rl & Nd & _); [by intros ? ? ?|simpl; lia|].
  exists l0, ids, (salted_all rs.*2 l), ids'. split; [done|]. split; [done|]. split; [|split].
  - apply (fmap_zip_with_l (fun salt id => (salt, salted id salt)) fst); [done|]. rewrite length_fmap. lia.
  - apply Forall_forall. intros x (salt & id & Hs & Hid & ->)%salted_all_elem. rewrite Forall_forall in Rl. rewrite Forall_forall in R. apply salted_range; [by apply Rl|by apply R].
  - by apply salted_all_NoDup.
Qed.

Lemma ip_randomid_no_reuse_witness : exists l0 ids l ids',
  draws [(7, 0); (8, 3)] (ip_id_init (fun _ => 5)) = Some (l0, ids) /\ draws [(1, 3); (2, 4); (1, 3)] ids = Some (l, ids') /\
  l.*1 = [3; 4; 3] /\ Forall (fun x => 0 < x.2 < 2 ^ 16) l /\ NoDup l.
Proof.
  apply (ip_randomid_no_reuse (fun _ => 5) [(7, 0); (8, 3)] [(1, 3); (2, 4); (1, 3)]);
    [vm_compute; done|repeat constructor; vm_compute; congruence|vm_compute; congruence].
Defined.

(** The first slot of the window is not reduced to the size of the table: when
    the random number is 65535 the first draw reads and writes behind it. *)
Theorem ip_id_init_overrun rnd r salt : u16 (rnd O) = IPID_MAXID -> Z.land r (IPID_NUMIDS - 1) <> 0 ->
  ip_randomid r (ip_id_init rnd) salt = None.
Proof.
  intros E N. assert (length (ids_slots (ip_id_init rnd)) = Z.to_nat IPID_MAXID) as Ln.
  { unfold ip_id_init. cbn [ids_slots]. by rewrite shuffle_perm, length_seqZ. }
  unfold ip_randomid. cbv zeta. change (ids_start_slot (ip_id_init rnd)) with (u16 (rnd O)). rewrite E.
  revert Ln. generalize (ids_slots (ip_id_init rnd)). intros slots Ln.
  assert (0 <= Z.land r (IPID_NUMIDS - 1) < IPID_NUMIDS) as D.
  { change (IPID_NUMIDS - 1) with (Z.ones 15). rewrite Z.land_ones by lia. by apply (Z.mod_pos_bound r (2 ^ 15)). }
  assert (slots !! Z.to_nat IPID_MAXID = None) as -> by (apply lookup_ge_None_2; by rewrite Ln).
  destruct (Z.leb_spec IPID_MAXID (Z.land r (IPID_NUMIDS - 1) + IPID_MAXID)); [|lia].
  destruct (slots !! _); [|done]. destruct (Z.eqb_spec (Z.land r (IPID_NUMIDS - 1) + IPID_MAXID - IPID_MAXID) IPID_MAXID); [|done].
  unfold IPID_MAXID, IPID_NUMIDS in *. lia.
Qed.
