(* ===== verification/Ip.v ===== *)
(** * The IPv4 header, interfaces and routes (src/netbsd/netinet/ip.h, in.h, in_var.h,
    net/if.h, net/route.h, net/route.c)

    What ip_input and ip_output share: the header as it lies in memory, the
    fields they read of interfaces, addresses and routes, and the cache of
    a route.  [ip] of [IpReass] has the fields that reassembly reads;
    [iphdr] adds the rest.  Addresses and [ip_id], [ip_sum] are as in memory
    (the first byte is the lowest), lengths and offsets in host order. *)

From S2P Require Import Prelude IpReass InCksum InCksumFacts.

Definition IPVERSION : Z := 4.
Definition IP_RF : Z := 0x8000.
Definition IP_DF : Z := 0x4000.
Definition IFF_UP : Z := 0x1.
Definition IFF_BROADCAST : Z := 0x2.
Definition IFF_LOOPBACK : Z := 0x8.
Definition IFF_POINTOPOINT : Z := 0x10.
Definition IFF_MULTICAST : Z := 0x8000.
Definition IFCAP_TSOv4 : Z := 0x80.
Definition M_BCAST : Z := 0x100.
Definition M_MCAST : Z := 0x200.
Definition M_CSUM_TCPv4 : Z := 0x1.
Definition M_CSUM_UDPv4 : Z := 0x2.
Definition M_CSUM_IPv4 : Z := 0x40.
Definition M_CSUM_IPv4_BAD : Z := 0x80.
Definition M_CSUM_TSOv4 : Z := 0x100.
Definition RTF_UP : Z := 0x1.
Definition RTF_GATEWAY : Z := 0x2.
Definition RTF_DYNAMIC : Z := 0x10.
Definition RTF_MODIFIED : Z := 0x20.
Definition RTV_MTU : Z := 0x1.

(** Addresses: the first byte decides the class. *)
Definition INADDR_ANY : Z := 0.
Definition INADDR_BROADCAST : Z := 0xffffffff.
Definition addr_byte (a : Z) : Z := Z.land a 0xff.
Definition IN_MULTICAST (a : Z) : bool := Z.land a 0xf0 =? 0xe0.
Definition IN_EXPERIMENTAL (a : Z) : bool := Z.land a 0xf0 =? 0xf0.
Definition IN_CLASSA (a : Z) : bool := Z.land a 0x80 =? 0.
Definition in_nullhost (a : Z) : bool := a =? INADDR_ANY.
Definition in_hosteq (a b : Z) : bool := a =? b.
Definition IN_LOOPBACKNET : Z := 127.

Definition in_canforward (a : Z) : bool :=
  if IN_EXPERIMENTAL a || IN_MULTICAST a then false
  else if IN_CLASSA a && ((addr_byte a =? 0) || (addr_byte a =? IN_LOOPBACKNET)) then false
  else true.

(** ** The header *)

Record iphdr := mkIph { iph : ip; ip_v : Z; ip_ttl : Z; ip_sum : Z }.

#[export] Instance eta_iphdr : EtaRecord iphdr := fun r => mkIph (iph r) (ip_v r) (ip_ttl r) (ip_sum r).

(** Assignment to a field of the part that reassembly knows. *)
Definition set_iph (f : ip -> ip) (h : iphdr) : iphdr := h <| iph := f (iph h) |>.

(** [n] bytes of a number, lowest first, and back. *)
Fixpoint le_bytes (n : nat) (z : Z) : list Z :=
  match n with
  | O => []
  | S n => z mod 2 ^ 8 :: le_bytes n (z / 2 ^ 8)
  end.

Fixpoint le_val (l : list Z) : Z :=
  match l with
  | [] => 0
  | b :: l => b + 2 ^ 8 * le_val l
  end.

Definition be16 (z : Z) : list Z := [z / 2 ^ 8; z mod 2 ^ 8].
Definition be16_val (hi lo : Z) : Z := hi * 2 ^ 8 + lo.

(** The 20 bytes of [struct ip]; [ip_hl] and [ip_v] are bit-fields of the first. *)
Definition ip_encode (h : iphdr) : list Z :=
  let f := iph h in
  (ip_v h * 2 ^ 4 + ip_hl f) :: ip_tos f :: be16 (ip_len f) ++ le_bytes 2 (ip_id f) ++ be16 (ip_off f) ++
  ip_ttl h :: ip_p f :: le_bytes 2 (ip_sum h) ++ le_bytes 4 (ip_src f) ++ le_bytes 4 (ip_dst f).

Definition byte (l : list Z) (i : nat) : Z := nth i l 0.

Definition ip_decode (l : list Z) : iphdr :=
  let b := byte l in
  mkIph (mkIp (b 0%nat mod 2 ^ 4) (b 1%nat) (be16_val (b 2%nat) (b 3%nat)) (le_val (take 2 (drop 4 l)))
           (be16_val (b 6%nat) (b 7%nat)) (b 9%nat) (le_val (take 4 (drop 12 l))) (le_val (take 4 (drop 16 l))))
    (b 0%nat / 2 ^ 4) (b 8%nat) (le_val (take 2 (drop 10 l))).

(** [in_cksum] of the first [hlen] bytes of a packet in one mbuf. *)
Definition header_cksum (bytes : list Z) (hlen : Z) : Z :=
  in_cksum [mkSegment 0 bytes (Z.of_nat (length bytes))] hlen.

(** ** Interfaces and addresses

    An interface is named by its index. *)

Record in_ifaddr := mkIa {
  ia_addr : Z; ia_broadaddr : Z; ia_netbroadcast : Z; ia_subnet : Z; ia_net : Z; ia_subnetmask : Z; ia_idsalt : Z;
  ia_ifp : Z
}.

(** [if_addrs] are the addresses of family AF_INET of the interface. *)
Record ifnet := mkIf {
  if_flags : Z; if_mtu : Z; if_csum_flags_tx : Z; if_csum_flags_rx : Z; if_capenable : Z;
  ifq_maxlen : Z; ifq_len : Z; if_addrs : list in_ifaddr
}.

Record rtentry := mkRt {
  rt_flags : Z; rt_key : Z; rt_gateway : Z; rt_ifp : option Z; rt_ifa : in_ifaddr; rmx_mtu : Z; rmx_locks : Z
}.

(** [hostzeroisbroadcast] is a variable of in.c, 1 by default. *)
Definition in_broadcast (hostzeroisbroadcast : bool) (a : Z) (ifp : ifnet) : bool :=
  if (a =? INADDR_BROADCAST) || in_nullhost a then true
  else if negb (flag_set (if_flags ifp) IFF_BROADCAST) then false
  else existsb (fun ia => negb (in_hosteq a (ia_addr ia)) &&
                 (in_hosteq a (ia_broadaddr ia) || in_hosteq a (ia_netbroadcast ia) ||
                  (hostzeroisbroadcast && ((a =? ia_subnet ia) || (a =? ia_net ia))))) (if_addrs ifp).

(** ** The cache of a route

    [rtalloc1] looks into the routing table; [dup] tells whether memory for
    the address can be had.  Reference counts are left out. *)

Record route := mkRoute { ro_sa : option Z; ro_rt : option rtentry; ro_invalid : bool }.

#[export] Instance eta_route : EtaRecord route := fun r => mkRoute (ro_sa r) (ro_rt r) (ro_invalid r).

Definition empty_route : route := mkRoute None None false.

Definition rtcache_validate (ro : route) : option rtentry :=
  if ro_invalid ro then None
  else match ro_rt ro with
       | Some rt => if flag_set (rt_flags rt) RTF_UP && bool_decide (is_Some (rt_ifp rt)) then Some rt else None
       | None => None
       end.

Definition rtcache_clear (ro : route) : route :=
  match ro_rt ro with
  | None => ro
  | Some _ => ro <| ro_rt := None |> <| ro_invalid := false |>
  end.

Definition rtcache_free (ro : route) : route := (rtcache_clear ro) <| ro_sa := None |>.

Section route_cache.
Variables (rtalloc1 : Z -> option rtentry) (dup : bool).

Definition rtcache_init (ro : route) : option rtentry * route :=
  match ro_sa ro with
  | None => (None, ro)
  | Some dst => (rtalloc1 dst, ro <| ro_invalid := false |> <| ro_rt := rtalloc1 dst |>)
  end.

Definition rtcache_update (ro : route) : option rtentry * route := rtcache_init (rtcache_clear ro).

(** All addresses here are of one family and size, so that the address of a
    cache in use is overwritten. *)
Definition rtcache_setdst (ro : route) (dst : Z) : bool * route :=
  match ro_sa ro with
  | Some _ => (true, (rtcache_clear ro) <| ro_sa := Some dst |>)
  | None => if dup then (true, ro <| ro_sa := Some dst |>) else (false, ro)
  end.

Definition rtcache_lookup (ro : route) (dst : Z) : option rtentry * route :=
  let '(rt, ro) :=
    match ro_sa ro with
    | None => (None, ro)
    | Some odst =>
        if negb (odst =? dst) then (None, rtcache_free ro)
        else match rtcache_validate ro with
             | None => (None, rtcache_clear ro)
             | Some rt => (Some rt, ro)
             end
    end in
  match rt with
  | Some rt => (Some rt, ro)
  | None =>
      let '(ok, ro) := rtcache_setdst ro dst in
      if ok then rtcache_init ro else (None, ro)
  end.
End route_cache.

(** ** The header survives encoding *)

Definition is_u8 (z : Z) : Prop := 0 <= z < 2 ^ 8.

Definition iphdr_ok (h : iphdr) : Prop :=
  let f := iph h in
  0 <= ip_v h < 16 /\ 0 <= ip_hl f < 16 /\ is_u8 (ip_tos f) /\ is_u16 (ip_len f) /\ is_u16 (ip_id f) /\ is_u16 (ip_off f) /\
  is_u8 (ip_ttl h) /\ is_u8 (ip_p f) /\ is_u16 (ip_sum h) /\ is_u32 (ip_src f) /\ is_u32 (ip_dst f).

Lemma length_le_bytes n z : length (le_bytes n z) = n.
Proof. revert z. induction n as [|n IH]; intros z; simpl; [done|]. by rewrite IH. Qed.

Lemma length_ip_encode h : length (ip_encode h) = 20%nat.
Proof. unfold ip_encode, be16. simpl. done. Qed.

Lemma le_bytes_val n z : 0 <= z < 2 ^ (8 * Z.of_nat n) -> le_val (le_bytes n z) = z.
Proof.
  revert z. induction n as [|n IH]; intros z L; simpl; [lia|]. rewrite Nat2Z.inj_succ, Z.mul_succ_r in L.
  rewrite Z.pow_add_r in L by lia. change 256 with (2 ^ 8). rewrite IH.
  - pose proof (Z.div_mod z (2 ^ 8) ltac:(lia)). lia.
  - split; [apply Z.div_pos; lia|]. apply Z.div_lt_upper_bound; lia.
Qed.

Lemma le_bytes_range n z : Forall (fun b => 0 <= b < 256) (le_bytes n z).
Proof. revert z. induction n as [|n IH]; intros z; constructor; [|apply IH]. by apply (Z.mod_pos_bound z (2 ^ 8)). Qed.

Lemma le_val_range l : Forall (fun b => 0 <= b < 256) l -> 0 <= le_val l < 2 ^ (8 * Z.of_nat (length l)).
Proof.
  induction 1 as [|b l B F IH]; simpl length; [simpl; lia|]. rewrite Nat2Z.inj_succ, Z.mul_succ_r, Z.pow_add_r by lia.
  cbn [le_val]. lia.
Qed.

Lemma div256_range z : is_u16 z -> 0 <= z / 2 ^ 8 < 256.
Proof. unfold is_u16. intros. split; [apply Z.div_pos|apply Z.div_lt_upper_bound]; lia. Qed.

Lemma ip_encode_range h : iphdr_ok h -> Forall (fun b => 0 <= b < 256) (ip_encode h).
Proof.
  intros (V & H & T & L & I & O & Tt & P & S & Sr & D). unfold is_u8 in *. unfold ip_encode, be16. simpl app.
  pose proof (div256_range _ L). pose proof (div256_range _ O).
  pose proof (Z.mod_pos_bound (ip_len (iph h)) (2 ^ 8) ltac:(lia)). pose proof (Z.mod_pos_bound (ip_off (iph h)) (2 ^ 8) ltac:(lia)).
  repeat (apply Forall_cons; split; [first [lia|by apply (Z.mod_pos_bound _ (2 ^ 8))]|]). constructor.
Qed.

Lemma ip_decode_encode h rest : iphdr_ok h -> ip_decode (ip_encode h ++ rest) = h.
Proof.
  intros (V & H & T & L & I & O & Tt & P & S & Sr & D).
  pose proof (le_bytes_val 2 (ip_id (iph h)) I) as E1. pose proof (le_bytes_val 2 (ip_sum h) S) as E2.
  pose proof (le_bytes_val 4 (ip_src (iph h)) Sr) as E3. pose proof (le_bytes_val 4 (ip_dst (iph h)) D) as E4.
  unfold ip_decode, ip_encode, be16. cbv zeta. cbn [app le_bytes byte nth take drop] in *. rewrite take_0, E1, E2, E3, E4.
  unfold be16_val. assert (forall z, z / 2 ^ 8 * 2 ^ 8 + z mod 2 ^ 8 = z) as B by (intros z; pose proof (Z.div_mod z (2 ^ 8)); lia).
  rewrite !B. replace ((ip_v h * 2 ^ 4 + ip_hl (iph h)) mod 2 ^ 4) with (ip_hl (iph h)).
  2:{ rewrite Z.add_comm, Z.mod_add by lia. symmetry. apply Z.mod_small. lia. }
  replace ((ip_v h * 2 ^ 4 + ip_hl (iph h)) / 2 ^ 4) with (ip_v h).
  2:{ rewrite Z.div_add_l by lia. rewrite (Z.div_small (ip_hl _)) by lia. lia. }
  destruct h as [[]]. done.
Qed.

(** Writing the sum into a header whose sum field is zero makes the sum of the whole 0. *)
Lemma header_cksum_norm bytes hlen : Forall is_byte bytes -> 0 < hlen <= Z.of_nat (length bytes) -> Z.of_nat (length bytes) < 2 ^ 31 ->
  header_cksum bytes hlen = 65535 - norm (bsum false (take (Z.to_nat hlen) bytes)).
Proof.
  intros F L L2. unfold header_cksum, in_cksum. rewrite cpu_in_cksum_norm; [|repeat constructor; simpl; try lia; done|lia|lia|unfold is_u32; lia].
  unfold chain_bytes. cbn [fmap list_fmap concat seg_len seg_mem]. rewrite app_nil_r, Nat2Z.id, firstn_all.
  destruct (Z.leb_spec (0 + hlen) (Z.of_nat (length bytes))); [|lia]. done.
Qed.

Lemma bsum_sum h opts s : is_u16 s ->
  bsum false (ip_encode (h <| ip_sum := s |>) ++ opts) = bsum false (ip_encode (h <| ip_sum := 0 |>) ++ opts) + s.
Proof.
  intros R. unfold ip_encode, be16. upd_simpl. cbn [app le_bytes bsum negb].
  pose proof (Z.div_mod s (2 ^ 8) ltac:(lia)). unfold is_u16 in R.
  rewrite (Z.mod_small (s / 2 ^ 8)) by (split; [apply Z.div_pos|apply Z.div_lt_upper_bound]; lia).
  change (0 mod 2 ^ 8) with 0. change (0 / 2 ^ 8) with 0. change (0 mod 2 ^ 8) with 0. lia.
Qed.

Lemma norm_complement n : 0 < n -> norm (n + (65535 - norm n)) = 65535.
Proof.
  intros P. unfold norm. destruct (Z.eqb_spec n 0); [lia|].
  pose proof (Z.mod_pos_bound (n - 1) 65535 ltac:(lia)). pose proof (Z.div_mod (n - 1) 65535 ltac:(lia)) as DM.
  destruct (Z.eqb_spec (n + (65535 - ((n - 1) mod 65535 + 1))) 0); [lia|].
  replace (n + (65535 - ((n - 1) mod 65535 + 1)) - 1) with (65534 + ((n - 1) / 65535) * 65535) by lia.
  rewrite Z.mod_add by lia. done.
Qed.

Lemma encode_bsum_pos h opts : iphdr_ok h -> ip_v h = IPVERSION -> Forall is_byte opts -> 0 < bsum false (ip_encode h ++ opts).
Proof.
  intros K V Fo. pose proof (ip_encode_range h K) as R. destruct K as (_ & Hl & _). revert R.
  unfold ip_encode. generalize (ip_tos (iph h) :: be16 (ip_len (iph h)) ++ le_bytes 2 (ip_id (iph h)) ++ be16 (ip_off (iph h)) ++
    ip_ttl h :: ip_p (iph h) :: le_bytes 2 (ip_sum h) ++ le_bytes 4 (ip_src (iph h)) ++ le_bytes 4 (ip_dst (iph h))).
  intros l [_ R]%Forall_cons. cbn [app bsum]. rewrite V. unfold IPVERSION.
  pose proof (bsum_nonneg (negb false) (l ++ opts) ltac:(apply Forall_app; by split)). lia.
Qed.

(** The sum that is stored makes the check of the receiver succeed. *)
Lemma header_cksum_verifies h opts rest : iphdr_ok h -> Forall is_byte opts -> Forall is_byte rest -> ip_v h = IPVERSION ->
  let hlen := 20 + Z.of_nat (length opts) in
  hlen + Z.of_nat (length rest) < 2 ^ 31 ->
  let s := header_cksum (ip_encode (h <| ip_sum := 0 |>) ++ opts ++ rest) hlen in
  is_u16 s /\ header_cksum (ip_encode (h <| ip_sum := s |>) ++ opts ++ rest) hlen = 0.
Proof.
  intros K Fo Fr V hlen L s.
  assert (forall x, is_u16 x -> iphdr_ok (h <| ip_sum := x |>)) as Kx by (intros x X; revert K; unfold iphdr_ok; upd_simpl; tauto).
  assert (forall x, is_u16 x -> header_cksum (ip_encode (h <| ip_sum := x |>) ++ opts ++ rest) hlen =
    65535 - norm (bsum false (ip_encode (h <| ip_sum := 0 |>) ++ opts) + x)) as E.
  { intros x X. rewrite header_cksum_norm.
    - rewrite <- (bsum_sum h opts x X). f_equal. f_equal. f_equal.
      rewrite app_assoc. rewrite take_app_le by (rewrite length_app, length_ip_encode; unfold hlen; lia).
      apply take_ge. rewrite length_app, length_ip_encode. unfold hlen. lia.
    - rewrite !Forall_app. split; [by apply ip_encode_range, Kx|done].
    - rewrite !length_app, length_ip_encode. unfold hlen. lia.
    - rewrite !length_app, length_ip_encode. unfold hlen in L. lia. }
  set (T := bsum false (ip_encode (h <| ip_sum := 0 |>) ++ opts)) in *.
  assert (0 < T) as Tp by (by apply encode_bsum_pos; [apply Kx; unfold is_u16; lia| |]).
  assert (0 <= norm T <= 65535) as N.
  { unfold norm. destruct (T =? 0); [lia|]. pose proof (Z.mod_pos_bound (T - 1) 65535 ltac:(lia)). lia. }
  assert (s = 65535 - norm T) as Es by (unfold s; rewrite (E 0 ltac:(unfold is_u16; lia)); f_equal; f_equal; lia).
  assert (is_u16 s) as Rs by (rewrite Es; unfold is_u16; lia). split; [done|].
  rewrite (E s Rs), Es, norm_complement by done. done.
Qed.
