(* ===== verification/IpOutput.v ===== *)
(** * Sending IP packets (src/netbsd/netinet/ip_output.c)

    A packet is its header, its options and its data: [p_bytes] is the mbuf
    chain.  [None] as the result of an operation is a failed assertion, a
    panic or an access outside of the packet.  What the routines call is in
    the environment [ipenv]: the routing table, the addresses of the
    interfaces, the output routine of an interface (its error), the memory
    for mbufs, segmentation of TCP packets.  IPsec, packet filters, multicast
    routing and per-address statistics are not compiled in. *)

From S2P Require Import Prelude MbufFacts IpReass InCksum IpId Ip.

Definition IP_FORWARDING : Z := 0x1.
Definition IP_RAWOUTPUT : Z := 0x2.
Definition IP_RETURNMTU : Z := 0x4.
Definition IP_NOIPNEWID : Z := 0x8.
Definition IP_ROUTETOIF : Z := 0x10.
Definition IP_ALLOWBROADCAST : Z := 0x20.
Definition IP_MTUDISC : Z := 0x400.
Definition IP_DEFAULT_MULTICAST_TTL : Z := 1.
Definition EMSGSIZE : Z := 40.
Definition ENOBUFS : Z := 55.
Definition EACCES : Z := 13.
Definition EADDRNOTAVAIL : Z := 49.
Definition ENETUNREACH : Z := 51.
Definition EHOSTUNREACH : Z := 65.
Definition IPOPT_EOL : Z := 0.
Definition IPOPT_NOP : Z := 1.

(** The size of [struct ip]. *)
Abbreviation ip_size := 20 (only parsing).

Record opkt := mkOpkt {
  p_hdr : iphdr; p_opts : list Z; p_payload : list Z;
  p_flags : Z; p_csum_flags : Z; p_csum_data : Z; p_segsz : Z
}.

#[export] Instance eta_opkt : EtaRecord opkt :=
  fun r => mkOpkt (p_hdr r) (p_opts r) (p_payload r) (p_flags r) (p_csum_flags r) (p_csum_data r) (p_segsz r).

Definition p_bytes (p : opkt) : list Z := ip_encode (p_hdr p) ++ p_opts p ++ p_payload p.
(** [m_pkthdr.len] *)
Definition p_pktlen (p : opkt) : Z := Z.of_nat (length (p_bytes p)).

(** Assignments to fields of the header. *)
Definition p_ip (p : opkt) : ip := iph (p_hdr p).
Definition set_ip (f : ip -> ip) (p : opkt) : opkt := p <| p_hdr := set_iph f (p_hdr p) |>.

(** What a packet is given to. *)
Inductive ipout :=
  | OutIf (ifp : Z) (p : opkt) (dst : Z)
  | OutLoop (ifp : Z) (p : opkt) (dst : Z)
  | OutTso (ifp : Z) (p : opkt) (dst : Z).

Record ip_moptions := mkImo { imo_multicast_ifp : option Z; imo_multicast_ttl : Z; imo_multicast_loop : bool }.

Record ipoption := mkIpopt { ipopt_dst : Z; ipopt_list : list Z }.

Record ipenv := mkIpenv {
  e_ifnet : Z -> ifnet;
  e_rtalloc1 : Z -> option rtentry;
  e_ifwithladdr : Z -> option in_ifaddr;
  e_in_multi : Z -> Z -> bool;             (* group, interface *)
  e_if_output : ipout -> Z;                (* error of the output routine *)
  e_dup : bool;                            (* memory for an address *)
  e_mgethdr : nat -> bool;                 (* mbuf for the header of the n-th fragment *)
  e_mcopy : nat -> bool;                   (* mbufs for the data of the n-th fragment *)
  e_copypacket : bool;                     (* mbufs for the copy to loop back *)
  e_leadingspace : Z;                      (* space in front of the header *)
  e_random : Z;                            (* random number for ip_id *)
  ip_do_randomid : bool; ip_do_loopback_cksum : bool; tcp_do_loopback_cksum : bool; udp_do_loopback_cksum : bool;
  hostzeroisbroadcast : bool
}.

(** ** Checksums that the interface does not compute *)

Definition IN_NEED_CHECKSUM (e : ipenv) (ifp csum_flags : Z) : bool :=
  negb (flag_set (if_flags (e_ifnet e ifp)) IFF_LOOPBACK) ||
  (flag_set csum_flags M_CSUM_UDPv4 && udp_do_loopback_cksum e) ||
  (flag_set csum_flags M_CSUM_TCPv4 && tcp_do_loopback_cksum e) ||
  (flag_set csum_flags M_CSUM_IPv4 && ip_do_loopback_cksum e).

(** Two bytes at an offset of the packet; [None] when they are not within its options or data. *)
Definition patch16 (off : Z) (v : Z) (p : opkt) : option opkt :=
  let k := Z.to_nat (off - ip_size) in
  let body := p_opts p ++ p_payload p in
  if (ip_size <=? off) && (off + 2 <=? p_pktlen p) then
    let body := take k body ++ le_bytes 2 v ++ drop (k + 2) body in
    Some (p <| p_opts := take (length (p_opts p)) body |> <| p_payload := drop (length (p_opts p)) body |>)
  else None.

Definition in_delayed_cksum (p : opkt) : option opkt :=
  let offset := Z.shiftl (ip_hl (p_ip p)) 2 in
  let csum := cpu_in_cksum [mkSegment 0 (p_bytes p) (p_pktlen p)] (ip_len (p_ip p) - offset) offset 0 in
  let csum := if (csum =? 0) && flag_set (p_csum_flags p) M_CSUM_UDPv4 then 0xffff else u16 csum in
  patch16 (offset + Z.land (p_csum_data p) 0xffff) csum p.

(** ** Options *)

(** [ip_insertoptions]: the packet and the length of its header, 0 when
    the options are not inserted; [got] tells whether an mbuf is there
    when there is no room in front of the header. *)
Definition ip_insertoptions (e : ipenv) (p : opkt) (opt : ipoption) : opkt * Z :=
  let optlen := Z.of_nat (length (ipopt_list opt)) in
  if IP_MAXPACKET <? optlen + ip_len (p_ip p) then (p, 0)
  else
    let p := if in_nullhost (ipopt_dst opt) then p else set_ip (fun h => h <| ip_dst := ipopt_dst opt |>) p in
    if (e_leadingspace e <? optlen) && negb (e_mgethdr e 0) then (p, 0)
    else
      (set_ip (fun h => h <| ip_len := u16 (ip_len h + optlen) |>) (p <| p_opts := ipopt_list opt ++ p_opts p |>),
       ip_size + optlen).

(** The loop of [ip_optcopy] over the [cnt] option bytes at [cp]; [None] is a
    read past them.  An option of length 0 would not advance: the routine
    relies on ip_dooptions, and the fuel runs out. *)
Fixpoint optcopy_loop (fuel : nat) (cp : list Z) : option (list Z) :=
  match fuel with
  | O => match cp with [] => Some [] | _ => None end
  | S fuel =>
      match cp with
      | [] => Some []
      | opt :: cp' =>
          if opt =? IPOPT_EOL then Some []
          else if opt =? IPOPT_NOP then
            match optcopy_loop fuel cp' with Some l => Some (IPOPT_NOP :: l) | None => None end
          else
            match cp' with
            | [] => None
            | optlen :: _ =>
                let optlen := Z.min optlen (Z.of_nat (length cp)) in
                if optlen =? 0 then None
                else
                  match optcopy_loop fuel (drop (Z.to_nat optlen) cp) with
                  | Some l => Some (if flag_set opt 0x80 then take (Z.to_nat optlen) cp ++ l else l)
                  | None => None
                  end
            end
      end
  end.

(** [for (...; optlen & 0x3; optlen++) *dp++ = IPOPT_EOL] *)
Definition pad_options (l : list Z) : list Z :=
  l ++ replicate (Z.to_nat ((- Z.of_nat (length l)) mod 4)) IPOPT_EOL.

(** The options of a fragment. *)
Definition ip_optcopy (opts : list Z) : option (list Z) :=
  match optcopy_loop (length opts) opts with
  | Some l => Some (pad_options l)
  | None => None
  end.

(** ** Fragmentation *)

(** [m_copym(m0, off, len)]; [None] is its panic. *)
Definition m_copym_bytes (l : list Z) (off len : Z) : option (list Z) :=
  if (0 <=? off) && (0 <=? len) && (off + len <=? Z.of_nat (length l))
  then Some (take (Z.to_nat len) (drop (Z.to_nat off) l)) else None.

Section fragment.
Variables (e : ipenv) (m0 : opkt) (ifp : option Z) (hlen len sw_csum : Z).

(** The header checksum of a fragment: computed, or left to the interface. *)
Definition frag_cksum (p : opkt) (hl : Z) : option opkt :=
  let p := p <| p_hdr := (p_hdr p) <| ip_sum := 0 |> |> in
  if flag_set sw_csum M_CSUM_IPv4 then Some (p <| p_hdr := (p_hdr p) <| ip_sum := header_cksum (p_bytes p) hl |> |>)
  else
    let p := p <| p_csum_flags := Z.lor (p_csum_flags p) (Z.land (p_csum_flags m0) M_CSUM_IPv4) |>
               <| p_csum_data := Z.lor (p_csum_data p) (Z.shiftl hl 16) |> in
    match ifp with
    | Some ifp =>
        if negb (IN_NEED_CHECKSUM e ifp M_CSUM_IPv4) || flag_set (p_csum_flags p) M_CSUM_IPv4 then Some p else None
    | None => Some p
    end.

(** The body of the loop: the fragment at [off]. *)
Definition frag_at (n : nat) (off : Z) : option (Z + opkt) :=
  let h := p_ip m0 in
  if negb (e_mgethdr e n) then Some (inl ENOBUFS)
  else
    match (if ip_size <? hlen then ip_optcopy (p_opts m0) else Some []) with
    | None => None
    | Some opts =>
        let mhlen := Z.of_nat (length opts) + ip_size in
        let last := ip_len h <=? off + len in
        let flen := if last then ip_len h - off else len in
        let foff := Z.shiftr (off - hlen) 3 + Z.land (ip_off h) (Z.lnot IP_MF) in
        let foff := if flag_set (ip_off h) IP_MF then Z.lor foff IP_MF else foff in
        let foff := if last then foff else Z.lor foff IP_MF in
        let hdr := set_iph (fun h => (if ip_size <? hlen then h <| ip_hl := Z.shiftr mhlen 2 |> else h)
                                     <| ip_off := u16 foff |> <| ip_len := u16 (flen + mhlen) |>) (p_hdr m0) in
        if negb (e_mcopy e n) then Some (inl ENOBUFS)
        else
          match m_copym_bytes (p_bytes m0) off flen with
          | None => None
          | Some data =>
              match frag_cksum (mkOpkt hdr opts data (Z.land (p_flags m0) (Z.lor M_MCAST M_BCAST)) 0 0 0) mhlen with
              | None => None
              | Some p => Some (inr p)
              end
          end
    end.

(** [for (off = hlen + len; off < ntohs(ip->ip_len); off += len)] *)
Fixpoint frag_loop (fuel : nat) (n : nat) (off : Z) : option (Z * list opkt) :=
  match fuel with
  | O => Some (0, [])
  | S fuel =>
      if off <? ip_len (p_ip m0) then
        match frag_at n off with
        | None => None
        | Some (inl err) => Some (err, [])
        | Some (inr p) =>
            match frag_loop fuel (S n) (off + len) with
            | None => None
            | Some (err, l) => Some (err, p :: l)
            end
        end
      else Some (0, [])
  end.

(** The first fragment: the packet itself, trimmed. *)
Definition first_frag : option opkt :=
  let h := p_ip m0 in
  let bytes := adj_bytes (hlen + len - ip_len h) (p_bytes m0) in
  let p := m0 <| p_payload := drop (20 + length (p_opts m0)) bytes |> in
  let p := set_ip (fun h => h <| ip_len := u16 (hlen + len) |> <| ip_off := Z.lor (ip_off h) IP_MF |>) p in
  let p := p <| p_hdr := (p_hdr p) <| ip_sum := 0 |> |> in
  if flag_set sw_csum M_CSUM_IPv4 then
    Some (p <| p_hdr := (p_hdr p) <| ip_sum := header_cksum (p_bytes p) hlen |> |>
            <| p_csum_flags := flag_clear (p_csum_flags p) M_CSUM_IPv4 |>)
  else
    match ifp with
    | Some ifp =>
        if (negb (IN_NEED_CHECKSUM e ifp M_CSUM_IPv4) || flag_set (p_csum_flags p) M_CSUM_IPv4) &&
           (ip_size <=? Z.shiftr (p_csum_data p) 16) then Some p else None
    | None => if ip_size <=? Z.shiftr (p_csum_data p) 16 then Some p else None
    end.
End fragment.

(** [ip_fragment]: the error and the fragments, in order; with an error
    everything is freed. *)
Definition ip_fragment (e : ipenv) (m : opkt) (ifp : option Z) (mtu : Z) : option (Z * list opkt) :=
  let hlen := Z.shiftl (ip_hl (p_ip m)) 2 in
  let sw_csum := match ifp with
                 | Some i => flag_clear (p_csum_flags m) (if_csum_flags_tx (e_ifnet e i))
                 | None => p_csum_flags m
                 end in
  let len := s32 (Z.land (u64 (mtu - hlen)) (Z.lnot 7)) in
  if len <? 8 then Some (EMSGSIZE, [])
  else
    match frag_loop e m ifp hlen len sw_csum (Z.to_nat (ip_len (p_ip m))) 0 (hlen + len) with
    | None => None
    | Some (error, rest) =>
        if negb (error =? 0) then Some (error, [])
        else
          match first_frag e m ifp hlen len sw_csum with
          | None => None
          | Some first =>
              match ifp with
              | Some i =>
                  if ifq_maxlen (e_ifnet e i) - ifq_len (e_ifnet e i) <? Z.of_nat (length rest)
                  then Some (ENOBUFS, []) else Some (0, first :: rest)
              | None => Some (0, first :: rest)
              end
          end
    end.

(** ** [ip_output] *)

(** The packet with the route chosen for it. *)
Record choice := mkChoice {
  c_p : opkt; c_rt : option rtentry; c_ia : option in_ifaddr; c_ifp : option Z; c_mtu : Z; c_dst : Z
}.

#[export] Instance eta_choice : EtaRecord choice :=
  fun r => mkChoice (c_p r) (c_rt r) (c_ia r) (c_ifp r) (c_mtu r) (c_dst r).

(** The jumps to [bad] and [done], with the error, or the next statement. *)
Inductive ostep (A : Type) := Stop (error : Z) | Next (a : A).
Arguments Stop {A} _.
Arguments Next {A} _.

Definition IFP_TO_IA (e : ipenv) (ifp : Z) : option in_ifaddr := head (if_addrs (e_ifnet e ifp)).

Definition is_group (a : Z) : bool := IN_MULTICAST a || (a =? INADDR_BROADCAST).

(** Options and the fields the routine fills in. *)
Definition out_header (e : ipenv) (p : opkt) (opt : option ipoption) (flags : Z) : opkt * Z :=
  let '(p, len) := match opt with Some opt => ip_insertoptions e p opt | None => (p, 0) end in
  let hlen := if ip_size <=? len then len else ip_size in
  if negb (flag_set flags (Z.lor IP_FORWARDING IP_RAWOUTPUT)) then
    (set_ip (fun h => h <| ip_off := 0 |> <| ip_hl := Z.shiftr hlen 2 |>) (p <| p_hdr := (p_hdr p) <| ip_v := IPVERSION |> |>), hlen)
  else (p, Z.shiftl (ip_hl (p_ip p)) 2).

(** The cached route or a new one: the address of the next hop so far
    ([None] is a null pointer), the route and the cache. *)
Definition out_cache (e : ipenv) (p : opkt) (ro : route) : option Z * option rtentry * route :=
  let target := ip_dst (p_ip p) in
  let dst := ro_sa ro in
  let ro := match dst with
            | Some d => if in_hosteq d target then ro else rtcache_free ro
            | None => ro
            end in
  match rtcache_validate ro with
  | Some rt => (dst, Some rt, ro)
  | None =>
      match rtcache_update (e_rtalloc1 e) ro with
      | (Some rt, ro) => (dst, Some rt, ro)
      | (None, ro) => (Some target, None, snd (rtcache_setdst (e_dup e) ro target))
      end
  end.

(** "Route packet": the interface; [None] is the dereference of a null pointer. *)
Definition out_route (e : ipenv) (p : opkt) (ro : route) (flags : Z) (imo : option ip_moptions)
    : option (ostep choice * route) :=
  let '(dst, rt, ro) := out_cache e p ro in
  match dst with
  | None => None
  | Some dst =>
      if flag_set flags IP_ROUTETOIF then
        match e_ifwithladdr e dst with
        | None => Some (Stop ENETUNREACH, ro)
        | Some ia =>
            let p := p <| p_hdr := (p_hdr p) <| ip_ttl := 1 |> |> in
            Some (Next (mkChoice p rt (Some ia) (Some (ia_ifp ia)) (if_mtu (e_ifnet e (ia_ifp ia))) dst), ro)
        end
      else
        match (if is_group (ip_dst (p_ip p)) then imo ≫= imo_multicast_ifp else None) with
        | Some ifp => Some (Next (mkChoice p rt (IFP_TO_IA e ifp) (Some ifp) (if_mtu (e_ifnet e ifp)) dst), ro)
        | None =>
            let '(rt, ro) := match rt with Some rt => (Some rt, ro) | None => rtcache_init (e_rtalloc1 e) ro end in
            match rt with
            | None => Some (Stop EHOSTUNREACH, ro)
            | Some rt =>
                let dst := if flag_set (rt_flags rt) RTF_GATEWAY then rt_gateway rt else dst in
                if rmx_mtu rt =? 0 then
                  match rt_ifp rt with
                  | None => None
                  | Some ifp => Some (Next (mkChoice p (Some rt) (Some (rt_ifa rt)) (Some ifp) (if_mtu (e_ifnet e ifp)) dst), ro)
                  end
                else Some (Next (mkChoice p (Some rt) (Some (rt_ifa rt)) (rt_ifp rt) (rmx_mtu rt) dst), ro)
            end
        end
  end.

(** [ip_mloopback]: the copy that is looped back. *)
Definition ip_mloopback (e : ipenv) (ifp : Z) (p : opkt) : option (list ipout) :=
  if negb (e_copypacket e) then Some []
  else
    match (if flag_set (p_csum_flags p) (Z.lor M_CSUM_TCPv4 M_CSUM_UDPv4) then
             match in_delayed_cksum p with
             | Some q => Some (q <| p_csum_flags := flag_clear (p_csum_flags q) (Z.lor M_CSUM_TCPv4 M_CSUM_UDPv4) |>)
             | None => None
             end
           else Some p) with
    | None => None
    | Some q =>
        let q := q <| p_hdr := (p_hdr q) <| ip_sum := 0 |> |> in
        let q := q <| p_hdr := (p_hdr q) <| ip_sum := header_cksum (p_bytes q) (Z.shiftl (ip_hl (p_ip q)) 2) |> |> in
        Some [OutLoop ifp q (ip_dst (p_ip p))]
    end.

(** Multicast and broadcast to all ones. *)
Definition out_group (e : ipenv) (c : choice) (imo : option ip_moptions) : option (list ipout * ostep choice) :=
  let p := c_p c in
  let bcast := ip_dst (p_ip p) =? INADDR_BROADCAST in
  let p := p <| p_flags := Z.lor (p_flags p) (if bcast then M_BCAST else M_MCAST) |>
             <| p_hdr := (p_hdr p) <| ip_ttl := match imo with Some imo => imo_multicast_ttl imo | None => IP_DEFAULT_MULTICAST_TTL end |> |> in
  match c_ifp c with
  | None => Some ([], Stop ENETUNREACH)
  | Some ifp =>
      let fl := if_flags (e_ifnet e ifp) in
      if (flag_set (p_flags p) M_MCAST && negb (flag_set fl IFF_MULTICAST)) ||
         (flag_set (p_flags p) M_BCAST && negb (flag_set fl (Z.lor IFF_BROADCAST IFF_POINTOPOINT)))
      then Some ([], Stop ENETUNREACH)
      else
        match (if in_nullhost (ip_src (p_ip p)) then
                 match IFP_TO_IA e ifp with
                 | None => None
                 | Some xia => Some (set_ip (fun h => h <| ip_src := ia_addr xia |>) p)
                 end
               else Some p) with
        | None => Some ([], Stop EADDRNOTAVAIL)
        | Some p =>
            match (if e_in_multi e (ip_dst (p_ip p)) ifp &&
                      match imo with None => true | Some imo => imo_multicast_loop imo end
                   then ip_mloopback e ifp p else Some []) with
            | None => None
            | Some copies =>
                if (ip_ttl (p_hdr p) =? 0) || flag_set fl IFF_LOOPBACK then Some (copies, Stop 0)
                else Some (copies, Next (c <| c_p := p |>))
            end
        end
  end.

(** Everything else. *)
Definition out_unicast (e : ipenv) (c : choice) (flags : Z) : option (ostep choice) :=
  let p := c_p c in
  match (if in_nullhost (ip_src (p_ip p)) then
           match c_ia c with
           | None => None
           | Some ia => Some (set_ip (fun h => h <| ip_src := ia_addr ia |>) p)
           end
         else Some p), c_ifp c with
  | Some p, Some ifp =>
      let ifn := e_ifnet e ifp in
      if IN_MULTICAST (ip_src (p_ip p)) then Some (Stop EADDRNOTAVAIL)
      else if in_broadcast (hostzeroisbroadcast e) (c_dst c) ifn then
        if negb (flag_set (if_flags ifn) IFF_BROADCAST) then Some (Stop EADDRNOTAVAIL)
        else if negb (flag_set flags IP_ALLOWBROADCAST) then Some (Stop EACCES)
        else if if_mtu ifn <? ip_len (p_ip p) then Some (Stop EMSGSIZE)
        else Some (Next (c <| c_p := p <| p_flags := Z.lor (p_flags p) M_BCAST |> |>))
      else Some (Next (c <| c_p := p <| p_flags := flag_clear (p_flags p) M_BCAST |> |>))
  | _, _ => None
  end.

(** The counter and the table of identifications. *)
Record ipglobals := mkIpg { g_ip_id : Z; g_ids : ipid_state }.

(** The identification; an address salts it. *)
Definition out_id (e : ipenv) (g : ipglobals) (c : choice) (hlen flags : Z) : option (choice * ipglobals) :=
  let p := c_p c in
  let salt := match c_ia c with Some ia => ia_idsalt ia | None => 0 end in
  let assign num :=
    match ip_newid_range (ip_do_randomid e) (e_random e) (g_ids g) (g_ip_id g) salt num with
    | None => None
    | Some (id, cnt, ids) => Some (c <| c_p := set_ip (fun h => h <| ip_id := id |>) p |>, mkIpg cnt ids)
    end in
  if negb (flag_set flags (Z.lor IP_FORWARDING IP_NOIPNEWID)) then
    if p_pktlen p <? IP_MINFRAGSIZE then Some (c <| c_p := set_ip (fun h => h <| ip_id := 0 |>) p |>, g)
    else if negb (flag_set (p_csum_flags p) M_CSUM_TSOv4) then assign 1
    else
      if p_segsz p =? 0 then None
      else assign (u32 (u32 (u32 (ip_len (p_ip p) - hlen) + (p_segsz p - 1)) / p_segsz p))
  else Some (c, g).

(** Path MTU discovery. *)
Definition out_df (c : choice) (flags : Z) : opkt :=
  if flag_set flags IP_MTUDISC &&
     match c_rt c with Some rt => negb (flag_set (rmx_locks rt) RTV_MTU) | None => false end
  then set_ip (fun h => h <| ip_off := Z.lor (ip_off h) IP_DF |>) (c_p c) else c_p c.

(** The flags of the header checksum. *)
Definition out_prepare (e : ipenv) (ifp : Z) (c : choice) (hlen flags : Z) : choice :=
  let p := out_df c flags in
  let p := p <| p_csum_data := Z.lor (p_csum_data p) (Z.shiftl hlen 16) |> in
  let p := if IN_NEED_CHECKSUM e ifp M_CSUM_IPv4
           then p <| p_csum_flags := Z.lor (p_csum_flags p) M_CSUM_IPv4 |> else p in
  c <| c_p := p |>.

Definition CSUM_TU : Z := Z.lor M_CSUM_TCPv4 M_CSUM_UDPv4.

(** Delayed checksums of TCP and UDP, when [sw] asks for them. *)
Definition out_delayed (e : ipenv) (ifp : Z) (sw : Z) (p : opkt) : option opkt :=
  if flag_set sw CSUM_TU then
    match (if IN_NEED_CHECKSUM e ifp (Z.land sw CSUM_TU) then in_delayed_cksum p else Some p) with
    | Some p => Some (p <| p_csum_flags := flag_clear (p_csum_flags p) CSUM_TU |>)
    | None => None
    end
  else Some p.

(** The packet fits, or the interface segments it. *)
Definition out_whole (e : ipenv) (ifp : Z) (c : choice) (hlen : Z) : option (Z * list ipout) :=
  let p := c_p c in
  let ifn := e_ifnet e ifp in
  let sw := flag_clear (p_csum_flags p) (if_csum_flags_tx ifn) in
  let tso := flag_set (p_csum_flags p) M_CSUM_TSOv4 in
  let p := p <| p_hdr := (p_hdr p) <| ip_sum := 0 |> |> in
  match (if tso then Some p
         else
           match (if flag_set sw M_CSUM_IPv4 then
                    if IN_NEED_CHECKSUM e ifp M_CSUM_IPv4 then
                      Some (p <| p_hdr := (p_hdr p) <| ip_sum := header_cksum (p_bytes p) hlen |> |>
                              <| p_csum_flags := flag_clear (p_csum_flags p) M_CSUM_IPv4 |>)
                    else None
                  else Some p) with
           | None => None
           | Some p => out_delayed e ifp sw p
           end) with
  | None => None
  | Some p =>
      let dst := if flag_set (p_flags p) M_MCAST then ip_dst (p_ip p) else c_dst c in
      let out := if negb (flag_set (p_csum_flags p) M_CSUM_TSOv4) || flag_set (if_capenable ifn) IFCAP_TSOv4
                 then OutIf ifp p dst else OutTso ifp p dst in
      Some (e_if_output e out, [out])
  end.

(** [for (; m; m = m0)]: fragments are sent up to the first error, without
    deferred checksums of TCP or UDP; the others are freed. *)
Fixpoint out_fragments (e : ipenv) (ifp dst : Z) (error : Z) (l : list opkt) : option (Z * list ipout) :=
  match l with
  | [] => Some (error, [])
  | p :: l =>
      if error =? 0 then
        if flag_set (p_csum_flags p) CSUM_TU then None
        else
          let out := OutIf ifp p (if flag_set (p_flags p) M_MCAST then ip_dst (p_ip p) else dst) in
          match out_fragments e ifp dst (e_if_output e out) l with
          | None => None
          | Some (error, outs) => Some (error, out :: outs)
          end
      else out_fragments e ifp dst error l
  end.

(** Too large for the interface. *)
Definition out_large (e : ipenv) (ifp : Z) (c : choice) : option (Z * list ipout) :=
  match out_delayed e ifp (p_csum_flags (c_p c)) (c_p c) with
  | None => None
  | Some p =>
      if flag_set (ip_off (p_ip p)) IP_DF then Some (EMSGSIZE, [])
      else
        match ip_fragment e p (Some ifp) (c_mtu c) with
        | None => None
        | Some (error, frags) =>
            if negb (error =? 0) then Some (error, []) else out_fragments e ifp (c_dst c) 0 frags
        end
  end.

(** What the caller gets back. *)
Record oresult := mkOres { r_error : Z; r_out : list ipout; r_ro : route; r_g : ipglobals; r_mtu : option Z }.

(** From [sendit] on. *)
Definition out_send (e : ipenv) (g : ipglobals) (c : choice) (hlen flags : Z) (ro : route) (copies : list ipout) : option oresult :=
  match out_id e g c hlen flags, c_ifp c with
  | Some (c, g), Some ifp =>
      let c := out_prepare e ifp c hlen flags in
      let plen := ip_len (p_ip (c_p c)) in
      if (plen <=? c_mtu c) || flag_set (p_csum_flags (c_p c)) M_CSUM_TSOv4 then
        match out_whole e ifp c hlen with
        | None => None
        | Some (error, outs) => Some (mkOres error (copies ++ outs) ro g None)
        end
      else
        match out_large e ifp c with
        | None => None
        | Some (error, outs) =>
            let mtu := if flag_set (ip_off (p_ip (c_p c))) IP_DF && flag_set flags IP_RETURNMTU then Some (c_mtu c) else None in
            Some (mkOres error (copies ++ outs) ro g mtu)
        end
  | _, _ => None
  end.

Definition ip_output (e : ipenv) (g : ipglobals) (m : opkt) (opt : option ipoption) (ro : option route) (flags : Z)
    (imo : option ip_moptions) : option oresult :=
  let '(p, hlen) := out_header e m opt flags in
  match out_route e p (default empty_route ro) flags imo with
  | None => None
  | Some (Stop error, ro) => Some (mkOres error [] ro g None)
  | Some (Next c, ro) =>
      if is_group (ip_dst (p_ip (c_p c))) then
        match out_group e c imo with
        | None => None
        | Some (copies, Stop error) => Some (mkOres error copies ro g None)
        | Some (copies, Next c) => out_send e g c hlen flags ro copies
        end
      else
        match out_unicast e c flags with
        | None => None
        | Some (Stop error) => Some (mkOres error [] ro g None)
        | Some (Next c) => out_send e g c hlen flags ro []
        end
  end.
