(* ===== verification/IpTotal.v ===== *)
(** * Small packets cannot make [ip_output] fail

    [ip_output] asserts and dereferences what its callers owe it.  A packet
    that fits the smallest MTU and wants no checksum from the interface is
    accepted in any state of the cached route that the routine itself leaves
    behind: it is sent or an error is returned, and the cached route and the
    table of identifications stay consistent. *)

From S2P Require Import Prelude IpReass IpId Ip IpOutput.

(** An entry of the routing table: it has an interface, and its MTU is that of
    the interface or at least [n]. *)
Definition rt_ok (n : Z) (rt : rtentry) : Prop := is_Some (rt_ifp rt) /\ (rmx_mtu rt = 0 \/ n <= rmx_mtu rt).

Record net_ok (n : Z) (e : ipenv) : Prop := {
  net_rt : forall d rt, e_rtalloc1 e d = Some rt -> rt_ok n rt;
  net_mtu : forall i, n <= if_mtu (e_ifnet e i)
}.

(** A cached route: no entry without an address. *)
Definition route_ok (n : Z) (ro : route) : Prop :=
  (ro_sa ro = None -> ro_rt ro = None) /\ forall rt, ro_rt ro = Some rt -> rt_ok n rt.

Definition opts_ok (opt : option ipoption) : Prop :=
  match opt with Some o => (length (ipopt_list o) <= 40)%nat | None => True end.

Lemma empty_route_ok n : route_ok n empty_route.
Proof. split; done. Qed.

Lemma rtcache_clear_sa ro : ro_sa (rtcache_clear ro) = ro_sa ro.
Proof. unfold rtcache_clear. by destruct (ro_rt ro). Qed.

Lemma rtcache_clear_rt ro : ro_rt (rtcache_clear ro) = None.
Proof. unfold rtcache_clear. by destruct (ro_rt ro) eqn:E. Qed.

Lemma rtcache_free_ok n ro : route_ok n (rtcache_free ro).
Proof. unfold rtcache_free. split; [intros _|intros rt]; upd_simpl; rewrite rtcache_clear_rt; done. Qed.

Section total.
Variables (n : Z) (e : ipenv).
Hypothesis (net : net_ok n e).

Lemma rtcache_init_ok ro : route_ok n ro -> route_ok n (rtcache_init (e_rtalloc1 e) ro).2 /\
  forall rt, (rtcache_init (e_rtalloc1 e) ro).1 = Some rt -> rt_ok n rt.
Proof using net.
  intros [R1 R2]. unfold rtcache_init. destruct (ro_sa ro) as [d|] eqn:Ed; cbn [fst snd].
  - split; [|intros rt; apply (net_rt _ _ net)]. split; [upd_simpl; congruence|]. intros rt. upd_simpl. apply (net_rt _ _ net).
  - split; [|done]. split; [intros _; by apply R1|done].
Qed.

Lemma setdst_ok dup ro d : route_ok n ro -> route_ok n (rtcache_setdst dup ro d).2.
Proof using.
  intros [R1 R2]. unfold rtcache_setdst. destruct (ro_sa ro) as [x|] eqn:Ex; [|destruct dup]; cbn [snd].
  - split; upd_simpl; [done|]. intros rt. by rewrite rtcache_clear_rt.
  - split; upd_simpl; [done|]. by rewrite R1.
  - split; [intros _; by apply R1|done].
Qed.

Lemma validate_ok ro rt : route_ok n ro -> rtcache_validate ro = Some rt -> rt_ok n rt.
Proof using.
  intros [_ R2]. unfold rtcache_validate. destruct (ro_invalid ro); [done|]. destruct (ro_rt ro) as [rt0|]; [|done].
  destruct (_ && _); [|done]. intros [= ->]. by apply R2.
Qed.

Lemma out_cache_ok p ro : route_ok n ro -> exists dst rt ro', out_cache e p ro = (Some dst, rt, ro') /\ route_ok n ro' /\ forall r, rt = Some r -> rt_ok n r.
Proof using net.
  intros R. unfold out_cache. set (ro1 := match ro_sa ro with Some d => _ | None => ro end).
  assert (route_ok n ro1) as R1. { unfold ro1. destruct (ro_sa ro); [|done]. destruct (in_hosteq _ _); [done|apply rtcache_free_ok]. }
  assert (ro_sa ro = None -> ro1 = ro) as E1 by (unfold ro1; by intros ->). clearbody ro1.
  assert (route_ok n (rtcache_clear ro1)) as R2.
  { split; [by rewrite rtcache_clear_rt|]. intros rt. by rewrite rtcache_clear_rt. }
  destruct (rtcache_validate ro1) as [rt|] eqn:Ev.
  - destruct (ro_sa ro) as [d|] eqn:Ed.
    + eexists _, _, _. split; [done|]. split; [done|]. intros r [= <-]. by apply (validate_ok ro1).
    + exfalso. rewrite (E1 eq_refl) in Ev. unfold rtcache_validate in Ev. rewrite (proj1 R Ed) in Ev. by destruct (ro_invalid ro).
  - unfold rtcache_update. destruct (rtcache_init_ok _ R2) as [R3 R4].
    destruct (rtcache_init (e_rtalloc1 e) (rtcache_clear ro1)) as [[rt|] ro2] eqn:Ei; cbn [fst snd] in *.
    + destruct (ro_sa ro) as [d|] eqn:Ed.
      * eexists _, _, _. split; [done|]. split; [done|]. intros r [= <-]. by apply R4.
      * exfalso. rewrite (E1 eq_refl) in Ei. unfold rtcache_init in Ei. by rewrite rtcache_clear_sa, Ed in Ei.
    + eexists _, _, _. split; [done|]. split; [by apply setdst_ok|]. done.
Qed.

(** A packet on its way: the interface is known, the packet fits. *)
Record chosen (c : choice) : Prop := {
  ch_ifp : is_Some (c_ifp c);
  ch_ia : is_Some (c_ia c);
  ch_mtu : n <= c_mtu c;
  ch_csum : p_csum_flags (c_p c) = 0;
  ch_len : ip_len (p_ip (c_p c)) <= n
}.

Lemma out_route_ok p ro flags : route_ok n ro -> flag_set flags IP_ROUTETOIF = false -> p_csum_flags p = 0 -> ip_len (p_ip p) <= n ->
  exists r ro', out_route e p ro flags None = Some (r, ro') /\ route_ok n ro' /\ match r with Stop _ => True | Next c => chosen c end.
Proof using net.
  intros R Fl Cs Ln. unfold out_route. destruct (out_cache_ok p ro R) as (dst & rt & ro1 & -> & R1 & Hrt). rewrite Fl.
  replace (if is_group (ip_dst (p_ip p)) then None ≫= imo_multicast_ifp else None) with (@None Z) by (by destruct (is_group _)).
  assert (exists rt' ro', (match rt with Some rt => (Some rt, ro1) | None => rtcache_init (e_rtalloc1 e) ro1 end) = (rt', ro') /\
    route_ok n ro' /\ forall r, rt' = Some r -> rt_ok n r) as (rt' & ro' & -> & R2 & Hrt').
  { destruct rt as [rt|]; [by eexists _, _|]. destruct (rtcache_init_ok _ R1) as [? ?]. destruct (rtcache_init _ _) as [x y]. by exists x, y. }
  destruct rt' as [rt'|]; [|by eexists _, _]. destruct (Hrt' _ eq_refl) as [[i Hi] Hm]. rewrite Hi.
  destruct (Z.eqb_spec (rmx_mtu rt') 0) as [Em|Nm]; eexists _, _; (split; [reflexivity|]); (split; [done|]); split; try done; cbn [c_mtu c_ifp c_ia]; first [by eexists | apply (net_mtu _ _ net) | lia].
Qed.

Lemma out_group_ok c : chosen c -> exists copies r, out_group e c None = Some (copies, r) /\ match r with Stop _ => True | Next c' => chosen c' end.
Proof using.
  intros [[i Hi] Ha Hm Hc Hl]. unfold out_group. rewrite Hi. destruct (_ || _); [by eexists _, _|].
  set (p := (c_p c) <| p_flags := _ |> <| p_hdr := _ |>). assert (p_csum_flags p = 0 /\ ip_len (p_ip p) <= n) as [Pc Pl] by done. clearbody p.
  assert (forall q, p_csum_flags q = 0 -> is_Some (ip_mloopback e i q)) as Lb.
  { intros q Eq. unfold ip_mloopback. destruct (negb _); [by eexists|]. rewrite Eq. by eexists. }
  set (r := if in_nullhost _ then _ else Some p). assert (r = None \/ exists q, r = Some q /\ p_csum_flags q = 0 /\ ip_len (p_ip q) <= n) as [->|(q & -> & Qc & Ql)].
  { unfold r. destruct (in_nullhost _); [|right; by eexists]. destruct (IFP_TO_IA e i); [right; by eexists|by left]. }
  { by eexists _, _. }
  destruct (_ && true); [destruct (Lb q Qc) as [l ->]|]; (destruct (_ || _); [by eexists _, _|]); eexists _, _; (split; [reflexivity|]); split; upd_simpl; try done; by eexists.
Qed.

Lemma out_unicast_ok c flags : chosen c -> exists r, out_unicast e c flags = Some r /\ match r with Stop _ => True | Next c' => chosen c' end.
Proof using.
  intros [[i Hi] [ia Ha] Hm Hc Hl]. unfold out_unicast. rewrite Hi, Ha.
  assert (exists q, (if in_nullhost (ip_src (p_ip (c_p c))) then Some (set_ip (fun h => h <| ip_src := ia_addr ia |>) (c_p c)) else Some (c_p c)) = Some q /\
    p_csum_flags q = 0 /\ ip_len (p_ip q) <= n) as (q & -> & Qc & Ql).
  { destruct (in_nullhost _); by eexists. }
  destruct (IN_MULTICAST _); [by eexists|]. destruct (in_broadcast _ _ _).
  - destruct (negb _); [by eexists|]. destruct (negb _); [by eexists|]. destruct (_ <? _); [by eexists|]. eexists. split; [reflexivity|].
    split; upd_simpl; try done; by eexists.
  - eexists. split; [reflexivity|]. split; upd_simpl; try done; by eexists.
Qed.

Lemma out_id_ok g c hlen flags : ids_ok (g_ids g) -> chosen c ->
  exists c' g', out_id e g c hlen flags = Some (c', g') /\ ids_ok (g_ids g') /\ chosen c'.
Proof using.
  intros K [[i Hi] [ia Ha] Hm Hc Hl]. assert (chosen c) as C by (split; try done; by eexists).
  unfold out_id. rewrite Ha, Hc. change (flag_set 0 M_CSUM_TSOv4) with false. destruct (negb (flag_set flags _)); [|by eexists _, _].
  assert (forall id, chosen (c <| c_p := set_ip (fun h => h <| ip_id := id |>) (c_p c) |>)) as Cid by (intros id; split; upd_simpl; try done; by eexists).
  destruct (_ <? _); [eexists _, _; split; [reflexivity|]; split; [done|apply Cid]|]. cbn [negb].
  unfold ip_newid_range. destruct (ip_do_randomid e); [|eexists _, _; split; [reflexivity|]; split; [done|apply Cid]].
  destruct (draw_spec (e_random e) (g_ids g) (ia_idsalt ia) [] K) as (id & ids' & -> & K' & _); [by intros ? ? ?|done|].
  eexists _, _. split; [reflexivity|]. split; [done|apply Cid].
Qed.

Lemma out_whole_ok i c hlen flags : p_csum_flags (c_p c) = 0 -> exists r, out_whole e i (out_prepare e i c hlen flags) hlen = Some r.
Proof using.
  intros Hc. unfold out_whole, out_prepare. upd_simpl. set (p := out_df c flags).
  assert (p_csum_flags p = 0) as Pc by (unfold p, out_df; by destruct (_ && _)). clearbody p.
  destruct (IN_NEED_CHECKSUM e i M_CSUM_IPv4) eqn:En; upd_simpl; rewrite Pc.
  - change (Z.lor 0 M_CSUM_IPv4) with M_CSUM_IPv4. change (flag_set M_CSUM_IPv4 M_CSUM_TSOv4) with false. cbv iota.
    set (sw := flag_clear M_CSUM_IPv4 _). assert (flag_set sw CSUM_TU = false) as Sw by (unfold sw, CSUM_TU; flag_bits; done).
    destruct (flag_set sw M_CSUM_IPv4); unfold out_delayed; rewrite Sw; by eexists.
  - change (flag_set 0 M_CSUM_TSOv4) with false. cbv iota. assert (flag_clear 0 (if_csum_flags_tx (e_ifnet e i)) = 0) as -> by done.
    change (flag_set 0 M_CSUM_IPv4) with false. unfold out_delayed. change (flag_set 0 CSUM_TU) with false. cbv iota. by eexists.
Qed.

Lemma out_send_ok g c hlen flags ro copies : ids_ok (g_ids g) -> chosen c ->
  exists r, out_send e g c hlen flags ro copies = Some r /\ r_ro r = ro /\ ids_ok (g_ids (r_g r)).
Proof using.
  intros K C. unfold out_send.
  assert (forall c' g', out_id e g c hlen flags = Some (c', g') -> c_ifp c' = c_ifp c) as Hi.
  { intros c' g'. unfold out_id. destruct (negb _); [|by intros [= <- _]]. destruct (_ <? _); [by intros [= <- _]|].
    repeat case_match; intros; simplify_eq; done. }
  destruct (out_id_ok g c hlen flags K C) as (c' & g' & Eo & K' & C'). rewrite Eo. specialize (Hi _ _ Eo). destruct C' as [[i Ei] _ Cm Cc Cl].
  rewrite <- Hi, Ei. destruct (out_whole_ok i c' hlen flags Cc) as [[error outs] Ew]. rewrite Ew.
  assert (ip_len (p_ip (c_p (out_prepare e i c' hlen flags))) <= c_mtu (out_prepare e i c' hlen flags)) as Hle.
  { unfold out_prepare. upd_simpl. unfold out_df. destruct (IN_NEED_CHECKSUM _ _ _), (_ && _); (transitivity n; [exact Cl|exact Cm]). }
  destruct (Z.leb_spec (ip_len (p_ip (c_p (out_prepare e i c' hlen flags)))) (c_mtu (out_prepare e i c' hlen flags))) as [_|?]; [|lia].
  cbn [orb]. by eexists.
Qed.

Lemma out_header_ok p opt flags : opts_ok opt -> p_csum_flags p = 0 -> 0 <= ip_len (p_ip p) -> ip_len (p_ip p) + 40 <= n -> n <= IP_MAXPACKET ->
  p_csum_flags (out_header e p opt flags).1 = 0 /\ ip_len (p_ip (out_header e p opt flags).1) <= n.
Proof using.
  intros Ho Hc H0 Hl Hn. unfold out_header.
  assert (exists q len, (match opt with Some opt => ip_insertoptions e p opt | None => (p, 0) end) = (q, len) /\ p_csum_flags q = 0 /\ ip_len (p_ip q) <= n) as (q & len & -> & Qc & Ql).
  { destruct opt as [o|]; [|eexists _, _; split; [done|]; split; [done|lia]]. simpl in Ho. unfold ip_insertoptions.
    destruct (_ <? _); [eexists _, _; split; [done|]; split; [done|lia]|].
    set (q := if in_nullhost (ipopt_dst o) then p else _). assert (p_csum_flags q = 0 /\ ip_len (p_ip q) = ip_len (p_ip p)) as [Qc Ql] by (unfold q; by destruct (in_nullhost _)).
    clearbody q. destruct (_ && _); [eexists _, _; split; [done|]; split; [done|lia]|]. eexists _, _. split; [done|]. split; [done|].
    change (u16 (ip_len (p_ip q) + Z.of_nat (length (ipopt_list o))) <= n). rewrite Ql. unfold IP_MAXPACKET in *. rewrite u16_small by lia. lia. }
  by destruct (negb _).
Qed.

(** Sent or refused with an error, and what is cached stays consistent. *)
Lemma ip_output_total g p opt ro flags : ids_ok (g_ids g) -> route_ok n ro -> opts_ok opt -> flag_set flags IP_ROUTETOIF = false ->
  p_csum_flags p = 0 -> 0 <= ip_len (p_ip p) -> ip_len (p_ip p) + 40 <= n -> n <= IP_MAXPACKET ->
  exists r, ip_output e g p opt (Some ro) flags None = Some r /\ route_ok n (r_ro r) /\ ids_ok (g_ids (r_g r)).
Proof using net.
  intros K R Ho Fl Hc H0 Hl Hn. unfold ip_output. destruct (out_header_ok p opt flags Ho Hc H0 Hl Hn) as [Qc Ql].
  destruct (out_header e p opt flags) as [q hlen]. cbn [fst] in *. change (default empty_route (Some ro)) with ro.
  destruct (out_route_ok q ro flags R Fl Qc Ql) as (r & ro' & -> & R' & C). destruct r as [err|c]; [by eexists|].
  destruct (is_group _).
  - destruct (out_group_ok c C) as (copies & r & -> & C'). destruct r as [err|c']; [by eexists|].
    destruct (out_send_ok g c' hlen flags ro' copies K C') as (r & -> & <- & ?). by eexists.
  - destruct (out_unicast_ok c flags C) as (r & -> & C'). destruct r as [err|c']; [by eexists|].
    destruct (out_send_ok g c' hlen flags ro' [] K C') as (r & -> & <- & ?). by eexists.
Qed.
End total.
