(* ===== verification/IpFragment.v ===== *)
(** * Fragmentation cuts the data of a packet

    [ip_fragment] against the layout of a datagram cut into pieces of
    [IpReassOrder]: which fragments it makes, what is in their headers and
    options, and that they fit the interface. *)

From S2P Require Import Prelude MbufFacts IpReass IpReassOrder InCksum InCksumFacts IpId Ip IpOutput.

(** [l] cut into pieces of [n]. *)
Fixpoint chop (fuel n : nat) (l : list Z) : list (list Z) :=
  match fuel with
  | O => []
  | S fuel => match l with [] => [] | _ => take n l :: chop fuel n (drop n l) end
  end.

Definition pieces (n : nat) (l : list Z) : list piece := layout 0 (chop (length l) n l).

Lemma chop_concat fuel n l : (length l <= fuel)%nat -> (0 < n)%nat -> concat (chop fuel n l) = l.
Proof.
  revert l. induction fuel as [|fuel IH]; intros l L N; destruct l as [|b l]; try done; simpl in L; [lia|].
  cbn [chop concat]. rewrite IH, take_drop; [done| |done]. rewrite length_drop. simpl. lia.
Qed.

Lemma chop_fuel fuel fuel' n l : (length l <= fuel)%nat -> (length l <= fuel')%nat -> (0 < n)%nat -> chop fuel n l = chop fuel' n l.
Proof.
  revert fuel' l. induction fuel as [|fuel IH]; intros [|fuel'] [|b l] L L' N; try done; simpl in L, L'; try lia.
  cbn [chop]. f_equal. apply IH; [rewrite length_drop; simpl; lia..|done].
Qed.

(** The pieces from [off] on are those of the rest of the data. *)
Lemma layout_chop fuel n off l : (length l <= fuel)%nat -> (0 < n)%nat -> l <> [] ->
  layout off (chop fuel n l) =
    mkPiece off (take n l) (bool_decide (n < length l)%nat) ::
    layout (off + Z.of_nat (length (take n l))) (chop (length (drop n l)) n (drop n l)).
Proof.
  intros L N Ne. destruct fuel as [|fuel]; [destruct l; simpl in L; [done|lia]|]. destruct l as [|b l]; [done|].
  cbn [chop layout]. rewrite (chop_fuel fuel (length (drop n (b :: l)))); [|rewrite length_drop; simpl in L |- *; lia|lia|done].
  f_equal. f_equal. case_bool_decide as D.
  - destruct (drop n (b :: l)) as [|c k] eqn:E; [|done]. apply (f_equal length) in E. rewrite length_drop in E. simpl in E, D. lia.
  - rewrite drop_ge by (simpl in D |- *; lia). done.
Qed.

(** Every piece but the last is a whole one. *)
Lemma chop_pieces_ok fuel n off l : (length l <= fuel)%nat -> (0 < n)%nat ->
  Forall (fun x => 0 < p_len x <= Z.of_nat n /\ (Z.of_nat n | p_off x - off) /\ off <= p_off x /\
                   (p_mff x = true -> p_len x = Z.of_nat n)) (layout off (chop fuel n l)).
Proof.
  revert off l. induction fuel as [|fuel IH]; intros off l L N; [constructor|]. destruct l as [|b l]; [constructor|].
  rewrite layout_chop by done. assert (0 < length (take n (b :: l)) <= n)%nat as Lt by (rewrite length_take; simpl; lia).
  constructor.
  - unfold p_len. cbn [p_data p_off p_mff]. split; [lia|]. split; [exists 0; lia|]. split; [lia|].
    intros D%bool_decide_eq_true. rewrite length_take. lia.
  - case (decide (n < length (b :: l))%nat) as [D|D].
    + assert (length (take n (b :: l)) = n) as En by (rewrite length_take; lia). rewrite En.
      eapply Forall_impl.
      * rewrite (chop_fuel _ fuel) by (try lia; rewrite length_drop; simpl in L |- *; lia). apply IH; [rewrite length_drop; simpl in L |- *; lia|done].
      * simpl. intros x (R & [k Dv] & O & M). split; [done|]. split; [exists (k + 1); lia|]. split; [lia|done].
    + rewrite drop_ge by lia. constructor.
Qed.

Lemma take_length_take {A} n (l : list A) : take (length (take n l)) l = take n l.
Proof.
  rewrite length_take. destruct (Nat.le_gt_cases n (length l)).
  - by rewrite Nat.min_l.
  - by rewrite Nat.min_r, !take_ge by lia.
Qed.

(** ** Options of the fragments *)

Lemma optcopy_loop_length fuel cp l : optcopy_loop fuel cp = Some l -> (length l <= length cp)%nat.
Proof.
  revert cp l. induction fuel as [|fuel IH]; intros cp l; simpl; [destruct cp; [intros [= <-]; simpl; lia|done]|].
  destruct cp as [|opt cp]; [intros [= <-]; simpl; lia|].
  destruct (_ =? IPOPT_EOL); [intros [= <-]; simpl; lia|]. destruct (_ =? IPOPT_NOP).
  { destruct (optcopy_loop fuel cp) as [l1|] eqn:E; [|done]. intros [= <-]. simpl. apply IH in E. lia. }
  destruct cp as [|olen cp]; [done|]. set (n := Z.min olen _). destruct (Z.eqb_spec n 0); [done|].
  destruct (optcopy_loop fuel (drop (Z.to_nat n) (opt :: olen :: cp))) as [l1|] eqn:E; [|done]. apply IH in E.
  rewrite length_drop in E. destruct (flag_set opt 128); intros [= <-]; [rewrite length_app, length_take|]; simpl in E |- *; lia.
Qed.

Lemma optcopy_loop_bytes fuel cp l : Forall is_byte cp -> optcopy_loop fuel cp = Some l -> Forall is_byte l.
Proof.
  revert cp l. induction fuel as [|fuel IH]; intros cp l F; simpl; [destruct cp; [intros [= <-]; constructor|done]|].
  destruct cp as [|opt cp]; [intros [= <-]; constructor|].
  destruct (_ =? IPOPT_EOL); [intros [= <-]; constructor|]. destruct (_ =? IPOPT_NOP).
  { destruct (optcopy_loop fuel cp) as [l1|] eqn:E; [|done]. intros [= <-]. constructor; [unfold is_byte, IPOPT_NOP; lia|].
    eapply IH; [|done]. by inversion F. }
  destruct cp as [|olen cp]; [done|]. set (n := Z.min olen _). destruct (Z.eqb_spec n 0); [done|].
  destruct (optcopy_loop fuel (drop (Z.to_nat n) (opt :: olen :: cp))) as [l1|] eqn:E; [|done].
  apply IH in E; [|by apply Forall_drop]. destruct (flag_set opt 128); intros [= <-]; [|done].
  apply Forall_app. split; [by apply Forall_take|done].
Qed.

(** The copied options are no longer than the original ones and fill whole words. *)
Lemma ip_optcopy_spec opts l : Forall is_byte opts -> (Z.of_nat (length opts)) mod 4 = 0 -> ip_optcopy opts = Some l ->
  Forall is_byte l /\ (length l <= length opts)%nat /\ (Z.of_nat (length l)) mod 4 = 0.
Proof.
  intros F M. unfold ip_optcopy. destruct (optcopy_loop (length opts) opts) as [k|] eqn:E; [|done]. intros [= <-].
  pose proof (optcopy_loop_length _ _ _ E) as L. pose proof (optcopy_loop_bytes _ _ _ F E) as Fk.
  unfold pad_options. set (a := Z.of_nat (length k)). pose proof (Z.mod_pos_bound (- a) 4 ltac:(lia)) as R.
  pose proof (Z.div_mod (- a) 4 ltac:(lia)) as D. pose proof (Z.div_mod (Z.of_nat (length opts)) 4 ltac:(lia)) as Do.
  rewrite length_app, length_replicate. split; [|split].
  - apply Forall_app. split; [done|]. apply Forall_replicate. unfold is_byte, IPOPT_EOL. lia.
  - unfold a in *. lia.
  - rewrite Nat2Z.inj_add, Z2Nat.id by lia. fold a. replace (a + (- a) mod 4) with ((- ((- a) / 4)) * 4) by lia. apply Z.mod_mul. lia.
Qed.

(** ** The loop *)

(** A packet of the host itself: a complete header that agrees with the
    options and the data, not a fragment. *)
Definition opkt_ok (m : opkt) : Prop :=
  iphdr_ok (p_hdr m) /\ ip_v (p_hdr m) = IPVERSION /\ 4 * ip_hl (p_ip m) = 20 + Z.of_nat (length (p_opts m)) /\
  ip_len (p_ip m) = p_pktlen m /\ Forall is_byte (p_opts m) /\ Forall is_byte (p_payload m) /\ ip_off (p_ip m) = 0.

Lemma p_pktlen_parts m : p_pktlen m = 20 + Z.of_nat (length (p_opts m)) + Z.of_nat (length (p_payload m)).
Proof. unfold p_pktlen, p_bytes. rewrite !length_app, length_ip_encode. lia. Qed.

Lemma opkt_len m : opkt_ok m ->
  ip_len (p_ip m) = 20 + Z.of_nat (length (p_opts m)) + Z.of_nat (length (p_payload m)) /\
  20 + Z.of_nat (length (p_opts m)) + Z.of_nat (length (p_payload m)) < 2 ^ 16.
Proof.
  intros (K & _ & _ & L & _). rewrite L, p_pktlen_parts. split; [done|].
  destruct K as (_ & _ & _ & R & _). unfold is_u16, p_ip in *. rewrite L, p_pktlen_parts in R. lia.
Qed.

Lemma p_bytes_drop m k : drop (20 + length (p_opts m) + k) (p_bytes m) = drop k (p_payload m).
Proof.
  unfold p_bytes. rewrite app_assoc, drop_app_ge by (rewrite length_app, length_ip_encode; lia).
  f_equal. rewrite length_app, length_ip_encode. lia.
Qed.

(** The header fields of the fragment that carries [x] behind [hl] bytes of header. *)
Definition piece_ip (h : ip) (hl : Z) (x : piece) : ip :=
  h <| ip_off := p_off x / 8 + (if p_mff x then IP_MF else 0) |> <| ip_len := hl + p_len x |>.

(** The packet [p] with the checksum of its header. *)
Definition with_cksum (p : opkt) (hl : Z) : opkt :=
  let p := p <| p_hdr := (p_hdr p) <| ip_sum := 0 |> |> in
  p <| p_hdr := (p_hdr p) <| ip_sum := header_cksum (p_bytes p) hl |> |>.

Section loop.
Variables (e : ipenv) (m : opkt) (ifp : option Z) (n : nat) (sw_csum : Z) (fopts : list Z).
Abbreviation hlen := (20 + Z.of_nat (length (p_opts m))).
Abbreviation mhlen := (20 + Z.of_nat (length fopts)).
Hypothesis m_ok : opkt_ok m.
Hypothesis n_ok : (0 < n)%nat /\ Z.of_nat n mod 8 = 0.
Hypothesis sw_ok : flag_set sw_csum M_CSUM_IPv4 = true.
Hypothesis mem_ok : forall k, e_mgethdr e k = true /\ e_mcopy e k = true.
Hypothesis fopts_ok : (if 20 <? hlen then ip_optcopy (p_opts m) else Some []) = Some fopts.
Hypothesis fopts_len : (length fopts <= length (p_opts m))%nat.

Definition frag_ip : ip := if 20 <? hlen then (p_ip m) <| ip_hl := Z.shiftr mhlen 2 |> else p_ip m.

Definition frag_pkt (x : piece) : opkt :=
  with_cksum (mkOpkt ((p_hdr m) <| iph := piece_ip frag_ip mhlen x |>) fopts (p_data x)
                (Z.land (p_flags m) (Z.lor M_MCAST M_BCAST)) 0 0 0) mhlen.

Lemma lor_mf a : 0 <= a < 2 ^ 13 -> Z.lor a IP_MF = a + IP_MF.
Proof.
  intros R. pose proof (Z.add_lor_land a IP_MF) as E. assert (Z.land a IP_MF = 0) as Z0; [|lia].
  apply Z.bits_inj'. intros i I. rewrite Z.land_spec, Z.bits_0. change IP_MF with (2 ^ 13).
  rewrite Z.pow2_bits_eqb by lia. destruct (Z.eqb_spec 13 i) as [<-|]; [|by rewrite andb_false_r].
  rewrite andb_true_r. apply Z.bits_above_log2; [lia|]. destruct (decide (a = 0)) as [->|]; [done|]. apply Z.log2_lt_pow2; lia.
Qed.

Lemma frag_at_piece k j : (j < length (p_payload m))%nat -> (8 | Z.of_nat j) ->
  frag_at e m ifp hlen (Z.of_nat n) sw_csum k (hlen + Z.of_nat j) =
  Some (inr (frag_pkt (mkPiece (Z.of_nat j) (take n (drop j (p_payload m))) (bool_decide (n < length (drop j (p_payload m)))%nat)))).
Proof.
  intros J [q Q]. destruct (opkt_len m m_ok) as [L R]. destruct (mem_ok k) as [G C]. pose proof m_ok as (_ & _ & _ & _ & _ & _ & Off).
  unfold frag_at. cbv zeta. rewrite G, C, fopts_ok, L. cbn [negb].
  replace (hlen + Z.of_nat j - hlen) with (Z.of_nat j) by lia. rewrite Off.
  replace (hlen + Z.of_nat (length (p_payload m)) <=? hlen + Z.of_nat j + Z.of_nat n)
    with (negb (bool_decide (n < length (drop j (p_payload m)))%nat)).
  2:{ rewrite length_drop. case_bool_decide; symmetry; [apply Z.leb_gt|apply Z.leb_le]; lia. }
  set (more := bool_decide (n < length (drop j (p_payload m)))%nat).
  set (data := take n (drop j (p_payload m))).
  assert ((if negb more then hlen + Z.of_nat (length (p_payload m)) - (hlen + Z.of_nat j) else Z.of_nat n) = Z.of_nat (length data)) as ->.
  { unfold data, more. rewrite length_take, length_drop. case_bool_decide as D; simpl; lia. }
  assert (m_copym_bytes (p_bytes m) (hlen + Z.of_nat j) (Z.of_nat (length data)) = Some data) as ->.
  { unfold m_copym_bytes. pose proof (p_pktlen_parts m) as Pl. unfold p_pktlen in Pl. rewrite Pl.
    assert (length data <= length (p_payload m) - j)%nat by (unfold data; rewrite length_take, length_drop; lia).
    destruct (Z.leb_spec 0 (hlen + Z.of_nat j)); [|lia]. destruct (Z.leb_spec 0 (Z.of_nat (length data))); [|lia].
    destruct (Z.leb_spec (hlen + Z.of_nat j + Z.of_nat (length data)) (hlen + Z.of_nat (length (p_payload m)))); [|lia]. simpl. f_equal.
    replace (Z.to_nat (hlen + Z.of_nat j)) with (20 + length (p_opts m) + j)%nat by lia. rewrite p_bytes_drop, Nat2Z.id.
    apply take_length_take. }
  unfold frag_cksum. rewrite sw_ok. unfold frag_pkt, with_cksum. cbv zeta. cbn [flag_set]. change (Z.land 0 (Z.lnot IP_MF)) with 0.
  change (flag_set 0 IP_MF) with false. cbv iota.
  assert (0 <= Z.of_nat j / 8 < 2 ^ 13) as Rj by (split; [apply Z.div_pos; lia|apply Z.div_lt_upper_bound; lia]).
  rewrite Z.shiftr_div_pow2, Z.add_0_r by lia. change (2 ^ 3) with 8.
  replace (u16 (if negb more then Z.of_nat j / 8 else Z.lor (Z.of_nat j / 8) IP_MF)) with (Z.of_nat j / 8 + (if more then IP_MF else 0)).
  2:{ rewrite lor_mf by done. unfold u16, IP_MF in *. destruct more; cbn [negb]; rewrite Z.mod_small; lia. }
  replace (u16 (Z.of_nat (length data) + (Z.of_nat (length fopts) + 20))) with (mhlen + Z.of_nat (length data)).
  2:{ unfold u16. rewrite Z.mod_small; [lia|]. unfold data. rewrite length_take, length_drop. lia. }
  replace (Z.of_nat (length fopts) + 20) with mhlen by lia.
  reflexivity.
Qed.

Lemma frag_loop_pieces fuel k j : (length (p_payload m) - j < fuel)%nat -> (8 | Z.of_nat j) ->
  frag_loop e m ifp hlen (Z.of_nat n) sw_csum fuel k (hlen + Z.of_nat j) =
  Some (0, frag_pkt <$> layout (Z.of_nat j) (chop (length (p_payload m)) n (drop j (p_payload m)))).
Proof.
  revert k j. induction fuel as [|fuel IH]; intros k j F D; [lia|]. destruct n_ok as [N N8]. destruct (opkt_len m m_ok) as [L R].
  cbn [frag_loop]. rewrite L. destruct (Z.ltb_spec (hlen + Z.of_nat j) (hlen + Z.of_nat (length (p_payload m)))) as [J|J].
  2:{ rewrite drop_ge by lia. by destruct (length (p_payload m)). }
  rewrite frag_at_piece by (done || lia). replace (hlen + Z.of_nat j + Z.of_nat n) with (hlen + Z.of_nat (j + n)) by lia.
  rewrite IH; [|lia|].
  2:{ rewrite Nat2Z.inj_add. apply Z.divide_add_r; [done|]. by apply Z.mod_divide. }
  rewrite (layout_chop (length (p_payload m)) n (Z.of_nat j) (drop j (p_payload m))); [|rewrite length_drop; lia|done|].
  2:{ intros E. apply (f_equal length) in E. rewrite length_drop in E. simpl in E. lia. }
  rewrite drop_drop. rewrite fmap_cons. do 3 f_equal.
  destruct (decide (j + n < length (p_payload m))%nat) as [D2|D2].
  - replace (Z.of_nat (j + n)) with (Z.of_nat j + Z.of_nat (length (take n (drop j (p_payload m)))))
      by (rewrite length_take, length_drop; lia).
    rewrite (chop_fuel (length (p_payload m)) (length (drop (j + n) (p_payload m)))); [done|rewrite length_drop; lia..|done].
  - rewrite (drop_ge _ (j + n)) by lia. by destruct (length (p_payload m)).
Qed.
End loop.

(** ** All fragments *)

(** The options of the fragment of [m] that carries [x]: the first has all
    of them, the others those that are copied; and its header. *)
Definition piece_opts (m : opkt) (fopts : list Z) (x : piece) : list Z := if p_off x =? 0 then p_opts m else fopts.

Definition piece_hdr (m : opkt) (fopts : list Z) (x : piece) : iphdr :=
  let hl := 20 + Z.of_nat (length (piece_opts m fopts x)) in
  p_hdr (with_cksum (mkOpkt ((p_hdr m) <| iph := piece_ip (if p_off x =? 0 then p_ip m else frag_ip m fopts) hl x |>)
                       (piece_opts m fopts x) (p_data x) 0 0 0 0) hl).

(** [p] is that fragment: its header is well formed and the receiver's check
    of the checksum succeeds. *)
Definition carries (m : opkt) (fopts : list Z) (p : opkt) (x : piece) : Prop :=
  p_opts p = piece_opts m fopts x /\ p_payload p = p_data x /\ p_hdr p = piece_hdr m fopts x /\ iphdr_ok (p_hdr p) /\
  header_cksum (p_bytes p) (20 + Z.of_nat (length (p_opts p))) = 0.

(** A packet that gets its checksum passes the check. *)
Lemma with_cksum_verifies p : iphdr_ok (p_hdr p) -> ip_v (p_hdr p) = IPVERSION -> Forall is_byte (p_opts p) -> Forall is_byte (p_payload p) ->
  p_pktlen p < 2 ^ 31 ->
  let hl := 20 + Z.of_nat (length (p_opts p)) in
  is_u16 (ip_sum (p_hdr (with_cksum p hl))) /\ header_cksum (p_bytes (with_cksum p hl)) hl = 0.
Proof.
  intros K V Fo Fp L hl. rewrite p_pktlen_parts in L. apply (header_cksum_verifies (p_hdr p) (p_opts p) (p_payload p)); done.
Qed.

Lemma piece_ip_ok h hl x : iphdr_ok h -> 0 <= p_off x < 2 ^ 16 -> 0 <= hl -> hl + p_len x < 2 ^ 16 ->
  forall f, (f = iph h \/ exists k, 0 <= k < 16 /\ f = (iph h) <| ip_hl := k |>) -> iphdr_ok (h <| iph := piece_ip f hl x |>).
Proof.
  intros (V & Hl & T & L & I & O & Tt & P & S & Sr & D) R Hp Len f E.
  assert (0 <= p_off x / 8 < 2 ^ 13) by (split; [apply Z.div_pos|apply Z.div_lt_upper_bound]; lia). unfold p_len in *.
  assert (is_u16 (p_off x / 8 + (if p_mff x then IP_MF else 0))) as Of by (unfold is_u16, IP_MF; destruct (p_mff x); lia).
  assert (is_u16 (hl + Z.of_nat (length (p_data x)))) as Le by (unfold is_u16; lia).
  unfold iphdr_ok, piece_ip. upd_simpl. destruct E as [->|(k & Rk & ->)]; upd_simpl; tauto.
Qed.

Section fragments.
Variables (e : ipenv) (m : opkt) (i mtu : Z) (fopts : list Z).
Abbreviation hlen := (20 + Z.of_nat (length (p_opts m))).
Abbreviation len := ((mtu - hlen) / 8 * 8).
Hypothesis m_ok : opkt_ok m.
Hypothesis mem_ok : forall k, e_mgethdr e k = true /\ e_mcopy e k = true.
Hypothesis fopts_ok : (if 20 <? hlen then ip_optcopy (p_opts m) else Some []) = Some fopts.
Hypothesis csum_ok : flag_set (flag_clear (p_csum_flags m) (if_csum_flags_tx (e_ifnet e i))) M_CSUM_IPv4 = true.
Hypothesis mtu_ok : hlen + 8 <= mtu < ip_len (p_ip m).

Lemma fopts_facts : Forall is_byte fopts /\ (length fopts <= length (p_opts m))%nat /\ (Z.of_nat (length fopts)) mod 4 = 0.
Proof.
  destruct m_ok as (_ & _ & H & _ & F & _). destruct (20 <? hlen).
  - eapply ip_optcopy_spec; [done| |done]. replace (Z.of_nat (length (p_opts m))) with ((ip_hl (p_ip m) - 5) * 4) by lia. apply Z.mod_mul. lia.
  - injection fopts_ok as <-. repeat split; try constructor. simpl. lia.
Qed.

Lemma len_range : 8 <= len <= mtu - hlen /\ len mod 8 = 0 /\ mtu < 2 ^ 16.
Proof.
  destruct (opkt_len m m_ok) as [L R]. pose proof (Z.div_mod (mtu - hlen) 8 ltac:(lia)).
  pose proof (Z.mod_pos_bound (mtu - hlen) 8 ltac:(lia)). rewrite Z.mod_mul by lia. lia.
Qed.

Lemma fragment_len : s32 (Z.land (u64 (mtu - Z.shiftl (ip_hl (p_ip m)) 2)) (Z.lnot 7)) = len.
Proof.
  destruct m_ok as (_ & _ & H & _). rewrite Z.shiftl_mul_pow2 by lia. change (2 ^ 2) with 4. rewrite Z.mul_comm, H.
  pose proof len_range. rewrite u64_small by lia. change 7 with (Z.ones 3). rewrite <- Z.ldiff_land, Z.ldiff_ones_r by lia.
  rewrite Z.shiftl_mul_pow2, Z.shiftr_div_pow2 by lia. change (2 ^ 3) with 8. apply s32_small. lia.
Qed.

Definition first_piece : piece := mkPiece 0 (take (Z.to_nat len) (p_payload m)) true.

Lemma first_frag_carries : exists p,
  first_frag e m (Some i) hlen len (flag_clear (p_csum_flags m) (if_csum_flags_tx (e_ifnet e i))) = Some p /\
  carries m fopts p first_piece /\ p_pktlen p = hlen + len /\
  p_csum_flags p = flag_clear (p_csum_flags m) M_CSUM_IPv4 /\ p_flags p = p_flags m.
Proof.
  pose proof m_ok as (K & V & H & Lp & Fo & Fp & Off). destruct (opkt_len m m_ok) as [L R]. pose proof len_range as (Ln & _).
  unfold first_frag. rewrite csum_ok. cbv zeta.
  assert (drop (20 + length (p_opts m)) (adj_bytes (hlen + len - ip_len (p_ip m)) (p_bytes m)) = take (Z.to_nat len) (p_payload m)) as E.
  { unfold adj_bytes. destruct (Z.leb_spec 0 (hlen + len - ip_len (p_ip m))); [lia|].
    pose proof (p_pktlen_parts m) as Pl. unfold p_pktlen in Pl.
    match goal with |- drop _ (take ?k _) = _ => replace k with (20 + length (p_opts m) + Z.to_nat len)%nat by lia end.
    rewrite <- take_drop_commute. f_equal. rewrite <- (Nat.add_0_r (20 + length (p_opts m))), p_bytes_drop. done. }
  rewrite E. set (p0 := set_ip _ (m <| p_payload := take (Z.to_nat len) (p_payload m) |>)).
  exists ((with_cksum p0 hlen) <| p_csum_flags := flag_clear (p_csum_flags m) M_CSUM_IPv4 |>). split; [reflexivity|].
  assert (length (take (Z.to_nat len) (p_payload m)) = Z.to_nat len) as Lt by (rewrite length_take; lia).
  assert (p_hdr p0 = (p_hdr m) <| iph := piece_ip (p_ip m) hlen first_piece |>) as Eh.
  { unfold p0, set_ip, set_iph, piece_ip, first_piece, p_len. upd_simpl. cbn [p_off p_mff p_data]. rewrite Lt. unfold p_ip in *. rewrite Off.
    unfold u16. rewrite Z.mod_small by lia. do 2 f_equal. rewrite Z2Nat.id by lia. by destruct (iph (p_hdr m)). }
  assert (iphdr_ok (p_hdr p0)) as K0.
  { rewrite Eh. apply piece_ip_ok; [done| | | |by left]; unfold first_piece, p_len; cbn [p_off p_data]; try lia. }
  destruct (with_cksum_verifies p0 K0) as [S0 C0].
  - rewrite Eh. upd_simpl. done.
  - done.
  - by apply Forall_take.
  - rewrite p_pktlen_parts. unfold p0, set_ip. upd_simpl. rewrite Lt. lia.
  - split; [|split; [|done]].
    + split; [done|]. split; [done|]. split; [|split; [|exact C0]].
      * unfold piece_hdr, with_cksum, piece_opts. cbv zeta. upd_simpl. unfold p_bytes. upd_simpl. rewrite Eh. reflexivity.
      * revert S0 K0. clear. unfold with_cksum. cbv zeta. upd_simpl. unfold iphdr_ok. upd_simpl. tauto.
    + rewrite p_pktlen_parts. unfold with_cksum, p0, set_ip. cbv zeta. upd_simpl. rewrite Lt. lia.
Qed.

(** A fragment that has been copied. *)
Lemma frag_pkt_carries x : 0 < p_off x < 2 ^ 16 -> 0 < p_len x <= len -> Forall is_byte (p_data x) ->
  carries m fopts (frag_pkt m fopts x) x /\ p_pktlen (frag_pkt m fopts x) <= mtu /\ p_csum_flags (frag_pkt m fopts x) = 0.
Proof.
  intros Ro Rl Fx. pose proof m_ok as (K & V & H & Lp & Fo & Fp & Off). destruct (opkt_len m m_ok) as [L R].
  pose proof len_range as (Ln & _). destruct fopts_facts as (Ff & Lf & M4).
  unfold frag_pkt. set (p0 := mkOpkt _ fopts (p_data x) _ 0 0 0).
  assert (iphdr_ok (p_hdr p0)) as K0.
  { apply piece_ip_ok; [done|lia|lia|lia|]. unfold frag_ip. destruct (20 <? hlen); [right|by left]. eexists. split; [|done].
    rewrite Z.shiftr_div_pow2 by lia. change (2 ^ 2) with 4. destruct K as (_ & Hl & _). unfold p_ip in H.
    split; [apply Z.div_pos; lia|apply Z.div_lt_upper_bound; lia]. }
  destruct (with_cksum_verifies p0 K0) as [S0 C0]; [done|done|done| |].
  { rewrite p_pktlen_parts. unfold p0. cbn [p_opts p_payload]. unfold p_len in Rl. lia. }
  split; [|split; [|done]].
  - unfold carries, piece_hdr, piece_opts. cbv zeta. destruct (Z.eqb_spec (p_off x) 0); [lia|].
    split; [done|]. split; [done|]. split; [reflexivity|]. split; [|exact C0].
    revert S0 K0. clear. unfold with_cksum. cbv zeta. upd_simpl. unfold iphdr_ok. upd_simpl. tauto.
  - rewrite p_pktlen_parts. unfold with_cksum, p0. cbv zeta. upd_simpl. cbn [p_opts p_payload]. unfold p_len in Rl. lia.
Qed.

Lemma pieces_first : pieces (Z.to_nat len) (p_payload m) =
  first_piece :: layout len (chop (length (p_payload m)) (Z.to_nat len) (drop (Z.to_nat len) (p_payload m))).
Proof.
  destruct (opkt_len m m_ok) as [L R]. pose proof len_range as (Ln & _).
  assert (p_payload m <> []) as Ne by (destruct (p_payload m); [simpl in *; lia|done]).
  unfold pieces. rewrite layout_chop by (done || lia). unfold first_piece.
  rewrite bool_decide_true by lia. f_equal. rewrite length_take, Nat.min_l, Z2Nat.id by lia.
  rewrite (chop_fuel (length (p_payload m)) (length (drop (Z.to_nat len) (p_payload m)))); [done|rewrite ?length_drop; lia..].
Qed.

Lemma pieces_bytes off k l x : Forall is_byte l -> x ∈ layout off (chop k (Z.to_nat len) l) -> Forall is_byte (p_data x).
Proof.
  revert off l. induction k as [|k IH]; intros off l F; simpl; [by intros ?%not_elem_of_nil|].
  destruct l as [|b l]; [by intros ?%not_elem_of_nil|]. cbn [layout]. intros [->|Hx]%elem_of_cons.
  - by apply Forall_take.
  - eapply IH; [|exact Hx]. by apply Forall_drop.
Qed.

Lemma Forall2_map_layout {A} (f : piece -> A) (P : A -> piece -> Prop) (Q : A -> Prop) l :
  (forall x, x ∈ l -> P (f x) x /\ Q (f x)) -> Forall2 P (f <$> l) l /\ Forall Q (f <$> l).
Proof.
  induction l as [|x l IH]; intros H; [by split; constructor|]. destruct (H x ltac:(left)) as [P1 Q1].
  destruct IH as [F1 F2]; [intros y Hy; apply H; by right|]. by split; constructor.
Qed.

Lemma copied_range x : x ∈ layout len (chop (length (p_payload m)) (Z.to_nat len) (drop (Z.to_nat len) (p_payload m))) ->
  0 < p_off x < 2 ^ 16 /\ 0 < p_len x <= len.
Proof.
  intros Hx. destruct (opkt_len m m_ok) as [L R]. pose proof len_range as (Ln & _).
  pose proof (chop_pieces_ok (length (p_payload m)) (Z.to_nat len) len (drop (Z.to_nat len) (p_payload m))
                ltac:(rewrite length_drop; lia) ltac:(lia)) as F.
  rewrite Forall_forall in F. destruct (F x Hx) as (Rl & _ & Ro & _). rewrite Z2Nat.id in Rl by lia.
  pose proof (layout_bounds _ _ _ Hx) as B. unfold p_end, p_total in B. rewrite layout_data, chop_concat in B by (rewrite ?length_drop; lia).
  rewrite length_drop in B. lia.
Qed.

Lemma ip_fragment_ok : Z.of_nat (length (pieces (Z.to_nat len) (p_payload m))) - 1 <= ifq_maxlen (e_ifnet e i) - ifq_len (e_ifnet e i) ->
  exists frags, ip_fragment e m (Some i) mtu = Some (0, frags) /\
    Forall2 (carries m fopts) frags (pieces (Z.to_nat len) (p_payload m)) /\
    Forall (fun p => p_pktlen p <= mtu /\ (p_csum_flags p = flag_clear (p_csum_flags m) M_CSUM_IPv4 \/ p_csum_flags p = 0)) frags.
Proof.
  intros Q. pose proof m_ok as (K & V & H & Lp & Fo & Fp & Off). destruct (opkt_len m m_ok) as [L R].
  pose proof len_range as (Ln & L8 & Lm). destruct fopts_facts as (Ff & Lf & M4).
  destruct first_frag_carries as (first & E1 & C1 & S1 & Fl1 & _).
  rewrite pieces_first in Q |- *. cbn [length] in Q.
  unfold ip_fragment. cbv zeta. rewrite fragment_len. replace (Z.shiftl (ip_hl (p_ip m)) 2) with hlen by (rewrite Z.shiftl_mul_pow2 by lia; lia).
  destruct (Z.ltb_spec len 8); [lia|].
  pose proof (frag_loop_pieces e m (Some i) (Z.to_nat len) _ fopts m_ok ltac:(split; [lia|by rewrite Z2Nat.id by lia]) csum_ok mem_ok fopts_ok Lf
    (Z.to_nat (ip_len (p_ip m))) 0 (Z.to_nat len) ltac:(lia)) as E2.
  rewrite !Z2Nat.id in E2 by lia. rewrite E2 by (by apply Z.mod_divide). cbn [negb]. change (0 =? 0) with true. cbn [negb]. rewrite E1, length_fmap.
  destruct (Z.ltb_spec (ifq_maxlen (e_ifnet e i) - ifq_len (e_ifnet e i))
    (Z.of_nat (length (layout len (chop (length (p_payload m)) (Z.to_nat len) (drop (Z.to_nat len) (p_payload m))))))); [lia|].
  eexists. split; [reflexivity|].
  destruct (Forall2_map_layout (frag_pkt m fopts) (carries m fopts)
    (fun p => p_pktlen p <= mtu /\ (p_csum_flags p = flag_clear (p_csum_flags m) M_CSUM_IPv4 \/ p_csum_flags p = 0))
    (layout len (chop (length (p_payload m)) (Z.to_nat len) (drop (Z.to_nat len) (p_payload m))))) as [F1 F2].
  { intros x Hx. destruct (copied_range x Hx) as [Ro Rl].
    destruct (frag_pkt_carries x Ro Rl) as (C & S & Fl); [eapply pieces_bytes; [|exact Hx]; by apply Forall_drop|].
    split; [done|]. split; [done|by right]. }
  split; [by constructor|]. constructor; [|done]. split; [lia|by left].
Qed.
End fragments.

(** The bytes that the fragments carry, one after the other. *)
Lemma carries_payload m fopts frags xs : Forall2 (carries m fopts) frags xs -> p_payload <$> frags = p_data <$> xs.
Proof. induction 1 as [|p x l k (_ & E & _) _ IH]; [done|]. csimpl. by rewrite E, IH. Qed.

(** C33. Fragmentation of a packet with any options that is larger than the MTU:
    every fragment fits; the fragments carry consecutive pieces of the data,
    all but the last a multiple of 8 bytes, that together are the data; their
    headers have the offset, the more-fragments flag and the length of the
    piece; the first has all options, the others those that are to be copied,
    padded to whole words; all headers have a valid checksum. *)
Theorem ip_fragment_pieces e m i mtu fopts : opkt_ok m -> (forall k, e_mgethdr e k = true /\ e_mcopy e k = true) ->
  (if 20 <? 20 + Z.of_nat (length (p_opts m)) then ip_optcopy (p_opts m) else Some []) = Some fopts ->
  flag_set (flag_clear (p_csum_flags m) (if_csum_flags_tx (e_ifnet e i))) M_CSUM_IPv4 = true ->
  20 + Z.of_nat (length (p_opts m)) + 8 <= mtu < ip_len (p_ip m) ->
  let n := (mtu - (20 + Z.of_nat (length (p_opts m)))) / 8 * 8 in
  let xs := pieces (Z.to_nat n) (p_payload m) in
  Z.of_nat (length xs) - 1 <= ifq_maxlen (e_ifnet e i) - ifq_len (e_ifnet e i) ->
  exists frags, ip_fragment e m (Some i) mtu = Some (0, frags) /\ Forall2 (carries m fopts) frags xs /\
    Forall (fun p => p_pktlen p <= mtu) frags /\ concat (p_payload <$> frags) = p_payload m.
Proof.
  intros K M F C L n xs Q. destruct (ip_fragment_ok e m i mtu fopts K M F C L Q) as (frags & E & F2 & S).
  exists frags. split; [done|]. split; [done|]. split; [eapply Forall_impl; [exact S|]; tauto|].
  rewrite (carries_payload _ _ _ _ F2). unfold pieces. rewrite layout_data. apply chop_concat; [done|].
  pose proof (len_range m mtu K L) as (R & _). fold n in R. lia.
Qed.

(** An interface with an MTU of 72 and a packet with a record-route option,
    which is not copied, and a security option, which is. *)
Definition ex_ifnet : ifnet := mkIf (Z.lor IFF_UP IFF_BROADCAST) 72 0 0 0 50 0 [].
Definition ex_ipenv : ipenv :=
  mkIpenv (fun _ => ex_ifnet) (fun _ => None) (fun _ => None) (fun _ _ => false) (fun _ => 0) true (fun _ => true) (fun _ => true)
    true 100 0 false false false false true.
Definition ex_opts : list Z := [7; 3; 4; 130; 5; 1; 2; 3].
Definition ex_opkt : opkt :=
  mkOpkt (mkIph (mkIp 7 0 128 7 0 17 0x0100000a 0x0200000a) 4 64 0) ex_opts (Z.of_nat <$> seq 0 100) 0 M_CSUM_IPv4 0 0.

Lemma ex_opkt_ok : opkt_ok ex_opkt.
Proof.
  unfold opkt_ok, iphdr_ok, is_u8, is_u16, is_u32. simpl ip_hl. repeat split; vm_compute; try congruence; repeat constructor; congruence.
Qed.

Lemma ip_fragment_pieces_witness : exists frags, ip_fragment ex_ipenv ex_opkt (Some 1) 72 = Some (0, frags) /\
  Forall2 (carries ex_opkt [130; 5; 1; 2; 3; 0; 0; 0]) frags (pieces 40 (Z.of_nat <$> seq 0 100)) /\
  Forall (fun p => p_pktlen p <= 72) frags /\ concat (p_payload <$> frags) = (Z.of_nat <$> seq 0 100).
Proof.
  apply (ip_fragment_pieces ex_ipenv ex_opkt 1 72 [130; 5; 1; 2; 3; 0; 0; 0] ex_opkt_ok);
    [done|reflexivity|reflexivity|vm_compute; split; congruence|vm_compute; congruence].
Defined.
