(* ===== verification/IpInput.v ===== *)
(** * Receiving IP packets (src/netbsd/netinet/ip_input.c)

    A packet is the bytes of its mbuf chain with what the chain says of
    them: the bytes in the first mbuf, the interface, the flags.  [None] as
    a result is an access outside of the options or of the packet.  The
    routing table, the addresses of the interfaces, memory and the clock are
    in the environments [ipenv] and [inenv]. *)

From S2P Require Import Prelude MbufFacts IpReass InCksum IpId Ip IpOutput.

Definition IN_IFADDR_HASH_SIZE : Z := 509.
Definition IPOPT_RR : Z := 7.
Definition IPOPT_TS : Z := 68.
Definition IPOPT_LSRR : Z := 131.
Definition IPOPT_SSRR : Z := 137.
Definition IPOPT_MINOFF : Z := 4.
Definition IPOPT_TS_TSONLY : Z := 0.
Definition IPOPT_TS_TSANDADDR : Z := 1.
Definition IPOPT_TS_PRESPEC : Z := 3.
Definition ICMP_UNREACH : Z := 3.
Definition ICMP_UNREACH_NET : Z := 0.
Definition ICMP_UNREACH_HOST : Z := 1.
Definition ICMP_UNREACH_NEEDFRAG : Z := 4.
Definition ICMP_UNREACH_SRCFAIL : Z := 5.
Definition ICMP_UNREACH_NET_PROHIB : Z := 9.
Definition ICMP_REDIRECT : Z := 5.
Definition ICMP_REDIRECT_HOST : Z := 1.
Definition ICMP_TIMXCEED : Z := 11.
Definition ICMP_TIMXCEED_INTRANS : Z := 0.
Definition ICMP_PARAMPROB : Z := 12.
Definition IPTTLDEC : Z := 1.

Record ipkt := mkIpkt { i_bytes : list Z; i_mlen : Z; i_rcvif : Z; i_csum_flags : Z; i_flags : Z }.

#[export] Instance eta_ipkt : EtaRecord ipkt :=
  fun r => mkIpkt (i_bytes r) (i_mlen r) (i_rcvif r) (i_csum_flags r) (i_flags r).

Record inenv := mkInenv {
  n_out : ipenv;                              (* what ip_output needs *)
  n_ifaddrs : list in_ifaddr;                 (* in_ifaddrhead *)
  n_ifaddrhash : list (list in_ifaddr);       (* in_ifaddrhashtbl *)
  n_ifwithaddr : Z -> option in_ifaddr;
  n_ifpforaddr : Z -> Z -> option in_ifaddr;  (* ifaof_ifpforaddr: address, interface *)
  n_pullup : Z -> list Z -> option (list Z);  (* m_pullup *)
  n_time : Z;                                 (* iptime() *)
  n_malloc : bool; n_mcopy : bool;
  ip_checkinterface : bool; ipforwarding : bool; ipsendredirects : bool;
  ip_allowsrcrt : bool; ip_forwsrcrt : bool; ip_directedbcast : bool
}.

(** The saved source route: [sr_opt] is the memory of [srcopt] and [route]. *)
Record srcroute := mkSrcrt { sr_dst : Z; sr_opt : list Z }.

Record instate := mkInst {
  s_reass : reass_globals; s_nhops : Z; s_srcrt : srcroute; s_fwd : route; s_ipg : ipglobals
}.

#[export] Instance eta_instate : EtaRecord instate :=
  fun r => mkInst (s_reass r) (s_nhops r) (s_srcrt r) (s_fwd r) (s_ipg r).

(** ** Options *)

(** [n] bytes written at [off] of the options. *)
Definition poke (off : nat) (bytes l : list Z) : option (list Z) :=
  if bool_decide (off + length bytes <= length l)%nat
  then Some (take off l ++ bytes ++ drop (off + length bytes) l) else None.

(** Four bytes at [off]. *)
Definition peek4 (off : nat) (l : list Z) : option Z :=
  if bool_decide (off + 4 <= length l)%nat then Some (le_val (take 4 (drop off l))) else None.

(** [save_rte] of the option at [pos]; its length has been read as [olen]. *)
Definition save_rte (opt : list Z) (dst : Z) (s : instate) : instate :=
  let olen := Z.of_nat (length opt) in
  if 43 <? olen then s
  else s <| s_srcrt := mkSrcrt dst (opt ++ drop (length opt) (sr_opt (s_srcrt s))) |>
         <| s_nhops := (olen - 3) / 4 |>.

(** The [i]-th address of the saved route. *)
Definition sr_route (s : instate) (i : nat) : list Z := take 4 (drop (3 + 4 * i) (sr_opt (s_srcrt s))).

(** [ip_srcroute]: the route of a reply, as socket options have it; [got]
    tells whether there is an mbuf. *)
Definition ip_srcroute (got : bool) (s : instate) : option ipoption :=
  if (s_nhops s =? 0) || negb got then None
  else
    let n := Z.to_nat (s_nhops s) in
    let hops := sr_route s <$> rev (seq 0 (n - 1)) in
    Some (mkIpopt (le_val (sr_route s (n - 1)))
            (IPOPT_NOP :: take 2 (sr_opt (s_srcrt s)) ++ IPOPT_MINOFF :: concat hops ++ le_bytes 4 (sr_dst (s_srcrt s)))).

(** The variables of [ip_dooptions]. *)
Record ostate := mkOst { o_opts : list Z; o_dst : Z; o_forward : bool; o_in : instate }.

#[export] Instance eta_ostate : EtaRecord ostate := fun r => mkOst (o_opts r) (o_dst r) (o_forward r) (o_in r).

(** The end of one option: [goto bad] with type and code, or the next option. *)
Inductive optstep := OptBad (type code : Z) (st : ostate) | OptNext (st : ostate).

Section options.
Variables (e : inenv) (ipsrc rcvif : Z) (dst0 : Z).

Definition at_opt (st : ostate) (i : nat) : option Z := o_opts st !! i.

(** [IPOPT_LSRR] and [IPOPT_SSRR] at [pos], of length [optlen]. *)
Definition opt_source (pos : nat) (opt optlen : Z) (st : ostate) : option optstep :=
  let here := Z.of_nat pos + 20 in
  if negb (ip_allowsrcrt e) then Some (OptBad ICMP_UNREACH ICMP_UNREACH_NET_PROHIB st)
  else if optlen <? 3 then Some (OptBad ICMP_PARAMPROB (here + 1) st)
  else
    off ← at_opt st (pos + 2);
    if off <? IPOPT_MINOFF then Some (OptBad ICMP_PARAMPROB (here + 2) st)
    else
      match n_ifwithaddr e (o_dst st) with
      | None => Some (if opt =? IPOPT_SSRR then OptBad ICMP_UNREACH ICMP_UNREACH_SRCFAIL st else OptNext st)
      | Some _ =>
          let off := off - 1 in
          if optlen <? off + 4 then
            Some (OptNext (st <| o_in := save_rte (take (Z.to_nat optlen) (drop pos (o_opts st))) ipsrc (o_in st) |>))
          else
            let at_ := (pos + Z.to_nat off)%nat in
            next ← peek4 at_ (o_opts st);
            let '(ia, fwd) :=
              if opt =? IPOPT_SSRR then (e_ifwithladdr (n_out e) next, s_fwd (o_in st))
              else let '(rt, fwd) := rtcache_lookup (e_rtalloc1 (n_out e)) (e_dup (n_out e)) (s_fwd (o_in st)) next in
                   (rt_ifa <$> rt, fwd) in
            let st := st <| o_in := (o_in st) <| s_fwd := fwd |> |> in
            match ia with
            | None => Some (OptBad ICMP_UNREACH ICMP_UNREACH_SRCFAIL st)
            | Some ia =>
                l ← poke at_ (le_bytes 4 (ia_addr ia)) (o_opts st);
                l ← poke (pos + 2) [u8 (off + 1 + 4)] l;
                Some (OptNext (st <| o_opts := l |> <| o_dst := next |> <| o_forward := negb (IN_MULTICAST next) |>))
            end
      end.

(** [IPOPT_RR]. *)
Definition opt_record (pos : nat) (optlen : Z) (st : ostate) : option optstep :=
  let here := Z.of_nat pos + 20 in
  if optlen <? 3 then Some (OptBad ICMP_PARAMPROB (here + 1) st)
  else
    off ← at_opt st (pos + 2);
    if off <? IPOPT_MINOFF then Some (OptBad ICMP_PARAMPROB (here + 2) st)
    else
      let off := off - 1 in
      if optlen <? off + 4 then Some (OptNext st)
      else
        let '(ia, fwd) :=
          match n_ifwithaddr e (o_dst st) with
          | Some ia => (Some ia, s_fwd (o_in st))
          | None =>
              let '(rt, fwd) := rtcache_lookup (e_rtalloc1 (n_out e)) (e_dup (n_out e)) (s_fwd (o_in st)) (o_dst st) in
              (rt_ifa <$> rt, fwd)
          end in
        let st := st <| o_in := (o_in st) <| s_fwd := fwd |> |> in
        match ia with
        | None => Some (OptBad ICMP_UNREACH ICMP_UNREACH_HOST st)
        | Some ia =>
            l ← poke (pos + Z.to_nat off) (le_bytes 4 (ia_addr ia)) (o_opts st);
            l ← poke (pos + 2) [u8 (off + 1 + 4)] l;
            Some (OptNext (st <| o_opts := l |>))
        end.

(** The address part of a timestamp: the options and [ipt_ptr], or
    [continue], or an error. *)
Inductive tsaddr := TsBad | TsContinue | TsGo (l : list Z) (ptr : Z).

Definition ts_address (pos : nat) (optlen flg ptr : Z) (st : ostate) : option tsaddr :=
  let cp0 := (pos + Z.to_nat (ptr - 1))%nat in
  if flg =? IPOPT_TS_TSONLY then Some (TsGo (o_opts st) ptr)
  else if flg =? IPOPT_TS_TSANDADDR then
    if optlen <? ptr - 1 + 4 + 4 then Some TsBad
    else
      match n_ifpforaddr e dst0 rcvif with
      | None => Some TsContinue
      | Some ia => l ← poke cp0 (le_bytes 4 (ia_addr ia)) (o_opts st); Some (TsGo l (u8 (ptr + 4)))
      end
  else if flg =? IPOPT_TS_PRESPEC then
    if optlen <? ptr - 1 + 4 + 4 then Some TsBad
    else
      a ← peek4 cp0 (o_opts st);
      match n_ifwithaddr e a with
      | None => Some TsContinue
      | Some _ => Some (TsGo (o_opts st) (u8 (ptr + 4)))
      end
  else Some TsBad.

(** [IPOPT_TS]. *)
Definition opt_timestamp (pos : nat) (optlen : Z) (st : ostate) : option optstep :=
  let here := Z.of_nat pos + 20 in
  if (optlen <? 4) || (40 <? optlen) then Some (OptBad ICMP_PARAMPROB (here + 1) st)
  else
    ptr ← at_opt st (pos + 2);
    fo ← at_opt st (pos + 3);
    if ptr <? 5 then Some (OptBad ICMP_PARAMPROB (here + 2) st)
    else if optlen - 4 <? ptr then
      let oflw := Z.land (Z.shiftr fo 4 + 1) 0xf in
      l ← poke (pos + 3) [Z.land fo 0xf + Z.shiftl oflw 4] (o_opts st);
      let st := st <| o_opts := l |> in
      Some (if oflw =? 0 then OptBad ICMP_PARAMPROB (here + 2) st else OptNext st)
    else
      r ← ts_address pos optlen (Z.land fo 0xf) ptr st;
      match r with
      | TsBad =>
          (* the flag byte follows the pointer *)
          Some (OptBad ICMP_PARAMPROB (if (Z.land fo 0xf =? IPOPT_TS_TSANDADDR) || (Z.land fo 0xf =? IPOPT_TS_PRESPEC)
                                       then here + 2 else here + 3) st)
      | TsContinue => Some (OptNext st)
      | TsGo l ptr =>
          l ← poke (pos + 2) [ptr] l;
          l ← poke (pos + Z.to_nat (ptr - 1)) (le_bytes 4 (n_time e)) l;
          l ← poke (pos + 2) [u8 (ptr + 4)] l;
          Some (OptNext (st <| o_opts := l |>))
      end.

(** The loop over the options from [pos] on. *)
Fixpoint options_loop (fuel : nat) (pos : nat) (st : ostate) : option optstep :=
  let cnt := Z.of_nat (length (o_opts st)) - Z.of_nat pos in
  if cnt <=? 0 then Some (OptNext st)
  else
    match fuel with
    | O => None
    | S fuel =>
        opt ← at_opt st pos;
        if opt =? IPOPT_EOL then Some (OptNext st)
        else
          r ← (if opt =? IPOPT_NOP then Some (inr 1)
               else if cnt <? 2 then Some (inl tt)
               else optlen ← at_opt st (pos + 1);
                    Some (if (optlen <? 2) || (cnt <? optlen) then inl tt else inr optlen));
          match r with
          | inl _ => Some (OptBad ICMP_PARAMPROB (Z.of_nat pos + 20 + 1) st)
          | inr optlen =>
              r ← (if (opt =? IPOPT_LSRR) || (opt =? IPOPT_SSRR) then opt_source pos opt optlen st
                   else if opt =? IPOPT_RR then opt_record pos optlen st
                   else if opt =? IPOPT_TS then opt_timestamp pos optlen st
                   else Some (OptNext st));
              match r with
              | OptBad type code st => Some (OptBad type code st)
              | OptNext st => options_loop fuel (pos + Z.to_nat optlen) st
              end
          end
    end.
End options.

(** ** Forwarding *)

(** What becomes of a packet. *)
Inductive iresult :=
  | IDrop                                          (* freed *)
  | IPending                                       (* kept for reassembly *)
  | IIcmp (type code dest mtu : Z)                 (* an error message is sent, the packet freed *)
  | IForwarded (outs : list ipout) (icmp : option (Z * Z * Z * Z))
  | IDeliver (proto hlen : Z) (p : packet).        (* to the input routine of the protocol *)

(** A packet on its way out: header, options and data of the bytes. *)
Definition to_opkt (bytes : list Z) (mflags : Z) : opkt :=
  let h := ip_decode bytes in
  let hlen := Z.to_nat (4 * ip_hl (iph h)) in
  mkOpkt h (drop 20 (take hlen bytes)) (drop hlen bytes) mflags 0 0 0.

(** The redirect that may follow: [type] (0 for none), [code] and [dest]. *)
Definition forward_redirect (e : inenv) (rt : rtentry) (rcvif : Z) (h : ip) (srcrt : bool) : Z * Z * Z :=
  if bool_decide (rt_ifp rt = Some rcvif) && negb (flag_set (rt_flags rt) (Z.lor RTF_DYNAMIC RTF_MODIFIED)) &&
     negb (in_nullhost (rt_key rt)) && ipsendredirects e && negb srcrt &&
     (Z.land (ip_src h) (ia_subnetmask (rt_ifa rt)) =? ia_subnet (rt_ifa rt))
  then (ICMP_REDIRECT, ICMP_REDIRECT_HOST, if flag_set (rt_flags rt) RTF_GATEWAY then rt_gateway rt else ip_dst h)
  else (0, 0, 0).

(** The message after a failure of [ip_output]; [None] when there is none. *)
Definition forward_error (e : inenv) (error : Z) (fwd : route) (red : Z * Z * Z) : option (Z * Z * Z * Z) :=
  let '(type, code, dest) := red in
  if error =? 0 then if type =? 0 then None else Some (type, code, dest, 0)
  else if error =? EMSGSIZE then
    let mtu := match rtcache_validate fwd with
               | Some rt => match rt_ifp rt with Some ifp => if_mtu (e_ifnet (n_out e) ifp) | None => 0 end
               | None => 0
               end in
    Some (ICMP_UNREACH, ICMP_UNREACH_NEEDFRAG, dest, mtu)
  else if error =? ENOBUFS then None
  else Some (ICMP_UNREACH, ICMP_UNREACH_HOST, dest, 0).

Definition ip_forward (e : inenv) (s : instate) (p : opkt) (rcvif : Z) (srcrt : bool) : option (iresult * instate) :=
  let h := p_ip p in
  if flag_set (p_flags p) (Z.lor M_BCAST M_MCAST) || negb (in_canforward (ip_dst h)) then Some (IDrop, s)
  else if ip_ttl (p_hdr p) <=? IPTTLDEC then Some (IIcmp ICMP_TIMXCEED ICMP_TIMXCEED_INTRANS 0 0, s)
  else
    match rtcache_lookup (e_rtalloc1 (n_out e)) (e_dup (n_out e)) (s_fwd s) (ip_dst h) with
    | (None, fwd) => Some (IIcmp ICMP_UNREACH ICMP_UNREACH_NET 0 0, s <| s_fwd := fwd |>)
    | (Some rt, fwd) =>
        let p := p <| p_hdr := (p_hdr p) <| ip_ttl := ip_ttl (p_hdr p) - IPTTLDEC |> |> in
        let red := forward_redirect e rt rcvif h srcrt in
        let flags := Z.lor IP_FORWARDING (if ip_directedbcast e then IP_ALLOWBROADCAST else 0) in
        r ← ip_output (n_out e) (s_ipg s) p None (Some fwd) flags None;
        let s := s <| s_fwd := r_ro r |> <| s_ipg := r_g r |> in
        Some (IForwarded (r_out r) (if n_mcopy e then forward_error e (r_error r) (r_ro r) red else None), s)
    end.

(** [ip_dooptions]: [inl] when the packet has been disposed of. *)
Definition ip_dooptions (e : inenv) (s : instate) (bytes : list Z) (hlen rcvif mflags : Z)
    : option ((iresult * instate) + (list Z * instate)) :=
  let h := ip_decode bytes in
  let opts := drop 20 (take (Z.to_nat hlen) bytes) in
  r ← options_loop e (ip_src (iph h)) rcvif (ip_dst (iph h)) (length opts) 0 (mkOst opts (ip_dst (iph h)) false s);
  match r with
  | OptBad type code st => Some (inl (IIcmp type code 0 0, o_in st))
  | OptNext st =>
      let h := set_iph (fun f => f <| ip_dst := o_dst st |>) h in
      let bytes := ip_encode h ++ o_opts st ++ drop (Z.to_nat hlen) bytes in
      if o_forward st then
        if negb (ip_forwsrcrt e) then Some (inl (IIcmp ICMP_UNREACH ICMP_UNREACH_SRCFAIL 0 0, o_in st))
        else
          r ← ip_forward e (o_in st) (to_opkt bytes mflags) rcvif true;
          Some (inl r)
      else Some (inr (bytes, o_in st))
  end.

(** ** [ip_input] *)

(** The header is in one piece, valid, its checksum right and the packet as
    long as the header says: the bytes, cut to that length. *)
Definition in_validate (e : inenv) (m : ipkt) : option (list Z) :=
  match n_ifaddrs e with
  | [] => None
  | _ =>
      let ifn := e_ifnet (n_out e) (i_rcvif m) in
      bytes ← (if i_mlen m <? 20 then n_pullup e 20 (i_bytes m) else Some (i_bytes m));
      let mlen := if i_mlen m <? 20 then 20 else i_mlen m in
      let h := ip_decode bytes in
      if negb (ip_v h =? IPVERSION) then None
      else
        let hlen := Z.shiftl (ip_hl (iph h)) 2 in
        if hlen <? 20 then None
        else
          bytes ← (if mlen <? hlen then n_pullup e hlen bytes else Some bytes);
          let loopif := flag_set (if_flags ifn) IFF_LOOPBACK in
          if IN_MULTICAST (ip_src (iph h)) then None
          else if ((addr_byte (ip_dst (iph h)) =? IN_LOOPBACKNET) || (addr_byte (ip_src (iph h)) =? IN_LOOPBACKNET)) &&
                  negb loopif then None
          else
            let fl := Z.land (i_csum_flags m) (Z.lor (Z.land (if_csum_flags_rx ifn) M_CSUM_IPv4) M_CSUM_IPv4_BAD) in
            if fl =? Z.lor M_CSUM_IPv4 M_CSUM_IPv4_BAD then None
            else if negb (fl =? M_CSUM_IPv4) && (negb loopif || ip_do_loopback_cksum (n_out e)) &&
                    negb (header_cksum bytes hlen =? 0) then None
            else
              let len := ip_len (iph h) in
              if len <? hlen then None
              else if Z.of_nat (length bytes) <? len then None
              else Some (take (Z.to_nat len) bytes)
  end.

(** The first address of the bucket that is ours on an interface that is
    up, and the number of matches on interfaces that are down. *)
Fixpoint match_addr (e : inenv) (checkif : bool) (rcvif dst : Z) (downmatch : Z) (l : list in_ifaddr) : bool * Z :=
  match l with
  | [] => (false, downmatch)
  | ia :: l =>
      if in_hosteq (ia_addr ia) dst then
        if checkif && negb (ia_ifp ia =? rcvif) then match_addr e checkif rcvif dst downmatch l
        else if flag_set (if_flags (e_ifnet (n_out e) (ia_ifp ia))) IFF_UP then (true, downmatch)
        else match_addr e checkif rcvif dst (downmatch + 1) l
      else match_addr e checkif rcvif dst downmatch l
  end.

(** A broadcast address of the interface, or an interface without address. *)
Definition match_broadcast (ifn : ifnet) (dst : Z) : bool :=
  flag_set (if_flags ifn) IFF_BROADCAST &&
  existsb (fun ia => in_hosteq dst (ia_broadaddr ia) || in_hosteq dst (ia_netbroadcast ia) ||
             (dst =? ia_subnet ia) || (dst =? ia_net ia) || in_nullhost (ia_addr ia)) (if_addrs ifn).

(** Is the packet for us, for somebody else, or for a group we do not belong to? *)
Inductive whose := Ours | NotOurs (downmatch : Z) | NoMember.

Definition in_ours (e : inenv) (rcvif dst : Z) : whose :=
  let ifn := e_ifnet (n_out e) rcvif in
  let checkif := ip_checkinterface e && negb (ipforwarding e) && negb (flag_set (if_flags ifn) IFF_LOOPBACK) in
  let '(found, downmatch) :=
    match_addr e checkif rcvif dst 0 (default [] (n_ifaddrhash e !! Z.to_nat (dst mod IN_IFADDR_HASH_SIZE))) in
  if found then Ours
  else if match_broadcast ifn dst then Ours
  else if IN_MULTICAST dst then if e_in_multi (n_out e) dst rcvif then Ours else NoMember
  else if (dst =? INADDR_BROADCAST) || in_nullhost dst then Ours
  else NotOurs downmatch.

(** From [ours] on: reassembly and delivery. *)
Definition in_deliver (e : inenv) (s : instate) (bytes : list Z) : iresult * instate :=
  let h := iph (ip_decode bytes) in
  if flag_set (ip_off h) (Z.lor IP_MF IP_OFFMASK) then
    match ip_reass_packet (n_malloc e) (s_reass s) bytes h with
    | (inl _, g) => (IDrop, s <| s_reass := g |>)
    | (inr None, g) => (IPending, s <| s_reass := g |>)
    | (inr (Some p), g) => (IDeliver (ip_p (pkt_ip p)) (Z.shiftl (ip_hl (pkt_ip p)) 2) p, s <| s_reass := g |>)
    end
  else
    let hlen := Z.shiftl (ip_hl h) 2 in
    (IDeliver (ip_p h) hlen (mkPacket h (drop (Z.to_nat hlen) bytes)), s).

Definition ip_input (e : inenv) (s : instate) (m : ipkt) : option (iresult * instate) :=
  match in_validate e m with
  | None => Some (IDrop, s)
  | Some bytes =>
      let hlen := Z.shiftl (ip_hl (iph (ip_decode bytes))) 2 in
      let s := s <| s_nhops := 0 |> in
      r ← (if 20 <? hlen then ip_dooptions e s bytes hlen (i_rcvif m) (i_flags m) else Some (inr (bytes, s)));
      match r with
      | inl r => Some r
      | inr (bytes, s) =>
          match in_ours e (i_rcvif m) (ip_dst (iph (ip_decode bytes))) with
          | Ours => Some (in_deliver e s bytes)
          | NoMember => Some (IDrop, s)
          | NotOurs downmatch =>
              if negb (ipforwarding e) then Some (IDrop, s)
              else if negb (downmatch =? 0) then Some (IIcmp ICMP_UNREACH ICMP_UNREACH_HOST 0 0, s)
              else ip_forward e s (to_opkt bytes (i_flags m)) (i_rcvif m) false
          end
      end
  end.

(** Packets one after the other. *)
Fixpoint ip_inputs (e : inenv) (s : instate) (l : list ipkt) : option (list iresult * instate) :=
  match l with
  | [] => Some ([], s)
  | m :: l =>
      '(r, s) ← ip_input e s m;
      '(rs, s) ← ip_inputs e s l;
      Some (r :: rs, s)
  end.

(** [ip_slowtimo] and [ip_drain]. *)
Definition ip_slowtimo (s : instate) : option instate := (fun g => s <| s_reass := g |>) <$> ip_reass_slowtimo (s_reass s).
Definition ip_drain (s : instate) : option instate := (fun g => s <| s_reass := g |>) <$> ip_reass_drain (s_reass s).
