(* ===== verification/IpInputFacts.v ===== *)
(** * Option processing stays inside the header

    [ip_dooptions] on arbitrary bytes: it returns, reads and writes only the
    options, and what [save_rte] keeps is a route that [ip_srcroute] can
    turn round. *)

From S2P Require Import Prelude IpReass InCksumFacts IpId Ip IpOutput IpInput.

(** The saved route fits its memory, with the hops that its length says. *)
Definition srcrt_ok (s : instate) : Prop := length (sr_opt (s_srcrt s)) = 43%nat /\ 0 <= s_nhops s <= 9.

Definition ost_ok (n : nat) (st : ostate) : Prop :=
  length (o_opts st) = n /\ Forall is_byte (o_opts st) /\ srcrt_ok (o_in st).

Definition step_ok (n : nat) (r : optstep) : Prop :=
  match r with OptBad _ _ st => ost_ok n st | OptNext st => ost_ok n st end.

Lemma poke_ok off bytes l : (off + length bytes <= length l)%nat -> Forall is_byte bytes -> Forall is_byte l ->
  exists l', poke off bytes l = Some l' /\ length l' = length l /\ Forall is_byte l'.
Proof.
  intros L F1 F2. unfold poke. rewrite bool_decide_true by done. eexists. split; [done|]. split.
  - rewrite !length_app, length_take, length_drop. lia.
  - rewrite !Forall_app. split; [by apply Forall_take|]. split; [done|by apply Forall_drop].
Qed.

Lemma peek4_ok off l : (off + 4 <= length l)%nat -> exists z, peek4 off l = Some z.
Proof. intros L. unfold peek4. rewrite bool_decide_true by done. by eexists. Qed.

Lemma at_opt_ok n st i : ost_ok n st -> (i < n)%nat -> exists b, at_opt st i = Some b /\ 0 <= b < 256.
Proof.
  intros (L & F & _) I. destruct (lookup_lt_is_Some_2 (o_opts st) i) as [b E]; [lia|]. exists b. split; [done|].
  rewrite Forall_forall in F. apply F. by eapply list_elem_of_lookup_2.
Qed.

Lemma le_bytes_ok n z : Forall is_byte (le_bytes n z).
Proof. apply le_bytes_range. Qed.

Lemma u8_byte z : Forall is_byte [u8 z].
Proof. repeat constructor; apply (Z.mod_pos_bound z (2 ^ 8)); lia. Qed.

Lemma fwd_ok s fwd : srcrt_ok s -> srcrt_ok (s <| s_fwd := fwd |>).
Proof. unfold srcrt_ok. by upd_simpl. Qed.

Lemma save_rte_ok opt dst s : (3 <= length opt <= 40)%nat -> srcrt_ok s -> srcrt_ok (save_rte opt dst s).
Proof.
  intros L (E & N). unfold save_rte, srcrt_ok. destruct (Z.ltb_spec 43 (Z.of_nat (length opt))); [done|]. upd_simpl. split.
  - cbn [sr_opt]. rewrite length_app, length_drop. lia.
  - split; [apply Z.div_pos; lia|]. apply Z.lt_succ_r. apply Z.div_lt_upper_bound; lia.
Qed.

Section options_facts.
Variables (e : inenv) (ipsrc rcvif dst0 : Z) (n : nat).
Hypothesis n_ok : (n <= 40)%nat.

Lemma ost_ok_opts st l : ost_ok n st -> length l = length (o_opts st) -> Forall is_byte l -> ost_ok n (st <| o_opts := l |>).
Proof. intros (L & F & S) El Fl. unfold ost_ok. upd_simpl. rewrite El. done. Qed.

Lemma ost_ok_fwd st fwd : ost_ok n st -> ost_ok n (st <| o_in := (o_in st) <| s_fwd := fwd |> |>).
Proof. intros (L & F & S). unfold ost_ok. upd_simpl. split; [done|]. split; [done|]. exact (fwd_ok _ fwd S). Qed.

Lemma opt_source_ok pos opt optlen st : ost_ok n st -> 2 <= optlen -> Z.of_nat pos + optlen <= Z.of_nat n ->
  exists r, opt_source e ipsrc pos opt optlen st = Some r /\ step_ok n r.
Proof.
  intros K L2 Ln. unfold opt_source. destruct (negb (ip_allowsrcrt e)); [by eexists|].
  destruct (Z.ltb_spec optlen 3); [by eexists|]. destruct (at_opt_ok n st (pos + 2) K ltac:(lia)) as (off & -> & Bo). cbn [mbind option_bind].
  unfold IPOPT_MINOFF. destruct (Z.ltb_spec off 4); [by eexists|].
  destruct (n_ifwithaddr e (o_dst st)); [|eexists; split; [done|]; by destruct (opt =? IPOPT_SSRR)].
  destruct (Z.ltb_spec optlen (off - 1 + 4)).
  { eexists. split; [done|]. destruct K as (Kl & Kf & Ks). split; [done|]. split; [done|]. upd_simpl.
    apply save_rte_ok; [|done]. rewrite length_take, length_drop. lia. }
  destruct K as (Kl & Kf & Ks). destruct (peek4_ok (pos + Z.to_nat (off - 1)) (o_opts st) ltac:(lia)) as (next & ->). cbn [mbind option_bind].
  destruct (if opt =? IPOPT_SSRR then _ else _) as [ia fwd].
  pose proof (ost_ok_fwd st fwd (conj Kl (conj Kf Ks))) as K1. destruct ia as [ia|]; [|by eexists].
  destruct (poke_ok (pos + Z.to_nat (off - 1)) (le_bytes 4 (ia_addr ia)) (o_opts st)) as (l1 & E1 & L1 & F1);
    [rewrite length_le_bytes; lia|apply le_bytes_ok|done|].
  upd_simpl. rewrite E1. cbn [mbind option_bind].
  destruct (poke_ok (pos + 2) [u8 (off - 1 + 1 + 4)] l1) as (l2 & E2 & L2' & F2); [simpl; lia|apply u8_byte|done|].
  rewrite E2. cbn [mbind option_bind]. eexists. split; [done|]. unfold step_ok, ost_ok. upd_simpl. split; [lia|]. split; [done|]. exact (fwd_ok _ fwd Ks).
Qed.

Lemma opt_record_ok pos optlen st : ost_ok n st -> 2 <= optlen -> Z.of_nat pos + optlen <= Z.of_nat n ->
  exists r, opt_record e pos optlen st = Some r /\ step_ok n r.
Proof.
  intros K L2 Ln. unfold opt_record. destruct (Z.ltb_spec optlen 3); [by eexists|].
  destruct (at_opt_ok n st (pos + 2) K ltac:(lia)) as (off & -> & Bo). cbn [mbind option_bind].
  unfold IPOPT_MINOFF. destruct (Z.ltb_spec off 4); [by eexists|]. destruct (Z.ltb_spec optlen (off - 1 + 4)); [by eexists|].
  destruct (match n_ifwithaddr e (o_dst st) with Some _ => _ | None => _ end) as [ia fwd].
  destruct K as (Kl & Kf & Ks). pose proof (ost_ok_fwd st fwd (conj Kl (conj Kf Ks))) as K1. destruct ia as [ia|]; [|by eexists].
  destruct (poke_ok (pos + Z.to_nat (off - 1)) (le_bytes 4 (ia_addr ia)) (o_opts st)) as (l1 & E1 & L1 & F1);
    [rewrite length_le_bytes; lia|apply le_bytes_ok|done|].
  upd_simpl. rewrite E1. cbn [mbind option_bind].
  destruct (poke_ok (pos + 2) [u8 (off - 1 + 1 + 4)] l1) as (l2 & E2 & L2' & F2); [simpl; lia|apply u8_byte|done|].
  rewrite E2. cbn [mbind option_bind]. eexists. split; [done|]. unfold step_ok, ost_ok. upd_simpl. split; [lia|]. split; [done|]. exact (fwd_ok _ fwd Ks).
Qed.

Lemma ts_address_ok pos optlen flg ptr st : ost_ok n st -> 5 <= ptr <= optlen - 4 -> Z.of_nat pos + optlen <= Z.of_nat n ->
  exists r, ts_address e rcvif dst0 pos optlen flg ptr st = Some r /\
    match r with TsGo l ptr' => length l = n /\ Forall is_byte l /\ 5 <= ptr' <= optlen - 3 | _ => True end.
Proof.
  intros (Kl & Kf & Ks) Lp Ln. unfold ts_address. destruct (flg =? IPOPT_TS_TSONLY).
  { eexists. split; [done|]. split; [done|]. split; [done|lia]. }
  destruct (flg =? IPOPT_TS_TSANDADDR).
  { destruct (Z.ltb_spec optlen (ptr - 1 + 4 + 4)); [by eexists|]. destruct (n_ifpforaddr e dst0 rcvif) as [ia|]; [|by eexists].
    destruct (poke_ok (pos + Z.to_nat (ptr - 1)) (le_bytes 4 (ia_addr ia)) (o_opts st)) as (l1 & -> & L1 & F1);
      [rewrite length_le_bytes; lia|apply le_bytes_ok|done|]. cbn [mbind option_bind]. eexists. split; [done|]. split; [lia|]. split; [done|].
    unfold u8. rewrite Z.mod_small; lia. }
  destruct (flg =? IPOPT_TS_PRESPEC); [|by eexists]. destruct (Z.ltb_spec optlen (ptr - 1 + 4 + 4)); [by eexists|].
  destruct (peek4_ok (pos + Z.to_nat (ptr - 1)) (o_opts st) ltac:(lia)) as (a & ->). cbn [mbind option_bind].
  destruct (n_ifwithaddr e a); [|by eexists]. eexists. split; [done|]. split; [done|]. split; [done|]. unfold u8. rewrite Z.mod_small; lia.
Qed.

Lemma opt_timestamp_ok pos optlen st : ost_ok n st -> 2 <= optlen -> Z.of_nat pos + optlen <= Z.of_nat n ->
  exists r, opt_timestamp e rcvif dst0 pos optlen st = Some r /\ step_ok n r.
Proof.
  intros K L2 Ln. unfold opt_timestamp. destruct (Z.ltb_spec optlen 4); [by eexists|]. destruct (40 <? optlen); [by eexists|]. cbn [orb].
  destruct (at_opt_ok n st (pos + 2) K ltac:(lia)) as (ptr & -> & Bp). cbn [mbind option_bind].
  destruct (at_opt_ok n st (pos + 3) K ltac:(lia)) as (fo & -> & Bf). cbn [mbind option_bind].
  destruct (Z.ltb_spec ptr 5); [by eexists|]. destruct (Z.ltb_spec (optlen - 4) ptr).
  - set (oflw := Z.land (Z.shiftr fo 4 + 1) 15).
    assert (forall z, 0 <= Z.land z 15 < 16) as R by (intros z; change 15 with (Z.ones 4); rewrite Z.land_ones by lia; by apply (Z.mod_pos_bound z (2 ^ 4))).
    destruct (poke_ok (pos + 3) [Z.land fo 15 + Z.shiftl oflw 4] (o_opts st)) as (l1 & -> & L1 & F1); [destruct K as (-> & _); simpl; lia| |apply K|].
    { apply Forall_singleton. pose proof (R fo). pose proof (R (Z.shiftr fo 4 + 1)) as R2. fold oflw in R2. unfold is_byte.
      rewrite Z.shiftl_mul_pow2 by lia. lia. }
    cbn [mbind option_bind]. pose proof (ost_ok_opts st l1 K L1 F1) as K1. eexists. split; [done|]. by destruct (oflw =? 0).
  - destruct (ts_address_ok pos optlen (Z.land fo 15) ptr st K ltac:(lia) Ln) as (r & -> & Rk). cbn [mbind option_bind].
    destruct r as [| |l ptr']; [by eexists|by eexists|]. destruct Rk as (Ll & Fl & Rp).
    destruct (poke_ok (pos + 2) [ptr'] l) as (l1 & -> & L1 & F1); [simpl; lia|apply Forall_singleton; unfold is_byte; lia|done|]. cbn [mbind option_bind].
    destruct (poke_ok (pos + Z.to_nat (ptr' - 1)) (le_bytes 4 (n_time e)) l1) as (l2 & -> & L2' & F2); [rewrite length_le_bytes; lia|apply le_bytes_ok|done|].
    cbn [mbind option_bind]. destruct (poke_ok (pos + 2) [u8 (ptr' + 4)] l2) as (l3 & -> & L3 & F3); [simpl; lia|apply u8_byte|done|].
    cbn [mbind option_bind]. eexists. split; [done|]. apply ost_ok_opts; [done| |done]. destruct K as (-> & _). lia.
Qed.

Lemma options_loop_ok fuel pos st : ost_ok n st -> (n - pos <= fuel)%nat ->
  exists r, options_loop e ipsrc rcvif dst0 fuel pos st = Some r /\ step_ok n r.
Proof.
  revert pos st. induction fuel as [|fuel IH]; intros pos st K Fu; simpl; pose proof K as (Kl & Kf & Ks); rewrite Kl.
  { destruct (Z.leb_spec (Z.of_nat n - Z.of_nat pos) 0); [by eexists|lia]. }
  destruct (Z.leb_spec (Z.of_nat n - Z.of_nat pos) 0); [by eexists|].
  destruct (at_opt_ok n st pos K ltac:(lia)) as (opt & -> & Bo). cbn [mbind option_bind]. destruct (opt =? IPOPT_EOL); [by eexists|].
  assert (forall optlen, 1 <= optlen -> Z.of_nat pos + optlen <= Z.of_nat n -> (opt <> IPOPT_NOP -> 2 <= optlen) -> exists r,
    (r ← (if (opt =? IPOPT_LSRR) || (opt =? IPOPT_SSRR) then opt_source e ipsrc pos opt optlen st
          else if opt =? IPOPT_RR then opt_record e pos optlen st
          else if opt =? IPOPT_TS then opt_timestamp e rcvif dst0 pos optlen st else Some (OptNext st));
     match r with OptBad type code st => Some (OptBad type code st)
             | OptNext st => options_loop e ipsrc rcvif dst0 fuel (pos + Z.to_nat optlen) st end) = Some r /\ step_ok n r) as Go.
  { intros optlen L1 Ln Nop.
    assert (exists r, (if (opt =? IPOPT_LSRR) || (opt =? IPOPT_SSRR) then opt_source e ipsrc pos opt optlen st
          else if opt =? IPOPT_RR then opt_record e pos optlen st
          else if opt =? IPOPT_TS then opt_timestamp e rcvif dst0 pos optlen st else Some (OptNext st)) = Some r /\ step_ok n r) as (r & -> & Rk).
    { unfold IPOPT_LSRR, IPOPT_SSRR, IPOPT_RR, IPOPT_TS, IPOPT_NOP in *.
      destruct (Z.eqb_spec opt 131); [apply opt_source_ok; [done|lia|lia]|]. destruct (Z.eqb_spec opt 137); [apply opt_source_ok; [done|lia|lia]|].
      cbn [orb]. destruct (Z.eqb_spec opt 7); [apply opt_record_ok; [done|lia|lia]|].
      destruct (Z.eqb_spec opt 68); [apply opt_timestamp_ok; [done|lia|lia]|]. by eexists. }
    cbn [mbind option_bind]. destruct r as [type code st'|st']; [by eexists|]. apply IH; [done|]. lia. }
  unfold IPOPT_NOP in *. destruct (Z.eqb_spec opt 1); [apply (Go 1); [lia|lia|done]|].
  destruct (Z.ltb_spec (Z.of_nat n - Z.of_nat pos) 2); [by eexists|].
  destruct (at_opt_ok n st (pos + 1) K ltac:(lia)) as (olen & -> & Bl). cbn [mbind option_bind].
  destruct (Z.ltb_spec olen 2); [by eexists|]. destruct (Z.ltb_spec (Z.of_nat n - Z.of_nat pos) olen); [by eexists|]. cbn [orb].
  apply (Go olen); [lia|lia|lia].
Qed.
End options_facts.

(** C34. Option processing of a received header with arbitrary option bytes ends
    after at most one round per byte, reads and writes nothing outside of the
    options, leaves their length unchanged, and whatever source route it
    saves fits the memory for it. *)
Theorem ip_dooptions_safe e s opts src dst rcvif : Forall is_byte opts -> (length opts <= 40)%nat -> srcrt_ok s ->
  exists r, options_loop e src rcvif dst (length opts) 0 (mkOst opts dst false s) = Some r /\ step_ok (length opts) r.
Proof. intros F L S. apply options_loop_ok; [done|split; [done|split; done]|lia]. Qed.

Definition ex_fwd_env : inenv :=
  mkInenv (mkIpenv (fun _ => mkIf 3 1500 0 0 0 50 0 []) (fun _ => None) (fun _ => None) (fun _ _ => false) (fun _ => 0) true
             (fun _ => true) (fun _ => true) true 100 0 false false false false true)
    [] [] (fun _ => Some (mkIa 0x0200000a 0 0 0 0 0 0 1)) (fun _ _ => None) (fun _ _ => None) 0 true true false false false true true false.

Definition ex_in : instate :=
  mkInst (ip_reass_init (Pool.mkPool []) 0) 0 (mkSrcrt 0 (replicate 43 0)) empty_route (mkIpg 1 (mkIpid 0 [])).

Lemma ip_dooptions_safe_witness : exists r,
  options_loop ex_fwd_env 1 1 2 16 0 (mkOst [68; 12; 5; 1; 0; 0; 0; 0; 0; 0; 0; 0; 131; 3; 4; 7] 2 false ex_in) = Some r /\ step_ok 16 r.
Proof.
  apply (ip_dooptions_safe ex_fwd_env ex_in [68; 12; 5; 1; 0; 0; 0; 0; 0; 0; 0; 0; 131; 3; 4; 7] 1 2 1).
  - repeat constructor; vm_compute; congruence.
  - simpl; lia.
  - by repeat split; vm_compute.
Defined.

(** ** The reply takes the route backwards *)

Definition route_bytes (hops : list Z) : list Z := concat (le_bytes 4 <$> hops).

Lemma length_route_bytes hops : length (route_bytes hops) = (4 * length hops)%nat.
Proof. unfold route_bytes. induction hops as [|h l IH]; [done|].
  cbn [fmap list_fmap concat length]. rewrite length_app, length_le_bytes, IH. lia. Qed.

Lemma route_bytes_at hops i h rest : hops !! i = Some h -> take 4 (drop (4 * i) (route_bytes hops ++ rest)) = le_bytes 4 h.
Proof.
  revert i. induction hops as [|x l IH]; intros i E; [done|]. unfold route_bytes. cbn [fmap list_fmap concat]. change (concat (list_fmap _ _ (le_bytes 4) l)) with (route_bytes l). destruct i as [|i].
  - injection E as <-. rewrite Nat.mul_0_r, drop_0, <- app_assoc. apply take_app_length'. by rewrite length_le_bytes.
  - rewrite <- app_assoc. replace (4 * S i)%nat with (length (le_bytes 4 x) + 4 * i)%nat by (rewrite length_le_bytes; lia).
    rewrite drop_app_add. by apply IH.
Qed.

Lemma hops_back (f : nat -> list Z) hops k : (k <= length hops)%nat ->
  (forall i h, hops !! i = Some h -> f i = le_bytes 4 h) -> concat (f <$> rev (seq 0 k)) = route_bytes (rev (take k hops)).
Proof.
  intros L H. induction k as [|k IH]; [done|]. destruct (lookup_lt_is_Some_2 hops k) as [h E]; [lia|].
  rewrite seq_S, rev_app_distr, Nat.add_0_l. cbn [rev app fmap list_fmap concat]. change (concat (list_fmap _ _ f (rev (seq 0 k)))) with (concat (f <$> rev (seq 0 k))). rewrite IH by lia. rewrite (H k h E), (take_S_r _ _ _ E), rev_app_distr. done.
Qed.

(** A source route that arrives complete is turned round for the reply: the
    first hop back is the last one of the route, the option of the reply lists
    the others in reverse order with its pointer at the start, and ends with
    the sender. *)
Theorem ip_srcroute_reverses s type ptr pre h src : (length pre <= 8)%nat -> is_u32 h -> length (sr_opt (s_srcrt s)) = 43%nat ->
  let olen := 3 + 4 * Z.of_nat (length (pre ++ [h])) in
  ip_srcroute true (save_rte (type :: olen :: ptr :: route_bytes (pre ++ [h])) src s) =
  Some (mkIpopt h (IPOPT_NOP :: type :: olen :: IPOPT_MINOFF :: route_bytes (rev pre) ++ le_bytes 4 src)).
Proof.
  intros L R S olen. set (opt := type :: olen :: ptr :: route_bytes (pre ++ [h])).
  assert (length opt = (3 + 4 * (length pre + 1))%nat) as Lo by (unfold opt; cbn [length]; rewrite length_route_bytes, length_app; simpl; lia).
  unfold save_rte. set (rest := drop (length opt) (sr_opt (s_srcrt s))). rewrite Lo. destruct (Z.ltb_spec 43 (Z.of_nat (3 + 4 * (length pre + 1)))); [lia|].
  replace ((Z.of_nat (3 + 4 * (length pre + 1)) - 3) / 4) with (Z.of_nat (length pre + 1)).
  2:{ replace (Z.of_nat (3 + 4 * (length pre + 1)) - 3) with (Z.of_nat (length pre + 1) * 4) by lia. by rewrite Z.div_mul. }
  set (s' := s <| s_srcrt := mkSrcrt src (opt ++ rest) |> <| s_nhops := Z.of_nat (length pre + 1) |>).
  assert (s_nhops s' = Z.of_nat (length pre + 1) /\ s_srcrt s' = mkSrcrt src (opt ++ rest)) as [En Es] by (unfold s'; by upd_simpl).
  assert (forall i x, (pre ++ [h]) !! i = Some x -> sr_route s' i = le_bytes 4 x) as At.
  { intros i x E. unfold sr_route. rewrite Es. cbn [sr_opt]. unfold opt. rewrite <- drop_drop. cbn [drop app]. by apply route_bytes_at. }
  clearbody s'. unfold ip_srcroute. rewrite En, Es. destruct (Z.eqb_spec (Z.of_nat (length pre + 1)) 0); [lia|]. cbn [orb negb].
  rewrite Nat2Z.id. replace (length pre + 1 - 1)%nat with (length pre) by lia.
  rewrite (At (length pre) h) by (by apply list_lookup_middle). rewrite le_bytes_val by exact R.
  rewrite (hops_back _ (pre ++ [h]) (length pre)); [|rewrite length_app; lia|exact At]. by rewrite take_app_length.
Qed.

Lemma ip_srcroute_reverses_witness :
  ip_srcroute true (save_rte (131 :: 15 :: 16 :: route_bytes ([10; 20] ++ [30])) 99 ex_in) =
  Some (mkIpopt 30 (IPOPT_NOP :: 131 :: 15 :: IPOPT_MINOFF :: route_bytes [20; 10] ++ le_bytes 4 99)).
Proof. apply (ip_srcroute_reverses ex_in 131 16 [10; 20] 30 99); [simpl; lia|vm_compute; split; congruence|done]. Defined.
