(* ===== verification/IpRoundtrip.v ===== *)
(** * From ip_output to the protocol of the receiver

    What [ip_output] gives to an interface, whole or in fragments, and in
    whatever order it arrives, is what [ip_input] of the receiver gives to the
    protocol. *)

From S2P Require Import Prelude Pool MbufFacts IpReass IpReassFacts IpReassOrder InCksum InCksumFacts IpId Ip IpOutput IpFragment IpInput.

(** ** The receiver *)

(** Packet [k] is [p], received on [rcvif] with its header in one mbuf and
    the checksum not verified by the interface. *)
Definition arrives_as (rcvif : Z) (p : opkt) (k : ipkt) : Prop :=
  i_bytes k = p_bytes p /\ 20 <= i_mlen k /\ i_rcvif k = rcvif /\ i_csum_flags k = 0.

(** The host takes packets from the source to the destination of [h]. *)
Definition host_accepts (ne : inenv) (rcvif : Z) (h : ip) : Prop :=
  n_ifaddrs ne <> [] /\ IN_MULTICAST (ip_src h) = false /\ addr_byte (ip_dst h) <> IN_LOOPBACKNET /\
  addr_byte (ip_src h) <> IN_LOOPBACKNET /\ in_ours ne rcvif (ip_dst h) = Ours /\ n_malloc ne = true.

(** A packet as it leaves the sender: no options, a valid header. *)
Definition sent_ok (p : opkt) : Prop :=
  iphdr_ok (p_hdr p) /\ ip_v (p_hdr p) = IPVERSION /\ p_opts p = [] /\ ip_hl (p_ip p) = 5 /\ ip_len (p_ip p) = p_pktlen p /\
  header_cksum (p_bytes p) 20 = 0.

Section receiver.
Variables (ne : inenv) (rcvif : Z).

Lemma in_validate_ok p k : host_accepts ne rcvif (p_ip p) -> sent_ok p -> arrives_as rcvif p k -> in_validate ne k = Some (p_bytes p).
Proof.
  intros (A & S & D1 & D2 & _) (K & V & O & H & L & C) (B & M & R & Cs). unfold in_validate. rewrite B, R, Cs.
  destruct (n_ifaddrs ne); [done|]. destruct (Z.ltb_spec (i_mlen k) 20); [lia|]. cbn [mbind option_bind].
  assert (ip_decode (p_bytes p) = p_hdr p) as -> by (unfold p_bytes; by apply ip_decode_encode).
  unfold p_ip in *. rewrite V, H. change (negb (IPVERSION =? IPVERSION)) with false. change (Z.shiftl 5 2) with 20. change (20 <? 20) with false.
  cbv zeta iota. destruct (Z.ltb_spec (i_mlen k) 20); [lia|]. cbn [mbind option_bind]. rewrite S.
  rewrite (proj2 (Z.eqb_neq _ _) D1), (proj2 (Z.eqb_neq _ _) D2). cbn [orb andb]. rewrite Z.land_0_l.
  change (0 =? Z.lor M_CSUM_IPv4 M_CSUM_IPv4_BAD) with false. rewrite C. change (0 =? 0) with true. rewrite andb_false_r.
  rewrite L. unfold p_pktlen. destruct (Z.ltb_spec (Z.of_nat (length (p_bytes p))) 20) as [Q|_].
  { pose proof (p_pktlen_parts p) as Q2. unfold p_pktlen in Q2. lia. }
  rewrite Z.ltb_irrefl, Nat2Z.id, firstn_all. done.
Qed.

(** Up to reassembly. *)
Lemma ip_input_sent s p k : host_accepts ne rcvif (p_ip p) -> sent_ok p -> arrives_as rcvif p k ->
  ip_input ne s k = Some (in_deliver ne (s <| s_nhops := 0 |>) (p_bytes p)).
Proof.
  intros Ha Sp Ar. unfold ip_input. rewrite (in_validate_ok p k Ha Sp Ar).
  destruct Sp as (K & V & O & H & L & C). destruct Ar as (_ & _ & -> & _). destruct Ha as (_ & _ & _ & _ & Ou & _).
  assert (ip_decode (p_bytes p) = p_hdr p) as E by (unfold p_bytes; by apply ip_decode_encode). rewrite E.
  unfold p_ip in *. rewrite H. change (Z.shiftl 5 2) with 20. change (20 <? 20) with false. cbv zeta iota. cbn [mbind option_bind].
  rewrite E, Ou. done.
Qed.

(** What the outcome of reassembly is to the protocols. *)
Definition reass_result (r : Z + option packet) : iresult :=
  match r with
  | inl _ => IDrop
  | inr None => IPending
  | inr (Some p) => IDeliver (ip_p (pkt_ip p)) (Z.shiftl (ip_hl (pkt_ip p)) 2) p
  end.

(** Fragments go through reassembly one after the other. *)
Lemma ip_inputs_fragments h s ps ks : host_accepts ne rcvif h ->
  Forall (fun p => sent_ok p /\ ip_src (p_ip p) = ip_src h /\ ip_dst (p_ip p) = ip_dst h /\
                   flag_set (ip_off (p_ip p)) (Z.lor IP_MF IP_OFFMASK) = true) ps ->
  Forall2 (arrives_as rcvif) ps ks ->
  forall rs g, receive (s_reass s) ((fun p => (p_ip p, p_bytes p)) <$> ps) = (rs, g) ->
  exists s', ip_inputs ne s ks = Some (reass_result <$> rs, s').
Proof.
  intros Ha Fp F2. revert s. induction F2 as [|p k ps ks Ar F2 IH]; intros s rs g E.
  { cbn in E. injection E as <- <-. by exists s. }
  apply Forall_cons in Fp as [(Sp & Es & Ed & Fl) Fp].
  assert (host_accepts ne rcvif (p_ip p)) as Hp.
  { destruct Ha as (A1 & A2 & A3 & A4 & A5 & A6). unfold host_accepts. rewrite Es, Ed. done. }
  cbn [ip_inputs]. rewrite (ip_input_sent s p k Hp Sp Ar). cbn [mbind option_bind].
  unfold in_deliver. assert (ip_decode (p_bytes p) = p_hdr p) as -> by (unfold p_bytes; apply ip_decode_encode, Sp).
  change (iph (p_hdr p)) with (p_ip p). rewrite Fl.
  destruct Ha as (_ & _ & _ & _ & _ & Hm). rewrite Hm. change (s_reass (s <| s_nhops := 0 |>)) with (s_reass s).
  rewrite fmap_cons in E. cbn [receive] in E.
  destruct (ip_reass_packet true (s_reass s) (p_bytes p) (p_ip p)) as [r g1] eqn:Er.
  destruct (receive g1 ((fun p => (p_ip p, p_bytes p)) <$> ps)) as [rs1 g2] eqn:E2. injection E as <- <-.
  set (s1 := s <| s_nhops := 0 |> <| s_reass := g1 |>). assert (s_reass s1 = g1) as Eg by (by unfold s1; upd_simpl).
  rewrite <- Eg in E2. destruct (IH Fp s1 rs1 g2 E2) as (s' & E3).
  exists s'. destruct r as [err|[pk|]]; cbn [mbind option_bind]; rewrite E3; done.
Qed.
End receiver.

(** ** The sender *)

(** Where a packet to the destination of [m] goes: interface, next hop and MTU. *)
Definition routed (e : ipenv) (m : opkt) (i hop mtu : Z) : Prop :=
  exists rt, e_rtalloc1 e (ip_dst (p_ip m)) = Some rt /\ rt_ifp rt = Some i /\ e_dup e = true /\
    hop = (if flag_set (rt_flags rt) RTF_GATEWAY then rt_gateway rt else ip_dst (p_ip m)) /\
    mtu = (if rmx_mtu rt =? 0 then if_mtu (e_ifnet e i) else rmx_mtu rt) /\
    in_broadcast (hostzeroisbroadcast e) hop (e_ifnet e i) = false.

(** An interface that leaves the checksums to the stack and takes every packet;
    mbufs can be had. *)
Definition plain_interface (e : ipenv) (i : Z) : Prop :=
  flag_set (if_flags (e_ifnet e i)) IFF_LOOPBACK = false /\ if_csum_flags_tx (e_ifnet e i) = 0 /\
  (forall o, e_if_output e o = 0) /\ (forall k, e_mgethdr e k = true /\ e_mcopy e k = true) /\ ip_do_randomid e = false.

(** A packet from a protocol: unicast, a header with length, addresses,
    protocol, time to live and type of service, no options.  Its checksum is
    complete, or is left to [ip_output]: the two bytes at [csum_data] are there. *)
Definition addressed (m : opkt) : Prop :=
  iphdr_ok (p_hdr m) /\ p_opts m = [] /\ ip_len (p_ip m) = p_pktlen m /\ Forall is_byte (p_payload m) /\
  is_group (ip_dst (p_ip m)) = false /\ in_nullhost (ip_src (p_ip m)) = false /\ IN_MULTICAST (ip_src (p_ip m)) = false /\
  flag_set (p_flags m) M_MCAST = false.

Definition from_protocol (m : opkt) : Prop :=
  addressed m /\
  (p_csum_flags m = 0 \/
   (p_csum_flags m = M_CSUM_TCPv4 \/ p_csum_flags m = M_CSUM_UDPv4) /\
   Z.land (p_csum_data m) 0xffff + 2 <= Z.of_nat (length (p_payload m))).

(** The checksum of RFC 1071 over the data; UDP sends 0 as 0xffff. *)
Definition data_sum (m : opkt) : Z :=
  let s := rfc1071 (words16 (p_payload m)) in
  if (s =? 0) && flag_set (p_csum_flags m) M_CSUM_UDPv4 then 0xffff else s.

(** The data with the checksum that was left to [ip_output]. *)
Definition checksummed (m : opkt) : list Z :=
  if flag_set (p_csum_flags m) CSUM_TU then
    let k := Z.to_nat (Z.land (p_csum_data m) 0xffff) in
    take k (p_payload m) ++ le_bytes 2 (data_sum m) ++ drop (k + 2) (p_payload m)
  else p_payload m.

Lemma checksummed_length m : from_protocol m -> length (checksummed m) = length (p_payload m).
Proof.
  intros [_ C]. unfold checksummed. destruct C as [->|[Fl C]]; [done|].
  assert (0 <= Z.land (p_csum_data m) 0xffff) by (apply Z.land_nonneg; lia).
  destruct (flag_set _ _); [|done]. rewrite !length_app, length_take, length_drop, length_le_bytes. lia.
Qed.

Lemma checksummed_bytes m : Forall is_byte (p_payload m) -> Forall is_byte (checksummed m).
Proof.
  intros F. unfold checksummed. destruct (flag_set _ _); [|done].
  apply Forall_app. split; [by apply Forall_take|]. apply Forall_app. split; [|by apply Forall_drop].
  eapply Forall_impl; [apply le_bytes_range|]. unfold is_byte. lia.
Qed.

(** The same packet from a protocol that computes the checksum itself. *)
Definition summed (m : opkt) : opkt := m <| p_payload := checksummed m |> <| p_csum_flags := 0 |>.

Lemma summed_pktlen m : from_protocol m -> p_pktlen (summed m) = p_pktlen m.
Proof. intros F. rewrite !p_pktlen_parts. unfold summed. upd_simpl. by rewrite checksummed_length. Qed.

Lemma summed_addressed m : from_protocol m -> addressed (summed m).
Proof.
  intros F. pose proof (summed_pktlen m F) as L. destruct F as [(K & O & El & Fb & H) _]. unfold addressed.
  rewrite L. split; [done|]. split; [done|]. split; [done|]. split; [by apply checksummed_bytes|exact H].
Qed.

(** [in_delayed_cksum] fills the checksum in. *)
Lemma in_delayed_spec p : iphdr_ok (p_hdr p) -> p_opts p = [] -> ip_hl (p_ip p) = 5 -> ip_len (p_ip p) = p_pktlen p ->
  p_pktlen p < 2 ^ 31 -> Forall is_byte (p_payload p) -> flag_set (p_csum_flags p) CSUM_TU = true ->
  Z.land (p_csum_data p) 0xffff + 2 <= Z.of_nat (length (p_payload p)) ->
  in_delayed_cksum p = Some (p <| p_payload := checksummed p |>).
Proof.
  intros K O Hl Ln Sm Fb Tu C. assert (0 <= Z.land (p_csum_data p) 0xffff) as Pos by (apply Z.land_nonneg; lia).
  unfold in_delayed_cksum. rewrite Hl, Ln. change (Z.shiftl 5 2) with 20. pose proof (p_pktlen_parts p) as Lp. rewrite O in Lp. cbn [length] in Lp.
  assert (cpu_in_cksum [mkSegment 0 (p_bytes p) (p_pktlen p)] (p_pktlen p - 20) 20 0 = rfc1071 (words16 (p_payload p))) as ->.
  { rewrite cpu_in_cksum_norm; [| |lia|lia|unfold is_u32; lia].
    2:{ apply Forall_singleton. unfold segment_ok. cbn [seg_len seg_mem seg_addr]. unfold p_pktlen in *. split; [lia|]. split; [lia|].
        split; [|lia]. unfold p_bytes. rewrite O. apply Forall_app. split; [by apply ip_encode_range|done]. }
    unfold chain_bytes. cbn [fmap list_fmap concat seg_len seg_mem]. rewrite app_nil_r.
    rewrite (take_ge (p_bytes p)) by (unfold p_pktlen; lia). destruct (Z.leb_spec (20 + (p_pktlen p - 20)) (Z.of_nat (length (p_bytes p)))); [|unfold p_pktlen in *; lia].
    assert (drop 20 (p_bytes p) = p_payload p) as Ed.
    { pose proof (p_bytes_drop p 0) as D. rewrite O in D. exact D. }
    change (Z.to_nat 20) with 20%nat. rewrite Ed, take_ge by lia.
    symmetry. apply rfc1071_norm; [by apply words16_range|]. rewrite words16_sum, Z.add_0_l. by apply oeq_refl, bsum_nonneg. }
  assert (u16 (rfc1071 (words16 (p_payload p))) = rfc1071 (words16 (p_payload p))) as ->.
  { rewrite (rfc1071_norm _ (bsum false (p_payload p))); [|by apply words16_range|rewrite words16_sum; by apply oeq_refl, bsum_nonneg].
    pose proof (bsum_nonneg false (p_payload p) Fb). unfold u16. rewrite Z.mod_small; [done|]. unfold norm.
    destruct (_ =? 0); [lia|]. pose proof (Z.mod_pos_bound (bsum false (p_payload p) - 1) 65535 ltac:(lia)). lia. }
  fold (data_sum p). unfold patch16. set (d := Z.land (p_csum_data p) 65535) in *.
  destruct (Z.leb_spec 20 (20 + d)); [|lia]. destruct (Z.leb_spec (20 + d + 2) (p_pktlen p)); [|lia]. cbn [andb].
  rewrite O. cbn [app length take drop]. replace (20 + d - 20) with d by lia. unfold checksummed. rewrite Tu. fold d.
  rewrite drop_0. f_equal. destruct p. simpl in *. by subst.
Qed.

(** The packet with all of its header but the checksum. *)
Definition complete (m : opkt) (id : Z) : opkt :=
  mkOpkt ((p_hdr m) <| iph := (p_ip m) <| ip_hl := 5 |> <| ip_off := 0 |> <| ip_id := id |> |> <| ip_v := IPVERSION |>)
    (p_opts m) (p_payload m) (flag_clear (p_flags m) M_BCAST) M_CSUM_IPv4 (Z.lor (p_csum_data m) (Z.shiftl 20 16)) (p_segsz m).

(** The packet before the checksums: that of the header is still to come. *)
Definition pending (m : opkt) (id : Z) : opkt := (complete m id) <| p_csum_flags := Z.lor (p_csum_flags m) M_CSUM_IPv4 |>.

Section sender.
Variables (e : ipenv) (g : ipglobals) (m : opkt) (i hop mtu : Z).
Hypothesis m_ok : from_protocol m.
Hypothesis route_ok : routed e m i hop mtu.
Hypothesis if_ok : plain_interface e i.
Hypothesis id_ok : is_u16 (g_ip_id g).

Lemma complete_ok id : is_u16 id -> opkt_ok (complete m id).
Proof.
  intros I. destruct m_ok as [(K & O & L & F & _) _]. unfold opkt_ok, complete, p_ip in *. rewrite p_pktlen_parts in L |- *. cbn [p_hdr p_opts p_payload].
  upd_simpl. rewrite O in L |- *. split; [|repeat split; try done; constructor].
  revert K I. clear. unfold iphdr_ok. upd_simpl. unfold IPVERSION, is_u16. intuition lia.
Qed.

(** The next identification, 0 for a packet that cannot be fragmented. *)
Definition next_id : Z :=
  if p_pktlen m <? IP_MINFRAGSIZE then 0 else htons (if u16 (g_ip_id g + 1) <? g_ip_id g then 1 else g_ip_id g).

Lemma htons_u16 z : is_u16 (htons z).
Proof.
  unfold htons, is_u16, u16. pose proof (Z.mod_pos_bound z (2 ^ 16) ltac:(lia)). set (y := z mod 2 ^ 16) in *.
  pose proof (Z.mod_pos_bound y (2 ^ 8) ltac:(lia)).
  assert (0 <= y / 2 ^ 8 < 2 ^ 8) by (split; [apply Z.div_pos|apply Z.div_lt_upper_bound]; lia). lia.
Qed.

Lemma next_id_u16 : is_u16 next_id.
Proof. unfold next_id. destruct (_ <? IP_MINFRAGSIZE); [unfold is_u16; lia|]. apply htons_u16. Qed.

(** Up to the decision about fragmentation. *)
Lemma ip_output_chosen : exists g' ro rt ia, ip_output e g m None None 0 None =
  let c := mkChoice (pending m next_id) (Some rt) ia (Some i) mtu hop in
  if ip_len (p_ip m) <=? mtu then
    match out_whole e i c 20 with Some (error, outs) => Some (mkOres error outs ro g' None) | None => None end
  else match out_large e i c with Some (error, outs) => Some (mkOres error outs ro g' None) | None => None end.
Proof.
  destruct m_ok as [(K & O & L & F & Gr & Nh & Ms & _) Cs]. destruct route_ok as (rt & R & Ri & Dup & -> & -> & Nb).
  destruct if_ok as (Lo & Tx & _ & _ & Rnd).
  unfold ip_output, out_header. change (20 <=? 0) with false. change (negb (flag_set 0 (Z.lor IP_FORWARDING IP_RAWOUTPUT))) with true. cbv iota.
  set (p1 := set_ip _ _). assert (ip_dst (p_ip p1) = ip_dst (p_ip m)) as Ed by done.
  unfold out_route, out_cache. cbn [default ro_sa empty_route]. change (rtcache_validate empty_route) with (@None rtentry).
  change (rtcache_update (e_rtalloc1 e) empty_route) with (@None rtentry, empty_route). cbv iota beta.
  rewrite Dup, Ed. change (snd (rtcache_setdst true empty_route (ip_dst (p_ip m)))) with (mkRoute (Some (ip_dst (p_ip m))) None false).
  change (flag_set 0 IP_ROUTETOIF) with false. cbv iota. rewrite Gr.
  unfold rtcache_init. cbn [ro_sa]. rewrite R. cbv iota.
  set (hop := if flag_set (rt_flags rt) RTF_GATEWAY then rt_gateway rt else ip_dst (p_ip m)) in *.
  set (mtu := if rmx_mtu rt =? 0 then if_mtu (e_ifnet e i) else rmx_mtu rt).
  assert (forall ro, (if rmx_mtu rt =? 0
     then match rt_ifp rt with
          | Some ifp => Some (Next (mkChoice p1 (Some rt) (Some (rt_ifa rt)) (Some ifp) (if_mtu (e_ifnet e ifp)) hop), ro)
          | None => None
          end
     else Some (Next (mkChoice p1 (Some rt) (Some (rt_ifa rt)) (rt_ifp rt) (rmx_mtu rt) hop), ro)) =
     Some (Next (mkChoice p1 (Some rt) (Some (rt_ifa rt)) (Some i) mtu hop), ro : route)) as Em.
  { intros ro. unfold mtu. rewrite Ri. by destruct (rmx_mtu rt =? 0). }
  rewrite Em. cbn [c_p]. rewrite Ed, Gr. unfold out_unicast. cbn [c_p c_ia c_ifp c_dst].
  change (ip_src (p_ip p1)) with (ip_src (p_ip m)). rewrite Nh. cbv iota. change (ip_src (p_ip p1)) with (ip_src (p_ip m)). rewrite Ms, Nb.
  unfold out_send, out_id. cbn [c_p c_ia c_ifp]. upd_simpl. cbn [c_p c_ia c_ifp c_rt c_mtu c_dst].
  change (negb (flag_set 0 (Z.lor IP_FORWARDING IP_NOIPNEWID))) with true. cbv iota.
  set (p2 := p1 <| p_flags := flag_clear (p_flags p1) M_BCAST |>).
  assert (p_pktlen p1 = p_pktlen m) as El by (rewrite !p_pktlen_parts; done). rewrite El.
  change (p_csum_flags p1) with (p_csum_flags m).
  assert (flag_set (p_csum_flags m) M_CSUM_TSOv4 = false /\ flag_set (Z.lor (p_csum_flags m) M_CSUM_IPv4) M_CSUM_TSOv4 = false) as [-> Ts]
    by (by destruct Cs as [->|[[->| ->] _]]). cbn [negb].
  unfold ip_newid_range. rewrite Rnd.
  assert (forall id (g1 : ipglobals), out_prepare e i (mkChoice (set_ip (fun h => h <| ip_id := id |>) p2) (Some rt) (Some (rt_ifa rt)) (Some i) mtu hop) 20 0 =
    mkChoice (pending m id) (Some rt) (Some (rt_ifa rt)) (Some i) mtu hop) as Ep.
  { intros id _. unfold out_prepare, out_df. cbn [c_p c_rt]. change (flag_set 0 IP_MTUDISC) with false. cbn [andb].
    unfold IN_NEED_CHECKSUM. rewrite Lo. cbn [negb orb]. unfold pending, complete, p2, p1, set_ip, set_iph. upd_simpl.
    unfold p_ip. upd_simpl. destruct m as [[[] ? ? ?] ? ? ? ? ? ?]. reflexivity. }
  unfold next_id. destruct (p_pktlen m <? IP_MINFRAGSIZE) eqn:Sm.
  - exists g, (mkRoute (Some (ip_dst (p_ip m))) (Some rt) false), rt, (Some (rt_ifa rt)).
    cbv zeta iota beta. upd_simpl. cbn [c_ifp].
    match goal with |- context [out_prepare e i ?c 20 0] =>
      replace (out_prepare e i c 20 0) with (mkChoice (pending m 0) (Some rt) (Some (rt_ifa rt)) (Some i) mtu hop)
        by (symmetry; exact (Ep 0 g)) end.
    cbn [c_p c_mtu].
    change (p_csum_flags (pending m 0)) with (Z.lor (p_csum_flags m) M_CSUM_IPv4). rewrite Ts, orb_false_r.
    change (ip_len (p_ip (pending m 0))) with (ip_len (p_ip m)).
    change (flag_set (ip_off (p_ip (pending m 0))) IP_DF) with false. cbn [andb app]. done.
  - eexists _, (mkRoute (Some (ip_dst (p_ip m))) (Some rt) false), rt, (Some (rt_ifa rt)).
    cbv zeta iota beta. upd_simpl. cbn [c_ifp]. set (id := htons _).
    match goal with |- context [out_prepare e i ?c 20 0] =>
      replace (out_prepare e i c 20 0) with (mkChoice (pending m id) (Some rt) (Some (rt_ifa rt)) (Some i) mtu hop)
        by (symmetry; exact (Ep id g)) end.
    cbn [c_p c_mtu].
    change (p_csum_flags (pending m id)) with (Z.lor (p_csum_flags m) M_CSUM_IPv4). rewrite Ts, orb_false_r.
    change (ip_len (p_ip (pending m id))) with (ip_len (p_ip m)).
    change (flag_set (ip_off (p_ip (pending m id))) IP_DF) with false. cbn [andb app]. done.
Qed.

Lemma whole_sent rt ia : ip_len (p_ip m) <= mtu -> exists p,
  out_whole e i (mkChoice (complete m next_id) (Some rt) ia (Some i) mtu hop) 20 = Some (0, [OutIf i p hop]) /\
  sent_ok p /\ p_ip p = p_ip (complete m next_id) /\ p_payload p = p_payload m.
Proof.
  intros Le. destruct m_ok as [(K & O & L & F & Gr & Nh & Ms & Mc) _]. destruct if_ok as (Lo & Tx & If & _ & _).
  pose proof (complete_ok next_id next_id_u16) as Ok. pose proof Ok as (K' & V' & H' & L' & Fo & Fp & Of').
  unfold out_whole. cbn [c_p c_dst]. rewrite Tx. change (p_csum_flags (complete m next_id)) with M_CSUM_IPv4.
  change (flag_clear M_CSUM_IPv4 0) with M_CSUM_IPv4. change (flag_set M_CSUM_IPv4 M_CSUM_TSOv4) with false.
  change (flag_set M_CSUM_IPv4 M_CSUM_IPv4) with true. cbv iota zeta. unfold IN_NEED_CHECKSUM. rewrite Lo. cbn [negb orb].
  unfold out_delayed. change (flag_set M_CSUM_IPv4 CSUM_TU) with false. cbv iota.
  set (p := _ <| p_csum_flags := flag_clear _ M_CSUM_IPv4 |>).
  assert (p = (with_cksum (complete m next_id) 20) <| p_csum_flags := 0 |>) as Ep by reflexivity.
  assert (flag_set (p_flags p) M_MCAST = false) as ->.
  { change (p_flags p) with (flag_clear (p_flags m) M_BCAST). unfold flag_clear, flag_set in *. rewrite <- Z.land_assoc, (Z.land_comm (Z.lnot _)), Z.land_assoc.
    apply negb_false_iff, Z.eqb_eq in Mc. rewrite Mc. done. }
  change (flag_set (p_csum_flags p) M_CSUM_TSOv4) with false. cbn [negb orb]. rewrite If. exists p. split; [done|].
  destruct (opkt_len _ Ok) as [L1 L2].
  destruct (with_cksum_verifies (complete m next_id) K' V' Fo Fp) as [S0 C0].
  { rewrite p_pktlen_parts. lia. }
  change (p_opts (complete m next_id)) with (p_opts m) in S0, C0. rewrite O in S0, C0.
  split; [|split; [by rewrite Ep|by rewrite Ep]].
  assert (p_opts p = []) as Eo by (rewrite Ep; exact O).
  split; [|split; [by rewrite Ep|split; [done|split; [by rewrite Ep|split; [|exact C0]]]]].
  - rewrite Ep. revert K' S0. clear. unfold with_cksum. cbv zeta. upd_simpl. unfold iphdr_ok. upd_simpl. tauto.
  - rewrite p_pktlen_parts, Eo. change (p_payload p) with (p_payload m). change (ip_len (p_ip p)) with (ip_len (p_ip m)).
    rewrite L, p_pktlen_parts, O. done.
Qed.

(** All fragments are handed to the interface. *)
Lemma out_fragments_all l : Forall (fun p => flag_set (p_csum_flags p) CSUM_TU = false) l ->
  exists outs, out_fragments e i hop 0 l = Some (0, outs) /\ Forall2 (fun o p => exists d, o = OutIf i p d) outs l.
Proof.
  destruct if_ok as (_ & _ & If & _). induction 1 as [|p l C Fl IH]; [by exists []|].
  destruct IH as (outs & E & F2). cbn [out_fragments]. change (0 =? 0) with true. cbv iota. rewrite C, If, E.
  eexists. split; [done|]. constructor; [|done]. by eexists.
Qed.

Lemma large_sent rt ia : 68 <= mtu < ip_len (p_ip m) ->
  let xs := pieces (Z.to_nat ((mtu - 20) / 8 * 8)) (p_payload m) in
  Z.of_nat (length xs) - 1 <= ifq_maxlen (e_ifnet e i) - ifq_len (e_ifnet e i) ->
  exists frags outs, out_large e i (mkChoice (complete m next_id) (Some rt) ia (Some i) mtu hop) = Some (0, outs) /\
  Forall2 (fun o p => exists d, o = OutIf i p d) outs frags /\ Forall2 (carries (complete m next_id) []) frags xs.
Proof.
  intros Le xs Q. destruct m_ok as [(K & O & L & F & Gr & Nh & Ms & Mc) _]. destruct if_ok as (Lo & Tx & If & Mem & _).
  pose proof (complete_ok next_id next_id_u16) as Ok.
  assert (p_opts (complete m next_id) = []) as Eo by exact O.
  unfold out_large. cbn [c_p c_mtu c_dst]. unfold out_delayed. change (flag_set (p_csum_flags (complete m next_id)) CSUM_TU) with false. cbv iota.
  change (flag_set (ip_off (p_ip (complete m next_id))) IP_DF) with false. cbv iota.
  destruct (ip_fragment_ok e (complete m next_id) i mtu [] Ok Mem) as (frags & E & F2 & S).
  - by rewrite Eo.
  - by rewrite Tx.
  - rewrite Eo. change (ip_len (p_ip (complete m next_id))) with (ip_len (p_ip m)). simpl. lia.
  - by rewrite Eo.
  - rewrite E. change (negb (0 =? 0)) with false. cbv iota. rewrite Eo in F2.
    destruct (out_fragments_all frags) as (outs & Eout & Fo).
    { eapply Forall_impl; [exact S|]. intros p [_ [->| ->]]; done. }
    exists frags, outs. rewrite Eout. done.
Qed.
End sender.

(** Where the protocol leaves the checksum of the data to [ip_output], the
    packets are those of a protocol that computes it. *)
Section deferred.
Variables (e : ipenv) (m : opkt) (i id : Z).
Hypothesis m_ok : from_protocol m.
Hypothesis if_ok : plain_interface e i.
Hypothesis id_ok : is_u16 id.

Lemma header_cksum_ext h x y : iphdr_ok h -> Forall is_byte x -> Forall is_byte y -> length x = length y -> 20 + Z.of_nat (length x) < 2 ^ 31 ->
  header_cksum (ip_encode h ++ x) 20 = header_cksum (ip_encode h ++ y) 20.
Proof.
  intros K X Y Ll L. pose proof (ip_encode_range h K) as R.
  rewrite !header_cksum_norm; try (rewrite length_app, length_ip_encode; lia); try (apply Forall_app; by split).
  change (Z.to_nat 20) with 20%nat. rewrite <- (length_ip_encode h). by rewrite !take_app_length.
Qed.

Lemma pending_checksummed p : p_payload p = p_payload m -> p_csum_data p = Z.lor (p_csum_data m) (Z.shiftl 20 16) ->
  flag_set (p_csum_flags p) CSUM_TU = flag_set (p_csum_flags m) CSUM_TU ->
  flag_set (p_csum_flags p) M_CSUM_UDPv4 = flag_set (p_csum_flags m) M_CSUM_UDPv4 -> checksummed p = checksummed m.
Proof.
  intros E1 E2 E3 E4. assert (Z.land (Z.lor (p_csum_data m) (Z.shiftl 20 16)) 0xffff = Z.land (p_csum_data m) 0xffff) as Ed.
  { rewrite Z.land_lor_distr_l. change (Z.land (Z.shiftl 20 16) 65535) with 0. apply Z.lor_0_r. }
  unfold checksummed, data_sum. by rewrite E1, E2, E3, E4, Ed.
Qed.

(** The delayed checksum of a packet with the data and flags of [m]. *)
Lemma out_delayed_spec p : p_hdr p = (p_hdr (complete m id)) <| ip_sum := ip_sum (p_hdr p) |> -> is_u16 (ip_sum (p_hdr p)) ->
  p_opts p = [] -> p_payload p = p_payload m -> p_csum_data p = Z.lor (p_csum_data m) (Z.shiftl 20 16) ->
  p_csum_flags p = p_csum_flags m \/ p_csum_flags p = Z.lor (p_csum_flags m) M_CSUM_IPv4 ->
  forall sw, flag_set sw CSUM_TU = flag_set (p_csum_flags m) CSUM_TU ->
  out_delayed e i sw p = Some (p <| p_payload := checksummed m |> <| p_csum_flags := flag_clear (p_csum_flags p) CSUM_TU |>).
Proof.
  intros Eh Us O Ep Ed Ef sw Es. unfold out_delayed. rewrite Es. pose proof m_ok as [(K & Om & L & F & _) Cs].
  assert (flag_set (p_csum_flags p) CSUM_TU = flag_set (p_csum_flags m) CSUM_TU /\
          flag_set (p_csum_flags p) M_CSUM_UDPv4 = flag_set (p_csum_flags m) M_CSUM_UDPv4) as [Et Eu].
  { by destruct Ef as [->| ->], Cs as [->|[[->| ->] _]]. }
  rewrite <- (pending_checksummed p Ep Ed Et Eu).
  destruct Cs as [Cz|[Fl Cd]].
  - rewrite Cz. change (flag_set 0 CSUM_TU) with false. f_equal.
    assert (flag_clear (p_csum_flags p) CSUM_TU = p_csum_flags p) as -> by (by destruct Ef as [->| ->]; rewrite Cz).
    unfold checksummed. rewrite Et, Cz. change (flag_set 0 CSUM_TU) with false. by destruct p.
  - assert (flag_set (p_csum_flags m) CSUM_TU = true) as Tu by (by destruct Fl as [->| ->]). rewrite Tu in *.
    unfold IN_NEED_CHECKSUM. destruct if_ok as (-> & _). cbn [negb orb]. destruct (complete_ok m m_ok id id_ok) as (K' & _).
    rewrite in_delayed_spec; [done|..]; try done.
    + rewrite Eh. revert K'. unfold iphdr_ok. upd_simpl. tauto.
    + unfold p_ip. rewrite Eh. done.
    + unfold p_ip. rewrite Eh. upd_simpl. rewrite p_pktlen_parts, O, Ep. unfold p_ip in L. rewrite p_pktlen_parts, Om in L. exact L.
    + rewrite p_pktlen_parts, O, Ep. destruct (opkt_len _ (complete_ok m m_ok id id_ok)) as [L1 L2].
      change (p_opts (complete m id)) with (p_opts m) in *. change (p_payload (complete m id)) with (p_payload m) in *. rewrite Om in *. lia.
    + by rewrite Ep.
    + rewrite Ed, Ep, Z.land_lor_distr_l. change (Z.land (Z.shiftl 20 16) 0xffff) with 0. by rewrite Z.lor_0_r.
Qed.

Lemma whole_deferred rt ia mtu hop :
  out_whole e i (mkChoice (pending m id) rt ia (Some i) mtu hop) 20 = out_whole e i (mkChoice (complete (summed m) id) rt ia (Some i) mtu hop) 20.
Proof.
  destruct if_ok as (Lo & Tx & _). pose proof m_ok as [(K & Om & L & F & _) Cs].
  assert (header_cksum (p_bytes ((complete m id) <| p_hdr := (p_hdr (complete m id)) <| ip_sum := 0 |> |>)) 20 =
          header_cksum (p_bytes ((complete (summed m) id) <| p_hdr := (p_hdr (complete m id)) <| ip_sum := 0 |> |>)) 20 /\
          is_u16 (header_cksum (p_bytes ((complete m id) <| p_hdr := (p_hdr (complete m id)) <| ip_sum := 0 |> |>)) 20)) as [Eh Us].
  { pose proof (complete_ok m m_ok id id_ok) as Ok. destruct (opkt_len _ Ok) as [L1 L2]. destruct Ok as (K' & V' & _ & _ & Fo & Fp & _).
    change (p_opts (complete m id)) with (p_opts m) in *. change (p_payload (complete m id)) with (p_payload m) in *.
    split.
    - unfold p_bytes. cbn [p_hdr p_opts p_payload complete summed]. upd_simpl. unfold complete, summed. upd_simpl. rewrite Om. cbn [app]. apply header_cksum_ext.
      + revert K'. unfold iphdr_ok, complete. upd_simpl. unfold is_u16. intuition lia.
      + done.
      + by apply checksummed_bytes.
      + symmetry; by apply checksummed_length.
      + rewrite Om in *. simpl in *. lia.
    - destruct (with_cksum_verifies (complete m id) K' V' Fo Fp) as [U _]; [rewrite p_pktlen_parts; change (p_opts (complete m id)) with (p_opts m); change (p_payload (complete m id)) with (p_payload m); lia|].
      change (p_opts (complete m id)) with (p_opts m) in U. rewrite Om in U. exact U. }
  unfold out_whole. cbn [c_p c_dst]. rewrite Tx.
  change (p_csum_flags (pending m id)) with (Z.lor (p_csum_flags m) M_CSUM_IPv4). change (p_csum_flags (complete (summed m) id)) with M_CSUM_IPv4.
  assert (flag_set (Z.lor (p_csum_flags m) M_CSUM_IPv4) M_CSUM_TSOv4 = false /\ flag_clear (Z.lor (p_csum_flags m) M_CSUM_IPv4) 0 = Z.lor (p_csum_flags m) M_CSUM_IPv4 /\
    flag_set (Z.lor (p_csum_flags m) M_CSUM_IPv4) M_CSUM_IPv4 = true /\ flag_clear (Z.lor (p_csum_flags m) M_CSUM_IPv4) M_CSUM_IPv4 = p_csum_flags m /\
    flag_set (Z.lor (p_csum_flags m) M_CSUM_IPv4) CSUM_TU = flag_set (p_csum_flags m) CSUM_TU /\ flag_clear (p_csum_flags m) CSUM_TU = 0)
    as (-> & -> & -> & Ec & Eu & Ez) by (by destruct Cs as [->|[[->| ->] _]]).
  change (flag_set M_CSUM_IPv4 M_CSUM_TSOv4) with false. change (flag_set (flag_clear M_CSUM_IPv4 0) M_CSUM_IPv4) with true.
  unfold IN_NEED_CHECKSUM at 1 2. rewrite Lo. cbn [negb orb]. cbv iota zeta.
  match goal with |- match ?a with _ => _ end = match ?b with _ => _ end => enough (a = b) as -> by done end.
  erewrite out_delayed_spec; [|done|exact Us|exact Om|done|done|left; exact Ec|exact Eu].
  unfold out_delayed at 1. change (flag_set (flag_clear M_CSUM_IPv4 0) CSUM_TU) with false. cbv iota. f_equal.
  unfold pending, complete, summed in *. upd_simpl. upd_simpl in Eh. upd_simpl in Ec. rewrite Ec, Ez. unfold p_bytes in *. upd_simpl. upd_simpl in Eh. cbn [p_hdr p_opts p_payload] in *.
  rewrite Eh. done.
Qed.

Lemma large_deferred rt ia mtu hop :
  out_large e i (mkChoice (pending m id) rt ia (Some i) mtu hop) = out_large e i (mkChoice (complete (summed m) id) rt ia (Some i) mtu hop).
Proof.
  pose proof m_ok as [(K & Om & L & F & _) Cs]. unfold out_large. cbn [c_p c_dst c_mtu].
  change (p_csum_flags (pending m id)) with (Z.lor (p_csum_flags m) M_CSUM_IPv4). change (p_csum_flags (complete (summed m) id)) with M_CSUM_IPv4.
  assert (flag_set (Z.lor (p_csum_flags m) M_CSUM_IPv4) CSUM_TU = flag_set (p_csum_flags m) CSUM_TU /\
    flag_clear (Z.lor (p_csum_flags m) M_CSUM_IPv4) CSUM_TU = M_CSUM_IPv4) as [Eu Ez] by (by destruct Cs as [->|[[->| ->] _]]).
  rewrite out_delayed_spec; [|done|destruct (complete_ok m m_ok id id_ok) as ((_ & _ & H) & _); revert H; unfold pending; upd_simpl; tauto|exact Om|done|done|by right|exact Eu].
  unfold out_delayed. change (flag_set M_CSUM_IPv4 CSUM_TU) with false. cbv iota.
  change (p_csum_flags (pending m id)) with (Z.lor (p_csum_flags m) M_CSUM_IPv4). rewrite Ez. done.
Qed.
End deferred.

(** ** Fragments on the way *)

Section way.
Variables (M : opkt) (n : nat).
Hypothesis M_ok : opkt_ok M.
Hypothesis M_opts : p_opts M = [].
Hypothesis n_ok : (48 <= n)%nat /\ Z.of_nat n mod 8 = 0 /\ (n < length (p_payload M))%nat.
Abbreviation xs := (pieces n (p_payload M)).

Lemma M_hl : ip_hl (p_ip M) = 5.
Proof using M_ok M_opts. clear n_ok. destruct M_ok as (_ & _ & H & _). rewrite M_opts in H. simpl in H. lia. Qed.

(** The header bytes of a piece. *)
Definition way_hdr (x : piece) : list Z := ip_encode (piece_hdr M [] x).

Lemma piece_hdr_ip x : iph (piece_hdr M [] x) = piece_ip (p_ip M) 20 x.
Proof. unfold piece_hdr, piece_opts, frag_ip, with_cksum. rewrite M_opts. cbv zeta. upd_simpl. by destruct (p_off x =? 0). Qed.

Lemma carries_wire p x : carries M [] p x -> (p_ip p, p_bytes p) = wire (p_ip M) way_hdr x /\ p_opts p = [].
Proof using M_ok M_opts.
  intros (Eo & Ep & Eh & _). unfold piece_opts in Eo. rewrite M_opts in Eo.
  assert (p_opts p = []) as Eo' by (rewrite Eo; by destruct (p_off x =? 0)). split; [|done].
  unfold wire, way_hdr, p_bytes, p_ip at 1. rewrite Eh, Ep, Eo', piece_hdr_ip. cbn [app]. f_equal. unfold piece_ip. rewrite M_hl. done.
Qed.

Lemma xs_facts x : x ∈ xs -> 0 < p_len x /\ 0 <= p_off x < 2 ^ 16 /\ p_off x mod 8 = 0 /\ (p_mff x = true -> p_len x mod 8 = 0) /\
  48 <= (if 0 <? p_off x then p_off x else p_len x) /\ (0 < p_off x \/ p_mff x = true) /\ 20 + p_len x < 2 ^ 16.
Proof.
  intros Hx. destruct n_ok as (N & N8 & Nl). destruct (opkt_len M M_ok) as [L R]. rewrite M_opts in L, R. simpl in L, R.
  pose proof (chop_pieces_ok (length (p_payload M)) n 0 (p_payload M) ltac:(lia) ltac:(lia)) as F. rewrite Forall_forall in F.
  destruct (F x Hx) as (Rl & [q Dv] & Ro & Mf). pose proof (layout_bounds _ _ _ Hx) as B. unfold p_end, p_total in B.
  rewrite layout_data, chop_concat in B by lia. apply Z.mod_divide in N8 as [w W]; [|lia].
  assert (0 < p_off x \/ (p_off x = 0 /\ p_mff x = true)) as Zr.
  { destruct (decide (0 < p_off x)) as [|O]; [by left|right]. split; [lia|].
    assert (p_payload M <> []) as Ne by (intros E; rewrite E in Nl; simpl in Nl; lia).
    revert Hx. unfold pieces. rewrite layout_chop by (done || lia).
    intros [->|Hx]%elem_of_cons; [simpl; by apply bool_decide_true|].
    pose proof (layout_after (0 + Z.of_nat (length (take n (p_payload M)))) (chop (length (drop n (p_payload M))) n (drop n (p_payload M)))) as A.
    rewrite Forall_forall in A. specialize (A x Hx). rewrite length_take in A. lia. }
  split; [lia|]. split; [lia|]. split.
  { apply Z.mod_divide; [lia|]. exists (q * w). nia. }
  split; [intros E; rewrite (Mf E); apply Z.mod_divide; [lia|]; by exists w|]. split; [|split; [tauto|lia]].
  destruct (Z.ltb_spec 0 (p_off x)); [|destruct Zr as [|[_ E]]; [lia|rewrite (Mf E); lia]].
  assert (1 <= q) by nia. nia.
Qed.

Lemma carries_sent p x : x ∈ xs -> carries M [] p x -> sent_ok p /\ ip_src (p_ip p) = ip_src (p_ip M) /\ ip_dst (p_ip p) = ip_dst (p_ip M) /\
  flag_set (ip_off (p_ip p)) (Z.lor IP_MF IP_OFFMASK) = true.
Proof.
  intros Hx C. destruct (carries_wire p x C) as [W Eo]. destruct (xs_facts x Hx) as (Lp & Lo & _ & _ & _ & Zr & Lx).
  destruct C as (_ & Ep & Eh & K & Ck). unfold p_ip in *. rewrite Eh, piece_hdr_ip. rewrite Eo in Ck. simpl in Ck.
  unfold piece_ip, p_ip. upd_simpl. split; [|split; [done|split; [done|]]].
  - split; [done|]. split; [rewrite Eh; destruct M_ok as (_ & V & _); unfold piece_hdr, with_cksum; cbv zeta; upd_simpl; done|]. split; [done|].
    unfold p_ip. rewrite Eh, piece_hdr_ip. unfold piece_ip. upd_simpl. split; [exact M_hl|]. split; [|done].
    rewrite p_pktlen_parts, Eo, Ep. done.
  - assert (0 <= p_off x / 8 < 2 ^ 13) as R by (split; [apply Z.div_pos|apply Z.div_lt_upper_bound]; lia).
    unfold flag_set. change (Z.lor IP_MF IP_OFFMASK) with (Z.ones 14). rewrite Z.land_ones by lia.
    rewrite Z.mod_small by (unfold IP_MF; destruct (p_mff x); lia). apply negb_true_iff, Z.eqb_neq.
    destruct (xs_facts x Hx) as (_ & _ & M8 & _). destruct Zr as [O|Mf].
    + pose proof (Z.div_mod (p_off x) 8 ltac:(lia)). unfold IP_MF. destruct (p_mff x); lia.
    + rewrite Mf. unfold IP_MF. lia.
Qed.

Lemma way_fragmented : fragmented (p_ip M) way_hdr (chop (length (p_payload M)) n (p_payload M)).
Proof.
  destruct (opkt_len M M_ok) as [L R]. rewrite M_opts in L, R. simpl in L, R. destruct n_ok as (N & N8 & Nl).
  split; [|split; [|split; [|split]]].
  - apply Forall_forall. intros x Hx. destruct (xs_facts x Hx) as (Lp & Lo & O8 & M8 & Mn & _). unfold piece_ok. rewrite M_hl.
    split; [done|]. split; [lia|]. split; [done|]. split; [done|lia].
  - unfold p_total. rewrite layout_data, chop_concat, M_hl by lia. unfold IP_MAXPACKET. lia.
  - destruct (p_payload M); [simpl in *; lia|done].
  - rewrite M_hl. lia.
  - intros x. unfold way_hdr. rewrite length_ip_encode, M_hl. done.
Qed.
End way.

(** The receiver can reassemble one more datagram of [k] fragments. *)
Definition reass_room (s : instate) (h : ip) (k : nat) : Prop :=
  length (ip_frags (s_reass s)) = 64%nat /\ (k <= length (mempool (ipfren_cache (s_reass s))))%nat /\
  (0 <= ip_maxfragpackets (s_reass s) -> ip_nfragpackets (s_reass s) < ip_maxfragpackets (s_reass s)) /\
  find_queue h (bucket (s_reass s) (IPREASS_HASH (ip_src h) (ip_id h))) = None.

Lemma Forall2_perm_l {A B} (R : A -> B -> Prop) l l' k : Forall2 R l k -> l' ≡ₚ l -> exists k', k' ≡ₚ k /\ Forall2 R l' k'.
Proof.
  intros F P. symmetry in P. revert k F. induction P as [|x l l' _ IH|x y l|l l1 l' _ IH1 _ IH2]; intros k F.
  - by exists k.
  - inversion F as [|? y ? k1 Rx F1]; subst. destruct (IH k1 F1) as (k' & Pk & Fk). exists (y :: k'). split; [by constructor|by constructor].
  - inversion F as [|? y1 ? k1 Ry F1]; subst. inversion F1 as [|? x1 ? k2 Rx F2]; subst. exists (x1 :: y1 :: k2).
    split; [apply perm_swap|by repeat constructor].
  - destruct (IH1 k F) as (k1 & P1 & F1). destruct (IH2 k1 F1) as (k2 & P2 & F2). exists k2. split; [by etransitivity|done].
Qed.

(** All fragments of [M] arrive, in some order. *)
Lemma fragments_delivered ne rcvif s M n frags ps ks : opkt_ok M -> p_opts M = [] ->
  (48 <= n)%nat /\ Z.of_nat n mod 8 = 0 /\ (n < length (p_payload M))%nat ->
  host_accepts ne rcvif (p_ip M) -> reass_room s (p_ip M) (length (pieces n (p_payload M))) ->
  Forall2 (carries M []) frags (pieces n (p_payload M)) -> ps ≡ₚ frags -> Forall2 (arrives_as rcvif) ps ks ->
  exists s', ip_inputs ne s ks =
    Some (replicate (length ks - 1) IPending ++ [IDeliver (ip_p (p_ip M)) 20 (mkPacket (p_ip M) (p_payload M))], s').
Proof.
  intros K O N Ha (R1 & R2 & R3 & R4) C P Ar. destruct (Forall2_perm_l _ _ _ _ C P) as (ys & P' & C').
  assert (((fun p => (p_ip p, p_bytes p)) <$> ps) = (wire (p_ip M) (way_hdr M) <$> ys)) as Ew.
  { clear -C' K O. induction C' as [|p y ps ys Cp _ IH]; [done|]. csimpl. destruct (carries_wire M K O p y Cp) as [-> _]. by rewrite IH. }
  destruct (receive_any_order (p_ip M) (way_hdr M) _ (s_reass s) ys (way_fragmented M n K O N) P' R1 ltac:(by rewrite P') R3 R4) as (g' & E).
  rewrite <- Ew in E.
  assert (length ys = length ks) as Ly by (rewrite <- (Forall2_length _ _ _ C'); apply (Forall2_length _ _ _ Ar)).
  destruct (ip_inputs_fragments ne rcvif (p_ip M) s ps ks Ha) with (2 := Ar) (3 := E) as (s' & Es).
  { apply Forall_forall. intros p Hp. destruct (list_elem_of_lookup_1 _ _ Hp) as (j & Ej).
    destruct (Forall2_lookup_l _ _ _ _ _ C' Ej) as (y & Ey & Cy). eapply carries_sent; [done|done|exact N| |exact Cy].
    rewrite <- P'. by eapply list_elem_of_lookup_2. }
  exists s'. rewrite Es. f_equal. f_equal. rewrite fmap_app, fmap_replicate. cbn [fmap list_fmap reass_result pkt_ip].
  rewrite Ly. f_equal. f_equal. destruct (opkt_len M K) as [L R]. rewrite O in L. simpl in L. destruct K as (_ & _ & H & _ & _ & _ & Off).
  rewrite O in H. simpl in H. assert (ip_hl (p_ip M) = 5) as H5 by lia.
  upd_simpl. rewrite H5. f_equal. unfold p_total. rewrite layout_data, chop_concat by lia.
  assert (forall (h : ip) a b, a = ip_len h -> b = ip_off h -> h <| ip_len := a |> <| ip_off := b |> = h) as Eh by (by intros [] a b -> ->).
  by rewrite Eh by lia.
Qed.


(** A UDP packet of 100 bytes, the checksum at byte 6 of which is left to
    [ip_output], over an interface with an MTU of 72. *)
Definition ex_rt : rtentry := mkRt RTF_UP 0x0200000a 0 (Some 1) (mkIa 0x0100000a 0 0 0 0 0 0 1) 0 0.
Definition ex_sender : ipenv :=
  mkIpenv (fun _ => ex_ifnet) (fun _ => Some ex_rt) (fun _ => None) (fun _ _ => false) (fun _ => 0) true (fun _ => true) (fun _ => true)
    true 100 0 false false false false true.
Definition ex_packet : opkt :=
  mkOpkt (mkIph (mkIp 0 0 120 0 0 17 0x0100000a 0x0200000a) 0 64 0) [] (Z.of_nat <$> seq 0 100) 0 M_CSUM_UDPv4 6 0.
Definition ex_ipg : ipglobals := mkIpg 7 (mkIpid 0 []).
Definition ex_ia : in_ifaddr := mkIa 0x0200000a 0 0 0 0 0 0 1.
Definition ex_receiver : inenv :=
  mkInenv ex_sender [ex_ia] (replicate (Z.to_nat 509) [ex_ia]) (fun _ => None) (fun _ _ => None) (fun _ _ => None)
    0 true true false false false false false false.
Definition ex_instate : instate := mkInst ex_g 0 (mkSrcrt 0 []) empty_route ex_ipg.

Lemma ex_g_room h : reass_room ex_instate h 3.
Proof.
  split; [done|]. split; [done|]. split; [done|]. simpl s_reass. unfold bucket. change (ip_frags ex_g) with (replicate 64 (@nil ipfr_queue)).
  destruct (replicate 64 [] !! _) as [b|] eqn:E; [|done]. apply lookup_replicate in E as [-> _]. done.
Qed.


(** The bytes 6 and 7 become the checksum, the others stay. *)
Example ex_packet_summed :
  take 10 (checksummed ex_packet) = [0; 1; 2; 3; 4; 5; 100; 50; 8; 9] /\ drop 8 (checksummed ex_packet) = Z.of_nat <$> seq 8 92.
Proof. by vm_compute. Qed.
