(* ===== verification/TcpOptions.v ===== *)
(** * TCP options ([tcp_dooptions], src/netbsd/netinet/tcp_input.c)

    The options of a segment are a list of bytes; reading outside of it is
    [None], and so is a loop that does not end.  The signature option is not
    compiled in. *)

From S2P Require Import Prelude Pool TcpSeq Callout Tcpcb TcpSack TcpSackFacts.

Definition TCPOPT_EOL : Z := 0.
Definition TCPOPT_NOP : Z := 1.
Definition TCPOPT_MAXSEG : Z := 2.
Definition TCPOLEN_MAXSEG : Z := 4.
Definition TCPOPT_WINDOW : Z := 3.
Definition TCPOLEN_WINDOW : Z := 3.
Definition TCPOPT_SACK_PERMITTED : Z := 4.
Definition TCPOLEN_SACK_PERMITTED : Z := 2.
Definition TCPOPT_SACK : Z := 5.
Definition TCPOPT_TIMESTAMP : Z := 8.
Definition TCPOLEN_TIMESTAMP : Z := 10.
Definition TCP_MAX_WINSHIFT : Z := 14.

Record tcp_opt_info := mkOpt { ts_present : bool; ts_val : Z; ts_ecr : Z; maxseg : Z }.

#[export] Instance eta_tcp_opt_info : EtaRecord tcp_opt_info :=
  fun r => mkOpt (ts_present r) (ts_val r) (ts_ecr r) (maxseg r).

(** [bcopy] of two and of four bytes, with [ntohs] and [ntohl]. *)
Definition rd16 (cp : list Z) (i : nat) : option Z :=
  a ← cp !! i; b ← cp !! S i; Some (a * 256 + b).

Definition rd32 (cp : list Z) (i : nat) : option Z :=
  h ← rd16 cp i; l ← rd16 cp (S (S i)); Some (h * 65536 + l).

Section options.
Variables (tcp_now : Z) (tcp_do_sack : bool) (th : tcphdr).

Definition opts : Type := sack_globals * tcpcb * tcp_opt_info.

(** Options that count only in a SYN, before one has been received. *)
Definition syn_option (tp : tcpcb) : bool :=
  flag_set (th_flags th) TH_SYN && negb (TCPS_HAVERCVDSYN (t_state tp)).

Definition option_maxseg (s : opts) (optlen : Z) (cp : list Z) : option opts :=
  let '(g, tp, oi) := s in
  if negb (optlen =? TCPOLEN_MAXSEG) then Some s
  else if negb (syn_option tp) then Some s
  else mss ← rd16 cp 2; Some (g, tp, oi <| maxseg := mss |>).

Definition option_window (s : opts) (optlen : Z) (cp : list Z) : option opts :=
  let '(g, tp, oi) := s in
  if negb (optlen =? TCPOLEN_WINDOW) then Some s
  else if negb (syn_option tp) then Some s
  else
    w ← cp !! 2%nat;
    let tp := tp <| t_flags := Z.lor (t_flags tp) TF_RCVD_SCALE |> in
    let tp := tp <| requested_s_scale := if TCP_MAX_WINSHIFT <? w then TCP_MAX_WINSHIFT else w |> in
    Some (g, tp, oi).

Definition option_timestamp (s : opts) (optlen : Z) (cp : list Z) : option opts :=
  let '(g, tp, oi) := s in
  if negb (optlen =? TCPOLEN_TIMESTAMP) then Some s
  else
    v ← rd32 cp 2; e ← rd32 cp 6;
    let oi := oi <| ts_present := true |> <| ts_val := v |> <| ts_ecr := e |> in
    if negb (syn_option tp) then Some (g, tp, oi)
    else
      let tp := tp <| t_flags := Z.lor (t_flags tp) TF_RCVD_TSTMP |> in
      Some (g, tp <| ts_recent := v |> <| ts_recent_age := tcp_now |>, oi).

Definition option_sack_permitted (s : opts) (optlen : Z) : option opts :=
  let '(g, tp, oi) := s in
  if negb (optlen =? TCPOLEN_SACK_PERMITTED) then Some s
  else if negb (syn_option tp) then Some s
  else if tcp_do_sack then
    let tp := tp <| t_flags := Z.lor (t_flags tp) TF_SACK_PERMIT |> in
    Some (g, tp <| t_flags := Z.lor (t_flags tp) TF_WILL_SACK |>, oi)
  else Some s.

Definition option_sack (s : opts) (optlen : Z) (cp : list Z) : option opts :=
  let '(g, tp, oi) := s in
  r ← tcp_sack_option g tp th cp optlen; Some (r.1, r.2, oi).

(** The switch on the kind of the option at [cp]. *)
Definition do_option (s : opts) (opt optlen : Z) (cp : list Z) : option opts :=
  if opt =? TCPOPT_MAXSEG then option_maxseg s optlen cp
  else if opt =? TCPOPT_WINDOW then option_window s optlen cp
  else if opt =? TCPOPT_TIMESTAMP then option_timestamp s optlen cp
  else if opt =? TCPOPT_SACK_PERMITTED then option_sack_permitted s optlen
  else if opt =? TCPOPT_SACK then option_sack s optlen cp
  else Some s.

(** [for (; cp && cnt > 0; cnt -= optlen, cp += optlen)] *)
Fixpoint dooptions_loop (fuel : nat) (s : opts) (cp : list Z) (cnt : Z) : option opts :=
  if cnt <=? 0 then Some s
  else
    match fuel with
    | O => None
    | S fuel =>
        opt ← cp !! 0%nat;
        if opt =? TCPOPT_EOL then Some s
        else if opt =? TCPOPT_NOP then dooptions_loop fuel s (drop 1 cp) (cnt - 1)
        else if cnt <? 2 then Some s
        else
          optlen ← cp !! 1%nat;
          if (optlen <? 2) || (cnt <? optlen) then Some s
          else
            s ← do_option s opt optlen cp;
            dooptions_loop fuel s (drop (Z.to_nat optlen) cp) (cnt - optlen)
    end.

(** [cnt] rounds are enough, an option being at least one byte long. *)
Definition tcp_dooptions (g : sack_globals) (tp : tcpcb) (cp : list Z) (cnt : Z) (oi : tcp_opt_info)
    : option opts :=
  dooptions_loop (Z.to_nat cnt) (g, tp, oi) cp cnt.
End options.

(** ** The SACK option touches the scoreboard only *)

Definition sack_frame (tp tp' : tcpcb) : Prop :=
  exists h n l f, tp' = tp <| snd_holes := h |> <| snd_numholes := n |> <| rcv_lastsack := l |> <| snd_fack := f |>.

Lemma sack_frame_refl tp : sack_frame tp tp.
Proof. exists (snd_holes tp), (snd_numholes tp), (rcv_lastsack tp), (snd_fack tp). by destruct tp. Qed.

Lemma sack_frame_trans tp1 tp2 tp3 : sack_frame tp1 tp2 -> sack_frame tp2 tp3 -> sack_frame tp1 tp3.
Proof. intros (h & n & l & f & ->) (h' & n' & l' & f' & ->). by exists h', n', l', f'. Qed.

Lemma sack_frame_holes tp h : sack_frame tp (tp <| snd_holes := h |>).
Proof. exists h, (snd_numholes tp), (rcv_lastsack tp), (snd_fack tp). by destruct tp. Qed.

Lemma sack_frame_lastsack tp l : sack_frame tp (tp <| rcv_lastsack := l |>).
Proof. exists (snd_holes tp), (snd_numholes tp), l, (snd_fack tp). by destruct tp. Qed.

Lemma sack_frame_fack tp f : sack_frame tp (tp <| snd_fack := f |>).
Proof. exists (snd_holes tp), (snd_numholes tp), (rcv_lastsack tp), f. by destruct tp. Qed.

Ltac sack_frame_direct :=
  match goal with |- sack_frame ?tp ?t =>
    exists (snd_holes t), (snd_numholes t), (rcv_lastsack t), (snd_fack t); by destruct tp
  end.

#[local] Hint Resolve sack_frame_refl sack_frame_holes sack_frame_lastsack sack_frame_fack : stack.

Lemma sack_inserthole_frame g tp st en prev j g' tp' :
  sack_inserthole g tp st en prev = Some (j, g', tp') -> sack_frame tp tp'.
Proof.
  unfold sack_inserthole, sack_allochole. repeat case_match; try done; intros; simplify_eq;
  sack_frame_direct.
Qed.

Lemma sack_removehole_frame g tp i c g' tp' :
  sack_removehole g tp i = (c, g', tp') -> sack_frame tp tp'.
Proof.
  unfold sack_removehole. case_match; intros; simplify_eq; [|auto with stack].
  sack_frame_direct.
Qed.

Lemma sack_walk_frame sack rest : forall g tp i,
  match sack_walk sack g tp i rest with
  | WalkBreak _ _ tp' | WalkReturn _ tp' => sack_frame tp tp'
  | WalkForever => True
  end.
Proof.
  induction rest as [|cur next IH]; intros g tp i; simpl; [auto with stack|].
  repeat case_match; simplify_eq; auto with stack.
  all: try (specialize (IH g tp (S i)); match goal with E : sack_walk _ _ _ _ _ = _ |- _ => rewrite E in IH end; done).
  - by eapply sack_removehole_frame.
  - match goal with E : sack_inserthole _ _ _ _ _ = _ |- _ => apply sack_inserthole_frame in E end.
    eapply sack_frame_trans; [done|]. eapply sack_frame_trans; apply sack_frame_holes.
Qed.

Lemma sack_update_frame th blocks : forall g tp cur g' tp',
  sack_update th blocks g tp cur = Some (g', tp') -> sack_frame tp tp'.
Proof.
  induction blocks as [|sack blocks IH]; intros g tp cur g' tp'; simpl; [intros; simplify_eq; auto with stack|].
  set (tp0 := if SEQ_GEQ _ _ then _ else _).
  assert (sack_frame tp tp0) as F0 by (subst tp0; case_match; auto with stack).
  clearbody tp0. intros E. apply (sack_frame_trans _ _ _ F0). clear F0 tp. revert E.
  destruct (snd_holes tp0).
  { destruct (sack_inserthole _ _ _ _ _) as [[[j g1] tp1]|] eqn:Ei; intros E; simplify_eq; auto with stack.
    apply sack_inserthole_frame in Ei. apply IH in E. eapply sack_frame_trans; [done|].
    eapply sack_frame_trans; [apply sack_frame_lastsack|done]. }
  set (w := match cur with None => _ | Some i => _ end).
  assert (match w with WalkBreak _ _ tp' | WalkReturn _ tp' => sack_frame tp0 tp' | WalkForever => True end) as Fw.
  { subst w. destruct cur; [apply sack_walk_frame|auto with stack]. }
  destruct w as [cur' g1 tp1|g1 tp1|]; [|intros; simplify_eq; done|done].
  intros E. apply (sack_frame_trans _ _ _ Fw). clear Fw. revert E.
  repeat case_match; intros E; simplify_eq; auto with stack;
    repeat match goal with E : sack_inserthole _ _ _ _ _ = Some _ |- _ => apply sack_inserthole_frame in E end;
    apply IH in E; eauto using sack_frame_trans, sack_frame_lastsack.
Qed.

Lemma tcp_sack_option_frame g tp th cp optlen g' tp' :
  tcp_sack_option g tp th cp optlen = Some (g', tp') -> sack_frame tp tp'.
Proof.
  unfold tcp_sack_option. destruct (sack_extract _ _ _ _ _) as [bs|]; cbn [mbind option_bind];
    repeat case_match; intros; simplify_eq; auto with stack.
  by eapply sack_update_frame.
Qed.

(** ** Every option list is read to its end *)

Lemma rd16_in cp i : (S i < length cp)%nat -> is_Some (rd16 cp i).
Proof.
  intros L. unfold rd16. destruct (lookup_lt_is_Some_2 cp i) as [a ->]; [lia|].
  destruct (lookup_lt_is_Some_2 cp (S i)) as [b ->]; [lia|]. by eexists.
Qed.

Lemma rd32_in cp i : (S (S (S i)) < length cp)%nat -> is_Some (rd32 cp i).
Proof.
  intros L. unfold rd32. destruct (rd16_in cp i) as [a ->]; [lia|].
  destruct (rd16_in cp (S (S i))) as [b ->]; [lia|]. by eexists.
Qed.

Section total.
Variables (tcp_now : Z) (tcp_do_sack : bool) (th : tcphdr).

(** An option inside the list is read. *)
Lemma do_option_in s opt optlen cp :
  optlen <= Z.of_nat (length cp) -> is_Some (do_option tcp_now tcp_do_sack th s opt optlen cp).
Proof.
  intros L. destruct s as [[g tp] oi].
  unfold do_option, option_maxseg, option_window, option_timestamp, option_sack_permitted.
  destruct (Z.eqb_spec opt TCPOPT_MAXSEG); [|destruct (Z.eqb_spec opt TCPOPT_WINDOW);
    [|destruct (Z.eqb_spec opt TCPOPT_TIMESTAMP); [|destruct (Z.eqb_spec opt TCPOPT_SACK_PERMITTED);
    [|destruct (Z.eqb_spec opt TCPOPT_SACK); [|by eexists]]]]].
  - destruct (Z.eqb_spec optlen TCPOLEN_MAXSEG) as [->|]; simpl; [|by eexists]. unfold TCPOLEN_MAXSEG in L.
    destruct (negb _); [by eexists|]. destruct (rd16_in cp 2) as [? ->]; [lia|]. by eexists.
  - destruct (Z.eqb_spec optlen TCPOLEN_WINDOW) as [->|]; simpl; [|by eexists]. unfold TCPOLEN_WINDOW in L.
    destruct (negb _); [by eexists|]. destruct (lookup_lt_is_Some_2 cp 2) as [? ->]; [lia|]. by eexists.
  - destruct (Z.eqb_spec optlen TCPOLEN_TIMESTAMP) as [->|]; simpl; [|by eexists]. unfold TCPOLEN_TIMESTAMP in L.
    destruct (rd32_in cp 2) as [? ->]; [lia|]. destruct (rd32_in cp 6) as [? ->]; [lia|].
    simpl. destruct (negb _); by eexists.
  - destruct (negb _); [by eexists|]. destruct (negb _); [by eexists|]. destruct tcp_do_sack; by eexists.
  - unfold option_sack. destruct (tcp_sack_option_total g tp th cp optlen L) as [r ->]. by eexists.
Qed.

(** One round of the loop, on options that are all in the list. *)
Lemma dooptions_total fuel : forall s cp cnt,
  Z.of_nat (length cp) = cnt -> cnt <= Z.of_nat fuel -> is_Some (dooptions_loop tcp_now tcp_do_sack th fuel s cp cnt).
Proof.
  induction fuel as [|fuel IH]; intros s cp cnt L F; simpl; (destruct (Z.leb_spec cnt 0); [by eexists|]); [lia|].
  destruct (lookup_lt_is_Some_2 cp 0) as [opt ->]; [lia|]. simpl.
  destruct (opt =? TCPOPT_EOL); [by eexists|].
  destruct (opt =? TCPOPT_NOP); [apply IH; [rewrite length_drop|]; lia|].
  destruct (Z.ltb_spec cnt 2); [by eexists|].
  destruct (lookup_lt_is_Some_2 cp 1) as [optlen ->]; [lia|]. simpl.
  destruct (Z.ltb_spec optlen 2); simpl; [by eexists|]. destruct (Z.ltb_spec cnt optlen); [by eexists|].
  destruct (do_option_in s opt optlen cp) as [s1 ->]; [lia|]. simpl. apply IH; [rewrite length_drop|]; lia.
Qed.

(** The lists of SACK blocks among the options, as the loop meets them: the
    bytes from the option on and its length. *)
Fixpoint sack_lists (fuel : nat) (cp : list Z) : list (list Z * Z) :=
  match fuel, cp with
  | S fuel, opt :: _ =>
      if opt =? TCPOPT_EOL then []
      else if opt =? TCPOPT_NOP then sack_lists fuel (drop 1 cp)
      else
        match cp !! 1%nat with
        | None => []
        | Some optlen =>
            if (optlen <? 2) || (Z.of_nat (length cp) <? optlen) then []
            else (if opt =? TCPOPT_SACK then [(cp, optlen)] else []) ++ sack_lists fuel (drop (Z.to_nat optlen) cp)
        end
  | _, _ => []
  end.

(** Every block of theirs lies above the cumulative acknowledgement. *)
Definition sack_above (tp : tcpcb) (cp : list Z) : Prop :=
  Forall (fun o => Forall (peer_ok th) (sack_blocks tp th o.1 o.2)) (sack_lists (length cp) cp).

(** What every option leaves alone, and the window shift it may set. *)
Definition opt_kept (tp0 : tcpcb) (s : opts) : Prop :=
  same_window tp0 s.1.2 /\ requested_s_scale s.1.2 <= TCP_MAX_WINSHIFT.

Definition opt_inv (others : Z) (objs : list addr) (s : opts) : Prop := sack_inv others objs s.1.1 s.1.2.

Lemma sack_inv_ext others objs g tp tp' :
  snd_holes tp' = snd_holes tp -> snd_numholes tp' = snd_numholes tp -> snd_una tp' = snd_una tp ->
  snd_max tp' = snd_max tp -> rcv_lastsack tp' = rcv_lastsack tp ->
  sack_inv others objs g tp -> sack_inv others objs g tp'.
Proof.
  unfold sack_inv, sack_board. intros Eh En Eu Em El (A & B & C). rewrite Eh, Eu, Em, El.
  split; [by eapply sack_acct_ext|done].
Qed.

Lemma do_option_kept tp0 s opt optlen cp s' : do_option tcp_now tcp_do_sack th s opt optlen cp = Some s' ->
  opt_kept tp0 s -> opt_kept tp0 s'.
Proof.
  intros E. destruct s as [[g tp] oi]. revert E.
  unfold do_option, option_maxseg, option_window, option_timestamp, option_sack_permitted, option_sack.
  destruct (tcp_sack_option g tp th cp optlen) as [[g' tp']|] eqn:Es; cbn [mbind option_bind].
  1: apply tcp_sack_option_frame in Es as (? & ? & ? & ? & ->).
  all: repeat case_match; intros E; simplify_option_eq; try done; unfold opt_kept, same_window in *; simpl in *; upd_simpl;
    intros (W & L); (split; [exact W|]); unfold TCP_MAX_WINSHIFT in *; try done; zcases.
Qed.

(** An option that is not a list of SACK blocks leaves the scoreboard alone. *)
Lemma do_option_inv others objs s opt optlen cp s' : opt <> TCPOPT_SACK ->
  do_option tcp_now tcp_do_sack th s opt optlen cp = Some s' ->
  opt_inv others objs s -> opt_inv others objs s'.
Proof.
  intros N E. destruct s as [[g tp] oi]. revert E.
  unfold do_option, option_maxseg, option_window, option_timestamp, option_sack_permitted.
  rewrite (proj2 (Z.eqb_neq _ _) N).
  repeat case_match; intros E; simplify_option_eq; try done; unfold opt_inv in *; upd_simpl;
    intros I; simpl in *; (eapply sack_inv_ext; [..|exact I]; done).
Qed.

Lemma sack_extract_window tp tp' acked n : same_window tp tp' -> forall lp acc,
  sack_extract tp' acked n lp acc = sack_extract tp acked n lp acc.
Proof.
  intros [_ M]. induction n as [|n IH]; intros lp acc; simpl; [done|].
  destruct (get_be32 lp), (get_be32 (drop 4 lp)); try done. cbn [mbind option_bind]. rewrite IH.
  unfold sack_skip. by rewrite M.
Qed.

Lemma sack_blocks_window tp tp' cp optlen : same_window tp tp' ->
  sack_blocks tp' th cp optlen = sack_blocks tp th cp optlen.
Proof.
  intros W. unfold sack_blocks. rewrite (sack_extract_window tp tp') by done. do 2 f_equal.
  unfold sack_acked. by rewrite (proj1 W).
Qed.

Lemma option_sack_inv others objs tp0 g tp oi optlen cp s' : opt_kept tp0 (g, tp, oi) -> optlen <= Z.of_nat (length cp) ->
  Forall (peer_ok th) (sack_blocks tp0 th cp optlen) -> option_sack th (g, tp, oi) optlen cp = Some s' ->
  opt_inv others objs (g, tp, oi) -> opt_inv others objs s'.
Proof.
  intros [W _] L P E I. unfold option_sack in E.
  destruct (tcp_sack_option_run others objs g tp th cp optlen I L) as (g' & tp' & E' & I' & _).
  { by rewrite (sack_blocks_window tp0). }
  rewrite E' in E. by simplify_eq/=.
Qed.

Lemma dooptions_loop_kept tp0 fuel : forall s cp cnt s',
  dooptions_loop tcp_now tcp_do_sack th fuel s cp cnt = Some s' -> opt_kept tp0 s -> opt_kept tp0 s'.
Proof.
  induction fuel as [|fuel IH]; intros s cp cnt s' E K; simpl in E; repeat (case_match || simplify_option_eq); try done;
    eauto using do_option_kept.
Qed.

Lemma dooptions_loop_inv others objs tp0 fuel : forall s cp s',
  dooptions_loop tcp_now tcp_do_sack th fuel s cp (Z.of_nat (length cp)) = Some s' -> opt_kept tp0 s ->
  Forall (fun o => Forall (peer_ok th) (sack_blocks tp0 th o.1 o.2)) (sack_lists fuel cp) ->
  opt_inv others objs s -> opt_inv others objs s'.
Proof.
  induction fuel as [|fuel IH]; intros s cp s' E K P I; simpl in E; (destruct (Z.leb_spec (Z.of_nat (length cp)) 0); [by simplify_eq|]); [done|].
  destruct cp as [|opt cp1]; [simpl in *; lia|]. cbn [sack_lists] in P. set (cp := opt :: cp1) in *.
  change (cp !! 0%nat) with (Some opt) in E. cbn [mbind option_bind] in E.
  destruct (opt =? TCPOPT_EOL); [by simplify_eq|]. destruct (opt =? TCPOPT_NOP).
  { eapply (IH _ (drop 1 cp)); [|done..]. by replace (Z.of_nat (length (drop 1 cp))) with (Z.of_nat (length cp) - 1) by (rewrite length_drop; lia). }
  destruct (Z.ltb_spec (Z.of_nat (length cp)) 2); [by simplify_eq|].
  destruct (cp !! 1%nat) as [optlen|]; [|done]. cbn [mbind option_bind] in E.
  destruct (Z.ltb_spec optlen 2); cbn [orb] in *; [by simplify_eq|].
  destruct (Z.ltb_spec (Z.of_nat (length cp)) optlen); [by simplify_eq|].
  destruct (do_option _ _ _ _ _ _ _) as [s1|] eqn:Eo; [|done]. cbn [mbind option_bind] in E.
  apply Forall_app in P as [P1 P2].
  eapply (IH s1 (drop (Z.to_nat optlen) cp)); [|by eapply do_option_kept|done|].
  { by replace (Z.of_nat (length (drop (Z.to_nat optlen) cp))) with (Z.of_nat (length cp) - optlen) by (rewrite length_drop; lia). }
  destruct (Z.eqb_spec opt TCPOPT_SACK) as [->|N]; [|by eapply do_option_inv].
  destruct s as [[g tp] oi]. eapply (option_sack_inv others objs tp0 g tp oi optlen cp); [done|lia|by apply Forall_cons in P1 as [P1 _]|exact Eo|done].
Qed.
End total.

(** C38. Termination and bounds of option parsing: for every list of option bytes
    (malformed lengths and any SACK blocks included) the loop of
    [tcp_dooptions] ends and reads no byte outside the list; it leaves the send
    window as it was and the peer's window shift at most 14.  A well-formed
    scoreboard stays well formed when the blocks of the SACK options it meets
    lie above the cumulative acknowledgement. *)
Theorem tcp_dooptions_total tcp_now tcp_do_sack th g tp cp oi :
  requested_s_scale tp <= TCP_MAX_WINSHIFT ->
  exists g' tp' oi', tcp_dooptions tcp_now tcp_do_sack th g tp cp (Z.of_nat (length cp)) oi = Some (g', tp', oi') /\
    same_window tp tp' /\ requested_s_scale tp' <= TCP_MAX_WINSHIFT /\
    forall others objs, sack_inv others objs g tp -> sack_above th tp cp -> sack_inv others objs g' tp'.
Proof.
  intros L. unfold tcp_dooptions. rewrite Nat2Z.id.
  destruct (dooptions_total tcp_now tcp_do_sack th (length cp) (g, tp, oi) cp (Z.of_nat (length cp))) as [[[g' tp'] oi'] E]; [done|lia|].
  assert (opt_kept tp (g, tp, oi)) as K by done.
  exists g', tp', oi'. split; [done|]. destruct (dooptions_loop_kept _ _ _ _ _ _ _ _ _ E K) as [W S]. split; [done|]. split; [done|].
  intros others objs I P. exact (dooptions_loop_inv _ _ _ others objs tp _ _ _ _ E K P I).
Qed.

(** NOP, a window shift of 200 in a SYN, a time stamp and an option that
    claims more bytes than there are. *)
Definition ex_options : list Z := [1; 3; 3; 200; 8; 10; 0; 0; 1; 0; 0; 0; 0; 2; 2; 9].

(** A NOP, and a SACK option with two blocks. *)
Lemma tcp_dooptions_total_witness :
  exists g' tp' oi', tcp_dooptions 77 true ex_hdr ex_globals ex_tcpcb (1 :: ex_option) 19 (mkOpt false 0 0 0)
      = Some (g', tp', oi') /\
    same_window ex_tcpcb tp' /\ requested_s_scale tp' <= TCP_MAX_WINSHIFT /\
    forall others objs, sack_inv others objs ex_globals ex_tcpcb -> sack_above ex_hdr ex_tcpcb (1 :: ex_option) -> sack_inv others objs g' tp'.
Proof. apply (tcp_dooptions_total 77 true ex_hdr ex_globals ex_tcpcb (1 :: ex_option)). by vm_compute. Defined.

(** The blocks of that option are met, and are above the acknowledgement. *)
Example ex_option_above : sack_lists 19 (1 :: ex_option) = [(ex_option, 18)] /\ sack_above ex_hdr ex_tcpcb (1 :: ex_option).
Proof.
  split; [done|]. unfold sack_above. change (sack_lists _ _) with [(ex_option, 18)]. apply Forall_singleton. cbn [fst snd].
  replace (sack_blocks ex_tcpcb ex_hdr ex_option 18) with [mkSackblk 0 50; mkSackblk 600 700] by reflexivity. repeat constructor.
Qed.

Example ex_options_parsed :
  let r := tcp_dooptions 77 true (mkTcphdr 0 0 TH_SYN) ex_globals tcpcb_zero ex_options 16 (mkOpt false 0 0 0) in
  match r with
  | Some (_, tp, oi) => requested_s_scale tp = 14 /\ oi = mkOpt true 256 2 0 /\ ts_recent tp = 256 /\ ts_recent_age tp = 77
  | None => False
  end.
Proof. by vm_compute. Qed.
