(* ===== verification/TcpReass.v ===== *)
(** * Reassembly of TCP segments ([tcp_reass], src/netbsd/netinet/tcp_input.c)

    Out-of-order segments of a connection wait in [segq], ordered by
    sequence number, and in [timeq], the most recently touched first; both
    queues hold the same [struct ipqent] objects of a pool.  The mbuf chain
    of an entry is represented by the bytes it carries: [m_adj] is
    [adj_bytes] of [MbufFacts], [m_cat] onto the last mbuf of a chain is
    concatenation.  The receive buffer of the socket is the stream of bytes
    that [sbappendstream] has put there. *)

From S2P Require Import Prelude Pool TcpSeq Callout Tcpcb TcpSack MbufFacts SockState.


(** [struct ipqent]; [ipqe_addr] is its address. *)
Record ipqent := mkIpqent {
  ipqe_addr : addr;
  ipqe_seq : tcp_seq;
  ipqe_len : Z;
  ipqe_flags : Z;
  ipqe_m : list Z
}.

#[export] Instance eta_ipqent : EtaRecord ipqent :=
  fun r => mkIpqent (ipqe_addr r) (ipqe_seq r) (ipqe_len r) (ipqe_flags r) (ipqe_m r).

(** The connection as [tcp_reass] sees it: the control block with its two
    queues, the pool of entries and the receiving side of the socket.
    [so_rwakeups] counts the calls of [sorwakeup]. *)
Record rconn := mkRconn {
  r_tp : tcpcb;
  segq : list ipqent;
  timeq : list addr;
  tcpipqent_pool : pool;
  so_state : Z;
  so_rcv : list Z;
  so_rwakeups : nat
}.

#[export] Instance eta_rconn : EtaRecord rconn :=
  fun r => mkRconn (r_tp r) (segq r) (timeq r) (tcpipqent_pool r) (so_state r) (so_rcv r) (so_rwakeups r).

Definition tcpipqent_alloc (st : rconn) : option (addr * rconn) :=
  match pool_get (tcpipqent_pool st) with
  | None => None
  | Some (a, pl) => Some (a, st <| tcpipqent_pool := pl |>)
  end.

Definition tcpipqent_free (st : rconn) (a : addr) : rconn :=
  st <| tcpipqent_pool := pool_put (tcpipqent_pool st) a |>.

(** [q->ipqe_seq + q->ipqe_len] *)
Definition ipqe_end (q : ipqent) : tcp_seq := u32 (ipqe_seq q + ipqe_len q).

(** The queue operations, on entries named by their address. *)
Definition segq_remove (a : addr) (l : list ipqent) : list ipqent :=
  filter (fun q => ipqe_addr q <> a) l.

Definition timeq_remove (a : addr) (l : list addr) : list addr := filter (fun x => x <> a) l.

Fixpoint segq_insert_after (p : addr) (e : ipqent) (l : list ipqent) : list ipqent :=
  match l with
  | [] => []
  | q :: l => if decide (ipqe_addr q = p) then q :: e :: l else q :: segq_insert_after p e l
  end.

Definition segq_update (e : ipqent) (l : list ipqent) : list ipqent :=
  (fun q => if decide (ipqe_addr q = ipqe_addr e) then e else q) <$> l.

(** [TAILQ_REMOVE] from both queues and [tp->t_segqlen--]. *)
Definition segq_unlink (st : rconn) (q : ipqent) : rconn :=
  st <| segq := segq_remove (ipqe_addr q) (segq st) |>
     <| timeq := timeq_remove (ipqe_addr q) (timeq st) |>
     <| r_tp := (r_tp st) <| t_segqlen := s32 (t_segqlen (r_tp st) - 1) |> |>.

(** The local variables: the segment as it grows, the entry to reuse and
    the entry to insert after. *)
Record reass_pkt := mkPkt {
  pkt_seq : tcp_seq;
  pkt_len : Z;
  pkt_flags : Z;
  pkt_m : list Z;
  tiqe : option addr;
  pprev : option addr
}.

#[export] Instance eta_reass_pkt : EtaRecord reass_pkt :=
  fun r => mkPkt (pkt_seq r) (pkt_len r) (pkt_flags r) (pkt_m r) (tiqe r) (pprev r).

Definition pkt_end (pk : reass_pkt) : tcp_seq := u32 (pkt_seq pk + pkt_len pk).

(** Unlink [q] and keep it for the insertion, or give it back. *)
Definition free_ipqe (st : rconn) (pk : reass_pkt) (q : ipqent) : rconn * reass_pkt :=
  let st := segq_unlink st q in
  match tiqe pk with
  | None => (st, pk <| tiqe := Some (ipqe_addr q) |>)
  | Some _ => (tcpipqent_free st (ipqe_addr q), pk)
  end.

(** What one round of the loop does with the entry [q]: the segment is a
    duplicate, the loop ends, it goes on with [q] left in the queue, or it
    goes on with [q] merged or dropped ([free_ipqe]). *)
Inductive reass_act := RDup | RBreak | RPrepend (pk : reass_pkt) | RKeep (pk : reass_pkt) | RFree (pk : reass_pkt).

Definition reass_round (pk : reass_pkt) (q : ipqent) : reass_act :=
  if ipqe_end q =? pkt_seq pk then
    RFree (pk <| pkt_len := u32 (pkt_len pk + ipqe_len q) |>
              <| pkt_flags := Z.lor (pkt_flags pk) (ipqe_flags q) |>
              <| pkt_seq := ipqe_seq q |> <| pkt_m := ipqe_m q ++ pkt_m pk |>)
  else if SEQ_LT (ipqe_end q) (pkt_seq pk) then RKeep (pk <| pprev := Some (ipqe_addr q) |>)
  else if SEQ_GT (ipqe_seq q) (pkt_end pk) then RBreak
  else if SEQ_LEQ (ipqe_seq q) (pkt_seq pk) && SEQ_GEQ (ipqe_end q) (pkt_end pk) then RDup
  else if SEQ_GEQ (ipqe_seq q) (pkt_seq pk) && SEQ_LEQ (ipqe_end q) (pkt_end pk) then RFree pk
  else if SEQ_LT (ipqe_seq q) (pkt_seq pk) && SEQ_GT (ipqe_end q) (pkt_seq pk) then
    let overlap := s32 (ipqe_end q - pkt_seq pk) in
    RFree (pk <| pkt_m := ipqe_m q ++ adj_bytes overlap (pkt_m pk) |>
              <| pkt_seq := ipqe_seq q |>
              <| pkt_len := u32 (pkt_len pk + (ipqe_len q - overlap)) |>)
  else
    let pk :=
      if SEQ_GT (ipqe_seq q) (pkt_seq pk) && SEQ_LT (ipqe_seq q) (pkt_end pk) then
        let overlap := s32 (pkt_end pk - ipqe_seq q) in
        pk <| pkt_m := adj_bytes (- overlap) (pkt_m pk) |> <| pkt_len := u32 (pkt_len pk - overlap) |>
      else pk in
    if ipqe_seq q =? pkt_end pk then
      RPrepend (pk <| pkt_len := u32 (pkt_len pk + ipqe_len q) |>
                   <| pkt_flags := Z.lor (pkt_flags pk) (ipqe_flags q) |>
                   <| pkt_m := pkt_m pk ++ ipqe_m q |>)
    else if SEQ_LEQ (ipqe_seq q) (pkt_seq pk) then RKeep (pk <| pprev := Some (ipqe_addr q) |>)
    else RKeep pk.

(** The loop over the entries from [q] on; [false] when the segment is a
    duplicate. *)
Fixpoint reass_loop (qs : list ipqent) (st : rconn) (pk : reass_pkt) : bool * rconn * reass_pkt :=
  match qs with
  | [] => (true, st, pk)
  | q :: qs =>
      match reass_round pk q with
      | RDup => (false, st, pk)
      | RBreak => (true, st, pk)
      | RPrepend pk => let '(st, pk) := free_ipqe st pk q in (true, st, pk)
      | RKeep pk => reass_loop qs st pk
      | RFree pk => let '(st, pk) := free_ipqe st pk q in reass_loop qs st pk
      end
  end.

(** [present]: the first entry goes to the socket when it is the next one
    expected.  The result is its FIN flag. *)
Definition tcp_reass_present (st : rconn) : Z * rconn :=
  let tp := r_tp st in
  if negb (TCPS_HAVEESTABLISHED (t_state tp)) then (0, st)
  else
    match segq st with
    | [] => (0, st)
    | q :: _ =>
        if negb (ipqe_seq q =? rcv_nxt tp) then (0, st)
        else if (t_state tp =? TCPS_SYN_RECEIVED) && negb (ipqe_len q =? 0) then (0, st)
        else
          let st := st <| r_tp := tp <| rcv_nxt := u32 (rcv_nxt tp + ipqe_len q) |> |> in
          let st := segq_unlink st q in
          let st := if flag_set (so_state st) SS_CANTRCVMORE then st
                    else st <| so_rcv := so_rcv st ++ ipqe_m q |> in
          let st := tcpipqent_free st (ipqe_addr q) in
          (Z.land (ipqe_flags q) TH_FIN, st <| so_rwakeups := S (so_rwakeups st) |>)
    end.

(** [skip_replacement]: the entry becomes the most recent one. *)
Definition skip_replacement (st : rconn) (a : addr) : Z * rconn :=
  tcp_reass_present (st <| timeq := a :: timeq st |>).

(** [insert_it], for the segment [pk]. *)
Definition insert_it (st : rconn) (pk : reass_pkt) : Z * rconn :=
  match (match tiqe pk with
         | Some a => Some (a, st)
         | None => tcpipqent_alloc st
         end) with
  | None => (0, st)
  | Some (a, st) =>
      let e := mkIpqent a (pkt_seq pk) (pkt_len pk) (pkt_flags pk) (pkt_m pk) in
      let st := st <| segq := match pprev pk with
                              | None => e :: segq st
                              | Some p => segq_insert_after p e (segq st)
                              end |>
                   <| r_tp := (r_tp st) <| t_segqlen := s32 (t_segqlen (r_tp st) + 1) |> |> in
      skip_replacement st a
  end.

(** From the first entry on: the segment precedes it, or the loop. *)
Definition reass_scan (st : rconn) (pk : reass_pkt) : Z * rconn :=
  match segq st with
  | q :: _ =>
      if pkt_end pk =? ipqe_seq q then
        let e := q <| ipqe_seq := pkt_seq pk |> <| ipqe_len := u32 (ipqe_len q + pkt_len pk) |>
                   <| ipqe_flags := Z.lor (ipqe_flags q) (pkt_flags pk) |>
                   <| ipqe_m := pkt_m pk ++ ipqe_m q |> in
        skip_replacement (st <| segq := segq_update e (segq st) |>
                             <| timeq := timeq_remove (ipqe_addr q) (timeq st) |>) (ipqe_addr q)
      else
        let '(ok, st, pk) := reass_loop (segq st) st pk in
        if ok then insert_it st pk
        else
          let st := st <| r_tp := tcp_new_dsack (r_tp st) (pkt_seq pk) (pkt_len pk) |> in
          (0, match tiqe pk with Some a => tcpipqent_free st a | None => st end)
  | [] => insert_it st pk
  end.

(** [tcp_reass]: [th] is [None] for a null pointer; [m] are the bytes of the
    segment and [tlen] their number. *)
Definition tcp_reass (st : rconn) (th : option tcphdr) (m : list Z) (tlen : Z) : Z * rconn :=
  match th with
  | None => tcp_reass_present st
  | Some th =>
      let pk := mkPkt (th_seq th) (u32 tlen) (th_flags th) m None None in
      match last (segq st) with
      | Some p =>
          if pkt_seq pk =? ipqe_end p then
            let e := p <| ipqe_len := u32 (ipqe_len p + pkt_len pk) |>
                       <| ipqe_flags := Z.lor (ipqe_flags p) (pkt_flags pk) |>
                       <| ipqe_m := ipqe_m p ++ m |> in
            skip_replacement (st <| segq := segq_update e (segq st) |>
                                 <| timeq := timeq_remove (ipqe_addr p) (timeq st) |>) (ipqe_addr p)
          else if SEQ_GT (pkt_seq pk) (ipqe_end p) then
            insert_it st (pk <| pprev := Some (ipqe_addr p) |>)
          else reass_scan st pk
      | None => reass_scan st pk
      end
  end.
