(* ===== verification/TcpReassFacts.v ===== *)
(** * What [tcp_reass] does with the stream

    The queue of a connection is an ordered list of intervals of the stream
    that neither overlap nor touch.  A segment is merged with the intervals it
    meets, and what has become contiguous with the data delivered is delivered.
    Against the abstract receiver, a set of received offsets whose delivered
    data end at the first offset that is missing, every call of [tcp_reass] is
    one step. *)

From S2P Require Import Prelude Pool TcpSeq Callout Tcpcb TcpSack MbufFacts SockState TcpReass.

(** The bytes [a], [a + 1], ..., [a + n - 1] of a stream. *)
Definition slice (S : Z -> Z) (a n : Z) : list Z := S <$> seqZ a n.

Section slices.
Variable S : Z -> Z.

Lemma slice_length a n : length (slice S a n) = Z.to_nat n.
Proof. unfold slice. by rewrite length_fmap, length_seqZ. Qed.

Lemma slice_app a n k : 0 <= n -> 0 <= k -> slice S a n ++ slice S (a + n) k = slice S a (n + k).
Proof. intros. unfold slice. rewrite <- fmap_app, seqZ_app by done. done. Qed.

Lemma slice_app' a b n k : 0 <= n -> 0 <= k -> b = a + n -> slice S a n ++ slice S b k = slice S a (n + k).
Proof. intros ?? ->. by apply slice_app. Qed.

Lemma slice_drop a n k : 0 <= k <= n -> drop (Z.to_nat k) (slice S a n) = slice S (a + k) (n - k).
Proof.
  intros. assert (slice S a n = slice S a k ++ slice S (a + k) (n - k)) as ->.
  { rewrite slice_app by lia. f_equal; lia. }
  rewrite drop_app_length'; [done|]. by rewrite slice_length.
Qed.

Lemma slice_take a n k : 0 <= k <= n -> take (Z.to_nat k) (slice S a n) = slice S a k.
Proof.
  intros. replace n with (k + (n - k)) by lia. rewrite <- slice_app by lia.
  rewrite take_app_length'; [done|]. by rewrite slice_length.
Qed.

Lemma slice_adj_front a n k : 0 <= k <= n -> adj_bytes k (slice S a n) = slice S (a + k) (n - k).
Proof. intros. unfold adj_bytes. destruct (Z.leb_spec 0 k); [|lia]. by apply slice_drop. Qed.

Lemma slice_adj_back a n k : 0 < k <= n -> adj_bytes (- k) (slice S a n) = slice S a (n - k).
Proof.
  intros. unfold adj_bytes. destruct (Z.leb_spec 0 (- k)); [lia|].
  rewrite slice_length, Z.opp_involutive, <- Z2Nat.inj_sub by lia. apply slice_take; lia.
Qed.
End slices.

(** ** Entries and their objects *)

Definition addrs (l : list ipqent) : list addr := ipqe_addr <$> l.

Definition owned (pk : reass_pkt) : list addr := option_list (tiqe pk).

Section resources.
(** All the objects of the pool of entries. *)
Context (objs : list addr).

(** Both queues hold the same entries, which are counted; every object of the
    pool is free, queued or held by the call ([own]). *)
Record rinv (st : rconn) (own : list addr) : Prop := {
  ri_time : timeq st ≡ₚ addrs (segq st);
  ri_len : t_segqlen (r_tp st) = Z.of_nat (length (segq st));
  ri_pool : pool_objects (tcpipqent_pool st) (addrs (segq st) ++ own) ≡ₚ objs
}.

Hypothesis objs_nodup : NoDup objs.
Hypothesis objs_int : Z.of_nat (length objs) < 2 ^ 31.

(** What the queue operations leave alone. *)
Definition rest_same (st st' : rconn) : Prop :=
  (exists n, r_tp st' = (r_tp st) <| t_segqlen := n |>) /\ so_state st' = so_state st /\
  so_rcv st' = so_rcv st /\ so_rwakeups st' = so_rwakeups st.

Lemma rest_same_refl st : rest_same st st.
Proof. split; [|done]. exists (t_segqlen (r_tp st)). by destruct (r_tp st). Qed.

Lemma rest_same_trans st1 st2 st3 : rest_same st1 st2 -> rest_same st2 st3 -> rest_same st1 st3.
Proof.
  intros ([n E]&?&?&?) ([n' E']&?&?&?). split; [|split; [congruence|split; congruence]].
  exists n'. by rewrite E', E.
Qed.

Lemma rinv_nodup st own : rinv st own -> NoDup (addrs (segq st) ++ own).
Proof.
  intros [_ _ P]. rewrite <- P in objs_nodup. unfold pool_objects in objs_nodup.
  by apply NoDup_app in objs_nodup as (_ & _ & ?).
Qed.

Lemma rinv_nodup_segq st own : rinv st own -> NoDup (addrs (segq st)).
Proof. intros I%rinv_nodup. by apply NoDup_app in I as (? & _). Qed.

Lemma rinv_count st own : rinv st own -> 0 <= t_segqlen (r_tp st) /\
  t_segqlen (r_tp st) + Z.of_nat (length own) < 2 ^ 31.
Proof.
  intros [_ L P]. rewrite L. apply Permutation_length in P. unfold pool_objects, addrs in P.
  rewrite !length_app, length_fmap in P. lia.
Qed.

Lemma segq_remove_notin a l : a ∉ addrs l -> segq_remove a l = l.
Proof.
  unfold segq_remove, addrs. induction l as [|q l IH]; [done|]. csimpl. intros N.
  apply not_elem_of_cons in N as [? N]. rewrite filter_cons_True by done. f_equal. by apply IH.
Qed.

Lemma segq_remove_split pre q post : NoDup (addrs (pre ++ q :: post)) ->
  segq_remove (ipqe_addr q) (pre ++ q :: post) = pre ++ post.
Proof.
  unfold addrs. rewrite fmap_app, fmap_cons. intros (N1 & N2 & N3)%NoDup_app.
  apply NoDup_cons in N3 as [N3 N4]. unfold segq_remove. rewrite filter_app, filter_cons_False by (intros []; done).
  f_equal; [apply segq_remove_notin; intros K; eapply N2; [exact K|left]|by apply segq_remove_notin].
Qed.

Lemma segq_update_split pre q e post : NoDup (addrs (pre ++ q :: post)) -> ipqe_addr e = ipqe_addr q ->
  segq_update e (pre ++ q :: post) = pre ++ e :: post.
Proof.
  assert (forall l, ipqe_addr e ∉ addrs l -> segq_update e l = l) as F.
  { unfold segq_update, addrs. induction l as [|x l IH]; [done|]. csimpl. intros N.
    apply not_elem_of_cons in N as [? N]. rewrite decide_False by done. f_equal. by apply IH. }
  unfold addrs. rewrite fmap_app, fmap_cons. intros (N1 & N2 & N3)%NoDup_app E.
  apply NoDup_cons in N3 as [N3 N4]. unfold segq_update. rewrite fmap_app, fmap_cons.
  rewrite decide_True by done. f_equal; [|f_equal]; apply F; unfold addrs; rewrite E; [|done].
  intros K. eapply N2; [exact K|left].
Qed.

Lemma timeq_remove_perm a l l' : l ≡ₚ a :: l' -> NoDup l -> timeq_remove a l ≡ₚ l'.
Proof.
  intros P N. rewrite P in N. unfold timeq_remove. rewrite P. apply NoDup_cons in N as [N _].
  rewrite filter_cons_False by (intros []; done).
  clear P. induction l' as [|x l' IH]; [done|]. apply not_elem_of_cons in N as [? N].
  rewrite filter_cons_True by done. f_equiv. by apply IH.
Qed.

Lemma addrs_middle pre q post : addrs (pre ++ q :: post) ≡ₚ ipqe_addr q :: addrs (pre ++ post).
Proof. unfold addrs. rewrite !fmap_app, fmap_cons. symmetry. apply Permutation_middle. Qed.

(** Unlinking an entry hands its object to the caller. *)
Lemma segq_unlink_spec st own pre q post :
  rinv st own -> segq st = pre ++ q :: post ->
  rinv (segq_unlink st q) (ipqe_addr q :: own) /\ segq (segq_unlink st q) = pre ++ post /\
  rest_same st (segq_unlink st q).
Proof.
  intros I E. pose proof (rinv_nodup_segq _ _ I) as N. pose proof (rinv_count _ _ I) as C.
  destruct I as [T L P]. rewrite E in *. unfold segq_unlink. rewrite E, segq_remove_split by done.
  split; [split; upd_simpl|split; [done|]].
  - apply timeq_remove_perm; [by rewrite T, addrs_middle|by rewrite T].
  - rewrite L in *. rewrite s32_small; rewrite !length_app in *; simpl in *; lia.
  - rewrite <- P. unfold pool_objects. f_equiv. rewrite addrs_middle. symmetry. apply Permutation_middle.
  - split; [by eexists|done].
Qed.

Lemma tcpipqent_free_spec st own a :
  rinv st (a :: own) -> rinv (tcpipqent_free st a) own /\ rest_same st (tcpipqent_free st a).
Proof.
  intros [T L P]. split; [split; unfold tcpipqent_free; upd_simpl; try done|].
  - rewrite <- P, pool_put_objects. unfold pool_objects. f_equiv. apply Permutation_middle.
  - exact (rest_same_refl st).
Qed.

Lemma free_ipqe_spec st pk pre q post :
  rinv st (owned pk) -> segq st = pre ++ q :: post ->
  exists st' t, free_ipqe st pk q = (st', pk <| tiqe := Some t |>) /\
    rinv st' [t] /\ segq st' = pre ++ post /\ rest_same st st'.
Proof.
  intros I E. destruct (segq_unlink_spec _ _ _ _ _ I E) as (I' & E' & R). unfold free_ipqe, owned in *.
  destruct (tiqe pk) as [t|] eqn:Et; simpl in *.
  - assert (rinv (segq_unlink st q) [ipqe_addr q; t]) as I'' by done.
    destruct (tcpipqent_free_spec _ _ _ I'') as [F R'].
    exists (tcpipqent_free (segq_unlink st q) (ipqe_addr q)), t.
    split; [f_equal; destruct pk; simpl in *; by subst|]. split; [done|]. split; [done|].
    by eapply rest_same_trans.
  - by exists (segq_unlink st q), (ipqe_addr q).
Qed.
End resources.

(** ** Segments as intervals above [base] *)

Section intervals.
Context (base W : Z) (S : Z -> Z).
Hypothesis base_u32 : is_u32 base.
Hypothesis W_small : W < 2 ^ 31.

(** A segment of the window that carries the bytes of the stream. *)
Definition seg_ok (seq : tcp_seq) (len : Z) (m : list Z) : Prop :=
  is_u32 seq /\ 0 <= len /\ off base seq + len <= W /\ m = slice S (off base seq) len.

Definition lo (q : ipqent) : Z := off base (ipqe_seq q).
Definition hi (q : ipqent) : Z := lo q + ipqe_len q.
Definition plo (pk : reass_pkt) : Z := off base (pkt_seq pk).
Definition phi (pk : reass_pkt) : Z := plo pk + pkt_len pk.

Definition ent_ok (q : ipqent) : Prop := seg_ok (ipqe_seq q) (ipqe_len q) (ipqe_m q).
Definition pkt_ok (pk : reass_pkt) : Prop := seg_ok (pkt_seq pk) (pkt_len pk) (pkt_m pk).

Lemma off_end seq len : 0 <= len -> off base seq + len < 2 ^ 32 ->
  off base (u32 (seq + len)) = off base seq + len.
Proof.
  intros. pose proof (off_range base seq).
  rewrite <- (u32_small (off base seq + len)) by lia. unfold off, u32.
  rewrite Zminus_mod_idemp_l, Z.add_mod_idemp_l by lia. f_equal. lia.
Qed.

Lemma seq_eqb_off x y : is_u32 x -> is_u32 y -> (x =? y) = (off base x =? off base y).
Proof.
  intros Hx Hy. destruct (Z.eqb_spec x y) as [->|N]; [by rewrite Z.eqb_refl|].
  symmetry. apply Z.eqb_neq. intros E. apply N, (off_inj base); done.
Qed.

Lemma pkt_end_off pk : pkt_ok pk -> off base (pkt_end pk) = phi pk.
Proof. intros (?&?&?&?). apply off_end; [done|]. unfold plo in *. lia. Qed.

Lemma ipqe_end_off q : ent_ok q -> off base (ipqe_end q) = hi q.
Proof. intros (?&?&?&?). apply off_end; [done|]. lia. Qed.

Lemma ent_bounds q : ent_ok q -> 0 <= lo q <= hi q /\ hi q <= W.
Proof. intros (?&?&?&?). unfold lo, hi, lo. pose proof (off_range base (ipqe_seq q)). lia. Qed.

Lemma pkt_bounds pk : pkt_ok pk -> 0 <= plo pk <= phi pk /\ phi pk <= W.
Proof. intros (?&?&?&?). unfold phi, plo. pose proof (off_range base (pkt_seq pk)). lia. Qed.

(** Two segments that touch make one. *)
Lemma seg_ok_join s1 l1 m1 s2 l2 m2 :
  seg_ok s1 l1 m1 -> seg_ok s2 l2 m2 -> off base s2 = off base s1 + l1 ->
  seg_ok s1 (u32 (l1 + l2)) (m1 ++ m2).
Proof.
  intros (A1&B1&C1&->) (A2&B2&C2&->) E. pose proof (off_range base s1).
  rewrite u32_small by lia. split; [done|]. split; [lia|]. split; [lia|]. by apply slice_app'.
Qed.

(** One round of the loop, by the position of the entry. *)
Definition round_spec (pk : reass_pkt) (q : ipqent) (act : reass_act) : Prop :=
  match act with
  | RDup => lo q <= plo pk /\ phi pk <= hi q
  | RBreak => phi pk < lo q
  | RKeep pk' => pk' = pk <| pprev := Some (ipqe_addr q) |> /\ hi q < plo pk
  | RFree pk' =>
      pkt_ok pk' /\ tiqe pk' = tiqe pk /\ pprev pk' = pprev pk /\ lo q <= phi pk /\ plo pk <= hi q /\
      plo pk' = Z.min (plo pk) (lo q) /\ phi pk' = phi pk /\ hi q <= phi pk
  | RPrepend pk' =>
      pkt_ok pk' /\ tiqe pk' = tiqe pk /\ pprev pk' = pprev pk /\ lo q <= phi pk /\ plo pk <= lo q /\
      plo pk' = plo pk /\ phi pk' = hi q /\ phi pk <= hi q
  end.

Lemma ipqe_end_u32 q : is_u32 (ipqe_end q).
Proof. apply u32_range. Qed.

Lemma pkt_end_u32 pk : is_u32 (pkt_end pk).
Proof. apply u32_range. Qed.

(** An entry in front of the segment, overlapping it by [k] bytes. *)
Lemma pkt_ok_append pk q k :
  pkt_ok pk -> ent_ok q -> hi q - plo pk = k -> 0 <= k <= pkt_len pk -> lo q <= plo pk ->
  seg_ok (ipqe_seq q) (u32 (pkt_len pk + (ipqe_len q - k))) (ipqe_m q ++ adj_bytes k (pkt_m pk)).
Proof.
  intros (A&B&C&E) (A'&B'&C'&E') K Lk Lo. unfold hi, lo, plo in *. pose proof (off_range base (ipqe_seq q)).
  rewrite E, E', u32_small, slice_adj_front by lia. split; [done|]. split; [lia|]. split; [lia|].
  rewrite slice_app' by lia. f_equal. lia.
Qed.

(** The segment in front of an entry, overlapping it by [k] bytes. *)
Lemma pkt_ok_trim pk k :
  pkt_ok pk -> 0 < k <= pkt_len pk ->
  seg_ok (pkt_seq pk) (u32 (pkt_len pk - k)) (adj_bytes (- k) (pkt_m pk)).
Proof.
  intros (A&B&C&E) Lk. pose proof (off_range base (pkt_seq pk)).
  rewrite E, u32_small, slice_adj_back by lia. split; [done|]. split; [lia|]. split; [lia|done].
Qed.

Lemma reass_round_spec pk q : pkt_ok pk -> ent_ok q -> round_spec pk q (reass_round pk q).
Proof.
  intros P Q. pose proof (pkt_bounds pk P). pose proof (ent_bounds q Q).
  pose proof (pkt_end_off pk P) as Ep. pose proof (ipqe_end_off q Q) as Eq.
  pose proof (ipqe_end_u32 q) as Ue. pose proof (pkt_end_u32 pk) as Upe.
  assert (is_u32 (pkt_seq pk)) as Up by apply P. assert (is_u32 (ipqe_seq q)) as Uq by apply Q.
  assert (off base (pkt_seq pk) = plo pk) as Es by done. assert (off base (ipqe_seq q) = lo q) as El by done.
  assert (pkt_len pk = phi pk - plo pk) as Lp by (unfold phi; lia).
  assert (ipqe_len q = hi q - lo q) as Lq by (unfold hi; lia).
  unfold reass_round.
  rewrite (seq_eqb_off (ipqe_end q)), Eq, Es by done. destruct (Z.eqb_spec (hi q) (plo pk)) as [E1|E1].
  { pose proof (seg_ok_join _ _ _ _ _ _ Q P (eq_sym E1)) as J. rewrite Z.add_comm in J.
    split; [exact J|]. unfold plo, phi, plo. upd_simpl. rewrite u32_small by lia. do 2 (split; [done|]). lia. }
  rewrite (SEQ_LT_off base), Eq, Es by lia. destruct (Z.ltb_spec (hi q) (plo pk)) as [E2|E2]; [done|].
  rewrite (SEQ_GT_off base), Ep, El by lia. destruct (Z.ltb_spec (phi pk) (lo q)) as [E3|E3]; [done|].
  rewrite (SEQ_LEQ_off base), (SEQ_GEQ_off base), Ep, Eq, Es, El by lia.
  destruct ((lo q <=? plo pk) && (phi pk <=? hi q)) eqn:B4.
  { apply andb_true_iff in B4 as [?%Z.leb_le ?%Z.leb_le]. done. }
  rewrite (SEQ_GEQ_off base), (SEQ_LEQ_off base), Ep, Eq, Es, El by lia.
  destruct ((plo pk <=? lo q) && (hi q <=? phi pk)) eqn:B5.
  { apply andb_true_iff in B5 as [?%Z.leb_le ?%Z.leb_le].
    split; [done|]. do 2 (split; [done|]). lia. }
  rewrite (SEQ_LT_off base (ipqe_seq q)), (SEQ_GT_off base (ipqe_end q)), Eq, Es, El by lia.
  destruct ((lo q <? plo pk) && (plo pk <? hi q)) eqn:B6.
  { apply andb_true_iff in B6 as [?%Z.ltb_lt ?%Z.ltb_lt].
    rewrite <- (s32_u32 (_ - _)), (seq_diff_off base), Eq, Es by lia.
    pose proof (pkt_ok_append pk q _ P Q eq_refl ltac:(lia) ltac:(lia)) as J.
    split; [exact J|]. unfold plo, phi, plo. upd_simpl. rewrite u32_small by lia. do 2 (split; [done|]). lia. }
  rewrite (SEQ_GT_off base (ipqe_seq q)), (SEQ_LT_off base (ipqe_seq q)), Ep, Es, El by lia.
  assert (plo pk < lo q /\ phi pk < hi q) as [G1 G2].
  { apply andb_false_iff in B4, B5, B6. rewrite ?Z.leb_gt, ?Z.ltb_ge in *. lia. }
  replace (plo pk <? lo q) with true by (symmetry; by apply Z.ltb_lt). cbv zeta. rewrite andb_true_l.
  match goal with |- context [pkt_end ?x] => match x with context [if _ then _ else _] => set (pk1 := x) end end.
  assert (pkt_ok pk1 /\ tiqe pk1 = tiqe pk /\ pprev pk1 = pprev pk /\ plo pk1 = plo pk /\ phi pk1 = lo q)
    as (J & J1 & J2 & J3 & J4).
  { subst pk1. destruct (Z.ltb_spec (lo q) (phi pk)) as [G3|G3].
    - rewrite <- (s32_u32 (_ - _)), (seq_diff_off base), Ep, El by lia.
      split; [apply (pkt_ok_trim pk _ P); lia|]. unfold plo, phi, plo. upd_simpl.
      rewrite u32_small by lia. do 3 (split; [done|]). lia.
    - split; [done|]. do 3 (split; [done|]). lia. }
  rewrite (seq_eqb_off (ipqe_seq q)), (pkt_end_off pk1), El, J4, Z.eqb_refl by (done || apply pkt_end_u32).
  pose proof (seg_ok_join _ _ _ _ _ _ J Q) as K.
  assert (off base (ipqe_seq q) = off base (pkt_seq pk1) + pkt_len pk1) as K'.
  { rewrite El, <- J4. done. }
  split; [exact (K K')|]. split; [exact J1|]. split; [exact J2|]. unfold plo, phi, plo. upd_simpl.
  fold (plo pk1). rewrite J3. split; [lia|]. split; [lia|]. split; [done|].
  assert (pkt_len pk1 = lo q - plo pk) as -> by (unfold phi in J4; lia). rewrite u32_small by lia. lia.
Qed.

(** ** The loop *)

(** Entries above [b], in order, that do not touch. *)
Fixpoint gapped (b : Z) (l : list ipqent) : Prop :=
  match l with
  | [] => True
  | q :: l => b < lo q /\ gapped (hi q) l
  end.

(** Where the entries of a list end. *)
Fixpoint top (b : Z) (l : list ipqent) : Z :=
  match l with
  | [] => b
  | q :: l => top (hi q) l
  end.

Lemma gapped_app b l1 l2 : gapped b (l1 ++ l2) <-> gapped b l1 /\ gapped (top b l1) l2.
Proof. revert b. induction l1 as [|q l1 IH]; intros b; simpl; [tauto|]. rewrite IH. tauto. Qed.

Lemma top_app b l1 l2 : top b (l1 ++ l2) = top (top b l1) l2.
Proof. revert b. induction l1; intros b; simpl; auto. Qed.

Lemma gapped_weaken b b' l : b' <= b -> gapped b l -> gapped b' l.
Proof. intros. destruct l; simpl in *; [done|]. intuition lia. Qed.

Lemma gapped_elem b l q : Forall ent_ok l -> gapped b l -> q ∈ l -> b < lo q.
Proof.
  intros F. revert b. induction F as [|x l Hx F IH]; intros b; simpl; [by rewrite elem_of_nil|].
  intros [? G] [->|E]%elem_of_cons; [done|]. pose proof (ent_bounds _ Hx). pose proof (IH _ G E). lia.
Qed.

(** The offsets the entries cover. *)
Definition cov (l : list ipqent) (o : Z) : Prop := exists q, q ∈ l /\ lo q <= o < hi q.

Lemma cov_nil o : ~ cov [] o.
Proof. intros (q & E & _). by apply elem_of_nil in E. Qed.

Lemma cov_cons q l o : cov (q :: l) o <-> lo q <= o < hi q \/ cov l o.
Proof.
  unfold cov. setoid_rewrite elem_of_cons. split.
  - intros (x & [->|?] & ?); eauto.
  - intros [?|(x & ? & ?)]; eauto.
Qed.

Lemma cov_app l1 l2 o : cov (l1 ++ l2) o <-> cov l1 o \/ cov l2 o.
Proof.
  induction l1 as [|q l1 IH]; simpl.
  - split; [auto|]. intros [[]%cov_nil|?]; done.
  - rewrite !cov_cons, IH. tauto.
Qed.

Section loop.
Context (objs : list addr).
Hypothesis objs_nodup : NoDup objs.
Hypothesis objs_int : Z.of_nat (length objs) < 2 ^ 31.

Definition last_addr (l : list ipqent) : option addr := ipqe_addr <$> last l.

Lemma last_addr_snoc l q : last_addr (l ++ [q]) = Some (ipqe_addr q).
Proof. unfold last_addr. by rewrite last_snoc. Qed.

(** Once the segment holds an entry the loop only merges: with the entries
    that begin in it or at its end ([gone]). *)
Lemma reass_loop_merge qs : forall pre st pk,
  segq st = pre ++ qs -> rinv objs st (owned pk) -> is_Some (tiqe pk) -> pkt_ok pk -> Forall ent_ok qs ->
  gapped (plo pk) qs ->
  exists gone post st' pk', reass_loop qs st pk = (true, st', pk') /\ qs = gone ++ post /\
    segq st' = pre ++ post /\ rinv objs st' (owned pk') /\ is_Some (tiqe pk') /\ rest_same st st' /\
    pkt_ok pk' /\ pprev pk' = pprev pk /\ plo pk' = plo pk /\ gapped (phi pk') post /\
    (forall o, plo pk' <= o < phi pk' <-> plo pk <= o < phi pk \/ cov gone o).
Proof.
  induction qs as [|q qs IH]; intros pre st pk E I [t Et] K F G.
  { exists [], [], st, pk. do 3 (split; [done|]). split; [done|]. split; [by rewrite Et|].
    split; [apply rest_same_refl|]. do 4 (split; [done|]). intros o. pose proof (cov_nil o). tauto. }
  apply Forall_cons in F as [Fq F]. destruct G as [G1 G2]. pose proof (ent_bounds _ Fq).
  pose proof (pkt_bounds _ K). pose proof (reass_round_spec pk q K Fq) as R. simpl.
  destruct (reass_round pk q) as [| |pk1|pk1|pk1]; simpl in R.
  - lia.
  - exists [], (q :: qs), st, pk. do 3 (split; [done|]). split; [done|]. split; [by rewrite Et|].
    split; [apply rest_same_refl|]. do 4 (split; [done|]). intros o. pose proof (cov_nil o). tauto.
  - destruct R as (K1 & R1 & R2 & R3 & R4 & R5 & R6 & R7).
    destruct (free_ipqe_spec objs objs_nodup objs_int st pk1 pre q qs) as (st1 & t1 & -> & I1 & E1 & S1);
      [unfold owned in *; by rewrite R1|done|].
    exists [q], qs, st1, (pk1 <| tiqe := Some t1 |>). do 4 (split; [done|]). split; [by eexists|].
    do 2 (split; [done|]). split; [by upd_simpl|]. split; [done|].
    change (plo (pk1 <| tiqe := Some t1 |>)) with (plo pk1).
    change (phi (pk1 <| tiqe := Some t1 |>)) with (phi pk1).
    split; [by rewrite R6|]. intros o. rewrite cov_cons. pose proof (cov_nil o).
    assert (plo pk1 <= o < phi pk1 <-> plo pk <= o < phi pk \/ lo q <= o < hi q) by lia. tauto.
  - lia.
  - destruct R as (K1 & R1 & R2 & R3 & R4 & R5 & R6 & R7).
    destruct (free_ipqe_spec objs objs_nodup objs_int st pk1 pre q qs) as (st1 & t1 & -> & I1 & E1 & S1);
      [unfold owned in *; by rewrite R1|done|].
    assert (plo pk1 = plo pk) as Lo by lia.
    destruct (IH pre st1 (pk1 <| tiqe := Some t1 |>)) as (gone & post & st' & pk' & -> & Eq & E' & I' & T' & S' & K' & P' & L' & G' & C');
      [done|done|by eexists|done|done| |].
    { change (plo (pk1 <| tiqe := Some t1 |>)) with (plo pk1). eapply gapped_weaken; [|done]. lia. }
    change (plo (pk1 <| tiqe := Some t1 |>)) with (plo pk1) in *.
    change (phi (pk1 <| tiqe := Some t1 |>)) with (phi pk1) in *.
    exists (q :: gone), post, st', pk'. split; [done|]. split; [by rewrite Eq|]. do 3 (split; [done|]).
    split; [by eapply rest_same_trans|]. split; [done|]. split; [rewrite P'; by upd_simpl|].
    split; [lia|]. split; [done|]. intros o. rewrite C', cov_cons.
    assert (plo pk1 <= o < phi pk1 <-> plo pk <= o < phi pk \/ lo q <= o < hi q) by lia. tauto.
Qed.
(** The whole loop: [pre] are the entries already passed. *)
Definition loop_spec (b : Z) (pre qs : list ipqent) (st : rconn) (pk : reass_pkt)
    (r : bool * rconn * reass_pkt) : Prop :=
  match r with
  | (true, st', pk') =>
      exists keep gone post, qs = keep ++ gone ++ post /\ segq st' = (pre ++ keep) ++ post /\
        rinv objs st' (owned pk') /\ rest_same st st' /\ pkt_ok pk' /\
        pprev pk' = last_addr (pre ++ keep) /\ top b (pre ++ keep) < plo pk' /\ gapped (phi pk') post /\
        (forall o, plo pk' <= o < phi pk' <-> plo pk <= o < phi pk \/ cov gone o) /\
        (tiqe pk' = None -> gone = [] /\ st' = st)
  | (false, st', pk') =>
      st' = st /\ tiqe pk' = None /\ pkt_seq pk' = pkt_seq pk /\ pkt_len pk' = pkt_len pk /\
      exists q, q ∈ qs /\ lo q <= plo pk /\ phi pk <= hi q
  end.

Lemma loop_spec_keep b pre q qs st pk r :
  loop_spec b (pre ++ [q]) qs st (pk <| pprev := Some (ipqe_addr q) |>) r -> loop_spec b pre (q :: qs) st pk r.
Proof.
  destruct r as [[[] st'] pk']; simpl.
  - intros (keep & gone & post & -> & E & I & R & K & Ep & T & G & Cv & N).
    assert ((pre ++ [q]) ++ keep = pre ++ q :: keep) as A by (by rewrite <- (assoc_L (++))).
    rewrite A in *. exists (q :: keep), gone, post. split; [done|]. do 7 (split; [done|]). done.
  - intros (-> & Et & ? & ? & x & Hx & ?). do 4 (split; [done|]). exists x. split; [by right|done].
Qed.

Lemma loop_spec_end b pre qs st pk :
  segq st = pre ++ qs -> rinv objs st (owned pk) -> pkt_ok pk -> pprev pk = last_addr pre ->
  top b pre < plo pk -> gapped (phi pk) qs -> loop_spec b pre qs st pk (true, st, pk).
Proof.
  intros E I K P T G. exists [], [], qs. rewrite app_nil_r. split; [done|]. split; [done|]. split; [done|].
  split; [apply rest_same_refl|]. do 4 (split; [done|]). split; [|done].
  intros o. pose proof (cov_nil o). tauto.
Qed.

Lemma reass_loop_spec b qs : forall pre st pk,
  segq st = pre ++ qs -> rinv objs st (owned pk) -> tiqe pk = None -> pkt_ok pk -> Forall ent_ok qs ->
  pprev pk = last_addr pre -> top b pre < plo pk -> gapped (top b pre) qs ->
  loop_spec b pre qs st pk (reass_loop qs st pk).
Proof.
  induction qs as [|q qs IH]; intros pre st pk E I Et K F P T G; [by apply loop_spec_end|].
  apply Forall_cons in F as [Fq F]. destruct G as [G1 G2]. pose proof (ent_bounds _ Fq).
  pose proof (pkt_bounds _ K). pose proof (reass_round_spec pk q K Fq) as R. simpl reass_loop.
  destruct (reass_round pk q) as [| |pk1|pk1|pk1]; simpl in R.
  - do 4 (split; [done|]). exists q. split; [left|done].
  - by apply loop_spec_end.
  - destruct R as (K1 & R1 & R2 & R3 & R4 & R5 & R6 & R7).
    destruct (free_ipqe_spec objs objs_nodup objs_int st pk1 pre q qs) as (st1 & t1 & -> & I1 & E1 & S1);
      [unfold owned in *; by rewrite R1|done|].
    exists [], [q], qs. rewrite app_nil_r. do 5 (split; [done|]).
    change (plo (pk1 <| tiqe := Some t1 |>)) with (plo pk1).
    change (phi (pk1 <| tiqe := Some t1 |>)) with (phi pk1). upd_simpl.
    split; [by rewrite R2|]. split; [lia|]. split; [by rewrite R6|]. split; [|done].
    intros o. rewrite cov_cons. pose proof (cov_nil o).
    assert (plo pk1 <= o < phi pk1 <-> plo pk <= o < phi pk \/ lo q <= o < hi q) by lia. tauto.
  - destruct R as [-> R]. apply loop_spec_keep, IH; try done.
    + by rewrite <- (assoc_L (++)).
    + by rewrite last_addr_snoc.
    + by rewrite top_app.
    + by rewrite top_app.
  - destruct R as (K1 & R1 & R2 & R3 & R4 & R5 & R6 & R7).
    destruct (free_ipqe_spec objs objs_nodup objs_int st pk1 pre q qs) as (st1 & t1 & -> & I1 & E1 & S1);
      [unfold owned in *; by rewrite R1|done|].
    destruct (reass_loop_merge qs pre st1 (pk1 <| tiqe := Some t1 |>))
      as (gone & post & st' & pk' & -> & Eq & E' & I' & [t' T'] & S' & K' & P' & L' & G' & C');
      [done|done|by eexists|done|done| |].
    { change (plo (pk1 <| tiqe := Some t1 |>)) with (plo pk1). eapply gapped_weaken; [|done]. lia. }
    change (plo (pk1 <| tiqe := Some t1 |>)) with (plo pk1) in *.
    change (phi (pk1 <| tiqe := Some t1 |>)) with (phi pk1) in *.
    exists [], (q :: gone), post. rewrite app_nil_r. split; [by rewrite Eq|]. do 2 (split; [done|]).
    split; [by eapply rest_same_trans|]. split; [done|]. split; [rewrite P'; upd_simpl; by rewrite R2|].
    split; [lia|]. split; [done|]. split; [|by rewrite T'].
    intros o. rewrite C', cov_cons.
    assert (plo pk1 <= o < phi pk1 <-> plo pk <= o < phi pk \/ lo q <= o < hi q) by lia. tauto.
Qed.

(** ** Insertion *)

Lemma segq_insert_after_split l x e post : ipqe_addr x ∉ addrs l ->
  segq_insert_after (ipqe_addr x) e (l ++ x :: post) = l ++ x :: e :: post.
Proof.
  induction l as [|q l IH]; simpl; intros N.
  - by rewrite decide_True.
  - apply not_elem_of_cons in N as [? N]. rewrite decide_False by done. by rewrite IH.
Qed.

Definition insert_at (p : option addr) (e : ipqent) (l : list ipqent) : list ipqent :=
  match p with None => e :: l | Some p => segq_insert_after p e l end.

Lemma insert_at_split pre e post : NoDup (addrs (pre ++ post)) ->
  insert_at (last_addr pre) e (pre ++ post) = pre ++ e :: post.
Proof.
  induction pre as [|x l _] using rev_ind; [done|]. rewrite last_addr_snoc.
  rewrite <- !(assoc_L (++)). simpl. intros N. apply segq_insert_after_split.
  unfold addrs in *. rewrite fmap_app, fmap_cons in N. apply NoDup_app in N as (_ & N & _).
  intros K. eapply N; [exact K|left].
Qed.

(** An entry is replaced at its place and becomes the most recent one. *)
Lemma replace_entry_spec st pre q e post :
  rinv objs st [] -> segq st = pre ++ q :: post -> ipqe_addr e = ipqe_addr q ->
  exists st1, skip_replacement (st <| segq := segq_update e (segq st) |>
      <| timeq := timeq_remove (ipqe_addr q) (timeq st) |>) (ipqe_addr q) = tcp_reass_present st1 /\
    rinv objs st1 [] /\ rest_same st st1 /\ segq st1 = pre ++ e :: post.
Proof.
  intros I E A. pose proof (rinv_nodup_segq _ objs_nodup _ _ I) as N. destruct I as [T L P].
  rewrite E in *. rewrite (segq_update_split pre q e post) by done.
  assert (addrs (pre ++ e :: post) = addrs (pre ++ q :: post)) as A'.
  { unfold addrs. rewrite !fmap_app, !fmap_cons. by rewrite A. }
  eexists. split; [reflexivity|]. split; [split; upd_simpl|split].
  - rewrite A', addrs_middle. f_equiv. apply timeq_remove_perm; [by rewrite T, addrs_middle|by rewrite T].
  - rewrite L, !length_app. done.
  - by rewrite A'.
  - exact (rest_same_refl st).
  - done.
Qed.

(** The segment becomes an entry, unless there is no entry to hold it. *)
Lemma insert_it_spec st pk pre post :
  rinv objs st (owned pk) -> segq st = pre ++ post -> pprev pk = last_addr pre ->
  (tiqe pk = None /\ mempool (tcpipqent_pool st) = [] /\ insert_it st pk = (0, st)) \/
  exists st1 e, insert_it st pk = tcp_reass_present st1 /\ rinv objs st1 [] /\ rest_same st st1 /\
    segq st1 = pre ++ e :: post /\ ipqe_seq e = pkt_seq pk /\ ipqe_len e = pkt_len pk /\
    ipqe_m e = pkt_m pk /\ ipqe_flags e = pkt_flags pk.
Proof.
  intros I E P. unfold insert_it.
  assert (forall a st0, rinv objs st0 [a] -> segq st0 = pre ++ post -> rest_same st st0 ->
    let e := mkIpqent a (pkt_seq pk) (pkt_len pk) (pkt_flags pk) (pkt_m pk) in
    exists st1, skip_replacement (st0 <| segq := insert_at (pprev pk) e (segq st0) |>
        <| r_tp := (r_tp st0) <| t_segqlen := s32 (t_segqlen (r_tp st0) + 1) |> |>) a = tcp_reass_present st1 /\
      rinv objs st1 [] /\ rest_same st st1 /\ segq st1 = pre ++ e :: post) as G.
  { intros a st0 I0 E0 R0 e. pose proof (rinv_nodup_segq _ objs_nodup _ _ I0) as N.
    pose proof (rinv_count _ objs_int _ _ I0) as C. destruct I0 as [T L Q].
    rewrite E0 in *. rewrite P, insert_at_split by done.
    eexists. split; [reflexivity|]. split; [split; upd_simpl|split; [|done]].
    - rewrite addrs_middle. f_equiv. by rewrite T.
    - simpl in C. rewrite s32_small by lia. rewrite L, !length_app. simpl. lia.
    - rewrite <- Q. unfold pool_objects. f_equiv. rewrite addrs_middle, app_nil_r.
      apply Permutation_cons_append.
    - eapply rest_same_trans; [done|]. split; [by eexists|done]. }
  unfold owned in I. destruct (tiqe pk) as [a|] eqn:Et.
  - right. destruct (G a st I E (rest_same_refl st)) as (st1 & E1 & I1 & R1 & S1).
    exists st1, (mkIpqent a (pkt_seq pk) (pkt_len pk) (pkt_flags pk) (pkt_m pk)). done.
  - unfold tcpipqent_alloc. destruct (pool_get (tcpipqent_pool st)) as [[a pl]|] eqn:Ea.
    + right. destruct (G a (st <| tcpipqent_pool := pl |>)) as (st1 & E1 & I1 & R1 & S1).
      * destruct I as [T L Q]. split; upd_simpl; [done|done|].
        rewrite <- Q, app_nil_r, <- (pool_get_objects _ _ _ _ Ea). unfold pool_objects. f_equiv.
        symmetry. apply Permutation_cons_append.
      * done.
      * exact (rest_same_refl st).
      * exists st1, (mkIpqent a (pkt_seq pk) (pkt_len pk) (pkt_flags pk) (pkt_m pk)). done.
    + left. by apply pool_get_None in Ea.
Qed.

(** ** A segment enters the queue *)

Record qok (st : rconn) : Prop := {
  q_res : rinv objs st [];
  q_ent : Forall ent_ok (segq st);
  q_gap : gapped (-1) (segq st)
}.

Lemma cov_middle pre q post o : cov (pre ++ q :: post) o <-> lo q <= o < hi q \/ cov (pre ++ post) o.
Proof. rewrite !cov_app, cov_cons. tauto. Qed.

(** The outcome of [tcp_reass] before data are presented, for the range
    [a, e) of the stream. *)
Definition added (st : rconn) (a e : Z) (st1 : rconn) : Prop :=
  qok st1 /\ rest_same st st1 /\ forall o, cov (segq st1) o <-> cov (segq st) o \/ a <= o < e.

Lemma added_replace st pre q e post a z :
  qok st -> segq st = pre ++ q :: post -> ipqe_addr e = ipqe_addr q -> ent_ok e ->
  gapped (-1) (pre ++ e :: post) -> (forall o, lo e <= o < hi e <-> lo q <= o < hi q \/ a <= o < z) ->
  exists st1, skip_replacement (st <| segq := segq_update e (segq st) |>
      <| timeq := timeq_remove (ipqe_addr q) (timeq st) |>) (ipqe_addr q) = tcp_reass_present st1 /\ added st a z st1.
Proof.
  intros [I F _] E A K G C. destruct (replace_entry_spec st pre q e post I E A) as (st1 & -> & I1 & R1 & S1).
  exists st1. split; [done|]. rewrite E in F. apply Forall_app in F as [F1 F2]. apply Forall_cons in F2 as [_ F2].
  split; [split; [done| |by rewrite S1]|split; [done|]].
  - rewrite S1. apply Forall_app. split; [done|]. by apply Forall_cons.
  - intros o. rewrite S1, E, !cov_middle, C. tauto.
Qed.

Lemma added_insert st st0 pk keep gone post a z :
  qok st -> segq st = keep ++ gone ++ post -> segq st0 = keep ++ post -> rinv objs st0 (owned pk) ->
  rest_same st st0 -> pkt_ok pk -> pprev pk = last_addr keep -> top (-1) keep < plo pk -> gapped (phi pk) post ->
  (forall o, plo pk <= o < phi pk <-> a <= o < z \/ cov gone o) ->
  (tiqe pk = None /\ mempool (tcpipqent_pool st0) = [] /\ insert_it st0 pk = (0, st0)) \/
  exists st1, insert_it st0 pk = tcp_reass_present st1 /\ added st a z st1.
Proof.
  intros [_ F G] E E0 I R K P T G' C.
  destruct (insert_it_spec st0 pk keep post I E0 P) as [D|(st1 & e & -> & I1 & R1 & S1 & Es & El & Em & _)];
    [by left|right]. exists st1. split; [done|].
  assert (lo e = plo pk) as Lo by (unfold lo, plo; by rewrite Es).
  assert (hi e = phi pk) as Hi by (unfold hi, phi; by rewrite Lo, El).
  rewrite E in F, G. rewrite !Forall_app in F. apply gapped_app in G as [G _].
  split; [split; [done| |]|split; [by eapply rest_same_trans|]].
  - rewrite S1, Forall_app, Forall_cons. split; [tauto|]. split; [|tauto].
    unfold ent_ok. by rewrite Es, El, Em.
  - rewrite S1, gapped_app. simpl. rewrite Lo, Hi. done.
  - intros o. rewrite S1, cov_middle, Lo, Hi, C, E, !cov_app. tauto.
Qed.

Definition added_spec (st : rconn) (pk : reass_pkt) (r : Z * rconn) : Prop :=
  (r = (0, st <| r_tp := tcp_new_dsack (r_tp st) (pkt_seq pk) (pkt_len pk) |>) /\
   forall o, plo pk <= o < phi pk -> cov (segq st) o) \/
  (r = (0, st) /\ mempool (tcpipqent_pool st) = []) \/
  exists st1, r = tcp_reass_present st1 /\ added st (plo pk) (phi pk) st1.

Lemma reass_scan_spec st pk :
  qok st -> pkt_ok pk -> tiqe pk = None -> pprev pk = None -> added_spec st pk (reass_scan st pk).
Proof.
  intros Q K T P. pose proof (pkt_bounds _ K). unfold reass_scan.
  assert (rinv objs st (owned pk)) as I by (unfold owned; rewrite T; apply Q).
  destruct (segq st) as [|q l] eqn:E.
  - destruct (added_insert st st pk [] [] [] (plo pk) (phi pk)) as [(_ & ? & ->)|?]; try done.
    + apply rest_same_refl.
    + simpl. lia.
    + intros o. pose proof (cov_nil o). tauto.
    + right; left. done.
    + by right; right.
  - assert (ent_ok q /\ Forall ent_ok l) as [Kq F] by (apply Forall_cons; rewrite <- E; apply Q).
    pose proof (ent_bounds _ Kq). assert (gapped (-1) (q :: l)) as G by (rewrite <- E; apply Q).
    rewrite (seq_eqb_off (pkt_end pk)), (pkt_end_off pk K) by (apply pkt_end_u32 || apply Kq).
    fold (lo q). destruct (Z.eqb_spec (phi pk) (lo q)) as [Eq|Nq].
    + right; right. rewrite <- E. pose proof (seg_ok_join _ _ _ _ _ _ K Kq (eq_sym Eq)) as J.
      rewrite Z.add_comm in J. apply added_replace with (pre := []) (post := l); try done.
      * simpl. unfold hi, lo in *. upd_simpl. unfold phi, plo in *. rewrite u32_small by lia.
        split; [lia|]. eapply gapped_weaken; [|apply G]. unfold hi, lo. lia.
      * intros o. unfold hi, lo in *. upd_simpl. unfold phi, plo in *. rewrite u32_small by lia. lia.
    + assert (loop_spec (-1) [] (q :: l) st pk (reass_loop (q :: l) st pk)) as S'.
      { apply reass_loop_spec; simpl; try done; [by apply Forall_cons|lia]. }
      destruct (reass_loop (q :: l) st pk) as [[ok st'] pk'] eqn:El. destruct ok; simpl in S'.
      * destruct S' as (keep & gone & post & E1 & E2 & I' & R & K' & P' & T' & G' & C & N).
        destruct (added_insert st st' pk' keep gone post (plo pk) (phi pk)) as [(Nt & ? & ->)|?]; try done.
        -- by rewrite E.
        -- right; left. destruct (N Nt) as [_ ->]. done.
        -- by right; right.
      * destruct S' as (-> & -> & Es & Ele & x & Hx & Lx & Hi). left. rewrite Es, Ele. split; [done|].
        intros o Ho. exists x. rewrite E. split; [done|lia].
Qed.

Lemma tcp_reass_added st th m tlen :
  qok st -> seg_ok (th_seq th) tlen m ->
  added_spec st (mkPkt (th_seq th) tlen (th_flags th) m None None) (tcp_reass st (Some th) m tlen).
Proof.
  intros Q K. pose proof K as (_ & L1 & L2 & _). pose proof (off_range base (th_seq th)).
  unfold tcp_reass. rewrite (u32_small tlen) by lia. set (pk := mkPkt _ _ _ _ _ _).
  assert (pkt_ok pk) as Kp by done. destruct (last (segq st)) as [p|] eqn:E; [|by apply reass_scan_spec].
  apply last_Some in E as [pre E]. assert (ent_ok p) as Kq.
  { destruct Q as [_ F _]. rewrite E, Forall_app, Forall_cons in F. tauto. }
  pose proof (ent_bounds _ Kq). pose proof (pkt_bounds _ Kp).
  assert (gapped (-1) (pre ++ [p])) as G by (rewrite <- E; apply Q). apply gapped_app in G as [G1 [G2 _]].
  rewrite (seq_eqb_off (pkt_seq pk)), (ipqe_end_off p Kq) by (apply ipqe_end_u32 || apply K).
  fold (plo pk). destruct (Z.eqb_spec (plo pk) (hi p)) as [Ee|Ne].
  - right; right. apply added_replace with (pre := pre) (post := []); try done.
    + exact (seg_ok_join _ _ _ _ _ _ Kq Kp Ee).
    + apply gapped_app. split; [done|]. simpl. split; [|done]. done.
    + intros o. unfold hi, lo in *. upd_simpl. unfold phi, plo in *. simpl in *. rewrite u32_small by lia. lia.
  - rewrite (SEQ_GT_off base), (ipqe_end_off p Kq) by (rewrite ?(ipqe_end_off p Kq); change (off base (pkt_seq pk)) with (plo pk); lia).
    fold (plo pk). destruct (Z.ltb_spec (hi p) (plo pk)); [|by apply reass_scan_spec].
    destruct (added_insert st st (pk <| pprev := Some (ipqe_addr p) |>) (pre ++ [p]) [] [] (plo pk) (phi pk))
      as [(_ & ? & ->)|?]; try done.
    + by rewrite app_nil_r.
    + by rewrite app_nil_r.
    + apply Q.
    + apply rest_same_refl.
    + by rewrite last_addr_snoc.
    + by rewrite top_app.
    + intros o. pose proof (cov_nil o). tauto.
    + right; left. done.
    + by right; right.
Qed.
End loop.
End intervals.

(** ** Presenting data moves the base *)

Lemma slice_shift S S' a b n : (forall i, 0 <= i < n -> S (a + i) = S' (b + i)) -> slice S a n = slice S' b n.
Proof.
  intros E. unfold slice. apply list_eq. intros i. rewrite !list_lookup_fmap.
  destruct (decide (Z.of_nat i < n)) as [L|L].
  - rewrite !lookup_seqZ_lt by lia. simpl. f_equal. rewrite E by lia. done.
  - by rewrite !lookup_seqZ_ge by lia.
Qed.

Section shift.
Context (base W n k : Z) (S : Z -> Z).
Hypothesis k_pos : 0 <= k.

Lemma off_shift x : k <= off base x -> off (u32 (base + k)) x = off base x - k.
Proof.
  intros L. pose proof (off_range base x). rewrite <- (u32_small (off base x - k)) by lia.
  unfold off, u32. rewrite Zminus_mod_idemp_l, Zminus_mod_idemp_r. f_equal. lia.
Qed.

Lemma lo_shift q : k <= lo base q -> lo (u32 (base + k)) q = lo base q - k.
Proof. apply off_shift. Qed.

Lemma hi_shift q : k <= lo base q -> hi (u32 (base + k)) q = hi base q - k.
Proof. intros L. unfold hi. rewrite lo_shift by done. lia. Qed.

Lemma ent_ok_shift q : k <= lo base q -> ent_ok base W (fun o => S (n + o)) q ->
  ent_ok (u32 (base + k)) W (fun o => S (n + k + o)) q.
Proof.
  intros L (A & B & C & D). unfold ent_ok, seg_ok. rewrite off_shift by done. unfold lo in *.
  split; [done|]. split; [done|]. split; [lia|]. rewrite D. apply slice_shift. intros i Hi. f_equal. lia.
Qed.

Lemma gapped_shift b l : Forall (ent_ok base W (fun o => S (n + o))) l -> k <= b -> gapped base b l ->
  gapped (u32 (base + k)) (b - k) l.
Proof.
  intros F. revert b. induction F as [|q l (A & B & C & D) F IH]; intros b Lb; simpl; [done|]. intros [G1 G2].
  rewrite lo_shift, hi_shift by lia. split; [lia|]. apply IH; [unfold hi, lo in *; lia|done].
Qed.

Lemma cov_shift l o : Forall (fun q => k <= lo base q) l -> cov (u32 (base + k)) l o <-> cov base l (o + k).
Proof.
  induction 1 as [|q l L F IH]; [split; intros []%cov_nil|].
  rewrite !cov_cons, IH, lo_shift, hi_shift by done. assert (lo base q - k <= o < hi base q - k <-> lo base q <= o + k < hi base q) by lia. tauto.
Qed.
End shift.

(** ** The abstract receiver

    It remembers which offsets of the stream have arrived; the data delivered
    end at the first one that has not. *)

Fixpoint prefix_from (fuel : nat) (R : gset Z) (n : Z) : Z :=
  match fuel with
  | O => n
  | Datatypes.S fuel => if decide (n ∈ R) then prefix_from fuel R (n + 1) else n
  end.

Definition first_missing (R : gset Z) : Z := prefix_from (size R) R 0.

Definition recv_range (R : gset Z) (a len : Z) : gset Z := R ∪ list_to_set (seqZ a len).

Lemma elem_of_recv_range R a len o : o ∈ recv_range R a len <-> o ∈ R \/ a <= o < a + len.
Proof. unfold recv_range. rewrite elem_of_union, elem_of_list_to_set, elem_of_seqZ. done. Qed.

Lemma prefix_from_bounds fuel R n : n <= prefix_from fuel R n <= n + Z.of_nat fuel /\
  (forall o, n <= o < prefix_from fuel R n -> o ∈ R) /\
  (prefix_from fuel R n < n + Z.of_nat fuel -> prefix_from fuel R n ∉ R).
Proof.
  revert n. induction fuel as [|fuel IH]; intros n; simpl; [split; [lia|]; split; lia|].
  destruct (decide (n ∈ R)) as [E|E]; [|split; [lia|]; split; [lia|done]].
  destruct (IH (n + 1)) as (B & In & Out). split; [lia|]. split; [|intros; apply Out; lia].
  intros o Ho. destruct (decide (o = n)) as [->|]; [done|]. apply In. lia.
Qed.

Lemma first_missing_unique R n : 0 <= n -> (forall o, 0 <= o < n -> o ∈ R) -> n ∉ R -> first_missing R = n.
Proof.
  intros N In Out. unfold first_missing. destruct (prefix_from_bounds (size R) R 0) as (B & In' & Out').
  set (p := prefix_from (size R) R 0) in *.
  assert (~ n < p). { intros L. apply Out, In'. lia. }
  destruct (decide (p < n)) as [L|]; [|lia]. exfalso.
  destruct (decide (p < Z.of_nat (size R))) as [L'|L']; [apply Out'; [lia|apply In; lia]|].
  assert (list_to_set (seqZ 0 n) ⊆ R) as Sub.
  { intros o. rewrite elem_of_list_to_set, elem_of_seqZ. intros. apply In. lia. }
  apply subseteq_size in Sub. rewrite size_list_to_set, length_seqZ in Sub by apply NoDup_seqZ. lia.
Qed.

Lemma first_missing_below R o : 0 <= o < first_missing R -> o ∈ R.
Proof. destruct (prefix_from_bounds (size R) R 0) as (_ & In & _). apply In. Qed.

Lemma first_missing_nonneg R : 0 <= first_missing R.
Proof. destruct (prefix_from_bounds (size R) R 0) as (B & _). unfold first_missing. lia. Qed.

Lemma first_missing_notin R : first_missing R ∉ R.
Proof.
  destruct (prefix_from_bounds (size R) R 0) as (B & In & Out). fold (first_missing R) in B, In, Out.
  destruct (decide (first_missing R < Z.of_nat (size R))) as [L|L]; [apply Out; lia|]. intros Hin.
  assert (list_to_set (seqZ 0 (first_missing R + 1)) ⊆ R) as Sub.
  { intros o. rewrite elem_of_list_to_set, elem_of_seqZ. intros.
    destruct (decide (o = first_missing R)) as [->|]; [done|]. apply In. lia. }
  apply subseteq_size in Sub. rewrite size_list_to_set, length_seqZ in Sub by apply NoDup_seqZ. lia.
Qed.

Lemma first_missing_mono R R' : R ⊆ R' -> first_missing R <= first_missing R'.
Proof.
  intros Sub. destruct (decide (first_missing R <= first_missing R')) as [|L]; [done|]. exfalso.
  apply (first_missing_notin R'), Sub, first_missing_below. pose proof (first_missing_nonneg R'). lia.
Qed.

Section simulation.
Context (S : Z -> Z) (irs W : Z) (objs : list addr).
Hypothesis W_small : W < 2 ^ 31.
Hypothesis objs_nodup : NoDup objs.
Hypothesis objs_int : Z.of_nat (length objs) < 2 ^ 31.

Definition dlen (st : rconn) : Z := Z.of_nat (length (so_rcv st)).

(** Everything but that the queue begins above [rcv_nxt]. *)
Record sim_upto (R : gset Z) (st : rconn) : Prop := {
  su_est : TCPS_HAVEESTABLISHED (t_state (r_tp st)) = true;
  su_rcv : flag_set (so_state st) SS_CANTRCVMORE = false;
  su_nxt : rcv_nxt (r_tp st) = u32 (irs + dlen st);
  su_data : so_rcv st = slice S 0 (dlen st);
  su_q : qok (rcv_nxt (r_tp st)) W (fun o => S (dlen st + o)) objs st;
  su_set : forall o, o ∈ R <-> 0 <= o < dlen st \/ cov (rcv_nxt (r_tp st)) (segq st) (o - dlen st)
}.

(** The connection holds exactly the offsets [R] of the stream [S]. *)
Definition reass_sim (R : gset Z) (st : rconn) : Prop :=
  sim_upto R st /\ gapped (rcv_nxt (r_tp st)) 0 (segq st).

Lemma nxt_u32 R st : sim_upto R st -> is_u32 (rcv_nxt (r_tp st)).
Proof. intros H. rewrite (su_nxt _ _ H). apply u32_range. Qed.

Lemma reass_sim_prefix R st : reass_sim R st -> so_rcv st = slice S 0 (first_missing R).
Proof.
  intros [H G]. rewrite (first_missing_unique R (dlen st)); [apply H| unfold dlen; lia| |].
  - intros o Ho. apply (su_set _ _ H). by left.
  - intros [?|(q & Hq & ?)]%(su_set _ _ H); [lia|].
    pose proof (gapped_elem _ _ _ _ _ _ (q_ent _ _ _ _ _ (su_q _ _ H)) G Hq). lia.
Qed.

(** The first entry is given to the socket and its object to the pool. *)
Lemma present_take st q l :
  rinv objs st [] -> segq st = q :: l -> TCPS_HAVEESTABLISHED (t_state (r_tp st)) = true ->
  ipqe_seq q = rcv_nxt (r_tp st) ->
  exists st', tcp_reass_present st = (Z.land (ipqe_flags q) TH_FIN, st') /\ rinv objs st' [] /\ segq st' = l /\
    (exists n, r_tp st' = (r_tp st) <| rcv_nxt := u32 (rcv_nxt (r_tp st) + ipqe_len q) |> <| t_segqlen := n |>) /\
    so_state st' = so_state st /\
    so_rcv st' = so_rcv st ++ (if flag_set (so_state st) SS_CANTRCVMORE then [] else ipqe_m q).
Proof.
  intros I E Es Eq. unfold tcp_reass_present. rewrite Es, E, Eq, Z.eqb_refl.
  assert ((t_state (r_tp st) =? TCPS_SYN_RECEIVED) = false) as ->.
  { unfold TCPS_HAVEESTABLISHED, TCPS_ESTABLISHED, TCPS_SYN_RECEIVED in *.
    apply Z.eqb_neq. apply Z.leb_le in Es. lia. }
  simpl negb. simpl andb. cbv iota. set (st0 := st <| r_tp := _ |>). set (st1 := segq_unlink st0 q). cbv zeta.
  assert (rinv objs st0 []) as I0 by (destruct I as [T L P]; split; [exact T|exact L|exact P]).
  destruct (segq_unlink_spec objs objs_nodup objs_int st0 [] [] q l I0 E) as (I1 & E1 & [n R1] & R2 & R3 & R4).
  fold st1 in I1, E1, R1, R2, R3, R4. rewrite R2. change (so_state st0) with (so_state st).
  set (st2 := if flag_set _ _ then _ else _).
  assert (rinv objs st2 [ipqe_addr q] /\ segq st2 = l /\ r_tp st2 = r_tp st1 /\ so_state st2 = so_state st /\
    so_rcv st2 = so_rcv st ++ (if flag_set (so_state st) SS_CANTRCVMORE then [] else ipqe_m q))
    as (I2 & E2 & T2 & S2 & D2).
  { subst st2. destruct (flag_set (so_state st) SS_CANTRCVMORE).
    - rewrite app_nil_r. done.
    - destruct I1 as [T L P]. split; [split; [exact T|exact L|exact P]|]. do 2 (split; [done|]).
      split; [done|]. upd_simpl. by rewrite R3. }
  clearbody st2. destruct (tcpipqent_free_spec _ _ _ _ I2) as [[T L P] _].
  eexists. split; [reflexivity|]. split; [split; [exact T|exact L|exact P]|]. split; [done|].
  split; [|done]. exists n. change (r_tp st2 = (r_tp st0) <| t_segqlen := n |>). by rewrite T2.
Qed.

Lemma tcp_reass_present_sim R st : sim_upto R st ->
  exists fl st', tcp_reass_present st = (fl, st') /\ reass_sim R st'.
Proof.
  intros H. pose proof (nxt_u32 _ _ H) as U.
  destruct (segq st) as [|q l] eqn:E.
  { unfold tcp_reass_present. rewrite (su_est _ _ H), E. eexists _, _. split; [done|]. split; [done|]. by rewrite E. }
  assert (ent_ok (rcv_nxt (r_tp st)) W (fun o => S (dlen st + o)) q) as Kq.
  { destruct (su_q _ _ H) as [_ F _]. rewrite E, Forall_cons in F. tauto. }
  pose proof (ent_bounds _ _ _ _ Kq) as Bq.
  assert (gapped (rcv_nxt (r_tp st)) (-1) (q :: l)) as G by (rewrite <- E; apply H).
  destruct (Z.eqb_spec (lo (rcv_nxt (r_tp st)) q) 0) as [Z0|N0]; simpl.
  2:{ unfold tcp_reass_present. rewrite (su_est _ _ H), E, (seq_eqb_off _ U), off_base by (done || apply Kq).
      fold (lo (rcv_nxt (r_tp st)) q). rewrite (proj2 (Z.eqb_neq _ _) N0). eexists _, _.
      split; [done|]. split; [done|]. rewrite E. destruct G as [G1 G2]. simpl. split; [lia|done]. }
  assert (ipqe_seq q = rcv_nxt (r_tp st)) as Eq.
  { apply (off_inj (rcv_nxt (r_tp st))); try done; [apply Kq|by rewrite off_base]. }
  destruct (present_take st q l (q_res _ _ _ _ _ (su_q _ _ H)) E (su_est _ _ H) Eq)
    as (st' & Ep & I' & E' & [n T'] & S' & D').
  rewrite (su_rcv _ _ H) in D'. set (base := rcv_nxt (r_tp st)) in *. set (k := ipqe_len q) in *.
  pose proof Kq as (Kq1 & Kq2 & Kq3 & Kq4). fold (lo base q) in Kq3, Kq4. rewrite Z0 in Kq3, Kq4. fold k in Kq2, Kq3, Kq4.
  assert (hi base q = k) as Hk by (unfold hi; rewrite Z0; done).
  assert (dlen st' = dlen st + k) as Dl.
  { unfold dlen. rewrite D', length_app, Kq4, slice_length. lia. }
  assert (rcv_nxt (r_tp st') = u32 (base + k)) as Nx by (rewrite T'; upd_simpl; done).
  destruct (su_q _ _ H) as [_ F _]. rewrite E in F. apply Forall_cons in F as [_ F]. fold base in F.
  destruct G as [_ G]. rewrite Hk in G.
  assert (Forall (fun x => k <= lo base x) l) as Fk.
  { rewrite Forall_forall. intros x Hx. pose proof (gapped_elem _ _ _ _ _ _ F G Hx). lia. }
  assert (gapped (u32 (base + k)) 0 l) as G'.
  { replace 0 with (k - k) by lia. eapply gapped_shift; [lia|exact F|lia|exact G]. }
  exists (Z.land (ipqe_flags q) TH_FIN), st'. split; [done|]. split; [|by rewrite E', Nx].
  split; rewrite ?S', ?Nx, ?Dl.
  - rewrite T'. upd_simpl. apply H.
  - apply H.
  - unfold base. rewrite (su_nxt _ _ H). unfold u32. rewrite Z.add_mod_idemp_l by lia. f_equal. lia.
  - rewrite D', Kq4, (su_data _ _ H) at 1. rewrite <- slice_app by (unfold dlen; lia). f_equal.
    apply slice_shift. intros i Hi. f_equal; lia.
  - split; [done| |].
    + rewrite E'. rewrite Forall_forall in *. intros x Hx. apply ent_ok_shift; auto.
    + rewrite E'. destruct l as [|x l]; [done|]. destruct G' as [??]. split; [lia|done].
  - intros o. rewrite (su_set _ _ H), E, E', cov_shift, cov_cons by done. fold base. rewrite Z0, Hk.
    replace (o - (dlen st + k) + k) with (o - dlen st) by lia. assert (0 <= dlen st) by (unfold dlen; lia).
    assert (0 <= o < dlen st + k <-> 0 <= o < dlen st \/ 0 <= o - dlen st < k) by lia. tauto.
Qed.

Lemma sim_upto_frame R R' st st1 :
  sim_upto R st -> t_state (r_tp st1) = t_state (r_tp st) -> rcv_nxt (r_tp st1) = rcv_nxt (r_tp st) ->
  so_state st1 = so_state st -> so_rcv st1 = so_rcv st ->
  qok (rcv_nxt (r_tp st)) W (fun o => S (dlen st + o)) objs st1 ->
  (forall o, o ∈ R' <-> 0 <= o < dlen st \/ cov (rcv_nxt (r_tp st)) (segq st1) (o - dlen st)) ->
  sim_upto R' st1.
Proof.
  intros H Et En Es Ed Q C. assert (dlen st1 = dlen st) as El by (unfold dlen; by rewrite Ed).
  destruct H. split; rewrite ?Et, ?En, ?Es, ?Ed, ?El; done.
Qed.

(** A connection with nothing received. *)
Lemma reass_sim_init st :
  TCPS_HAVEESTABLISHED (t_state (r_tp st)) = true -> flag_set (so_state st) SS_CANTRCVMORE = false ->
  rcv_nxt (r_tp st) = u32 irs -> so_rcv st = [] -> segq st = [] -> timeq st = [] ->
  t_segqlen (r_tp st) = 0 -> mempool (tcpipqent_pool st) = objs -> reass_sim ∅ st.
Proof.
  intros Es Er En Ed Eq Et El Ep. assert (dlen st = 0) as D by (unfold dlen; by rewrite Ed).
  split; [split|by rewrite Eq]; rewrite ?D, ?Z.add_0_r; try done.
  - split; [split|by rewrite Eq|by rewrite Eq]; rewrite ?Eq, ?Et, ?El; [done|done|].
    unfold pool_objects. by rewrite Ep, app_nil_r.
  - intros o. rewrite elem_of_empty, Eq. pose proof (cov_nil (rcv_nxt (r_tp st)) (o - 0)). split; [done|]. intros [?|?]; [lia|done].
Qed.

Lemma tcp_reass_sim R st th m a len :
  reass_sim R st -> th_seq th = u32 (irs + a) -> dlen st <= a -> 0 <= len -> a - dlen st + len <= W ->
  m = slice S a len ->
  exists fl st', tcp_reass st (Some th) m len = (fl, st') /\
    (reass_sim (recv_range R a len) st' \/ (mempool (tcpipqent_pool st) = [] /\ st' = st)).
Proof.
  intros [H G] Es La Ll Lw Em. set (base := rcv_nxt (r_tp st)) in *.
  assert (0 <= dlen st) by (unfold dlen; lia).
  assert (off base (th_seq th) = a - dlen st) as Eo.
  { unfold base. rewrite Es, (su_nxt _ _ H). unfold off, u32.
    rewrite <- Zminus_mod. rewrite Z.mod_small; lia. }
  assert (seg_ok base W (fun o => S (dlen st + o)) (th_seq th) len m) as K.
  { unfold seg_ok. rewrite Eo. split; [rewrite Es; apply u32_range|]. split; [done|]. split; [lia|].
    rewrite Em. apply slice_shift. intros i Hi. f_equal. lia. }
  pose proof (tcp_reass_added base W _ (nxt_u32 _ _ H) W_small objs objs_nodup objs_int st th m len (su_q _ _ H) K) as A.
  unfold added_spec, phi, plo in A. cbn [pkt_seq pkt_len] in A. rewrite Eo in A.
  destruct A as [[-> C]|[[-> Ep]|(st1 & -> & Q1 & ([n T1] & S1 & D1 & _) & C1)]].
  - eexists _, _. split; [reflexivity|]. left.
    assert (forall x y, t_state (tcp_new_dsack (r_tp st) x y) = t_state (r_tp st) /\
      rcv_nxt (tcp_new_dsack (r_tp st) x y) = rcv_nxt (r_tp st) /\
      t_segqlen (tcp_new_dsack (r_tp st) x y) = t_segqlen (r_tp st)) as F.
    { intros. unfold tcp_new_dsack. by destruct (TCP_SACK_ENABLED _). }
    destruct (F (th_seq th) len) as (F1 & F2 & F3). split; [|upd_simpl; by rewrite F2].
    apply (sim_upto_frame R _ st); upd_simpl; try done.
    + destruct (su_q _ _ H) as [[A B D] F' G']. split; [split; upd_simpl; [done|by rewrite F3|done]|done|done].
    + intros o. rewrite elem_of_recv_range, (su_set _ _ H). fold base. specialize (C (o - dlen st)).
      assert (a <= o < a + len -> a - dlen st <= o - dlen st < a - dlen st + len) by lia. tauto.
  - eexists _, _. split; [reflexivity|]. by right.
  - destruct (tcp_reass_present_sim (recv_range R a len) st1) as (fl & st' & Ep & Sim).
    + apply (sim_upto_frame R _ st); rewrite ?T1; try done.
      intros o. rewrite elem_of_recv_range, (su_set _ _ H). fold base. rewrite C1.
      assert (a <= o < a + len <-> a - dlen st <= o - dlen st < a - dlen st + len) by lia. tauto.
    + exists fl, st'. split; [done|]. by left.
Qed.
End simulation.

(** C11. Refinement of the abstract receiver: for an established connection that
    holds exactly the offsets [R] of the peer's stream [S] (delivered or
    queued), a segment of the stream that begins at or after [rcv_nxt] and ends
    in the window makes it hold exactly [R] and the offsets of the segment, in
    whatever order, overlap or duplication segments come; what the socket has
    received is then the stream up to the first missing offset.  The segment
    is lost only when the pool of entries is empty, and then nothing changes. *)
Theorem tcp_reass_refines S irs W objs R st th m a len :
  W < 2 ^ 31 -> NoDup objs -> Z.of_nat (length objs) < 2 ^ 31 ->
  reass_sim S irs W objs R st -> th_seq th = u32 (irs + a) -> dlen st <= a -> 0 <= len ->
  a - dlen st + len <= W -> m = slice S a len ->
  exists fl st', tcp_reass st (Some th) m len = (fl, st') /\
    (reass_sim S irs W objs (recv_range R a len) st' /\ so_rcv st' = slice S 0 (first_missing (recv_range R a len)) \/
     mempool (tcpipqent_pool st) = [] /\ st' = st).
Proof.
  intros Ws No Io H Es La Ll Lw Em.
  destruct (tcp_reass_sim S irs W objs Ws No Io R st th m a len H Es La Ll Lw Em) as (fl & st' & E & [Sim|D]).
  - exists fl, st'. split; [done|]. left. split; [done|]. exact (reass_sim_prefix S irs W objs _ _ Sim).
  - exists fl, st'. split; [done|]. by right.
Qed.

(** An established connection that expects sequence number 2^32 - 2. *)
Definition ex_rconn : rconn :=
  mkRconn (tcpcb_zero <| t_state := TCPS_ESTABLISHED |> <| rcv_nxt := 2 ^ 32 - 2 |>) [] []
    (mkPool [1; 2]%positive) 0 [] 0.

Definition ex_stream (o : Z) : Z := (o * 7) mod 256.

Lemma tcp_reass_refines_witness :
  exists fl st', tcp_reass ex_rconn (Some (mkTcphdr 3 0 TH_ACK)) (slice ex_stream 5 4) 4 = (fl, st') /\
    (reass_sim ex_stream (2 ^ 32 - 2) 1000 [1; 2]%positive (recv_range ∅ 5 4) st' /\
     so_rcv st' = slice ex_stream 0 (first_missing (recv_range ∅ 5 4)) \/
     mempool (tcpipqent_pool ex_rconn) = [] /\ st' = ex_rconn).
Proof.
  apply (tcp_reass_refines ex_stream (2 ^ 32 - 2) 1000).
  - lia.
  - apply (bool_decide_unpack _). by vm_compute.
  - simpl. lia.
  - apply reass_sim_init; done.
  - by vm_compute.
  - unfold dlen. simpl. lia.
  - lia.
  - unfold dlen. simpl. lia.
  - done.
Defined.

(** The run of two segments that arrive in the wrong order, by evaluation. *)
Example tcp_reass_out_of_order :
  let '(_, st) := tcp_reass ex_rconn (Some (mkTcphdr 3 0 TH_ACK)) (slice ex_stream 5 4) 4 in
  so_rcv st = [] /\
  let '(_, st) := tcp_reass st (Some (mkTcphdr (2 ^ 32 - 2) 0 TH_ACK)) (slice ex_stream 0 7) 7 in
  so_rcv st = slice ex_stream 0 9 /\ segq st = [] /\ length (mempool (tcpipqent_pool st)) = 2%nat.
Proof. by vm_compute. Qed.

