(* ===== verification/TcpInput.v ===== *)
(** * TCP input (src/netbsd/netinet/tcp_input.c, tcp_subr.c)

    [tcp_input] from the point where the connection of a segment is known and
    is not listening (after_listen) to its end: options, header prediction, the
    handshake of an active open, the window, RST, acknowledgements, urgent
    data, reassembly and FIN.  The function is a sequence of stages; a stage
    goes on to the next one or stops at one of the labels at the end.

    The packet is its bytes, headers included; [hdroptlen] of them are dropped
    in front of the data.  Buffers of the socket are byte streams.  What
    surrounds the connection, such as the clock, the space of the receive
    buffer and the send routine, is in the environment; calls that leave the
    connection (responses, wakeups, closing) are recorded in order. *)

From S2P Require Import Prelude Pool TcpSeq Callout Tcpcb TcpSack TcpCongctl TcpTimer MbufFacts SockState.
From S2P Require Import TcpOptions TcpReass.

Definition ECONNRESET : Z := 54.
Definition ECONNREFUSED : Z := 61.
Definition SO_OOBINLINE : Z := 0x0100.
Definition TCPOOB_HAVEDATA : Z := 0x01.
Definition TCPOOB_HADDATA : Z := 0x02.
Definition IPTOS_ECN_MASK : Z := 3.
Definition IPTOS_ECN_CE : Z := 3.
Definition TCP_PAWS_IDLE : Z := 24 * 24 * 60 * 60 * PR_SLOWHZ.
Definition TCPTV_MSL : Z := 30 * PR_SLOWHZ.
Definition TCPTV_MIN : Z := 1 * PR_SLOWHZ.
Definition TF_NOOPT : Z := 0x0008.
Definition TF_REQ_TSTMP : Z := 0x0080.
Definition TCPOLEN_TSTAMP_APPA : Z := 12.
Definition RTM_RTTUNIT : Z := 1000000.
Definition RTV_SSTHRESH : Z := 0x20.
Definition RTV_RTT : Z := 0x40.
Definition RTV_RTTVAR : Z := 0x80.
Definition sizeof_tcpiphdr : Z := 40.

Definition TSTMP_LT (a b : Z) : bool := s32 (a - b) <? 0.
Definition TSTMP_GEQ (a b : Z) : bool := 0 <=? s32 (a - b).

(** [struct rt_metrics], the fields TCP reads. *)
Record rt_metrics := mkRmx {
  rmx_locks : Z; rmx_recvpipe : Z; rmx_sendpipe : Z; rmx_ssthresh : Z; rmx_rtt : Z; rmx_rttvar : Z
}.

#[export] Instance eta_rt_metrics : EtaRecord rt_metrics :=
  fun r => mkRmx (rmx_locks r) (rmx_recvpipe r) (rmx_sendpipe r) (rmx_ssthresh r) (rmx_rtt r) (rmx_rttvar r).

(** The calls that leave the connection. *)
Inductive input_call :=
  | ICOutput
  | ICRespond (ack seq : tcp_seq) (flags : Z)
  | ICSoIsConnected
  | ICSoIsDisconnected
  | ICSoCantRcvMore
  | ICSowwakeup
  | ICSohasoutofband
  | ICReserveSnd (cc : Z)
  | ICReserveRcv (cc : Z)
  | ICMetrics (locks recvpipe sendpipe ssthresh rtt rttvar : Z)  (* stored in the route *)
  | ICCongctlRelease
  | ICSynCacheCleanup
  | ICPcbDetach
  | ICClose
  | ICTimer (c : timer_call).

(** The surroundings of the connection during one call. *)
Record tenv := mkEnv {
  tcp_output : tcpcb -> tcpcb;
  e_now : Z;                 (* tcp_now *)
  e_timer_hz : Z;
  e_hz : Z;
  e_abc : abc_config;
  e_msl_rtt : bool * Z * Z;  (* the argument of tcp_xmit_timer *)
  tcp_ack_on_push : bool;
  e_delack_ticks : Z;        (* tcp_delack_ticks *)
  e_delack : Z;              (* the address of tcp_delack *)
  e_tp : Z;                  (* the address of the control block *)
  tcp_do_sack : bool;
  tcp_do_ecn : bool;
  tcp_do_autorcvbuf : bool;
  tcp_autorcvbuf_inc : Z;
  tcp_autorcvbuf_max : Z;
  e_sb_max : Z;              (* sb_max *)
  e_rcv_space : Z;           (* sbspace(&so->so_rcv) *)
  e_rcv_cc : Z;              (* so->so_rcv.sb_cc *)
  e_rcv_hiwat : Z;
  e_rcv_autosize : bool;     (* so->so_rcv.sb_flags & SB_AUTOSIZE *)
  e_snd_hiwat : Z;
  e_ackdrop_ok : bool;       (* ppsratecheck for ACKs *)
  e_dst_multi : bool;        (* the destination is multicast or broadcast *)
  e_rt : option rt_metrics;  (* the route of the connection *)
  e_rt_host : bool;          (* it is not the default route *)
  e_laddr_loop : bool;       (* inp_laddr is the loopback address *)
  e_faddr_local : bool;      (* in_localaddr(inp_faddr) *)
  e_ip_optlen : Z;
  tcp_mssdflt : Z;
  tcp_init_win : Z;
  tcp_init_win_local : Z;
  tcp_msl_enable : bool;
  tcp_rttlocal : bool;
  tcp_msl_loop : Z;
  tcp_msl_local : Z;
  tcp_msl_remote : Z
}.

(** A connection with its socket. *)
Record conn := mkConn {
  c_r : rconn;
  c_sack : sack_globals;
  so_error : Z;
  so_options : Z;
  so_snd : list Z;
  so_oobmark : Z;
  c_alive : bool;            (* the control block exists *)
  c_calls : list input_call
}.

#[export] Instance eta_conn : EtaRecord conn :=
  fun r => mkConn (c_r r) (c_sack r) (so_error r) (so_options r) (so_snd r) (so_oobmark r) (c_alive r) (c_calls r).

(** The segment and the local variables of [tcp_input]. *)
Record seg := mkSeg {
  s_th : tcphdr;
  th_urp : Z;
  tiflags : Z;
  tiwin : Z;
  tlen : Z;
  s_m : list Z;
  hdroptlen : Z;
  opti : tcp_opt_info;
  ts_rtt : Z;
  iptos : Z;
  dupseg : bool;
  needoutput : bool
}.

#[export] Instance eta_seg : EtaRecord seg :=
  fun r => mkSeg (s_th r) (th_urp r) (tiflags r) (tiwin r) (tlen r) (s_m r) (hdroptlen r) (opti r) (ts_rtt r)
    (iptos r) (dupseg r) (needoutput r).

(** The labels at which a stage stops. *)
Inductive verdict := Return | Drop | DropAfterAck | DropAfterAckRatelim | DropWithReset | FindPcb.

Inductive sres := Next (c : conn) (s : seg) | Stop (v : verdict) (c : conn) (s : seg).

Definition sbind (r : sres) (k : conn -> seg -> sres) : sres :=
  match r with Next c s => k c s | Stop v c s => Stop v c s end.

Definition tp_of (c : conn) : tcpcb := r_tp (c_r c).
Definition upd_tp (c : conn) (f : tcpcb -> tcpcb) : conn := c <| c_r := (c_r c) <| r_tp := f (r_tp (c_r c)) |> |>.
Definition upd_so_state (c : conn) (f : Z -> Z) : conn :=
  c <| c_r := (c_r c) <| so_state := f (so_state (c_r c)) |> |>.
Definition call (c : conn) (x : input_call) : conn := c <| c_calls := c_calls c ++ [x] |>.
Definition set_seq (s : seg) (x : tcp_seq) : seg :=
  s <| s_th := mkTcphdr x (th_ack (s_th s)) (th_flags (s_th s)) |>.

Section input.
Variable env : tenv.

Definition arm (tp : tcpcb) (i : nat) (nticks : Z) : tcpcb :=
  TCP_TIMER_ARM (e_timer_hz env) (e_hz env) tp i nticks.

Definition or_flags (tp : tcpcb) (f : Z) : tcpcb := tp <| t_flags := Z.lor (t_flags tp) f |>.

(** [(void) tcp_output(tp)] *)
Definition do_output (c : conn) : conn := call (upd_tp c (tcp_output env)) ICOutput.

Definition soisconnected (c : conn) : conn := call (upd_so_state c state_connected) ICSoIsConnected.
Definition soisdisconnected (c : conn) : conn := call (upd_so_state c state_disconnected) ICSoIsDisconnected.
Definition socantrcvmore (c : conn) : conn := call (upd_so_state c state_cantrcvmore) ICSoCantRcvMore.

(** [sbappendstream] or [m_freem], and [sorwakeup]. *)
Definition deliver (c : conn) (bytes : list Z) : conn :=
  let r := c_r c in
  let r := if flag_set (so_state r) SS_CANTRCVMORE then r else r <| so_rcv := so_rcv r ++ bytes |> in
  c <| c_r := r <| so_rwakeups := S (so_rwakeups r) |> |>.

Definition TCP_SET_DELACK (tp : tcpcb) : tcpcb :=
  if flag_set (t_flags tp) TF_DELACK then tp
  else
    (or_flags tp TF_DELACK) <| t_delack_ch :=
      callout_reset (e_timer_hz env) (e_hz env) (t_delack_ch tp) (e_delack_ticks env) (Some (e_delack env)) (Some (e_tp env)) |>.

Definition tcp_setup_ack (tp : tcpcb) (th : tcphdr) : tcpcb :=
  if flag_set (t_flags tp) TF_DELACK || (tcp_ack_on_push env && flag_set (th_flags th) TH_PUSH)
  then or_flags tp TF_ACKNOW
  else TCP_SET_DELACK tp.

Definition icmp_check (tp : tcpcb) (th : tcphdr) (acked : Z) : tcpcb :=
  let tp := if flag_set (t_flags tp) TF_PMTUD_PEND && SEQ_GT (th_ack th) (t_pmtud_th_seq tp)
            then tp <| t_flags := flag_clear (t_flags tp) TF_PMTUD_PEND |> else tp in
  if t_pmtud_mss_acked tp <? u32 acked then tp <| t_pmtud_mss_acked := u32 acked |> else tp.

(** The table of the connection's algorithm. *)
Definition congctl (tp : tcpcb) : tcp_congctl :=
  congctl_table (tcp_output env) (e_abc env) (default tcp_newreno_ctl (t_congctl tp)).

Definition TCP_FACK_FASTRECOV (tp : tcpcb) : bool :=
  TCP_SACK_ENABLED tp && SEQ_GT (snd_fack tp) (snd_una tp + tcprexmtthresh * t_segsz tp).

(** ** Closing (tcp_subr.c) *)

Fixpoint freeq_loop (qs : list ipqent) (st : rconn) : rconn :=
  match qs with
  | [] => st
  | qe :: qs =>
      freeq_loop qs (tcpipqent_free
        (st <| segq := segq_remove (ipqe_addr qe) (segq st) |> <| timeq := timeq_remove (ipqe_addr qe) (timeq st) |>)
        (ipqe_addr qe))
  end.

Definition tcp_freeq (st : rconn) : rconn :=
  let st := freeq_loop (segq st) st in
  st <| r_tp := (r_tp st) <| t_segqlen := 0 |> |>.

(** The mean of the old and the new value of a metric. *)
Definition rmx_filter (old i : Z) : Z := if negb (old =? 0) && negb (i =? 0) then u64 (old + i) / 2 else i.

(** The characteristics of the path, with [i] as the code reuses it. *)
Definition rmx_update (tp : tcpcb) (rt : rt_metrics) : rt_metrics :=
  let '(i, rt) :=
    if flag_set (rmx_locks rt) RTV_RTT then (0, rt)
    else let i := u64 (t_srtt tp * Z.shiftr (RTM_RTTUNIT / PR_SLOWHZ) (TCP_RTT_SHIFT + 2)) in
         (i, rt <| rmx_rtt := rmx_filter (rmx_rtt rt) i |>) in
  let '(i, rt) :=
    if flag_set (rmx_locks rt) RTV_RTTVAR then (i, rt)
    else let i := u64 (t_rttvar tp * Z.shiftr (RTM_RTTUNIT / PR_SLOWHZ) (TCP_RTTVAR_SHIFT + 2)) in
         (i, rt <| rmx_rttvar := rmx_filter (rmx_rttvar rt) i |>) in
  let '(set, i) :=
    if flag_set (rmx_locks rt) RTV_SSTHRESH then (false, i)
    else (negb (snd_ssthresh tp =? 0) && negb (rmx_ssthresh rt =? 0), snd_ssthresh tp) in
  if set || (i <? rmx_sendpipe rt / 2) then
    let i := u64 (Z.max 2 ((i + t_segsz tp / 2) / t_segsz tp) * (t_segsz tp + sizeof_tcpiphdr)) in
    rt <| rmx_ssthresh := if negb (rmx_ssthresh rt =? 0) then u64 (rmx_ssthresh rt + i) / 2 else i |>
  else rt.

Definition save_metrics (c : conn) : conn :=
  let tp := tp_of c in
  match e_rt env with
  | Some rt =>
      if SEQ_LT (iss tp + e_snd_hiwat env * 16) (snd_max tp) && t_inpcb tp && e_rt_host env then
        let rt := rmx_update tp rt in
        call c (ICMetrics (rmx_locks rt) (rmx_recvpipe rt) (rmx_sendpipe rt) (rmx_ssthresh rt) (rmx_rtt rt) (rmx_rttvar rt))
      else c
  | None => c
  end.

(** [tcp_close].  The registry of algorithms, the SYN cache, the protocol
    control block and the pool of control blocks are outside the connection. *)
Definition tcp_close (c : conn) : conn :=
  let c := save_metrics c in
  let c := c <| c_r := tcp_freeq (c_r c) |> in
  let '(g, tp) := tcp_free_sackholes (c_sack c) (tp_of c) in
  let c := upd_tp (c <| c_sack := g |>) (fun _ => tp) in
  let c := call (call c ICCongctlRelease) ICSynCacheCleanup in
  let c := upd_tp c (fun tp => or_flags tp TF_DEAD) in
  let c := if t_inpcb tp then call (soisdisconnected c) ICPcbDetach else c in
  let c := upd_tp c (fun tp => tp <| t_timer := callout_halt <$> t_timer tp |>
                                  <| t_delack_ch := callout_halt (t_delack_ch tp) |>) in
  call (c <| c_alive := false |>) ICClose.

(** [tcp_drop(tp, errno)] in a state without a SYN received. *)
Definition drop_unsynchronized (c : conn) (errno : Z) : conn :=
  if t_inpcb (tp_of c) then tcp_close (c <| so_error := errno |>) else c <| c_alive := false |>.

(** ** A connection becomes established *)

Definition tcp_optlen (tp : tcpcb) : Z :=
  if Z.land (t_flags tp) (Z.lor (Z.lor TF_REQ_TSTMP TF_RCVD_TSTMP) TF_NOOPT) =? Z.lor TF_REQ_TSTMP TF_RCVD_TSTMP
  then TCPOLEN_TSTAMP_APPA else 0.

Definition roundup (x y : Z) : Z := (x + (y - 1)) / y * y.

Definition rmx (f : rt_metrics -> Z) : Z := match e_rt env with Some rt => f rt | None => 0 end.

Definition tcp_mss_from_peer (c : conn) (offer : Z) : conn :=
  let mss := umax (if offer =? 0 then tcp_mssdflt env else offer) 256 in
  let c := upd_tp c (fun tp => tp <| t_peermss := u16 mss |>) in
  let mss := mss - tcp_optlen (tp_of c) - e_ip_optlen env in
  let bufsize := if rmx rmx_sendpipe =? 0 then e_snd_hiwat env else rmx rmx_sendpipe in
  let '(mss, c) :=
    if bufsize <? mss then (bufsize, c)
    else (mss, call c (ICReserveSnd (Z.min (roundup bufsize mss) (e_sb_max env)))) in
  let c := upd_tp c (fun tp => tp <| t_segsz := u16 mss |>) in
  if rmx rmx_ssthresh =? 0 then c
  else upd_tp c (fun tp => tp <| snd_ssthresh := umax (2 * mss) (rmx rmx_ssthresh) |>).

Definition or_default (v d : Z) : Z := if v =? 0 then d else v.

Definition established_msl : Z :=
  if tcp_msl_enable env && e_laddr_loop env then or_default (tcp_msl_loop env) (Z.shiftr TCPTV_MSL 2)
  else if tcp_msl_enable env && (tcp_rttlocal env || e_faddr_local env)
  then or_default (tcp_msl_local env) (Z.shiftr TCPTV_MSL 1)
  else or_default (tcp_msl_remote env) TCPTV_MSL.

Definition tcp_established (c : conn) : conn :=
  let c := upd_tp c (fun tp => if t_inpcb tp then tp <| t_msl := established_msl |> else tp) in
  let c := upd_tp c (fun tp => tp <| t_state := TCPS_ESTABLISHED |>) in
  let c := upd_tp c (fun tp => arm tp TCPT_KEEP (t_keepidle tp)) in
  let bufsize := if rmx rmx_recvpipe =? 0 then e_rcv_hiwat env else rmx rmx_recvpipe in
  if t_ourmss (tp_of c) <? bufsize
  then call c (ICReserveRcv (Z.min (roundup bufsize (t_ourmss (tp_of c))) (e_sb_max env)))
  else c.

Definition tcp_rmx_rtt (tp : tcpcb) : tcpcb :=
  match e_rt env with
  | None => tp
  | Some rt =>
      if (t_srtt tp =? 0) && negb (rmx_rtt rt =? 0) then
        let rtt := s32 (rmx_rtt rt) in
        let tp := if flag_set (rmx_locks rt) RTV_RTT
                  then tp <| t_rttmin := TCPT_RANGESET (Z.quot rtt (RTM_RTTUNIT / PR_SLOWHZ)) TCPTV_MIN TCPTV_REXMTMAX |>
                  else tp in
        let tp := tp <| t_srtt := Z.quot rtt (Z.shiftr (RTM_RTTUNIT / PR_SLOWHZ) (TCP_RTT_SHIFT + 2)) |> in
        let tp := tp <| t_rttvar :=
          if rmx_rttvar rt =? 0 then Z.shiftr (t_srtt tp) (TCP_RTT_SHIFT - TCP_RTTVAR_SHIFT)
          else s32 (rmx_rttvar rt / Z.shiftr (RTM_RTTUNIT / PR_SLOWHZ) (TCP_RTTVAR_SHIFT + 2)) |> in
        tp <| t_rxtcur := TCPT_RANGESET (u32 (Z.shiftr (s32 (Z.shiftr (t_srtt tp) 2 + t_rttvar tp)) (1 + 2)))
                            (t_rttmin tp) TCPTV_REXMTMAX |>
      else tp
  end.

Definition TCP_INITIAL_WINDOW (iw segsz : Z) : Z :=
  if iw =? 0 then umin (4 * segsz) (umax (2 * segsz) 4380) else s32 (segsz * iw).

(** The window shifts of both ends take effect when both asked for them. *)
Definition do_scaling (tp : tcpcb) : tcpcb :=
  if Z.land (t_flags tp) (Z.lor TF_RCVD_SCALE TF_REQ_SCALE) =? Z.lor TF_RCVD_SCALE TF_REQ_SCALE
  then tp <| snd_scale := requested_s_scale tp |> <| rcv_scale := request_r_scale tp |>
  else tp.

(** [tcp_reass(tp, NULL, NULL, &tlen)] *)
Definition reass_present (c : conn) : conn := c <| c_r := (tcp_reass (c_r c) None [] 0).2 |>.

(** ** Options, ECN and the round-trip time *)

Definition input_received (c : conn) (s : seg) : sres :=
  let c := upd_tp c (fun tp => tp <| t_rcvtime := e_now env |>) in
  Next (if TCPS_HAVEESTABLISHED (t_state (tp_of c))
        then upd_tp c (fun tp => arm tp TCPT_KEEP (t_keepidle tp)) else c) s.

(** [None] where parsing the options would fail. *)
Definition input_options (optp : option (list Z)) (c : conn) (s : seg) : option sres :=
  match optp with
  | None => Some (Next c s)
  | Some cp =>
      match tcp_dooptions (e_now env) (tcp_do_sack env) (s_th s) (c_sack c) (tp_of c) cp (Z.of_nat (length cp)) (opti s) with
      | None => None
      | Some (g, tp, oi) => Some (Next (upd_tp (c <| c_sack := g |>) (fun _ => tp)) (s <| opti := oi |>))
      end
  end.

Definition input_ecn (c : conn) (s : seg) : sres :=
  let c := if TCP_SACK_ENABLED (tp_of c) then
             let '(g, tp) := tcp_del_sackholes (c_sack c) (tp_of c) (s_th s) in
             upd_tp (c <| c_sack := g |>) (fun _ => tp)
           else c in
  if TCP_ECN_ALLOWED (tp_of c) then
    let c := if flag_set (tiflags s) TH_CWR
             then upd_tp c (fun tp => tp <| t_flags := flag_clear (t_flags tp) TF_ECN_SND_ECE |>) else c in
    let c := if Z.land (iptos s) IPTOS_ECN_MASK =? IPTOS_ECN_CE
             then upd_tp c (fun tp => or_flags tp TF_ECN_SND_ECE) else c in
    Next (if flag_set (tiflags s) TH_ECE && SEQ_GEQ (snd_una (tp_of c)) (snd_recover (tp_of c))
          then upd_tp c (fun tp => cong_exp (congctl tp) tp) else c) s
  else Next c s.

Definition input_rtt (c : conn) (s : seg) : sres :=
  let rtt :=
    if ts_present (opti s) && negb (ts_ecr (opti s) =? 0) then
      let r := u32 (u32 (e_now env - ts_timebase (tp_of c)) - ts_ecr (opti s) + 1) in
      if TCP_PAWS_IDLE <? r then 0 else r
    else 0 in
  Next c (s <| ts_rtt := rtt |>).

(** ** Header prediction *)

Definition predict_flags : Z :=
  Z.lor TH_SYN (Z.lor TH_FIN (Z.lor TH_RST (Z.lor TH_URG (Z.lor TH_ECE (Z.lor TH_CWR TH_ACK))))).

Definition predicted (c : conn) (s : seg) : bool :=
  let tp := tp_of c in
  (t_state tp =? TCPS_ESTABLISHED) && (Z.land (tiflags s) predict_flags =? TH_ACK)
  && (negb (ts_present (opti s)) || TSTMP_GEQ (ts_val (opti s)) (ts_recent tp))
  && (th_seq (s_th s) =? rcv_nxt tp) && negb (tiwin s =? 0) && (tiwin s =? snd_wnd tp)
  && (snd_nxt tp =? snd_max tp).

(** [tcp_xmit_timer] from the time stamp or the timed segment. *)
Definition xmit_rtt (s : seg) (tp : tcpcb) : tcpcb :=
  if negb (ts_rtt s =? 0) then tcp_xmit_timer (e_msl_rtt env) tp (ts_rtt s - 1)
  else if negb (t_rtttime tp =? 0) && SEQ_GT (th_ack (s_th s)) (t_rtseq tp)
  then tcp_xmit_timer (e_msl_rtt env) tp (u32 (e_now env - t_rtttime tp))
  else tp.

(** [sbdrop(&so->so_snd, acked)] with the cached position in the buffer, for
    bytes that are in the buffer; both callers see to the other case. *)
Definition snd_drop (c : conn) (acked : Z) : conn :=
  let c := upd_tp c (fun tp => if t_lastoff tp - t_inoff tp <? acked then tp <| t_lastm := None |> else tp) in
  let c := c <| so_snd := drop (Z.to_nat acked) (so_snd c) |> in
  upd_tp c (fun tp => tp <| t_lastoff := s32 (t_lastoff tp - acked) |>).

(** A pure acknowledgement of outstanding data; [None] is the panic of [sbdrop]
    when more is acknowledged than the buffer has. *)
Definition predict_ack (c : conn) (s : seg) : option sres :=
  let th := s_th s in
  let c := upd_tp c (xmit_rtt s) in
  let acked := s32 (th_ack th - snd_una (tp_of c)) in
  if Z.of_nat (length (so_snd c)) <? acked then None else
  let c := snd_drop c acked in
  let c := upd_tp c (fun tp => icmp_check tp th acked) in
  let c := upd_tp c (fun tp => tp <| snd_una := th_ack th |>) in
  let c := upd_tp c (fun tp => tp <| snd_fack := snd_una tp |>) in
  let c := upd_tp c (fun tp => if SEQ_LT (snd_high tp) (snd_una tp) then tp <| snd_high := snd_una tp |> else tp) in
  let c := upd_tp c (fun tp =>
    if snd_una tp =? snd_max tp then TCP_TIMER_DISARM tp TCPT_REXMT
    else if negb (TCP_TIMER_ISARMED tp TCPT_PERSIST) then arm tp TCPT_REXMT (t_rxtcur tp) else tp) in
  let c := call c ICSowwakeup in
  Some (Stop Return (match so_snd c with [] => c | _ => do_output c end) s).

(** The size the receive buffer grows to, 0 for none, and the new counters. *)
Definition autorcvbuf (s : seg) (tp : tcpcb) : Z * tcpcb :=
  let ecr := ts_ecr (opti s) in
  if tcp_do_autorcvbuf env && negb (ecr =? 0) && e_rcv_autosize env then
    if (rfbuf_ts tp <? ecr) && (u32 (ecr - rfbuf_ts tp) <? PR_SLOWHZ) then
      let newsize := if (e_rcv_hiwat env / 8 * 7 <? rfbuf_cnt tp) && (e_rcv_hiwat env <? tcp_autorcvbuf_max env)
                     then umin (e_rcv_hiwat env + tcp_autorcvbuf_inc env) (tcp_autorcvbuf_max env) else 0 in
      (newsize, tp <| rfbuf_ts := 0 |> <| rfbuf_cnt := 0 |>)
    else (0, tp <| rfbuf_cnt := u32 (rfbuf_cnt tp + tlen s) |>)
  else (0, tp).

(** Data in sequence, with nothing in the reassembly queue. *)
Definition predict_data (c : conn) (s : seg) : sres :=
  let c := upd_tp c (fun tp => tp <| rcv_nxt := u32 (rcv_nxt tp + tlen s) |>) in
  let '(newsize, tp) := autorcvbuf s (tp_of c) in
  let c := upd_tp c (fun _ => tp) in
  let c := if negb (flag_set (so_state (c_r c)) SS_CANTRCVMORE) && negb (newsize =? 0)
           then call c (ICReserveRcv newsize) else c in
  let c := deliver c (adj_bytes (hdroptlen s) (s_m s)) in
  let c := upd_tp c (fun tp => tcp_setup_ack tp (s_th s)) in
  Stop Return (if flag_set (t_flags (tp_of c)) TF_ACKNOW then do_output c else c) s.

Definition input_predict (c : conn) (s : seg) : option sres :=
  if predicted c s then
    let tp := tp_of c in
    let c := if ts_present (opti s) && SEQ_LEQ (th_seq (s_th s)) (last_ack_sent tp)
             then upd_tp c (fun tp => tp <| ts_recent_age := e_now env |> <| ts_recent := ts_val (opti s) |>) else c in
    if tlen s =? 0 then
      if SEQ_GT (th_ack (s_th s)) (snd_una tp) && SEQ_LEQ (th_ack (s_th s)) (snd_max tp)
         && (snd_wnd tp <=? snd_cwnd tp) && (t_partialacks tp <? 0)
      then predict_ack c s else Some (Next c s)
    else if (th_ack (s_th s) =? snd_una tp) && bool_decide (segq (c_r c) = []) && (tlen s <=? e_rcv_space env)
    then Some (predict_data c s) else Some (Next c s)
  else Some (Next c s).

(** The receive window. *)
Definition input_window (c : conn) (s : seg) : sres :=
  let win := Z.max 0 (s32 (e_rcv_space env)) in
  Next (upd_tp c (fun tp => tp <| rcv_wnd := Z.max win (s32 (rcv_adv tp - rcv_nxt tp)) |>
                               <| rfbuf_ts := 0 |> <| rfbuf_cnt := 0 |>)) s.

(** ** The handshake *)

Definition bad_ack (tp : tcpcb) (s : seg) : bool :=
  flag_set (tiflags s) TH_ACK
  && (SEQ_LEQ (th_ack (s_th s)) (iss tp) || SEQ_GT (th_ack (s_th s)) (snd_max tp)).

(** The acknowledgement of our SYN. *)
Definition syn_acked (s : seg) (tp : tcpcb) : tcpcb :=
  let tp := tp <| snd_una := th_ack (s_th s) |> in
  let tp := if SEQ_LT (snd_nxt tp) (snd_una tp) then tp <| snd_nxt := snd_una tp |> else tp in
  let tp := if SEQ_LT (snd_high tp) (snd_una tp) then tp <| snd_high := snd_una tp |> else tp in
  let tp := TCP_TIMER_DISARM tp TCPT_REXMT in
  if flag_set (tiflags s) TH_ECE && tcp_do_ecn env then or_flags tp TF_ECN_PERMIT else tp.

(** The peer's sequence numbers and the first congestion window. *)
Definition syn_received (s : seg) (c : conn) : conn :=
  let seq := th_seq (s_th s) in
  let c := upd_tp c (fun tp => tp <| irs := seq |> <| rcv_nxt := u32 (seq + 1) |> <| rcv_adv := u32 (seq + 1) |>) in
  let c := upd_tp c (fun tp => or_flags tp TF_ACKNOW) in
  let c := tcp_mss_from_peer c (maxseg (opti s)) in
  let c := upd_tp c (fun tp =>
    if flag_set (t_flags tp) TF_SYN_REXMT then tp <| snd_cwnd := t_peermss tp |>
    else tp <| snd_cwnd := u64 (TCP_INITIAL_WINDOW (if e_faddr_local env then tcp_init_win_local env else tcp_init_win env)
                                 (t_peermss tp)) |>) in
  upd_tp c tcp_rmx_rtt.

(** Data beyond the window is cut off a SYN. *)
Definition syn_trim (tp : tcpcb) (s : seg) : seg :=
  let s := set_seq s (u32 (th_seq (s_th s) + 1)) in
  if rcv_wnd tp <? tlen s then
    s <| s_m := adj_bytes (- (tlen s - rcv_wnd tp)) (s_m s) |> <| tlen := rcv_wnd tp |>
      <| tiflags := flag_clear (tiflags s) TH_FIN |>
  else s.

(** The state SYN_SENT; it goes on at [step6]. *)
Definition input_syn_sent (c : conn) (s : seg) : sres :=
  if bad_ack (tp_of c) s then Stop DropWithReset c s
  else if flag_set (tiflags s) TH_RST then
    Stop Drop (if flag_set (tiflags s) TH_ACK then drop_unsynchronized c ECONNREFUSED else c) s
  else if negb (flag_set (tiflags s) TH_SYN) then Stop Drop c s
  else
    let c := if flag_set (tiflags s) TH_ACK then upd_tp c (syn_acked s) else c in
    let c := syn_received s c in
    let c :=
      if flag_set (tiflags s) TH_ACK then
        let c := soisconnected (tcp_established c) in
        let c := upd_tp c do_scaling in
        let c := reass_present c in
        upd_tp c (fun tp => if t_rtttime tp =? 0 then tp
                            else tcp_xmit_timer (e_msl_rtt env) tp (u32 (e_now env - t_rtttime tp)))
      else upd_tp c (fun tp => tp <| t_state := TCPS_SYN_RECEIVED |>) in
    let s := syn_trim (tp_of c) s in
    Next (upd_tp c (fun tp => tp <| snd_wl1 := u32 (th_seq (s_th s) - 1) |> <| rcv_up := th_seq (s_th s) |>)) s.

(** ** Is the segment acceptable? *)

(** Protection against wrapped sequence numbers (RFC 1323). *)
Definition input_paws (c : conn) (s : seg) : sres :=
  let tp := tp_of c in
  if ts_present (opti s) && negb (flag_set (tiflags s) TH_RST) && negb (ts_recent tp =? 0)
     && TSTMP_LT (ts_val (opti s)) (ts_recent tp) then
    if TCP_PAWS_IDLE <? u32 (e_now env - ts_recent_age tp) then Next (upd_tp c (fun tp => tp <| ts_recent := 0 |>)) s
    else Stop DropAfterAck (upd_tp c (fun tp => tcp_new_dsack tp (th_seq (s_th s)) (tlen s))) s
  else Next c s.

(** A SYN before the window is passed over. *)
Definition trim_syn (s : seg) (todrop : Z) : seg * Z :=
  if flag_set (tiflags s) TH_SYN then
    let s := s <| tiflags := flag_clear (tiflags s) TH_SYN |> in
    let s := set_seq s (u32 (th_seq (s_th s) + 1)) in
    let s := if 1 <? th_urp s then s <| th_urp := th_urp s - 1 |>
             else s <| tiflags := flag_clear (tiflags s) TH_URG |> <| th_urp := 0 |> in
    (s, todrop - 1)
  else (s, todrop).

(** Take [todrop] bytes off the front of the segment. *)
Definition drop_front (c : conn) (s : seg) (todrop : Z) : sres :=
  let c := upd_tp c (fun tp => tcp_new_dsack tp (th_seq (s_th s)) todrop) in
  let s := s <| hdroptlen := hdroptlen s + todrop |> in
  let s := set_seq s (u32 (th_seq (s_th s) + todrop)) in
  let s := s <| tlen := tlen s - todrop |> in
  Next c (if todrop <? th_urp s then s <| th_urp := th_urp s - todrop |>
          else s <| tiflags := flag_clear (tiflags s) TH_URG |> <| th_urp := 0 |>).

(** Data before the window. *)
Definition input_trim_front (c : conn) (s : seg) : sres :=
  let todrop := s32 (rcv_nxt (tp_of c) - th_seq (s_th s)) in
  let s := s <| dupseg := false |> in
  if 0 <? todrop then
    let '(s, todrop) := trim_syn s todrop in
    if (tlen s <? todrop) || ((todrop =? tlen s) && negb (flag_set (tiflags s) TH_FIN)) then
      if flag_set (tiflags s) TH_RST then Stop Drop c s
      else
        let s := s <| tiflags := flag_clear (tiflags s) (Z.lor TH_FIN TH_RST) |> in
        let c := upd_tp c (fun tp => or_flags tp TF_ACKNOW) in
        drop_front c (s <| dupseg := true |>) (tlen s)
    else if flag_set (tiflags s) TH_RST && negb (th_seq (s_th s) =? rcv_nxt (tp_of c))
    then Stop DropAfterAckRatelim c s
    else drop_front c s todrop
  else Next c s.

(** New data after the user processes are gone. *)
Definition input_after_close (c : conn) (s : seg) : sres :=
  if flag_set (so_state (c_r c)) SS_NOFDREF && (TCPS_CLOSE_WAIT <? t_state (tp_of c)) && negb (tlen s =? 0)
  then Stop DropWithReset (tcp_close c) s
  else Next c s.

(** Data after the window. *)
Definition input_trim_back (c : conn) (s : seg) : sres :=
  let tp := tp_of c in
  let seq := th_seq (s_th s) in
  let todrop := s32 (u32 (seq + tlen s) - (rcv_nxt tp + rcv_wnd tp)) in
  let cut c := Next c (s <| s_m := adj_bytes (- todrop) (s_m s) |> <| tlen := tlen s - todrop |>
                         <| tiflags := flag_clear (tiflags s) (Z.lor TH_PUSH TH_FIN) |>) in
  if 0 <? todrop then
    if tlen s <=? todrop then
      if flag_set (tiflags s) TH_SYN && (t_state tp =? TCPS_TIME_WAIT) && SEQ_GT seq (rcv_nxt tp)
      then Stop FindPcb (tcp_close c) s
      else if (rcv_wnd tp =? 0) && (seq =? rcv_nxt tp) then cut (upd_tp c (fun tp => or_flags tp TF_ACKNOW))
      else Stop DropAfterAck c s
    else cut c
  else Next c s.

(** The time stamp to echo. *)
Definition input_timestamp (c : conn) (s : seg) : sres :=
  let tp := tp_of c in
  let fin := if Z.land (tiflags s) (Z.lor TH_SYN TH_FIN) =? 0 then 0 else 1 in
  Next (if ts_present (opti s) && SEQ_LEQ (th_seq (s_th s)) (last_ack_sent tp)
           && SEQ_LEQ (last_ack_sent tp) (th_seq (s_th s) + tlen s + fin)
        then upd_tp c (fun tp => tp <| ts_recent_age := e_now env |> <| ts_recent := ts_val (opti s) |>) else c) s.

Definition input_rst (c : conn) (s : seg) : sres :=
  let tp := tp_of c in
  let st := t_state tp in
  let close errno :=
    Stop Drop (tcp_close (upd_tp (c <| so_error := errno |>) (fun tp => tp <| t_state := TCPS_CLOSED |>))) s in
  if flag_set (tiflags s) TH_RST then
    if negb (th_seq (s_th s) =? rcv_nxt tp) then Stop DropAfterAckRatelim c s
    else if st =? TCPS_SYN_RECEIVED then close ECONNREFUSED
    else if (st =? TCPS_ESTABLISHED) || (st =? TCPS_FIN_WAIT_1) || (st =? TCPS_FIN_WAIT_2) || (st =? TCPS_CLOSE_WAIT)
    then close ECONNRESET
    else if (st =? TCPS_CLOSING) || (st =? TCPS_LAST_ACK) || (st =? TCPS_TIME_WAIT)
    then Stop Drop (tcp_close c) s
    else Next c s
  else Next c s.

(** A SYN in the window, and a segment without an acknowledgement. *)
Definition input_syn_ack (c : conn) (s : seg) : sres :=
  if flag_set (tiflags s) TH_SYN then
    if rcv_nxt (tp_of c) =? th_seq (s_th s)
    then Stop Return (call c (ICRespond 0 (u32 (th_ack (s_th s) - 1)) TH_ACK)) s
    else Stop DropAfterAckRatelim c s
  else if negb (flag_set (tiflags s) TH_ACK) then
    Stop (if flag_set (t_flags (tp_of c)) TF_ACKNOW then DropAfterAck else Drop) c s
  else Next c s.

(** ** Acknowledgements *)

(** The acknowledgement of our SYN makes the connection established. *)
Definition ack_syn_received (c : conn) (s : seg) : sres :=
  let tp := tp_of c in
  if t_state tp =? TCPS_SYN_RECEIVED then
    if SEQ_GT (snd_una tp) (th_ack (s_th s)) || SEQ_GT (th_ack (s_th s)) (snd_max tp) then Stop DropWithReset c s
    else
      let c := tcp_established (soisconnected c) in
      let c := upd_tp c do_scaling in
      let c := reass_present c in
      Next (upd_tp c (fun tp => tp <| snd_wl1 := u32 (th_seq (s_th s) - 1) |>)) s
  else Next c s.

(** A duplicate acknowledgement: fast retransmit at the third one. *)
Definition ack_duplicate (c : conn) (s : seg) : sres :=
  let tp := tp_of c in
  let th := s_th s in
  if negb (TCP_TIMER_ISARMED tp TCPT_REXMT) || negb (th_ack th =? snd_una tp)
  then Next (upd_tp c (fun tp => tp <| t_dupacks := 0 |>)) s
  else
    let c := if t_partialacks tp <? 0 then upd_tp c (fun tp => tp <| t_dupacks := s16 (t_dupacks tp + 1) |>) else c in
    let tp := tp_of c in
    if (t_partialacks tp <? 0) && ((t_dupacks tp =? tcprexmtthresh) || TCP_FACK_FASTRECOV tp) then
      let '(r, tp) := fast_retransmit (congctl tp) tp th in
      let c := upd_tp c (fun _ => tp) in
      if r =? 0 then Stop Drop c s else Next c s
    else if tcprexmtthresh <? t_dupacks tp then
      Stop Drop (do_output (upd_tp c (fun tp => tp <| snd_cwnd := u64 (snd_cwnd tp + t_segsz tp) |>))) s
    else Next c s.

(** An acknowledgement at or below [snd_una]. *)
Definition ack_old (c : conn) (s : seg) : sres :=
  let tp := tp_of c in
  if (tlen s =? 0) && negb (dupseg s) && (tiwin s =? snd_wnd tp) then ack_duplicate c s
  else if negb (tlen s =? 0) && negb (th_seq (s_th s) =? rcv_nxt tp)
          && SEQ_LT (th_ack (s_th s)) (snd_una tp - max_sndwnd tp)
  then Stop DropAfterAck c s
  else Next c s.

(** The acknowledged bytes leave the send buffer; [true] when our FIN is
    acknowledged too. *)
Definition ack_drop (c : conn) (acked : Z) : bool * conn :=
  let cc := Z.of_nat (length (so_snd c)) in
  if cc <? acked then
    (true, (upd_tp c (fun tp => tp <| snd_wnd := u64 (snd_wnd tp - cc) |>)) <| so_snd := [] |>)
  else (false, upd_tp (snd_drop c acked) (fun tp => tp <| snd_wnd := u64 (snd_wnd tp - acked) |>)).

(** [snd_una] moves, and what must not be below it. *)
Definition ack_advance (ack : tcp_seq) (tp : tcpcb) : tcpcb :=
  let tp := tp <| snd_una := ack |> in
  let tp := if SEQ_GT (snd_una tp) (snd_fack tp) then tp <| snd_fack := snd_una tp |> else tp in
  let tp := if SEQ_LT (snd_nxt tp) (snd_una tp) then tp <| snd_nxt := snd_una tp |> else tp in
  if SEQ_LT (snd_high tp) (snd_una tp) then tp <| snd_high := snd_una tp |> else tp.

Definition time_wait (c : conn) : conn :=
  let c := upd_tp c (fun tp => tp <| t_state := TCPS_TIME_WAIT |>) in
  let c := upd_tp c tcp_canceltimers in
  soisdisconnected (upd_tp c (fun tp => arm tp TCPT_2MSL (2 * t_msl tp))).

(** The state after the acknowledgement of our FIN. *)
Definition ack_state (ourfinisacked : bool) (c : conn) (s : seg) : sres :=
  let st := t_state (tp_of c) in
  if st =? TCPS_FIN_WAIT_1 then
    if ourfinisacked then
      let c := if flag_set (so_state (c_r c)) SS_CANTRCVMORE then
                 upd_tp (soisdisconnected c) (fun tp => if 0 <? t_maxidle tp then arm tp TCPT_2MSL (t_maxidle tp) else tp)
               else c in
      Next (upd_tp c (fun tp => tp <| t_state := TCPS_FIN_WAIT_2 |>)) s
    else Next c s
  else if st =? TCPS_CLOSING then Next (if ourfinisacked then time_wait c else c) s
  else if st =? TCPS_LAST_ACK then
    if ourfinisacked then Stop Drop (tcp_close c) s else Next c s
  else if st =? TCPS_TIME_WAIT then
    Stop DropAfterAck (upd_tp c (fun tp => arm tp TCPT_2MSL (2 * t_msl tp))) s
  else Next c s.

(** An acknowledgement above [snd_una]. *)
Definition ack_new (c : conn) (s : seg) : sres :=
  let th := s_th s in
  let c := upd_tp c (fun tp => if TCP_SACK_ENABLED tp then tcp_sack_newack (tcp_output env) tp th
                               else fast_retransmit_newack (congctl tp) tp th) in
  if SEQ_GT (th_ack th) (snd_max (tp_of c)) then Stop DropAfterAck c s
  else
    let acked := s32 (th_ack th - snd_una (tp_of c)) in
    let c := upd_tp c (xmit_rtt s) in
    let '(c, s) :=
      if th_ack th =? snd_max (tp_of c)
      then (upd_tp c (fun tp => TCP_TIMER_DISARM tp TCPT_REXMT), s <| needoutput := true |>)
      else if negb (TCP_TIMER_ISARMED (tp_of c) TCPT_PERSIST)
      then (upd_tp c (fun tp => arm tp TCPT_REXMT (t_rxtcur tp)), s)
      else (c, s) in
    let c := upd_tp c (fun tp => newack (congctl tp) tp th) in
    let '(ourfinisacked, c) := ack_drop c acked in
    let c := call c ICSowwakeup in
    let c := upd_tp c (fun tp => icmp_check tp th acked) in
    let c := upd_tp c (ack_advance (th_ack th)) in
    ack_state ourfinisacked c s.

Definition input_ack (c : conn) (s : seg) : sres :=
  sbind (ack_syn_received c s) (fun c s =>
    if TCPS_HAVEESTABLISHED (t_state (tp_of c)) then
      if SEQ_LEQ (th_ack (s_th s)) (snd_una (tp_of c)) then ack_old c s else ack_new c s
    else Next c s).

(** ** Window, urgent data, text and FIN *)

(** [step6]: the window the peer advertises. *)
Definition window_update (tp : tcpcb) (s : seg) : bool :=
  let th := s_th s in
  flag_set (tiflags s) TH_ACK
  && (SEQ_LT (snd_wl1 tp) (th_seq th)
      || ((snd_wl1 tp =? th_seq th)
          && (SEQ_LT (snd_wl2 tp) (th_ack th) || ((snd_wl2 tp =? th_ack th) && (snd_wnd tp <? tiwin s))))).

Definition step6 (c : conn) (s : seg) : sres :=
  if window_update (tp_of c) s then
    let c := upd_tp c (fun tp => tp <| snd_wnd := tiwin s |> <| snd_wl1 := th_seq (s_th s) |> <| snd_wl2 := th_ack (s_th s) |>) in
    let c := upd_tp c (fun tp => if max_sndwnd tp <? snd_wnd tp then tp <| max_sndwnd := snd_wnd tp |> else tp) in
    Next c (s <| needoutput := true |>)
  else Next c s.

(** The urgent byte is taken out of the packet; [None] is the panic. *)
Definition tcp_pulloutofband (c : conn) (s : seg) : option (conn * seg) :=
  let cnt := hdroptlen s + th_urp s - 1 in
  if cnt <? 0 then None
  else
    match s_m s !! Z.to_nat cnt with
    | None => None
    | Some b =>
        Some (upd_tp c (fun tp => tp <| t_iobc := b |> <| t_oobflags := Z.lor (t_oobflags tp) TCPOOB_HAVEDATA |>),
              s <| s_m := delete (Z.to_nat cnt) (s_m s) |>)
    end.

Definition urg_mark (c : conn) (s : seg) : conn :=
  let up := u32 (th_seq (s_th s) + th_urp s) in
  if SEQ_GT up (rcv_up (tp_of c)) then
    let c := upd_tp c (fun tp => tp <| rcv_up := up |>) in
    let mark := u64 (e_rcv_cc env + u32 (up - rcv_nxt (tp_of c)) - 1) in
    let c := c <| so_oobmark := mark |> in
    let c := if mark =? 0 then upd_so_state c (fun st => flags_set st SS_RCVATMARK) else c in
    let c := call c ICSohasoutofband in
    upd_tp c (fun tp => tp <| t_oobflags := flag_clear (t_oobflags tp) (Z.lor TCPOOB_HAVEDATA TCPOOB_HADDATA) |>)
  else c.

Definition input_urg (c : conn) (s : seg) : option sres :=
  let tp := tp_of c in
  if flag_set (tiflags s) TH_URG && negb (th_urp s =? 0) && negb (TCPS_HAVERCVDFIN (t_state tp)) then
    if e_sb_max env <? th_urp s + e_rcv_cc env
    then Some (Next c (s <| th_urp := 0 |> <| tiflags := flag_clear (tiflags s) TH_URG |>))
    else
      let c := urg_mark c s in
      if (th_urp s <=? u16 (tlen s)) && negb (flag_set (so_options c) SO_OOBINLINE)
      then match tcp_pulloutofband c s with Some (c, s) => Some (Next c s) | None => None end
      else Some (Next c s)
  else
    Some (Next (if SEQ_GT (rcv_nxt tp) (rcv_up tp) then upd_tp c (fun tp => tp <| rcv_up := rcv_nxt tp |>) else c) s).

(** [dodata]: the text goes to the socket or to the reassembly queue. *)
Definition input_data (c : conn) (s : seg) : sres :=
  let tp := tp_of c in
  let th := s_th s in
  if (negb (tlen s =? 0) || flag_set (tiflags s) TH_FIN) && negb (TCPS_HAVERCVDFIN (t_state tp)) then
    let data := adj_bytes (hdroptlen s) (s_m s) in
    if (th_seq th =? rcv_nxt tp) && bool_decide (segq (c_r c) = []) && (t_state tp =? TCPS_ESTABLISHED) then
      let c := upd_tp c (fun tp => tcp_setup_ack tp th) in
      let c := upd_tp c (fun tp => tp <| rcv_nxt := u32 (rcv_nxt tp + tlen s) |>) in
      Next (deliver c data) (s <| tiflags := Z.land (th_flags th) TH_FIN |>)
    else
      let '(fl, r) := tcp_reass (c_r c) (Some th) data (tlen s) in
      let c := upd_tp (c <| c_r := r |>) (fun tp => or_flags tp TF_ACKNOW) in
      Next c (s <| tiflags := fl |>)
  else Next c (s <| tiflags := flag_clear (tiflags s) TH_FIN |>).

Definition input_fin (c : conn) (s : seg) : sres :=
  if flag_set (tiflags s) TH_FIN && TCPS_HAVEESTABLISHED (t_state (tp_of c)) then
    let c := if negb (TCPS_HAVERCVDFIN (t_state (tp_of c))) then
               let c := socantrcvmore c in
               upd_tp (upd_tp c (fun tp => or_flags tp TF_ACKNOW)) (fun tp => tp <| rcv_nxt := u32 (rcv_nxt tp + 1) |>)
             else c in
    let st := t_state (tp_of c) in
    Next (if st =? TCPS_ESTABLISHED then upd_tp c (fun tp => tp <| t_state := TCPS_CLOSE_WAIT |>)
          else if st =? TCPS_FIN_WAIT_1 then upd_tp c (fun tp => tp <| t_state := TCPS_CLOSING |>)
          else if st =? TCPS_FIN_WAIT_2 then time_wait c
          else if st =? TCPS_TIME_WAIT then upd_tp c (fun tp => arm tp TCPT_2MSL (2 * t_msl tp))
          else c) s
  else Next c s.

(** The desired output; the vestigial TIME_WAIT table is not enabled. *)
Definition input_finish (c : conn) (s : seg) : sres :=
  Stop Return (if needoutput s || flag_set (t_flags (tp_of c)) TF_ACKNOW then do_output c else c) s.

(** ** The labels at the end *)

Definition dropafterack2 (c : conn) : conn := do_output (upd_tp c (fun tp => or_flags tp TF_ACKNOW)).

Definition dropwithreset (c : conn) (s : seg) : conn :=
  if flag_set (tiflags s) TH_RST then c
  else if e_dst_multi env then c
  else if flag_set (tiflags s) TH_ACK then call c (ICRespond 0 (th_ack (s_th s)) TH_RST)
  else
    let len := if flag_set (tiflags s) TH_SYN then tlen s + 1 else tlen s in
    call c (ICRespond (u32 (th_seq (s_th s) + len)) 0 (Z.lor TH_RST TH_ACK)).

Definition finish (v : verdict) (c : conn) (s : seg) : conn :=
  match v with
  | Return | Drop | FindPcb => c
  | DropAfterAck => if flag_set (tiflags s) TH_RST then c else dropafterack2 c
  | DropAfterAckRatelim => if e_ackdrop_ok env then dropafterack2 c else c
  | DropWithReset => dropwithreset c s
  end.

(** ** The function *)

Definition obind (r : option sres) (k : conn -> seg -> option sres) : option sres :=
  match r with Some (Next c s) => k c s | Some (Stop v c s) => Some (Stop v c s) | None => None end.

(** From [step6] to the end. *)
Definition input_tail (c : conn) (s : seg) : option sres :=
  obind (Some (step6 c s)) (fun c s =>
  obind (input_urg c s) (fun c s =>
  Some (sbind (input_data c s) (fun c s => sbind (input_fin c s) input_finish)))).

(** The states other than LISTEN and SYN_SENT, up to the acknowledgement. *)
Definition input_checks (c : conn) (s : seg) : sres :=
  if (t_state (tp_of c) =? TCPS_SYN_RECEIVED) && bad_ack (tp_of c) s then Stop DropWithReset c s
  else
    sbind (input_paws c s) (fun c s =>
    sbind (input_trim_front c s) (fun c s =>
    sbind (input_after_close c s) (fun c s =>
    sbind (input_trim_back c s) (fun c s =>
    sbind (input_timestamp c s) (fun c s =>
    sbind (input_rst c s) (fun c s =>
    sbind (input_syn_ack c s) input_ack)))))).

Definition input_slow (c : conn) (s : seg) : option sres :=
  obind (Some (input_window c s)) (fun c s =>
  obind (Some (if t_state (tp_of c) =? TCPS_SYN_SENT then input_syn_sent c s else input_checks c s)) input_tail).

(** [tcp_input] from [after_listen] on; [optp] are the options that have not
    been parsed yet.  [None] is a panic or a failure in the options. *)
Definition tcp_input (optp : option (list Z)) (c : conn) (s : seg) : option sres :=
  obind (Some (input_received c s)) (fun c s =>
  obind (input_options optp c s) (fun c s =>
  obind (Some (input_ecn c s)) (fun c s =>
  obind (Some (input_rtt c s)) (fun c s =>
  obind (input_predict c s) input_slow)))).

(** The connection afterwards. *)
Definition tcp_input_conn (optp : option (list Z)) (c : conn) (s : seg) : option conn :=
  match tcp_input optp c s with
  | Some (Stop v c s) => Some (finish v c s)
  | Some (Next c _) => Some c
  | None => None
  end.
End input.
