(* ===== verification/TcpInputFacts.v ===== *)
(** * What [tcp_input] guarantees

    The receive side: whatever mixture of retransmissions, overlaps and
    reordering arrives, the socket is given the peer's stream, up to the first
    byte that is missing.  The control side: which segments can end a
    connection, and how acknowledgements move the send window. *)

From S2P Require Import Prelude Pool TcpSeq Callout Tcpcb TcpSack TcpSackFacts TcpCongctl TcpTimer MbufFacts.
From S2P Require Import SockState TcpOptions TcpReass TcpReassFacts TcpInput.

(** ** The receive side of a control block *)

Definition rview (tp : tcpcb) : Z * Z * Z := (t_state tp, rcv_nxt tp, t_segqlen tp).

(** What the send routine leaves alone. *)
Definition output_keeps_rcv (tcp_output : tcpcb -> tcpcb) : Prop := forall tp, rview (tcp_output tp) = rview tp.

Ltac frame_cases := repeat case_match; simplify_eq; upd_simpl; try done.

Lemma disarm_rview tp i : rview (TCP_TIMER_DISARM tp i) = rview tp.
Proof. unfold TCP_TIMER_DISARM, rview. frame_cases. Qed.

Lemma arm_rview hz1 hz2 tp i n : rview (TCP_TIMER_ARM hz1 hz2 tp i n) = rview tp.
Proof. unfold TCP_TIMER_ARM, rview. frame_cases. Qed.

Lemma cancel_rview tp : rview (tcp_canceltimers tp) = rview tp.
Proof. unfold tcp_canceltimers. cbn [foldl seq TCPT_NTIMERS]. by rewrite !disarm_rview. Qed.

Lemma xmit_timer_rview msl tp rtt : rview (tcp_xmit_timer msl tp rtt) = rview tp.
Proof. unfold tcp_xmit_timer, rview. frame_cases. Qed.

Lemma congestion_exp_rview tp : rview (tcp_reno_congestion_exp tp) = rview tp.
Proof. unfold tcp_reno_congestion_exp, rview. frame_cases. Qed.

Lemma reno_newack_rview cfg tp th : rview (tcp_reno_newack cfg tp th) = rview tp.
Proof. unfold tcp_reno_newack, rview. frame_cases. Qed.

Lemma dsack_rview tp x y : rview (tcp_new_dsack tp x y) = rview tp.
Proof. unfold tcp_new_dsack, rview. frame_cases. Qed.

Lemma icmp_check_rview tp th acked : rview (icmp_check tp th acked) = rview tp.
Proof. unfold icmp_check, rview. frame_cases. Qed.

Lemma ack_advance_rview ack tp : rview (ack_advance ack tp) = rview tp.
Proof. unfold ack_advance, rview. frame_cases. Qed.

Lemma sack_frame_rview tp tp' : sack_frame tp tp' -> rview tp' = rview tp.
Proof. intros (? & ? & ? & ? & ->). done. Qed.

(** Reads the receive side through updates of other fields. *)
Ltac rview_step :=
  match goal with
  | H : output_keeps_rcv ?out |- context [rview (?out ?t)] => rewrite (H t)
  | |- context [rview (TCP_TIMER_DISARM ?t ?i)] => rewrite (disarm_rview t i)
  | |- context [rview (TCP_TIMER_ARM ?a ?b ?t ?i ?n)] => rewrite (arm_rview a b t i n)
  | |- context [rview (tcp_canceltimers ?t)] => rewrite (cancel_rview t)
  | |- context [rview (tcp_xmit_timer ?a ?t ?b)] => rewrite (xmit_timer_rview a t b)
  | |- context [rview (tcp_reno_congestion_exp ?t)] => rewrite (congestion_exp_rview t)
  | |- context [rview (tcp_reno_newack ?a ?t ?b)] => rewrite (reno_newack_rview a t b)
  | |- context [rview (tcp_new_dsack ?t ?a ?b)] => rewrite (dsack_rview t a b)
  | |- context [rview (icmp_check ?t ?a ?b)] => rewrite (icmp_check_rview t a b)
  | |- context [rview (ack_advance ?a ?t)] => rewrite (ack_advance_rview a t)
  | |- context [rview (@set ?T ?A ?p ?U ?f ?r)] =>
      let H := fresh in
      assert (forall g x, rview (@set T A p U g x) = rview x) as H by (intros; reflexivity);
      rewrite (H f r); clear H
  | |- context [rview (if ?b then _ else _)] => destruct b
  end.

Ltac rview_solve :=
  repeat rview_step;
  lazymatch goal with |- ?x = ?x => reflexivity | |- _ => idtac end.

Section frames.
Context (out : tcpcb -> tcpcb) (Hout : output_keeps_rcv out).

Lemma reno_fast_retransmit_rview tp th : rview (tcp_reno_fast_retransmit out tp th).2 = rview tp.
Proof.
  unfold tcp_reno_fast_retransmit. destruct (TCP_SACK_ENABLED _); cbv beta iota delta [snd]; rview_solve.
Qed.

Lemma newack_fast_rview cfg a tp th : rview (fast_retransmit_newack (congctl_table out cfg a) tp th) = rview tp.
Proof.
  destruct a; simpl.
  - unfold tcp_reno_fast_retransmit_newack. rview_solve.
  - unfold tcp_newreno_fast_retransmit_newack. rview_solve.
Qed.

Lemma fast_retransmit_rview cfg a tp th : rview (fast_retransmit (congctl_table out cfg a) tp th).2 = rview tp.
Proof.
  destruct a; simpl; [apply reno_fast_retransmit_rview|].
  unfold tcp_newreno_fast_retransmit. case_match; [done|apply reno_fast_retransmit_rview].
Qed.

Lemma newack_rview cfg a tp th : rview (newack (congctl_table out cfg a) tp th) = rview tp.
Proof. destruct a; simpl; [apply reno_newack_rview|]. unfold tcp_newreno_newack. rview_solve. Qed.

Lemma cong_exp_rview cfg a tp : rview (cong_exp (congctl_table out cfg a) tp) = rview tp.
Proof. destruct a; apply congestion_exp_rview. Qed.

Lemma sack_newack_rview tp th : rview (tcp_sack_newack out tp th) = rview tp.
Proof. unfold tcp_sack_newack. rview_solve. Qed.

Lemma del_sackholes_frame lastack rest : forall g tp g' tp',
  del_sackholes_loop lastack g tp rest = (g', tp') -> sack_frame tp tp'.
Proof.
  induction rest as [|cur next IH]; intros g tp g' tp'; simpl; [intros; simplify_eq; apply sack_frame_refl|].
  repeat case_match; intros; simplify_eq; try apply sack_frame_refl; try apply sack_frame_holes.
  eapply sack_frame_trans; [eapply sack_removehole_frame; eassumption|by eapply IH].
Qed.

Lemma del_sackholes_rview g tp th g' tp' : tcp_del_sackholes g tp th = (g', tp') -> rview tp' = rview tp.
Proof. intros E. by apply sack_frame_rview, (del_sackholes_frame _ _ _ _ _ _ E). Qed.
End frames.

(** ** What the reassembly relation reads of a connection *)

Definition cv (r : rconn) : (Z * Z * Z) * (list ipqent * list addr * pool) * (Z * list Z) :=
  (rview (r_tp r), (segq r, timeq r, tcpipqent_pool r), (so_state r, so_rcv r)).

Lemma cv_inv r r' : cv r' = cv r ->
  t_state (r_tp r') = t_state (r_tp r) /\ rcv_nxt (r_tp r') = rcv_nxt (r_tp r) /\
  t_segqlen (r_tp r') = t_segqlen (r_tp r) /\ segq r' = segq r /\ timeq r' = timeq r /\
  tcpipqent_pool r' = tcpipqent_pool r /\ so_state r' = so_state r /\ so_rcv r' = so_rcv r.
Proof. unfold cv, rview. intros E. simplify_eq. done. Qed.

Lemma reass_sim_cv S irs W objs R r r' : cv r' = cv r -> reass_sim S irs W objs R r -> reass_sim S irs W objs R r'.
Proof.
  intros (Es & En & El & Eq & Et & Ep & Eo & Ed)%cv_inv [H G].
  split; [|by rewrite En, Eq]. assert (dlen r' = dlen r) as D by (unfold dlen; by rewrite Ed).
  destruct H as [H1 H2 H3 H4 [[Ht Hl Hp] H5 H6] H7]. split; rewrite ?D, ?Es, ?En, ?Eo, ?Ed, ?Eq; try done.
  split; rewrite ?Eq; try done. split; rewrite ?Eq, ?Et, ?Ep, ?El; done.
Qed.

(** Entries without a FIN. *)
Definition fin_free (l : list ipqent) : Prop := Forall (fun q => flag_set (ipqe_flags q) TH_FIN = false) l.

Lemma fin_lor f g : flag_set (Z.lor f g) TH_FIN = flag_set f TH_FIN || flag_set g TH_FIN.
Proof. unfold TH_FIN. flag_bits. done. Qed.

Lemma fin_free_sub l l' : (forall q, q ∈ l' -> q ∈ l) -> fin_free l -> fin_free l'.
Proof. unfold fin_free. rewrite !Forall_forall. auto. Qed.

Lemma reass_round_fin pk q : flag_set (pkt_flags pk) TH_FIN = false -> flag_set (ipqe_flags q) TH_FIN = false ->
  match reass_round pk q with
  | RPrepend pk' | RKeep pk' | RFree pk' => flag_set (pkt_flags pk') TH_FIN = false
  | _ => True
  end.
Proof.
  intros P Q. unfold reass_round. repeat case_match; simplify_eq; upd_simpl; rewrite ?fin_lor, ?P, ?Q; try done.
Qed.

Lemma segq_remove_sub a l q : q ∈ segq_remove a l -> q ∈ l.
Proof. unfold segq_remove. rewrite list_elem_of_filter. tauto. Qed.

Lemma free_ipqe_fin st pk q : fin_free (segq st) -> flag_set (pkt_flags pk) TH_FIN = false ->
  fin_free (segq (free_ipqe st pk q).1) /\ flag_set (pkt_flags (free_ipqe st pk q).2) TH_FIN = false.
Proof.
  intros F P. unfold free_ipqe. destruct (tiqe pk); (split; [|done]);
    (eapply fin_free_sub; [|exact F]); intros x; apply segq_remove_sub.
Qed.

Lemma reass_loop_fin qs : forall st pk, fin_free qs -> fin_free (segq st) -> flag_set (pkt_flags pk) TH_FIN = false ->
  fin_free (segq (reass_loop qs st pk).1.2) /\ flag_set (pkt_flags (reass_loop qs st pk).2) TH_FIN = false.
Proof.
  induction qs as [|q qs IH]; intros st pk Fq F P; simpl; [done|].
  apply Forall_cons in Fq as [Q Fq]. pose proof (reass_round_fin pk q P Q) as K.
  destruct (reass_round pk q) as [| |pk1|pk1|pk1]; [done|done| |by apply IH|];
    pose proof (free_ipqe_fin st pk1 q F K) as [F1 P1]; destruct (free_ipqe st pk1 q) as [st1 pk2];
    [done|by apply IH].
Qed.

Lemma present_fin st : fin_free (segq st) ->
  flag_set (tcp_reass_present st).1 TH_FIN = false /\ fin_free (segq (tcp_reass_present st).2).
Proof.
  intros F. unfold tcp_reass_present. destruct (negb _); [done|].
  destruct (segq st) as [|q l] eqn:E; [simpl; by rewrite E|].
  assert (fin_free (q :: l)) as F' by done. apply Forall_cons in F' as [Q _].
  destruct (negb _); [by simpl; rewrite E|]. destruct (_ && _); [by simpl; rewrite E|].
  cbv zeta. split.
  - simpl. unfold flag_set in *. rewrite <- Z.land_assoc. change (Z.land TH_FIN TH_FIN) with TH_FIN. done.
  - match goal with |- fin_free (segq ?x) => assert (segq x = segq_remove (ipqe_addr q) (q :: l)) as Ex end.
    { rewrite <- E. unfold segq_unlink. upd_simpl. by destruct (flag_set (so_state st) SS_CANTRCVMORE). }
    rewrite Ex. eapply fin_free_sub; [|exact F]. intros x. apply segq_remove_sub.
Qed.

Lemma insert_it_fin st pk : fin_free (segq st) -> flag_set (pkt_flags pk) TH_FIN = false ->
  flag_set (insert_it st pk).1 TH_FIN = false /\ fin_free (segq (insert_it st pk).2).
Proof.
  intros F P. unfold insert_it.
  assert (forall p (e : ipqent) l, flag_set (ipqe_flags e) TH_FIN = false -> fin_free l -> fin_free (insert_at p e l)) as Ia.
  { intros p e l He. destruct p as [p|]; simpl; [|by intros; constructor].
    induction l as [|x l IH]; simpl; [done|]. intros [Hx Hl]%Forall_cons.
    destruct (decide _); constructor; try done; [by constructor|by apply IH]. }
  destruct (tiqe pk) as [a|].
  - apply present_fin. simpl. by apply Ia.
  - destruct (tcpipqent_alloc st) as [[a st1]|] eqn:E; [|done]. apply present_fin. simpl. apply Ia; [done|].
    unfold tcpipqent_alloc in E. destruct (pool_get _) as [[? ?]|]; [|done]. by simplify_eq.
Qed.

Lemma segq_update_fin e l : flag_set (ipqe_flags e) TH_FIN = false -> fin_free l -> fin_free (segq_update e l).
Proof.
  intros He. unfold fin_free, segq_update. rewrite Forall_fmap. intros F. eapply Forall_impl; [exact F|]. intros q Hq. simpl.
  by destruct (decide _).
Qed.

Lemma reass_scan_fin st pk : fin_free (segq st) -> flag_set (pkt_flags pk) TH_FIN = false ->
  flag_set (reass_scan st pk).1 TH_FIN = false /\ fin_free (segq (reass_scan st pk).2).
Proof.
  intros F P. unfold reass_scan. destruct (segq st) as [|q l] eqn:E; [apply insert_it_fin; [by rewrite E|done]|].
  assert (fin_free (q :: l)) as F' by done. pose proof F' as [Q _]%Forall_cons.
  destruct (pkt_end pk =? ipqe_seq q).
  - apply present_fin. upd_simpl. apply segq_update_fin; [|done]. upd_simpl. by rewrite fin_lor, P, Q.
  - pose proof (reass_loop_fin (q :: l) st pk F' ltac:(by rewrite E) P) as [F1 P1].
    destruct (reass_loop (q :: l) st pk) as [[ok st'] pk']. simpl in F1, P1.
    destruct ok; [by apply insert_it_fin|]. by destruct (tiqe pk').
Qed.

Lemma tcp_reass_fin st th m len : fin_free (segq st) -> flag_set (th_flags th) TH_FIN = false ->
  flag_set (tcp_reass st (Some th) m len).1 TH_FIN = false /\ fin_free (segq (tcp_reass st (Some th) m len).2).
Proof.
  intros F P. unfold tcp_reass. destruct (last (segq st)) as [p|] eqn:E; [|by apply reass_scan_fin].
  assert (flag_set (ipqe_flags p) TH_FIN = false) as Q.
  { apply last_Some in E as [l E]. unfold fin_free in F. rewrite E, Forall_app, Forall_cons in F. tauto. }
  destruct (_ =? _); [|destruct (SEQ_GT _ _); [by apply insert_it_fin|by apply reass_scan_fin]].
  apply present_fin. upd_simpl. apply segq_update_fin; [|done]. upd_simpl. cbn [pkt_flags]. by rewrite fin_lor, Q, P.
Qed.

(** Reassembly leaves the state alone. *)
Lemma present_state st : t_state (r_tp (tcp_reass_present st).2) = t_state (r_tp st).
Proof.
  unfold tcp_reass_present. repeat case_match; try done; cbn [snd]; unfold segq_unlink, tcpipqent_free; by upd_simpl.
Qed.

Lemma free_ipqe_state st pk q : t_state (r_tp (free_ipqe st pk q).1) = t_state (r_tp st).
Proof. unfold free_ipqe. by destruct (tiqe pk). Qed.

Lemma reass_loop_state qs : forall st pk, t_state (r_tp (reass_loop qs st pk).1.2) = t_state (r_tp st).
Proof.
  induction qs as [|q qs IH]; intros st pk; simpl; [done|].
  destruct (reass_round pk q) as [| |pk1|pk1|pk1]; [done|done| |by rewrite IH|];
    pose proof (free_ipqe_state st pk1 q) as E; destruct (free_ipqe st pk1 q) as [st1 pk2]; [done|by rewrite IH].
Qed.

Lemma insert_it_state st pk : t_state (r_tp (insert_it st pk).2) = t_state (r_tp st).
Proof.
  unfold insert_it, skip_replacement. destruct (tiqe pk) as [a|]; [by rewrite present_state|].
  unfold tcpipqent_alloc. destruct (pool_get _) as [[a pl]|]; [by rewrite present_state|done].
Qed.

Lemma reass_scan_state st pk : t_state (r_tp (reass_scan st pk).2) = t_state (r_tp st).
Proof.
  unfold reass_scan. destruct (segq st) as [|q l]; [apply insert_it_state|].
  destruct (_ =? _); [unfold skip_replacement; by rewrite present_state|].
  pose proof (reass_loop_state (q :: l) st pk) as E. destruct (reass_loop (q :: l) st pk) as [[ok st'] pk'].
  cbn [fst snd] in E. destruct ok; [by rewrite insert_it_state|]. cbn [snd].
  pose proof (dsack_rview (r_tp st') (pkt_seq pk') (pkt_len pk')) as D. unfold rview in D. simplify_eq D. intros D1 D2 D3.
  destruct (tiqe pk'); unfold tcpipqent_free; upd_simpl; congruence.
Qed.

Lemma tcp_reass_state st th m len : t_state (r_tp (tcp_reass st th m len).2) = t_state (r_tp st).
Proof.
  unfold tcp_reass, skip_replacement. destruct th as [th|]; [|apply present_state].
  destruct (last _) as [p|]; [|apply reass_scan_state].
  destruct (_ =? _); [by rewrite present_state|]. destruct (SEQ_GT _ _); [apply insert_it_state|apply reass_scan_state].
Qed.
