(* ===== verification/TcpInputStream.v ===== *)
(** * The receive path of [tcp_input]

    A segment that carries bytes of the peer's stream goes through the stages
    of [tcp_input]; what arrives at the socket and in the reassembly queue is
    exactly the part of the segment that lies in the receive window. *)

From S2P Require Import Prelude Pool TcpSeq Callout Tcpcb TcpSack TcpSackFacts TcpCongctl TcpTimer MbufFacts.
From S2P Require Import SockState TcpOptions TcpReass TcpReassFacts TcpInput TcpInputFacts.

(** ** Stages that leave the receive side alone *)

Lemma cv_upd_tp c f : rview (f (tp_of c)) = rview (tp_of c) -> cv (c_r (upd_tp c f)) = cv (c_r c).
Proof. intros E. unfold cv, upd_tp. upd_simpl. unfold tp_of in E. by rewrite E. Qed.

Lemma cv_upd_all c f : (forall tp, rview (f tp) = rview tp) -> cv (c_r (upd_tp c f)) = cv (c_r c).
Proof. intros E. apply cv_upd_tp, E. Qed.

Lemma cv_call c x : cv (c_r (call c x)) = cv (c_r c).
Proof. reflexivity. Qed.

(** The left edge of the send window, its largest size, the receive window, its
    advertised edge, the highest sequence number sent and the count of partial
    acknowledgements, negative outside of fast recovery. *)
Definition aview (tp : tcpcb) : Z * Z * Z * Z * Z * Z :=
  (snd_una tp, max_sndwnd tp, rcv_wnd tp, rcv_adv tp, snd_max tp, t_partialacks tp).

Lemma sack_frame_aview tp tp' : sack_frame tp tp' -> aview tp' = aview tp.
Proof. intros (? & ? & ? & ? & ->). done. Qed.

Lemma do_option_views now sack th s opt optlen cp s' :
  do_option now sack th s opt optlen cp = Some s' -> rview s'.1.2 = rview s.1.2 /\ aview s'.1.2 = aview s.1.2.
Proof.
  destruct s as [[g tp] oi].
  unfold do_option, option_maxseg, option_window, option_timestamp, option_sack_permitted, option_sack.
  repeat case_match; intros E; simplify_option_eq; try done.
  match goal with H : tcp_sack_option _ _ _ _ _ = Some ?r |- _ => destruct r; apply tcp_sack_option_frame in H end.
  split; [by apply sack_frame_rview|by apply sack_frame_aview].
Qed.

Lemma dooptions_loop_views now sack th fuel : forall s cp cnt s',
  dooptions_loop now sack th fuel s cp cnt = Some s' -> rview s'.1.2 = rview s.1.2 /\ aview s'.1.2 = aview s.1.2.
Proof.
  induction fuel as [|fuel IH]; intros s cp cnt s'; simpl;
    (destruct (cnt <=? 0); [intros; by simplify_eq|]); intros E; [done|].
  destruct (cp !! 0%nat); [|done]. simpl in E. repeat (case_match; [by simplify_eq || by eapply IH|]).
  destruct (cp !! 1%nat); [|done]. simpl in E. case_match; [by simplify_eq|].
  destruct (do_option _ _ _ _ _ _ _) eqn:D; [|done]. apply do_option_views in D as [<- <-]. by eapply IH.
Qed.

(** The time stamp to compare with changes only when no SYN was received yet. *)
Definition rview_ts (tp : tcpcb) : Z * Z * Z := (t_state tp, ts_recent tp, ts_recent_age tp).

Lemma do_option_ts now sack th s opt optlen cp s' : TCPS_HAVERCVDSYN (t_state s.1.2) = true ->
  do_option now sack th s opt optlen cp = Some s' -> rview_ts s'.1.2 = rview_ts s.1.2.
Proof.
  destruct s as [[g tp] oi]. cbn [fst snd]. intros H.
  unfold do_option, option_maxseg, option_window, option_timestamp, option_sack_permitted, option_sack, syn_option.
  rewrite H, andb_false_r. cbn [negb]. repeat case_match; intros E; simplify_option_eq; try done.
  match goal with H : tcp_sack_option _ _ _ _ _ = Some ?r |- _ => destruct r; apply tcp_sack_option_frame in H as (? & ? & ? & ? & ->) end.
  done.
Qed.

Lemma dooptions_loop_ts now sack th fuel : forall s cp cnt s', TCPS_HAVERCVDSYN (t_state s.1.2) = true ->
  dooptions_loop now sack th fuel s cp cnt = Some s' -> rview_ts s'.1.2 = rview_ts s.1.2.
Proof.
  induction fuel as [|fuel IH]; intros s cp cnt s' H; simpl;
    (destruct (cnt <=? 0); [intros; by simplify_eq|]); intros E; [done|].
  destruct (cp !! 0%nat); [|done]. simpl in E. repeat (case_match; [by simplify_eq || by eapply IH|]).
  destruct (cp !! 1%nat); [|done]. simpl in E. case_match; [by simplify_eq|].
  destruct (do_option _ _ _ _ _ _ _) eqn:D; [|done]. apply do_option_ts in D; [|done]. rewrite <- D. eapply IH; [|done].
  unfold rview_ts in D. injection D as D _ _. by rewrite D.
Qed.

Section receive.
Context (env : tenv) (Hout : output_keeps_rcv (tcp_output env)).

Lemma do_output_cv c : cv (c_r (do_output env c)) = cv (c_r c).
Proof. unfold do_output. rewrite cv_call. apply cv_upd_tp, Hout. Qed.

Lemma finish_cv v c s : cv (c_r (finish env v c s)) = cv (c_r c).
Proof.
  assert (forall c, cv (c_r (dropafterack2 env c)) = cv (c_r c)) as D.
  { intros c'. unfold dropafterack2. rewrite do_output_cv. by apply cv_upd_tp. }
  destruct v; simpl; try done; [by destruct (flag_set _ _)|by destruct (e_ackdrop_ok env)|].
  unfold dropwithreset. by repeat destruct (flag_set _ _); try destruct (e_dst_multi env).
Qed.

(** ** Before the acknowledgement: what the later stages read *)

Definition pv (c : conn) : _ * (Z * Z * Z * Z * Z * Z) := (cv (c_r c), aview (tp_of c)).

Lemma pv_cv c c' : pv c' = pv c -> cv (c_r c') = cv (c_r c).
Proof. intros E. by apply (f_equal fst) in E. Qed.

Lemma pv_inv c c' : pv c' = pv c ->
  t_state (tp_of c') = t_state (tp_of c) /\ rcv_nxt (tp_of c') = rcv_nxt (tp_of c) /\
  snd_una (tp_of c') = snd_una (tp_of c) /\ max_sndwnd (tp_of c') = max_sndwnd (tp_of c) /\
  rcv_wnd (tp_of c') = rcv_wnd (tp_of c) /\ rcv_adv (tp_of c') = rcv_adv (tp_of c).
Proof.
  unfold pv, aview. intros E. pose proof (cv_inv _ _ (pv_cv _ _ E)) as (Es & En & _). unfold tp_of in *.
  by simplify_eq.
Qed.

Lemma pv_max c c' : pv c' = pv c -> snd_max (tp_of c') = snd_max (tp_of c).
Proof. unfold pv, aview. intros E. by simplify_eq. Qed.

Lemma pv_partial c c' : pv c' = pv c -> t_partialacks (tp_of c') = t_partialacks (tp_of c).
Proof. unfold pv, aview. intros E. by simplify_eq. Qed.

Lemma pv_upd_tp c f : rview (f (tp_of c)) = rview (tp_of c) -> aview (f (tp_of c)) = aview (tp_of c) ->
  pv (upd_tp c f) = pv c.
Proof.
  intros E1 E2. unfold pv. rewrite cv_upd_tp by done. f_equal. rewrite <- E2. unfold tp_of, upd_tp. by upd_simpl.
Qed.

Lemma arm_aview hz1 hz2 tp i n : aview (TCP_TIMER_ARM hz1 hz2 tp i n) = aview tp.
Proof. unfold TCP_TIMER_ARM, aview. frame_cases. Qed.

Lemma dsack_aview tp x y : aview (tcp_new_dsack tp x y) = aview tp.
Proof. unfold tcp_new_dsack, aview. frame_cases. Qed.

Lemma cong_exp_aview out cfg a tp : aview (cong_exp (congctl_table out cfg a) tp) = aview tp.
Proof. destruct a; simpl; unfold tcp_reno_congestion_exp, aview; frame_cases. Qed.

Lemma received_pv c s : exists c', input_received env c s = Next c' s /\ pv c' = pv c.
Proof.
  unfold input_received. eexists. split; [reflexivity|].
  destruct (TCPS_HAVEESTABLISHED _); [rewrite pv_upd_tp; [|apply arm_rview|apply arm_aview]|]; by apply pv_upd_tp.
Qed.

Lemma options_pv optp c s r : input_options env optp c s = Some r ->
  exists c' oi, r = Next c' (s <| opti := oi |>) /\ pv c' = pv c.
Proof.
  unfold input_options, tcp_dooptions. destruct optp as [cp|].
  - destruct (dooptions_loop _ _ _ _ _ _ _) as [[[g tp] oi]|] eqn:E; [|done]. intros. simplify_eq.
    apply dooptions_loop_views in E as [E1 E2]. eexists _, oi. split; [reflexivity|].
    rewrite pv_upd_tp; [done|exact E1|exact E2].
  - intros. simplify_eq. exists c, (opti s). split; [|done]. by destruct s.
Qed.

Lemma ecn_pv c s : exists c', input_ecn env c s = Next c' s /\ pv c' = pv c.
Proof.
  unfold input_ecn. set (c1 := if TCP_SACK_ENABLED _ then _ else _).
  assert (pv c1 = pv c) as E1.
  { subst c1. destruct (TCP_SACK_ENABLED _); [|done].
    destruct (tcp_del_sackholes _ _ _) as [g tp] eqn:E. apply del_sackholes_frame in E.
    rewrite pv_upd_tp; [done|by apply sack_frame_rview|by apply sack_frame_aview]. }
  clearbody c1. destruct (TCP_ECN_ALLOWED _); [|by exists c1]. eexists. split; [reflexivity|]. rewrite <- E1.
  set (c2 := if flag_set (tiflags s) TH_CWR then _ else _).
  assert (pv c2 = pv c1) as <- by (subst c2; destruct (flag_set _ _); [by apply pv_upd_tp|done]). clearbody c2.
  set (c3 := if _ =? _ then _ else _).
  assert (pv c3 = pv c2) as <- by (subst c3; destruct (_ =? _); [by apply pv_upd_tp|done]). clearbody c3.
  destruct (_ && _); [|done]. apply pv_upd_tp; [apply cong_exp_rview|apply cong_exp_aview].
Qed.

(** What header prediction and the time stamp check read besides. *)
Definition tview (c : conn) : Z * Z * list Z := (ts_recent (tp_of c), ts_recent_age (tp_of c), so_snd c).

Lemma tview_upd_tp c f : ts_recent (f (tp_of c)) = ts_recent (tp_of c) -> ts_recent_age (f (tp_of c)) = ts_recent_age (tp_of c) ->
  tview (upd_tp c f) = tview c.
Proof. unfold tview, upd_tp, tp_of. upd_simpl. by intros -> ->. Qed.

Lemma received_tv c s c' : input_received env c s = Next c' s -> tview c' = tview c.
Proof.
  unfold input_received. intros E. simplify_eq E. intros <-.
  destruct (TCPS_HAVEESTABLISHED _); [|done]. unfold tview, upd_tp, arm, TCP_TIMER_ARM, tp_of. upd_simpl. frame_cases.
Qed.

Lemma options_tv optp c s c' s' : TCPS_HAVERCVDSYN (t_state (tp_of c)) = true ->
  input_options env optp c s = Some (Next c' s') -> tview c' = tview c.
Proof.
  intros H. unfold input_options, tcp_dooptions. destruct optp as [cp|]; [|intros E; by simplify_eq].
  destruct (dooptions_loop _ _ _ _ _ _ _) as [[[g tp] oi]|] eqn:E; [|done]. intros. simplify_eq.
  apply dooptions_loop_ts in E; [|done]. cbn [fst snd] in E. unfold rview_ts in E. simplify_eq.
  rewrite tview_upd_tp; by upd_simpl.
Qed.

Lemma cong_exp_ts out cfg a tp : let tp' := cong_exp (congctl_table out cfg a) tp in
  ts_recent tp' = ts_recent tp /\ ts_recent_age tp' = ts_recent_age tp.
Proof. destruct a; simpl; unfold tcp_reno_congestion_exp; frame_cases. Qed.

Lemma ecn_tv c s c' : input_ecn env c s = Next c' s -> tview c' = tview c.
Proof.
  unfold input_ecn. set (c1 := if TCP_SACK_ENABLED _ then _ else _).
  assert (tview c1 = tview c) as <-.
  { subst c1. destruct (TCP_SACK_ENABLED _); [|done].
    destruct (tcp_del_sackholes _ _ _) as [g tp] eqn:E. apply del_sackholes_frame in E as (? & ? & ? & ? & ->).
    by rewrite tview_upd_tp. }
  clearbody c1. destruct (TCP_ECN_ALLOWED _); [|intros E; by simplify_eq]. intros [= <-].
  set (c2 := if flag_set (tiflags s) TH_CWR then _ else _).
  assert (tview c2 = tview c1) as <- by (subst c2; by destruct (flag_set _ _)). clearbody c2.
  set (c3 := if _ =? _ then _ else _). assert (tview c3 = tview c2) as <- by (subst c3; by destruct (_ =? _)). clearbody c3.
  destruct (_ && _); [|done]. apply tview_upd_tp; apply cong_exp_ts.
Qed.

(** ** The segment on its way through the checks *)

Context (S : Z -> Z) (irs : Z).

(** An acknowledgement without SYN, FIN, RST and URG. *)
Definition plain (f : Z) : Prop :=
  flag_set f TH_SYN = false /\ flag_set f TH_FIN = false /\ flag_set f TH_RST = false /\
  flag_set f TH_URG = false /\ flag_set f TH_ACK = true.

(** The segment carries the [len] bytes of the stream from offset [a] on,
    behind its headers. *)
Record carries (a len : Z) (s : seg) : Prop := {
  cs_seq : th_seq (s_th s) = u32 (irs + a);
  cs_len : tlen s = len;
  cs_pos : 0 <= len;
  cs_bytes : exists h, s_m s = h ++ slice S a len /\ Z.of_nat (length h) = hdroptlen s;
  cs_flags : plain (tiflags s);
  cs_fin : flag_set (th_flags (s_th s)) TH_FIN = false
}.

Lemma carries_data a len s : carries a len s -> adj_bytes (hdroptlen s) (s_m s) = slice S a len.
Proof.
  intros [_ _ _ (h & -> & <-) _ _]. unfold adj_bytes. destruct (Z.leb_spec 0 (Z.of_nat (length h))); [|lia].
  by rewrite Nat2Z.id, drop_app_length.
Qed.

Lemma carries_ext a len s s' : s_th s' = s_th s -> tlen s' = tlen s -> s_m s' = s_m s -> hdroptlen s' = hdroptlen s ->
  tiflags s' = tiflags s -> carries a len s -> carries a len s'.
Proof. intros E1 E2 E3 E4 E5 []. split; rewrite ?E1, ?E2, ?E3, ?E4, ?E5; done. Qed.

(** The distance of two sequence numbers of the stream. *)
Lemma stream_dist x y n a : x = u32 (irs + n) -> y = u32 (irs + a) -> - 2 ^ 31 <= n - a < 2 ^ 31 -> s32 (x - y) = n - a.
Proof.
  intros -> -> B. rewrite <- (s32_small (n - a)) by done. rewrite <- s32_u32, <- (s32_u32 (n - a)). f_equal.
  unfold u32. rewrite <- Zminus_mod. f_equal. lia.
Qed.

(** [k] bytes go from the front. *)
Lemma carries_drop a len k s s' : carries a len s -> 0 <= k <= len ->
  th_seq (s_th s') = u32 (th_seq (s_th s) + k) -> th_flags (s_th s') = th_flags (s_th s) -> tlen s' = tlen s - k ->
  s_m s' = s_m s -> hdroptlen s' = hdroptlen s + k -> plain (tiflags s') -> carries (a + k) (len - k) s'.
Proof.
  intros [Q L P (h & B & Hl) F Ff] K E1 E2 E3 E4 E5 E6. split; rewrite ?E1, ?E2, ?E3, ?E4, ?E5, ?Q, ?L; try done; [|lia|].
  - unfold u32. rewrite Z.add_mod_idemp_l by lia. f_equal. lia.
  - exists (h ++ slice S a k). rewrite B, length_app, slice_length. split; [|lia].
    rewrite <- (assoc_L (++)), slice_app by lia. do 2 f_equal. lia.
Qed.

(** [k] bytes go from the end. *)
Lemma carries_cut a len k s s' : carries a len s -> 0 < k <= len ->
  s_th s' = s_th s -> tlen s' = tlen s - k -> s_m s' = adj_bytes (- k) (s_m s) -> hdroptlen s' = hdroptlen s ->
  plain (tiflags s') -> carries a (len - k) s'.
Proof.
  intros [Q L P (h & B & Hl) F Ff] K E1 E2 E3 E4 E5. split; rewrite ?E1, ?E2, ?E4, ?L; try done; [lia|].
  exists h. split; [|done]. rewrite E3, B. unfold adj_bytes. destruct (Z.leb_spec 0 (- k)); [lia|].
  rewrite Z.opp_involutive, length_app, slice_length.
  replace (length h + Z.to_nat len - Z.to_nat k)%nat with (length h + Z.to_nat (len - k))%nat by lia.
  rewrite take_app_add. f_equal. apply slice_take. lia.
Qed.

Lemma clear_unset f m x : flag_set f x = false -> flag_set (flag_clear f m) x = false.
Proof.
  unfold flag_set, flag_clear. rewrite !negb_false_iff, !Z.eqb_eq. intros E.
  by rewrite <- Z.land_assoc, (Z.land_comm (Z.lnot m)), Z.land_assoc, E.
Qed.

Lemma plain_clear f m : plain f -> flag_set m TH_ACK = false -> plain (flag_clear f m).
Proof.
  intros (A & B & C & D & E) M. do 4 (split; [by apply clear_unset|]).
  unfold flag_set, flag_clear in *. rewrite negb_false_iff, Z.eqb_eq in M.
  rewrite <- Z.land_assoc, (Z.land_comm (Z.lnot m)), <- Z.ldiff_land.
  assert (Z.ldiff TH_ACK m = TH_ACK) as ->; [|done].
  rewrite Z.ldiff_land. apply Z.bits_inj'. intros k Hk. apply (f_equal (fun z => Z.testbit z k)) in M. revert M.
  rewrite !Z.land_spec, Z.lnot_spec, Z.bits_0 by done. by destruct (Z.testbit m k), (Z.testbit TH_ACK k).
Qed.

(** What holds before the acknowledgement is processed: [n] bytes have been
    delivered, the window ends at [n + w]. *)
Record ready (n w : Z) (c : conn) : Prop := {
  rd_state : t_state (tp_of c) = TCPS_ESTABLISHED;
  rd_nxt : rcv_nxt (tp_of c) = u32 (irs + n);
  rd_wnd : rcv_wnd (tp_of c) = w
}.

Lemma ready_pv n w c c' : pv c' = pv c -> ready n w c -> ready n w c'.
Proof.
  intros (E1 & E2 & _ & _ & E3 & _)%pv_inv [H1 H2 H3]. split; congruence.
Qed.

(** A time stamp older than the last one, which is not too old itself. *)
Definition paws_refuses (tp : tcpcb) (oi : tcp_opt_info) : bool :=
  ts_present oi && negb (ts_recent tp =? 0) && TSTMP_LT (ts_val oi) (ts_recent tp)
  && (u32 (e_now env - ts_recent_age tp) <=? TCP_PAWS_IDLE).

Lemma paws_pv c s : exists c', pv c' = pv c /\
  (input_paws env c s = Next c' s \/ input_paws env c s = Stop DropAfterAck c' s /\ paws_refuses (tp_of c) (opti s) = true).
Proof.
  unfold input_paws, paws_refuses. destruct (ts_present (opti s)); [|by exists c; eauto]. simpl.
  destruct (negb (flag_set _ _)); [|by exists c; eauto]. simpl.
  destruct (_ && _); [|by exists c; eauto].
  destruct (Z.ltb_spec TCP_PAWS_IDLE (u32 (e_now env - ts_recent_age (tp_of c))));
    [eexists; split; [|by left]|eexists; split; [|right; split; [done|by apply Z.leb_le]]]; apply pv_upd_tp; try done.
  - apply dsack_rview.
  - apply dsack_aview.
Qed.

Lemma input_trim_front_spec n w c s a len : ready n w c -> carries a len s -> n - 2 ^ 30 <= a <= n + 2 ^ 30 ->
  exists c' s', input_trim_front c s = Next c' s' /\ pv c' = pv c /\ th_ack (s_th s') = th_ack (s_th s) /\
    let k := Z.max 0 (Z.min (n - a) len) in carries (a + k) (len - k) s'.
Proof.
  intros R K B. unfold input_trim_front.
  rewrite (stream_dist _ _ n a (rd_nxt _ _ _ R) (cs_seq _ _ _ K)) by lia.
  pose proof (cs_flags _ _ _ K) as (F1 & F2 & F3 & F4 & F5). pose proof (cs_pos _ _ _ K) as P.
  destruct (Z.ltb_spec 0 (n - a)) as [L|L].
  2:{ eexists _, _. split; [reflexivity|]. do 2 (split; [done|]). cbv zeta.
      replace (Z.max 0 (Z.min (n - a) len)) with 0 by lia. rewrite Z.add_0_r, Z.sub_0_r.
      by apply (carries_ext a len s). }
  unfold trim_syn. upd_simpl. rewrite F1. cbv zeta iota.
  assert (forall c1 s1 k, pv c1 = pv c -> s_th s1 = s_th s -> tlen s1 = tlen s -> s_m s1 = s_m s ->
    hdroptlen s1 = hdroptlen s -> plain (tiflags s1) -> 0 <= k <= len ->
    exists c' s', drop_front c1 s1 k = Next c' s' /\ pv c' = pv c /\ th_ack (s_th s') = th_ack (s_th s) /\
      carries (a + k) (len - k) s') as D.
  { intros c1 s1 k E1 E2 E3 E4 E5 E6 Bk. unfold drop_front. eexists _, _. split; [reflexivity|].
    split; [rewrite pv_upd_tp; [done|apply dsack_rview|apply dsack_aview]|].
    split; [unfold set_seq; upd_simpl; destruct (_ <? _); upd_simpl; simpl; by rewrite E2|].
    unfold set_seq. upd_simpl. apply (carries_drop a len k s); [done|done|..];
      destruct (_ <? _); upd_simpl; simpl; rewrite ?E2, ?E3, ?E4, ?E5; try done. by apply plain_clear. }
  upd_simpl. rewrite F2, F3. simpl. rewrite andb_true_r, (cs_len _ _ _ K).
  destruct (Z.ltb_spec len (n - a)); simpl; [|destruct (Z.eqb_spec (n - a) len)].
  - replace (Z.max 0 (Z.min (n - a) len)) with len by lia. apply D; try done; by apply plain_clear.
  - replace (Z.max 0 (Z.min (n - a) len)) with len by lia. apply D; try done; by apply plain_clear.
  - replace (Z.max 0 (Z.min (n - a) len)) with (n - a) by lia. apply D; try done. lia.
Qed.

Lemma after_close_next n w c s : ready n w c -> input_after_close env c s = Next c s.
Proof. intros R. unfold input_after_close. rewrite (rd_state _ _ _ R), andb_false_r. done. Qed.

Lemma input_trim_back_spec n w c s a len : ready n w c -> carries a len s -> 0 <= w <= 2 ^ 30 -> n - 2 ^ 30 <= a ->
  a + len <= n + 2 ^ 30 ->
  (exists c' s', input_trim_back env c s = Next c' s' /\ pv c' = pv c /\ th_ack (s_th s') = th_ack (s_th s) /\
     carries a (Z.max 0 (Z.min len (n + w - a))) s' /\ a <= n + w) \/
  input_trim_back env c s = Stop DropAfterAck c s /\ n + w <= a.
Proof.
  intros R K Bw Ba Bl. unfold input_trim_back. pose proof (cs_pos _ _ _ K) as P.
  pose proof (cs_flags _ _ _ K) as Fl. pose proof Fl as (F1 & _). rewrite F1, (rd_wnd _ _ _ R), (cs_len _ _ _ K). simpl.
  assert (s32 (u32 (th_seq (s_th s) + len) - (rcv_nxt (tp_of c) + w)) = a + len - (n + w)) as ->.
  { rewrite <- s32_u32, u32_sub_u32, (cs_seq _ _ _ K), (rd_nxt _ _ _ R), s32_u32.
    rewrite <- (s32_small (a + len - (n + w))) by lia. rewrite <- s32_u32, <- (s32_u32 (a + len - (n + w))). f_equal.
    unfold u32. rewrite Zminus_mod, !Z.add_mod_idemp_l, <- Zminus_mod by lia. f_equal. lia. }
  destruct (Z.ltb_spec 0 (a + len - (n + w))) as [L|L].
  2:{ left. eexists _, _. split; [reflexivity|]. do 2 (split; [done|]). split; [|lia]. by replace (Z.max 0 (Z.min len (n + w - a))) with len by lia. }
  assert (forall c1, pv c1 = pv c -> a + len - (n + w) <= len -> exists c' s',
    Next c1 (s <| s_m := adj_bytes (- (a + len - (n + w))) (s_m s) |> <| tlen := len - (a + len - (n + w)) |>
               <| tiflags := flag_clear (tiflags s) (Z.lor TH_PUSH TH_FIN) |>) = Next c' s' /\
    pv c' = pv c /\ th_ack (s_th s') = th_ack (s_th s) /\ carries a (Z.max 0 (Z.min len (n + w - a))) s' /\ a <= n + w) as C.
  { intros c1 E1 Lk. eexists _, _. split; [reflexivity|]. do 2 (split; [done|]). split; [|lia].
    replace (Z.max 0 (Z.min len (n + w - a))) with (len - (a + len - (n + w))) by lia.
    apply (carries_cut a len (a + len - (n + w)) s); try done; [upd_simpl; by rewrite (cs_len _ _ _ K)|].
    upd_simpl. by apply plain_clear. }
  destruct (Z.leb_spec len (a + len - (n + w))) as [L2|L2]; [|left; apply C; [done|lia]].
  destruct ((w =? 0) && _) eqn:Z0; [|right; split; [done|lia]].
  apply andb_prop in Z0 as [Z0%Z.eqb_eq Zs%Z.eqb_eq]. left. apply C; [by apply pv_upd_tp|].
  assert (n - a = 0); [|lia]. rewrite <- (stream_dist _ _ n a (rd_nxt _ _ _ R) (cs_seq _ _ _ K)) by lia.
  by rewrite Zs, Z.sub_diag.
Qed.

Lemma timestamp_pv c s : exists c', input_timestamp env c s = Next c' s /\ pv c' = pv c.
Proof. unfold input_timestamp. eexists. split; [reflexivity|]. destruct (_ && _); [by apply pv_upd_tp|done]. Qed.

Lemma rst_next c s : plain (tiflags s) -> input_rst env c s = Next c s.
Proof. intros (_ & _ & F & _). unfold input_rst. by rewrite F. Qed.

Lemma syn_ack_next c s : plain (tiflags s) -> input_syn_ack c s = Next c s.
Proof. intros (F & _ & _ & _ & A). unfold input_syn_ack. by rewrite F, A. Qed.

(** ** Acknowledgements do not touch the receive side *)

(** The outcome of a stage that leaves the receive side of [c] and the text of
    [s] alone. *)
Definition quiet (c : conn) (s : seg) (r : sres) : Prop :=
  match r with
  | Next c' s' => cv (c_r c') = cv (c_r c) /\ exists b, s' = s <| needoutput := b |>
  | Stop _ c' _ => cv (c_r c') = cv (c_r c)
  end.

Lemma seg_same s : exists b, s = s <| needoutput := b |>.
Proof. exists (needoutput s). by destruct s. Qed.

Lemma quiet_next c c' s : cv (c_r c') = cv (c_r c) -> quiet c s (Next c' s).
Proof. intros E. split; [done|apply seg_same]. Qed.

Lemma xmit_rtt_rview s tp : rview (xmit_rtt env s tp) = rview tp.
Proof. unfold xmit_rtt. repeat case_match; rewrite ?xmit_timer_rview; done. Qed.

Lemma snd_drop_cv c n : cv (c_r (snd_drop c n)) = cv (c_r c).
Proof.
  unfold snd_drop. rewrite cv_upd_tp by done. set (c1 := upd_tp c _).
  transitivity (cv (c_r c1)); [done|]. apply cv_upd_tp. by destruct (_ <? _).
Qed.

Lemma ack_duplicate_quiet c s : quiet c s (ack_duplicate env c s).
Proof.
  unfold ack_duplicate. destruct (_ || _); [apply quiet_next; by apply cv_upd_tp|].
  set (c1 := if _ <? _ then _ else _).
  assert (cv (c_r c1) = cv (c_r c)) as E by (subst c1; destruct (_ <? _); [by apply cv_upd_tp|done]).
  clearbody c1. destruct (_ && _).
  - destruct (fast_retransmit _ _ _) as [r tp] eqn:F.
    assert (cv (c_r (upd_tp c1 (fun _ => tp))) = cv (c_r c)) as E'.
    { rewrite cv_upd_tp; [done|]. pose proof (fast_retransmit_rview _ Hout (e_abc env) (default tcp_newreno_ctl (t_congctl (tp_of c1))) (tp_of c1) (s_th s)) as G.
      unfold congctl in F. by rewrite F in G. }
    destruct (r =? 0); [done|by apply quiet_next].
  - destruct (_ <? _); [|by apply quiet_next]. cbn [quiet]. rewrite do_output_cv. by rewrite cv_upd_tp.
Qed.

Lemma ack_old_quiet c s : quiet c s (ack_old env c s).
Proof. unfold ack_old. destruct (_ && _); [apply ack_duplicate_quiet|]. destruct (_ && _); [done|by apply quiet_next]. Qed.

Lemma ack_drop_cv c acked : cv (c_r (ack_drop c acked).2) = cv (c_r c).
Proof.
  unfold ack_drop. destruct (_ <? _); cbn [snd].
  - by transitivity (cv (c_r (upd_tp c (fun tp => tp <| snd_wnd := u64 (snd_wnd tp - Z.of_nat (length (so_snd c))) |>)))).
  - rewrite cv_upd_tp by done. apply snd_drop_cv.
Qed.

Lemma ack_state_quiet fin c s : t_state (tp_of c) = TCPS_ESTABLISHED -> ack_state env fin c s = Next c s.
Proof. intros E. unfold ack_state. by rewrite E. Qed.

(** What recovery does on an acknowledgement above [snd_una], before it is compared
    with [snd_max]; a partial one makes [tcp_output] send. *)
Definition newack_tp (tp : tcpcb) (th : tcphdr) : tcpcb :=
  if TCP_SACK_ENABLED tp then tcp_sack_newack (tcp_output env) tp th else fast_retransmit_newack (congctl env tp) tp th.

Lemma newack_tp_idle tp th : t_partialacks tp < 0 -> snd_max (newack_tp tp th) = snd_max tp.
Proof.
  intros N%Z.ltb_lt. unfold newack_tp, tcp_sack_newack, congctl. rewrite N. destruct (TCP_SACK_ENABLED _); [by upd_simpl|].
  destruct (default _ _); cbn [congctl_table fast_retransmit_newack];
    unfold tcp_reno_fast_retransmit_newack, tcp_newreno_fast_retransmit_newack; rewrite N; by upd_simpl.
Qed.

Lemma ack_new_spec c s : exists c', cv (c_r c') = cv (c_r c) /\
  (ack_new env c s = Stop DropAfterAck c' s /\ SEQ_GT (th_ack (s_th s)) (snd_max (newack_tp (tp_of c) (s_th s))) = true \/
   exists fin b, ack_new env c s = ack_state env fin c' (s <| needoutput := b |>)).
Proof.
  unfold ack_new. set (c1 := upd_tp c _).
  assert (cv (c_r c1) = cv (c_r c)) as E1.
  { apply cv_upd_tp. destruct (TCP_SACK_ENABLED _); [by apply sack_newack_rview|by apply newack_fast_rview]. }
  assert (tp_of c1 = newack_tp (tp_of c) (s_th s)) as M1 by done.
  clearbody c1. destruct (SEQ_GT (th_ack (s_th s)) (snd_max (tp_of c1))) eqn:Eg.
  { exists c1. split; [done|]. left. split; [done|]. by rewrite <- M1. }
  clear M1. set (acked := s32 _). clearbody acked.
  set (c2 := upd_tp c1 _). assert (cv (c_r c2) = cv (c_r c)) as E2 by (rewrite <- E1; apply cv_upd_tp, xmit_rtt_rview).
  clearbody c2. set (r := if th_ack _ =? _ then _ else _).
  assert (cv (c_r r.1) = cv (c_r c) /\ exists b, r.2 = s <| needoutput := b |>) as [E3 [b Es3]].
  { subst r. destruct (_ =? _); [|destruct (negb _)]; cbn [fst snd]; (split; [|by apply seg_same || by eexists]).
    - rewrite cv_upd_tp; [done|apply disarm_rview].
    - rewrite cv_upd_tp; [done|apply arm_rview].
    - done. }
  destruct r as [c3 s3]. simpl in E3, Es3. set (c4 := upd_tp c3 _).
  assert (cv (c_r c4) = cv (c_r c)) as E4 by (rewrite <- E3; apply cv_upd_tp, newack_rview; done).
  clearbody c4. destruct (ack_drop c4 acked) as [fin c5] eqn:D. pose proof (ack_drop_cv c4 acked) as E5. rewrite D in E5.
  cbn [snd] in E5. set (c6 := upd_tp _ (ack_advance _)).
  assert (cv (c_r c6) = cv (c_r c)) as E6.
  { subst c6. rewrite cv_upd_tp by apply ack_advance_rview. rewrite cv_upd_tp by apply icmp_check_rview.
    rewrite cv_call. by rewrite E5. }
  exists c6. split; [done|]. right. exists fin, b. by rewrite Es3.
Qed.

Lemma ack_new_quiet c s : t_state (tp_of c) = TCPS_ESTABLISHED -> quiet c s (ack_new env c s).
Proof.
  intros Es. destruct (ack_new_spec c s) as (c' & E & [[-> _]|(fin & b & ->)]); [done|].
  rewrite ack_state_quiet; [split; [done|by exists b]|]. unfold tp_of in *. by destruct (cv_inv _ _ E) as (-> & _).
Qed.

Lemma input_ack_quiet c s : t_state (tp_of c) = TCPS_ESTABLISHED -> quiet c s (input_ack env c s).
Proof.
  intros E. unfold input_ack, ack_syn_received. rewrite E. simpl. rewrite E. simpl.
  destruct (SEQ_LEQ _ _); [apply ack_old_quiet|by apply ack_new_quiet].
Qed.

(** An acknowledgement of something that was sent, not older than the largest
    window, stops only a segment without text. *)
Definition ack_in_window (tp : tcpcb) (ack : tcp_seq) : bool :=
  negb (SEQ_GT ack (snd_max tp)) && negb (SEQ_LT ack (snd_una tp - max_sndwnd tp)).

Lemma input_ack_next c s : t_state (tp_of c) = TCPS_ESTABLISHED ->
  SEQ_GT (th_ack (s_th s)) (snd_max (newack_tp (tp_of c) (s_th s))) = false ->
  ack_in_window (tp_of c) (th_ack (s_th s)) = true -> tlen s <> 0 -> exists c' s', input_ack env c s = Next c' s'.
Proof.
  intros E K [_ B%negb_true_iff]%andb_prop L. unfold input_ack, ack_syn_received. rewrite E. simpl. rewrite E. simpl.
  destruct (SEQ_LEQ _ _).
  - unfold ack_old. rewrite (proj2 (Z.eqb_neq _ _) L), B, andb_false_r. simpl. eauto.
  - destruct (ack_new_spec c s) as (c' & Ec & [[_ M]|(fin & b & ->)]); [congruence|].
    rewrite ack_state_quiet; [eauto|]. unfold tp_of in *. by destruct (cv_inv _ _ Ec) as (-> & _).
Qed.

(** ** Delivery *)

Context (W : Z) (objs : list addr).
Hypothesis W_small : W < 2 ^ 31.
Hypothesis objs_nodup : NoDup objs.
Hypothesis objs_int : Z.of_nat (length objs) < 2 ^ 31.

(** An established connection that holds the offsets [R] of the stream. *)
Record rcv_ok (R : gset Z) (c : conn) : Prop := {
  rk_state : t_state (tp_of c) = TCPS_ESTABLISHED;
  rk_sim : reass_sim S irs W objs R (c_r c);
  rk_fin : fin_free (segq (c_r c))
}.

Lemma rcv_ok_cv R c c' : cv (c_r c') = cv (c_r c) -> rcv_ok R c -> rcv_ok R c'.
Proof.
  intros E [H1 H2 H3]. pose proof (cv_inv _ _ E) as (Es & _ & _ & Eq & _). unfold tp_of in *.
  split; unfold tp_of; [congruence|by eapply reass_sim_cv|by rewrite Eq].
Qed.

Lemma recv_range_nil R a len : len <= 0 -> recv_range R a len = R.
Proof.
  intros L. apply set_eq. intros o. rewrite elem_of_recv_range. split; [|by left]. intros [?|?]; [done|lia].
Qed.

(** In-order text goes straight to the socket when nothing is queued. *)
Lemma sim_append R r r' len : reass_sim S irs W objs R r -> segq r = [] -> 0 <= len ->
  t_state (r_tp r') = t_state (r_tp r) -> rcv_nxt (r_tp r') = u32 (rcv_nxt (r_tp r) + len) ->
  t_segqlen (r_tp r') = t_segqlen (r_tp r) -> segq r' = segq r -> timeq r' = timeq r ->
  tcpipqent_pool r' = tcpipqent_pool r -> so_state r' = so_state r -> so_rcv r' = so_rcv r ++ slice S (dlen r) len ->
  reass_sim S irs W objs (recv_range R (dlen r) len) r'.
Proof.
  intros [H G] Eq L Es En El Eq' Et Ep Eo Ed. rewrite Eq in Eq'.
  assert (dlen r' = dlen r + len) as D by (unfold dlen; rewrite Ed, length_app, slice_length; lia).
  destruct H as [H1 H2 H3 H4 [[Ht Hl Hp] _ _] H6]. rewrite Eq in *.
  split; [|by rewrite Eq']. split; rewrite ?D, ?Es, ?Eo, ?Eq'; try done.
  - rewrite En, H3. unfold u32. rewrite Z.add_mod_idemp_l by lia. f_equal. lia.
  - rewrite Ed, H4 at 1. rewrite slice_app' by (unfold dlen; lia || done). done.
  - split; [split|by rewrite Eq'|by rewrite Eq']; rewrite ?Eq', ?Et, ?El, ?Ep; done.
  - intros o. rewrite elem_of_recv_range, H6. pose proof (cov_nil (rcv_nxt (r_tp r)) (o - dlen r)).
    pose proof (cov_nil (rcv_nxt (r_tp r')) (o - (dlen r + len))). assert (0 <= dlen r) by (unfold dlen; lia).
    split; [intros [[?|?]|?]; [left; lia|done|left; lia]|]. intros [?|?]; [|done].
    destruct (decide (o < dlen r)); [left; left; lia|right; lia].
Qed.

Lemma setup_ack_rview tp th : rview (tcp_setup_ack env tp th) = rview tp.
Proof. unfold tcp_setup_ack, TCP_SET_DELACK. by repeat case_match. Qed.

(** Setting the ACK flags or timers and delivering the next bytes. *)
Lemma deliver_ok R c c1 len bytes : rcv_ok R c -> segq (c_r c) = [] -> 0 <= len ->
  cv (c_r c1) = cv ((c_r c) <| r_tp := (tp_of c) <| rcv_nxt := u32 (rcv_nxt (tp_of c) + len) |> |>) ->
  bytes = slice S (dlen (c_r c)) len -> rcv_ok (recv_range R (dlen (c_r c)) len) (deliver c1 bytes).
Proof.
  intros [K1 K2 K3] Eq L E ->. apply cv_inv in E as (Es & En & El & Eq' & Et & Ep & Eo & Ed).
  upd_simpl in Es. upd_simpl in En. upd_simpl in El. upd_simpl in Eq'. upd_simpl in Et. upd_simpl in Ep.
  upd_simpl in Eo. upd_simpl in Ed.
  assert (flag_set (so_state (c_r c1)) SS_CANTRCVMORE = false) as F by (rewrite Eo; apply K2).
  unfold deliver. rewrite F. split; unfold tp_of in *; upd_simpl.
  - congruence.
  - eapply sim_append; upd_simpl; try done. by rewrite Ed.
  - by rewrite Eq'.
Qed.

Lemma input_data_ok R c s a len : rcv_ok R c -> carries a len s -> dlen (c_r c) <= a \/ len = 0 ->
  a + len - dlen (c_r c) <= W ->
  exists c' s', input_data env c s = Next c' s' /\ flag_set (tiflags s') TH_FIN = false /\
    (rcv_ok (recv_range R a len) c' \/ mempool (tcpipqent_pool (c_r c)) = [] /\ rcv_ok R c').
Proof.
  intros K C La Lw. pose proof K as [K1 K2 K3]. pose proof (cs_flags _ _ _ C) as (_ & F & _).
  unfold input_data. rewrite F, (cs_len _ _ _ C), K1. change (TCPS_HAVERCVDFIN TCPS_ESTABLISHED) with false.
  change (TCPS_ESTABLISHED =? TCPS_ESTABLISHED) with true. cbn [negb]. rewrite orb_false_r, !andb_true_r.
  destruct (Z.eqb_spec len 0) as [->|N]; cbn [negb].
  { eexists _, _. split; [reflexivity|]. split; [upd_simpl; by apply clear_unset|]. left. by rewrite recv_range_nil. }
  pose proof (cs_pos _ _ _ C) as P. destruct La as [La|]; [|lia]. rewrite (carries_data _ _ _ C).
  destruct ((th_seq (s_th s) =? _) && _) eqn:E.
  - apply andb_prop in E as [Eq%Z.eqb_eq Eb%bool_decide_eq_true].
    assert (a = dlen (c_r c)) as ->.
    { pose proof (su_nxt _ _ _ _ _ _ (proj1 K2)) as En. unfold tp_of in Eq. rewrite En, (cs_seq _ _ _ C) in Eq.
      assert (s32 (u32 (irs + a) - u32 (irs + dlen (c_r c))) = a - dlen (c_r c)) as D.
      { eapply stream_dist; [done|done|]. lia. }
      rewrite Eq, Z.sub_diag in D. change (s32 0) with 0 in D. lia. }
    eexists _, _. split; [reflexivity|]. split.
    { upd_simpl. pose proof (cs_fin _ _ _ C) as Ff. unfold flag_set in *.
      rewrite <- Z.land_assoc. change (Z.land TH_FIN TH_FIN) with TH_FIN. done. }
    left. eapply deliver_ok; try done.
    unfold upd_tp, cv, tp_of. upd_simpl.
    assert (forall f x, rview (x <| rcv_nxt := f |>) = (t_state x, f, t_segqlen x)) as V by reflexivity.
    rewrite !V. pose proof (setup_ack_rview (r_tp (c_r c)) (s_th s)) as G. unfold rview in G. simplify_eq G. intros G1 G2 G3.
    by rewrite G1, G2, G3.
  - destruct (tcp_reass_sim S irs W objs W_small objs_nodup objs_int R (c_r c) (s_th s) (slice S a len) a len K2
      (cs_seq _ _ _ C) La P ltac:(lia) eq_refl) as (fl & r & Er & Sim).
    pose proof (tcp_reass_fin (c_r c) (s_th s) (slice S a len) len K3 (cs_fin _ _ _ C)) as [Ff Fq].
    rewrite Er in *. cbn [fst snd] in Ff, Fq. eexists _, _. split; [reflexivity|]. split; [done|].
    pose proof (tcp_reass_state (c_r c) (Some (s_th s)) (slice S a len) len) as Et. rewrite Er in Et. cbn [snd] in Et.
    assert (forall R', reass_sim S irs W objs R' r ->
      rcv_ok R' (upd_tp (c <| c_r := r |>) (fun tp => or_flags tp TF_ACKNOW))) as O.
    { intros R' H. apply (rcv_ok_cv R' (c <| c_r := r |>)); [by apply cv_upd_tp|].
      split; unfold tp_of in *; upd_simpl; [congruence|done|done]. }
    destruct Sim as [Sim|[Em ->]]; [left; by apply O|right; split; [done|by apply O]].
Qed.

Lemma carries_needoutput a len s b : carries a len s -> carries a len (s <| needoutput := b |>).
Proof. by apply carries_ext. Qed.

Lemma step6_quiet c s : exists c' b, step6 c s = Next c' (s <| needoutput := b |>) /\ cv (c_r c') = cv (c_r c).
Proof.
  unfold step6. destruct (window_update _ _).
  - eexists _, true. split; [reflexivity|]. rewrite cv_upd_tp by (by destruct (_ <? _)). by apply cv_upd_tp.
  - destruct (seg_same s) as [b E]. exists c, b. by rewrite <- E.
Qed.

Lemma urg_quiet c s : plain (tiflags s) -> exists c', input_urg env c s = Some (Next c' s) /\ cv (c_r c') = cv (c_r c).
Proof.
  intros (_ & _ & _ & F & _). unfold input_urg. rewrite F. simpl. eexists. split; [reflexivity|].
  destruct (SEQ_GT _ _); [by apply cv_upd_tp|done].
Qed.

(** The outcome for the range [lo, hi) of the stream. *)
Definition received (R : gset Z) (a len : Z) (c c' : conn) : Prop :=
  rcv_ok (recv_range R a len) c' \/ mempool (tcpipqent_pool (c_r c)) = [] /\ rcv_ok R c'.

Lemma received_cv R a len c1 c2 c c' : cv (c_r c1) = cv (c_r c) -> cv (c_r c2) = cv (c_r c') ->
  received R a len c c' -> received R a len c1 c2.
Proof.
  intros E1 E2 [H|[Em H]]; [left; by eapply rcv_ok_cv|]. right. split; [|by eapply rcv_ok_cv].
  by destruct (cv_inv _ _ E1) as (_ & _ & _ & _ & _ & -> & _).
Qed.

Lemma dlen_cv c c' : cv (c_r c') = cv (c_r c) -> dlen (c_r c') = dlen (c_r c).
Proof. intros (_ & _ & _ & _ & _ & _ & _ & E)%cv_inv. unfold dlen. by rewrite E. Qed.

Lemma input_tail_ok R c s a len : rcv_ok R c -> carries a len s -> dlen (c_r c) <= a \/ len = 0 ->
  a + len - dlen (c_r c) <= W -> exists c' s', input_tail env c s = Some (Stop Return c' s') /\ received R a len c c'.
Proof.
  intros K C La Lw. unfold input_tail. destruct (step6_quiet c s) as (c1 & b & -> & E1). cbn [obind].
  pose proof (carries_needoutput a len s b C) as C1.
  destruct (urg_quiet c1 _ (cs_flags _ _ _ C1)) as (c2 & -> & E2). cbn [obind].
  assert (cv (c_r c2) = cv (c_r c)) as E by congruence.
  destruct (input_data_ok R c2 _ a len (rcv_ok_cv _ _ _ E K) C1) as (c3 & s3 & -> & F & H);
    [by rewrite (dlen_cv _ _ E)|by rewrite (dlen_cv _ _ E)|].
  cbn [sbind]. unfold input_fin. rewrite F. cbn [andb sbind]. unfold input_finish. eexists _, _. split; [reflexivity|].
  apply (received_cv R a len _ _ c2 c3); [done|destruct (_ || _); [apply do_output_cv|done]|done].
Qed.

(** The part of the segment that is in the window. *)
Definition in_lo (n a : Z) : Z := Z.max a n.
Definition in_len (n w a len : Z) : Z := Z.min (a + len) (n + w) - in_lo n a.

Lemma recv_range_ext R a len a' len' : (forall o, a <= o < a + len <-> a' <= o < a' + len') ->
  recv_range R a len = recv_range R a' len'.
Proof. intros E. apply set_eq. intros o. rewrite !elem_of_recv_range, E. done. Qed.

(** The checks of an established connection up to the acknowledgement. *)
Definition checks_before (c : conn) (s : seg) : sres :=
  sbind (input_paws env c s) (fun c s => sbind (input_trim_front c s) (fun c s =>
  sbind (input_after_close env c s) (fun c s => sbind (input_trim_back env c s) (fun c s =>
  sbind (input_timestamp env c s) (fun c s => sbind (input_rst env c s) (fun c s => input_syn_ack c s)))))).

(** Outside of fast recovery nothing is sent before the acknowledgement is compared
    with [snd_max]; in recovery it is still not beyond [snd_max] after that. *)
Definition recovery_ok (c : conn) (r : sres) : bool :=
  (t_partialacks (tp_of c) <? 0) ||
  match r with
  | Next c s => negb (SEQ_GT (th_ack (s_th s)) (snd_max (newack_tp (tp_of c) (s_th s))))
  | Stop _ _ _ => true
  end.

(** From the checks to the end. *)
Lemma input_checks_ok R n w c s a len : rcv_ok R c -> ready n w c -> dlen (c_r c) = n -> carries a len s ->
  0 <= w <= 2 ^ 30 -> w <= W -> n - 2 ^ 30 <= a -> a + len <= n + 2 ^ 30 ->
  exists v c' s', obind (Some (input_checks env c s)) (input_tail env) = Some (Stop v c' s') /\
    (received R (in_lo n a) (in_len n w a len) c c' \/
     cv (c_r c') = cv (c_r c) /\ ~ (ack_in_window (tp_of c) (th_ack (s_th s)) = true /\ paws_refuses (tp_of c) (opti s) = false /\
       recovery_ok c (checks_before c s) = true)).
Proof.
  intros K Rd En C Bw Ww Ba Bl. pose proof (cs_pos _ _ _ C) as P. unfold input_checks. rewrite (rd_state _ _ _ Rd).
  change (TCPS_ESTABLISHED =? TCPS_SYN_RECEIVED) with false. cbn [andb].
  destruct (paws_pv c s) as (c1 & E1 & [Ep|[Ep Ts]]); rewrite Ep; cbn [sbind obind].
  2:{ eexists _, _, _. split; [reflexivity|]. right. split; [by apply pv_cv|]. intros (_ & F & _). congruence. }
  destruct (input_trim_front_spec n w c1 s a len (ready_pv _ _ _ _ E1 Rd) C ltac:(lia)) as (c2 & s2 & Ef & E2 & A2 & C2). rewrite Ef.
  cbv zeta in C2. cbn [sbind]. set (k := Z.max 0 (Z.min (n - a) len)) in C2.
  assert (0 <= k <= len /\ (n <= a + k \/ len - k = 0)) as [Bk Ck] by lia.
  rewrite E1 in E2. pose proof (ready_pv _ _ _ _ E2 Rd) as Rd2. rewrite (after_close_next n w) by done. cbn [sbind].
  assert (forall c', received R (a + k) (Z.max 0 (in_len n w a len)) c c' ->
    received R (in_lo n a) (in_len n w a len) c c') as Rcv.
  { intros c' H. unfold received in *.
    rewrite (recv_range_ext R (in_lo n a) (in_len n w a len) (a + k) (Z.max 0 (in_len n w a len))); [done|].
    intros o. unfold in_len, in_lo in *. lia. }
  assert (forall c', cv (c_r c') = cv (c_r c) -> in_len n w a len <= 0 -> received R (in_lo n a) (in_len n w a len) c c') as Nil.
  { intros c' E L. left. rewrite recv_range_nil by done. by eapply rcv_ok_cv. }
  destruct (input_trim_back_spec n w c2 s2 (a + k) (len - k) Rd2 C2 Bw ltac:(lia) ltac:(lia))
    as [(c3 & s3 & Eb & E3 & A3 & C3 & B3)|[Eb B3]]; rewrite Eb; cbn [sbind obind].
  2:{ eexists _, _, _. split; [reflexivity|]. left. apply Nil; [by apply pv_cv|unfold in_len, in_lo; lia]. }
  rewrite E2 in E3. destruct (timestamp_pv c3 s3) as (c4 & Et & E4). rewrite Et. cbn [sbind]. rewrite E3 in E4.
  rewrite rst_next by apply C3. cbn [sbind]. rewrite syn_ack_next by apply C3. cbn [sbind].
  assert (checks_before c s = Next c4 s3) as ->.
  { unfold checks_before. rewrite Ep. cbn [sbind]. rewrite Ef. cbn [sbind]. rewrite (after_close_next n w) by done. cbn [sbind].
    rewrite Eb. cbn [sbind]. rewrite Et. cbn [sbind]. rewrite rst_next by apply C3. cbn [sbind]. by rewrite syn_ack_next by apply C3. }
  set (l3 := Z.max 0 (Z.min (len - k) (n + w - (a + k)))) in C3.
  assert (l3 = Z.max 0 (in_len n w a len)) as L3 by (unfold l3, in_len, in_lo; lia).
  pose proof (ready_pv _ _ _ _ E4 Rd) as Rd4.
  pose proof (input_ack_quiet c4 s3 (rd_state _ _ _ Rd4)) as Q.
  destruct (input_ack env c4 s3) as [c5 s5|v5 c5 s5] eqn:Ea; cbn [obind]; cbn [quiet] in Q.
  - destruct Q as [E5 [b ->]]. assert (cv (c_r c5) = cv (c_r c)) as E by (rewrite E5; by apply pv_cv).
    destruct (input_tail_ok R c5 _ (a + k) l3 (rcv_ok_cv _ _ _ E K) (carries_needoutput _ _ _ b C3))
      as (c6 & s6 & -> & H); rewrite ?(dlen_cv _ _ E), ?En; [lia|lia|].
    eexists _, _, _. split; [reflexivity|]. left. apply Rcv. rewrite <- L3. by eapply received_cv; [| |exact H].
  - eexists _, _, _. split; [reflexivity|]. assert (cv (c_r c5) = cv (c_r c)) as E by (rewrite Q; by apply pv_cv).
    destruct (decide (in_len n w a len <= 0)) as [L|L]; [left; by apply Nil|]. right. split; [done|]. intros (Aw & _ & Rk).
    assert (ack_in_window (tp_of c4) (th_ack (s_th s3)) = true) as Aw4.
    { rewrite A3, A2. unfold ack_in_window. rewrite (pv_max _ _ E4). by destruct (pv_inv _ _ E4) as (_ & _ & -> & -> & _). }
    destruct (input_ack_next c4 s3) as (c' & s' & E'); [apply Rd4| |done| |congruence].
    + apply orb_true_iff in Rk as [Rk%Z.ltb_lt|Rk%negb_true_iff]; [|done]. rewrite <- (pv_partial _ _ E4) in Rk.
      rewrite newack_tp_idle by done. apply andb_prop in Aw4 as [Aw4 _]. by apply negb_true_iff.
    + rewrite (cs_len _ _ _ C3). lia.
Qed.

(** ** Header prediction and the whole function *)

(** The window [input_window] computes. *)
Definition rcv_window (tp : tcpcb) : Z := Z.max (Z.max 0 (s32 (e_rcv_space env))) (s32 (rcv_adv tp - rcv_nxt tp)).

Lemma predict_ack_quiet c s r : predict_ack env c s = Some r -> exists c', r = Stop Return c' s /\ cv (c_r c') = cv (c_r c).
Proof.
  unfold predict_ack. set (acked := s32 _). clearbody acked. destruct (_ <? acked); [done|]. intros [= <-].
  eexists. split; [reflexivity|].
  set (c2 := call _ _). assert (cv (c_r c2) = cv (c_r c)) as E.
  { subst c2. rewrite cv_call. rewrite !cv_upd_all; [rewrite snd_drop_cv; apply cv_upd_all, xmit_rtt_rview|..]; intros tp.
    - apply icmp_check_rview.
    - done.
    - done.
    - by destruct (SEQ_LT _ _).
    - destruct (_ =? _); [apply disarm_rview|]. destruct (negb _); [apply arm_rview|done]. }
  clearbody c2. destruct (drop _ _); [done|]. by rewrite do_output_cv.
Qed.

Lemma autorcvbuf_rview s tp : rview (autorcvbuf env s tp).2 = rview tp.
Proof. unfold autorcvbuf. by repeat case_match. Qed.

Lemma predict_data_ok R c s len : rcv_ok R c -> segq (c_r c) = [] -> carries (dlen (c_r c)) len s ->
  exists c', predict_data env c s = Stop Return c' s /\ rcv_ok (recv_range R (dlen (c_r c)) len) c'.
Proof.
  intros K Eq C. unfold predict_data. rewrite (cs_len _ _ _ C), (carries_data _ _ _ C). set (c1 := upd_tp c _).
  destruct (autorcvbuf env s (tp_of c1)) as [newsize tp] eqn:A. pose proof (autorcvbuf_rview s (tp_of c1)) as Ra. rewrite A in Ra.
  cbn [snd] in Ra. set (c2 := upd_tp c1 _). assert (cv (c_r c2) = cv (c_r c1)) as E2 by (by apply cv_upd_tp).
  clearbody c2. set (c3 := if _ && _ then _ else _).
  assert (cv (c_r c3) = cv (c_r c1)) as E3 by (subst c3; by destruct (_ && _)). clearbody c3.
  eexists. split; [reflexivity|].
  assert (rcv_ok (recv_range R (dlen (c_r c)) len) (deliver c3 (slice S (dlen (c_r c)) len))) as H
    by (eapply deliver_ok; [done|done|apply C|done|done]).
  set (c4 := upd_tp _ _). assert (cv (c_r c4) = cv (c_r (deliver c3 (slice S (dlen (c_r c)) len)))) as E4
    by (apply cv_upd_tp, setup_ack_rview).
  eapply rcv_ok_cv; [|exact H]. destruct (flag_set _ _); [by rewrite do_output_cv|done].
Qed.

(** What is acknowledged of the data sent is in the send buffer. *)
Definition acked_in_buffer (c : conn) (s : seg) : Prop :=
  SEQ_GT (th_ack (s_th s)) (snd_una (tp_of c)) = true -> SEQ_LEQ (th_ack (s_th s)) (snd_max (tp_of c)) = true ->
  s32 (th_ack (s_th s) - snd_una (tp_of c)) <= Z.of_nat (length (so_snd c)).

Lemma xmit_rtt_una s tp : snd_una (xmit_rtt env s tp) = snd_una tp.
Proof. unfold xmit_rtt, tcp_xmit_timer. frame_cases. Qed.

Lemma predict_ack_total c s : s32 (th_ack (s_th s) - snd_una (tp_of c)) <= Z.of_nat (length (so_snd c)) ->
  is_Some (predict_ack env c s).
Proof.
  intros L. unfold predict_ack. cbv zeta. set (c1 := upd_tp c _).
  assert (snd_una (tp_of c1) = snd_una (tp_of c) /\ so_snd c1 = so_snd c) as [-> Eb].
  { unfold c1, upd_tp, tp_of. upd_simpl. split; [apply xmit_rtt_una|done]. }
  rewrite Eb. destruct (Z.ltb_spec (Z.of_nat (length (so_snd c))) (s32 (th_ack (s_th s) - snd_una (tp_of c)))); [lia|by eexists].
Qed.

Lemma input_predict_ok R c s a len : let n := dlen (c_r c) in let w := rcv_window (tp_of c) in
  rcv_ok R c -> carries a len s -> n - 2 ^ 30 <= a -> a + len <= n + 2 ^ 30 -> e_rcv_space env < 2 ^ 31 -> acked_in_buffer c s ->
  (exists c', input_predict env c s = Some (Next c' s) /\ pv c' = pv c /\
     (paws_refuses (tp_of c') (opti s) = true -> paws_refuses (tp_of c) (opti s) = true)) \/
  (exists c', input_predict env c s = Some (Stop Return c' s) /\ received R (in_lo n a) (in_len n w a len) c c').
Proof.
  intros n w K C Ba Bl Bs Ab. pose proof (cs_pos _ _ _ C) as P. unfold input_predict.
  destruct (predicted c s) eqn:Pr; [|left; by exists c].
  assert (a = n) as ->.
  { unfold predicted in Pr. rewrite !andb_true_iff in Pr. destruct Pr as [[[[_ Es%Z.eqb_eq] _] _] _].
    pose proof (su_nxt _ _ _ _ _ _ (proj1 (rk_sim _ _ K))) as En. fold (tp_of c) n in En.
    pose proof (stream_dist _ _ n a En (cs_seq _ _ _ C) ltac:(lia)) as D. rewrite Es, Z.sub_diag in D.
    change (s32 0) with 0 in D. lia. }
  set (c1 := if ts_present (opti s) && _ then _ else _).
  assert (pv c1 = pv c) as E1 by (subst c1; destruct (_ && _); [by apply pv_upd_tp|done]).
  assert (so_snd c1 = so_snd c) as Eb by (subst c1; by destruct (_ && _)).
  assert (paws_refuses (tp_of c1) (opti s) = true -> paws_refuses (tp_of c) (opti s) = true) as Ep.
  { subst c1. destruct (_ && _); [|done]. unfold paws_refuses, upd_tp, tp_of, TSTMP_LT. upd_simpl.
    rewrite Z.sub_diag. change (s32 0 <? 0) with false. by rewrite andb_false_r. }
  clearbody c1. rewrite (cs_len _ _ _ C). unfold in_len, in_lo. rewrite Z.max_id.
  pose proof (pv_inv _ _ E1) as (_ & _ & Eu & _).
  destruct (Z.eqb_spec len 0) as [->|N].
  - destruct (SEQ_GT (th_ack (s_th s)) (snd_una (tp_of c)) && _ && _ && _) eqn:Ga; [right|left; by exists c1].
    rewrite !andb_true_iff in Ga. destruct Ga as [[[Ga1 Ga2] _] _].
    destruct (predict_ack_total c1 s) as [r Er]; [rewrite Eu, Eb; by apply Ab|].
    destruct (predict_ack_quiet c1 s r Er) as (c2 & -> & E2).
    exists c2. split; [done|]. left. rewrite recv_range_nil by (unfold w, rcv_window; lia).
    eapply rcv_ok_cv; [|exact K]. rewrite E2. by apply pv_cv.
  - destruct (_ && _) eqn:Cd; [right|left; by exists c1].
    rewrite !andb_true_iff, bool_decide_eq_true, Z.leb_le in Cd. destruct Cd as [[_ Eq] Ls].
    pose proof (pv_cv _ _ E1) as Ec. pose proof (dlen_cv _ _ Ec) as Ed. fold n in Ed.
    destruct (predict_data_ok R c1 s len) as (c2 & -> & H); [by eapply rcv_ok_cv|done|by rewrite Ed|].
    exists c2. split; [done|]. left. rewrite Ed in H.
    assert (s32 (e_rcv_space env) = e_rcv_space env) as Es by (apply s32_small; lia).
    replace (Z.min (n + len) (n + w) - n) with len by (unfold w, rcv_window; rewrite Es; lia). done.
Qed.

Lemma input_options_run optp c s : is_Some (input_options env optp c s).
Proof.
  destruct optp as [cp|]; [|by eexists]. unfold input_options, tcp_dooptions.
  destruct (dooptions_total (e_now env) (tcp_do_sack env) (s_th s) (Z.to_nat (Z.of_nat (length cp))) (c_sack c, tp_of c, opti s) cp (Z.of_nat (length cp)))
    as [[[g tp] oi] ->]; [done|lia|]. by eexists.
Qed.

(** The options of the segment after parsing. *)
Definition parsed_options (optp : option (list Z)) (c : conn) (s : seg) : tcp_opt_info :=
  match obind (Some (input_received env c s)) (input_options env optp) with
  | Some (Next _ s') | Some (Stop _ _ s') => opti s'
  | None => opti s
  end.

(** The connection and the segment when the acknowledgement is processed; [Stop] if the
    segment does not get there. *)
Definition before_ack (optp : option (list Z)) (c : conn) (s : seg) : sres :=
  default (Next c s) (obind (Some (input_received env c s)) (fun c s => obind (input_options env optp c s) (fun c s =>
    obind (Some (input_ecn env c s)) (fun c s => obind (Some (input_rtt env c s)) (fun c s =>
    obind (input_predict env c s) (fun c s => obind (Some (input_window env c s)) (fun c s => Some (checks_before c s)))))))).

(** Nothing turns the text of the segment away: the time stamp is not old, and
    the acknowledgement is in the window, also after what a partial one makes
    [tcp_output] send. *)
Definition acceptable (optp : option (list Z)) (c : conn) (s : seg) : bool :=
  negb (paws_refuses (tp_of c) (parsed_options optp c s)) && ack_in_window (tp_of c) (th_ack (s_th s)) &&
  recovery_ok c (before_ack optp c s).

Lemma input_window_ready R c s : rcv_ok R c -> exists c', input_window env c s = Next c' s /\ cv (c_r c') = cv (c_r c) /\
  ready (dlen (c_r c)) (rcv_window (tp_of c)) c' /\
  snd_una (tp_of c') = snd_una (tp_of c) /\ max_sndwnd (tp_of c') = max_sndwnd (tp_of c) /\ snd_max (tp_of c') = snd_max (tp_of c) /\
  t_partialacks (tp_of c') = t_partialacks (tp_of c) /\ forall oi, paws_refuses (tp_of c') oi = paws_refuses (tp_of c) oi.
Proof.
  intros [K1 K2 _]. unfold input_window. eexists. split; [reflexivity|]. split; [by apply cv_upd_tp|].
  split; [|unfold paws_refuses, upd_tp, tp_of; by upd_simpl].
  pose proof (su_nxt _ _ _ _ _ _ (proj1 K2)) as En. split; unfold upd_tp, tp_of in *; by upd_simpl.
Qed.

Lemma paws_refuses_tv c c' oi : tview c' = tview c -> paws_refuses (tp_of c') oi = paws_refuses (tp_of c) oi.
Proof. unfold tview, paws_refuses. intros [= -> -> _]. done. Qed.

(** The stages before header prediction. *)
Lemma input_early optp c s : TCPS_HAVERCVDSYN (t_state (tp_of c)) = true -> exists c3 s4,
  (forall k, obind (Some (input_received env c s)) (fun c s => obind (input_options env optp c s) (fun c s =>
     obind (Some (input_ecn env c s)) (fun c s => obind (Some (input_rtt env c s)) k))) = k c3 s4) /\
  pv c3 = pv c /\ tview c3 = tview c /\ s4 = s <| opti := parsed_options optp c s |> <| ts_rtt := ts_rtt s4 |>.
Proof.
  intros Hs. destruct (received_pv c s) as (c1 & Er & E1). pose proof (received_tv c s c1 Er) as T1.
  destruct (input_options_run optp c1 s) as [r Eo]. destruct (options_pv optp c1 s r Eo) as (c2 & oi & -> & E2).
  assert (TCPS_HAVERCVDSYN (t_state (tp_of c1)) = true) as Hs1 by (by destruct (pv_inv _ _ E1) as (-> & _)).
  pose proof (options_tv optp c1 s _ _ Hs1 Eo) as T2. set (s2 := s <| opti := oi |>).
  destruct (ecn_pv c2 s2) as (c3 & Ee & E3). pose proof (ecn_tv c2 s2 c3 Ee) as T3.
  assert (parsed_options optp c s = oi) as Ep by (unfold parsed_options; rewrite Er; cbn [obind]; by rewrite Eo).
  eexists c3, (s2 <| ts_rtt := _ |>). split; [|split; [congruence|split; [congruence|by rewrite Ep]]].
  intros k. rewrite Er. cbn [obind]. rewrite Eo. cbn [obind]. fold s2. rewrite Ee. cbn [obind]. reflexivity.
Qed.

Lemma tcp_input_run R optp c s a len : let n := dlen (c_r c) in let w := rcv_window (tp_of c) in
  rcv_ok R c -> carries a len s -> w <= 2 ^ 30 -> w <= W -> e_rcv_space env < 2 ^ 31 ->
  n - 2 ^ 30 <= a -> a + len <= n + 2 ^ 30 -> acked_in_buffer c s ->
  exists c', tcp_input_conn env optp c s = Some c' /\
    (received R (in_lo n a) (in_len n w a len) c c' \/
     cv (c_r c') = cv (c_r c) /\ acceptable optp c s = false).
Proof.
  intros n w K C Bw Ww Bs Ba Bl Ab. unfold acceptable, before_ack, tcp_input_conn, tcp_input.
  destruct (input_early optp c s) as (c3 & s4 & Ee & E3 & T3 & Es4); [by rewrite (rk_state _ _ K)|].
  rewrite !Ee. clear Ee. assert (s_th s4 = s_th s) as Eth by (by rewrite Es4).
  assert (carries a len s4) as C4 by (rewrite Es4; by apply (carries_ext a len s)).
  pose proof (pv_cv _ _ E3) as Ec3. pose proof (dlen_cv _ _ Ec3) as Ed3. fold n in Ed3.
  pose proof (pv_inv _ _ E3) as (_ & En3 & Eu3 & _ & _ & Ea3).
  assert (rcv_window (tp_of c3) = w) as Ew3 by (unfold w, rcv_window; by rewrite En3, Ea3).
  destruct (input_predict_ok R c3 s4 a len) as [(c5 & -> & E5 & P5)|(c5 & -> & H)];
    [by eapply rcv_ok_cv|done|lia|lia|done| | |]; cbn [obind].
  { unfold acked_in_buffer. rewrite Eth, Eu3, (pv_max _ _ E3). unfold tview in T3. injection T3 as _ _ ->. exact Ab. }
  2:{ eexists. split; [reflexivity|]. left. rewrite Ed3, Ew3 in H. by eapply received_cv; [| |exact H]. }
  rewrite E3 in E5. unfold input_slow. pose proof (pv_cv _ _ E5) as Ec5.
  destruct (input_window_ready R c5 s4 (rcv_ok_cv _ _ _ Ec5 K)) as (c6 & -> & E6 & Rd & Eu & Em & Ex & Ec & Ep6). cbn [obind default].
  pose proof (pv_inv _ _ E5) as (_ & En5 & Eu5 & Em5 & _ & Ea5).
  assert (rcv_window (tp_of c5) = w) as Ew5 by (unfold w, rcv_window; by rewrite En5, Ea5).
  rewrite Ew5, (dlen_cv _ _ Ec5) in Rd. fold n in Rd. rewrite Ec5 in E6.
  rewrite (rd_state _ _ _ Rd). change (TCPS_ESTABLISHED =? TCPS_SYN_SENT) with false. cbv iota.
  destruct (input_checks_ok R n w c6 s4 a len (rcv_ok_cv _ _ _ E6 K) Rd) as (v & c7 & s7 & Ek & H);
    [by apply dlen_cv|done|split; [unfold w, rcv_window; lia|done]|done|done|done|].
  cbn [obind] in Ek. rewrite Ek. clear Ek.
  eexists. split; [reflexivity|]. destruct H as [H|[E7 H]]; [left|right].
  - eapply received_cv; [| |exact H]; [done|by apply finish_cv].
  - rewrite finish_cv, E7 by done. split; [done|]. apply not_true_is_false. rewrite !andb_true_iff, negb_true_iff. intros [[Ap Aw] Rk]. apply H. split_and!.
    + unfold ack_in_window in *. by rewrite Eth, Eu, Em, Ex, Eu5, Em5, (pv_max _ _ E5).
    + apply not_true_is_false. rewrite Ep6. intros Hp%P5. rewrite (paws_refuses_tv c c3) in Hp by done.
      rewrite Es4 in Hp. upd_simpl in Hp. congruence.
    + unfold recovery_ok in *. by rewrite Ec, (pv_partial _ _ E5).
Qed.
End receive.

(** A segment of the stream arrives near the window: its text begins at offset
    [a] of the stream, at most 2^30 from what is expected. *)
Record arrives (S : Z -> Z) (irs : Z) (env : tenv) (c : conn) (s : seg) (a : Z) : Prop := {
  ar_out : output_keeps_rcv (tcp_output env);
  ar_carries : carries S irs a (tlen s) s;
  ar_acked : acked_in_buffer c s;
  ar_wnd : rcv_window env (tp_of c) <= 2 ^ 30;
  ar_space : e_rcv_space env < 2 ^ 31;
  ar_lo : dlen (c_r c) - 2 ^ 30 <= a;
  ar_hi : a + tlen s <= dlen (c_r c) + 2 ^ 30
}.

(** The offsets of the segment that lie in the window. *)
Definition in_window (env : tenv) (R : gset Z) (c : conn) (s : seg) (a : Z) : gset Z :=
  recv_range R (in_lo (dlen (c_r c)) a) (in_len (dlen (c_r c)) (rcv_window env (tp_of c)) a (tlen s)).

Section stream.
Context (S : Z -> Z) (irs : Z) (objs : list addr).
Hypothesis objs_nodup : NoDup objs.
Hypothesis objs_int : Z.of_nat (length objs) < 2 ^ 31.

Lemma tcp_input_step env R optp c s a : rcv_ok S irs (2 ^ 30) objs R c -> arrives S irs env c s a ->
  exists c', tcp_input_conn env optp c s = Some c' /\
    (rcv_ok S irs (2 ^ 30) objs (in_window env R c s a) c' \/
     rcv_ok S irs (2 ^ 30) objs R c' /\
     (acceptable env optp c s = false \/ mempool (tcpipqent_pool (c_r c)) = [])).
Proof.
  intros K [Ho C Ab W1 W2 L H].
  destruct (tcp_input_run env Ho S irs (2 ^ 30) objs ltac:(lia) objs_nodup objs_int R optp c s a (tlen s) K C W1 W1 W2 L H Ab)
    as (c' & E & [[Rc|[Em Rc]]|[Ec N]]); exists c'; (split; [done|]).
  - by left.
  - right. auto.
  - right. split; [by eapply rcv_ok_cv|auto].
Qed.

Lemma rcv_ok_prefix W R c : rcv_ok S irs W objs R c -> so_rcv (c_r c) = slice S 0 (first_missing R).
Proof. intros [_ K _]. exact (reass_sim_prefix S irs W objs _ _ K). Qed.

(** A connection is fed a sequence of segments, in any order; [sent] are the
    offsets they carry. *)
Inductive fed (c : conn) : gset Z -> conn -> Prop :=
  | fed_none : fed c ∅ c
  | fed_one sent c1 c2 env optp s a : fed c sent c1 -> arrives S irs env c1 s a ->
      tcp_input_conn env optp c1 s = Some c2 -> fed c (recv_range sent a (tlen s)) c2.

Lemma fed_ok R c sent c' : rcv_ok S irs (2 ^ 30) objs R c -> fed c sent c' ->
  exists R', R ⊆ R' /\ R' ⊆ R ∪ sent /\ rcv_ok S irs (2 ^ 30) objs R' c'.
Proof.
  intros K. induction 1 as [|sent c1 c2 env optp s a F (R1 & L1 & L2 & K1) A E]; [by exists R; split; [|split; [set_solver|]]|].
  destruct (tcp_input_step env R1 optp c1 s a K1 A) as (c' & E' & H). rewrite E in E'. simplify_eq E'. intros <-.
  destruct H as [H|[H _]]; [exists (in_window env R1 c1 s a)|exists R1]; (split; [|split; [|done]]).
  - intros o Ho. unfold in_window. rewrite elem_of_recv_range. left. by apply L1.
  - intros o. unfold in_window. rewrite elem_of_union, !elem_of_recv_range. intros [Ho|Ho].
    + apply L2, elem_of_union in Ho as [?|?]; auto.
    + right. right. unfold in_len, in_lo in Ho. lia.
  - done.
  - intros o Ho. apply L2 in Ho. rewrite elem_of_union, elem_of_recv_range in *. tauto.
Qed.
End stream.

(** C1. The receive path of [tcp_input], end to end: an established connection
    that holds exactly the offsets [R] of the peer's stream takes any plain
    segment of the stream (ACK, no SYN, FIN, RST or URG) near the window, with
    any option bytes, through header prediction or the slow path.  The call
    returns, and the connection then holds [R] and the offsets of the segment
    that lie between [rcv_nxt] and the end of the window; it holds [R] as before
    only if the time stamp among the options fails the check against wrapped
    sequence numbers, if the acknowledgement is beyond what was sent or older
    than the largest window (in fast recovery: if [tcp_output], called for a
    partial acknowledgement, leaves [snd_max] such that it is), or if the pool of
    queue entries is empty.  In all cases the socket has the stream up to the first missing byte. *)
Theorem tcp_input_receives S irs objs env R optp c s a :
  NoDup objs -> Z.of_nat (length objs) < 2 ^ 31 ->
  rcv_ok S irs (2 ^ 30) objs R c -> arrives S irs env c s a ->
  exists c' R', tcp_input_conn env optp c s = Some c' /\ rcv_ok S irs (2 ^ 30) objs R' c' /\
    so_rcv (c_r c') = slice S 0 (first_missing R') /\
    (R' = in_window env R c s a \/
     R' = R /\ (acceptable env optp c s = false \/ mempool (tcpipqent_pool (c_r c)) = [])).
Proof.
  intros No Io K A. destruct (tcp_input_step S irs objs No Io env R optp c s a K A) as (c' & E & [H|[H N]]).
  - exists c', (in_window env R c s a). pose proof (rcv_ok_prefix _ _ _ _ _ _ H). split_and!; auto.
  - exists c', R. pose proof (rcv_ok_prefix _ _ _ _ _ _ H). split_and!; auto.
Qed.

(** C20. Safety of the receive path over whole runs: whatever plain segments of
    the peer's stream (ACK, no SYN, FIN, RST or URG, at most 2^30 from the window
    and acknowledging data of the send buffer) arrive, in any order and with any
    options, loss, overlap or duplication, the bytes the socket is given are
    always a prefix of the stream, and none that no segment carried. *)
Theorem tcp_input_prefix S irs objs R c sent c' :
  NoDup objs -> Z.of_nat (length objs) < 2 ^ 31 ->
  rcv_ok S irs (2 ^ 30) objs R c -> fed S irs c sent c' ->
  exists n, so_rcv (c_r c') = slice S 0 n /\ first_missing R <= n /\ forall o, 0 <= o < n -> o ∈ R ∪ sent.
Proof.
  intros No Io K F. destruct (fed_ok S irs objs No Io R c sent c' K F) as (R' & L1 & L2 & K').
  exists (first_missing R'). split; [by eapply rcv_ok_prefix|]. split; [by apply first_missing_mono|].
  intros o Ho. by apply L2, first_missing_below.
Qed.

(** ** A run *)

Definition ex_env : tenv :=
  mkEnv (fun tp => tp) 1000 100 1000 (mkAbc true 1) (false, 30, 2) false 20 7 9 true true false 0 0
    262144 65536 0 65536 false 65536 true false None true false false 0 536 0 0 false false 60 60 60.

Definition ex_conn : conn := mkConn ex_rconn ex_globals 0 0 [] 0 true [].

(** A segment of [len] bytes from offset [a] of the stream, behind 40 bytes
    of headers. *)
Definition ex_seg (a len : Z) : seg :=
  mkSeg (mkTcphdr (u32 (2 ^ 32 - 2 + a)) 0 (Z.lor TH_ACK TH_PUSH)) 0 (Z.lor TH_ACK TH_PUSH) 5000 len
    (repeat 0 40 ++ slice ex_stream a len) 40 (mkOpt false 0 0 0) 0 0 false false.

Lemma ex_conn_receiving : rcv_ok ex_stream (2 ^ 32 - 2) (2 ^ 30) [1; 2]%positive ∅ ex_conn.
Proof. split; [done| |constructor]. apply reass_sim_init; done. Qed.

Lemma ex_arrives a len : 0 <= a <= 2 ^ 20 -> 0 <= len <= 2 ^ 20 ->
  arrives ex_stream (2 ^ 32 - 2) ex_env ex_conn (ex_seg a len) a.
Proof.
  intros Ba Bl. split.
  - by intros tp.
  - split; try done; [simpl; lia|by exists (repeat 0 40)].
  - intros H. exfalso. revert H. by vm_compute.
  - by vm_compute.
  - by vm_compute.
  - change (dlen (c_r ex_conn)) with 0. lia.
  - change (dlen (c_r ex_conn)) with 0. change (tlen (ex_seg a len)) with len. lia.
Qed.

(** NOP, NOP and a time stamp. *)
Definition ex_optp : option (list Z) := Some [1; 1; 8; 10; 0; 0; 0; 9; 0; 0; 0; 0].

Lemma tcp_input_receives_witness :
  (exists c' R', tcp_input_conn ex_env ex_optp ex_conn (ex_seg 5 4) = Some c' /\
    rcv_ok ex_stream (2 ^ 32 - 2) (2 ^ 30) [1; 2]%positive R' c' /\
    so_rcv (c_r c') = slice ex_stream 0 (first_missing R') /\
    (R' = in_window ex_env ∅ ex_conn (ex_seg 5 4) 5 \/
     R' = ∅ /\ (acceptable ex_env ex_optp ex_conn (ex_seg 5 4) = false \/ mempool (tcpipqent_pool (c_r ex_conn)) = []))) /\
  acceptable ex_env ex_optp ex_conn (ex_seg 5 4) = true.
Proof.
  split; [|by vm_compute].
  apply (tcp_input_receives ex_stream (2 ^ 32 - 2) [1; 2]%positive ex_env).
  - apply (bool_decide_unpack _). by vm_compute.
  - simpl. lia.
  - apply ex_conn_receiving.
  - apply ex_arrives; lia.
Defined.

Definition ex_after (a len : Z) : conn := default ex_conn (tcp_input_conn ex_env None ex_conn (ex_seg a len)).

Lemma tcp_input_prefix_witness :
  exists n, so_rcv (c_r (ex_after 0 3)) = slice ex_stream 0 n /\ first_missing ∅ <= n /\
    forall o, 0 <= o < n -> o ∈ (∅ ∪ recv_range ∅ 0 3 : gset Z).
Proof.
  apply (tcp_input_prefix ex_stream (2 ^ 32 - 2) [1; 2]%positive ∅ ex_conn).
  - apply (bool_decide_unpack _). by vm_compute.
  - simpl. lia.
  - apply ex_conn_receiving.
  - apply (fed_one _ _ _ ∅ ex_conn _ ex_env None (ex_seg 0 3)); [constructor|apply ex_arrives; lia|].
    vm_compute. done.
Defined.

(** Two segments in the wrong order, the second overlapping the first; the
    answer to the first is an immediate acknowledgement. *)
Example tcp_input_out_of_order :
  match tcp_input_conn ex_env None ex_conn (ex_seg 5 4) with
  | Some c =>
      so_rcv (c_r c) = [] /\ c_calls c = [ICOutput] /\
      match tcp_input_conn ex_env None c (ex_seg 0 7) with
      | Some c => so_rcv (c_r c) = slice ex_stream 0 9 /\ rcv_nxt (tp_of c) = 7 /\ segq (c_r c) = []
      | None => False
      end
  | None => False
  end.
Proof. by vm_compute. Qed.
