(* ===== verification/TcpInputState.v ===== *)
(** * The connection states of [tcp_input]

    Every call moves the state of the connection along the arrows of the TCP
    state diagram; a reset closes a connection only at the expected sequence
    number; closing gives everything back. *)

From S2P Require Import Prelude Pool TcpSeq Callout Tcpcb TcpSack TcpSackFacts TcpCongctl TcpTimer MbufFacts.
From S2P Require Import SockState TcpOptions TcpReass TcpReassFacts TcpInput TcpInputFacts TcpInputStream.

(** ** The state diagram *)

(** The arrows a segment can take: the acknowledgement of a SYN, a SYN, a FIN,
    the acknowledgement of a FIN and a reset. *)
Inductive tcp_edge : Z -> Z -> Prop :=
  | edge_syn_acked : tcp_edge TCPS_SYN_SENT TCPS_ESTABLISHED
  | edge_simultaneous : tcp_edge TCPS_SYN_SENT TCPS_SYN_RECEIVED
  | edge_accepted : tcp_edge TCPS_SYN_RECEIVED TCPS_ESTABLISHED
  | edge_fin : tcp_edge TCPS_ESTABLISHED TCPS_CLOSE_WAIT
  | edge_fin_closing : tcp_edge TCPS_FIN_WAIT_1 TCPS_CLOSING
  | edge_fin_time_wait : tcp_edge TCPS_FIN_WAIT_2 TCPS_TIME_WAIT
  | edge_fin_acked : tcp_edge TCPS_FIN_WAIT_1 TCPS_FIN_WAIT_2
  | edge_closing_acked : tcp_edge TCPS_CLOSING TCPS_TIME_WAIT
  | edge_reset st : st ∈ [TCPS_SYN_RECEIVED; TCPS_ESTABLISHED; TCPS_FIN_WAIT_1; TCPS_FIN_WAIT_2; TCPS_CLOSE_WAIT] ->
      tcp_edge st TCPS_CLOSED.

Definition cstate (c : conn) : Z := t_state (tp_of c).

Definition fsm_res (c : conn) (r : sres) : Prop :=
  match r with Next c' _ | Stop _ c' _ => rtc tcp_edge (cstate c) (cstate c') end.

Lemma cstate_upd c f : (forall tp, rview (f tp) = rview tp) -> cstate (upd_tp c f) = cstate c.
Proof. intros E. unfold cstate, tp_of. by destruct (cv_inv _ _ (cv_upd_all c f E)) as (-> & _). Qed.

Lemma cstate_cv c c' : cv (c_r c') = cv (c_r c) -> cstate c' = cstate c.
Proof. by intros (E & _)%cv_inv. Qed.

Lemma fsm_bind c r k : fsm_res c r -> (forall c' s', r = Next c' s' -> fsm_res c' (k c' s')) -> fsm_res c (sbind r k).
Proof.
  destruct r as [c' s'|v c' s']; simpl; [|done]. intros H K. specialize (K c' s' eq_refl).
  destruct (k c' s'); simpl in *; by etrans.
Qed.

Lemma fsm_same c r : (match r with Next c' _ | Stop _ c' _ => cstate c' = cstate c end) -> fsm_res c r.
Proof. by destruct r; intros E; simpl; rewrite E. Qed.

Lemma removehole_rview g tp i c g' tp' : sack_removehole g tp i = (c, g', tp') -> rview tp' = rview tp.
Proof. intros E. by apply sack_frame_rview, (sack_removehole_frame _ _ _ _ _ _ E). Qed.

Lemma free_sackholes_rview hs : forall g tp, rview (free_sackholes_loop g tp hs).2 = rview tp.
Proof.
  induction hs as [|h hs IH]; intros g tp; simpl; [done|].
  destruct (sack_removehole g tp 0) as [[c g'] tp'] eqn:E. rewrite IH. by eapply removehole_rview.
Qed.

Lemma tcp_free_sackholes_rview g tp g' tp' : tcp_free_sackholes g tp = (g', tp') -> rview tp' = rview tp.
Proof. intros E. rewrite <- (free_sackholes_rview (snd_holes tp) g tp). unfold tcp_free_sackholes in E. by rewrite E. Qed.

Lemma freeq_loop_tp qs : forall st, r_tp (freeq_loop qs st) = r_tp st.
Proof. induction qs as [|q qs IH]; intros st; simpl; [done|]. by rewrite IH. Qed.

Lemma save_metrics_same env c :
  c_r (save_metrics env c) = c_r c /\ c_sack (save_metrics env c) = c_sack c /\ so_error (save_metrics env c) = so_error c.
Proof. unfold save_metrics. destruct (e_rt env); [|done]. by destruct (_ && _). Qed.

(** The parts of a closed connection, from the two routines that empty it. *)
Lemma tcp_close_fields env c g tp : tcp_free_sackholes (c_sack c) (r_tp (tcp_freeq (c_r c))) = (g, tp) ->
  let c' := tcp_close env c in
  segq (c_r c') = segq (tcp_freeq (c_r c)) /\ timeq (c_r c') = timeq (tcp_freeq (c_r c)) /\
  tcpipqent_pool (c_r c') = tcpipqent_pool (tcp_freeq (c_r c)) /\ c_sack c' = g /\ t_segqlen (tp_of c') = t_segqlen tp /\
  snd_holes (tp_of c') = snd_holes tp /\ t_flags (tp_of c') = Z.lor (t_flags tp) TF_DEAD /\ c_alive c' = false /\
  t_state (tp_of c') = t_state tp /\ so_error c' = so_error c.
Proof.
  intros E. unfold tcp_close. destruct (save_metrics_same env c) as (E1 & E2 & E3). revert E1 E2 E3.
  generalize (save_metrics env c). intros c1 E1 E2 E3. unfold tp_of. upd_simpl. rewrite E1, E2, E, <- E3.
  generalize (tcp_freeq (c_r c)). intros r.
  pose (K := fun x : conn => (segq (c_r x), timeq (c_r x), tcpipqent_pool (c_r x), c_sack x, so_error x)).
  pose (V := fun x : conn => (t_segqlen (r_tp (c_r x)), snd_holes (r_tp (c_r x)), t_state (r_tp (c_r x)))).
  set (c2 := upd_tp _ (fun _ => tp)).
  assert (K c2 = (segq r, timeq r, tcpipqent_pool r, g, so_error c1) /\ r_tp (c_r c2) = tp) as [K2 T2] by done. clearbody c2.
  set (c3 := upd_tp (call _ _) _). assert (K c3 = K c2 /\ V c3 = V c2 /\ t_flags (r_tp (c_r c3)) = Z.lor (t_flags (r_tp (c_r c2))) TF_DEAD)
    as (K3 & V3 & F3) by done. clearbody c3.
  set (c4 := if t_inpcb tp then _ else _).
  assert (K c4 = K c3 /\ r_tp (c_r c4) = r_tp (c_r c3)) as [K4 T4] by (subst c4; by destruct (t_inpcb tp)). clearbody c4.
  set (c5 := upd_tp _ _). assert (K c5 = K c4 /\ V c5 = V c4 /\ t_flags (r_tp (c_r c5)) = t_flags (r_tp (c_r c4)))
    as (K5 & V5 & F5) by done. clearbody c5.
  assert (K c5 = (segq r, timeq r, tcpipqent_pool r, g, so_error c1)) as K6 by congruence.
  assert (V c5 = (t_segqlen tp, snd_holes tp, t_state tp)) as V6 by (rewrite V5; unfold V at 1; rewrite T4; fold (V c3); rewrite V3; unfold V; by rewrite T2).
  assert (t_flags (r_tp (c_r c5)) = Z.lor (t_flags tp) TF_DEAD) as F6 by congruence.
  clear - K6 V6 F6. unfold K in K6. unfold V in V6. unfold call. upd_simpl. split_and!; congruence.
Qed.

Lemma tcp_freeq_state r : t_state (r_tp (tcp_freeq r)) = t_state (r_tp r).
Proof. unfold tcp_freeq. upd_simpl. by rewrite freeq_loop_tp. Qed.

Lemma tcp_close_state env c : cstate (tcp_close env c) = cstate c.
Proof.
  destruct (tcp_free_sackholes (c_sack c) (r_tp (tcp_freeq (c_r c)))) as [g tp] eqn:F.
  destruct (tcp_close_fields env c g tp F) as (_ & _ & _ & _ & _ & _ & _ & _ & E & _). unfold cstate. rewrite E.
  pose proof (f_equal (fun x => x.1.1) (tcp_free_sackholes_rview _ _ _ _ F)) as R. cbn [fst rview] in R.
  rewrite R. apply tcp_freeq_state.
Qed.

Lemma tcp_close_alive env c : c_alive (tcp_close env c) = false /\ so_error (tcp_close env c) = so_error c.
Proof.
  destruct (tcp_free_sackholes (c_sack c) (r_tp (tcp_freeq (c_r c)))) as [g tp] eqn:F.
  by destruct (tcp_close_fields env c g tp F) as (_ & _ & _ & _ & _ & _ & _ & E & _ & E').
Qed.

Section fsm.
Context (env : tenv) (Hout : output_keeps_rcv (tcp_output env)).

Lemma do_output_state c : cstate (do_output env c) = cstate c.
Proof. apply cstate_cv, do_output_cv, Hout. Qed.

Lemma finish_state v c s : cstate (finish env v c s) = cstate c.
Proof. apply cstate_cv, finish_cv, Hout. Qed.

Lemma received_state c s : fsm_res c (input_received env c s).
Proof. destruct (received_pv env c s) as (c' & -> & E). apply fsm_same, cstate_cv, pv_cv, E. Qed.

Lemma ecn_state c s : fsm_res c (input_ecn env c s).
Proof. destruct (ecn_pv env c s) as (c' & -> & E). apply fsm_same, cstate_cv, pv_cv, E. Qed.

Lemma options_state optp c s r : input_options env optp c s = Some r -> fsm_res c r.
Proof. intros (c' & oi & -> & E)%options_pv. apply fsm_same, cstate_cv, pv_cv, E. Qed.

Lemma predict_data_state c s : fsm_res c (predict_data env c s).
Proof.
  unfold predict_data. set (c1 := upd_tp c _).
  destruct (autorcvbuf env s (tp_of c1)) as [newsize tp] eqn:A. pose proof (autorcvbuf_rview env s (tp_of c1)) as R.
  rewrite A in R. cbn [snd] in R. apply fsm_same.
  assert (cstate c1 = cstate c) as <- by done. set (c2 := upd_tp c1 _).
  assert (cstate c2 = cstate c1) as <- by (by apply cstate_cv, cv_upd_tp). clearbody c2.
  set (c3 := if _ && _ then _ else _). assert (cstate c3 = cstate c2) as <- by (subst c3; by destruct (_ && _)).
  clearbody c3. set (c4 := deliver c3 _).
  assert (cstate c4 = cstate c3) as <- by (subst c4; unfold deliver, cstate, tp_of; upd_simpl; by destruct (flag_set _ _)).
  clearbody c4. set (c5 := upd_tp c4 _). assert (cstate c5 = cstate c4) as <- by (apply cstate_upd; intros; apply setup_ack_rview).
  destruct (flag_set _ _); [apply do_output_state|done].
Qed.

Lemma predict_state c s r : input_predict env c s = Some r -> fsm_res c r.
Proof.
  unfold input_predict. destruct (predicted c s); [|intros [= <-]; by apply fsm_same]. set (c1 := if ts_present _ && _ then _ else _).
  assert (cstate c1 = cstate c) as E by (subst c1; by destruct (_ && _)). clearbody c1.
  destruct (tlen s =? 0); (destruct (_ && _); [|intros [= <-]; by apply fsm_same]).
  - intros (c2 & -> & E2)%predict_ack_quiet; [|done]. apply fsm_same. rewrite <- E. by apply cstate_cv.
  - intros [= <-]. pose proof (predict_data_state c1 s) as P. destruct (predict_data env c1 s); simpl in *; by rewrite <- E.
Qed.

Lemma window_state c s : fsm_res c (input_window env c s).
Proof. apply fsm_same. by apply cstate_upd. Qed.

(** ** The handshake *)

Lemma mss_from_peer_state c offer : cstate (tcp_mss_from_peer env c offer) = cstate c.
Proof.
  unfold tcp_mss_from_peer. set (c1 := upd_tp c _). assert (cstate c1 = cstate c) as <- by done. clearbody c1.
  set (mss := _ - e_ip_optlen env). set (bufsize := if _ =? 0 then _ else _). clearbody mss bufsize.
  destruct (bufsize <? mss); destruct (rmx env rmx_ssthresh =? 0); done.
Qed.

Lemma rmx_rtt_rview tp : rview (tcp_rmx_rtt env tp) = rview tp.
Proof.
  unfold tcp_rmx_rtt. destruct (e_rt env) as [rt|]; [|done]. destruct (_ && _); [|done].
  repeat case_match; done.
Qed.

Lemma syn_acked_rview s tp : rview (syn_acked env s tp) = rview tp.
Proof.
  unfold syn_acked, or_flags. set (tp1 := if SEQ_LT (snd_nxt _) _ then _ else _).
  assert (rview tp1 = rview tp) as <- by (subst tp1; by destruct (SEQ_LT _ _)). clearbody tp1.
  set (tp2 := if SEQ_LT _ _ then _ else _).
  assert (rview tp2 = rview tp1) as <- by (subst tp2; by destruct (SEQ_LT _ _)). clearbody tp2.
  rewrite <- (disarm_rview tp2 TCPT_REXMT). by destruct (_ && _).
Qed.

Lemma established_state c : cstate (tcp_established env c) = TCPS_ESTABLISHED.
Proof.
  unfold tcp_established. set (c1 := upd_tp (upd_tp c _) _). assert (cstate c1 = TCPS_ESTABLISHED) as E by done.
  clearbody c1. set (c2 := upd_tp c1 _). assert (cstate c2 = cstate c1) as E2 by (apply cstate_upd; intros; apply arm_rview).
  clearbody c2. destruct (_ <? _); unfold call, cstate, tp_of in *; upd_simpl; congruence.
Qed.

Lemma soisconnected_state c : cstate (soisconnected c) = cstate c.
Proof. reflexivity. Qed.

Lemma do_scaling_rview tp : rview (do_scaling tp) = rview tp.
Proof. unfold do_scaling. by destruct (_ =? _). Qed.

Lemma reass_present_state c : cstate (reass_present c) = cstate c.
Proof. unfold reass_present, cstate, tp_of. upd_simpl. apply tcp_reass_state. Qed.

Lemma syn_received_state s c : cstate (syn_received env s c) = cstate c.
Proof.
  unfold syn_received. rewrite cstate_upd by apply rmx_rtt_rview.
  rewrite cstate_upd by (intros tp; by destruct (flag_set _ _)). rewrite mss_from_peer_state. done.
Qed.

Lemma syn_sent_state c s : cstate c = TCPS_SYN_SENT -> fsm_res c (input_syn_sent env c s).
Proof.
  intros E. unfold input_syn_sent. destruct (bad_ack _ _); [by apply fsm_same|].
  destruct (flag_set (tiflags s) TH_RST).
  { destruct (flag_set _ TH_ACK); [|by apply fsm_same]. unfold drop_unsynchronized.
    destruct (t_inpcb _); [|by apply fsm_same]. apply fsm_same. by rewrite tcp_close_state. }
  destruct (negb _); [by apply fsm_same|].
  destruct (flag_set (tiflags s) TH_ACK); cbn [fsm_res]; rewrite E.
  - set (c1 := reass_present _). assert (cstate c1 = TCPS_ESTABLISHED) as E1.
    { subst c1. rewrite reass_present_state, cstate_upd by apply do_scaling_rview.
      rewrite soisconnected_state. apply established_state. }
    clearbody c1. rewrite !cstate_upd, E1; [apply rtc_once; constructor|..]; intros tp; [|done].
    destruct (_ =? 0); [done|apply xmit_timer_rview].
  - set (c1 := syn_received env s c). clearbody c1. rewrite cstate_upd by done. apply rtc_once. constructor.
Qed.

(** ** The checks *)

Lemma drop_front_state c s k : fsm_res c (drop_front c s k).
Proof. apply fsm_same. apply cstate_upd. intros. apply dsack_rview. Qed.

Lemma trim_front_state c s : fsm_res c (input_trim_front c s).
Proof.
  unfold input_trim_front. destruct (_ <? _); [|by apply fsm_same]. destruct (trim_syn _ _) as [s1 k].
  destruct (_ || _).
  - destruct (flag_set _ _); [by apply fsm_same|]. set (c1 := upd_tp c _).
    pose proof (drop_front_state c1) as D. assert (cstate c1 = cstate c) as E by (by apply cstate_upd).
    unfold fsm_res in D. rewrite E in D. apply D.
  - destruct (_ && _); [by apply fsm_same|apply drop_front_state].
Qed.

Lemma after_close_state c s : fsm_res c (input_after_close env c s).
Proof. unfold input_after_close. destruct (_ && _); apply fsm_same; [apply tcp_close_state|done]. Qed.

Lemma trim_back_state c s : fsm_res c (input_trim_back env c s).
Proof.
  unfold input_trim_back. repeat case_match; apply fsm_same;
    try done; apply tcp_close_state || by apply cstate_upd.
Qed.

Lemma rst_state c s : fsm_res c (input_rst env c s).
Proof.
  unfold input_rst. destruct (flag_set _ _); [|by apply fsm_same]. destruct (negb _); [by apply fsm_same|].
  assert (forall errno, cstate c ∈ [TCPS_SYN_RECEIVED; TCPS_ESTABLISHED; TCPS_FIN_WAIT_1; TCPS_FIN_WAIT_2; TCPS_CLOSE_WAIT] ->
    fsm_res c (Stop Drop (tcp_close env (upd_tp (c <| so_error := errno |>) (fun tp => tp <| t_state := TCPS_CLOSED |>))) s)) as K.
  { intros errno H. cbn [fsm_res]. rewrite tcp_close_state. by apply rtc_once, (edge_reset (cstate c)). }
  fold (cstate c). destruct (Z.eqb_spec (cstate c) TCPS_SYN_RECEIVED) as [E|]; [apply K; rewrite E; set_solver|].
  destruct (_ || _ || _ || _) eqn:O.
  - apply K. rewrite !orb_true_iff, !Z.eqb_eq in O. destruct O as [[[E|E]|E]|E]; rewrite E; set_solver.
  - clear O. destruct (_ || _ || _); apply fsm_same; [apply tcp_close_state|done].
Qed.

Lemma syn_ack_state c s : fsm_res c (input_syn_ack c s).
Proof. unfold input_syn_ack. repeat case_match; by apply fsm_same. Qed.

Lemma paws_state c s : fsm_res c (input_paws env c s).
Proof. destruct (paws_pv env c s) as (c' & E & [->|[-> _]]); apply fsm_same, cstate_cv, pv_cv, E. Qed.

Lemma timestamp_state c s : fsm_res c (input_timestamp env c s).
Proof. destruct (timestamp_pv env c s) as (c' & -> & E). apply fsm_same, cstate_cv, pv_cv, E. Qed.

(** ** Acknowledgements *)

Lemma quiet_state c s r : quiet c s r -> fsm_res c r.
Proof. intros Q. apply fsm_same. destruct r; [destruct Q as [Q _]|]; by apply cstate_cv. Qed.

Lemma ack_syn_received_state c s : fsm_res c (ack_syn_received env c s).
Proof.
  unfold ack_syn_received. fold (cstate c). destruct (Z.eqb_spec (cstate c) TCPS_SYN_RECEIVED) as [E|]; [|by apply fsm_same].
  destruct (_ || _); [by apply fsm_same|]. cbn [fsm_res]. rewrite cstate_upd by done.
  rewrite reass_present_state, cstate_upd by apply do_scaling_rview. rewrite established_state, E.
  apply rtc_once. constructor.
Qed.

Lemma time_wait_state c : cstate (time_wait env c) = TCPS_TIME_WAIT.
Proof.
  unfold time_wait, soisdisconnected, upd_so_state. set (c1 := upd_tp _ _).
  assert (cstate c1 = TCPS_TIME_WAIT) as E by (subst c1; by rewrite !cstate_upd by (intros; apply arm_rview || apply cancel_rview)).
  clearbody c1. unfold call, cstate, tp_of in *. by upd_simpl.
Qed.

Lemma ack_state_state fin c s : fsm_res c (ack_state env fin c s).
Proof.
  unfold ack_state. fold (cstate c). destruct (Z.eqb_spec (cstate c) TCPS_FIN_WAIT_1) as [E|].
  { destruct fin; [|by apply fsm_same]. cbn [fsm_res]. rewrite E. apply rtc_once, edge_fin_acked. }
  destruct (Z.eqb_spec (cstate c) TCPS_CLOSING) as [E|].
  { destruct fin; [|by apply fsm_same]. cbn [fsm_res]. rewrite time_wait_state, E. apply rtc_once. constructor. }
  destruct (Z.eqb_spec (cstate c) TCPS_LAST_ACK) as [E|].
  { destruct fin; apply fsm_same; [apply tcp_close_state|done]. }
  destruct (_ =? _); apply fsm_same; [|done]. apply cstate_upd. intros. apply arm_rview.
Qed.

Lemma input_ack_state c s : fsm_res c (input_ack env c s).
Proof.
  unfold input_ack. apply fsm_bind; [apply ack_syn_received_state|]. intros c' s' _.
  destruct (TCPS_HAVEESTABLISHED _); [|by apply fsm_same].
  destruct (SEQ_LEQ _ _); [by eapply quiet_state, ack_old_quiet|].
  destruct (ack_new_spec env Hout c' s') as (c1 & E%cstate_cv & [[-> _]|(fin & b & ->)]); [by apply fsm_same|].
  pose proof (ack_state_state fin c1 (s' <| needoutput := b |>)) as H. unfold fsm_res in *. by rewrite E in H.
Qed.

Lemma checks_state c s : fsm_res c (input_checks env c s).
Proof.
  unfold input_checks. destruct (_ && _); [by apply fsm_same|].
  apply fsm_bind; [apply paws_state|intros ? ? _]. apply fsm_bind; [apply trim_front_state|intros ? ? _].
  apply fsm_bind; [apply after_close_state|intros ? ? _]. apply fsm_bind; [apply trim_back_state|intros ? ? _].
  apply fsm_bind; [apply timestamp_state|intros ? ? _]. apply fsm_bind; [apply rst_state|intros ? ? _].
  apply fsm_bind; [apply syn_ack_state|intros ? ? _]. apply input_ack_state.
Qed.

(** ** The end of the function *)

Lemma data_state c s : fsm_res c (input_data env c s).
Proof.
  unfold input_data. destruct (_ && _); [|by apply fsm_same]. destruct (_ && _).
  - cbn [fsm_res]. set (c1 := upd_tp (upd_tp c _) _). assert (cstate c1 = cstate c) as E.
    { unfold c1, cstate, tp_of, upd_tp. upd_simpl. pose proof (setup_ack_rview env (r_tp (c_r c)) (s_th s)) as R.
      unfold rview in R. by simplify_eq R. }
    clearbody c1. unfold deliver, cstate, tp_of in *. upd_simpl. by destruct (flag_set _ _); upd_simpl; rewrite E.
  - pose proof (tcp_reass_state (c_r c) (Some (s_th s)) (adj_bytes (hdroptlen s) (s_m s)) (tlen s)) as R.
    destruct (tcp_reass _ _ _ _) as [fl r]. cbn [snd] in R. cbn [fsm_res]. rewrite cstate_upd by done.
    unfold cstate, tp_of. upd_simpl. by rewrite R.
Qed.

Lemma fin_state c s : fsm_res c (input_fin env c s).
Proof.
  unfold input_fin. destruct (_ && _); [|by apply fsm_same]. set (c1 := if negb _ then _ else _).
  assert (cstate c1 = cstate c) as E by (subst c1; by destruct (negb _)). clearbody c1. fold (cstate c1). cbn [fsm_res].
  destruct (Z.eqb_spec (cstate c1) TCPS_ESTABLISHED) as [E1|]; [rewrite <- E, E1; apply rtc_once, edge_fin|].
  destruct (Z.eqb_spec (cstate c1) TCPS_FIN_WAIT_1) as [E1|]; [rewrite <- E, E1; apply rtc_once, edge_fin_closing|].
  destruct (Z.eqb_spec (cstate c1) TCPS_FIN_WAIT_2) as [E1|].
  { rewrite <- E, E1, time_wait_state. apply rtc_once. constructor. }
  destruct (_ =? _); [|by rewrite E]. rewrite cstate_upd by (intros; apply arm_rview). by rewrite E.
Qed.

Definition fsm_opt (c : conn) (r : option sres) : Prop := match r with Some r => fsm_res c r | None => True end.

Lemma fsm_obind c r k : fsm_opt c r -> (forall c' s', r = Some (Next c' s') -> fsm_opt c' (k c' s')) -> fsm_opt c (obind r k).
Proof.
  destruct r as [[c' s'|v c' s']|]; simpl; try done. intros H K. specialize (K c' s' eq_refl).
  destruct (k c' s') as [[]|]; simpl in *; try done; by etrans.
Qed.

Lemma step6_state c s : fsm_res c (step6 c s).
Proof. destruct (step6_quiet c s) as (c' & b & -> & E). by apply fsm_same, cstate_cv. Qed.

Lemma urg_state c s : fsm_opt c (input_urg env c s).
Proof.
  unfold input_urg. destruct (_ && _).
  - destruct (_ <? _); [by apply fsm_same|]. set (c1 := urg_mark env c s).
    assert (cstate c1 = cstate c) as E.
    { subst c1. unfold urg_mark. destruct (SEQ_GT _ _); [|done]. rewrite cstate_upd by done. by destruct (_ =? 0). }
    clearbody c1. destruct (_ && _); [|by apply fsm_same]. unfold tcp_pulloutofband.
    destruct (_ <? _); [done|]. destruct (_ !! _); [|done]. apply fsm_same. by rewrite cstate_upd.
  - apply fsm_same. destruct (SEQ_GT _ _); [by apply cstate_upd|done].
Qed.

Lemma tail_state c s : fsm_opt c (input_tail env c s).
Proof.
  apply fsm_obind; [apply step6_state|intros ? ? _]. apply fsm_obind; [apply urg_state|intros c1 s1 _].
  apply (fsm_bind c1); [apply data_state|intros ? ? _]. apply fsm_bind; [apply fin_state|intros ? ? _].
  apply fsm_same. unfold input_finish. destruct (_ || _); [apply do_output_state|done].
Qed.

Lemma tcp_input_state optp c s : fsm_opt c (tcp_input env optp c s).
Proof.
  apply fsm_obind; [apply received_state|intros ? ? _].
  apply fsm_obind; [destruct (input_options _ _ _ _) eqn:E; [by eapply options_state|done]|intros ? ? _].
  apply fsm_obind; [apply ecn_state|intros ? ? _]. apply fsm_obind; [by apply (fsm_same)|intros ? ? _].
  apply fsm_obind; [destruct (input_predict _ _ _) eqn:E; [by eapply predict_state|done]|intros c1 s1 _]. apply fsm_obind; [apply window_state|intros c2 s2 _].
  apply fsm_obind; [|intros ? ? _; apply tail_state]. cbn [fsm_opt].
  destruct (Z.eqb_spec (t_state (tp_of c2)) TCPS_SYN_SENT); [by apply syn_sent_state|apply checks_state].
Qed.
End fsm.

(** C10. The state machine: whatever a segment holds, [tcp_input] moves the
    connection along the arrows of the TCP state diagram, one or several in a
    call, and never otherwise. *)
Theorem tcp_input_fsm env optp c s c' :
  output_keeps_rcv (tcp_output env) -> tcp_input_conn env optp c s = Some c' ->
  rtc tcp_edge (t_state (tp_of c)) (t_state (tp_of c')).
Proof.
  intros Ho E. pose proof (tcp_input_state env Ho optp c s) as H. unfold tcp_input_conn in E. revert E H.
  destruct (tcp_input env optp c s) as [[c1 s1|v c1 s1]|]; intros E; simplify_eq E; intros <-; simpl; [done|].
  rewrite <- (finish_state env Ho v c1 s1). done.
Qed.

(** ** Resets *)

Definition live (c : conn) : bool * Z * list Z := (c_alive c, so_error c, so_snd c).

(** What the stages before the reset check keep. *)
Definition kept (c c' : conn) : Prop := pv c' = pv c /\ live c' = live c.

Lemma kept_conn_trans c1 c2 c3 : kept c1 c2 -> kept c2 c3 -> kept c1 c3.
Proof. intros [A B] [A' B']. split; congruence. Qed.

Section reset.
Context (env : tenv) (Hout : output_keeps_rcv (tcp_output env)).

Lemma received_kept c s : exists c', input_received env c s = Next c' s /\ kept c c'.
Proof.
  destruct (received_pv env c s) as (c' & E & P). exists c'. split; [done|]. split; [done|].
  unfold input_received in E. simplify_eq E. intros <-. by destruct (TCPS_HAVEESTABLISHED _).
Qed.

Lemma ecn_kept c s : exists c', input_ecn env c s = Next c' s /\ kept c c'.
Proof.
  destruct (ecn_pv env c s) as (c' & E & P). exists c'. split; [done|]. split; [done|].
  unfold input_ecn in E. destruct (TCP_ECN_ALLOWED _); simplify_eq E; intros <-.
  - repeat (match goal with |- context [if ?b then _ else _] => destruct b end); try done;
      by destruct (tcp_del_sackholes _ _ _).
  - destruct (TCP_SACK_ENABLED _); [|done]. by destruct (tcp_del_sackholes _ _ _).
Qed.

Lemma predict_rst c s : flag_set (tiflags s) TH_RST = true -> input_predict env c s = Some (Next c s).
Proof.
  intros F. unfold input_predict, predicted. assert ((Z.land (tiflags s) predict_flags =? TH_ACK) = false) as ->.
  { apply Z.eqb_neq. intros E. apply (f_equal (fun z => Z.land z TH_RST)) in E. rewrite <- Z.land_assoc in E.
    change (Z.land predict_flags TH_RST) with TH_RST in E. unfold flag_set in F. by rewrite E in F. }
  by rewrite andb_false_r.
Qed.

Lemma finish_kept v c s : v <> DropWithReset \/ flag_set (tiflags s) TH_RST = true ->
  cv (c_r (finish env v c s)) = cv (c_r c) /\ live (finish env v c s) = live c.
Proof.
  intros V. split; [by apply finish_cv|]. destruct v; simpl; try done; [by destruct (flag_set _ _)|by destruct (e_ackdrop_ok env)|].
  destruct V as [|V]; [done|]. unfold dropwithreset. by rewrite V.
Qed.

(** The states in which a reset is an error for the user. *)
Definition resettable (st : Z) : bool :=
  (st =? TCPS_ESTABLISHED) || (st =? TCPS_FIN_WAIT_1) || (st =? TCPS_FIN_WAIT_2) || (st =? TCPS_CLOSE_WAIT).

Lemma resettable_synchronized st : resettable st = true ->
  (st =? TCPS_SYN_RECEIVED) = false /\ (st =? TCPS_SYN_SENT) = false.
Proof.
  unfold resettable. rewrite !orb_true_iff, !Z.eqb_eq, !Z.eqb_neq.
  unfold TCPS_ESTABLISHED, TCPS_FIN_WAIT_1, TCPS_FIN_WAIT_2, TCPS_CLOSE_WAIT, TCPS_SYN_RECEIVED, TCPS_SYN_SENT. lia.
Qed.

Lemma after_close_pass c s : tlen s = 0 \/ flag_set (so_state (c_r c)) SS_NOFDREF = false -> input_after_close env c s = Next c s.
Proof. unfold input_after_close. intros [->| ->]; [by rewrite andb_false_r|done]. Qed.

(** A reset from elsewhere. *)
Lemma checks_rst_off c s : flag_set (tiflags s) TH_RST = true -> flag_set (tiflags s) TH_SYN = false ->
  tlen s = 0 \/ flag_set (so_state (c_r c)) SS_NOFDREF = false -> resettable (cstate c) = true ->
  th_seq (s_th s) <> rcv_nxt (tp_of c) ->
  exists v c' s', input_checks env c s = Stop v c' s' /\ kept c c' /\ v <> DropWithReset.
Proof.
  intros Fr Fs Nf Rs Ne. unfold input_checks.
  fold (cstate c). rewrite (proj1 (resettable_synchronized _ Rs)).
  cbn [andb]. unfold input_paws. rewrite Fr, andb_false_r. cbn [negb andb sbind]. unfold input_trim_front.
  destruct (_ <? _).
  { unfold trim_syn. upd_simpl. rewrite Fs. upd_simpl. rewrite Fr. destruct (_ || _); [by eexists _, _, _|].
    rewrite (proj2 (Z.eqb_neq _ _) Ne). by eexists _, _, _. }
  cbn [sbind]. set (s1 := s <| dupseg := false |>). rewrite after_close_pass by done. cbn [sbind]. unfold input_trim_back. change (tiflags s1) with (tiflags s). change (s_th s1) with (s_th s). rewrite Fs. cbn [andb].
  rewrite (proj2 (Z.eqb_neq _ _) Ne), andb_false_r.
  assert (forall s2, tiflags s2 = flag_clear (tiflags s) (Z.lor TH_PUSH TH_FIN) \/ tiflags s2 = tiflags s -> s_th s2 = s_th s ->
    exists v c' s', sbind (input_timestamp env c s2) (fun c s => sbind (input_rst env c s) (fun c s => sbind (input_syn_ack c s) (input_ack env)))
      = Stop v c' s' /\ kept c c' /\ v <> DropWithReset) as K.
  { intros s2 Fl Et. destruct (timestamp_pv env c s2) as (c1 & E & P). rewrite E. cbn [sbind]. unfold input_rst.
    assert (flag_set (tiflags s2) TH_RST = true) as ->.
    { destruct Fl as [->| ->]; [|done]. unfold flag_set, flag_clear in *. by rewrite <- Z.land_assoc. }
    destruct (pv_inv _ _ P) as (_ & -> & _). rewrite Et, (proj2 (Z.eqb_neq _ _) Ne). eexists _, _, _. split; [reflexivity|].
    split; [split; [done|]|done]. unfold input_timestamp in E. simplify_eq E. intros <-. by destruct (_ && _). }
  destruct (_ <? _); [destruct (_ <=? _)|]; cbn [sbind]; [by eexists _, _, _|apply K; auto|apply K; auto].
Qed.

(** A reset at the expected sequence number. *)
Lemma rst_at c s : flag_set (tiflags s) TH_RST = true -> resettable (cstate c) = true -> th_seq (s_th s) = rcv_nxt (tp_of c) ->
  exists c', input_rst env c s = Stop Drop c' s /\ c_alive c' = false /\ cstate c' = TCPS_CLOSED /\ so_error c' = ECONNRESET.
Proof.
  intros Fr Rs Eq. unfold input_rst. rewrite Fr, Eq, Z.eqb_refl. cbn [negb]. fold (cstate c).
  rewrite (proj1 (resettable_synchronized _ Rs)). fold (resettable (cstate c)). rewrite Rs.
  eexists. split; [reflexivity|]. rewrite tcp_close_state.
  match goal with |- context [tcp_close env ?x] => destruct (tcp_close_alive env x) as [-> ->] end. done.
Qed.

Lemma checks_rst_at w c s : flag_set (tiflags s) TH_RST = true -> flag_set (tiflags s) TH_SYN = false ->
  tlen s = 0 \/ flag_set (so_state (c_r c)) SS_NOFDREF = false -> resettable (cstate c) = true ->
  th_seq (s_th s) = rcv_nxt (tp_of c) -> rcv_wnd (tp_of c) = w -> 0 <= w < 2 ^ 31 -> 0 <= tlen s < 2 ^ 31 ->
  exists c' s', input_checks env c s = Stop Drop c' s' /\
    c_alive c' = false /\ cstate c' = TCPS_CLOSED /\ so_error c' = ECONNRESET.
Proof.
  intros Fr Fs Nf Rs Eq Ew Bw Bt. unfold input_checks. fold (cstate c). rewrite (proj1 (resettable_synchronized _ Rs)).
  cbn [andb]. unfold input_paws. rewrite Fr, andb_false_r. cbn [negb andb sbind]. unfold input_trim_front.
  rewrite Eq, Z.sub_diag. cbn [sbind]. change (0 <? s32 0) with false. cbn [sbind].
  set (s1 := s <| dupseg := false |>). rewrite after_close_pass by done. cbn [sbind]. unfold input_trim_back. change (tiflags s1) with (tiflags s). change (s_th s1) with (s_th s).
  change (tlen s1) with (tlen s). rewrite Fs, Ew, Eq, Z.eqb_refl, andb_true_r. cbn [andb].
  assert (s32 (u32 (rcv_nxt (tp_of c) + tlen s) - (rcv_nxt (tp_of c) + w)) = tlen s - w) as ->.
  { rewrite <- s32_u32, u32_sub_u32, s32_u32. rewrite <- (s32_small (tlen s - w)) by lia. f_equal. lia. }
  assert (forall c2 s2, cstate c2 = cstate c -> rcv_nxt (tp_of c2) = rcv_nxt (tp_of c) ->
    tiflags s2 = flag_clear (tiflags s) (Z.lor TH_PUSH TH_FIN) \/ tiflags s2 = tiflags s -> s_th s2 = s_th s ->
    exists c' s', sbind (input_timestamp env c2 s2) (fun c s => sbind (input_rst env c s) (fun c s => sbind (input_syn_ack c s) (input_ack env)))
      = Stop Drop c' s' /\ c_alive c' = false /\ cstate c' = TCPS_CLOSED /\ so_error c' = ECONNRESET) as K.
  { intros c2 s2 E2 N2 Fl Et. destruct (timestamp_pv env c2 s2) as (c3 & E & P). rewrite E. cbn [sbind].
    destruct (pv_inv _ _ P) as (P1 & P2 & _).
    destruct (rst_at c3 s2) as (c4 & -> & H).
    - destruct Fl as [->| ->]; [|done]. unfold flag_set, flag_clear in *. by rewrite <- Z.land_assoc.
    - unfold cstate in *. congruence.
    - congruence.
    - cbn [sbind]. by eexists _, _. }
  destruct (Z.ltb_spec 0 (tlen s - w)); [|cbn [sbind]; apply K; auto].
  destruct (Z.leb_spec (tlen s) (tlen s - w)); [|cbn [sbind]; apply K; auto].
  assert (w = 0) as -> by lia. cbn [sbind Z.eqb]. apply K; auto.
Qed.

Lemma slow_reset c s : flag_set (tiflags s) TH_RST = true -> flag_set (tiflags s) TH_SYN = false ->
  tlen s = 0 \/ flag_set (so_state (c_r c)) SS_NOFDREF = false -> 0 <= tlen s < 2 ^ 31 -> resettable (cstate c) = true ->
  exists v c' s', input_slow env c s = Some (Stop v c' s') /\ v <> DropWithReset /\
    (th_seq (s_th s) = rcv_nxt (tp_of c) ->
       v = Drop /\ c_alive c' = false /\ cstate c' = TCPS_CLOSED /\ so_error c' = ECONNRESET) /\
    (th_seq (s_th s) <> rcv_nxt (tp_of c) -> cv (c_r c') = cv (c_r c) /\ live c' = live c).
Proof.
  intros Fr Fs Nf Bt Rs. unfold input_slow, input_window. cbn [obind]. set (c1 := upd_tp c _).
  assert (cstate c1 = cstate c /\ rcv_nxt (tp_of c1) = rcv_nxt (tp_of c) /\ so_state (c_r c1) = so_state (c_r c) /\
    rcv_wnd (tp_of c1) = rcv_window env (tp_of c) /\ cv (c_r c1) = cv (c_r c) /\ live c1 = live c) as (E1 & E2 & E3 & E4 & E5 & E6)
    by done.
  clearbody c1. fold (cstate c1). rewrite E1, (proj2 (resettable_synchronized _ Rs)).
  destruct (decide (th_seq (s_th s) = rcv_nxt (tp_of c))) as [Eq|Ne].
  - destruct (checks_rst_at (rcv_window env (tp_of c)) c1 s) as (c' & s' & -> & H); rewrite ?E3; try (congruence || done).
    + unfold rcv_window. pose proof (s32_range (e_rcv_space env)).
      pose proof (s32_range (rcv_adv (tp_of c) - rcv_nxt (tp_of c))). lia.
    + by exists Drop, c', s'.
  - destruct (checks_rst_off c1 s) as (v & c' & s' & -> & [P L] & V); rewrite ?E3; try (congruence || done).
    exists v, c', s'. split; [done|]. split; [done|]. split; [done|]. intros _. split; [|congruence].
    rewrite <- E5. by apply pv_cv.
Qed.
End reset.

(** C21. Safety of resets (the check against blind resets): in the states in which
    a reset is an error (ESTABLISHED, FIN_WAIT_1, FIN_WAIT_2, CLOSE_WAIT), a RST
    without SYN and with no options left to parse closes the connection, with
    ECONNRESET, exactly when its sequence number is the next one expected; with
    any other number, inside the window or not, neither the state, the queues, the
    data, the error of the socket nor the life of the connection changes.  If the
    application has closed the socket the RST carries no data; the data would
    close the connection whatever the flags. *)
Theorem tcp_input_reset env c s :
  output_keeps_rcv (tcp_output env) -> flag_set (tiflags s) TH_RST = true -> flag_set (tiflags s) TH_SYN = false ->
  tlen s = 0 \/ flag_set (so_state (c_r c)) SS_NOFDREF = false -> 0 <= tlen s < 2 ^ 31 ->
  resettable (t_state (tp_of c)) = true ->
  exists c', tcp_input_conn env None c s = Some c' /\
    (th_seq (s_th s) = rcv_nxt (tp_of c) ->
       c_alive c' = false /\ t_state (tp_of c') = TCPS_CLOSED /\ so_error c' = ECONNRESET) /\
    (th_seq (s_th s) <> rcv_nxt (tp_of c) -> cv (c_r c') = cv (c_r c) /\ live c' = live c).
Proof.
  intros Ho Fr Fs Nf Bt Rs. unfold tcp_input_conn, tcp_input.
  destruct (received_kept env c s) as (c1 & -> & K1). cbn [obind input_options].
  destruct (ecn_kept env c1 s) as (c2 & -> & K2). cbn [obind]. pose proof (kept_conn_trans _ _ _ K1 K2) as [P L]. clear K1 K2.
  unfold input_rtt. cbn [obind]. rewrite predict_rst by done. cbn [obind]. set (s1 := s <| ts_rtt := _ |>).
  pose proof (pv_inv _ _ P) as (E1 & E2 & _). pose proof (cv_inv _ _ (pv_cv _ _ P)) as (_ & _ & _ & _ & _ & _ & E3 & _).
  destruct (slow_reset env c2 s1) as (v & c' & s' & -> & V & A & B); try done.
  - by rewrite E3.
  - unfold cstate. by rewrite E1.
  - eexists. split; [reflexivity|]. change (s_th s1) with (s_th s) in A, B. rewrite E2 in A, B.
    destruct (finish_kept env Ho v c' s' (or_introl V)) as [F1 F2]. split.
    + intros Eq. destruct (A Eq) as (-> & A'). exact A'.
    + intros Ne. destruct (B Ne) as [B1 B2]. split; [rewrite F1, B1; by apply pv_cv|congruence].
Qed.

(** ** Closing *)

Lemma freeq_loop_spec objs qs : NoDup objs -> forall st, segq st = qs -> timeq st ≡ₚ addrs qs ->
  pool_objects (tcpipqent_pool st) (addrs qs) ≡ₚ objs ->
  segq (freeq_loop qs st) = [] /\ timeq (freeq_loop qs st) = [] /\ mempool (tcpipqent_pool (freeq_loop qs st)) ≡ₚ objs.
Proof.
  intros No. induction qs as [|q qs IH]; intros st E T P; simpl.
  { split; [done|]. apply Permutation_nil_r in T. split; [done|]. rewrite <- P. unfold pool_objects, addrs. simpl. by rewrite app_nil_r. }
  assert (NoDup (addrs (q :: qs))) as Nd.
  { rewrite <- P in No. unfold pool_objects in No. by apply NoDup_app in No as (_ & _ & ?). }
  apply IH; unfold tcpipqent_free; upd_simpl.
  - rewrite E. by apply (segq_remove_split []).
  - apply timeq_remove_perm; [done|by rewrite T].
  - by rewrite pool_put_objects.
Qed.

(** [tcp_close] gives back everything the connection held: both reassembly
    queues and the scoreboard are empty, all the queue entries and all the SACK
    holes are in their pools again, the system-wide count of holes is that of
    the other connections, and the control block is marked dead and released. *)
Theorem tcp_close_releases env objs others holes c :
  NoDup objs -> rinv objs (c_r c) [] -> sack_inv others holes (c_sack c) (tp_of c) ->
  let c' := tcp_close env c in
  segq (c_r c') = [] /\ timeq (c_r c') = [] /\ mempool (tcpipqent_pool (c_r c')) ≡ₚ objs /\
  t_segqlen (tp_of c') = 0 /\ snd_holes (tp_of c') = [] /\ tcp_sack_globalholes (c_sack c') = others /\
  mempool (sackhole_pool (c_sack c')) ≡ₚ holes /\ flag_set (t_flags (tp_of c')) TF_DEAD = true /\
  t_state (tp_of c') = t_state (tp_of c) /\ c_alive c' = false.
Proof.
  intros No [T L P] I. rewrite app_nil_r in P. cbv zeta.
  destruct (freeq_loop_spec objs (segq (c_r c)) No (c_r c) eq_refl T P) as (F1 & F2 & F3).
  assert (r_tp (tcp_freeq (c_r c)) = (tp_of c) <| t_segqlen := 0 |>) as F4.
  { unfold tcp_freeq. upd_simpl. by rewrite freeq_loop_tp. }
  destruct (tcp_free_sackholes (c_sack c) (r_tp (tcp_freeq (c_r c)))) as [g tp] eqn:F.
  destruct (tcp_close_fields env c g tp F) as (-> & -> & -> & -> & -> & -> & -> & -> & _). rewrite F4 in F.
  assert (sack_inv others holes (c_sack c) ((tp_of c) <| t_segqlen := 0 |>)) as I1 by (by apply (sack_inv_ext _ _ _ (tp_of c))).
  destruct (tcp_free_sackholes_all others holes _ _ _ _ I1 F) as (G1 & G2 & G3 & G4).
  pose proof (tcp_free_sackholes_rview _ _ _ _ F) as R.
  apply (f_equal snd) in R. split_and!; try done; [|apply tcp_close_state]. unfold TF_DEAD. flag_bits. done.
Qed.

(** ** Runs *)

(** A FIN, a reset in the window and a reset at the expected number. *)
Definition ex_flagged (a len flags : Z) : seg :=
  (ex_seg a len) <| s_th := mkTcphdr (u32 (2 ^ 32 - 2 + a)) 0 flags |> <| tiflags := flags |>.

Lemma ex_env_out : output_keeps_rcv (tcp_output ex_env).
Proof. by intros tp. Qed.

Definition ex_state (r : option conn) : Z := t_state (tp_of (default ex_conn r)).

Lemma tcp_input_fsm_witness :
  rtc tcp_edge TCPS_ESTABLISHED (ex_state (tcp_input_conn ex_env None ex_conn (ex_flagged 0 3 (Z.lor TH_ACK TH_FIN)))) /\
  ex_state (tcp_input_conn ex_env None ex_conn (ex_flagged 0 3 (Z.lor TH_ACK TH_FIN))) = TCPS_CLOSE_WAIT.
Proof.
  split; [|by vm_compute]. unfold ex_state.
  destruct (tcp_input_conn ex_env None ex_conn (ex_flagged 0 3 (Z.lor TH_ACK TH_FIN))) as [c'|] eqn:E.
  - exact (tcp_input_fsm ex_env None ex_conn (ex_flagged 0 3 (Z.lor TH_ACK TH_FIN)) c' ex_env_out E).
  - vm_compute in E. discriminate.
Defined.

Lemma tcp_input_reset_witness :
  exists c', tcp_input_conn ex_env None ex_conn (ex_flagged 7 0 TH_RST) = Some c' /\
    (th_seq (s_th (ex_flagged 7 0 TH_RST)) = rcv_nxt (tp_of ex_conn) ->
       c_alive c' = false /\ t_state (tp_of c') = TCPS_CLOSED /\ so_error c' = ECONNRESET) /\
    (th_seq (s_th (ex_flagged 7 0 TH_RST)) <> rcv_nxt (tp_of ex_conn) ->
       cv (c_r c') = cv (c_r ex_conn) /\ live c' = live ex_conn).
Proof. apply (tcp_input_reset ex_env ex_conn (ex_flagged 7 0 TH_RST) ex_env_out); try done; by left || by vm_compute. Defined.

(** An established connection with a queued segment and two SACK holes. *)
Definition ex_busy : conn :=
  mkConn (mkRconn (ex_tcpcb <| t_inpcb := true |> <| t_segqlen := 1 |>) [mkIpqent 1 500 3 0 [7; 8; 9]] [1%positive]
    (mkPool [2%positive]) 0 [] 0) ex_globals 0 0 [] 0 true [].

Lemma tcp_close_releases_witness :
  let c' := tcp_close ex_env ex_busy in
  segq (c_r c') = [] /\ timeq (c_r c') = [] /\ mempool (tcpipqent_pool (c_r c')) ≡ₚ [2; 1]%positive /\
  t_segqlen (tp_of c') = 0 /\ snd_holes (tp_of c') = [] /\ tcp_sack_globalholes (c_sack c') = 0 /\
  mempool (sackhole_pool (c_sack c')) ≡ₚ [3; 4; 5; 1; 2]%positive /\ flag_set (t_flags (tp_of c')) TF_DEAD = true /\
  t_state (tp_of c') = t_state (tp_of ex_busy) /\ c_alive c' = false.
Proof.
  apply (tcp_close_releases ex_env [2; 1]%positive 0 [3; 4; 5; 1; 2]%positive ex_busy).
  - apply (bool_decide_unpack _). by vm_compute.
  - by split.
  - apply (sack_inv_ext 0 _ ex_globals ex_tcpcb); [by vm_compute..|apply ex_sack_inv].
Defined.

(** ** What the code does with a FIN it has cut off and with acknowledgements
    of data never sent *)

(** An environment in which the receive buffer has room for 3 bytes. *)
Definition ex_env_small : tenv :=
  mkEnv (fun tp => tp) 1000 100 1000 (mkAbc true 1) (false, 30, 2) false 20 7 9 true true false 0 0
    262144 3 0 65536 false 65536 true false None true false false 0 536 0 0 false false 60 60 60.

(** A FIN beyond the window is taken before the data in front of it: a
    segment of 5 bytes and a FIN is cut to the 3 bytes of the window, which
    clears the FIN in [tiflags], but the FIN is then read from [th_flags]
    again.  The connection enters CLOSE_WAIT, [rcv_nxt] skips a sequence number
    that belongs to the fourth byte, and the retransmission of the rest of the
    data is not delivered. *)
Theorem truncated_fin_loses_data :
  match tcp_input_conn ex_env_small None ex_conn (ex_flagged 0 5 (Z.lor TH_ACK TH_FIN)) with
  | Some c =>
      so_rcv (c_r c) = slice ex_stream 0 3 /\ t_state (tp_of c) = TCPS_CLOSE_WAIT /\
      rcv_nxt (tp_of c) = u32 (rcv_nxt (tp_of ex_conn) + 4) /\
      match tcp_input_conn ex_env None c (ex_flagged 3 2 (Z.lor TH_ACK TH_FIN)) with
      | Some c => so_rcv (c_r c) = slice ex_stream 0 3
      | None => False
      end
  | None => False
  end.
Proof. by vm_compute. Qed.

(** A sender in fast recovery: bytes 100 to 199 are outstanding. *)
Definition ex_recovering : conn :=
  mkConn ((ex_rconn) <| r_tp := (r_tp ex_rconn) <| snd_una := 100 |> <| snd_nxt := 200 |> <| snd_max := 200 |>
    <| snd_recover := 200 |> <| t_segsz := 10 |> <| snd_ssthresh := 50 |> <| snd_cwnd := 80 |> <| t_partialacks := 0 |>
    <| t_dupacks := 3 |> |>) ex_globals 0 0 [] 0 true [].

(** An acknowledgement of data that were never sent ends fast recovery: it
    is rejected only after the congestion control has been told of it, which
    leaves [t_partialacks] at -1, the duplicate count at 0 and the window
    deflated, while [snd_una] has not moved. *)
Theorem unsent_ack_ends_recovery :
  match tcp_input_conn ex_env None ex_recovering ((ex_seg 0 0) <| s_th := mkTcphdr (2 ^ 32 - 2) 5000 TH_ACK |>) with
  | Some c =>
      t_partialacks (tp_of ex_recovering) = 0 /\ SEQ_GT 5000 (snd_max (tp_of ex_recovering)) = true /\
      snd_una (tp_of c) = 100 /\ t_partialacks (tp_of c) = -1 /\ t_dupacks (tp_of c) = 0 /\ snd_cwnd (tp_of c) < 80
  | None => False
  end.
Proof. by vm_compute. Qed.
