(* ===== verification/TcpInputPredict.v ===== *)
(** * Header prediction (src/netbsd/netinet/tcp_input.c)

    The short path of [tcp_input] for the next data of an established
    connection does what the long path does. *)

From S2P Require Import Prelude Pool TcpSeq Callout Tcpcb TcpSack TcpSackFacts TcpCongctl TcpTimer MbufFacts.
From S2P Require Import SockState TcpOptions TcpReass TcpReassFacts TcpInput TcpInputFacts TcpInputStream.

(** Any text is a stretch of some stream. *)
Definition stream_of (data : list Z) (o : Z) : Z := nth (Z.to_nat o) data 0.

Lemma slice_stream_of data : slice (stream_of data) 0 (Z.of_nat (length data)) = data.
Proof.
  unfold slice. apply list_eq. intros i. rewrite list_lookup_fmap. destruct (decide (i < length data)%nat) as [L|L].
  - rewrite lookup_seqZ_lt by lia. simpl. unfold stream_of. rewrite Z.add_0_l, Nat2Z.id.
    destruct (lookup_lt_is_Some_2 data i L) as [x E]. rewrite E. f_equal. by apply nth_lookup_Some.
  - rewrite lookup_seqZ_ge by lia. symmetry. apply lookup_ge_None. lia.
Qed.

Lemma predicted_plain f : Z.land f predict_flags = TH_ACK -> plain f.
Proof.
  intros E. assert (forall x, Z.land predict_flags x = x -> flag_set f x = flag_set TH_ACK x) as K.
  { intros x H. unfold flag_set. rewrite <- E, <- Z.land_assoc, H. done. }
  unfold plain. by rewrite !K.
Qed.

(** The receive side after the next [len] bytes. *)
Definition advanced (c : conn) (len : Z) (bytes : list Z) : conn :=
  deliver (upd_tp c (fun tp => tp <| rcv_nxt := u32 (rcv_nxt tp + len) |>)) bytes.

Lemma advanced_cv c c' len bytes : cv (c_r c') = cv (c_r c) -> cv (c_r (advanced c' len bytes)) = cv (c_r (advanced c len bytes)).
Proof.
  intros (E1 & E2 & E3 & E4 & E5 & E6 & E7 & E8)%cv_inv. unfold advanced, deliver, upd_tp, cv. upd_simpl. rewrite E7.
  assert (forall f x, rview (x <| rcv_nxt := f |>) = (t_state x, f, t_segqlen x)) as V by reflexivity.
  destruct (flag_set _ _); upd_simpl; rewrite !V; congruence.
Qed.

Lemma deliver_cv c c' bytes : cv (c_r c') = cv (c_r c) -> cv (c_r (deliver c' bytes)) = cv (c_r (deliver c bytes)).
Proof.
  intros E. pose proof (cv_inv _ _ E) as (_ & _ & _ & _ & _ & _ & E7 & _). unfold deliver. rewrite E7.
  unfold cv in *. destruct (flag_set _ _); upd_simpl; congruence.
Qed.

Section predict.
Context (env : tenv) (Hout : output_keeps_rcv (tcp_output env)).

Lemma predict_data_advanced c s : exists c', predict_data env c s = Stop Return c' s /\
  cv (c_r c') = cv (c_r (advanced c (tlen s) (adj_bytes (hdroptlen s) (s_m s)))).
Proof.
  unfold predict_data, advanced. set (c1 := upd_tp c _). destruct (autorcvbuf env s (tp_of c1)) as [newsize tp] eqn:A.
  pose proof (autorcvbuf_rview env s (tp_of c1)) as Ra. rewrite A in Ra. cbn [snd] in Ra. eexists. split; [reflexivity|].
  set (c2 := upd_tp c1 _). assert (cv (c_r c2) = cv (c_r c1)) as E2 by (by apply cv_upd_tp). clearbody c2.
  set (c3 := if _ && _ then _ else _). assert (cv (c_r c3) = cv (c_r c1)) as E3 by (subst c3; by destruct (_ && _)).
  clearbody c3. set (c4 := deliver c3 _).
  assert (cv (c_r c4) = cv (c_r (deliver c1 (adj_bytes (hdroptlen s) (s_m s))))) as <- by (by apply deliver_cv).
  clearbody c4. destruct (flag_set _ _); [rewrite do_output_cv by done|]; apply cv_upd_tp, setup_ack_rview.
Qed.

(** Header prediction and the long path on text in sequence. *)
Lemma input_tail_advanced c s data : t_state (tp_of c) = TCPS_ESTABLISHED -> segq (c_r c) = [] ->
  th_seq (s_th s) = rcv_nxt (tp_of c) -> plain (tiflags s) -> flag_set (th_flags (s_th s)) TH_FIN = false -> tlen s <> 0 ->
  adj_bytes (hdroptlen s) (s_m s) = data ->
  exists c' s', input_tail env c s = Some (Stop Return c' s') /\ cv (c_r c') = cv (c_r (advanced c (tlen s) data)).
Proof.
  intros Es Eq En Pl Ff L Ed. unfold input_tail. destruct (step6_quiet c s) as (c1 & b & -> & E1). cbn [obind].
  match goal with |- context [input_urg env c1 ?x] => set (s1 := x) end.
  assert (plain (tiflags s1) /\ s_th s1 = s_th s /\ tlen s1 = tlen s /\ hdroptlen s1 = hdroptlen s /\ s_m s1 = s_m s)
    as (J1 & J2 & J3 & J4 & J5) by done. clearbody s1.
  destruct (urg_quiet env c1 s1 J1) as (c2 & -> & E2). cbn [obind]. rewrite E1 in E2.
  pose proof (cv_inv _ _ E2) as (I1 & I2 & _ & I4 & _). unfold input_data, tp_of in *. rewrite J2, J3, J4, J5.
  rewrite I1, I2, I4, Es, Eq, En, Z.eqb_refl, Ed, (proj2 (Z.eqb_neq _ _) L).
  rewrite bool_decide_eq_true_2 by done. change (TCPS_ESTABLISHED =? TCPS_ESTABLISHED) with true.
  change (TCPS_HAVERCVDFIN TCPS_ESTABLISHED) with false. cbn [negb andb orb sbind]. unfold input_fin. upd_simpl.
  assert (flag_set (Z.land (th_flags (s_th s)) TH_FIN) TH_FIN = false) as ->.
  { unfold flag_set in *. rewrite <- Z.land_assoc. change (Z.land TH_FIN TH_FIN) with TH_FIN. done. }
  cbn [andb sbind]. unfold input_finish. eexists _, _. split; [reflexivity|].
  set (c3 := deliver _ data). assert (cv (c_r c3) = cv (c_r (advanced c (tlen s) data))) as E3.
  { unfold c3. apply (advanced_cv c (upd_tp c2 (fun tp => tcp_setup_ack env tp (s_th s)))).
    rewrite cv_upd_tp by apply setup_ack_rview. done. }
  rewrite <- E3. destruct (_ || _); [by apply do_output_cv|done].
Qed.

(** The long path takes the whole segment. *)
Lemma input_checks_whole c s len : let S := stream_of (adj_bytes (hdroptlen s) (s_m s)) in let irs := rcv_nxt (tp_of c) in
  ready irs 0 (rcv_wnd (tp_of c)) c -> carries S irs 0 len s -> 0 < len <= rcv_wnd (tp_of c) -> rcv_wnd (tp_of c) <= 2 ^ 30 ->
  negb (ts_present (opti s)) || TSTMP_GEQ (ts_val (opti s)) (ts_recent (tp_of c)) = true ->
  th_ack (s_th s) = snd_una (tp_of c) ->
  exists c' s', input_checks env c s = Next c' s' /\ pv c' = pv c /\ carries S irs 0 len s'.
Proof.
  intros S irs Rd C Bl Bw Ts Ea. unfold input_checks. rewrite (rd_state _ _ _ _ Rd).
  change (TCPS_ESTABLISHED =? TCPS_SYN_RECEIVED) with false. cbn [andb]. unfold input_paws.
  assert (ts_present (opti s) && negb (flag_set (tiflags s) TH_RST) && negb (ts_recent (tp_of c) =? 0) &&
    TSTMP_LT (ts_val (opti s)) (ts_recent (tp_of c)) = false) as ->.
  { unfold TSTMP_LT, TSTMP_GEQ in *. destruct (ts_present (opti s)); [|done]. simpl in Ts. apply Z.leb_le in Ts.
    rewrite (proj2 (Z.ltb_ge _ _)) by done. by rewrite andb_false_r. }
  cbn [sbind]. destruct (input_trim_front_spec S irs 0 (rcv_wnd (tp_of c)) c s 0 len Rd C ltac:(lia)) as (c1 & s1 & -> & E1 & A1 & C1).
  cbv zeta in C1. cbn [sbind]. replace (Z.max 0 (Z.min (0 - 0) len)) with 0 in C1 by lia. rewrite Z.sub_0_r, Z.add_0_r in C1.
  pose proof (ready_pv _ _ _ _ _ E1 Rd) as Rd1. rewrite (after_close_next env irs 0 (rcv_wnd (tp_of c))) by done. cbn [sbind].
  destruct (input_trim_back_spec env S irs 0 (rcv_wnd (tp_of c)) c1 s1 0 len Rd1 C1 ltac:(lia) ltac:(lia) ltac:(lia))
    as [(c2 & s2 & -> & E2 & A2 & C2 & _)|[_ B]]; [|lia].
  replace (Z.max 0 (Z.min len (0 + rcv_wnd (tp_of c) - 0))) with len in C2 by lia. cbn [sbind]. rewrite E1 in E2.
  destruct (timestamp_pv env c2 s2) as (c3 & -> & E3). cbn [sbind]. rewrite E2 in E3.
  rewrite rst_next by apply C2. cbn [sbind]. rewrite syn_ack_next by apply C2. cbn [sbind].
  exists c3, s2. split; [|done]. pose proof (pv_inv _ _ E3) as (P1 & P2 & P3 & _).
  unfold input_ack, ack_syn_received. rewrite P1, (rd_state _ _ _ _ Rd).
  change (TCPS_ESTABLISHED =? TCPS_SYN_RECEIVED) with false. cbn [sbind]. rewrite P1, (rd_state _ _ _ _ Rd).
  change (TCPS_HAVEESTABLISHED TCPS_ESTABLISHED) with true. rewrite A2, A1, Ea, P3.
  assert (SEQ_LEQ (snd_una (tp_of c)) (snd_una (tp_of c)) = true) as -> by (unfold SEQ_LEQ; by rewrite Z.sub_diag).
  unfold ack_old. rewrite (cs_len _ _ _ _ _ C2), (proj2 (Z.eqb_neq len 0)) by lia. cbn [andb negb].
  rewrite (cs_seq _ _ _ _ _ C2), P2, (rd_nxt _ _ _ _ Rd), Z.eqb_refl. done.
Qed.

(** A segment that the fast path takes as data; its packet is headers and text
    and nothing else. *)
Record takes_data (c : conn) (s : seg) : Prop := {
  td_pred : predicted c s = true;
  td_flags : th_flags (s_th s) = tiflags s;
  td_ack : th_ack (s_th s) = snd_una (tp_of c);
  td_queue : segq (c_r c) = [];
  td_nxt : is_u32 (rcv_nxt (tp_of c));
  td_len : 0 < tlen s <= e_rcv_space env;
  td_space : e_rcv_space env < 2 ^ 31;
  td_wnd : rcv_window env (tp_of c) <= 2 ^ 30;
  td_hdr : 0 <= hdroptlen s;
  td_m : Z.of_nat (length (s_m s)) = hdroptlen s + tlen s
}.

Lemma fast_path c s : takes_data c s -> exists c', input_predict env c s = Some (Stop Return c' s) /\
  cv (c_r c') = cv (c_r (advanced c (tlen s) (adj_bytes (hdroptlen s) (s_m s)))).
Proof.
  intros [Pr _ Ea Eq _ Bl _ _ _ _]. unfold input_predict. rewrite Pr, (proj2 (Z.eqb_neq (tlen s) 0)) by lia.
  set (c0 := if ts_present _ && _ then _ else _).
  assert (cv (c_r c0) = cv (c_r c)) as E0 by (subst c0; destruct (_ && _); [by apply cv_upd_tp|done]). clearbody c0.
  pose proof (cv_inv _ _ E0) as (_ & _ & _ & Eq0 & _).
  rewrite Ea, Z.eqb_refl, Eq0, Eq, bool_decide_eq_true_2, (proj2 (Z.leb_le (tlen s) _)) by (done || lia). cbn [andb].
  destruct (predict_data_advanced c0 s) as (c1 & -> & E1). exists c1. split; [done|]. rewrite E1. by apply advanced_cv.
Qed.

Lemma slow_path c s : takes_data c s -> exists c' s', input_slow env c s = Some (Stop Return c' s') /\
  cv (c_r c') = cv (c_r (advanced c (tlen s) (adj_bytes (hdroptlen s) (s_m s)))).
Proof.
  intros [Pr Fl Ea Eq Un Bl Bs Bw Bh Lm]. unfold predicted in Pr. rewrite !andb_true_iff, !Z.eqb_eq in Pr.
  destruct Pr as [[[[[[Es Ef] Ts] En] _] _] _]. pose proof (predicted_plain _ Ef) as Pl.
  set (data := adj_bytes (hdroptlen s) (s_m s)).
  assert (s_m s = take (Z.to_nat (hdroptlen s)) (s_m s) ++ data /\ Z.of_nat (length data) = tlen s) as [Sm Ld].
  { unfold data, adj_bytes. destruct (Z.leb_spec 0 (hdroptlen s)); [|lia]. rewrite take_drop, length_drop. split; [done|lia]. }
  unfold input_slow, input_window. cbn [obind]. set (c2 := upd_tp c _).
  assert (t_state (tp_of c2) = TCPS_ESTABLISHED /\ rcv_nxt (tp_of c2) = rcv_nxt (tp_of c) /\ segq (c_r c2) = [] /\
    rcv_wnd (tp_of c2) = rcv_window env (tp_of c) /\ snd_una (tp_of c2) = snd_una (tp_of c) /\
    ts_recent (tp_of c2) = ts_recent (tp_of c) /\ cv (c_r c2) = cv (c_r c)) as (E1 & E2 & E3 & E4 & E5 & E6 & E7) by done.
  clearbody c2. rewrite E1. change (TCPS_ESTABLISHED =? TCPS_SYN_SENT) with false. cbv iota.
  assert (rcv_nxt (tp_of c2) = u32 (rcv_nxt (tp_of c2) + 0)) as U.
  { rewrite Z.add_0_r, u32_small; [done|]. by rewrite E2. }
  assert (tlen s <= rcv_window env (tp_of c)).
  { unfold rcv_window. rewrite (s32_small (e_rcv_space env)) by lia. lia. }
  destruct (input_checks_whole c2 s (tlen s)) as (c3 & s3 & -> & P3 & C3); rewrite ?E4, ?E5, ?E6; try (done || lia).
  - split; try done; [by rewrite En, <- E2|lia| |by rewrite Fl; destruct Pl as (_ & ? & _)].
    exists (take (Z.to_nat (hdroptlen s)) (s_m s)). rewrite <- Ld, slice_stream_of, length_take. split; [done|lia].
  - pose proof (pv_cv _ _ P3) as E8. pose proof (cv_inv _ _ E8) as (I1 & I2 & _ & I4 & _).
    destruct (input_tail_advanced c3 s3 data) as (c4 & s4 & -> & E9); unfold tp_of in *; try congruence.
    + rewrite (cs_seq _ _ _ _ _ C3). congruence.
    + apply C3.
    + apply C3.
    + rewrite (cs_len _ _ _ _ _ C3). lia.
    + by rewrite (carries_data _ _ _ _ _ C3), <- Ld, slice_stream_of.
    + exists c4, s4. split; [done|]. rewrite E9, (cs_len _ _ _ _ _ C3). apply advanced_cv. congruence.
Qed.
End predict.

(** C22. Header prediction computes what the long path computes: for the segments
    that the fast path takes as data (established, nothing but ACK and PUSH, the
    expected sequence number, nothing queued, room in the buffer) skipping the
    fast path leads to the same receive side: the same state, [rcv_nxt], queues,
    pool and received bytes. *)
Theorem header_prediction_sound env c s :
  output_keeps_rcv (tcp_output env) -> takes_data env c s ->
  exists c1 c2 s2, input_predict env c s = Some (Stop Return c1 s) /\ input_slow env c s = Some (Stop Return c2 s2) /\
    cv (c_r c1) = cv (c_r c2).
Proof.
  intros Ho T. destruct (fast_path env Ho c s T) as (c1 & E1 & F1). destruct (slow_path env Ho c s T) as (c2 & s2 & E2 & F2).
  exists c1, c2, s2. split; [done|]. split; [done|]. congruence.
Qed.

(** The peer's window is known and the next three bytes arrive. *)
Definition ex_windowed : conn := upd_tp ex_conn (fun tp => tp <| snd_wnd := 5000 |>).

Lemma header_prediction_sound_witness :
  exists c1 c2 s2, input_predict ex_env ex_windowed (ex_seg 0 3) = Some (Stop Return c1 (ex_seg 0 3)) /\
    input_slow ex_env ex_windowed (ex_seg 0 3) = Some (Stop Return c2 s2) /\ cv (c_r c1) = cv (c_r c2).
Proof.
  apply (header_prediction_sound ex_env ex_windowed (ex_seg 0 3)); [by intros tp|]. split; by vm_compute.
Defined.
