(* ===== verification/TcpOutput.v ===== *)
(** * TCP output (src/netbsd/netinet/tcp_output.c; tcp_quench and
    tcp_mss_to_advertise of tcp_subr.c)

    [tcp_output] decides what to send, builds segments and hands them to IP
    until there is nothing more to send.  One pass of its [again] loop is a
    sequence of stages over the control block and the local variables [olocal].
    The send buffer is the chain of its mbufs, each with its address, since the
    code keeps a pointer into it ([t_lastm]).  Running out of mbufs and the
    results of [ip_output] are functions of the number of packets tried.

    [long] is 64 bits and [int] 32 bits wide; [min] and [max] are those of
    libkern, on [u_int].  [None] is a failed KASSERT, which ends the process, a
    panic, or an access through a stale pointer. *)

From S2P Require Import Prelude Pool TcpSeq Callout Tcpcb TcpSack TcpCongctl TcpTimer Mbuf Sockbuf SockState.
From S2P Require Import TcpOptions TcpReass TcpInput.

Definition EMSGSIZE : Z := 40.
Definition EINVAL : Z := 22.
Definition EAFNOSUPPORT : Z := 47.
Definition ENETDOWN : Z := 50.
Definition EHOSTUNREACH : Z := 65.
Definition SS_MORETOCOME : Z := 0x400.
Definition TF_NODELAY : Z := 0x0004.
Definition IP_MAXPACKET : Z := 65535.
Definition TCP_MAXBURST : Z := 4.
Definition sizeof_tcphdr : Z := 20.
Definition TCPOPT_TSTAMP_HDR : Z := 0x0101080a.

Definition TCP_SACK_OPTLEN (nblks : Z) : Z := nblks * 8 + 2 + 2.

Definition tcp_outflags (state : Z) : Z :=
  nth (Z.to_nat state)
    [Z.lor TH_RST TH_ACK; 0; TH_SYN; Z.lor TH_SYN TH_ACK; TH_ACK; TH_ACK; Z.lor TH_FIN TH_ACK; Z.lor TH_FIN TH_ACK;
     Z.lor TH_FIN TH_ACK; TH_ACK; TH_ACK] 0.

(** A segment as it is given to [ip_output]: the fields of the TCP header, the
    options, the data and what the packet header says. *)
Record opkt := mkOpkt {
  p_seq : tcp_seq;
  p_ack : tcp_seq;
  p_flags : Z;
  p_win : Z;
  p_urp : Z;
  p_sum : Z;
  p_opt : list Z;
  p_data : list Z;
  p_pktlen : Z;              (* m_pkthdr.len *)
  p_segsz : option Z;        (* the segment size of a TSO packet *)
  p_ect : bool               (* IPTOS_ECN_ECT0 *)
}.

(** The route of the connection with its interface. *)
Record oroute := mkRoute { rt_rmx_mtu : Z; if_mtu : Z; if_loopback : bool; if_tso4 : bool }.

(** The surroundings: those of [tcp_input], the route, the template of the
    headers, the buffers of the socket, and the variables of tcp_output.c. *)
Record oenv := mkOenv {
  oe_env : tenv;
  oe_inet : bool;                    (* t_family == AF_INET *)
  oe_route : option oroute;
  t_template : option (Z * Z);       (* its length and its th_sum *)
  oe_mb : list (addr * list Z);      (* so->so_snd.sb_mb *)
  oe_so_state : Z;
  oe_timeq : list ipqent;            (* tp->timeq *)
  max_linkhdr : Z;
  in_maxmtu : Z;
  tcp_mss_ifmtu : bool;
  tcp_cwm : bool;
  tcp_cwm_burstsize : Z;
  tcp_do_autosndbuf : bool;
  tcp_autosndbuf_inc : Z;
  tcp_autosndbuf_max : Z;
  oe_sb_max_adj : Z;
  tcp_ecn_maxretries : Z;
  oe_mget : nat -> bool;             (* MGETHDR gives an mbuf *)
  oe_copym : nat -> bool;            (* m_copym gives a chain *)
  ip_output : nat -> opkt -> Z
}.

(** What a call changes: the control block, the limits of the send buffer, the
    number of packets tried and the packets that IP accepted. *)
Record ostate := mkOst {
  o_tp : tcpcb;
  o_snd : sockbuf;
  o_autosize : bool;                 (* so_snd.sb_flags & SB_AUTOSIZE *)
  o_tries : nat;
  o_sent : list opkt
}.

#[export] Instance eta_ostate : EtaRecord ostate :=
  fun r => mkOst (o_tp r) (o_snd r) (o_autosize r) (o_tries r) (o_sent r).

(** The local variables of one pass. *)
Record olocal := mkLoc {
  l_flags : Z;
  l_len : Z;
  l_off : Z;
  l_win : Z;
  l_sendalot : bool;
  l_use_tso : bool;
  l_txsegsize : Z;
  l_numblks : Z;
  l_sack_rxmit : bool;
  l_bytes : Z;                       (* sack_bytes_rxmt *)
  l_hole : option nat                (* p, as a position in snd_holes *)
}.

#[export] Instance eta_olocal : EtaRecord olocal :=
  fun r => mkLoc (l_flags r) (l_len r) (l_off r) (l_win r) (l_sendalot r) (l_use_tso r) (l_txsegsize r)
    (l_numblks r) (l_sack_rxmit r) (l_bytes r) (l_hole r).

Definition no_fin (l : olocal) : olocal := l <| l_flags := flag_clear (l_flags l) TH_FIN |>.

Definition be32 (x : Z) : list Z :=
  [Z.land (Z.shiftr x 24) 255; Z.land (Z.shiftr x 16) 255; Z.land (Z.shiftr x 8) 255; Z.land x 255].

Definition htons (x : Z) : Z := Z.lor (Z.shiftl (Z.land x 255) 8) (Z.land (Z.shiftr x 8) 255).

Definition in_cksum_addword (a b : Z) : Z :=
  let sum := a + b in if 0xffff <? sum then sum - 0xffff else sum.

Section output.
Variable e : oenv.

(** ** Segment size *)

Definition tcp_quench (tp : tcpcb) : tcpcb := tp <| snd_cwnd := t_segsz tp |> <| t_bytes_acked := 0 |>.

Definition tcp_mss_to_advertise (ifp : option oroute) : Z :=
  let mss := match ifp with Some rt => if_mtu rt | None => 0 end in
  let mss := if tcp_mss_ifmtu e then mss else umax (in_maxmtu e) mss in
  let hdrsiz := 20 + sizeof_tcphdr in
  let mss := if hdrsiz <? mss then mss - hdrsiz else mss in
  umax (tcp_mssdflt (oe_env e)) mss.

(** The MTU, less the headers, that the route allows. *)
Definition segsize_route (tp : tcpcb) (rt : oroute) : Z :=
  let hdrlen := sizeof_tcpiphdr in
  if negb (t_mtudisc tp =? 0) && negb (rt_rmx_mtu rt =? 0) then s32 (rt_rmx_mtu rt - hdrlen)
  else if if_loopback rt then s32 (if_mtu rt - hdrlen)
  else if negb (t_mtudisc tp =? 0) then s32 (if_mtu rt - hdrlen)
  else if e_faddr_local (oe_env e) then s32 (if_mtu rt - hdrlen)
  else tcp_mssdflt (oe_env e).

(** [tcp_segsize]: [*txsegsizep], [*rxsegsizep] and the control block; [None]
    is EMSGSIZE. *)
Definition tcp_segsize (tp : tcpcb) (snd : sockbuf) : option (Z * Z * tcpcb) :=
  let rt := if t_inpcb tp then oe_route e else None in
  let size := match rt with Some rt => segsize_route tp rt | None => tcp_mssdflt (oe_env e) end in
  let optlen := tcp_optlen tp + (if t_inpcb tp then e_ip_optlen (oe_env e) else 0) in
  let size := s32 (size - optlen) in
  if size <? 0 then None
  else
    let txsegsize := umin (t_peermss tp - optlen) size in
    let txsegsize := if t_inpcb tp then umin (Z.shiftr (sb_hiwat snd) 1) txsegsize else txsegsize in
    let rxsegsize := umin (t_ourmss tp - optlen) size in
    let tp :=
      if txsegsize =? t_segsz tp then tp
      else
        let tp :=
          if txsegsize <? t_segsz tp
          then tp <| snd_cwnd := umax (snd_cwnd tp / t_segsz tp * txsegsize) txsegsize |>
                  <| snd_ssthresh := umax (snd_ssthresh tp / t_segsz tp * txsegsize) txsegsize |>
          else tp in
        tp <| t_segsz := u16 txsegsize |> in
    Some (txsegsize, rxsegsize, tp).

(** The restart window. *)
Definition out_restart (idle : bool) (txsegsize : Z) (tp : tcpcb) : tcpcb :=
  let te := oe_env e in
  if tcp_cwm e
  then tp <| snd_cwnd := umin (snd_cwnd tp) (tcp_cwm_burstsize e * txsegsize + u32 (snd_nxt tp - snd_una tp)) |>
  else if idle && (t_rxtcur tp <=? u32 (e_now te - t_rcvtime tp)) then
    let ss := if t_inpcb tp && e_faddr_local te then tcp_init_win_local te else tcp_init_win te in
    tp <| snd_cwnd := umin (snd_cwnd tp) (TCP_INITIAL_WINDOW ss txsegsize) |>
  else tp.

Definition out_has_tso (tp : tcpcb) : bool :=
  t_inpcb tp && match oe_route e with Some rt => if_tso4 rt | None => false end.

(** ** What to send *)

(** The room for SACK blocks: their number, [txsegsize] and [use_tso]. *)
Definition out_sack_room (nosack : Z) (has_tso : bool) (tp : tcpcb) : Z * Z * bool :=
  let use_tso := has_tso && negb (flag_set (t_flags tp) (Z.lor TF_ECN_SND_CWR TF_ECN_SND_ECE)) in
  let numblks := tcp_sack_numblks tp in
  if numblks =? 0 then (0, nosack, use_tso)
  else if nosack <? TCP_SACK_OPTLEN numblks then (0, nosack, use_tso)
  else (numblks, nosack - TCP_SACK_OPTLEN numblks, use_tso && negb (flag_set (rcv_sack_flags tp) TCPSACK_HAVED)).

Definition out_adjust (tp : tcpcb) : tcpcb :=
  if TCP_SACK_ENABLED tp && SEQ_LT (snd_nxt tp) (snd_max tp) then tcp_sack_adjust tp else tp.

Definition out_locals (room : Z * Z * bool) (tp : tcpcb) : olocal :=
  let '(numblks, txsegsize, use_tso) := room in
  mkLoc (tcp_outflags (t_state tp)) 0 (s32 (snd_nxt tp - snd_una tp)) (umin (snd_wnd tp) (snd_cwnd tp)) false use_tso
    txsegsize numblks false 0 None.

(** The retransmission of a hole: at most [cwin] bytes, nothing beyond
    [snd_recover]. *)
Definition out_sack_rexmit (cc : Z) (tp : tcpcb) (l : olocal) : option olocal :=
  if negb (TCP_SACK_ENABLED tp) then Some l
  else if t_partialacks tp <? 0 then Some l
  else
    let '(hole, bytes) := tcp_sack_output tp in
    let l := l <| l_bytes := default 0 bytes |> in
    match hole with
    | None => Some l
    | Some i =>
        p ← snd_holes tp !! i;
        let cwin := u32 (umin (snd_wnd tp) (snd_cwnd tp) - l_bytes l) in
        let cwin := if cwin <? 0 then 0 else cwin in
        let beyond := SEQ_GT (hend p) (snd_recover tp) in
        if beyond && SEQ_GEQ (rxmit p) (snd_recover tp) then Some l
        else
          let len := Z.min cwin (u32 ((if beyond then snd_recover tp else hend p) - rxmit p)) in
          let off := s32 (rxmit p - snd_una tp) in
          let l := l <| l_hole := Some i |> <| l_off := off |> in
          let '(ok, len) :=
            if cc <? u64 (off + len)
            then ((u64 (off + len) =? u64 (cc + 1)) && (rxmit p + len =? snd_max tp), s64 (cc - off))
            else (true, len) in
          if ok then
            let l := l <| l_len := len |> in
            Some (if 0 <? len then l <| l_sack_rxmit := true |> <| l_sendalot := true |> else l)
          else None
    end.

(** [t_force]: the persist timer has expired. *)
Definition out_force (cc : Z) (tp : tcpcb) (l : olocal) : tcpcb * olocal :=
  if t_force tp =? 0 then (tp, l)
  else if l_win l =? 0 then
    (tp, (if u64 (l_off l) <? cc then no_fin l else l) <| l_win := 1 |>)
  else ((TCP_TIMER_DISARM tp TCPT_PERSIST) <| t_rxtshift := 0 |>, l).

(** New data, when no hole is retransmitted. *)
Definition out_length (cc : Z) (tp : tcpcb) (l : olocal) : olocal :=
  if l_sack_rxmit l then l
  else if TCP_SACK_ENABLED tp && (0 <=? t_partialacks tp) then
    let l := if snd_wnd tp <? cc then no_fin l <| l_len := s64 (snd_wnd tp - l_off l) |>
             else l <| l_len := s64 (cc - l_off l) |> in
    if 0 <? l_len l then
      let cwin := s64 (snd_cwnd tp - u32 (snd_nxt tp - sack_newdata tp) - l_bytes l) in
      let cwin := if cwin <? 0 then 0 else cwin in
      if cwin <? l_len l then no_fin l <| l_len := cwin |> else l
    else l
  else if l_win l <? cc then no_fin l <| l_len := s64 (l_win l - l_off l) |>
  else l <| l_len := s64 (cc - l_off l) |>.

(** The window has shrunk below what was sent. *)
Definition out_shrunk (tp : tcpcb) (l : olocal) : option (tcpcb * olocal) :=
  if 0 <=? l_len l then Some (tp, l)
  else
    let l := no_fin l <| l_len := 0 |> in
    if l_win l =? 0 then
      let tp := (TCP_TIMER_DISARM tp TCPT_REXMT) <| t_rxtshift := 0 |> in
      let tp := tp <| snd_nxt := snd_una tp |> in
      if TCP_TIMER_ISARMED tp TCPT_PERSIST then Some (tp, l)
      else tp ← tcp_setpersist (e_timer_hz (oe_env e)) (e_hz (oe_env e)) tp; Some (tp, l)
    else Some (tp, l).

(** Automatic sizing of the send buffer. *)
Definition out_autosize (st : ostate) (l : olocal) : ostate :=
  let tp := o_tp st in
  let snd := o_snd st in
  if tcp_do_autosndbuf e && o_autosize st &&
     ((sb_hiwat snd <=? u64 (snd_wnd tp / 4 * 5)) && (u64 (sb_hiwat snd / 8 * 7) <=? sb_cc snd) &&
      (sb_cc snd <? tcp_autosndbuf_max e) && (u64 (sb_cc snd - u32 (snd_nxt tp - snd_una tp)) <=? l_win l))
  then
    match sbreserve (e_sb_max (oe_env e)) (oe_sb_max_adj e) snd
            (umin (sb_hiwat snd + tcp_autosndbuf_inc e) (tcp_autosndbuf_max e)) with
    | Some snd => st <| o_snd := snd |>
    | None => st <| o_autosize := false |>
    end
  else st.

(** The length of this segment; a TSO packet is a multiple of [txsegsize]. *)
Definition out_segment (cc : Z) (tp : tcpcb) (l : olocal) : option olocal :=
  l ← (if l_txsegsize l <? l_len l then
         if l_use_tso l then
           if l_txsegsize l =? 0 then None
           else
             let len := umin (l_len l) IP_MAXPACKET / l_txsegsize l * l_txsegsize l in
             let l := l <| l_len := len |> in
             let l := if len <=? l_txsegsize l then l <| l_use_tso := false |> else l in
             Some (no_fin l <| l_sendalot := true |>)
         else Some (no_fin (l <| l_len := l_txsegsize l |>) <| l_sendalot := true |>)
       else Some (l <| l_use_tso := false |>));
  if l_sack_rxmit l then
    i ← l_hole l; p ← snd_holes tp !! i;
    Some (if SEQ_LT (rxmit p + l_len l) (snd_una tp + cc) then no_fin l else l)
  else Some l.

(** Sender silly window avoidance. *)
Definition out_send_data (cc : Z) (idle : bool) (tp : tcpcb) (l : olocal) : bool :=
  negb (l_len l =? 0) &&
  ((l_txsegsize l <=? l_len l)
   || (negb (flag_set (oe_so_state e) SS_MORETOCOME)
       && ((idle || flag_set (t_flags tp) TF_NODELAY) && (cc <=? u64 (l_len l + l_off l))))
   || negb (t_force tp =? 0)
   || (max_sndwnd tp / 2 <=? l_len l)
   || SEQ_LT (snd_nxt tp) (snd_max tp)
   || l_sack_rxmit l).

(** [adv], the difference of two [u_int]. *)
Definition out_adv (tp : tcpcb) (win : Z) : Z :=
  u32 (umin win (Z.shiftl TCP_MAXWIN (rcv_scale tp)) - u32 (rcv_adv tp - rcv_nxt tp)).

Definition out_send_window (rxsegsize : Z) (tp : tcpcb) (l : olocal) : bool :=
  (0 <? l_win l) &&
  ((2 * rxsegsize <=? out_adv tp (l_win l)) || (e_rcv_hiwat (oe_env e) <=? 2 * out_adv tp (l_win l))).

Definition out_send (cc rxsegsize : Z) (idle : bool) (tp : tcpcb) (l : olocal) : bool :=
  out_send_data cc idle tp l || out_send_window rxsegsize tp l || flag_set (t_flags tp) TF_ACKNOW
  || flag_set (l_flags l) (Z.lor (Z.lor TH_SYN TH_FIN) TH_RST) || SEQ_GT (snd_up tp) (snd_una tp).

(** No reason to send: one of the timers has to run while there is data. *)
Definition out_return (cc : Z) (tp : tcpcb) : option tcpcb :=
  let armed := TCP_TIMER_ISARMED tp TCPT_REXMT || TCP_TIMER_ISARMED tp TCPT_PERSIST in
  if TCP_SACK_ENABLED tp && SEQ_GT (snd_max tp) (snd_una tp) && negb armed
  then Some (arm (oe_env e) tp TCPT_REXMT (t_rxtcur tp))
  else if negb (cc =? 0) && negb armed
  then tcp_setpersist (e_timer_hz (oe_env e)) (e_hz (oe_env e)) (tp <| t_rxtshift := 0 |>)
  else Some tp.

(** ** Options *)

Definition OPT_FITS (opt : list Z) (more : Z) : bool := Z.of_nat (length opt) + more <? MAX_TCPOPTLEN.

Definition syn_options (flags : Z) (tp : tcpcb) : list Z * tcpcb :=
  if flag_set flags TH_SYN then
    let tp := tp <| snd_nxt := iss tp |> in
    let tp := tp <| t_ourmss := u16 (tcp_mss_to_advertise (oe_route e)) |> in
    if negb (flag_set (t_flags tp) TF_NOOPT) && OPT_FITS [] 4 then
      let opt := [TCPOPT_MAXSEG; 4; Z.land (Z.shiftr (t_ourmss tp) 8) 255; Z.land (t_ourmss tp) 255] in
      let opt :=
        if flag_set (t_flags tp) TF_REQ_SCALE
           && (negb (flag_set flags TH_ACK) || flag_set (t_flags tp) TF_RCVD_SCALE) && OPT_FITS opt 4
        then opt ++ [TCPOPT_NOP; TCPOPT_WINDOW; TCPOLEN_WINDOW; request_r_scale tp]
        else opt in
      let opt :=
        if tcp_do_sack (oe_env e) && OPT_FITS opt 4
        then opt ++ [TCPOPT_SACK_PERMITTED; 2; TCPOPT_NOP; TCPOPT_NOP] else opt in
      (opt, tp)
    else ([], tp)
  else ([], tp).

Definition TCP_TIMESTAMP (tp : tcpcb) : Z := u32 (e_now (oe_env e) - ts_timebase tp).

Definition sends_timestamp (flags : Z) (opt : list Z) (tp : tcpcb) : bool :=
  (Z.land (t_flags tp) (Z.lor TF_REQ_TSTMP TF_NOOPT) =? TF_REQ_TSTMP) && negb (flag_set flags TH_RST)
  && ((Z.land flags (Z.lor TH_SYN TH_ACK) =? TH_SYN) || flag_set (t_flags tp) TF_RCVD_TSTMP)
  && OPT_FITS opt TCPOLEN_TSTAMP_APPA.

Definition timestamp_option (flags : Z) (r : list Z * tcpcb) : list Z * tcpcb :=
  let '(opt, tp) := r in
  if sends_timestamp flags opt tp then
    (opt ++ be32 TCPOPT_TSTAMP_HDR ++ be32 (TCP_TIMESTAMP tp) ++ be32 (ts_recent tp),
     if (rfbuf_ts tp =? 0) && e_rcv_autosize (oe_env e) then tp <| rfbuf_ts := TCP_TIMESTAMP tp |> else tp)
  else r.

(** The blocks at the head of [timeq]; [None] is [KASSERT(tiqe != NULL)]. *)
Fixpoint opt_sack_blocks (n : nat) (q : list ipqent) : option (list Z) :=
  match n, q with
  | O, _ => Some []
  | S n, tiqe :: q =>
      rest ← opt_sack_blocks n q;
      Some (be32 (ipqe_seq tiqe)
            ++ be32 (u32 (ipqe_seq tiqe + ipqe_len tiqe + (if flag_set (ipqe_flags tiqe) TH_FIN then 1 else 0))) ++ rest)
  | S _, [] => None
  end.

Definition sack_option (numblks : Z) (r : list Z * tcpcb) : option (list Z * tcpcb) :=
  let '(opt, tp) := r in
  if numblks =? 0 then Some r
  else
    let sack_len := numblks * 8 + 2 in
    if OPT_FITS opt (sack_len + 2) then
      let bp := [TCPOPT_NOP; TCPOPT_NOP; TCPOPT_SACK; sack_len] in
      if flag_set (rcv_sack_flags tp) TCPSACK_HAVED then
        blocks ← opt_sack_blocks (Z.to_nat (numblks - 1)) (oe_timeq e);
        Some (opt ++ bp ++ be32 (left (rcv_dsack_block tp)) ++ be32 (right (rcv_dsack_block tp)) ++ blocks,
              tp <| rcv_sack_flags := flag_clear (rcv_sack_flags tp) TCPSACK_HAVED |>)
      else
        blocks ← opt_sack_blocks (Z.to_nat numblks) (oe_timeq e);
        Some (opt ++ bp ++ blocks, tp)
    else Some r.

Definition build_options (flags numblks : Z) (tp : tcpcb) : option (list Z * tcpcb) :=
  sack_option numblks (timestamp_option flags (syn_options flags tp)).

(** ** The packet *)

(** The chain from the mbuf at [a] on. *)
Fixpoint chain_from (a : addr) (l : list (addr * list Z)) : option (list (addr * list Z)) :=
  match l with
  | [] => None
  | m :: l' => if bool_decide (m.1 = a) then Some l else chain_from a l'
  end.

(** [while (tp->t_inoff > 0)] *)
Fixpoint seek (l : list (addr * list Z)) (inoff : Z) : option (list (addr * list Z) * Z) :=
  if inoff <=? 0 then Some (l, inoff)
  else
    match l with
    | [] => None
    | m :: l' =>
        let len := Z.of_nat (length m.2) in
        if inoff <? len then Some (l, inoff) else seek l' (inoff - len)
    end.

(** Where the data at [off] begins: from the position of the previous packet
    when the data follows it. *)
Definition datapkt_start (tp : tcpcb) (off : Z) : option (list (addr * list Z) * Z) :=
  match t_lastm tp with
  | Some a =>
      if (off =? 0) || negb (s32 (t_lastoff tp + t_lastlen tp) =? off) then Some (oe_mb e, off)
      else l ← chain_from a (oe_mb e); Some (l, s32 (t_inoff tp + t_lastlen tp))
  | None => Some (oe_mb e, off)
  end.

(** MGETHDR and MCLGET, which never attaches a cluster. *)
Definition get_header (tries : nat) (hdrlen : Z) : bool :=
  oe_mget e tries && negb (MHLEN <? max_linkhdr e + hdrlen).

(** [tcp_build_datapkt] with [len > 0]: the error, the data and the control
    block.  M_TRAILINGSPACE is 0, so that the data is always shared
    ([m_copym]); its length is checked there. *)
Definition tcp_build_datapkt (tries : nat) (tp : tcpcb) (off len hdrlen : Z) : option (Z * list Z * tcpcb) :=
  if negb (get_header tries hdrlen) then Some (ENOBUFS, [], tp)
  else
    '(l, inoff) ← datapkt_start tp off;
    '(l, inoff) ← seek l inoff;
    let tp := tp <| t_lastm := fst <$> head l |> <| t_inoff := inoff |>
                 <| t_lastoff := off |> <| t_lastlen := s32 len |> in
    if negb (oe_copym e tries) then Some (ENOBUFS, [], tp)
    else
      let avail := drop (Z.to_nat inoff) (concat (snd <$> l)) in
      if Z.of_nat (length avail) <? len then None
      else Some (0, take (Z.to_nat len) avail, tp).

(** The data of the packet, [TH_PUSH] when it is all that there is. *)
Definition out_data (cc : Z) (tries : nat) (hdrlen : Z) (tp : tcpcb) (l : olocal) : option (Z * list Z * tcpcb * olocal) :=
  if l_len l =? 0 then
    Some (if get_header tries hdrlen then (0, [], tp, l) else (ENOBUFS, [], tp, l))
  else
    '(error, data, tp) ← tcp_build_datapkt tries tp (l_off l) (l_len l) hdrlen;
    Some (error, data, tp,
      if (error =? 0) && (u64 (l_off l + l_len l) =? cc) then l <| l_flags := Z.lor (l_flags l) TH_PUSH |> else l).

(** Explicit congestion notification: in the SYN of an active open. *)
Definition ecn_syn (tp : tcpcb) (l : olocal) : tcpcb * olocal :=
  let ece_cwr := Z.lor TH_ECE TH_CWR in
  if (t_state tp =? TCPS_SYN_SENT) && tcp_do_ecn (oe_env e) then
    if flag_set (t_flags tp) TF_SYN_REXMT then
      (tp <| t_ecn_retries := u8 (t_ecn_retries tp - 1) |>,
       if t_ecn_retries tp =? 0 then l else l <| l_flags := Z.lor (l_flags l) ece_cwr |>)
    else (tp <| t_ecn_retries := u8 (tcp_ecn_maxretries e) |>, l <| l_flags := Z.lor (l_flags l) ece_cwr |>)
  else (tp, l).

(** [ecn_tos] and the notifications of the other segments. *)
Definition out_ecn (tp : tcpcb) (l : olocal) : tcpcb * olocal * bool :=
  let '(tp, l) := ecn_syn tp l in
  if TCP_ECN_ALLOWED tp then
    let ect := (0 <? l_len l) && SEQ_GEQ (snd_nxt tp) (snd_max tp)
               && negb (negb (t_force tp =? 0) && (l_len l =? 1)) in
    let cwr := flag_set (t_flags tp) TF_ECN_SND_CWR in
    let tp := if cwr then tp <| t_flags := flag_clear (t_flags tp) TF_ECN_SND_CWR |> else tp in
    let l := if cwr then l <| l_flags := Z.lor (l_flags l) TH_CWR |> else l in
    (tp, if flag_set (t_flags tp) TF_ECN_SND_ECE then l <| l_flags := Z.lor (l_flags l) TH_ECE |> else l, ect)
  else (tp, l, false).

Definition set_rxmit (i : nat) (f : tcp_seq -> tcp_seq) (tp : tcpcb) : tcpcb :=
  tp <| snd_holes := alter (fun p => p <| rxmit := u32 (f (rxmit p)) |>) i (snd_holes tp) |>.

(** [th_seq], and the advance of the hole that is retransmitted. *)
Definition out_seq (tp : tcpcb) (l : olocal) : option (tcp_seq * tcpcb) :=
  if TCP_SACK_ENABLED tp && l_sack_rxmit l then
    i ← l_hole l; p ← snd_holes tp !! i;
    Some (rxmit p, set_rxmit i (fun r => r + l_len l) tp)
  else if negb (l_len l =? 0) || flag_set (l_flags l) (Z.lor TH_SYN TH_FIN) || TCP_TIMER_ISARMED tp TCPT_PERSIST
  then Some (snd_nxt tp, tp)
  else Some (snd_max tp, tp).

(** The window that is advertised: never smaller than what was promised. *)
Definition out_window (rxsegsize : Z) (tp : tcpcb) (win : Z) : Z :=
  let win := if (win <? e_rcv_hiwat (oe_env e) / 4) && (win <? rxsegsize) then 0 else win in
  let win := if Z.shiftl TCP_MAXWIN (rcv_scale tp) <? win then Z.shiftl TCP_MAXWIN (rcv_scale tp) else win in
  if win <? s32 (rcv_adv tp - rcv_nxt tp) then s32 (rcv_adv tp - rcv_nxt tp) else win.

(** The urgent pointer: [th_urp], the flag and the control block. *)
Definition out_urgent (tp : tcpcb) (flags : Z) : Z * Z * tcpcb :=
  if SEQ_GT (snd_up tp) (snd_nxt tp)
  then (Z.min (u32 (snd_up tp - snd_nxt tp)) IP_MAXPACKET, Z.lor flags TH_URG, tp)
  else (0, flags, tp <| snd_up := snd_una tp |>).

(** [snd_nxt], [snd_max], the measurement of the round-trip time and the
    retransmission timer. *)
Definition out_advance (tp : tcpcb) (l : olocal) : tcpcb :=
  if (t_force tp =? 0) || negb (TCP_TIMER_ISARMED tp TCPT_PERSIST) then
    let startseq := snd_nxt tp in
    let tp := if flag_set (l_flags l) (Z.lor TH_SYN TH_FIN) then tp <| snd_nxt := u32 (snd_nxt tp + 1) |> else tp in
    let tp :=
      if l_sack_rxmit l then tp
      else
        let tp := tp <| snd_nxt := u32 (snd_nxt tp + l_len l) |> in
        if SEQ_GT (snd_nxt tp) (snd_max tp) then
          let tp := tp <| snd_max := snd_nxt tp |> in
          if t_rtttime tp =? 0
          then tp <| t_rtttime := e_now (oe_env e) |> <| t_rtseq := startseq |> else tp
        else tp in
    if negb (TCP_TIMER_ISARMED tp TCPT_REXMT)
       && ((l_sack_rxmit l && negb (snd_nxt tp =? snd_max tp)) || negb (snd_nxt tp =? snd_una tp))
    then
      let tp := if TCP_TIMER_ISARMED tp TCPT_PERSIST
                then (TCP_TIMER_DISARM tp TCPT_PERSIST) <| t_rxtshift := 0 |> else tp in
      arm (oe_env e) tp TCPT_REXMT (t_rxtcur tp)
    else tp
  else if SEQ_GT (snd_nxt tp + l_len l) (snd_max tp) then tp <| snd_max := u32 (snd_nxt tp + l_len l) |>
  else tp.

Definition TCP_RESTART_DELACK (tp : tcpcb) : tcpcb :=
  let te := oe_env e in
  tp <| t_delack_ch :=
    callout_reset (e_timer_hz te) (e_hz te) (t_delack_ch tp) (e_delack_ticks te) (Some (e_delack te)) (Some (e_tp te)) |>.

Definition TCP_CLEAR_DELACK (tp : tcpcb) : tcpcb :=
  if flag_set (t_flags tp) TF_DELACK
  then tp <| t_flags := flag_clear (t_flags tp) TF_DELACK |> <| t_delack_ch := callout_stop (t_delack_ch tp) |>
  else tp.

(** The errors that the caller does not see. *)
Definition error_status (error : Z) (tp : tcpcb) : Z * tcpcb :=
  if error =? ENOBUFS then (0, if t_inpcb tp then tcp_quench tp else tp)
  else if ((error =? EHOSTUNREACH) || (error =? ENETDOWN)) && TCPS_HAVERCVDSYN (t_state tp)
  then (0, tp <| t_softerror := error |>)
  else (error, tp).

(** The label [out]. *)
Definition out_error (error : Z) (tp : tcpcb) (l : olocal) : Z * tcpcb :=
  let '(error, tp) := error_status error tp in
  let tp := match l_hole l with
            | Some i => if l_sack_rxmit l then set_rxmit i (fun r => r - l_len l) tp else tp
            | None => tp
            end in
  (error, if flag_set (t_flags tp) TF_DELACK then TCP_RESTART_DELACK tp else tp).

(** A segment has been sent. *)
Definition out_sent (win packetlen : Z) (tp : tcpcb) : tcpcb :=
  let tp := if t_pmtud_mtu_sent tp <? packetlen then tp <| t_pmtud_mtu_sent := packetlen |> else tp in
  let tp := if (0 <? win) && SEQ_GT (rcv_nxt tp + win) (rcv_adv tp)
            then tp <| rcv_adv := u32 (rcv_nxt tp + win) |> else tp in
  let tp := tp <| last_ack_sent := rcv_nxt tp |> <| t_flags := flag_clear (t_flags tp) TF_ACKNOW |> in
  TCP_CLEAR_DELACK tp.

(** ** One pass *)

Inductive opass := OAgain (st : ostate) | ODone (error : Z) (st : ostate).

(** From [send] on. *)
Definition out_transmit (rxsegsize : Z) (st : ostate) (l : olocal) : option opass :=
  let tries := o_tries st in
  let cc := sb_cc (o_snd st) in
  '(opt, tp) ← build_options (l_flags l) (l_numblks l) (o_tp st);
  let optlen := Z.of_nat (length opt) in
  let hdrlen := sizeof_tcpiphdr + optlen in
  '(error, data, tp, l) ← out_data cc tries hdrlen tp l;
  let st := st <| o_tries := S tries |> in
  if negb (error =? 0) then
    let '(error, tp) := out_error error tp l in Some (ODone error (st <| o_tp := tp |>))
  else
    '(tmpl_len, tmpl_sum) ← t_template e;
    if tmpl_len <? sizeof_tcpiphdr then None
    else
      let '(tp, l, ect) := out_ecn tp l in
      '(th_seq, tp) ← out_seq tp l;
      let win := out_window rxsegsize tp (l_win l) in
      let '(urp, th_flags, tp) := out_urgent tp (l_flags l) in
      let th_sum := if l_use_tso l || (l_len l + optlen =? 0) then tmpl_sum
                    else in_cksum_addword tmpl_sum (htons (u16 (l_len l + optlen))) in
      let pkt := mkOpkt th_seq (rcv_nxt tp) th_flags (u16 (Z.shiftr win (rcv_scale tp))) urp th_sum opt data
                   (hdrlen + l_len l) (if l_use_tso l then Some (l_txsegsize l) else None) ect in
      let tp := out_advance tp l in
      let error := ip_output e tries pkt in
      if negb (error =? 0) then
        let '(error, tp) := out_error error tp l in Some (ODone error (st <| o_tp := tp |>))
      else
        let st := st <| o_tp := out_sent win (hdrlen + l_len l) tp |> <| o_sent := o_sent st ++ [pkt] |> in
        Some (if l_sendalot l then OAgain st else ODone 0 st).

(** From [again] to the decision whether to send. *)
Definition out_prepare (nosack : Z) (has_tso : bool) (st : ostate) : option (ostate * olocal) :=
  let cc := sb_cc (o_snd st) in
  let room := out_sack_room nosack has_tso (o_tp st) in
  let tp := out_adjust (o_tp st) in
  l ← out_sack_rexmit cc tp (out_locals room tp);
  let '(tp, l) := out_force cc tp l in
  let l := out_length cc tp l in
  '(tp, l) ← out_shrunk tp l;
  let st := out_autosize (st <| o_tp := tp |>) l in
  l ← out_segment cc (o_tp st) l;
  Some (st, l <| l_win := e_rcv_space (oe_env e) |>).

Definition out_pass (nosack rxsegsize : Z) (has_tso idle : bool) (st : ostate) : option opass :=
  '(st, l) ← out_prepare nosack has_tso st;
  let cc := sb_cc (o_snd st) in
  if out_send cc rxsegsize idle (o_tp st) l then out_transmit rxsegsize st l
  else tp ← out_return cc (o_tp st); Some (ODone 0 (st <| o_tp := tp |>)).

(** [sendalot && (tp->t_congctl == &tcp_reno_ctl || --maxburst)] *)
Inductive ores := OFuel | OExit | OReturn (error : Z) (st : ostate).

Fixpoint out_loop (fuel : nat) (maxburst nosack rxsegsize : Z) (has_tso idle : bool) (st : ostate) : ores :=
  match fuel with
  | O => OFuel
  | S fuel =>
      match out_pass nosack rxsegsize has_tso idle st with
      | None => OExit
      | Some (ODone error st) => OReturn error st
      | Some (OAgain st) =>
          if bool_decide (t_congctl (o_tp st) = Some tcp_reno_ctl)
          then out_loop fuel maxburst nosack rxsegsize has_tso idle st
          else if maxburst - 1 =? 0 then OReturn 0 st
          else out_loop fuel (maxburst - 1) nosack rxsegsize has_tso idle st
      end
  end.

Definition tcp_output_run (fuel : nat) (st : ostate) : ores :=
  let tp := o_tp st in
  if negb (oe_inet e) then OReturn EAFNOSUPPORT st
  else if negb (t_inpcb tp) then OReturn EINVAL st
  else
    match tcp_segsize tp (o_snd st) with
    | None => OReturn EMSGSIZE st
    | Some (txsegsize, rxsegsize, tp) =>
        let idle := snd_max tp =? snd_una tp in
        let has_tso := out_has_tso tp in
        let tp := out_restart idle txsegsize tp in
        out_loop fuel TCP_MAXBURST txsegsize rxsegsize has_tso idle (st <| o_tp := tp |>)
    end.
End output.
