(* ===== verification/TcpOutputFacts.v ===== *)
(** * What [tcp_output] leaves alone

    Frames of the stages of [tcp_output]: fields that no stage changes, and the
    interface that [tcp_input] and the timers assume of the send routine. *)

From S2P Require Import Prelude Pool TcpSeq Callout Tcpcb TcpSack TcpSackFacts TcpCongctl TcpTimer Mbuf Sockbuf.
From S2P Require Import SockState TcpOptions TcpReass TcpInput TcpInputFacts TcpOutput.

(** The control block after a call, in a form that the callers use: the result
    of a call that ends the process does not matter. *)
Definition output_tp (e : oenv) (fuel : nat) (snd : sockbuf) (autosize : bool) (tp : tcpcb) : tcpcb :=
  match tcp_output_run e fuel (mkOst tp snd autosize 0 []) with
  | OReturn _ st => o_tp st
  | _ => tp
  end.

(** Fields of the control block that no stage assigns. *)
Definition oframe (tp : tcpcb) :=
  (t_state tp, rcv_nxt tp, t_segqlen tp, snd_una tp, snd_wnd tp, iss tp, rcv_scale tp, t_inpcb tp, t_congctl tp,
   t_partialacks tp, t_force tp, rcv_lastsack tp).

Lemma oframe_rview tp tp' : oframe tp = oframe tp' -> rview tp = rview tp'.
Proof. unfold oframe, rview. congruence. Qed.

(** With the right edge of the window that has been advertised, which changes only
    when a segment has been sent. *)
Definition aframe (tp : tcpcb) := (oframe tp, rcv_adv tp).

Lemma aframe_oframe tp tp' : aframe tp = aframe tp' -> oframe tp = oframe tp'.
Proof. unfold aframe. congruence. Qed.

Lemma aframe_disarm tp i : aframe (TCP_TIMER_DISARM tp i) = aframe tp.
Proof. unfold TCP_TIMER_DISARM, aframe, oframe. frame_cases. Qed.

Lemma aframe_arm hz1 hz2 tp i n : aframe (TCP_TIMER_ARM hz1 hz2 tp i n) = aframe tp.
Proof. unfold TCP_TIMER_ARM, aframe, oframe. frame_cases. Qed.

Lemma aframe_setpersist hz1 hz2 tp tp' : tcp_setpersist hz1 hz2 tp = Some tp' -> aframe tp' = aframe tp.
Proof.
  unfold tcp_setpersist. case_match; [done|]. intros [= <-].
  match goal with |- context [TCP_TIMER_ARM ?a ?b ?t ?i ?n] => rewrite <- (aframe_arm a b t i n); set (x := TCP_TIMER_ARM a b t i n) end.
  unfold aframe, oframe. frame_cases.
Qed.

Lemma aframe_adjust_loop rest : forall cur tp, aframe (sack_adjust_loop tp cur rest) = aframe tp.
Proof. induction rest as [|n rest IH]; intros cur tp; simpl; repeat case_match; rewrite ?IH; done. Qed.

Lemma aframe_adjust tp : aframe (out_adjust tp) = aframe tp.
Proof. unfold out_adjust, tcp_sack_adjust. repeat case_match; rewrite ?aframe_adjust_loop; done. Qed.

Section frames.
Variable e : oenv.

Lemma aframe_segsize tp snd tx rx tp' : tcp_segsize e tp snd = Some (tx, rx, tp') -> aframe tp' = aframe tp.
Proof.
  unfold tcp_segsize. generalize (segsize_route e tp). intros f.
  repeat (case_match; try done); intros [= _ _ <-]; unfold aframe, oframe; upd_simpl; done.
Qed.

Lemma aframe_restart idle tx tp : aframe (out_restart e idle tx tp) = aframe tp.
Proof. unfold out_restart, aframe, oframe. frame_cases. Qed.

Lemma aframe_force cc tp l : aframe (out_force cc tp l).1 = aframe tp.
Proof.
  unfold out_force. repeat case_match; simpl; try done.
  rewrite <- (aframe_disarm tp TCPT_PERSIST). set (x := TCP_TIMER_DISARM _ _). unfold aframe, oframe. upd_simpl. done.
Qed.

Lemma aframe_shrunk tp l tp' l' : out_shrunk e tp l = Some (tp', l') -> aframe tp' = aframe tp.
Proof.
  unfold out_shrunk. pose proof (aframe_disarm tp TCPT_REXMT) as Ex.
  set (x := TCP_TIMER_DISARM tp TCPT_REXMT) in *. clearbody x.
  case_match; [by intros [= <- <-]|]. case_match; [|by intros [= <- <-]].
  rewrite <- Ex. case_match; [by intros [= <- <-]|].
  destruct (tcp_setpersist _ _ _) as [y|] eqn:P; [|done]. intros [= <- <-].
  apply aframe_setpersist in P. rewrite P. done.
Qed.

Lemma aframe_return cc tp tp' : out_return e cc tp = Some tp' -> aframe tp' = aframe tp.
Proof.
  unfold out_return, arm. repeat case_match; intros E; simplify_eq; try done; [apply aframe_arm|].
  apply aframe_setpersist in E. rewrite E. unfold aframe, oframe. by upd_simpl.
Qed.

Lemma aframe_options flags n tp opt tp' : build_options e flags n tp = Some (opt, tp') -> aframe tp' = aframe tp.
Proof.
  unfold build_options.
  assert (aframe (syn_options e flags tp).2 = aframe tp) as E1.
  { unfold syn_options. case_match; [|done]. case_match; unfold aframe, oframe; simpl; upd_simpl; done. }
  destruct (syn_options e flags tp) as [o1 tp1]. simpl in E1.
  assert (aframe (timestamp_option e flags (o1, tp1)).2 = aframe tp1) as E2.
  { unfold timestamp_option. repeat case_match; simplify_eq/=; done. }
  destruct (timestamp_option _ _ _) as [o2 tp2]. simpl in E2. rewrite <- E1, <- E2. clear.
  unfold sack_option. repeat case_match; intros H'; simplify_option_eq; done.
Qed.

Lemma aframe_datapkt tries tp off len hdrlen r :
  tcp_build_datapkt e tries tp off len hdrlen = Some r -> aframe r.2 = aframe tp.
Proof.
  unfold tcp_build_datapkt. case_match; [by intros [= <-]|].
  destruct (datapkt_start _ _ _) as [[? ?]|]; [|done]. simpl. destruct (seek _ _) as [[? ?]|]; [|done]. simpl.
  repeat case_match; intros E; simplify_eq/=; unfold aframe, oframe; upd_simpl; done.
Qed.

Lemma aframe_data cc tries hdrlen tp l error data tp' l' :
  out_data e cc tries hdrlen tp l = Some (error, data, tp', l') -> aframe tp' = aframe tp.
Proof.
  unfold out_data. case_match; [by case_match; intros [= _ _ <- _]|].
  destruct (tcp_build_datapkt _ _ _ _ _ _) as [[[? ?] ?]|] eqn:E; [|done].
  apply aframe_datapkt in E. by intros [= _ _ <- _].
Qed.

Lemma aframe_ecn tp l : aframe (out_ecn e tp l).1.1 = aframe tp.
Proof.
  assert (aframe (ecn_syn e tp l).1 = aframe tp) as E by (unfold ecn_syn; repeat case_match; done).
  unfold out_ecn. destruct (ecn_syn e tp l) as [tp1 l1]. simpl in E. rewrite <- E.
  case_match; [|done]. simpl. by destruct (flag_set (t_flags tp1) TF_ECN_SND_CWR).
Qed.

Lemma aframe_seq tp l s tp' : out_seq tp l = Some (s, tp') -> aframe tp' = aframe tp.
Proof. unfold out_seq, set_rxmit. repeat case_match; intros E; simplify_option_eq; done. Qed.

Lemma aframe_urgent tp flags : aframe (out_urgent tp flags).2 = aframe tp.
Proof. unfold out_urgent. by case_match. Qed.


Lemma aframe_advance tp l : aframe (out_advance e tp l) = aframe tp.
Proof.
  unfold out_advance, arm. case_match; [|by case_match].
  match goal with |- context [if l_sack_rxmit l then ?a else ?b] => set (x := if l_sack_rxmit l then a else b) end.
  assert (aframe x = aframe tp) as Ex by (subst x; repeat case_match; unfold aframe, oframe; upd_simpl; done).
  clearbody x. case_match; [|done]. rewrite aframe_arm. case_match; [|done].
  rewrite <- Ex, <- (aframe_disarm x TCPT_PERSIST). set (y := TCP_TIMER_DISARM _ _). done.
Qed.

Lemma aframe_set_rxmit i f tp : aframe (set_rxmit i f tp) = aframe tp.
Proof. done. Qed.

Lemma aframe_error error tp l : aframe (out_error e error tp l).2 = aframe tp.
Proof.
  assert (aframe (error_status error tp).2 = aframe tp) as E by (unfold error_status; repeat case_match; done).
  unfold out_error. destruct (error_status error tp) as [e1 tp1]. simpl in *. rewrite <- E.
  unfold TCP_RESTART_DELACK. repeat case_match; done.
Qed.

Lemma aframe_error_eq error tp l error' tp' : out_error e error tp l = (error', tp') -> aframe tp' = aframe tp.
Proof. intros E. rewrite <- (aframe_error error tp l). by rewrite E. Qed.

Lemma oframe_sent win n tp : oframe (out_sent win n tp) = oframe tp.
Proof. unfold out_sent, TCP_CLEAR_DELACK. repeat case_match; unfold oframe; upd_simpl; done. Qed.

Lemma out_autosize_tp st l : o_tp (out_autosize e st l) = o_tp st.
Proof. unfold out_autosize. by repeat case_match. Qed.

Lemma out_autosize_sent st l : o_sent (out_autosize e st l) = o_sent st.
Proof. unfold out_autosize. by repeat case_match. Qed.

Lemma out_autosize_tries st l : o_tries (out_autosize e st l) = o_tries st.
Proof. unfold out_autosize. by repeat case_match. Qed.

Lemma out_autosize_cc st l : sb_cc (o_snd (out_autosize e st l)) = sb_cc (o_snd st).
Proof.
  unfold out_autosize, sbreserve. repeat case_match; simplify_eq; upd_simpl; try done; case_match; by upd_simpl.
Qed.

Lemma aframe_prepare nosack tso st st' l :
  out_prepare e nosack tso st = Some (st', l) -> aframe (o_tp st') = aframe (o_tp st).
Proof.
  unfold out_prepare. rewrite <- (aframe_adjust (o_tp st)).
  generalize (out_sack_room nosack tso (o_tp st)) as room. generalize (out_adjust (o_tp st)) as tp. intros tp room.
  destruct (out_sack_rexmit _ _ _) as [l0|]; [|done]. cbn [mbind option_bind].
  pose proof (aframe_force (sb_cc (o_snd st)) tp l0) as <-. destruct (out_force _ _ _) as [tp1 l1]. cbn [fst].
  destruct (out_shrunk _ _ _) as [[tp2 l2]|] eqn:E; [|done]. apply aframe_shrunk in E as <-. cbn [mbind option_bind].
  destruct (out_segment _ _ _) as [l3|]; [|done]. cbn [mbind option_bind]. intros [= <- _].
  by rewrite out_autosize_tp.
Qed.

Definition pass_state (r : opass) : ostate := match r with OAgain st => st | ODone _ st => st end.

Lemma oframe_transmit rx st l r :
  out_transmit e rx st l = Some r -> oframe (o_tp (pass_state r)) = oframe (o_tp st).
Proof.
  unfold out_transmit. destruct (build_options _ _ _ _) as [[opt tp]|] eqn:E; [|done].
  apply aframe_options, aframe_oframe in E as <-. cbn [mbind option_bind].
  destruct (out_data _ _ _ _ _ _) as [[[[err data] tp1] l1]|] eqn:E; [|done]. apply aframe_data, aframe_oframe in E as <-.
  cbn [mbind option_bind]. case_match.
  { destruct (out_error _ _ _ _) as [err' tp6] eqn:E. apply aframe_error_eq, aframe_oframe in E as <-. by intros [= <-]. }
  destruct (t_template e) as [[? ?]|]; [|done]. cbn [mbind option_bind]. case_match; [done|].
  pose proof (aframe_oframe _ _ (aframe_ecn tp1 l1)) as <-. destruct (out_ecn _ _ _) as [[tp2 l2] ect]. cbn [fst].
  destruct (out_seq _ _) as [[s tp3]|] eqn:E; [|done]. apply aframe_seq, aframe_oframe in E as <-. cbn [mbind option_bind].
  pose proof (aframe_oframe _ _ (aframe_urgent tp3 (l_flags l2))) as <-. destruct (out_urgent _ _) as [[urp fl] tp4]. cbn [snd].
  rewrite <- (aframe_oframe _ _ (aframe_advance tp4 l2)). generalize (out_advance e tp4 l2) as tp5. intros tp5. case_match.
  { destruct (out_error _ _ _ _) as [err' tp6] eqn:E. apply aframe_error_eq, aframe_oframe in E as <-. by intros [= <-]. }
  match goal with |- context [out_sent ?w ?n tp5] => rewrite <- (oframe_sent w n tp5); generalize (out_sent w n tp5) end.
  intros tp6. destruct (l_sendalot l2); by intros [= <-].
Qed.

Lemma oframe_pass nosack rx tso idle st r :
  out_pass e nosack rx tso idle st = Some r -> oframe (o_tp (pass_state r)) = oframe (o_tp st).
Proof.
  unfold out_pass. destruct (out_prepare _ _ _ _) as [[st1 l]|] eqn:E; [|done].
  apply aframe_prepare, aframe_oframe in E as <-. cbn [mbind option_bind]. case_match; [apply oframe_transmit|].
  destruct (out_return _ _ _) as [tp|] eqn:E; [|done]. apply aframe_return, aframe_oframe in E as <-. by intros [= <-].
Qed.

Lemma oframe_loop fuel nosack rx tso idle : forall maxburst st error st',
  out_loop e fuel maxburst nosack rx tso idle st = OReturn error st' -> oframe (o_tp st') = oframe (o_tp st).
Proof.
  induction fuel as [|fuel IH]; intros maxburst st error st'; simpl; [done|].
  destruct (out_pass _ _ _ _ _ _) as [r|] eqn:E; [|done]. apply oframe_pass in E as <-.
  destruct r as [st1|error1 st1]; simpl; [|by intros [= _ <-]].
  repeat case_match; [apply IH|by intros [= _ <-]|apply IH].
Qed.

Lemma oframe_run fuel st error st' :
  tcp_output_run e fuel st = OReturn error st' -> oframe (o_tp st') = oframe (o_tp st).
Proof.
  unfold tcp_output_run. case_match; [by intros [= _ <-]|]. case_match; [by intros [= _ <-]|].
  destruct (tcp_segsize _ _ _) as [[[tx rx] tp]|] eqn:E; [|by intros [= _ <-]]. apply aframe_segsize, aframe_oframe in E as <-.
  intros E. apply oframe_loop in E. rewrite E. apply aframe_oframe, aframe_restart.
Qed.
End frames.

(** The send routine, whatever it sends and whatever errors it meets, leaves
    the connection state, the next expected sequence number and the reassembly
    queue alone: the interface that the theorems about [tcp_input] use. *)
Theorem tcp_output_keeps_receive_side e fuel snd autosize : output_keeps_rcv (output_tp e fuel snd autosize).
Proof.
  intros tp. unfold output_tp. destruct (tcp_output_run _ _ _) as [| |error st] eqn:E; [done|done|].
  apply oframe_run in E. by apply oframe_rview in E.
Qed.
