(* ===== verification/TcpOutputStream.v ===== *)
(** * What [tcp_output] sends

    Every segment that carries data carries, at its sequence number, the bytes
    of the send buffer that belong there, whether it is new, retransmitted after
    a timeout or fills a hole that the peer reported; and every call returns. *)

From S2P Require Import Prelude Pool TcpSeq Callout Tcpcb TcpSack TcpSackFacts TcpCongctl TcpTimer Mbuf Sockbuf.
From S2P Require Import SockState TcpOptions TcpReass TcpInput TcpInputFacts TcpOutput TcpOutputFacts.

(** ** The position in the chain of mbufs *)

(** The bytes of a chain. *)
Definition mb_bytes (mb : list (addr * list Z)) : list Z := concat mb.*2.

(** [t_lastm] points to the mbuf that begins at offset [t_lastoff - t_inoff]. *)
Definition cached (mb : list (addr * list Z)) (tp : tcpcb) : Prop :=
  match t_lastm tp with
  | None => True
  | Some a => exists pre m suf, mb = pre ++ (a, m) :: suf /\
      Z.of_nat (length (mb_bytes pre)) = t_lastoff tp - t_inoff tp /\
      0 <= t_inoff tp /\ 0 <= t_lastlen tp /\ t_lastoff tp + t_lastlen tp < 2 ^ 31
  end.

Lemma cached_ext mb tp tp' :
  (t_lastm tp', t_inoff tp', t_lastoff tp', t_lastlen tp') = (t_lastm tp, t_inoff tp, t_lastoff tp, t_lastlen tp) ->
  cached mb tp -> cached mb tp'.
Proof. unfold cached. by intros [= -> -> -> ->]. Qed.

Lemma mb_bytes_app l k : mb_bytes (l ++ k) = mb_bytes l ++ mb_bytes k.
Proof. unfold mb_bytes. by rewrite fmap_app, concat_app. Qed.

Lemma chain_from_split a m pre suf :
  NoDup (pre ++ (a, m) :: suf).*1 -> chain_from a (pre ++ (a, m) :: suf) = Some ((a, m) :: suf).
Proof.
  induction pre as [|[b x] pre IH]; simpl.
  - intros _. by rewrite bool_decide_eq_true_2.
  - intros [N ND]%NoDup_cons. rewrite bool_decide_eq_false_2; [by apply IH|]. intros ->.
    apply N. rewrite fmap_app. simpl. set_solver.
Qed.

(** [seek] stops at the mbuf that holds the byte at the offset. *)
Lemma seek_spec l : forall inoff,
  0 <= inoff <= Z.of_nat (length (mb_bytes l)) ->
  exists pre l' i, seek l inoff = Some (l', i) /\ l = pre ++ l' /\ 0 <= i /\
    Z.of_nat (length (mb_bytes pre)) = inoff - i.
Proof.
  induction l as [|[a m] l IH]; intros inoff Hin; simpl.
  - assert (inoff = 0) as -> by (simpl in Hin; lia). simpl. by exists [], [], 0.
  - destruct (Z.leb_spec inoff 0); [exists [], ((a, m) :: l), inoff; repeat split; simpl; lia|].
    destruct (Z.ltb_spec inoff (Z.of_nat (length m))); [exists [], ((a, m) :: l), inoff; repeat split; simpl; lia|].
    change (mb_bytes ((a, m) :: l)) with (m ++ mb_bytes l) in Hin. rewrite length_app in Hin.
    destruct (IH (inoff - Z.of_nat (length m))) as (pre & l' & i & -> & -> & Hi & E); [lia|].
    exists ((a, m) :: pre), l', i. split; [done|]. split; [done|]. split; [done|].
    change (mb_bytes ((a, m) :: pre)) with (m ++ mb_bytes pre). rewrite length_app. lia.
Qed.

Section datapkt.
Context (e : oenv) (ND : NoDup (oe_mb e).*1).

(** Wherever the walk starts, it reaches the same position. *)
Lemma datapkt_start_spec tp off :
  cached (oe_mb e) tp -> 0 <= off <= Z.of_nat (length (mb_bytes (oe_mb e))) -> off < 2 ^ 31 ->
  exists pre l inoff, datapkt_start e tp off = Some (l, inoff) /\ oe_mb e = pre ++ l /\
    Z.of_nat (length (mb_bytes pre)) = off - inoff /\ 0 <= inoff <= Z.of_nat (length (mb_bytes l)).
Proof using ND.
  unfold cached, datapkt_start. intros C Ho Hm.
  assert (exists pre l inoff, Some (oe_mb e, off) = Some (l, inoff) /\ oe_mb e = pre ++ l /\
    Z.of_nat (length (mb_bytes pre)) = off - inoff /\ 0 <= inoff <= Z.of_nat (length (mb_bytes l))) as Start.
  { exists [], (oe_mb e), off. repeat split; simpl; lia. }
  destruct (t_lastm tp) as [a|]; [|done]. destruct C as (pre & m & suf & E & L & I & N & B).
  destruct (Z.eqb_spec off 0); [done|]. simpl. destruct (Z.eqb_spec (s32 (t_lastoff tp + t_lastlen tp)) off); [|done].
  simpl. rewrite s32_small in * by lia. rewrite E, chain_from_split by (by rewrite <- E). simpl.
  exists pre, ((a, m) :: suf), (t_inoff tp + t_lastlen tp).
  split; [done|]. split; [done|]. split; [lia|]. rewrite E, mb_bytes_app, length_app in Ho. lia.
Qed.

Lemma tcp_build_datapkt_spec tries tp off len hdrlen :
  cached (oe_mb e) tp -> 0 <= off -> 0 < len -> off + len <= Z.of_nat (length (mb_bytes (oe_mb e))) ->
  off + len < 2 ^ 31 ->
  exists error data tp', tcp_build_datapkt e tries tp off len hdrlen = Some (error, data, tp') /\
    cached (oe_mb e) tp' /\
    (exists lm io lo ll, tp' = tp <| t_lastm := lm |> <| t_inoff := io |> <| t_lastoff := lo |> <| t_lastlen := ll |>) /\
    (error = 0 -> data = take (Z.to_nat len) (drop (Z.to_nat off) (mb_bytes (oe_mb e)))) /\
    (error = 0 \/ error = ENOBUFS /\ data = []).
Proof using ND.
  intros C H0 Hl Hc Hm. unfold tcp_build_datapkt.
  destruct (get_header _ _ _); simpl;
    [|exists ENOBUFS, [], tp; split; [done|]; split; [done|]; split; [by exists (t_lastm tp), (t_inoff tp), (t_lastoff tp), (t_lastlen tp); destruct tp|]; split; [discriminate|auto]].
  destruct (datapkt_start_spec tp off C) as (pre & l & i & -> & E & L & I); [lia|lia|]. simpl.
  destruct (seek_spec l i I) as (pre' & l' & i' & -> & -> & I' & L'). simpl.
  rewrite app_assoc in E. assert (drop (Z.to_nat off) (mb_bytes (oe_mb e)) = drop (Z.to_nat i') (mb_bytes l')) as D.
  { rewrite E, mb_bytes_app, drop_app_ge; rewrite mb_bytes_app, length_app; [f_equal; lia|lia]. }
  assert (length (drop (Z.to_nat i') (mb_bytes l')) = length (mb_bytes (oe_mb e)) - Z.to_nat off)%nat as LD
    by (by rewrite <- D, length_drop).
  set (tp' := tp <| t_lastm := _ |> <| t_inoff := _ |> <| t_lastoff := _ |> <| t_lastlen := _ |>).
  assert (cached (oe_mb e) tp') as C'.
  { unfold cached, tp'. upd_simpl. destruct l' as [|[a m] suf]; simpl.
    { change (mb_bytes []) with (@nil Z) in LD. rewrite drop_nil in LD. simpl in LD. lia. }
    exists (pre ++ pre'), m, suf. rewrite s32_small by lia. split; [done|].
    rewrite mb_bytes_app, length_app. lia. }
  destruct (oe_copym e tries); simpl; [|exists ENOBUFS, [], tp'; split; [done|]; split; [done|]; split; [by eexists _, _, _, _|split; [discriminate|auto]]].
  change (concat l'.*2) with (mb_bytes l'). destruct (Z.ltb_spec (Z.of_nat (length (drop (Z.to_nat i') (mb_bytes l')))) len).
  { rewrite LD in *. lia. }
  exists 0, (take (Z.to_nat len) (drop (Z.to_nat i') (mb_bytes l'))), tp'. rewrite D.
  split; [done|]. split; [done|]. split; [by eexists _, _, _, _|split; [done|by left]].
Qed.
End datapkt.

(** ** The data still to be retransmitted *)

(** Bytes of the holes that have not been retransmitted in this recovery. *)
Definition to_rexmit (b : tcp_seq) (hs : list sackhole) : Z :=
  foldr (fun h n => off b (hend h) - off b (rxmit h) + n) 0 hs.

Lemma to_rexmit_range b lo hi hs : holes_wf b lo hi hs -> 0 <= to_rexmit b hs <= hi - lo.
Proof.
  revert lo; induction hs as [|h hs IH]; simpl; intros lo; [lia|].
  intros (? & ? & W). apply IH in W. lia.
Qed.

Lemma holes_wf_lookup b hs : forall lo hi i p, holes_wf b lo hi hs -> hs !! i = Some p ->
  lo <= off b (start p) <= off b (rxmit p) /\ off b (rxmit p) <= off b (hend p) <= hi.
Proof.
  induction hs as [|h hs IH]; intros lo hi [|i] p W Hi; simplify_eq/=.
  - destruct W as (? & ? & W%holes_wf_le). lia.
  - destruct W as (? & ? & W). apply IH with (lo := off b (hend h)) (hi := hi) in Hi; [|done]. lia.
Qed.

Lemma off_u32_add b x n : 0 <= n -> off b x + n < 2 ^ 32 -> off b (u32 (x + n)) = off b x + n.
Proof.
  intros. pose proof (off_range b x). unfold off at 1. rewrite u32_sub_u32, <- (u32_small (off b x + n)) by lia.
  unfold off. replace (u32 (x - b) + n) with (0 + u32 (x - b) + n) by lia. rewrite u32_add_u32. f_equal. lia.
Qed.

(** Advancing the retransmission point of one hole. *)
Lemma holes_wf_advance b hs n : forall lo hi i p, holes_wf b lo hi hs -> hi < 2 ^ 31 ->
  hs !! i = Some p -> 0 <= n -> off b (rxmit p) + n <= off b (hend p) ->
  let hs' := alter (fun p => p <| rxmit := u32 (rxmit p + n) |>) i hs in
  holes_wf b lo hi hs' /\ to_rexmit b hs' = to_rexmit b hs - n.
Proof.
  intros lo hi i p W Hi E Hn Hp. simpl.
  assert (off b (u32 (rxmit p + n)) = off b (rxmit p) + n) as A.
  { pose proof (holes_wf_lookup _ _ _ _ _ _ W E). apply off_u32_add; lia. }
  revert lo i W E. induction hs as [|h hs IH]; intros lo [|i] W E; simplify_eq/=.
  - upd_simpl. rewrite A. destruct W as (? & ? & W). repeat split; try done; lia.
  - destruct W as (? & ? & W). destruct (IH _ _ W E) as [W' ->]. repeat split; try done; lia.
Qed.

(** [tcp_sack_adjust] leaves [snd_nxt], or moves it forward to a hole or to the
    end of the scoreboard. *)
Lemma sack_adjust_loop_nxt b hi rest : forall cur tp lo,
  holes_wf b lo hi (cur :: rest) -> hi < 2 ^ 31 -> off b (rcv_lastsack tp) < 2 ^ 31 -> off b (snd_nxt tp) < 2 ^ 31 ->
  SEQ_GEQ (snd_nxt tp) (rcv_lastsack tp) = false ->
  exists n, sack_adjust_loop tp cur rest = tp <| snd_nxt := n |> /\
    (n = snd_nxt tp \/ off b (snd_nxt tp) <= off b n <= Z.max hi (off b (rcv_lastsack tp))).
Proof.
  assert (forall tp, tp = tp <| snd_nxt := snd_nxt tp |>) as Eta by (intros []; done).
  induction rest as [|n rest IH]; intros cur tp lo (? & ? & W) Hh Hl Hn G; simpl.
  - case_match; [exists (snd_nxt tp); split; [apply Eta|by left]|]. exists (rcv_lastsack tp). split; [done|right].
    seq_off_in b G. lia.
  - case_match; [exists (snd_nxt tp); split; [apply Eta|by left]|].
    destruct (SEQ_GEQ (snd_nxt tp) (start n)) eqn:S; [eapply IH; done|]. exists (start n). split; [done|right].
    destruct W as (? & ? & W%holes_wf_le). seq_off_in b S. lia.
Qed.

Lemma out_adjust_nxt tp hi :
  holes_wf (snd_una tp) 0 hi (snd_holes tp) -> hi < 2 ^ 31 ->
  off (snd_una tp) (rcv_lastsack tp) < 2 ^ 31 -> off (snd_una tp) (snd_nxt tp) < 2 ^ 31 ->
  exists n, out_adjust tp = tp <| snd_nxt := n |> /\
    (n = snd_nxt tp \/ off (snd_una tp) (snd_nxt tp) <= off (snd_una tp) n
       <= Z.max hi (off (snd_una tp) (rcv_lastsack tp))).
Proof.
  assert (tp = tp <| snd_nxt := snd_nxt tp |>) as Eta by (by destruct tp).
  assert (exists n, tp = tp <| snd_nxt := n |> /\
    (n = snd_nxt tp \/ off (snd_una tp) (snd_nxt tp) <= off (snd_una tp) n
       <= Z.max hi (off (snd_una tp) (rcv_lastsack tp)))) as Same by (exists (snd_nxt tp); auto).
  intros W Hh Hl Hn. unfold out_adjust, tcp_sack_adjust. case_match; [|done].
  destruct (snd_holes tp) as [|cur rest] eqn:E; [done|].
  destruct (SEQ_GEQ (snd_nxt tp) (rcv_lastsack tp)) eqn:G; [done|]. by eapply sack_adjust_loop_nxt.
Qed.

(** ** Choosing the data *)

Lemma s64_small z : - 2 ^ 63 <= z < 2 ^ 63 -> s64 z = z.
Proof. intros. unfold s64. rewrite Z.mod_small; lia. Qed.

(** A number strictly between two others, with respect to the comparisons. *)
Lemma seq_between b x y r :
  off b x < off b y -> off b y < 2 ^ 31 -> SEQ_GT y r = true -> SEQ_GEQ x r = false ->
  0 < u32 (r - x) < off b y - off b x.
Proof.
  unfold SEQ_GT, SEQ_GEQ. rewrite !s32_u32. intros L B G N. apply Z.ltb_lt in G. apply Z.leb_gt in N.
  pose proof (u32_sub_off b y x ltac:(lia)) as D. pose proof (off_range b x).
  pose proof (u32_range (r - x)). pose proof (u32_range (y - r)). pose proof (u32_range (x - r)).
  rewrite <- s32_u32 in G, N. pose proof (s32_diff (u32 (y - r)) ltac:(lia)). pose proof (s32_diff (u32 (x - r)) ltac:(lia)).
  assert (u32 (x - r) + u32 (r - x) = 2 ^ 32) as E3.
  { assert ((u32 (x - r) + u32 (r - x)) mod 2 ^ 32 = 0) as M.
    { unfold u32. rewrite <- Zplus_mod. by replace (x - r + (r - x)) with 0 by lia. }
    apply Z.mod_divide in M as [q M]; nia. }
  assert (u32 (y - r) + u32 (r - x) = u32 (y - x)) as E4.
  { rewrite <- (u32_small (_ + _)) by lia. unfold u32. rewrite <- Zplus_mod. f_equal. lia. }
  lia.
Qed.

Lemma rexmitted_app b l k : rexmitted b (l ++ k) = rexmitted b l + rexmitted b k.
Proof. induction l as [|h l IH]; simpl; [lia|]. rewrite IH. lia. Qed.

(** The bytes retransmitted up to a hole are below its retransmission point. *)
Lemma rexmitted_below b hi pre p post :
  holes_wf b 0 hi (pre ++ p :: post) -> 0 <= rexmitted b (pre ++ [p]) <= off b (rxmit p).
Proof.
  intros (mid & W1 & W2)%holes_wf_app. apply rexmitted_range in W1. destruct W2 as (? & ? & _).
  rewrite rexmitted_app. simpl. lia.
Qed.

(** What the retransmission of holes plans, for a control block [tp]. *)
Definition plan_hole (tp : tcpcb) (l : olocal) : Prop :=
  TCP_SACK_ENABLED tp = true /\ exists i p, l_hole l = Some i /\ snd_holes tp !! i = Some p /\ l_off l = off (snd_una tp) (rxmit p) /\
    0 < l_len l /\ l_off l + l_len l <= off (snd_una tp) (hend p).

(** No hole can be sent from although one is left: the window is used up. *)
Definition plan_stalled (tp : tcpcb) (l : olocal) : Prop :=
  TCP_SACK_ENABLED tp = true /\ 0 <= t_partialacks tp /\ 0 <= l_bytes l <= l_off l /\
  (l_bytes l = snd_wnd tp \/ l_bytes l = snd_cwnd tp).

Definition same_locals (l l' : olocal) : Prop :=
  l_flags l' = l_flags l /\ l_win l' = l_win l /\ l_use_tso l' = l_use_tso l /\
  l_txsegsize l' = l_txsegsize l /\ l_numblks l' = l_numblks l.

Lemma out_sack_rexmit_spec tp cc room :
  holes_wf (snd_una tp) 0 cc (snd_holes tp) -> 0 <= cc < 2 ^ 30 ->
  0 <= snd_wnd tp < 2 ^ 31 -> 0 <= snd_cwnd tp < 2 ^ 32 -> off (snd_una tp) (snd_nxt tp) < 2 ^ 31 ->
  exists l, out_sack_rexmit cc tp (out_locals room tp) = Some l /\ same_locals (out_locals room tp) l /\
    l_sendalot l = l_sack_rxmit l /\ 0 <= l_bytes l <= cc /\
    if l_sack_rxmit l then plan_hole tp l
    else l_off l = off (snd_una tp) (snd_nxt tp) \/ plan_stalled tp l /\ l_off l < cc.
Proof.
  intros W Hc Hw Hcw Hn. set (l0 := out_locals room tp).
  assert (l_sack_rxmit l0 = false /\ l_sendalot l0 = false /\ l_off l0 = off (snd_una tp) (snd_nxt tp) /\
    0 <= l_bytes l0 <= cc) as (S0 & A0 & O0 & B0).
  { subst l0. unfold out_locals. destruct room as [[? ?] ?]. simpl. rewrite <- s32_u32. fold (off (snd_una tp) (snd_nxt tp)).
    pose proof (off_range (snd_una tp) (snd_nxt tp)). rewrite s32_small by lia. repeat split; lia. }
  clearbody l0. unfold out_sack_rexmit.
  assert (forall b, same_locals l0 (l0 <| l_bytes := b |>)) as SL by done.
  destruct (TCP_SACK_ENABLED tp) eqn:En; simpl; [|exists l0; rewrite S0, A0; repeat split; auto; lia].
  destruct (Z.ltb_spec (t_partialacks tp) 0); [exists l0; rewrite S0, A0; repeat split; auto; lia|].
  unfold tcp_sack_output. rewrite En. simpl.
  destruct (sack_output_loop (snd_una tp) (snd_holes tp) 0 0) as [hole bytes] eqn:SO.
  eapply sack_output_loop_spec in SO; [|exact W|lia|lia|lia]. simpl.
  set (l1 := l0 <| l_bytes := bytes |>).
  assert (l_sack_rxmit l1 = false /\ l_sendalot l1 = false /\ l_off l1 = off (snd_una tp) (snd_nxt tp) /\ l_bytes l1 = bytes)
    as (S1 & A1 & O1 & B1) by (subst l1; by upd_simpl).
  assert (same_locals l0 l1) as SL1 by (subst l1; apply SL). clearbody l1. clear SL.
  assert (0 <= bytes <= cc) as Hb.
  { destruct hole as [k|].
    - destruct SO as (pre & p & post & Eh & _ & _ & _ & ->). rewrite Eh in W. pose proof (rexmitted_below _ _ _ _ _ W).
      pose proof (holes_wf_lookup _ _ _ _ _ _ W (list_lookup_middle pre post p (length pre) eq_refl)). lia.
    - destruct SO as [_ ->]. apply rexmitted_range in W. lia. }
  destruct hole as [k|]; [|exists l1; rewrite S1, A1; repeat split; try apply SL1; auto; lia].
  destruct SO as (pre & p & post & Eh & -> & _ & L & Eb). simpl.
  assert (snd_holes tp !! length pre = Some p) as Ek by (rewrite Eh; by apply list_lookup_middle).
  rewrite Ek. simpl. pose proof (holes_wf_lookup _ _ _ _ _ _ W Ek) as (R1 & R2).
  assert (0 <= bytes <= off (snd_una tp) (rxmit p)) as Bb.
  { rewrite Eb. eapply rexmitted_below. rewrite <- Eh. exact W. }
  set (cwin := u32 (umin (snd_wnd tp) (snd_cwnd tp) - bytes)).
  assert (0 <= cwin) as Hcw0 by apply u32_range. destruct (Z.ltb_spec cwin 0); [lia|].
  assert (cwin = 0 -> bytes = snd_wnd tp \/ bytes = snd_cwnd tp) as Hst.
  { subst cwin. unfold umin. rewrite (u32_small (snd_wnd tp)), (u32_small (snd_cwnd tp)) by lia. intros Z0. unfold u32 in Z0.
    apply Z.mod_divide in Z0 as [q Z0]; [|lia]. nia. }
  clearbody cwin.
  set (n := u32 ((if SEQ_GT (hend p) (snd_recover tp) then snd_recover tp else hend p) - rxmit p)).
  destruct (SEQ_GT (hend p) (snd_recover tp) && SEQ_GEQ (rxmit p) (snd_recover tp)) eqn:Br.
  { exists l1. rewrite S1, A1. repeat split; try apply SL1; auto; lia. }
  assert (0 < n <= off (snd_una tp) (hend p) - off (snd_una tp) (rxmit p)) as Hnn.
  { subst n. destruct (SEQ_GT (hend p) (snd_recover tp)) eqn:G; simpl in Br.
    - pose proof (seq_between (snd_una tp) _ _ _ L ltac:(lia) G Br). lia.
    - rewrite (u32_sub_off (snd_una tp)) by lia. lia. }
  clearbody n. rewrite <- s32_u32. fold (off (snd_una tp) (rxmit p)). rewrite (s32_small (off _ _)) by lia.
  rewrite (u64_small (_ + _)) by lia.
  destruct (Z.ltb_spec cc (off (snd_una tp) (rxmit p) + Z.min cwin n)); [lia|].
  set (l2 := l1 <| l_hole := Some (length pre) |> <| l_off := off (snd_una tp) (rxmit p) |> <| l_len := Z.min cwin n |>).
  assert (same_locals l0 l2) as SL2 by (subst l2; exact SL1).
  destruct (Z.ltb_spec 0 (Z.min cwin n)) as [Hpos|Hz].
  - eexists. split; [done|]. split; [exact SL2|]. split; [done|]. subst l2. upd_simpl. split; [lia|].
    split; [done|]. exists (length pre), p. upd_simpl. repeat split; try done; lia.
  - exists l2. split; [done|]. split; [exact SL2|]. subst l2. upd_simpl. rewrite S1, A1. split; [done|]. split; [lia|].
    right. unfold plan_stalled. upd_simpl. rewrite B1. repeat split; try done; lia.
Qed.

(** Only the timers of the control block change. *)
Definition timers_only (tp tp' : tcpcb) : Prop := exists ts rs, tp' = tp <| t_timer := ts |> <| t_rxtshift := rs |>.

Lemma timers_only_refl tp : timers_only tp tp.
Proof. exists (t_timer tp), (t_rxtshift tp). by destruct tp. Qed.

Lemma timers_only_trans tp tp1 tp2 : timers_only tp tp1 -> timers_only tp1 tp2 -> timers_only tp tp2.
Proof. intros (ts & rs & ->) (ts' & rs' & ->). by exists ts', rs'. Qed.

Lemma timers_only_set tp ts : timers_only tp (tp <| t_timer := ts |>).
Proof. exists ts, (t_rxtshift tp). by destruct tp. Qed.

Lemma timers_only_disarm tp i : timers_only tp (TCP_TIMER_DISARM tp i).
Proof. destruct (TCP_TIMER_DISARM_spec tp i) as (ts & -> & _). apply timers_only_set. Qed.

Lemma timers_only_arm hz1 hz2 tp i n : timers_only tp (TCP_TIMER_ARM hz1 hz2 tp i n).
Proof.
  unfold TCP_TIMER_ARM. case_match; [apply timers_only_set|apply timers_only_refl].
Qed.

Lemma timers_only_shift tp tp' n : timers_only tp tp' -> timers_only tp (tp' <| t_rxtshift := n |>).
Proof. intros (ts & rs & ->). by exists ts, n. Qed.

Lemma disarm_not_armed tp i : TCP_TIMER_ISARMED (TCP_TIMER_DISARM tp i) i = false.
Proof.
  unfold TCP_TIMER_ISARMED. destruct (TCP_TIMER_DISARM_spec tp i) as (ts & -> & H & _). upd_simpl.
  destruct (ts !! i) eqn:E; [by apply H|done].
Qed.

Lemma armed_ext tp tp' i : t_timer tp = t_timer tp' -> TCP_TIMER_ISARMED tp i = TCP_TIMER_ISARMED tp' i.
Proof. unfold TCP_TIMER_ISARMED. by intros ->. Qed.

Lemma setpersist_timers hz1 hz2 tp :
  TCP_TIMER_ISARMED tp TCPT_REXMT = false ->
  exists tp', tcp_setpersist hz1 hz2 tp = Some tp' /\ timers_only tp tp'.
Proof.
  unfold tcp_setpersist. intros ->. eexists; split; [done|].
  case_match; [apply timers_only_shift|]; apply timers_only_arm.
Qed.

(** The plan before it is cut to a segment: its length may be negative. *)
Definition preplan (tp : tcpcb) (cc : Z) (l : olocal) : Prop :=
  l_sendalot l = l_sack_rxmit l /\
  if l_sack_rxmit l then plan_hole tp l
  else 0 < l_len l ->
    l_off l = off (snd_una tp) (snd_nxt tp) /\ l_off l + l_len l <= cc /\
    (l_off l + l_len l <= snd_wnd tp \/ t_force tp <> 0 /\ l_off l + l_len l <= 1) /\
    (1 < l_len l -> t_force tp = 0 \/ TCP_TIMER_ISARMED tp TCPT_PERSIST = false).

Definition no_syn (l : olocal) : Prop := flag_set (l_flags l) TH_SYN = false.

Lemma no_syn_no_fin l : no_syn l -> no_syn (no_fin l).
Proof. unfold no_syn, no_fin. upd_simpl. intros H. rewrite <- H. flag_bits. done. Qed.

Lemma no_fin_clears l : flag_set (l_flags (no_fin l)) TH_FIN = false.
Proof. unfold no_fin. upd_simpl. flag_bits. done. Qed.

(** [out_force] does not change what has been planned. *)
Definition same_choice (l l' : olocal) : Prop :=
  l_sack_rxmit l' = l_sack_rxmit l /\ l_sendalot l' = l_sendalot l /\ l_hole l' = l_hole l /\ l_off l' = l_off l /\
  l_bytes l' = l_bytes l /\ l_txsegsize l' = l_txsegsize l /\ l_numblks l' = l_numblks l /\ l_use_tso l' = l_use_tso l.

Lemma out_force_spec cc tp l tp' l' :
  out_force cc tp l = (tp', l') -> no_syn l ->
  timers_only tp tp' /\ same_choice l l' /\ l_len l' = l_len l /\ no_syn l' /\
  (t_force tp <> 0 /\ l_win l = 0 /\ l_win l' = 1 \/
   l_win l' = l_win l /\ (t_force tp = 0 \/ TCP_TIMER_ISARMED tp' TCPT_PERSIST = false)).
Proof.
  unfold out_force. destruct (Z.eqb_spec (t_force tp) 0).
  { intros [= <- <-] ?. repeat split; auto using timers_only_refl. }
  destruct (Z.eqb_spec (l_win l) 0).
  - intros [= <- <-] N. split; [apply timers_only_refl|].
    assert (no_syn (if u64 (l_off l) <? cc then no_fin l else l)) by (case_match; auto using no_syn_no_fin).
    split; [repeat split; upd_simpl; by case_match|]. split; [upd_simpl; by case_match|]. split; [done|].
    left. by upd_simpl.
  - intros [= <- <-] N. split; [apply timers_only_shift, timers_only_disarm|]. split; [done|]. split; [done|].
    split; [done|]. right. split; [done|right]. rewrite (armed_ext _ (TCP_TIMER_DISARM tp TCPT_PERSIST)) by (by upd_simpl).
    apply disarm_not_armed.
Qed.

Lemma out_length_same cc tp l : same_choice l (out_length cc tp l) /\ (no_syn l -> no_syn (out_length cc tp l)).
Proof.
  unfold out_length.
  assert (forall n, same_choice l (l <| l_len := n |>) /\ (no_syn l -> no_syn (l <| l_len := n |>))) as A by done.
  assert (forall n, same_choice l (no_fin l <| l_len := n |>) /\ (no_syn l -> no_syn (no_fin l <| l_len := n |>))) as B
    by (intros n; split; [done|intros; by apply no_syn_no_fin]).
  case_match; [done|]. case_match; [|case_match; auto].
  set (l1 := if snd_wnd tp <? cc then _ else _).
  assert (same_choice l l1 /\ (no_syn l -> no_syn l1)) as [C N] by (subst l1; case_match; auto). clearbody l1. clear A B.
  case_match; [|done]. case_match; [|done]. split; [exact C|]. intros; by apply no_syn_no_fin, N.
Qed.

Lemma out_length_preplan tp cc l :
  0 <= cc < 2 ^ 30 -> 0 <= snd_wnd tp < 2 ^ 31 -> 0 <= snd_cwnd tp < 2 ^ 32 -> off (snd_una tp) (snd_nxt tp) < 2 ^ 31 ->
  l_sendalot l = l_sack_rxmit l -> 0 <= l_bytes l <= cc ->
  (if l_sack_rxmit l then plan_hole tp l else l_off l = off (snd_una tp) (snd_nxt tp) \/ plan_stalled tp l /\ l_off l < cc) ->
  (t_force tp <> 0 /\ umin (snd_wnd tp) (snd_cwnd tp) = 0 /\ l_win l = 1 \/
   l_win l = umin (snd_wnd tp) (snd_cwnd tp) /\ (t_force tp = 0 \/ TCP_TIMER_ISARMED tp TCPT_PERSIST = false)) ->
  preplan tp cc (out_length cc tp l).
Proof.
  intros Hc Hw Hcw Hn A B P Win. pose proof (off_range (snd_una tp) (snd_nxt tp)) as Ho.
  assert (umin (snd_wnd tp) (snd_cwnd tp) = Z.min (snd_wnd tp) (snd_cwnd tp)) as U by (unfold umin; by rewrite !u32_small by lia).
  rewrite U in Win. clear U. destruct (out_length_same cc tp l) as [(S1 & S2 & S3 & S4 & _) _].
  unfold preplan. rewrite S1, S2, S4. split; [done|]. unfold plan_hole. rewrite S3, S4.
  unfold out_length. destruct (l_sack_rxmit l); [done|]. clear S1 S2 S3 S4.
  destruct (TCP_SACK_ENABLED tp && (0 <=? t_partialacks tp)) eqn:En.
  - apply andb_true_iff in En as [En Pa]. pose proof (u32_range (snd_nxt tp - sack_newdata tp)) as Nd.
    set (x := u32 (snd_nxt tp - sack_newdata tp)) in *. clearbody x.
    set (l1 := if snd_wnd tp <? cc then _ else _).
    assert (l_len l1 = Z.min (snd_wnd tp) cc - l_off l /\ l_bytes l1 = l_bytes l) as [L1 B1].
    { assert (0 <= l_off l < 2 ^ 31) by (destruct P as [->|[(_ & _ & ? & _) ?]]; lia).
      subst l1. destruct (Z.ltb_spec (snd_wnd tp) cc); unfold no_fin; upd_simpl; rewrite s64_small by lia; split; done || lia. }
    clearbody l1. rewrite B1, (s64_small (_ - _ - _)) by lia.
    assert (forall n, 0 < n -> n <= l_len l1 -> (0 < l_len l1 -> n <= Z.max 0 (snd_cwnd tp - x - l_bytes l)) ->
      l_off l = off (snd_una tp) (snd_nxt tp) /\ l_off l + n <= cc /\
      (l_off l + n <= snd_wnd tp \/ t_force tp <> 0 /\ l_off l + n <= 1) /\
      (1 < n -> t_force tp = 0 \/ TCP_TIMER_ISARMED tp TCPT_PERSIST = false)) as Key.
    { intros n N1 N2 N3. destruct P as [P|[(_ & _ & ? & ?) ?]]; [|lia]. repeat split; [done|lia|lia|].
      intros _. destruct Win as [(? & Z0 & ?)|[_ ?]]; [lia|done]. }
    destruct (Z.ltb_spec 0 (l_len l1)); [|lia].
    destruct (Z.ltb_spec (snd_cwnd tp - x - l_bytes l) 0); case_match; unfold no_fin; upd_simpl; intros; apply Key; lia.
  - assert (l_off l = off (snd_una tp) (snd_nxt tp)) as O.
    { destruct P as [?|[(E1 & E2 & _) _]]; [done|]. rewrite E1 in En. simpl in En. lia. }
    destruct (Z.ltb_spec (l_win l) cc); unfold no_fin; upd_simpl; rewrite s64_small by lia; intros Pos.
    + repeat split; [done|lia|lia|]. intros. destruct Win as [(? & ? & ?)|[_ ?]]; [lia|done].
    + repeat split; [done|lia|lia|]. intros. destruct Win as [(? & ? & ?)|[_ ?]]; [lia|done].
Qed.

(** A FIN is sent only behind all of the data. *)
Definition fin_last (tp : tcpcb) (cc : Z) (l : olocal) : Prop :=
  l_sack_rxmit l = false -> flag_set (l_flags l) TH_FIN = true -> 0 <= l_len l -> off (snd_una tp) (snd_nxt tp) + l_len l <= cc.

Lemma fin_last_no_fin tp cc l : flag_set (l_flags l) TH_FIN = false -> fin_last tp cc l.
Proof. intros F _ F'. congruence. Qed.

Lemma out_length_fin tp cc l :
  0 <= cc < 2 ^ 30 -> 0 <= snd_wnd tp < 2 ^ 31 -> 0 <= snd_cwnd tp < 2 ^ 32 -> off (snd_una tp) (snd_nxt tp) < 2 ^ 31 ->
  0 <= l_bytes l <= cc ->
  (if l_sack_rxmit l then plan_hole tp l else l_off l = off (snd_una tp) (snd_nxt tp) \/ plan_stalled tp l /\ l_off l < cc) ->
  fin_last tp cc (out_length cc tp l).
Proof.
  intros Hc Hw Hcw Hn B P. pose proof (off_range (snd_una tp) (snd_nxt tp)) as Ho. unfold out_length.
  destruct (l_sack_rxmit l) eqn:Sk; [intros E; congruence|].
  destruct (TCP_SACK_ENABLED tp && (0 <=? t_partialacks tp)) eqn:En.
  - pose proof (u32_range (snd_nxt tp - sack_newdata tp)) as Nd. set (x := u32 (snd_nxt tp - sack_newdata tp)) in *. clearbody x.
    destruct (Z.ltb_spec (snd_wnd tp) cc).
    { assert (F : forall n, flag_set (l_flags (no_fin l <| l_len := n |>)) TH_FIN = false) by (intros; apply no_fin_clears).
      case_match; [case_match|]; apply fin_last_no_fin; try apply no_fin_clears; apply F. }
    upd_simpl. assert (0 <= l_off l < 2 ^ 31) by (destruct P as [->|[(_ & _ & ? & _) ?]]; lia). rewrite (s64_small (cc - l_off l)) by lia.
    rewrite (s64_small (_ - _ - _)) by lia. destruct (Z.ltb_spec 0 (cc - l_off l)) as [Pos|].
    + case_match eqn:G; [apply fin_last_no_fin, no_fin_clears|]. destruct P as [P|[(_ & _ & ? & St) ?]].
      * intros _ _ _. upd_simpl. lia.
      * exfalso. destruct St as [?|?]; [lia|]. revert G. destruct (Z.ltb_spec (snd_cwnd tp - x - l_bytes l) 0); lia.
    + destruct P as [P|[_ ?]]; [|lia]. intros _ _ _. upd_simpl. lia.
  - destruct P as [P|[(E1 & E2 & _) _]]; [|rewrite E1 in En; simpl in En; lia].
    destruct (Z.ltb_spec (l_win l) cc); [apply fin_last_no_fin, no_fin_clears|].
    intros _ _ _. upd_simpl. rewrite s64_small by lia. lia.
Qed.

Lemma out_shrunk_fin e tp cc l tp' l' : out_shrunk e tp l = Some (tp', l') -> fin_last tp cc l -> fin_last tp' cc l'.
Proof.
  unfold out_shrunk. destruct (0 <=? l_len l); [by intros [= <- <-]|]. intros E _. apply fin_last_no_fin.
  assert (F : flag_set (l_flags (no_fin l <| l_len := 0 |>)) TH_FIN = false) by apply no_fin_clears.
  destruct (l_win _ =? 0); [|by injection E as _ <-]. case_match; [by injection E as _ <-|].
  destruct (tcp_setpersist _ _ _); cbn [mbind option_bind] in E; [by injection E as _ <-|done].
Qed.

Lemma out_segment_fin tp cc l l' : out_segment cc tp l = Some l' -> fin_last tp cc l -> fin_last tp cc l'.
Proof.
  unfold out_segment. intros E H. set (cut := if l_txsegsize l <? l_len l then _ else _) in E.
  assert (C : forall l1, cut = Some l1 -> fin_last tp cc l1).
  { intros l1. unfold cut. destruct (l_txsegsize l <? l_len l); [|by intros [= <-]].
    destruct (l_use_tso l); [destruct (_ =? 0); [done|]|]; intros [= <-]; apply fin_last_no_fin, no_fin_clears. }
  destruct cut as [l1|]; cbn [mbind option_bind] in E; [|done]. specialize (C l1 eq_refl).
  destruct (l_sack_rxmit l1); [|by injection E as <-]. destruct (l_hole l1) as [i|]; cbn [mbind option_bind] in E; [|done].
  destruct (snd_holes tp !! i); cbn [mbind option_bind] in E; [|done]. injection E as <-. case_match; [apply fin_last_no_fin, no_fin_clears|done].
Qed.

(** The plan of one segment. *)
Record plan (tp : tcpcb) (cc : Z) (l : olocal) : Prop := mkPlan {
  plan_len : 0 <= l_len l;
  plan_rexmit : l_sack_rxmit l = true -> plan_hole tp l;
  plan_new : l_sack_rxmit l = false -> 0 < l_len l ->
    l_off l = off (snd_una tp) (snd_nxt tp) /\ l_off l + l_len l <= cc /\
    (l_off l + l_len l <= snd_wnd tp \/ t_force tp <> 0 /\ l_off l + l_len l <= 1);
  plan_more : l_sendalot l = true -> 0 < l_len l /\
    (l_sack_rxmit l = false -> flag_set (l_flags l) TH_FIN = false /\
       (t_force tp = 0 \/ TCP_TIMER_ISARMED tp TCPT_PERSIST = false));
  plan_size : if l_use_tso l then l_len l <= IP_MAXPACKET else l_len l <= l_txsegsize l
}.

Lemma preplan_negative e tp cc l :
  preplan tp cc l -> no_syn l ->
  exists tp' l', out_shrunk e tp l = Some (tp', l') /\ preplan tp' cc l' /\ 0 <= l_len l' /\ no_syn l' /\
    l_txsegsize l' = l_txsegsize l /\ l_numblks l' = l_numblks l /\
    (exists ts rs n, tp' = tp <| t_timer := ts |> <| t_rxtshift := rs |> <| snd_nxt := n |> /\
       (n = snd_nxt tp \/ n = snd_una tp /\ l_len l' = 0)).
Proof.
  intros P N. unfold out_shrunk.
  assert (exists ts rs n, tp = tp <| t_timer := ts |> <| t_rxtshift := rs |> <| snd_nxt := n |> /\
       (n = snd_nxt tp \/ n = snd_una tp /\ l_len l = 0)) as Same.
  { exists (t_timer tp), (t_rxtshift tp), (snd_nxt tp). split; [by destruct tp|by left]. }
  destruct (Z.leb_spec 0 (l_len l)) as [?|Neg]; [exists tp, l; split; [done|]; split; [exact P|auto]|].
  set (l1 := no_fin l <| l_len := 0 |>).
  assert (l_len l1 = 0 /\ no_syn l1 /\ l_txsegsize l1 = l_txsegsize l /\ l_numblks l1 = l_numblks l) as (L1 & N1 & T1 & B1).
  { split; [done|]. split; [|done]. subst l1. by apply no_syn_no_fin. }
  assert (forall tp', preplan tp' cc l1) as P1.
  { intros tp'. destruct P as [S P]. destruct (l_sack_rxmit l) eqn:E; [destruct P as (_ & ? & ? & ? & ? & ? & ? & ?); lia|].
    unfold preplan. rewrite L1. replace (l_sack_rxmit l1) with false by (subst l1; by upd_simpl).
    split; [subst l1; by upd_simpl|lia]. }
  clearbody l1.
  assert (forall tp', (exists ts rs n, tp' = tp <| t_timer := ts |> <| t_rxtshift := rs |> <| snd_nxt := n |> /\
       (n = snd_nxt tp \/ n = snd_una tp)) ->
    exists tp'' l', Some (tp', l1) = Some (tp'', l') /\ preplan tp'' cc l' /\ 0 <= l_len l' /\ no_syn l' /\
    l_txsegsize l' = l_txsegsize l /\ l_numblks l' = l_numblks l /\
    (exists ts rs n, tp'' = tp <| t_timer := ts |> <| t_rxtshift := rs |> <| snd_nxt := n |> /\
       (n = snd_nxt tp \/ n = snd_una tp /\ l_len l' = 0))) as Fin.
  { intros tp' H. exists tp', l1. split; [done|]. split; [apply P1|]. split; [lia|].
    do 3 (split; [done|]). destruct H as (ts & rs & n & -> & [?| ?]); exists ts, rs, n; auto. }
  destruct (l_win l1 =? 0); [|apply Fin; exists (t_timer tp), (t_rxtshift tp), (snd_nxt tp); split; [by destruct tp|by left]].
  pose proof (disarm_not_armed tp TCPT_REXMT) as R. destruct (timers_only_disarm tp TCPT_REXMT) as (ts & rs & E).
  set (d := TCP_TIMER_DISARM tp TCPT_REXMT) in *. clearbody d.
  set (tp1 := d <| t_rxtshift := 0 |> <| snd_nxt := snd_una (d <| t_rxtshift := 0 |>) |>).
  assert (exists ts rs n, tp1 = tp <| t_timer := ts |> <| t_rxtshift := rs |> <| snd_nxt := n |> /\
       (n = snd_nxt tp \/ n = snd_una tp)) as D1.
  { exists ts, 0, (snd_una tp). split; [subst tp1 d; by upd_simpl|by right]. }
  assert (TCP_TIMER_ISARMED tp1 TCPT_REXMT = false) as R1.
  { rewrite (armed_ext _ d); [exact R|]. subst tp1. by upd_simpl. }
  clearbody tp1. destruct (TCP_TIMER_ISARMED tp1 TCPT_PERSIST); [by apply Fin|].
  destruct (setpersist_timers (e_timer_hz (oe_env e)) (e_hz (oe_env e)) tp1 R1) as (tp2 & -> & ts2 & rs2 & ->).
  apply Fin. destruct D1 as (ts1 & rs1 & n & -> & Hn). exists ts2, rs2, n. split; [by upd_simpl|done].
Qed.

(** Cutting the plan to a segment keeps it. *)
Lemma preplan_cut tp cc l l' :
  preplan tp cc l -> 1 < l_len l -> 0 < l_len l' <= l_len l ->
  l_sack_rxmit l' = l_sack_rxmit l -> l_hole l' = l_hole l -> l_off l' = l_off l ->
  flag_set (l_flags l') TH_FIN = false ->
  (if l_use_tso l' then l_len l' <= IP_MAXPACKET else l_len l' <= l_txsegsize l') ->
  plan tp cc l'.
Proof.
  intros [S P] N1 N2 E1 E2 E3 F Sz. split; [lia| | | |done].
  - intros E. rewrite <- E1, E in P. destruct P as (? & i & p & ? & ? & ? & ? & ?).
    split; [done|]. exists i, p. rewrite E2, E3. repeat split; try done; lia.
  - intros E _. rewrite <- E1, E in P. specialize (P ltac:(lia)). rewrite E3. lia.
  - intros _. split; [lia|]. intros E. rewrite <- E1, E in P. specialize (P ltac:(lia)). split; [done|]. apply P. lia.
Qed.

Lemma plan_no_fin tp cc l : plan tp cc l -> plan tp cc (no_fin l).
Proof.
  intros [P1 P2 P3 P4 P5]. split; try done. intros H. destruct P4 as [? P4]; [exact H|]. split; [done|].
  intros E. split; [apply no_fin_clears|]. by apply P4.
Qed.

Lemma out_segment_plan tp cc l :
  preplan tp cc l -> 0 <= l_len l < 2 ^ 32 -> 0 < l_txsegsize l <= IP_MAXPACKET -> no_syn l ->
  exists l', out_segment cc tp l = Some l' /\ plan tp cc l' /\ no_syn l' /\
    l_numblks l' = l_numblks l /\ l_txsegsize l' = l_txsegsize l /\ l_len l' <= l_len l.
Proof.
  intros P L T N. unfold out_segment.
  match goal with |- context [mbind _ ?x] => set (cut := x) end.
  assert (exists l', cut = Some l' /\ plan tp cc l' /\ no_syn l' /\ l_numblks l' = l_numblks l /\
    l_txsegsize l' = l_txsegsize l /\ l_len l' <= l_len l) as (l' & -> & P' & N' & B' & T' & L').
  { subst cut. destruct (Z.ltb_spec (l_txsegsize l) (l_len l)) as [Lt|Ge].
    - destruct (l_use_tso l) eqn:U.
      + destruct (Z.eqb_spec (l_txsegsize l) 0); [lia|].
        set (len := umin _ _ / _ * _). assert (0 < len <= Z.min (l_len l) IP_MAXPACKET) as Hn.
        { subst len. unfold umin. rewrite !u32_small by (unfold IP_MAXPACKET; lia).
          set (x := Z.min (l_len l) IP_MAXPACKET). assert (l_txsegsize l <= x) by lia.
          pose proof (Z.mul_div_le x (l_txsegsize l) ltac:(lia)).
          pose proof (Z.div_le_lower_bound x (l_txsegsize l) 1 ltac:(lia) ltac:(lia)). nia. }
        clearbody len. upd_simpl. eexists; split; [done|]. split; [|split; [apply no_syn_no_fin; by case_match|split; [by case_match|split; [by case_match|]]]].
        2: unfold no_fin; case_match; upd_simpl; lia.
        eapply preplan_cut; [exact P|lia|..]; try (by case_match); try apply no_fin_clears;
          destruct (Z.leb_spec len (l_txsegsize l)); unfold no_fin; upd_simpl; rewrite ?U; lia.
      + eexists; split; [done|]. split; [|split; [by apply no_syn_no_fin|split; [done|split; [done|unfold no_fin; upd_simpl; lia]]]].
        eapply preplan_cut; [exact P|lia|..]; try done; unfold no_fin; upd_simpl; rewrite ?U; try lia.
        flag_bits. done.
    - eexists; split; [done|]. split; [|split; [done|split; [done|split; [done|upd_simpl; lia]]]]. destruct P as [S P]. destruct (l_sack_rxmit l) eqn:E.
      + split; upd_simpl; rewrite ?E; try done; try lia. intros _. split; [|done]. destruct P as (_ & ? & ? & ? & ? & ? & ? & ?). lia.
      + split; upd_simpl; rewrite ?E; try done; try lia; try (rewrite S; done). }
  cbn [mbind option_bind]. destruct (l_sack_rxmit l') eqn:E; [|exists l'; by auto].
  destruct (plan_rexmit _ _ _ P' E) as (_ & i & p & H1 & H2 & _). rewrite H1. simpl. rewrite H2. simpl.
  case_match; [|exists l'; by auto]. exists (no_fin l'). split; [done|]. split; [by apply plan_no_fin|].
  split; [by apply no_syn_no_fin|done].
Qed.

(** ** The invariant of the loop *)

Record oinv (e : oenv) (nosack : Z) (st : ostate) : Prop := mkOinv {
  oi_cc : sb_cc (o_snd st) = Z.of_nat (length (mb_bytes (oe_mb e)));
  oi_small : sb_cc (o_snd st) < 2 ^ 30;
  oi_holes : holes_wf (snd_una (o_tp st)) 0 (sb_cc (o_snd st)) (snd_holes (o_tp st));
  oi_last : off (snd_una (o_tp st)) (rcv_lastsack (o_tp st)) <= sb_cc (o_snd st) + 1;
  oi_nxt : off (snd_una (o_tp st)) (snd_nxt (o_tp st)) + to_rexmit (snd_una (o_tp st)) (snd_holes (o_tp st)) < 2 ^ 31;
  oi_wnd : 0 <= snd_wnd (o_tp st) < 2 ^ 31;
  oi_cwnd : 0 <= snd_cwnd (o_tp st) < 2 ^ 32;
  oi_state : TCPS_ESTABLISHED <= t_state (o_tp st) <= TCPS_TIME_WAIT;
  oi_cache : cached (oe_mb e) (o_tp st);
  oi_segq : 0 <= t_segqlen (o_tp st) <= Z.of_nat (length (oe_timeq e));
  oi_nosack : TCP_SACK_OPTLEN TCP_SACK_MAX < nosack <= IP_MAXPACKET
}.

(** What is prepared for one segment, from the state [st]. *)
Record prepared (nosack : Z) (st st' : ostate) (l : olocal) : Prop := mkPrepared {
  pr_tp : exists ts rs n, o_tp st' = (o_tp st) <| t_timer := ts |> <| t_rxtshift := rs |> <| snd_nxt := n |>;
  pr_nxt : off (snd_una (o_tp st)) (snd_nxt (o_tp st')) +
    to_rexmit (snd_una (o_tp st)) (snd_holes (o_tp st)) < 2 ^ 31;
  pr_cc : sb_cc (o_snd st') = sb_cc (o_snd st);
  pr_sent : o_sent st' = o_sent st;
  pr_tries : o_tries st' = o_tries st;
  pr_fin : fin_last (o_tp st') (sb_cc (o_snd st)) l;
  pr_plan : plan (o_tp st') (sb_cc (o_snd st)) l;
  pr_syn : no_syn l;
  pr_tx : l_txsegsize l <= nosack;
  pr_blocks : l_numblks l = 0 \/ l_numblks l = tcp_sack_numblks (o_tp st);
  pr_forward : l_sendalot l = true ->
    off (snd_una (o_tp st)) (snd_nxt (o_tp st)) <= off (snd_una (o_tp st)) (snd_nxt (o_tp st'))
}.

Lemma numblks_max tp : 0 <= t_segqlen tp -> 0 <= tcp_sack_numblks tp <= TCP_SACK_MAX.
Proof. unfold tcp_sack_numblks. intros. repeat case_match; unfold TCP_SACK_MAX in *; lia. Qed.

Lemma out_sack_room_spec nosack tso tp numblks tx use_tso :
  out_sack_room nosack tso tp = (numblks, tx, use_tso) -> 0 <= t_segqlen tp ->
  TCP_SACK_OPTLEN TCP_SACK_MAX < nosack <= IP_MAXPACKET ->
  0 < tx <= nosack /\ (numblks = 0 \/ numblks = tcp_sack_numblks tp).
Proof.
  unfold out_sack_room. intros E H. pose proof (numblks_max tp H). unfold TCP_SACK_OPTLEN, TCP_SACK_MAX in *.
  repeat case_match; simplify_eq; intros; split; auto; lia.
Qed.

Lemma outflags_no_syn s : TCPS_ESTABLISHED <= s <= TCPS_TIME_WAIT -> flag_set (tcp_outflags s) TH_SYN = false.
Proof.
  intros. unfold TCPS_ESTABLISHED, TCPS_TIME_WAIT in *.
  assert (s = 4 \/ s = 5 \/ s = 6 \/ s = 7 \/ s = 8 \/ s = 9 \/ s = 10) as D by lia.
  repeat destruct D as [->|D]; try done. by subst.
Qed.

Lemma out_prepare_spec e nosack tso st :
  oinv e nosack st -> exists st' l, out_prepare e nosack tso st = Some (st', l) /\ prepared nosack st st' l.
Proof.
  intros [Hcc Hsm Hh Hl Hn Hw Hcw Hs Hc Hq Hns]. unfold out_prepare.
  set (cc := sb_cc (o_snd st)) in *. set (tp := o_tp st) in *.
  pose proof (to_rexmit_range _ _ _ _ Hh) as Hr. pose proof (off_range (snd_una tp) (snd_nxt tp)).
  destruct (out_sack_room nosack tso tp) as [[numblks tx] use_tso] eqn:Room.
  apply out_sack_room_spec in Room as [Htx Hnb]; [|lia|done].
  destruct (out_adjust_nxt tp cc Hh) as (n & Ea & Hadj); [lia|lia|lia|]. rewrite Ea.
  set (tp1 := tp <| snd_nxt := n |>).
  assert (off (snd_una tp) (snd_nxt tp) <= off (snd_una tp) n < 2 ^ 31 - to_rexmit (snd_una tp) (snd_holes tp)) as Hn1.
  { destruct Hadj as [->|?]; lia. }
  assert (snd_una tp1 = snd_una tp /\ snd_nxt tp1 = n /\ snd_holes tp1 = snd_holes tp /\ snd_wnd tp1 = snd_wnd tp /\
    snd_cwnd tp1 = snd_cwnd tp /\ t_state tp1 = t_state tp /\ t_force tp1 = t_force tp) as (V1 & V2 & V3 & V4 & V5 & V6 & V7)
    by (subst tp1; by upd_simpl).
  assert (tp1 = tp <| snd_nxt := n |>) as Et1 by done. clearbody tp1.
  set (l0 := out_locals _ tp1).
  assert (l_txsegsize l0 = tx /\ l_numblks l0 = numblks /\ l_win l0 = umin (snd_wnd tp) (snd_cwnd tp) /\ no_syn l0) as (L1 & L2 & L3 & L4).
  { subst l0. unfold out_locals, no_syn. simpl. rewrite V4, V5, V6. repeat split. by apply outflags_no_syn. }
  destruct (out_sack_rexmit_spec tp1 cc (numblks, tx, use_tso)) as (l1 & El & Sl & Sa & Sb & Sp);
    [by rewrite V1, V3|lia|lia|lia|rewrite V1, V2; lia|].
  fold l0 in El, Sl. rewrite El. destruct Sl as (F1 & F2 & F3 & F4 & F5). cbn [mbind option_bind].
  destruct (out_force cc tp1 l1) as [tp2 l2] eqn:Fo.
  assert (no_syn l1) as L4' by (unfold no_syn; by rewrite F1).
  apply out_force_spec in Fo as (Ft & Fc & Fl & Fs & Fw); [|done]. destruct Fc as (C1 & C2 & C3 & C4 & C5 & C6 & C7 & _).
  assert (snd_una tp2 = snd_una tp /\ snd_nxt tp2 = n /\ snd_holes tp2 = snd_holes tp /\ snd_wnd tp2 = snd_wnd tp /\
    snd_cwnd tp2 = snd_cwnd tp /\ t_force tp2 = t_force tp /\ TCP_SACK_ENABLED tp2 = TCP_SACK_ENABLED tp1 /\
    t_partialacks tp2 = t_partialacks tp1) as (U1 & U2 & U3 & U4 & U5 & U6 & U7 & U8).
  { destruct Ft as (ts & rs & ->). unfold TCP_SACK_ENABLED. by upd_simpl. }
  assert (preplan tp2 cc (out_length cc tp2 l2)) as PP.
  { apply out_length_preplan; rewrite ?U1, ?U2, ?U4, ?U5, ?C1, ?C2, ?C4, ?C5; try done; try lia.
    - destruct (l_sack_rxmit l1); unfold plan_hole, plan_stalled in *;
        rewrite ?U1, ?U3, ?U4, ?U5, ?U7, ?U8, ?C3, ?C4, ?C5, ?Fl, ?V1, ?V2, ?V3, ?V4, ?V5 in *; exact Sp.
    - rewrite U6. rewrite V7, F2, L3 in Fw. destruct Fw as [(? & ? & ?)|[-> ?]]; [left; done|by right]. }
  assert (fin_last tp2 cc (out_length cc tp2 l2)) as Fn.
  { apply out_length_fin; rewrite ?U1, ?U2, ?U4, ?U5, ?C1, ?C4, ?C5; try done; try lia.
    destruct (l_sack_rxmit l1); unfold plan_hole, plan_stalled in *;
      rewrite ?U1, ?U3, ?U4, ?U5, ?U7, ?U8, ?C3, ?C4, ?C5, ?Fl, ?V1, ?V2, ?V3, ?V4, ?V5 in *; exact Sp. }
  destruct (out_length_same cc tp2 l2) as [(C1' & C2' & C3' & C4' & C5' & C6' & C7' & _) Fs'].
  set (l3 := out_length cc tp2 l2) in *. clearbody l3.
  destruct (preplan_negative e tp2 cc l3 PP (Fs' Fs)) as (tp3 & l4 & Esh & PP' & Len & Syn & T4 & B4 & (ts & rs & n' & E3 & Hn')).
  rewrite Esh. apply (out_shrunk_fin _ _ _ _ _ _ Esh) in Fn. cbn [mbind option_bind]. set (st1 := out_autosize e (st <| o_tp := tp3 |>) l4).
  assert (o_tp st1 = tp3 /\ o_sent st1 = o_sent st /\ sb_cc (o_snd st1) = cc /\ o_tries st1 = o_tries st) as (S1 & S2 & S3 & S4).
  { subst st1. rewrite out_autosize_tp, out_autosize_sent, out_autosize_cc, out_autosize_tries. done. }
  clearbody st1. rewrite S1.
  destruct (out_segment_plan tp3 cc l4 PP') as (l5 & Esg & P5 & Sy5 & B5 & T5 & Le5); [|lia|done|].
  { split; [done|]. destruct PP' as [_ PP']. destruct (l_sack_rxmit l4).
    - destruct PP' as (_ & i & p & _ & _ & ? & ? & ?). pose proof (off_range (snd_una tp3) (hend p)).
      pose proof (off_range (snd_una tp3) (rxmit p)). lia.
    - destruct (Z.lt_ge_cases 0 (l_len l4)) as [Pos|]; [|lia]. specialize (PP' Pos).
      pose proof (off_range (snd_una tp3) (snd_nxt tp3)). lia. }
  rewrite Esg. apply (out_segment_fin _ _ _ _ Esg) in Fn. cbn [mbind option_bind]. eexists _, _. split; [done|].
  assert (off (snd_una tp) n' + to_rexmit (snd_una tp) (snd_holes tp) < 2 ^ 31 /\
    (l_len l5 <> 0 -> off (snd_una tp) (snd_nxt tp) <= off (snd_una tp) n')) as [Hn5 Hf5].
  { pose proof (plan_len _ _ _ P5). rewrite U1, U2 in Hn'. destruct Hn' as [->|[-> ?]]; [lia|]. rewrite off_base. lia. }
  split; rewrite ?S1, ?S2, ?S3, ?S4; try done.
  - destruct Ft as (ts2 & rs2 & Et). exists ts, rs, n'. fold tp. rewrite E3, Et, Et1. clear. by destruct tp.
  - fold tp. rewrite E3. upd_simpl. done.
  - destruct P5; by split.
  - upd_simpl. lia.
  - fold tp. upd_simpl. lia.
  - fold tp. rewrite E3. upd_simpl. intros More. apply Hf5. pose proof (plan_more _ _ _ P5 More). lia.
Qed.
