(* ===== verification/TcpOutputRun.v ===== *)
(** * The calls of [tcp_output]

    One pass of the loop sends at most one packet, which carries the right bytes
    of the send buffer; the data that is left decreases from pass to pass, so that
    every call returns. *)

From S2P Require Import Prelude Pool TcpSeq Callout Tcpcb TcpSack TcpSackFacts TcpCongctl TcpTimer Mbuf Sockbuf.
From S2P Require Import SockState TcpOptions TcpReass TcpInput TcpInputFacts TcpOutput TcpOutputFacts TcpOutputStream.

(** ** Stages of the transmission *)

(** The send side of the control block. *)
Definition sview (tp : tcpcb) :=
  (snd_cwnd tp, snd_nxt tp, snd_holes tp, t_timer tp, TCP_SACK_ENABLED tp, (t_lastm tp, t_inoff tp, t_lastoff tp, t_lastlen tp)).

(** The flags of the segment change, but not SYN and FIN. *)
Definition more_flags (l l' : olocal) : Prop :=
  exists f, l' = l <| l_flags := f |> /\ flag_set f TH_SYN = flag_set (l_flags l) TH_SYN /\
    flag_set f TH_FIN = flag_set (l_flags l) TH_FIN.

Lemma more_flags_refl l : more_flags l l.
Proof. exists (l_flags l). split; [by destruct l|done]. Qed.

Lemma more_flags_lor l l' f :
  more_flags l l' -> flag_set f (Z.lor TH_SYN TH_FIN) = false -> more_flags l (l' <| l_flags := Z.lor (l_flags l') f |>).
Proof.
  intros (g & -> & E1 & E2) Hf. exists (Z.lor g f). split; [done|]. rewrite <- E1, <- E2. revert Hf.
  flag_bits. intros [-> ->]%orb_false_iff. by rewrite !orb_false_r.
Qed.

Lemma more_flags_trans l l1 l2 : more_flags l l1 -> more_flags l1 l2 -> more_flags l l2.
Proof. intros (f & -> & E1 & E2) (g & -> & E3 & E4). exists g. upd_simpl. rewrite E3, E4. done. Qed.

Lemma opt_sack_blocks_total q : forall n, (n <= length q)%nat -> exists b, opt_sack_blocks n q = Some b.
Proof.
  induction q as [|x q IH]; intros [|n] H; simpl in *; eauto; [lia|].
  destruct (IH n) as [b ->]; [lia|]. simpl. eauto.
Qed.

Section stages.
Variable e : oenv.

Lemma timestamp_option_view flags r : let r' := timestamp_option e flags r in
  sview r'.2 = sview r.2 /\ rcv_sack_flags r'.2 = rcv_sack_flags r.2.
Proof. destruct r as [opt tp]. unfold timestamp_option. repeat case_match; done. Qed.

Lemma build_options_spec flags n tp :
  flag_set flags TH_SYN = false -> n = 0 \/ n = tcp_sack_numblks tp ->
  0 <= t_segqlen tp <= Z.of_nat (length (oe_timeq e)) ->
  exists opt tp', build_options e flags n tp = Some (opt, tp') /\ sview tp' = sview tp.
Proof.
  intros F N Q. unfold build_options, syn_options. rewrite F.
  pose proof (timestamp_option_view flags ([], tp)) as [V R].
  destruct (timestamp_option e flags ([], tp)) as [o1 tp1]. simpl in V, R. rewrite <- V. unfold sack_option.
  destruct (Z.eqb_spec n 0); [by eexists _, _|]. destruct N as [?|N]; [done|].
  case_match; [|by eexists _, _]. rewrite R.
  assert (n <= t_segqlen tp + (if flag_set (rcv_sack_flags tp) TCPSACK_HAVED then 1 else 0)).
  { rewrite N. unfold tcp_sack_numblks. repeat case_match; lia. }
  case_match.
  - destruct (opt_sack_blocks_total (oe_timeq e) (Z.to_nat (n - 1))) as [b ->]; [lia|]. simpl. by eexists _, _.
  - destruct (opt_sack_blocks_total (oe_timeq e) (Z.to_nat n)) as [b ->]; [lia|]. simpl. by eexists _, _.
Qed.

Lemma out_ecn_spec tp l tp' l' ect :
  out_ecn e tp l = (tp', l', ect) -> sview tp' = sview tp /\ more_flags l l'.
Proof.
  unfold out_ecn. destruct (ecn_syn e tp l) as [tp1 l1] eqn:E.
  assert (sview tp1 = sview tp /\ more_flags l l1) as [V1 M1].
  { revert E. unfold ecn_syn. repeat case_match; intros [= <- <-]; split; try done; auto using more_flags_refl, more_flags_lor. }
  clear E. case_match; [|by intros [= <- <- _]]. intros [= <- <- _].
  set (cwr := flag_set (t_flags tp1) TF_ECN_SND_CWR).
  set (tp2 := if cwr then _ else tp1). set (l2 := if cwr then _ else l1).
  assert (sview tp2 = sview tp1 /\ more_flags l l2) as [V2 M2].
  { subst tp2 l2. destruct cwr; [|done]. split; [|by apply more_flags_lor].
    unfold sview, TCP_SACK_ENABLED. upd_simpl. flag_bits. done. }
  split; [by rewrite V2|]. case_match; [by apply more_flags_lor|done].
Qed.

Lemma out_urgent_sview tp flags : sview (out_urgent tp flags).2 = sview tp.
Proof. unfold out_urgent. by case_match. Qed.

(** What is left alone when a segment has been sent. *)
Definition sent_view (tp : tcpcb) := (snd_cwnd tp, snd_holes tp, (t_lastm tp, t_inoff tp, t_lastoff tp, t_lastlen tp)).

Lemma out_sent_view win n tp : sent_view (out_sent win n tp) = sent_view tp /\ snd_nxt (out_sent win n tp) = snd_nxt tp.
Proof. unfold out_sent, TCP_CLEAR_DELACK, sent_view. repeat case_match; upd_simpl; done. Qed.

Lemma arm_sent_view hz1 hz2 tp i n :
  sent_view (TCP_TIMER_ARM hz1 hz2 tp i n) = sent_view tp /\ snd_nxt (TCP_TIMER_ARM hz1 hz2 tp i n) = snd_nxt tp.
Proof. destruct (timers_only_arm hz1 hz2 tp i n) as (ts & rs & ->). by unfold sent_view; upd_simpl. Qed.

Lemma out_advance_view tp l :
  sent_view (out_advance e tp l) = sent_view tp /\
  (t_force tp = 0 \/ TCP_TIMER_ISARMED tp TCPT_PERSIST = false ->
   snd_nxt (out_advance e tp l) =
     let n := if flag_set (l_flags l) (Z.lor TH_SYN TH_FIN) then u32 (snd_nxt tp + 1) else snd_nxt tp in
     if l_sack_rxmit l then n else u32 (n + l_len l)) /\
  (snd_nxt (out_advance e tp l) = snd_nxt tp \/ t_force tp = 0 \/ TCP_TIMER_ISARMED tp TCPT_PERSIST = false).
Proof.
  unfold out_advance, arm. destruct ((t_force tp =? 0) || negb (TCP_TIMER_ISARMED tp TCPT_PERSIST)) eqn:Br.
  - assert (t_force tp = 0 \/ TCP_TIMER_ISARMED tp TCPT_PERSIST = false) as Br'.
    { apply orb_true_iff in Br as [?|?%negb_true_iff]; [left; lia|by right]. }
    set (n := if flag_set (l_flags l) _ then u32 (snd_nxt tp + 1) else snd_nxt tp).
    set (tp0 := if flag_set (l_flags l) _ then tp <| snd_nxt := _ |> else tp).
    assert (sent_view tp0 = sent_view tp /\ snd_nxt tp0 = n) as [V0 N0] by (subst tp0 n; case_match; done). clearbody tp0 n.
    set (tp1 := if l_sack_rxmit l then tp0 else _).
    assert (sent_view tp1 = sent_view tp /\ snd_nxt tp1 = if l_sack_rxmit l then n else u32 (n + l_len l)) as [V1 N1].
    { subst tp1. rewrite N0. repeat case_match; unfold sent_view in *; upd_simpl; auto. }
    clearbody tp1.
    match goal with |- context [if ?b then TCP_TIMER_ARM ?a1 ?a2 ?t ?i ?k else tp1] =>
      set (tp2 := if b then TCP_TIMER_ARM a1 a2 t i k else tp1) end.
    assert (sent_view tp2 = sent_view tp1 /\ snd_nxt tp2 = snd_nxt tp1) as [V2 N2].
    { subst tp2. destruct (negb (TCP_TIMER_ISARMED tp1 TCPT_REXMT) && _); [|done].
      match goal with |- context [TCP_TIMER_ARM ?a ?b ?t ?i ?n] => destruct (arm_sent_view a b t i n) as [-> ->] end.
      destruct (TCP_TIMER_ISARMED tp1 TCPT_PERSIST); [|done]. destruct (timers_only_disarm tp1 TCPT_PERSIST) as (ts & rs & ->). done. }
    clearbody tp2. rewrite V2, N2, V1, N1. auto.
  - apply orb_false_iff in Br as [? ?%negb_false_iff].
    assert (forall P : Prop, t_force tp = 0 \/ TCP_TIMER_ISARMED tp TCPT_PERSIST = false -> P) as No.
    { intros P [?|?]; [lia|congruence]. }
    cbv iota. destruct (SEQ_GT (snd_nxt tp + l_len l) (snd_max tp)); (split; [done|]); (split; [by apply No|by left]).
Qed.
End stages.

(** ** One pass *)

(** A packet carries the bytes of the send buffer that belong at its sequence
    number; it lies in the window of the peer, fills a hole or is the probe of a
    closed window; its size is that of a segment. *)
Record pkt_ok (e : oenv) (nosack : Z) (tp : tcpcb) (pkt : opkt) : Prop := mkPktOk {
  pk_data : p_data pkt <> [] ->
    p_data pkt = take (length (p_data pkt)) (drop (Z.to_nat (off (snd_una tp) (p_seq pkt))) (mb_bytes (oe_mb e)));
  pk_window : p_data pkt <> [] ->
    off (snd_una tp) (p_seq pkt) + Z.of_nat (length (p_data pkt)) <= snd_wnd tp \/
    in_holes (snd_una tp) (snd_holes tp) (off (snd_una tp) (p_seq pkt)) \/
    t_force tp <> 0 /\ off (snd_una tp) (p_seq pkt) + Z.of_nat (length (p_data pkt)) <= 1;
  pk_size : Z.of_nat (length (p_data pkt)) <= match p_segsz pkt with None => nosack | Some _ => IP_MAXPACKET end;
  pk_ack : p_ack pkt = rcv_nxt tp
}.

(** The bytes that can still be sent: new ones and those of the holes. *)
Definition remaining (st : ostate) : Z :=
  Z.max 0 (sb_cc (o_snd st) - off (snd_una (o_tp st)) (snd_nxt (o_tp st))) +
  to_rexmit (snd_una (o_tp st)) (snd_holes (o_tp st)).

Lemma in_holes_alter b i f hs x : (forall p, start (f p) = start p /\ hend (f p) = hend p) ->
  in_holes b (alter f i hs) x <-> in_holes b hs x.
Proof.
  intros F. revert i; induction hs as [|h hs IH]; intros [|i]; simpl; try done;
    rewrite !in_holes_cons; unfold in_hole.
  - by destruct (F h) as [-> ->].
  - by rewrite <- (IH i).
Qed.

Section pass.
Context (e : oenv) (ND : NoDup (oe_mb e).*1) (tlen tsum : Z).
Context (Tmpl : t_template e = Some (tlen, tsum)) (Tlen : sizeof_tcpiphdr <= tlen).

(** The sequence number that [out_seq] chooses for a plan with data. *)
Lemma out_seq_spec tp cc l :
  plan tp cc l -> 0 <= cc < 2 ^ 30 -> holes_wf (snd_una tp) 0 cc (snd_holes tp) ->
  exists s tp', out_seq tp l = Some (s, tp') /\
    (0 < l_len l -> off (snd_una tp) s = l_off l /\ l_off l + l_len l <= cc /\
      (l_off l + l_len l <= snd_wnd tp \/ in_holes (snd_una tp) (snd_holes tp) (off (snd_una tp) s) \/
       t_force tp <> 0 /\ l_off l + l_len l <= 1)) /\
    (exists hs, tp' = tp <| snd_holes := hs |> /\ holes_wf (snd_una tp) 0 cc hs /\
       to_rexmit (snd_una tp) hs = to_rexmit (snd_una tp) (snd_holes tp) - (if l_sack_rxmit l then l_len l else 0) /\
       (forall x, in_holes (snd_una tp) hs x <-> in_holes (snd_una tp) (snd_holes tp) x)).
Proof.
  intros P Hc W. unfold out_seq. destruct (l_sack_rxmit l) eqn:E.
  - destruct (plan_rexmit _ _ _ P E) as (-> & i & p & -> & Hi & Ho & Hl & Hh). simpl. rewrite Hi. simpl.
    eexists _, _. split; [done|]. pose proof (holes_wf_lookup _ _ _ _ _ _ W Hi) as (H1 & H2). split.
    + intros _. split; [done|]. split; [lia|]. right. left. apply Exists_exists. exists p.
      split; [by eapply list_elem_of_lookup_2|]. unfold in_hole. lia.
    + eexists. split; [unfold set_rxmit; done|].
      destruct (holes_wf_advance _ _ (l_len l) _ _ _ _ W ltac:(lia) Hi ltac:(lia) ltac:(lia)) as [W' R].
      split; [exact W'|]. split; [exact R|]. intros x. by apply in_holes_alter.
  - rewrite andb_false_r.
    assert (exists hs, tp = tp <| snd_holes := hs |> /\ holes_wf (snd_una tp) 0 cc hs /\
       to_rexmit (snd_una tp) hs = to_rexmit (snd_una tp) (snd_holes tp) - 0 /\
       (forall x, in_holes (snd_una tp) hs x <-> in_holes (snd_una tp) (snd_holes tp) x)) as Same.
    { exists (snd_holes tp). split; [by destruct tp|]. split; [done|]. split; [lia|done]. }
    destruct (Z.eqb_spec (l_len l) 0); simpl; [case_match; (eexists _, _; split; [done|]; split; [lia|done])|].
    eexists _, _. split; [done|]. split; [|done]. intros Pos.
    destruct (plan_new _ _ _ P E Pos) as (O & L & Wd). split; [done|]. split; [done|]. destruct Wd; auto.
Qed.

(** Fields that a plan is about. *)
Definition core (tp : tcpcb) := (snd_cwnd tp, snd_nxt tp, snd_holes tp, t_timer tp, TCP_SACK_ENABLED tp).

Lemma sview_core tp tp' : sview tp = sview tp' -> core tp = core tp'.
Proof. unfold sview, core. congruence. Qed.

Lemma plan_ext tp tp' cc l l' :
  plan tp cc l -> oframe tp' = oframe tp -> core tp' = core tp -> more_flags l l' -> plan tp' cc l'.
Proof.
  intros [P1 P2 P3 P4 P5] F C (f & -> & _ & Ff). unfold oframe in F. unfold core in C. simplify_eq F; intros.
  simplify_eq C; intros. split; upd_simpl; try done.
  - unfold plan_hole in *. upd_simpl. intros E. destruct (P2 E) as (? & i & p & ?). split; [congruence|]. exists i, p. intuition congruence.
  - intros E H'. destruct (P3 E H') as (? & ? & ?). intuition congruence.
  - intros E. destruct (P4 E) as [? Q]. split; [done|]. intros E'. destruct (Q E') as [? ?].
    rewrite Ff, (armed_ext tp' tp) by done. intuition congruence.
Qed.

Lemma out_data_spec cc tries hdrlen tp l :
  plan tp cc l -> cached (oe_mb e) tp -> cc = Z.of_nat (length (mb_bytes (oe_mb e))) -> cc < 2 ^ 30 ->
  holes_wf (snd_una tp) 0 cc (snd_holes tp) ->
  exists error data tp' l', out_data e cc tries hdrlen tp l = Some (error, data, tp', l') /\
    core tp' = core tp /\ cached (oe_mb e) tp' /\ more_flags l l' /\
    (error = 0 -> Z.of_nat (length data) = l_len l /\
      data = take (length data) (drop (Z.to_nat (l_off l)) (mb_bytes (oe_mb e)))).
Proof using ND.
  intros P C Hcc Hs W. unfold out_data. destruct (Z.eqb_spec (l_len l) 0) as [L0|L0].
  { destruct (get_header _ _ _); eexists _, _, _, _; (split; [done|]); (split; [done|]); (split; [done|]);
      (split; [apply more_flags_refl|]); intros; simplify_eq/=; by rewrite L0. }
  pose proof (plan_len _ _ _ P). assert (0 <= l_off l /\ l_off l + l_len l <= cc) as [O1 O2].
  { destruct (l_sack_rxmit l) eqn:E.
    - destruct (plan_rexmit _ _ _ P E) as (_ & i & p & _ & Hi & ? & ? & ?).
      pose proof (holes_wf_lookup _ _ _ _ _ _ W Hi). pose proof (off_range (snd_una tp) (rxmit p)). lia.
    - destruct (plan_new _ _ _ P E ltac:(lia)) as (? & ? & _). pose proof (off_range (snd_una tp) (snd_nxt tp)). lia. }
  destruct (tcp_build_datapkt_spec e ND tries tp (l_off l) (l_len l) hdrlen C) as
    (error & data & tp' & -> & C' & (lm & io & lo & ll & ->) & D & _); [lia..|].
  cbn [mbind option_bind]. eexists _, _, _, _. split; [done|]. split; [by unfold core, TCP_SACK_ENABLED; upd_simpl|].
  split; [done|]. split; [case_match; [by apply more_flags_lor; [apply more_flags_refl|]|apply more_flags_refl]|].
  intros E. specialize (D E). assert (length data = Z.to_nat (l_len l)) as Ld by (rewrite D, length_take, length_drop; lia).
  rewrite Ld. split; [lia|done].
Qed.

(** The packets that were sent from [st] on; the invariant holds again if each
    packet that was tried was sent. *)
Definition sends (nosack : Z) (st st' : ostate) (pkts : list opkt) : Prop :=
  o_sent st' = o_sent st ++ pkts /\ Forall (pkt_ok e nosack (o_tp st)) pkts /\
  (o_tries st + length pkts <= o_tries st')%nat /\ ((o_tries st' = o_tries st + length pkts)%nat -> oinv e nosack st').

(** What one pass guarantees. *)
Definition pass_ok (nosack : Z) (st : ostate) (r : opass) : Prop :=
  (exists pkts, sends nosack st (pass_state r) pkts) /\
  (forall st', r = OAgain st' -> oinv e nosack st' /\ remaining st' < remaining st /\
     forall x, in_holes (snd_una (o_tp st)) (snd_holes (o_tp st')) x <->
               in_holes (snd_una (o_tp st)) (snd_holes (o_tp st)) x).

Lemma pass_ok_done nosack st error st' : o_sent st' = o_sent st -> (o_tries st <= o_tries st')%nat ->
  (o_tries st' = o_tries st -> oinv e nosack st') -> pass_ok nosack st (ODone error st').
Proof.
  intros E T I. split; [exists []; split; [by rewrite app_nil_r|]|done]. split; [done|]. simpl. split; [lia|]. intros T'. apply I. lia.
Qed.

Lemma pass_ok_failed nosack st error st' : o_sent st' = o_sent st -> o_tries st' = S (o_tries st) -> pass_ok nosack st (ODone error st').
Proof. intros E T. apply pass_ok_done; [done|lia|lia]. Qed.

(** The state after a segment has been sent. *)
Lemma out_advance_inv nosack st st' l cc tp tp' :
  oinv e nosack st -> prepared nosack st st' l -> cc = sb_cc (o_snd st) ->
  core tp = (snd_cwnd (o_tp st), snd_nxt (o_tp st'), snd_holes tp, t_timer (o_tp st'), TCP_SACK_ENABLED tp) ->
  oframe tp = oframe (o_tp st) -> no_syn l -> cached (oe_mb e) tp ->
  holes_wf (snd_una tp) 0 cc (snd_holes tp) ->
  to_rexmit (snd_una tp) (snd_holes tp) = to_rexmit (snd_una tp) (snd_holes (o_tp st)) - (if l_sack_rxmit l then l_len l else 0) ->
  sent_view tp' = sent_view tp -> oframe tp' = oframe tp ->
  (t_force tp = 0 \/ TCP_TIMER_ISARMED tp TCPT_PERSIST = false ->
   snd_nxt tp' = let n := if flag_set (l_flags l) (Z.lor TH_SYN TH_FIN) then u32 (snd_nxt tp + 1) else snd_nxt tp in
     if l_sack_rxmit l then n else u32 (n + l_len l)) ->
  (snd_nxt tp' = snd_nxt tp \/ t_force tp = 0 \/ TCP_TIMER_ISARMED tp TCPT_PERSIST = false) ->
  forall st2, o_tp st2 = tp' -> sb_cc (o_snd st2) = cc -> oinv e nosack st2 /\ (l_sendalot l = true -> remaining st2 < remaining st).
Proof.
  intros I Pr -> Co Fr NS Ca W R Sv Fr' Nx Nx' st2 E2 Ecc.
  pose proof (plan_more _ _ _ (pr_plan _ _ _ _ Pr)) as More. pose proof (plan_len _ _ _ (pr_plan _ _ _ _ Pr)) as Len.
  pose proof (plan_rexmit _ _ _ (pr_plan _ _ _ _ Pr)) as Rex. pose proof (pr_fin _ _ _ _ Pr) as Fin. unfold fin_last in Fin.
  pose proof (pr_forward _ _ _ _ Pr) as Fw. pose proof (pr_nxt _ _ _ _ Pr) as Pn.
  pose proof (plan_new _ _ _ (pr_plan _ _ _ _ Pr)) as New.
  destruct (pr_tp _ _ _ _ Pr) as (ts & rs & n1 & Etp).
  assert (snd_una (o_tp st') = snd_una (o_tp st) /\ t_force (o_tp st') = t_force (o_tp st)) as [U1 U2] by (rewrite Etp; by upd_simpl).
  clear Etp. destruct I as [Hcc Hsm Hh Hl Hn Hw Hcw Hs Hc Hq Hns].
  unfold oframe in Fr, Fr'. unfold core in Co. unfold sent_view in Sv. simplify_eq Fr; intros. simplify_eq Fr'; intros.
  simplify_eq Co; intros. simplify_eq Sv; intros.
  assert (snd_una tp' = snd_una (o_tp st)) as Una by congruence. assert (snd_una tp = snd_una (o_tp st)) as Una' by congruence.
  assert (TCP_TIMER_ISARMED tp TCPT_PERSIST = TCP_TIMER_ISARMED (o_tp st') TCPT_PERSIST) as Ar by (by apply armed_ext).
  rewrite Una' in *. rewrite U1, U2 in *. pose proof (to_rexmit_range _ _ _ _ W) as R0. pose proof (to_rexmit_range _ _ _ _ Hh) as R1.
  pose proof (off_range (snd_una (o_tp st)) (snd_nxt (o_tp st'))) as Orng.
  assert (off (snd_una (o_tp st)) (snd_nxt tp') + to_rexmit (snd_una (o_tp st)) (snd_holes tp) < 2 ^ 31 /\
    (l_sendalot l = true -> Z.max 0 (sb_cc (o_snd st) - off (snd_una (o_tp st)) (snd_nxt tp')) + to_rexmit (snd_una (o_tp st)) (snd_holes tp) <
    Z.max 0 (sb_cc (o_snd st) - off (snd_una (o_tp st)) (snd_nxt (o_tp st))) + to_rexmit (snd_una (o_tp st)) (snd_holes (o_tp st)))) as [Key1 Key2].
  { rewrite R. replace (snd_nxt tp) with (snd_nxt (o_tp st')) in * by congruence.
    replace (t_force tp) with (t_force (o_tp st)) in * by congruence. rewrite Ar in *.
    destruct (l_sack_rxmit l) eqn:Sk.
    - destruct (Rex eq_refl) as (_ & _ & _ & _ & _ & _ & Pos & _).
      assert (snd_nxt tp' = snd_nxt (o_tp st') \/ snd_nxt tp' = u32 (snd_nxt (o_tp st') + 1)) as [->| ->].
      { destruct Nx' as [?|F]; [by left|]. rewrite (Nx F). case_match; auto. }
      + split; [lia|]. intros M. specialize (Fw M). lia.
      + rewrite off_u32_add by lia. split; [lia|]. intros M. specialize (Fw M). lia.
    - specialize (Fin eq_refl).
      assert (flag_set (l_flags l) (Z.lor TH_SYN TH_FIN) = flag_set (l_flags l) TH_FIN) as Fl.
      { unfold no_syn in NS. revert NS. flag_bits. by intros ->. }
      rewrite Fl in Nx. assert (0 < l_len l -> off (snd_una (o_tp st)) (snd_nxt (o_tp st')) + l_len l <= sb_cc (o_snd st)) as NewL.
      { intros Pos. destruct (New eq_refl Pos) as (O & L & _). by rewrite O in L. }
      assert (off (snd_una (o_tp st)) (snd_nxt (o_tp st')) + to_rexmit (snd_una (o_tp st)) (snd_holes (o_tp st)) < 2 ^ 31) as Pn' by done.
      destruct (l_sendalot l) eqn:M.
      + destruct (More eq_refl) as [Pos Mo]. destruct (Mo eq_refl) as [Ff Cond]. rewrite (Nx Cond), Ff. cbv zeta iota.
        specialize (NewL Pos). specialize (Fw eq_refl). rewrite off_u32_add by lia. lia.
      + split; [|done]. destruct Nx' as [->|Cond]; [lia|]. rewrite (Nx Cond). cbv zeta. destruct (flag_set (l_flags l) TH_FIN).
        * specialize (Fin eq_refl Len). rewrite off_u32_add; rewrite ?off_u32_add by lia; lia.
        * destruct (Z.eq_dec (l_len l) 0) as [Z0|]; rewrite off_u32_add by lia; lia. }
  split; [split|]; unfold remaining; rewrite ?E2, ?Ecc, ?Una; try congruence; try lia.
  - eapply cached_ext; [|exact Ca]. congruence.
  - intros M. specialize (Key2 M). replace (snd_holes tp') with (snd_holes tp) by congruence. exact Key2.
Qed.

Lemma out_transmit_ok nosack rx st st1 l :
  oinv e nosack st -> prepared nosack st st1 l ->
  exists r, out_transmit e rx st1 l = Some r /\ pass_ok nosack st r.
Proof.
  intros I Pr. pose proof I as [Hcc Hsm Hh Hl Hn Hw Hcw Hs Hc Hq Hns].
  pose proof Pr as [(ts & rs & n1 & Etp) Pn Pcc Ps Pt _ Pp Psy Ptx Pb Pf].
  assert (oframe (o_tp st1) = oframe (o_tp st) /\ snd_holes (o_tp st1) = snd_holes (o_tp st) /\
    cached (oe_mb e) (o_tp st1) /\ tcp_sack_numblks (o_tp st1) = tcp_sack_numblks (o_tp st) /\
    t_segqlen (o_tp st1) = t_segqlen (o_tp st) /\ snd_cwnd (o_tp st1) = snd_cwnd (o_tp st)) as (F1 & H1 & C1 & N1 & Q1 & W1).
  { rewrite Etp. unfold oframe, cached, tcp_sack_numblks, TCP_SACK_ENABLED. by upd_simpl. }
  clear Etp Pf Pn. unfold out_transmit. rewrite Pcc.
  destruct (build_options_spec e (l_flags l) (l_numblks l) (o_tp st1)) as (opt & tp & Eo & V2); [done|by rewrite N1|by rewrite Q1|].
  rewrite Eo. cbn [mbind option_bind]. pose proof (aframe_oframe _ _ (aframe_options _ _ _ _ _ _ Eo)) as F2. clear Eo.
  assert (core tp = core (o_tp st1)) as Co2 by (by apply sview_core).
  assert (plan tp (sb_cc (o_snd st)) l) as P2 by (eapply plan_ext; [exact Pp|done|done|apply more_flags_refl]).
  assert (cached (oe_mb e) tp) as C2 by (eapply cached_ext; [|exact C1]; exact (f_equal snd V2)).
  clear V2. assert (snd_una tp = snd_una (o_tp st)) as Una by (unfold oframe in *; congruence).
  assert (holes_wf (snd_una tp) 0 (sb_cc (o_snd st)) (snd_holes tp)) as Wf2.
  { rewrite Una. unfold core in Co2. replace (snd_holes tp) with (snd_holes (o_tp st)) by congruence. done. }
  destruct (out_data_spec (sb_cc (o_snd st)) (o_tries st1) (sizeof_tcpiphdr + Z.of_nat (length opt)) tp l P2 C2)
    as (error & data & tp3 & l3 & Ed & Co3 & C3 & M3 & D3); [done|done|done|].
  rewrite Ed. cbn [mbind option_bind]. pose proof (aframe_oframe _ _ (aframe_data _ _ _ _ _ _ _ _ _ _ Ed)) as F3. clear Ed.
  destruct (Z.eqb_spec error 0) as [Er|Er]; simpl.
  2: { destruct (out_error _ _ _ _). eexists; split; [done|]. apply pass_ok_failed; [done|]. simpl. by rewrite Pt. }
  rewrite Tmpl. cbn [mbind option_bind]. destruct (Z.ltb_spec tlen sizeof_tcpiphdr); [lia|].
  destruct (out_ecn e tp3 l3) as [[tp4 l4] ect] eqn:Ee.
  pose proof (aframe_oframe _ _ (aframe_ecn e tp3 l3)) as F4. rewrite Ee in F4. cbn [fst] in F4.
  apply out_ecn_spec in Ee as [V4 M4]. pose proof (sview_core _ _ V4) as Co4.
  pose proof (more_flags_trans _ _ _ M3 M4) as M. clear M3 M4.
  assert (plan tp4 (sb_cc (o_snd st)) l4) as P4 by (eapply plan_ext; [exact P2|congruence|congruence|exact M]).
  assert (cached (oe_mb e) tp4) as C4 by (eapply cached_ext; [|exact C3]; exact (f_equal snd V4)).
  assert (snd_una tp4 = snd_una (o_tp st) /\ snd_wnd tp4 = snd_wnd (o_tp st) /\ t_force tp4 = t_force (o_tp st) /\
    snd_holes tp4 = snd_holes (o_tp st)) as (Un4 & Wn4 & Fo4 & Ho4) by (unfold oframe, core in *; intuition congruence).
  assert (holes_wf (snd_una tp4) 0 (sb_cc (o_snd st)) (snd_holes tp4)) as Wf4 by (rewrite Un4, Ho4; done).
  destruct (out_seq_spec tp4 _ l4 P4 ltac:(lia) Wf4) as (s & tp5 & Es & Sq & (hs & E5 & Wf5 & R5 & In5)).
  rewrite Es. cbn [mbind option_bind]. pose proof (aframe_oframe _ _ (aframe_seq _ _ _ _ Es)) as F5. clear Es.
  destruct (out_urgent tp5 (l_flags l4)) as [[urp fl] tp6] eqn:Eu.
  pose proof (aframe_oframe _ _ (aframe_urgent tp5 (l_flags l4))) as F6. pose proof (out_urgent_sview tp5 (l_flags l4)) as V6.
  rewrite Eu in F6, V6. cbn [snd] in F6, V6. clear Eu.
  match goal with |- context [ip_output e _ ?p] => set (pkt := p) end.
  assert (l_len l4 = l_len l /\ l_off l4 = l_off l /\ l_sendalot l4 = l_sendalot l /\ l_sack_rxmit l4 = l_sack_rxmit l /\
    l_txsegsize l4 = l_txsegsize l /\ flag_set (l_flags l4) TH_SYN = false) as (G1 & G2 & G3 & G4 & G5 & G6).
  { destruct M as (f & -> & Fs & _). upd_simpl. by rewrite Fs. }
  assert (pkt_ok e nosack (o_tp st) pkt) as Pk.
  { destruct (D3 Er) as [Dl Dd]. assert (data <> [] -> 0 < l_len l4) as Pos by (destruct data; [done|simpl in Dl; lia]).
    rewrite G1, G2, Un4, Wn4, Fo4, Ho4 in Sq. split; subst pkt; cbn [p_data p_seq p_segsz p_ack].
    - intros Nd. specialize (Pos Nd). destruct Sq as [-> _]; [lia|]. exact Dd.
    - intros Nd. specialize (Pos Nd). destruct Sq as (E & _ & Cs); [lia|]. rewrite E, Dl in *. exact Cs.
    - rewrite Dl, <- G1. pose proof (plan_size _ _ _ P4). destruct (l_use_tso l4); lia.
    - unfold oframe in *. congruence. }
  assert (oframe tp6 = oframe (o_tp st)) as F7 by congruence.
  pose proof (out_advance_view e tp6 l4) as (Sv & Nx & Nx'). pose proof (aframe_oframe _ _ (aframe_advance e tp6 l4)) as F8.
  set (tp7 := out_advance e tp6 l4) in *. clearbody tp7. clearbody pkt.
  destruct (ip_output e (o_tries st1) pkt =? 0); simpl.
  2: { destruct (out_error _ _ _ _). eexists; split; [done|]. apply pass_ok_failed; [done|]. simpl. by rewrite Pt. }
  match goal with |- context [out_sent ?w ?n tp7] => pose proof (out_sent_view w n tp7) as [Sv9 Nx9];
    pose proof (oframe_sent w n tp7) as F9; set (tp9 := out_sent w n tp7) in * end. clearbody tp9.
  eexists; split; [done|]. rewrite G3.
  match goal with |- context [OAgain ?x] => set (st2 := x) end.
  assert (o_tp st2 = tp9 /\ sb_cc (o_snd st2) = sb_cc (o_snd st) /\ o_sent st2 = o_sent st ++ [pkt] /\ o_tries st2 = S (o_tries st))
    as (T2 & Cc2 & Sn2 & Tr2) by (subst st2; upd_simpl; by rewrite Pcc, Ps, Pt).
  clearbody st2. assert (snd_holes tp6 = hs /\ snd_holes tp9 = hs) as [Hs6 Hs9].
  { subst tp5. unfold sent_view, sview in *. upd_simpl in V6. simplify_eq V6; intros. intuition congruence. }
  assert (flag_set (l_flags l4) (Z.lor TH_SYN TH_FIN) = flag_set (l_flags l) (Z.lor TH_SYN TH_FIN)) as G7.
  { destruct M as (f & -> & Fs & Ff). upd_simpl. revert Fs Ff. flag_bits. by intros -> ->. }
  rewrite G7, G1, G4, <- Nx9 in Nx. rewrite <- Nx9 in Nx'. rewrite G1, G4, Un4, Ho4 in R5.
  assert (snd_una tp6 = snd_una (o_tp st)) as Un6 by (unfold oframe in *; congruence).
  assert (oinv e nosack st2 /\ (l_sendalot l = true -> remaining st2 < remaining st)) as [I2 Rm].
  { eapply (out_advance_inv nosack st st1 l _ tp6 tp9 I Pr eq_refl); try done; try congruence.
    - unfold core, sview in *. subst tp5. upd_simpl in V6. unfold TCP_SACK_ENABLED in V6 |- *. upd_simpl in V6.
      simplify_eq V6; intros. simplify_eq Co2; intros. simplify_eq Co3; intros. simplify_eq Co4; intros. congruence.
    - eapply cached_ext; [|exact C4]. rewrite E5 in V6. exact (f_equal snd V6). }
  assert (pass_state (if l_sendalot l then OAgain st2 else ODone 0 st2) = st2) as Ps2 by by destruct (l_sendalot l).
  split; [exists [pkt]; rewrite Ps2; split; [done|]; split; [by constructor|]; split; [simpl; lia|done]|].
  intros st3. destruct (l_sendalot l); [|done]. intros [= <-].
  split; [done|]. split; [by apply Rm|]. rewrite T2, Hs9. intros x. rewrite Un4 in In5. rewrite In5. by rewrite Ho4.
Qed.

Lemma out_return_timers cc tp : exists tp', out_return e cc tp = Some tp' /\ timers_only tp tp'.
Proof.
  unfold out_return. case_match; [eexists; split; [done|apply timers_only_arm]|]. case_match; [|eexists; split; [done|apply timers_only_refl]].
  destruct (setpersist_timers (e_timer_hz (oe_env e)) (e_hz (oe_env e)) (tp <| t_rxtshift := 0 |>)) as (tp' & -> & T).
  - rewrite (armed_ext _ tp) by (by upd_simpl).
    match goal with H : _ && negb _ = true |- _ => apply andb_true_iff in H as [_ H]; apply negb_true_iff, orb_false_iff in H end.
    by destruct_and!.
  - eexists; split; [done|]. eapply timers_only_trans; [|exact T]. apply timers_only_shift, timers_only_refl.
Qed.

(** Nothing is sent: the timers and [snd_nxt] may have changed. *)
Lemma idle_inv nosack st st1 l tp : oinv e nosack st -> prepared nosack st st1 l -> timers_only (o_tp st1) tp ->
  oinv e nosack (st1 <| o_tp := tp |>).
Proof.
  intros [Hcc Hsm Hh Hl Hn Hw Hcw Hs Hc Hq Hns] [(ts & rs & n & E) Pn Pcc _ _ _ _ _ _ _ _] (ts2 & rs2 & ->).
  rewrite E in *. upd_simpl in Pn. split; upd_simpl; rewrite ?Pcc; done.
Qed.

Lemma out_pass_ok nosack rx tso idle st :
  oinv e nosack st -> exists r, out_pass e nosack rx tso idle st = Some r /\ pass_ok nosack st r.
Proof.
  intros I. unfold out_pass. destruct (out_prepare_spec e nosack tso st I) as (st1 & l & -> & Pr).
  cbn [mbind option_bind]. case_match; [by eapply out_transmit_ok|].
  destruct (out_return_timers (sb_cc (o_snd st1)) (o_tp st1)) as (tp & -> & T). cbn [mbind option_bind].
  eexists; split; [done|]. apply pass_ok_done; [exact (pr_sent _ _ _ _ Pr)|simpl; by rewrite (pr_tries _ _ _ _ Pr)|].
  intros _. by eapply idle_inv.
Qed.

Lemma pkt_ok_ext nosack tp tp' pkt :
  oframe tp' = oframe tp -> (forall x, in_holes (snd_una tp) (snd_holes tp') x -> in_holes (snd_una tp) (snd_holes tp) x) ->
  pkt_ok e nosack tp' pkt -> pkt_ok e nosack tp pkt.
Proof.
  intros F Hi [P1 P2 P3 P4]. unfold oframe in F. simplify_eq F; intros.
  assert (snd_una tp' = snd_una tp) as U by congruence. assert (snd_wnd tp' = snd_wnd tp) as W by congruence.
  assert (t_force tp' = t_force tp) as Fo by congruence. rewrite U, ?W, ?Fo in *.
  split; [exact P1| |exact P3|congruence]. intros N. destruct (P2 N) as [?|[?|?]]; auto.
Qed.

(** The loop returns, and all that it has sent is right. *)
Lemma out_loop_ok nosack rx tso idle fuel : forall maxburst st,
  oinv e nosack st -> remaining st < Z.of_nat fuel ->
  exists error st' pkts, out_loop e fuel maxburst nosack rx tso idle st = OReturn error st' /\ sends nosack st st' pkts.
Proof.
  induction fuel as [|fuel IH]; intros maxburst st I R.
  { pose proof (to_rexmit_range _ _ _ _ (oi_holes _ _ _ I)). unfold remaining in R. lia. }
  cbn [out_loop]. destruct (out_pass_ok nosack rx tso idle st I) as (r & Er & (pkts & Sn) & Ag).
  rewrite Er. pose proof (oframe_pass _ _ _ _ _ _ _ Er) as Fr. destruct r as [st1|error st1]; cbn [pass_state] in *; [|eauto 10].
  destruct (Ag st1 eq_refl) as (I1 & R1 & In1).
  assert (forall mb, exists error st' pkts, out_loop e fuel mb nosack rx tso idle st1 = OReturn error st' /\ sends nosack st st' pkts) as Next.
  { intros mb. destruct (IH mb st1 I1 ltac:(lia)) as (error & st' & pkts' & -> & Es' & Fp' & Tr' & Iv'). destruct Sn as (Es & Fp & Tr & Iv).
    exists error, st', (pkts ++ pkts'). split; [done|]. split; [by rewrite Es', Es, app_assoc|]. rewrite length_app. split; [|split; [lia|intros; apply Iv'; lia]].
    apply Forall_app; split; [done|]. eapply Forall_impl; [exact Fp'|]. intros pkt.
    apply pkt_ok_ext; [done|]. intros x. apply In1. }
  case_match; [apply Next|]. case_match; [eauto 10|apply Next].
Qed.

(** The segment size and the restart window change only the congestion window. *)
Lemma run_inv st tx rx tp' idle :
  oinv e tx st -> tcp_segsize e (o_tp st) (o_snd st) = Some (tx, rx, tp') ->
  let st1 := st <| o_tp := out_restart e idle tx tp' |> in
  oinv e tx st1 /\ remaining st1 = remaining st /\ o_sent st1 = o_sent st /\
  (forall pkt, pkt_ok e tx (o_tp st1) pkt -> pkt_ok e tx (o_tp st) pkt).
Proof.
  intros I E st1.
  assert (exists w th sz, tp' = (o_tp st) <| snd_cwnd := w |> <| snd_ssthresh := th |> <| t_segsz := sz |> /\ 0 <= w < 2 ^ 32) as (w & th & sz & -> & Hw).
  { revert E. unfold tcp_segsize. set (size := s32 (_ - _)). destruct (size <? 0); [done|].
    set (txs := if t_inpcb (o_tp st) then umin _ _ else _). clearbody size txs. intros [= _ _ <-]. pose proof (oi_cwnd _ _ _ I).
    destruct (txs =? t_segsz (o_tp st)); [exists (snd_cwnd (o_tp st)), (snd_ssthresh (o_tp st)), (t_segsz (o_tp st)); split; [by destruct (o_tp st)|done]|].
    destruct (txs <? t_segsz (o_tp st)).
    - eexists _, _, _. split; [done|]. unfold umax.
      match goal with |- context [u32 ?a `max` u32 ?b] => pose proof (u32_range a); pose proof (u32_range b) end. lia.
    - exists (snd_cwnd (o_tp st)), (snd_ssthresh (o_tp st)), (u16 txs). split; [by destruct (o_tp st)|done]. }
  clear E. set (tp' := (o_tp st) <| snd_cwnd := w |> <| snd_ssthresh := th |> <| t_segsz := sz |>) in *.
  assert (exists w', out_restart e idle tx tp' = tp' <| snd_cwnd := w' |> /\ 0 <= w' < 2 ^ 32) as (w' & Er & Hw').
  { unfold out_restart. assert (forall x y, 0 <= umin x y < 2 ^ 32) as Um.
    { intros x y. unfold umin. pose proof (u32_range x). pose proof (u32_range y). lia. }
    case_match; [eexists; split; [done|apply Um]|]. case_match; [eexists; split; [done|apply Um]|].
    exists w. split; [|done]. subst tp'. by destruct (o_tp st). }
  subst st1 tp'. rewrite Er. clear Er. split; [|split; [done|split; [done|]]].
  - destruct I as [Hcc Hsm Hh Hl Hn Hwn Hcw Hs Hc Hq Hns]. split; upd_simpl; done.
  - intros pkt. by apply pkt_ok_ext; [unfold oframe; upd_simpl|].
Qed.
End pass.

(** C2. A call of [tcp_output] on a connection that is established or later, whose send
    buffer is below 2^30 bytes and whose SACK holes lie in the data of the buffer,
    returns: each pass of its loop leaves less to send, and neither a panic nor a failed
    assertion nor a stale pointer is met, however many mbufs are missing and whatever
    errors IP reports.  Every packet that was sent carries, from its sequence number on,
    the bytes of the send buffer that belong there, does not exceed the segment size,
    acknowledges [rcv_nxt], and lies in the window of the peer unless it fills a reported
    hole or probes a closed window.  If each packet that was tried was sent, the
    connection is again as the next call needs it. *)
Theorem tcp_output_stream e fuel st tx rx tp' tlen tsum :
  NoDup (oe_mb e).*1 -> t_template e = Some (tlen, tsum) -> sizeof_tcpiphdr <= tlen ->
  tcp_segsize e (o_tp st) (o_snd st) = Some (tx, rx, tp') ->
  oinv e tx st -> remaining st < Z.of_nat fuel ->
  exists error st' pkts, tcp_output_run e fuel st = OReturn error st' /\ o_sent st' = o_sent st ++ pkts /\
    Forall (pkt_ok e tx (o_tp st)) pkts /\ ((o_tries st' = o_tries st + length pkts)%nat -> oinv e tx st').
Proof.
  intros ND Tm Tl Es I R. unfold tcp_output_run.
  destruct (oe_inet e); cbn [negb]; [|exists EAFNOSUPPORT, st, []; rewrite app_nil_r; auto].
  destruct (t_inpcb (o_tp st)); cbn [negb]; [|exists EINVAL, st, []; rewrite app_nil_r; auto].
  rewrite Es. destruct (run_inv e st tx rx tp' (snd_max tp' =? snd_una tp') I Es) as (I1 & R1 & S1 & P1).
  edestruct (out_loop_ok e ND tlen tsum Tm Tl tx rx (out_has_tso e tp') (snd_max tp' =? snd_una tp') fuel TCP_MAXBURST)
    as (error & st' & pkts & Er & Eq & F & _ & Iv); [exact I1|lia|].
  exists error, st', pkts. split; [exact Er|]. split; [congruence|]. split; [eapply Forall_impl; [exact F|exact P1]|exact Iv].
Qed.

(** ** A run

    300 bytes in three mbufs, of which 250 have been sent across the wrap of the
    sequence space and the first 150 are missing at the peer. *)

Definition ex_out_tenv : tenv :=
  mkEnv (fun tp => tp) 1000 100 1000 (mkAbc true 1) (false, 30, 2) false 20 7 9 true true false 0 0
    262144 65536 0 65536 false 65536 true false None true false false 0 536 0 0 false false 60 60 60.

Definition ex_mb : list (addr * list Z) := [(1%positive, seqZ 0 120); (2%positive, seqZ 120 100); (3%positive, seqZ 220 80)].

Definition ex_oenv : oenv :=
  mkOenv ex_out_tenv true (Some (mkRoute 1500 1500 false false)) (Some (40, 0)) ex_mb 0 [] 16 1500 false false 4 false 8192
    262144 131072 1 (fun _ => true) (fun _ => true) (fun _ _ => 0).

Definition ex_out_tp : tcpcb :=
  tcpcb_zero <| t_state := TCPS_ESTABLISHED |> <| t_peermss := 100 |> <| t_ourmss := 1460 |> <| t_segsz := 100 |>
    <| t_flags := TF_WILL_SACK |> <| t_partialacks := 0 |> <| t_rxtcur := 6 |> <| t_congctl := Some tcp_reno_ctl |>
    <| snd_una := 2 ^ 32 - 100 |> <| snd_nxt := 150 |> <| snd_max := 150 |> <| snd_wnd := 5000 |> <| snd_cwnd := 5000 |>
    <| max_sndwnd := 5000 |> <| snd_recover := 150 |> <| sack_newdata := 150 |>
    <| snd_holes := [mkHole 1 (2 ^ 32 - 100) 50 (2 ^ 32 - 100)] |> <| rcv_lastsack := 150 |>.

Definition ex_ost : ostate := mkOst ex_out_tp (mkSockbuf 300 8192 6144 16384 2048 None None None None) false 0 [].

(** The hole is filled with two segments; the 50 bytes of new data wait for
    an acknowledgement. *)
Example ex_out_run :
  match tcp_output_run ex_oenv 451 ex_ost with
  | OReturn 0 st => ((fun p => (p_seq p, Z.of_nat (length (p_data p)))) <$> o_sent st) =
      [(2 ^ 32 - 100, 100); (0, 50)]
  | _ => False
  end.
Proof. vm_compute. reflexivity. Qed.

Lemma ex_oinv : oinv ex_oenv 100 ex_ost.
Proof.
  split; by vm_compute.
Qed.

Lemma tcp_output_stream_witness :
  exists error st' pkts, tcp_output_run ex_oenv 451 ex_ost = OReturn error st' /\ o_sent st' = [] ++ pkts /\
    Forall (pkt_ok ex_oenv 100 ex_out_tp) pkts /\ ((o_tries st' = 0 + length pkts)%nat -> oinv ex_oenv 100 st').
Proof.
  apply (tcp_output_stream ex_oenv 451 ex_ost 100 536 (ex_out_tp <| t_segsz := 100 |>) 40 0).
  - apply (bool_decide_unpack _). by vm_compute.
  - reflexivity.
  - vm_compute. discriminate.
  - vm_compute. reflexivity.
  - apply ex_oinv.
  - by vm_compute.
Defined.
