(* ===== verification/TcpOutputProps.v ===== *)
(** * Further properties of [tcp_output]

    The advertised window, the length of a burst, the options of a segment, and
    the places where the code does not do what it means to. *)

From S2P Require Import Prelude Pool TcpSeq Callout Tcpcb TcpSack TcpSackFacts TcpCongctl TcpTimer Mbuf Sockbuf.
From S2P Require Import SockState TcpOptions TcpReass TcpInput TcpInputFacts TcpOutput TcpOutputFacts TcpOutputStream TcpOutputRun.

(** ** The advertised window *)

(** What the peer may send: the distance from [rcv_nxt] to [rcv_adv]. *)
Definition promised (tp : tcpcb) : Z := off (rcv_nxt tp) (rcv_adv tp).

Definition max_rcv_window (tp : tcpcb) : Z := TCP_MAXWIN * 2 ^ rcv_scale tp.

Definition window_ok (tp : tcpcb) : Prop := 0 <= rcv_scale tp <= TCP_MAX_WINSHIFT /\ promised tp <= max_rcv_window tp.

(** A packet offers what was promised, up to the unit of the window scale, and
    no more than that and the space of the receive buffer. *)
Definition offers (lo hi scale : Z) (pkt : opkt) : Prop :=
  lo - 2 ^ scale < p_win pkt * 2 ^ scale <= hi.

Lemma max_rcv_window_bound tp : 0 <= rcv_scale tp <= TCP_MAX_WINSHIFT -> 0 < 2 ^ rcv_scale tp /\ max_rcv_window tp < 2 ^ 31.
Proof.
  unfold max_rcv_window, TCP_MAX_WINSHIFT, TCP_MAXWIN. intros H. split; [apply Z.pow_pos_nonneg; lia|].
  pose proof (Z.pow_le_mono_r 2 (rcv_scale tp) 14 ltac:(lia) ltac:(lia)). lia.
Qed.

Lemma out_window_spec e rx tp win :
  window_ok tp ->
  promised tp <= out_window e rx tp win <= Z.max (promised tp) win /\ out_window e rx tp win <= max_rcv_window tp.
Proof.
  intros [S P]. destruct (max_rcv_window_bound tp S) as [S2 M]. pose proof (off_range (rcv_nxt tp) (rcv_adv tp)) as R.
  unfold out_window. assert (s32 (rcv_adv tp - rcv_nxt tp) = promised tp) as ->.
  { rewrite <- s32_u32. fold (off (rcv_nxt tp) (rcv_adv tp)). apply s32_small. unfold promised in *. lia. }
  rewrite Z.shiftl_mul_pow2 by lia. fold (max_rcv_window tp). fold (promised tp) in R.
  repeat case_match; lia.
Qed.

Lemma out_sent_promised win n tp :
  window_ok tp -> promised tp <= win <= max_rcv_window tp ->
  promised (out_sent win n tp) = win /\ rcv_scale (out_sent win n tp) = rcv_scale tp.
Proof.
  intros [S P] [W1 W2]. destruct (max_rcv_window_bound tp S) as [_ M].
  pose proof (oframe_sent win n tp) as F. unfold oframe in F. split; [|congruence].
  assert (rcv_nxt (out_sent win n tp) = rcv_nxt tp) as N by congruence. clear F.
  unfold promised in *. rewrite N. pose proof (off_range (rcv_nxt tp) (rcv_adv tp)).
  assert (off (rcv_nxt tp) (rcv_nxt tp + win) = win) as O.
  { unfold off. replace (rcv_nxt tp + win - rcv_nxt tp) with win by lia. apply u32_small. lia. }
  assert (rcv_adv (out_sent win n tp) =
    if (0 <? win) && SEQ_GT (rcv_nxt tp + win) (rcv_adv tp) then u32 (rcv_nxt tp + win) else rcv_adv tp) as ->.
  { unfold out_sent, TCP_CLEAR_DELACK. set (t1 := if t_pmtud_mtu_sent tp <? n then _ else tp).
    assert (rcv_nxt t1 = rcv_nxt tp /\ rcv_adv t1 = rcv_adv tp) as [N1 A1] by (subst t1; by case_match). clearbody t1.
    rewrite N1, A1.
    destruct (_ && _); match goal with |- context [flag_set ?a ?b] => destruct (flag_set a b) end; upd_simpl; by rewrite ?A1. }
  rewrite (SEQ_GT_off (rcv_nxt tp)) by lia. rewrite O.
  destruct (Z.ltb_spec 0 win), (Z.ltb_spec (off (rcv_nxt tp) (rcv_adv tp)) win); simpl; try lia.
  unfold off. rewrite u32_sub_u32. exact O.
Qed.

Section window.
Variable e : oenv.

Lemma out_data_win cc tries hdrlen tp l error data tp' l' :
  out_data e cc tries hdrlen tp l = Some (error, data, tp', l') -> l_win l' = l_win l.
Proof.
  unfold out_data. case_match; [case_match; by intros [= _ _ _ <-]|].
  destruct (tcp_build_datapkt _ _ _ _ _ _) as [[[? ?] ?]|]; [|done]. cbn [mbind option_bind].
  intros [= _ _ _ <-]. by case_match.
Qed.

(** The window after a pass, and in the packet that it sent. *)
Definition window_step (space : Z) (tp tp' : tcpcb) (sent sent' : list opkt) : Prop :=
  rcv_scale tp' = rcv_scale tp /\ promised tp <= promised tp' <= Z.max (promised tp) space /\
  promised tp' <= max_rcv_window tp /\
  exists pkts, sent' = sent ++ pkts /\
    Forall (offers (promised tp) (Z.max (promised tp) space) (rcv_scale tp)) pkts.

Lemma window_step_frame space tp tp' sent : window_ok tp -> aframe tp' = aframe tp -> window_step space tp tp' sent sent.
Proof.
  unfold aframe, oframe, window_step, promised. intros [S P] F.
  assert (rcv_scale tp' = rcv_scale tp) as -> by congruence. assert (rcv_nxt tp' = rcv_nxt tp) as -> by congruence.
  assert (rcv_adv tp' = rcv_adv tp) as -> by congruence. unfold promised in P. split; [done|]. split; [lia|]. split; [done|].
  exists []. by rewrite app_nil_r.
Qed.

Lemma out_transmit_window rx st l r :
  out_transmit e rx st l = Some r -> window_ok (o_tp st) ->
  window_step (l_win l) (o_tp st) (o_tp (pass_state r)) (o_sent st) (o_sent (pass_state r)).
Proof.
  intros H W. revert H. unfold out_transmit. destruct (build_options _ _ _ _) as [[opt tp]|] eqn:E; [|done].
  apply aframe_options in E as F1. cbn [mbind option_bind]. clear E.
  destruct (out_data _ _ _ _ _ _) as [[[[err data] tp1] l1]|] eqn:E; [|done]. apply out_data_win in E as L1.
  apply aframe_data in E as F2. cbn [mbind option_bind]. clear E. destruct (negb (err =? 0)).
  { destruct (out_error _ _ _ _) as [err' tp6] eqn:E. apply aframe_error_eq in E. intros [= <-].
    apply window_step_frame; [done|]. cbn [pass_state]. upd_simpl. congruence. }
  destruct (t_template e) as [[? ?]|]; [|done]. cbn [mbind option_bind]. case_match; [done|].
  pose proof (aframe_ecn e tp1 l1) as F3. destruct (out_ecn e tp1 l1) as [[tp2 l2] ect] eqn:E. cbn [fst] in F3.
  apply out_ecn_spec in E as [_ (f & L2 & _)].
  destruct (out_seq _ _) as [[s tp3]|] eqn:E; [|done]. apply aframe_seq in E as F4. cbn [mbind option_bind]. clear E.
  pose proof (aframe_urgent tp3 (l_flags l2)) as F5. destruct (out_urgent _ _) as [[urp fl] tp4]. cbn [snd] in F5.
  pose proof (aframe_advance e tp4 l2) as F6. generalize dependent (out_advance e tp4 l2). intros tp5 F6.
  assert (l_win l2 = l_win l) as Lw by (rewrite L2, <- L1; by upd_simpl). rewrite Lw. clear L2 Lw.
  set (w := out_window e rx tp3 (l_win l)). match goal with |- context [ip_output e _ ?p] => set (pkt := p) end.
  assert (aframe tp3 = aframe (o_tp st)) as F by congruence. assert (aframe tp4 = aframe (o_tp st)) as F' by congruence.
  assert (aframe tp5 = aframe (o_tp st)) as F'' by congruence. clear F1 F2 F3 F4 F5 F6.
  assert (forall tp, aframe tp = aframe (o_tp st) -> window_ok tp /\ promised tp = promised (o_tp st) /\
    rcv_scale tp = rcv_scale (o_tp st) /\ max_rcv_window tp = max_rcv_window (o_tp st)) as Ext.
  { unfold aframe, oframe, window_ok, promised, max_rcv_window. intros t G. unfold window_ok, promised, max_rcv_window in W.
    assert (rcv_scale t = rcv_scale (o_tp st)) as -> by congruence. assert (rcv_nxt t = rcv_nxt (o_tp st)) as -> by congruence.
    assert (rcv_adv t = rcv_adv (o_tp st)) as -> by congruence. done. }
  destruct (Ext tp3 F) as (W3 & P3 & S3 & M3). destruct (Ext tp5 F'') as (W5 & P5 & S5 & M5). destruct (Ext tp4 F') as (_ & _ & S4 & _).
  pose proof (out_window_spec e rx tp3 (l_win l) W3) as Ow. fold w in Ow. rewrite P3, M3 in Ow. clear Ext.
  assert (offers (promised (o_tp st)) (Z.max (promised (o_tp st)) (l_win l)) (rcv_scale (o_tp st)) pkt) as Of.
  { destruct W as [Sc _]. destruct (max_rcv_window_bound _ Sc) as [S2 _]. unfold max_rcv_window in Ow.
    pose proof (off_range (rcv_nxt (o_tp st)) (rcv_adv (o_tp st))). unfold promised in *.
    unfold offers. subst pkt. cbn [p_win]. rewrite S4, Z.shiftr_div_pow2 by lia.
    pose proof (Z.div_mod w (2 ^ rcv_scale (o_tp st)) ltac:(lia)). pose proof (Z.mod_pos_bound w (2 ^ rcv_scale (o_tp st)) S2).
    assert (0 <= w / 2 ^ rcv_scale (o_tp st) <= TCP_MAXWIN) as B.
    { split; [apply Z.div_pos; lia|]. apply Z.div_le_upper_bound; lia. }
    unfold u16. rewrite Z.mod_small by (unfold TCP_MAXWIN in B; lia). lia. }
  clearbody pkt w. destruct (negb (ip_output e (o_tries st) pkt =? 0)).
  { destruct (out_error _ _ _ _) as [err' tp6] eqn:E. apply aframe_error_eq in E. intros [= <-].
    apply window_step_frame; [done|]. cbn [pass_state]. upd_simpl. congruence. }
  intros [= <-]. match goal with |- context [out_sent w ?n tp5] =>
    destruct (out_sent_promised w n tp5 W5) as [P6 S6]; [lia|]; set (tp6 := out_sent w n tp5) in * end. clearbody tp6.
  destruct (l_sendalot l2); cbn [pass_state]; upd_simpl; (split; [congruence|]); (split; [lia|]); (split; [lia|]);
    exists [pkt]; (split; [done|by constructor]).
Qed.

Lemma window_step_ok space tp tp' sent sent' : window_ok tp -> window_step space tp tp' sent sent' -> window_ok tp'.
Proof. intros [S P] (Sc & _ & M & _). unfold window_ok, max_rcv_window in *. rewrite Sc. done. Qed.

Lemma window_step_trans space tp1 tp2 tp3 s1 s2 s3 :
  window_step space tp1 tp2 s1 s2 -> window_step space tp2 tp3 s2 s3 -> window_step space tp1 tp3 s1 s3.
Proof.
  intros (S1 & P1 & M1 & k1 & -> & F1) (S2 & P2 & M2 & k2 & -> & F2).
  split; [congruence|]. split; [lia|]. split; [unfold max_rcv_window in *; by rewrite S1 in M2|].
  exists (k1 ++ k2). rewrite app_assoc. split; [done|]. apply Forall_app; split; [done|].
  eapply Forall_impl; [exact F2|]. intros pkt. unfold offers. rewrite S1. lia.
Qed.

Lemma out_prepare_win nosack tso st st' l :
  out_prepare e nosack tso st = Some (st', l) -> l_win l = e_rcv_space (oe_env e) /\ o_sent st' = o_sent st.
Proof.
  unfold out_prepare. generalize (out_sack_room nosack tso (o_tp st)) as room. generalize (out_adjust (o_tp st)) as tp.
  intros tp room. destruct (out_sack_rexmit _ _ _) as [l0|]; [|done]. cbn [mbind option_bind].
  destruct (out_force _ _ _) as [tp1 l1]. destruct (out_shrunk _ _ _) as [[tp2 l2]|]; [|done]. cbn [mbind option_bind].
  destruct (out_segment _ _ _) as [l3|]; [|done]. cbn [mbind option_bind]. intros [= <- <-].
  by rewrite out_autosize_sent.
Qed.

Lemma out_pass_window nosack rx tso idle st r :
  out_pass e nosack rx tso idle st = Some r -> window_ok (o_tp st) ->
  window_step (e_rcv_space (oe_env e)) (o_tp st) (o_tp (pass_state r)) (o_sent st) (o_sent (pass_state r)).
Proof.
  unfold out_pass. destruct (out_prepare _ _ _ _) as [[st1 l]|] eqn:E; [|done].
  apply out_prepare_win in E as Ew. destruct Ew as [Lw Sw]. apply aframe_prepare in E as F. cbn [mbind option_bind]. clear E.
  intros H W. pose proof (window_step_frame (e_rcv_space (oe_env e)) _ _ (o_sent st) W F) as St.
  rewrite <- Sw in St at 2. eapply window_step_trans; [exact St|]. pose proof (window_step_ok _ _ _ _ _ W St) as W1.
  revert H. case_match.
  - intros Tr. rewrite <- Lw. by eapply out_transmit_window.
  - destruct (out_return _ _ _) as [tp|] eqn:E; [|done]. apply aframe_return in E. intros [= <-]. by apply window_step_frame.
Qed.

Lemma out_loop_window fuel nosack rx tso idle : forall maxburst st error st',
  out_loop e fuel maxburst nosack rx tso idle st = OReturn error st' -> window_ok (o_tp st) ->
  window_step (e_rcv_space (oe_env e)) (o_tp st) (o_tp st') (o_sent st) (o_sent st').
Proof.
  induction fuel as [|fuel IH]; intros maxburst st error st'; [done|]. cbn [out_loop].
  destruct (out_pass _ _ _ _ _ _) as [r|] eqn:E; [|done]. intros H W. pose proof (out_pass_window _ _ _ _ _ _ E W) as St.
  pose proof (window_step_ok _ _ _ _ _ W St) as W1. revert H.
  destruct r as [st1|error1 st1]; cbn [pass_state] in *; [|by intros [= _ <-]].
  repeat case_match; intros H'; simplify_eq; try done; (eapply window_step_trans; [exact St|by eapply IH]).
Qed.
End window.

(** C26. A call of [tcp_output] never takes back window that was promised to the
    peer: [rcv_adv] does not move back, every packet offers what was promised
    before the call, up to the unit of the window scale, and neither offers nor
    promises more than that and the space of the receive buffer. *)
Theorem tcp_output_window e fuel st error st' :
  tcp_output_run e fuel st = OReturn error st' -> window_ok (o_tp st) ->
  let space := e_rcv_space (oe_env e) in
  promised (o_tp st) <= promised (o_tp st') <= Z.max (promised (o_tp st)) space /\ window_ok (o_tp st') /\
  exists pkts, o_sent st' = o_sent st ++ pkts /\
    Forall (offers (promised (o_tp st)) (Z.max (promised (o_tp st)) space) (rcv_scale (o_tp st))) pkts.
Proof.
  intros H W space. assert (window_step space (o_tp st) (o_tp st') (o_sent st) (o_sent st')) as St.
  { revert H. unfold tcp_output_run. case_match; [intros [= _ <-]; by apply window_step_frame|].
    case_match; [intros [= _ <-]; by apply window_step_frame|].
    destruct (tcp_segsize _ _ _) as [[[tx rx] tp]|] eqn:E; [|intros [= _ <-]; by apply window_step_frame].
    apply aframe_segsize in E. intros Hl. pose proof (aframe_restart e (snd_max tp =? snd_una tp) tx tp) as F.
    rewrite E in F. pose proof (window_step_frame space _ _ (o_sent st) W F) as S1.
    eapply window_step_trans; [exact S1|]. apply out_loop_window in Hl; [exact Hl|]. by eapply window_step_ok. }
  split; [apply St|]. split; [by eapply window_step_ok|]. apply St.
Qed.

Lemma tcp_output_window_witness :
  match tcp_output_run ex_oenv 451 ex_ost with
  | OReturn _ st' => 0 <= promised (o_tp st') <= 65536
  | _ => False
  end.
Proof.
  destruct (tcp_output_run ex_oenv 451 ex_ost) as [| |error st'] eqn:E; [vm_compute in E; discriminate..|].
  apply (tcp_output_window ex_oenv 451 ex_ost error st' E). split; [split|]; vm_compute; discriminate.
Defined.

(** ** Bursts *)

Lemma out_transmit_one e rx st l r :
  out_transmit e rx st l = Some r -> (length (o_sent (pass_state r)) <= S (length (o_sent st)))%nat.
Proof.
  unfold out_transmit. destruct (build_options _ _ _ _) as [[opt tp]|]; [|done]. cbn [mbind option_bind].
  destruct (out_data _ _ _ _ _ _) as [[[[err data] tp1] l1]|]; [|done]. cbn [mbind option_bind].
  destruct (negb (err =? 0)); [destruct (out_error _ _ _ _); intros [= <-]; cbn [pass_state]; upd_simpl; lia|].
  destruct (t_template e) as [[? ?]|]; [|done]. cbn [mbind option_bind]. case_match; [done|].
  destruct (out_ecn _ _ _) as [[tp2 l2] ect]. destruct (out_seq _ _) as [[s tp3]|]; [|done]. cbn [mbind option_bind].
  destruct (out_urgent _ _) as [[urp fl] tp4]. match goal with |- context [ip_output e _ ?p] => generalize p as pkt end. intros pkt.
  destruct (negb (ip_output e _ pkt =? 0)); [destruct (out_error _ _ _ _); intros [= <-]; cbn [pass_state]; upd_simpl; lia|].
  intros [= <-]. destruct (l_sendalot l2); cbn [pass_state]; upd_simpl; rewrite length_app; simpl; lia.
Qed.

Lemma out_pass_one e nosack rx tso idle st r :
  out_pass e nosack rx tso idle st = Some r -> (length (o_sent (pass_state r)) <= S (length (o_sent st)))%nat.
Proof.
  unfold out_pass. destruct (out_prepare _ _ _ _) as [[st1 l]|] eqn:E; [|done]. apply out_prepare_win in E as [_ <-].
  cbn [mbind option_bind]. case_match; [apply out_transmit_one|].
  destruct (out_return _ _ _) as [tp|]; [|done]. intros [= <-]. cbn [pass_state]. upd_simpl. lia.
Qed.

Lemma out_loop_burst e nosack rx tso idle fuel : forall maxburst st,
  t_congctl (o_tp st) <> Some tcp_reno_ctl -> (1 <= maxburst <= Z.of_nat fuel) ->
  match out_loop e fuel maxburst nosack rx tso idle st with
  | OFuel => False
  | OExit => True
  | OReturn _ st' => (length (o_sent st') <= length (o_sent st) + Z.to_nat maxburst)%nat
  end.
Proof.
  induction fuel as [|fuel IH]; intros maxburst st C B; [lia|]. cbn [out_loop].
  destruct (out_pass _ _ _ _ _ _) as [r|] eqn:E; [|done]. apply out_pass_one in E as One. apply oframe_pass in E.
  destruct r as [st1|error st1]; cbn [pass_state] in *; [|lia].
  assert (t_congctl (o_tp st1) = t_congctl (o_tp st)) as Ec by (unfold oframe in E; congruence).
  rewrite Ec, bool_decide_eq_false_2 by done. destruct (Z.eqb_spec (maxburst - 1) 0); [lia|].
  specialize (IH (maxburst - 1) st1). rewrite Ec in IH. specialize (IH C ltac:(lia)). case_match; [done..|]. lia.
Qed.

(** With any algorithm but Reno a call of [tcp_output] makes at most four
    passes and sends at most four packets, whatever the state. *)
Theorem tcp_output_burst e fuel st :
  t_congctl (o_tp st) <> Some tcp_reno_ctl -> (4 <= fuel)%nat ->
  match tcp_output_run e fuel st with
  | OFuel => False
  | OExit => True
  | OReturn _ st' => (length (o_sent st') <= length (o_sent st) + 4)%nat
  end.
Proof.
  intros C F. unfold tcp_output_run. destruct (negb (oe_inet e)); [lia|]. destruct (negb (t_inpcb (o_tp st))); [lia|].
  destruct (tcp_segsize _ _ _) as [[[tx rx] tp]|] eqn:E; [|lia]. apply aframe_segsize in E.
  set (st1 := st <| o_tp := _ |>). assert (o_sent st1 = o_sent st) as Es by done. rewrite <- Es.
  apply (out_loop_burst e tx rx (out_has_tso e tp) (snd_max tp =? snd_una tp) fuel TCP_MAXBURST st1); [|unfold TCP_MAXBURST; lia].
  subst st1. upd_simpl. pose proof (aframe_restart e (snd_max tp =? snd_una tp) tx tp) as G. rewrite E in G.
  unfold aframe, oframe in G. congruence.
Qed.

Lemma tcp_output_burst_witness :
  let st := ex_ost <| o_tp := ex_out_tp <| t_congctl := Some tcp_newreno_ctl |> |> in
  match tcp_output_run ex_oenv 4 st with
  | OFuel => False
  | OExit => True
  | OReturn _ st' => (length (o_sent st') <= length (o_sent st) + 4)%nat
  end.
Proof.
  apply (tcp_output_burst ex_oenv 4 (ex_ost <| o_tp := ex_out_tp <| t_congctl := Some tcp_newreno_ctl |> |>)); [discriminate|lia].
Defined.

(** ** Options *)

(** What is written byte by byte is read back. *)
Lemma land_255 x : Z.land x 255 = x mod 256.
Proof. by apply (Z.land_ones x 8). Qed.

Lemma be16_read x : 0 <= x < 65536 -> Z.land (Z.shiftr x 8) 255 * 256 + Z.land x 255 = x.
Proof.
  intros H. rewrite !land_255, Z.shiftr_div_pow2 by lia. change (2 ^ 8) with 256.
  rewrite (Z.mod_small (x / 256)) by (split; [apply Z.div_pos|apply Z.div_lt_upper_bound]; lia).
  pose proof (Z.div_mod x 256). lia.
Qed.

Lemma be32_read x : 0 <= x < 2 ^ 32 ->
  (Z.land (Z.shiftr x 24) 255 * 256 + Z.land (Z.shiftr x 16) 255) * 65536
  + (Z.land (Z.shiftr x 8) 255 * 256 + Z.land x 255) = x.
Proof.
  intros H.
  assert (Z.land (Z.shiftr x 24) 255 * 256 + Z.land (Z.shiftr x 16) 255 = x / 65536) as ->.
  { rewrite <- (be16_read (x / 65536)) at 1 by (split; [apply Z.div_pos|apply Z.div_lt_upper_bound]; lia).
    change 65536 with (2 ^ 16). by rewrite <- Z.shiftr_div_pow2, Z.shiftr_shiftr by lia. }
  assert (Z.land (Z.shiftr x 8) 255 * 256 + Z.land x 255 = x mod 65536) as ->.
  { rewrite <- (be16_read (x mod 65536)) at 1 by (apply Z.mod_pos_bound; lia). change 65536 with (2 ^ 16).
    rewrite <- (Z.land_ones x 16) by lia. rewrite Z.shiftr_land, <- !Z.land_assoc. done. }
  pose proof (Z.div_mod x 65536). lia.
Qed.

Section parse.
Variables (now : Z) (do_sack : bool) (th : tcphdr).

Lemma parse_end fuel s : dooptions_loop now do_sack th fuel s [] 0 = Some s.
Proof. by destruct fuel. Qed.

Lemma parse_nop fuel s r cnt :
  0 < cnt -> dooptions_loop now do_sack th (S fuel) s (TCPOPT_NOP :: r) cnt = dooptions_loop now do_sack th fuel s r (cnt - 1).
Proof. intros. cbn [dooptions_loop]. destruct (Z.leb_spec cnt 0); [lia|]. done. Qed.

Lemma parse_opt fuel s s' k body r cnt :
  2 <= k -> let n := Z.of_nat (length body) + 2 in n <= cnt ->
  do_option now do_sack th s k n (k :: n :: body ++ r) = Some s' ->
  dooptions_loop now do_sack th (S fuel) s (k :: n :: body ++ r) cnt = dooptions_loop now do_sack th fuel s' r (cnt - n).
Proof.
  intros Hk n Hn E. cbn [dooptions_loop]. destruct (Z.leb_spec cnt 0); [lia|].
  change ((k :: n :: body ++ r) !! 0%nat) with (Some k). change ((k :: n :: body ++ r) !! 1%nat) with (Some n).
  cbn [mbind option_bind]. destruct (Z.eqb_spec k TCPOPT_EOL); [unfold TCPOPT_EOL in *; lia|].
  destruct (Z.eqb_spec k TCPOPT_NOP); [unfold TCPOPT_NOP in *; lia|]. destruct (Z.ltb_spec cnt 2); [lia|].
  destruct (Z.ltb_spec n 2); [lia|]. destruct (Z.ltb_spec cnt n); [lia|]. cbn [orb]. rewrite E. cbn [mbind option_bind].
  f_equal. replace (Z.to_nat n) with (S (S (length body))) by lia. simpl. apply drop_app_length.
Qed.

Lemma parse_maxseg fuel g tp oi mss r cnt :
  syn_option th tp = true -> 0 <= mss < 65536 -> 4 <= cnt ->
  dooptions_loop now do_sack th (S fuel) (g, tp, oi)
    (TCPOPT_MAXSEG :: 4 :: Z.land (Z.shiftr mss 8) 255 :: Z.land mss 255 :: r) cnt =
  dooptions_loop now do_sack th fuel (g, tp, oi <| maxseg := mss |>) r (cnt - 4).
Proof.
  intros S M C. apply (parse_opt fuel _ _ TCPOPT_MAXSEG [_; _] r cnt); [done|done|].
  unfold do_option, option_maxseg. simpl. rewrite S. unfold rd16. simpl. by rewrite be16_read.
Qed.

Lemma parse_scale fuel g tp oi w r cnt :
  syn_option th tp = true -> 4 <= cnt ->
  dooptions_loop now do_sack th (S (S fuel)) (g, tp, oi) (TCPOPT_NOP :: TCPOPT_WINDOW :: TCPOLEN_WINDOW :: w :: r) cnt =
  dooptions_loop now do_sack th fuel
    (g, tp <| t_flags := Z.lor (t_flags tp) TF_RCVD_SCALE |>
           <| requested_s_scale := if TCP_MAX_WINSHIFT <? w then TCP_MAX_WINSHIFT else w |>, oi) r (cnt - 4).
Proof.
  intros S C. rewrite parse_nop by lia. replace (cnt - 4) with (cnt - 1 - 3) by lia.
  apply (parse_opt fuel _ _ TCPOPT_WINDOW [w] r (cnt - 1)); [done|simpl; lia|].
  unfold do_option, option_window. simpl. by rewrite S.
Qed.

Lemma parse_sack_permitted fuel g tp oi r cnt :
  syn_option th tp = true -> 4 <= cnt -> do_sack = true ->
  dooptions_loop now do_sack th (S (S (S fuel))) (g, tp, oi) (TCPOPT_SACK_PERMITTED :: 2 :: TCPOPT_NOP :: TCPOPT_NOP :: r) cnt =
  dooptions_loop now do_sack th fuel
    (g, tp <| t_flags := Z.lor (t_flags tp) TF_SACK_PERMIT |>
           <| t_flags := Z.lor (Z.lor (t_flags tp) TF_SACK_PERMIT) TF_WILL_SACK |>, oi) r (cnt - 4).
Proof.
  intros Hs C D. match goal with |- _ = dooptions_loop _ _ _ _ ?x _ _ => set (s' := x) end.
  assert (do_option now do_sack th (g, tp, oi) TCPOPT_SACK_PERMITTED 2
    (TCPOPT_SACK_PERMITTED :: 2 :: [] ++ TCPOPT_NOP :: TCPOPT_NOP :: r) = Some s') as O.
  { unfold do_option, option_sack_permitted. simpl. rewrite Hs, D. subst s'. reflexivity. }
  pose proof (parse_opt (S (S fuel)) (g, tp, oi) s' TCPOPT_SACK_PERMITTED [] (TCPOPT_NOP :: TCPOPT_NOP :: r) cnt ltac:(done)
    ltac:(simpl; lia) O) as P.
  change (Z.of_nat (length []) + 2) with 2 in P. cbn [app] in P. rewrite P, !parse_nop by lia. f_equal. lia.
Qed.

Lemma parse_timestamp fuel g tp oi v ecr r cnt :
  12 <= cnt -> 0 <= v < 2 ^ 32 -> 0 <= ecr < 2 ^ 32 ->
  dooptions_loop now do_sack th (S (S (S fuel))) (g, tp, oi) (be32 TCPOPT_TSTAMP_HDR ++ be32 v ++ be32 ecr ++ r) cnt =
  dooptions_loop now do_sack th fuel
    (g, if syn_option th tp then tp <| t_flags := Z.lor (t_flags tp) TF_RCVD_TSTMP |> <| ts_recent := v |> <| ts_recent_age := now |> else tp,
     oi <| ts_present := true |> <| ts_val := v |> <| ts_ecr := ecr |>) r (cnt - 12).
Proof.
  intros C V E. change (be32 TCPOPT_TSTAMP_HDR) with [TCPOPT_NOP; TCPOPT_NOP; TCPOPT_TIMESTAMP; 10]. cbn [app].
  rewrite !parse_nop by lia. replace (cnt - 12) with (cnt - 1 - 1 - 10) by lia. rewrite app_assoc.
  apply (parse_opt fuel _ _ TCPOPT_TIMESTAMP (be32 v ++ be32 ecr) r (cnt - 1 - 1)); [done|simpl; lia|].
  unfold do_option, option_timestamp, rd32, rd16. simpl. rewrite !be32_read by done. by destruct (syn_option th tp).
Qed.
End parse.

(** Whether a SYN carries a window scale. *)
Definition sends_scale (flags : Z) (tp : tcpcb) : bool :=
  flag_set (t_flags tp) TF_REQ_SCALE && (negb (flag_set flags TH_ACK) || flag_set (t_flags tp) TF_RCVD_SCALE).

(** The options of a SYN, in the order in which they are written. *)
Definition syn_layout (mss : Z) (scale : option Z) (sack : bool) (ts : option (Z * Z)) : list Z :=
  [TCPOPT_MAXSEG; 4; Z.land (Z.shiftr mss 8) 255; Z.land mss 255] ++
  match scale with Some w => [TCPOPT_NOP; TCPOPT_WINDOW; TCPOLEN_WINDOW; w] | None => [] end ++
  (if sack then [TCPOPT_SACK_PERMITTED; 2; TCPOPT_NOP; TCPOPT_NOP] else []) ++
  match ts with Some (v, ecr) => be32 TCPOPT_TSTAMP_HDR ++ be32 v ++ be32 ecr | None => [] end.

Lemma build_syn_options e tp flags :
  flag_set flags TH_SYN = true -> flag_set (t_flags tp) TF_NOOPT = false ->
  exists tp1, build_options e flags 0 tp =
    Some (syn_layout (u16 (tcp_mss_to_advertise e (oe_route e))) (if sends_scale flags tp then Some (request_r_scale tp) else None)
            (tcp_do_sack (oe_env e)) (if sends_timestamp flags [] tp then Some (TCP_TIMESTAMP e tp, ts_recent tp) else None), tp1) /\
    t_ourmss tp1 = u16 (tcp_mss_to_advertise e (oe_route e)).
Proof.
  intros S N. unfold build_options, syn_options, sack_option. rewrite S. upd_simpl. rewrite N.
  assert (forall o, (length o <= 12)%nat -> OPT_FITS o 4 = true) as F.
  { intros o Ho. unfold OPT_FITS, MAX_TCPOPTLEN. lia. }
  rewrite (F []) by (simpl; lia). cbn [negb andb]. set (mss := u16 _). fold (sends_scale flags tp). unfold timestamp_option.
  set (tp1 := tp <| snd_nxt := _ |> <| t_ourmss := _ |>).
  assert (forall o, (length o <= 12)%nat -> sends_timestamp flags o tp1 = sends_timestamp flags [] tp) as T.
  { intros o Ho. unfold sends_timestamp, OPT_FITS, tp1. upd_simpl. f_equal. simpl. unfold TCPOLEN_TSTAMP_APPA, MAX_TCPOPTLEN.
    destruct (Z.ltb_spec (Z.of_nat (length o) + 12) 40); [done|lia]. }
  assert (TCP_TIMESTAMP e tp1 = TCP_TIMESTAMP e tp /\ ts_recent tp1 = ts_recent tp /\ t_ourmss tp1 = mss) as (Ts & Tr & To) by done.
  clearbody tp1. unfold syn_layout.
  destruct (sends_scale flags tp), (tcp_do_sack (oe_env e)); rewrite !F by (simpl; lia); cbn [andb app];
    rewrite T by (simpl; lia); destruct (sends_timestamp flags [] tp); cbn [Z.eqb]; rewrite ?Ts, ?Tr;
    (eexists; split; [done|]); by repeat case_match.
Qed.

(** The parts of the layout, each parsed in front of the rest. *)
Section layout.
Variables (now : Z) (th : tcphdr) (g : sack_globals).

(** [parses s part s']: the bytes [part] take the parser from [s] to [s'], given
    as much fuel as there are bytes. *)
Definition parses (s : opts) (part : list Z) (s' : opts) : Prop :=
  forall fuel r, (length (part ++ r) <= fuel)%nat -> exists fuel', (length r <= fuel')%nat /\
    dooptions_loop now true th fuel s (part ++ r) (Z.of_nat (length (part ++ r))) =
    dooptions_loop now true th fuel' s' r (Z.of_nat (length r)).

Lemma parses_nil s : parses s [] s.
Proof. intros fuel r L. by exists fuel. Qed.

Lemma parses_app s1 s2 s3 p1 p2 : parses s1 p1 s2 -> parses s2 p2 s3 -> parses s1 (p1 ++ p2) s3.
Proof.
  intros P1 P2 fuel r L. rewrite <- app_assoc in *. destruct (P1 fuel (p2 ++ r) L) as (f1 & L1 & ->).
  exact (P2 f1 r L1).
Qed.

(** A part of known length: enough fuel is a fuel of that length and more. *)
Lemma parses_intro k s part s' :
  (k <= length part)%nat ->
  (forall fuel r cnt, Z.of_nat (length part) <= cnt ->
     dooptions_loop now true th (k + fuel) s (part ++ r) cnt =
     dooptions_loop now true th fuel s' r (cnt - Z.of_nat (length part))) ->
  parses s part s'.
Proof.
  intros K H fuel r L. rewrite length_app in *. exists (fuel - k)%nat. split; [lia|].
  replace fuel with (k + (fuel - k))%nat at 1 by lia. rewrite H by lia. f_equal. lia.
Qed.

Lemma parses_maxseg tp oi mss :
  syn_option th tp = true -> 0 <= mss < 65536 ->
  parses (g, tp, oi) [TCPOPT_MAXSEG; 4; Z.land (Z.shiftr mss 8) 255; Z.land mss 255] (g, tp, oi <| maxseg := mss |>).
Proof. intros. apply (parses_intro 1); [simpl; lia|]. intros. by apply parse_maxseg. Qed.

Definition scaled (scale : option Z) (tp : tcpcb) : tcpcb :=
  match scale with
  | Some w => tp <| t_flags := Z.lor (t_flags tp) TF_RCVD_SCALE |> <| requested_s_scale := w |>
  | None => tp
  end.

Lemma parses_scale tp oi scale :
  syn_option th tp = true -> (forall w, scale = Some w -> 0 <= w <= TCP_MAX_WINSHIFT) ->
  parses (g, tp, oi) (match scale with Some w => [TCPOPT_NOP; TCPOPT_WINDOW; TCPOLEN_WINDOW; w] | None => [] end)
    (g, scaled scale tp, oi).
Proof.
  intros S W. destruct scale as [w|]; [|apply parses_nil]. specialize (W w eq_refl).
  apply (parses_intro 2); [simpl; lia|]. intros fuel r cnt C. cbn [Nat.add app]. simpl in C.
  rewrite parse_scale by (done || lia). destruct (Z.ltb_spec TCP_MAX_WINSHIFT w); [lia|done].
Qed.

Definition sacked (sack : bool) (tp : tcpcb) : tcpcb :=
  if sack then tp <| t_flags := Z.lor (t_flags tp) TF_SACK_PERMIT |>
                  <| t_flags := Z.lor (Z.lor (t_flags tp) TF_SACK_PERMIT) TF_WILL_SACK |> else tp.

Lemma parses_sack tp oi (sack : bool) :
  syn_option th tp = true ->
  parses (g, tp, oi) (if sack then [TCPOPT_SACK_PERMITTED; 2; TCPOPT_NOP; TCPOPT_NOP] else []) (g, sacked sack tp, oi).
Proof.
  intros S. destruct sack; [|apply parses_nil]. apply (parses_intro 3); [simpl; lia|]. intros fuel r cnt C. cbn [Nat.add app]. simpl in C.
  by rewrite parse_sack_permitted by (done || lia).
Qed.

Definition stamped (ts : option (Z * Z)) (tp : tcpcb) : tcpcb :=
  match ts with
  | Some (v, _) => if syn_option th tp then tp <| t_flags := Z.lor (t_flags tp) TF_RCVD_TSTMP |> <| ts_recent := v |>
                     <| ts_recent_age := now |> else tp
  | None => tp
  end.

Definition stamp_info (ts : option (Z * Z)) (oi : tcp_opt_info) : tcp_opt_info :=
  match ts with Some (v, ecr) => oi <| ts_present := true |> <| ts_val := v |> <| ts_ecr := ecr |> | None => oi end.

Lemma parses_timestamp tp oi ts :
  (forall v ecr, ts = Some (v, ecr) -> is_u32 v /\ is_u32 ecr) ->
  parses (g, tp, oi) (match ts with Some (v, ecr) => be32 TCPOPT_TSTAMP_HDR ++ be32 v ++ be32 ecr | None => [] end)
    (g, stamped ts tp, stamp_info ts oi).
Proof.
  intros H. destruct ts as [[v ecr]|]; [|apply parses_nil]. destruct (H v ecr eq_refl) as [Hv He].
  apply (parses_intro 3); [simpl; lia|]. intros fuel r cnt C. rewrite <- !app_assoc. simpl in C.
  by apply parse_timestamp.
Qed.

Lemma parses_all s part s' : parses s part s' ->
  dooptions_loop now true th (length part) s part (Z.of_nat (length part)) = Some s'.
Proof.
  intros P. destruct (P (length part) []) as (f & _ & E); [by rewrite app_nil_r|]. rewrite app_nil_r in E. rewrite E. apply parse_end.
Qed.
End layout.

(** C27. The options of a SYN, whatever subset of them is sent, fit into the
    header and are read back by the option parser of the peer: the segment
    size, the window scale, the permission to use SACK and both timestamps. *)
Theorem syn_options_roundtrip e tp flags now th g rtp oi :
  flag_set flags TH_SYN = true -> flag_set (t_flags tp) TF_NOOPT = false ->
  0 <= request_r_scale tp <= TCP_MAX_WINSHIFT -> is_u32 (ts_recent tp) -> syn_option th rtp = true ->
  exists opt tp1 rtp' oi', build_options e flags 0 tp = Some (opt, tp1) /\ Z.of_nat (length opt) < MAX_TCPOPTLEN /\
    tcp_dooptions now true th g rtp opt (Z.of_nat (length opt)) oi = Some (g, rtp', oi') /\
    maxseg oi' = t_ourmss tp1 /\
    (if sends_scale flags tp
     then requested_s_scale rtp' = request_r_scale tp /\ flag_set (t_flags rtp') TF_RCVD_SCALE = true
     else requested_s_scale rtp' = requested_s_scale rtp) /\
    TCP_SACK_ENABLED rtp' = tcp_do_sack (oe_env e) || TCP_SACK_ENABLED rtp /\
    (if sends_timestamp flags [] tp
     then ts_present oi' = true /\ ts_val oi' = TCP_TIMESTAMP e tp /\ ts_ecr oi' = ts_recent tp /\
       ts_recent rtp' = TCP_TIMESTAMP e tp /\ flag_set (t_flags rtp') TF_RCVD_TSTMP = true
     else ts_present oi' = ts_present oi).
Proof.
  intros S N W R P. destruct (build_syn_options e tp flags S N) as (tp1 & -> & Mss).
  set (scale := if sends_scale flags tp then _ else None). set (ts := if sends_timestamp flags [] tp then _ else None).
  set (mss := u16 _) in *. assert (0 <= mss < 65536) as Mr by apply u16_range.
  assert (forall t, t_state t = t_state rtp -> syn_option th t = true) as Sx by (unfold syn_option in *; by intros t ->).
  eexists _, tp1, _, _. split; [done|]. split.
  { unfold syn_layout, scale, ts, MAX_TCPOPTLEN. repeat case_match; simpl; lia. }
  split.
  { unfold tcp_dooptions. rewrite Nat2Z.id. apply parses_all. unfold syn_layout.
    eapply parses_app; [by apply parses_maxseg|]. eapply parses_app; [apply parses_scale; [done|]|].
    { intros w. unfold scale. case_match; [by intros [= <-]|done]. }
    eapply parses_app; [apply parses_sack, Sx; unfold scaled; by repeat case_match|]. apply parses_timestamp.
    intros v ecr. unfold ts. case_match; [|done]. intros [= <- <-]. split; [apply u32_range|done]. }
  rewrite Mss. unfold stamp_info, stamped, sacked, scaled, TCP_SACK_ENABLED, scale, ts.
  rewrite Sx by (by repeat case_match).
  repeat split; repeat case_match; upd_simpl; repeat split; try done; flag_bits; done.
Qed.

Lemma syn_options_roundtrip_witness :
  let tp := tcpcb_zero <| t_flags := Z.lor TF_REQ_SCALE TF_REQ_TSTMP |> <| request_r_scale := 7 |> <| ts_recent := 77 |> in
  exists opt tp1 rtp' oi', build_options ex_oenv TH_SYN 0 tp = Some (opt, tp1) /\ Z.of_nat (length opt) < MAX_TCPOPTLEN /\
    tcp_dooptions 5 true (mkTcphdr 0 0 TH_SYN) ex_globals tcpcb_zero opt (Z.of_nat (length opt)) (mkOpt false 0 0 0) =
      Some (ex_globals, rtp', oi') /\ maxseg oi' = t_ourmss tp1.
Proof.
  edestruct (syn_options_roundtrip ex_oenv
    (tcpcb_zero <| t_flags := Z.lor TF_REQ_SCALE TF_REQ_TSTMP |> <| request_r_scale := 7 |> <| ts_recent := 77 |>) TH_SYN 5
    (mkTcphdr 0 0 TH_SYN) ex_globals tcpcb_zero (mkOpt false 0 0 0)) as (opt & tp1 & rtp' & oi' & H1 & H2 & H3 & H4 & _);
    [reflexivity|reflexivity|split; vm_compute; discriminate|split; vm_compute; done|reflexivity|].
  exists opt, tp1, rtp', oi'. done.
Defined.

(** ** Where the code does not do what it means to *)

(** The test whether an option fits is one byte too strict: with timestamps,
    the three SACK blocks that TCP_SACK_MAX allows fill the option space exactly
    and are not sent, nor is any of them; two blocks are.  A receiver with three
    or more gaps reports none of them, and the room for the blocks is taken from
    the segment for nothing. *)
Theorem three_sack_blocks_lost e flags tp :
  flag_set flags TH_SYN = false -> sends_timestamp flags [] tp = true ->
  (exists tp', build_options e flags 3 tp =
     Some (be32 TCPOPT_TSTAMP_HDR ++ be32 (TCP_TIMESTAMP e tp) ++ be32 (ts_recent tp), tp')) /\
  (forall q1 q2 q, oe_timeq e = q1 :: q2 :: q -> flag_set (rcv_sack_flags tp) TCPSACK_HAVED = false ->
     exists opt tp', build_options e flags 2 tp = Some (opt, tp') /\ length opt = 32%nat /\
       firstn 4 (skipn 16 opt) = be32 (ipqe_seq q1) /\ firstn 4 (skipn 24 opt) = be32 (ipqe_seq q2)).
Proof.
  intros S T. unfold build_options, syn_options, timestamp_option. rewrite S, T. split.
  - eexists. unfold sack_option. done.
  - intros q1 q2 q Eq Hd. unfold sack_option.
    match goal with |- context [if ?b then tp <| rfbuf_ts := ?v |> else tp] => set (tp' := if b then tp <| rfbuf_ts := v |> else tp) end.
    assert (rcv_sack_flags tp' = rcv_sack_flags tp) as -> by (subst tp'; by case_match). clearbody tp'. rewrite Hd, Eq.
    eexists _, _. done.
Qed.

Lemma three_sack_blocks_lost_witness :
  let tp := tcpcb_zero <| t_flags := Z.lor TF_REQ_TSTMP TF_RCVD_TSTMP |> in
  exists tp', build_options ex_oenv TH_ACK 3 tp =
     Some (be32 TCPOPT_TSTAMP_HDR ++ be32 (TCP_TIMESTAMP ex_oenv tp) ++ be32 (ts_recent tp), tp').
Proof.
  exact (proj1 (three_sack_blocks_lost ex_oenv TH_ACK (tcpcb_zero <| t_flags := Z.lor TF_REQ_TSTMP TF_RCVD_TSTMP |>) eq_refl eq_refl)).
Defined.

(** A retransmission from a hole that fails for want of an mbuf moves the
    hole's retransmission point back by the length of the segment, although
    it has not been moved forward yet; the error is reported as success. *)
Theorem enobufs_moves_hole_back e rx st l i p :
  l_sack_rxmit l = true -> l_hole l = Some i -> snd_holes (o_tp st) !! i = Some p -> l_len l <> 0 ->
  no_syn l -> l_numblks l = 0 -> oe_mget e (o_tries st) = false ->
  exists st', out_transmit e rx st l = Some (ODone 0 st') /\ o_sent st' = o_sent st /\
    snd_holes (o_tp st') !! i = Some (p <| rxmit := u32 (rxmit p - l_len l) |>).
Proof.
  intros S H P L N B M. unfold out_transmit.
  assert (exists opt tp, build_options e (l_flags l) (l_numblks l) (o_tp st) = Some (opt, tp) /\ snd_holes tp = snd_holes (o_tp st)) as (opt & tp & -> & Hh).
  { rewrite B. unfold build_options, syn_options, no_syn in *. rewrite N. unfold sack_option.
    pose proof (timestamp_option_view e (l_flags l) ([], o_tp st)) as [V _]. destruct (timestamp_option _ _ _) as [o t].
    exists o, t. split; [done|]. simpl in V. unfold sview in V. congruence. }
  cbn [mbind option_bind]. unfold out_data, tcp_build_datapkt, get_header. rewrite M. cbn [andb negb].
  destruct (Z.eqb_spec (l_len l) 0); [done|]. cbn [mbind option_bind].
  change (ENOBUFS =? 0) with false. cbn [negb andb]. unfold out_error, error_status. rewrite Z.eqb_refl, H, S.
  eexists. split; [done|]. split; [done|]. upd_simpl.
  set (tp1 := if t_inpcb tp then tcp_quench tp else tp). assert (snd_holes tp1 = snd_holes (o_tp st)) as Hh1.
  { subst tp1 . destruct (t_inpcb tp); [|done]. unfold tcp_quench. upd_simpl. done. }
  clearbody tp1. set (tp2 := set_rxmit i _ tp1).
  assert (snd_holes tp2 !! i = Some (p <| rxmit := u32 (rxmit p - l_len l) |>)) as E.
  { subst tp2. unfold set_rxmit. upd_simpl. rewrite Hh1. rewrite list_lookup_alter_eq. rewrite P. done. }
  clearbody tp2. destruct (flag_set (t_flags tp2) TF_DELACK); [unfold TCP_RESTART_DELACK; by upd_simpl|done].
Qed.

Lemma enobufs_moves_hole_back_witness :
  let e := mkOenv ex_out_tenv true (Some (mkRoute 1500 1500 false false)) (Some (40, 0)) ex_mb 0 [] 16 1500 false false 4 false
             8192 262144 131072 1 (fun _ => false) (fun _ => true) (fun _ _ => 0) in
  let l := mkLoc TH_ACK 100 0 5000 true false 100 0 true 0 (Some 0%nat) in
  exists st', out_transmit e 536 ex_ost l = Some (ODone 0 st') /\ o_sent st' = [] /\
    snd_holes (o_tp st') !! 0%nat = Some (mkHole 1 (2 ^ 32 - 100) 50 (2 ^ 32 - 200)).
Proof.
  exact (enobufs_moves_hole_back
    (mkOenv ex_out_tenv true (Some (mkRoute 1500 1500 false false)) (Some (40, 0)) ex_mb 0 [] 16 1500 false false 4 false
             8192 262144 131072 1 (fun _ => false) (fun _ => true) (fun _ _ => 0)) 536 ex_ost
    (mkLoc TH_ACK 100 0 5000 true false 100 0 true 0 (Some 0%nat)) 0%nat (mkHole 1 (2 ^ 32 - 100) 50 (2 ^ 32 - 100))
    eq_refl eq_refl eq_refl ltac:(discriminate) eq_refl eq_refl eq_refl).
Defined.

(** *** Timers *)

Definition timer_runs (tp : tcpcb) : bool := TCP_TIMER_ISARMED tp TCPT_REXMT || TCP_TIMER_ISARMED tp TCPT_PERSIST.

Lemma arm_armed hz1 hz2 tp i n :
  (i < length (t_timer (TCP_TIMER_ARM hz1 hz2 tp i n)))%nat -> TCP_TIMER_ISARMED (TCP_TIMER_ARM hz1 hz2 tp i n) i = true.
Proof.
  unfold TCP_TIMER_ARM, TCP_TIMER_ISARMED. destruct (t_timer tp !! i) as [co|] eqn:E.
  - intros _. upd_simpl. rewrite list_lookup_insert_eq by (by eapply lookup_lt_Some).
    unfold callout_active, callout_schedule. upd_simpl. flag_bits. done.
  - intros L. apply lookup_ge_None in E. lia.
Qed.

Lemma out_return_timer e cc tp tp' :
  out_return e cc tp = Some tp' -> cc <> 0 -> (length (t_timer tp') = TCPT_NTIMERS)%nat -> timer_runs tp' = true.
Proof.
  unfold out_return, timer_runs. intros H C L. revert H.
  set (armed := TCP_TIMER_ISARMED tp TCPT_REXMT || TCP_TIMER_ISARMED tp TCPT_PERSIST).
  destruct (TCP_SACK_ENABLED tp && _ && negb armed) eqn:E1.
  - intros [= <-]. unfold arm in *. rewrite arm_armed; [done|]. rewrite L. unfold TCPT_NTIMERS, TCPT_REXMT. lia.
  - destruct (Z.eqb_spec cc 0); [done|]. cbn [negb andb]. destruct armed eqn:A; cbn [negb].
    + intros [= <-]. exact A.
    + unfold tcp_setpersist. case_match; [done|]. intros [= <-]. rewrite orb_true_iff. right. revert L.
      match goal with |- context [TCP_TIMER_ARM ?a ?b ?t ?i ?n] => pose proof (arm_armed a b t i n) as Ha;
        set (x := TCP_TIMER_ARM a b t i n) in * end. clearbody x.
      intros L. assert (t_timer (if t_rxtshift x <? TCP_MAXRXTSHIFT then x <| t_rxtshift := t_rxtshift x + 1 |> else x) = t_timer x) as Et
        by (by case_match). rewrite (armed_ext _ x) by exact Et. apply Ha. rewrite Et in L. rewrite L.
      unfold TCPT_NTIMERS, TCPT_PERSIST. lia.
Qed.

Lemma out_transmit_tries e rx st l r : out_transmit e rx st l = Some r -> o_tries (pass_state r) = S (o_tries st).
Proof.
  unfold out_transmit. destruct (build_options _ _ _ _) as [[opt tp]|]; [|done]. cbn [mbind option_bind].
  destruct (out_data _ _ _ _ _ _) as [[[[err data] tp1] l1]|]; [|done]. cbn [mbind option_bind].
  destruct (negb (err =? 0)); [destruct (out_error _ _ _ _); by intros [= <-]|].
  destruct (t_template e) as [[? ?]|]; [|done]. cbn [mbind option_bind]. case_match; [done|].
  destruct (out_ecn _ _ _) as [[tp2 l2] ect]. destruct (out_seq _ _) as [[s tp3]|]; [|done]. cbn [mbind option_bind].
  destruct (out_urgent _ _) as [[urp fl] tp4]. match goal with |- context [ip_output e _ ?p] => generalize p as pkt end. intros pkt.
  destruct (negb (ip_output e _ pkt =? 0)); [destruct (out_error _ _ _ _); by intros [= <-]|].
  intros [= <-]. by destruct (l_sendalot l2).
Qed.

(** The timers are not added or removed. *)
Lemma arm_timers hz1 hz2 tp i n : length (t_timer (TCP_TIMER_ARM hz1 hz2 tp i n)) = length (t_timer tp).
Proof. unfold TCP_TIMER_ARM. case_match; [|done]. upd_simpl. apply length_insert. Qed.

Lemma disarm_timers tp i : length (t_timer (TCP_TIMER_DISARM tp i)) = length (t_timer tp).
Proof. unfold TCP_TIMER_DISARM. case_match; [|done]. upd_simpl. apply length_insert. Qed.

Lemma setpersist_length hz1 hz2 tp tp' : tcp_setpersist hz1 hz2 tp = Some tp' -> length (t_timer tp') = length (t_timer tp).
Proof.
  unfold tcp_setpersist. case_match; [done|]. intros [= <-].
  match goal with |- context [TCP_TIMER_ARM ?a ?b ?t ?i ?n] => rewrite <- (arm_timers a b t i n); set (x := TCP_TIMER_ARM a b t i n) end.
  by case_match.
Qed.

Lemma adjust_timers rest : forall cur tp, t_timer (sack_adjust_loop tp cur rest) = t_timer tp.
Proof. induction rest as [|n rest IH]; intros cur tp; simpl; repeat case_match; rewrite ?IH; done. Qed.

Lemma out_prepare_quiet e nosack tso st st1 l : out_prepare e nosack tso st = Some (st1, l) ->
  o_tries st1 = o_tries st /\ length (t_timer (o_tp st1)) = length (t_timer (o_tp st)).
Proof.
  unfold out_prepare. set (tp := out_adjust (o_tp st)).
  assert (t_timer tp = t_timer (o_tp st)) as <- by (unfold tp, out_adjust, tcp_sack_adjust; repeat case_match; by rewrite ?adjust_timers).
  destruct (out_sack_rexmit _ _ _) as [l0|]; [|done]. cbn [mbind option_bind].
  destruct (out_force _ _ _) as [tp1 l1] eqn:F. assert (length (t_timer tp1) = length (t_timer tp)) as <-.
  { revert F. unfold out_force. repeat case_match; intros [= <- _]; try done. upd_simpl. apply disarm_timers. }
  destruct (out_shrunk _ _ _) as [[tp2 l2]|] eqn:S; [|done]. cbn [mbind option_bind].
  assert (length (t_timer tp2) = length (t_timer tp1)) as <-.
  { revert S. unfold out_shrunk. case_match; [by intros [= <- _]|]. case_match; [|by intros [= <- _]].
    case_match; [intros [= <- _]; upd_simpl; apply disarm_timers|].
    destruct (tcp_setpersist _ _ _) as [y|] eqn:P; [|done]. intros [= <- _]. rewrite (setpersist_length _ _ _ _ P). upd_simpl. apply disarm_timers. }
  destruct (out_segment _ _ _) as [l3|]; [|done]. cbn [mbind option_bind]. intros [= <- _]. by rewrite out_autosize_tries, out_autosize_tp.
Qed.

Lemma idle_pass_timer e nosack rx tso idle st error st' :
  out_pass e nosack rx tso idle st = Some (ODone error st') -> o_tries st' = o_tries st ->
  sb_cc (o_snd st') <> 0 -> length (t_timer (o_tp st)) = TCPT_NTIMERS -> timer_runs (o_tp st') = true.
Proof.
  unfold out_pass. destruct (out_prepare _ _ _ _) as [[st1 l]|] eqn:E; [|done]. cbn [mbind option_bind].
  apply out_prepare_quiet in E as [Et <-]. case_match.
  - intros T. apply out_transmit_tries in T. cbn [pass_state] in T. lia.
  - destruct (out_return _ _ _) as [tp|] eqn:R; [|done]. cbn [mbind option_bind]. intros [= _ <-] _. upd_simpl.
    intros C L. eapply out_return_timer; [exact R|done|]. rewrite <- L. revert R. unfold out_return, arm.
    case_match; [intros [= <-]; apply arm_timers|]. case_match; [|by intros [= <-]]. intros P. rewrite (setpersist_length _ _ _ _ P). by upd_simpl.
Qed.

Lemma out_pass_tries e nosack rx tso idle st r : out_pass e nosack rx tso idle st = Some r ->
  match r with OAgain st' => o_tries st' = S (o_tries st) | ODone _ st' => (o_tries st <= o_tries st')%nat end.
Proof.
  unfold out_pass. destruct (out_prepare _ _ _ _) as [[st1 l]|] eqn:E; [|done]. cbn [mbind option_bind].
  apply out_prepare_quiet in E as [<- _]. case_match.
  - intros T. apply out_transmit_tries in T. destruct r; cbn [pass_state] in T; lia.
  - destruct (out_return _ _ _); [|done]. cbn [mbind option_bind]. intros [= <-]. upd_simpl. done.
Qed.

Lemma out_loop_tries e nosack rx tso idle fuel : forall mb st error st',
  out_loop e fuel mb nosack rx tso idle st = OReturn error st' -> (o_tries st <= o_tries st')%nat.
Proof.
  induction fuel as [|fuel IH]; intros mb st error st'; simpl; [done|]. destruct (out_pass _ _ _ _ _ _) as [r|] eqn:E; [|done].
  apply out_pass_tries in E. destruct r as [st1|er st1]; [|intros [= _ <-]; lia].
  repeat case_match; [intros Le%IH|intros [= _ <-]|intros Le%IH]; lia.
Qed.

(** C39. Data does not wait without a timer when nothing is to be sent: after a call
    that returns without an error and without having tried to send a packet, while the
    send buffer is not empty, the retransmission or the persist timer runs. *)
Theorem waiting_data_has_timer e fuel st st' : tcp_output_run e fuel st = OReturn 0 st' -> o_tries st' = o_tries st ->
  sb_cc (o_snd st') <> 0 -> length (t_timer (o_tp st)) = TCPT_NTIMERS -> timer_runs (o_tp st') = true.
Proof.
  intros R T C L. revert R. unfold tcp_output_run. destruct (negb (oe_inet e)); [done|]. destruct (negb (t_inpcb _)); [done|].
  destruct (tcp_segsize e (o_tp st) (o_snd st)) as [[[tx rx] tp1]|] eqn:Sz; [|done]. set (tp2 := out_restart _ _ _ _).
  assert (t_timer tp2 = t_timer (o_tp st)) as Et.
  { assert (t_timer tp1 = t_timer (o_tp st)) as <- by (revert Sz; unfold tcp_segsize; repeat (case_match; try done); by intros [= _ _ <-]).
    unfold tp2, out_restart. by repeat case_match. }
  clearbody tp2. destruct fuel as [|fuel]; [done|]. simpl. destruct (out_pass _ _ _ _ _ _) as [r|] eqn:E; [|done].
  destruct r as [st1|error st1].
  - apply out_pass_tries in E. simpl in E. repeat case_match; intros X; apply out_loop_tries in X; lia.
  - intros [= -> <-]. eapply idle_pass_timer; [exact E|done|done|]. upd_simpl. by rewrite Et.
Qed.

(** A connection with 300 bytes to send and a window of 0. *)
Definition ex_closed_tp : tcpcb :=
  tcpcb_zero <| t_state := TCPS_ESTABLISHED |> <| t_peermss := 100 |> <| t_ourmss := 1460 |> <| t_segsz := 100 |>
    <| t_rxtcur := 6 |> <| t_congctl := Some tcp_newreno_ctl |> <| snd_cwnd := 5000 |> <| max_sndwnd := 5000 |>
    <| rcv_adv := 65535 |>.
Definition ex_closed (flags : Z) : ostate :=
  mkOst (ex_closed_tp <| t_flags := flags |>) (mkSockbuf 300 8192 6144 16384 2048 None None None None) false 0 [].

Lemma waiting_data_has_timer_witness :
  match tcp_output_run ex_oenv 4 (ex_closed 0) with
  | OReturn error st' => error = 0 /\ timer_runs (o_tp st') = true
  | _ => False
  end.
Proof.
  destruct (tcp_output_run ex_oenv 4 (ex_closed 0)) as [| |error st'] eqn:E; [vm_compute in E; discriminate..|].
  assert (Z0 : error = 0) by (revert E; vm_compute; intros [= <- _]; reflexivity). split; [exact Z0|]. rewrite Z0 in E.
  apply (waiting_data_has_timer ex_oenv 4 (ex_closed 0) st' E); revert E; vm_compute; intros [= <-]; done.
Defined.

(** When an acknowledgement is owed, the same connection sends it and starts
    no timer: with a closed window nothing will ask the peer for a window update,
    and the data waits until something else calls [tcp_output]. *)
Theorem zero_window_ack_starts_no_timer :
  exists st', tcp_output_run ex_oenv 4 (ex_closed TF_ACKNOW) = OReturn 0 st' /\
    sb_cc (o_snd st') = 300 /\ snd_wnd (o_tp st') = 0 /\
    ((fun p => (p_flags p, length (p_data p))) <$> o_sent st') = [(TH_ACK, 0%nat)] /\ timer_runs (o_tp st') = false.
Proof. eexists. split; [vm_compute; reflexivity|]. by vm_compute. Qed.

(** *** Unsigned differences *)

Lemma u32_negative x : - 2 ^ 32 <= x < 0 -> u32 x = x + 2 ^ 32.
Proof. intros. unfold u32. rewrite <- (Z.mod_add x 1), Z.mod_small by lia. lia. Qed.

(** The window left for retransmissions is the difference of two 32-bit
    unsigned numbers, so that the test for a negative one never holds: when more
    has been retransmitted than the window allows, the rest of the hole is
    retransmitted at once, without regard to the congestion window. *)
Theorem sack_rexmit_ignores_window tp l cc i bytes p :
  TCP_SACK_ENABLED tp = true -> 0 <= t_partialacks tp -> tcp_sack_output tp = (Some i, Some bytes) ->
  snd_holes tp !! i = Some p -> umin (snd_wnd tp) (snd_cwnd tp) < bytes < 2 ^ 31 ->
  SEQ_GT (hend p) (snd_recover tp) = false ->
  off (snd_una tp) (rxmit p) < off (snd_una tp) (hend p) <= cc -> cc < 2 ^ 30 ->
  exists l', out_sack_rexmit cc tp l = Some l' /\ l_sack_rxmit l' = true /\
    l_len l' = off (snd_una tp) (hend p) - off (snd_una tp) (rxmit p).
Proof.
  intros En Pa So Hi B R [H1 H2] C. unfold out_sack_rexmit. rewrite En. cbn [negb]. destruct (Z.ltb_spec (t_partialacks tp) 0); [lia|].
  rewrite So. cbn [default from_option id]. set (l1 := l <| l_bytes := _ |>). rewrite Hi. cbn [mbind option_bind].
  assert (l_bytes l1 = bytes) as -> by (subst l1; by upd_simpl). clearbody l1.
  assert (0 <= umin (snd_wnd tp) (snd_cwnd tp)) by (unfold umin; pose proof (u32_range (snd_wnd tp)); pose proof (u32_range (snd_cwnd tp)); lia).
  rewrite (u32_negative (_ - bytes)) by lia. set (cwin := _ - bytes + 2 ^ 32). destruct (Z.ltb_spec cwin 0); [subst cwin; lia|].
  rewrite R. cbn [andb]. pose proof (off_range (snd_una tp) (rxmit p)).
  rewrite (u32_sub_off (snd_una tp) (hend p) (rxmit p)) by lia. rewrite Z.min_r by (subst cwin; lia).
  rewrite <- s32_u32. fold (off (snd_una tp) (rxmit p)). rewrite s32_small, u64_small by lia.
  destruct (Z.ltb_spec cc (off (snd_una tp) (rxmit p) + (off (snd_una tp) (hend p) - off (snd_una tp) (rxmit p)))); [lia|].
  destruct (Z.ltb_spec 0 (off (snd_una tp) (hend p) - off (snd_una tp) (rxmit p))); [|lia].
  eexists. split; [done|]. by upd_simpl.
Qed.

Lemma sack_rexmit_ignores_window_witness :
  let tp := ex_out_tp <| snd_cwnd := 100 |> <| snd_holes := [mkHole 1 (2 ^ 32 - 100) 50 30] |> in
  exists l', out_sack_rexmit 300 tp (mkLoc TH_ACK 0 0 100 false false 100 0 false 0 None) = Some l' /\ l_sack_rxmit l' = true /\
    l_len l' = 20.
Proof.
  exact (sack_rexmit_ignores_window (ex_out_tp <| snd_cwnd := 100 |> <| snd_holes := [mkHole 1 (2 ^ 32 - 100) 50 30] |>)
    (mkLoc TH_ACK 0 0 100 false false 100 0 false 0 None) 300 0%nat 130 (mkHole 1 (2 ^ 32 - 100) 50 30)
    eq_refl ltac:(vm_compute; discriminate) eq_refl eq_refl ltac:(by vm_compute) eq_refl ltac:(by vm_compute) ltac:(by vm_compute)).
Defined.

(** The amount by which the window can be opened is such a difference too:
    while the space of the receive buffer is smaller than what was promised, every
    call of [tcp_output] takes it for a large window update and sends a packet. *)
Theorem small_space_always_sends e rx tp l :
  window_ok tp -> 0 < l_win l < promised tp -> 0 <= rx < 2 ^ 29 -> out_send_window e rx tp l = true.
Proof.
  intros [S P] W R. destruct (max_rcv_window_bound tp S) as [S2 M]. unfold out_send_window, out_adv.
  rewrite Z.shiftl_mul_pow2 by lia. fold (max_rcv_window tp) (off (rcv_nxt tp) (rcv_adv tp)). fold (promised tp).
  unfold umin. rewrite (u32_small (l_win l)), (u32_small (max_rcv_window tp)) by lia.
  rewrite u32_negative by lia. destruct (Z.ltb_spec 0 (l_win l)); [|lia]. cbn [andb].
  apply orb_true_iff. left. apply Z.leb_le. lia.
Qed.

Lemma small_space_always_sends_witness :
  out_send_window ex_oenv 536 ex_closed_tp (mkLoc TH_ACK 0 0 60000 false false 100 0 false 0 None) = true.
Proof.
  apply (small_space_always_sends ex_oenv 536 ex_closed_tp); [|by vm_compute|by vm_compute].
  split; [split|]; by vm_compute.
Defined.

(** When the last data is retransmitted from a hole after a FIN has been sent,
    the segment carries the FIN again and [snd_nxt], which is already behind it,
    moves beyond [snd_max]. *)
Theorem sack_rexmit_fin_overshoots e tp l :
  l_sack_rxmit l = true -> flag_set (l_flags l) TH_FIN = true -> t_force tp = 0 -> snd_nxt tp = snd_max tp ->
  snd_nxt (out_advance e tp l) = u32 (snd_max tp + 1) /\ snd_max (out_advance e tp l) = snd_max tp.
Proof.
  intros S F Fo N. destruct (out_advance_view e tp l) as (_ & Nx & _).
  assert (flag_set (l_flags l) (Z.lor TH_SYN TH_FIN) = true) as F'.
  { revert F. flag_bits. intros ->. by rewrite orb_true_r. }
  rewrite Nx by auto. rewrite F', S, N. split; [done|].
  unfold out_advance, arm. rewrite Fo, F', S. cbn [Z.eqb orb].
  set (tp1 := tp <| snd_nxt := _ |>). assert (snd_max tp1 = snd_max tp) as <- by (subst tp1; by upd_simpl). clearbody tp1.
  destruct (negb (TCP_TIMER_ISARMED tp1 TCPT_REXMT) && _); [|done].
  match goal with |- context [TCP_TIMER_ARM ?a ?b ?t ?i ?n] => destruct (timers_only_arm a b t i n) as (ts & rs & ->) end. upd_simpl.
  destruct (TCP_TIMER_ISARMED tp1 TCPT_PERSIST); [|done]. destruct (timers_only_disarm tp1 TCPT_PERSIST) as (ts' & rs' & ->). by upd_simpl.
Qed.
