(* ===== verification/TcpRexmt.v ===== *)
(** * A connection whose peer is silent

    The retransmission timer with [tcp_output]: a call from the handler of the timer
    leaves the timer and the backoff alone, so that the intervals follow the table
    and the connection is dropped after the last of them. *)

From S2P Require Import Prelude Pool TcpSeq Callout Tcpcb TcpSack TcpSackFacts TcpCongctl TcpTimer TcpTimerFacts Mbuf Sockbuf.
From S2P Require Import SockState TcpOptions TcpReass TcpInput TcpInputFacts TcpOutput TcpOutputFacts TcpOutputStream TcpOutputRun.

(** ** The passes of [tcp_output] *)

(** What a pass keeps unless there is an error. *)
Definition quiet_view (tp : tcpcb) :=
  (rexmt_view tp, snd_holes tp, (snd_cwnd tp, t_softerror tp), (snd_una tp, snd_wnd tp, t_partialacks tp)).

(** [rexmt_ready] between passes: [snd_nxt] moves on only in an open window. *)
Record quiet (tp : tcpcb) : Prop := mkQuiet {
  q_timer : TCP_TIMER_ISARMED tp TCPT_REXMT = true;
  q_force : t_force tp = 0;
  q_holes : snd_holes tp = [];
  q_partial : t_partialacks tp < 0;
  q_window : snd_nxt tp = snd_una tp \/ umin (snd_wnd tp) (snd_cwnd tp) <> 0
}.

(** The errors that [tcp_output] notes. *)
Definition net_errors : list Z := [EHOSTUNREACH; ENETDOWN].

Lemma quiet_ext tp tp' : quiet tp -> quiet_view tp' = quiet_view tp -> umin (snd_wnd tp) (snd_cwnd tp) <> 0 -> quiet tp'.
Proof.
  intros [T F H P _] V W. unfold quiet_view, rexmt_view in V. simplify_eq V; intros. split; try congruence.
  - unfold TCP_TIMER_ISARMED in *. by replace (t_timer tp' !! TCPT_REXMT) with (t_timer tp !! TCPT_REXMT) by congruence.
  - right. congruence.
Qed.

Lemma quiet_view_kept tp tp' : quiet_view tp' = quiet_view tp -> rexmt_kept net_errors tp tp'.
Proof. unfold quiet_view. intros V. split; [congruence|left; congruence]. Qed.

Section passes.
Variable e : oenv.

Lemma quiet_options flags n tp opt tp' : build_options e flags n tp = Some (opt, tp') -> quiet_view tp' = quiet_view tp.
Proof.
  unfold build_options.
  assert (quiet_view (syn_options e flags tp).2 = quiet_view tp) as E1.
  { unfold syn_options. case_match; [|done]. case_match; unfold quiet_view, rexmt_view; simpl; upd_simpl; done. }
  destruct (syn_options e flags tp) as [o1 tp1]. simpl in E1.
  assert (quiet_view (timestamp_option e flags (o1, tp1)).2 = quiet_view tp1) as E2.
  { unfold timestamp_option. repeat case_match; simplify_eq/=; done. }
  destruct (timestamp_option _ _ _) as [o2 tp2]. simpl in E2. rewrite <- E1, <- E2. clear.
  unfold sack_option. repeat case_match; intros H'; simplify_option_eq; done.
Qed.

(** The local variables of a segment that fills no hole. *)
Definition no_hole (l : olocal) : Prop := l_sack_rxmit l = false /\ l_hole l = None.

Lemma quiet_data cc tries hdrlen tp l error data tp' l' :
  out_data e cc tries hdrlen tp l = Some (error, data, tp', l') -> no_hole l ->
  quiet_view tp' = quiet_view tp /\ no_hole l' /\ l_sendalot l' = l_sendalot l.
Proof.
  unfold out_data, tcp_build_datapkt. intros E N. destruct (l_len l =? 0); [destruct (get_header _ _ _); by injection E as _ _ <- <-|].
  destruct (negb (get_header _ _ _)); [cbn [mbind option_bind] in E; by injection E as _ _ <- <-|].
  destruct (datapkt_start _ _ _) as [[? ?]|]; cbn [mbind option_bind] in E; [|done].
  destruct (seek _ _) as [[? ?]|]; cbn [mbind option_bind] in E; [|done].
  destruct (negb (oe_copym _ _)); [cbn [mbind option_bind] in E; by injection E as _ _ <- <-|].
  destruct (_ <? _); cbn [mbind option_bind] in E; [done|]. injection E as _ _ <- <-. split; [done|]. by case_match.
Qed.

Lemma quiet_ecn tp l tp' l' ect : out_ecn e tp l = (tp', l', ect) -> no_hole l ->
  quiet_view tp' = quiet_view tp /\ no_hole l' /\ l_sendalot l' = l_sendalot l.
Proof.
  unfold out_ecn. destruct (ecn_syn e tp l) as [tp1 l1] eqn:E. intros E' N.
  assert (quiet_view tp1 = quiet_view tp /\ no_hole l1 /\ l_sendalot l1 = l_sendalot l) as (V & N1 & A1).
  { revert E. unfold ecn_syn. repeat case_match; by intros [= <- <-]. }
  rewrite <- V, <- A1. clear E V A1. destruct (TCP_ECN_ALLOWED tp1); [|by injection E' as <- <- _].
  injection E' as <- <- _. split; [|by repeat case_match].
  destruct (flag_set (t_flags tp1) TF_ECN_SND_CWR); [|done]. unfold quiet_view, rexmt_view. upd_simpl. by flag_bits.
Qed.

Lemma quiet_advance tp l : TCP_TIMER_ISARMED tp TCPT_REXMT = true -> t_force tp = 0 -> quiet_view (out_advance e tp l) = quiet_view tp.
Proof.
  intros T F. unfold out_advance. rewrite F, Z.eqb_refl. cbn [orb].
  match goal with |- context [if l_sack_rxmit l then ?a else ?b] => set (x := if l_sack_rxmit l then a else b) end.
  assert (quiet_view x = quiet_view tp) as E by (subst x; repeat case_match; unfold quiet_view, rexmt_view; upd_simpl; done).
  assert (TCP_TIMER_ISARMED x TCPT_REXMT = true) as T'.
  { unfold quiet_view, rexmt_view in E. unfold TCP_TIMER_ISARMED in *. by replace (t_timer x !! TCPT_REXMT) with (t_timer tp !! TCPT_REXMT) by congruence. }
  clearbody x. by rewrite T'.
Qed.

Lemma quiet_error error tp l error' tp' : out_error e error tp l = (error', tp') -> no_hole l -> rexmt_kept net_errors tp tp'.
Proof.
  intros E [_ N]. unfold out_error in E. destruct (error_status error tp) as [e1 tp1] eqn:E1. rewrite N in E. injection E as _ <-.
  assert (rexmt_kept net_errors tp tp1) as [V S].
  { revert E1. unfold error_status. destruct (error =? ENOBUFS); [intros [= _ <-]; split; [|left]; by case_match|].
    destruct ((error =? EHOSTUNREACH) || (error =? ENETDOWN)) eqn:B; cbn [andb]; [|intros [= _ <-]; split; [done|by left]].
    case_match; intros [= _ <-]; (split; [done|]); [right|by left]. upd_simpl. unfold net_errors.
    apply orb_true_iff in B as [->%Z.eqb_eq| ->%Z.eqb_eq]; [left|right; left]. }
  split; [rewrite <- V|]; unfold TCP_RESTART_DELACK; by case_match.
Qed.

Lemma quiet_sent win n tp : quiet_view (out_sent win n tp) = quiet_view tp.
Proof.
  unfold out_sent, TCP_CLEAR_DELACK, quiet_view, rexmt_view. repeat case_match; upd_simpl; by flag_bits.
Qed.

Lemma quiet_transmit rx st l r : quiet (o_tp st) -> no_hole l -> out_transmit e rx st l = Some r ->
  match r with
  | OAgain st' => quiet_view (o_tp st') = quiet_view (o_tp st) /\ o_snd st' = o_snd st /\ l_sendalot l = true
  | ODone _ st' => rexmt_kept net_errors (o_tp st) (o_tp st')
  end.
Proof.
  intros Q N. unfold out_transmit. destruct (build_options _ _ _ _) as [[opt tp]|] eqn:E; [|done]. apply quiet_options in E.
  cbn [mbind option_bind]. destruct (out_data _ _ _ _ _ _) as [[[[err data] tp1] l1]|] eqn:E1; [|done].
  apply quiet_data in E1 as (V1 & N1 & A1); [|done]. rewrite E in V1. clear E. cbn [mbind option_bind].
  assert (Err : forall error t l' x, quiet_view t = quiet_view (o_tp st) -> no_hole l' -> out_error e error t l' = x -> rexmt_kept net_errors (o_tp st) x.2).
  { intros error t l' [e' x] V N' X. destruct (quiet_error _ _ _ _ _ X N') as [V' S']. destruct (quiet_view_kept _ _ V) as [V2 S2].
    split; [simpl; congruence|]. simpl. destruct S' as [->|?]; [done|by right]. }
  destruct (negb (err =? 0)).
  { destruct (out_error _ _ _ _) as [e' x] eqn:X. intros [= <-]. exact (Err _ _ _ _ V1 N1 X). }
  destruct (t_template e) as [[? ?]|]; [|done]. cbn [mbind option_bind]. destruct (_ <? _); [done|].
  destruct (out_ecn e tp1 l1) as [[tp2 l2] ect] eqn:E2. apply quiet_ecn in E2 as (V2 & N2 & A2); [|done].
  assert (exists s, out_seq tp2 l2 = Some (s, tp2)) as [s ->].
  { unfold out_seq. destruct N2 as [-> _]. rewrite andb_false_r. case_match; eauto. }
  cbn [mbind option_bind]. destruct (out_urgent tp2 (l_flags l2)) as [[urp fl] tp3] eqn:E3.
  assert (quiet_view tp3 = quiet_view (o_tp st)) as V3.
  { rewrite <- V1, <- V2. revert E3. unfold out_urgent. case_match; by intros [= _ _ <-]. }
  assert (quiet_view (out_advance e tp3 l2) = quiet_view (o_tp st)) as V4.
  { rewrite <- V3. destruct Q as [T F _ _ _]. unfold quiet_view, rexmt_view in V3. apply quiet_advance; [|congruence].
    unfold TCP_TIMER_ISARMED in *. by replace (t_timer tp3 !! TCPT_REXMT) with (t_timer (o_tp st) !! TCPT_REXMT) by congruence. }
  generalize dependent (out_advance e tp3 l2). intros tp4 V4.
  match goal with |- context [ip_output e ?k ?p] => destruct (negb (ip_output e k p =? 0)) end.
  { destruct (out_error _ _ _ _) as [e' x] eqn:X. intros [= <-]. exact (Err _ _ _ _ V4 N2 X). }
  rewrite A2, A1. destruct (l_sendalot l) eqn:A; intros [= <-]; upd_simpl.
  - by rewrite quiet_sent.
  - apply quiet_view_kept. by rewrite quiet_sent.
Qed.

(** What is planned: no hole, and more than one segment only in an open window. *)
Lemma quiet_prepare nosack tso st st' l : quiet (o_tp st) -> 0 <= sb_cc (o_snd st) < 2 ^ 63 -> 0 <= nosack ->
  out_prepare e nosack tso st = Some (st', l) ->
  o_tp st' = o_tp st /\ sb_cc (o_snd st') = sb_cc (o_snd st) /\ no_hole l /\
  (l_sendalot l = true -> umin (snd_wnd (o_tp st)) (snd_cwnd (o_tp st)) <> 0).
Proof.
  intros [T F H P W] Cc Ns. unfold out_prepare. set (tp := o_tp st) in *. set (cc := sb_cc (o_snd st)) in *.
  assert (out_adjust tp = tp) as -> by (unfold out_adjust, tcp_sack_adjust; rewrite H; by case_match).
  destruct (out_sack_room nosack tso tp) as [[nb tx] tso'] eqn:Room.
  assert (0 <= tx) as Tx.
  { revert Room. unfold out_sack_room. case_match; [by intros [= _ <- _]|]. destruct (Z.ltb_spec nosack (TCP_SACK_OPTLEN (tcp_sack_numblks tp))); intros [= _ <- _]; lia. }
  set (l0 := out_locals _ tp). set (win := umin (snd_wnd tp) (snd_cwnd tp)) in *.
  assert (0 <= win < 2 ^ 32) as Wr.
  { unfold win, umin. pose proof (u32_range (snd_wnd tp)). pose proof (u32_range (snd_cwnd tp)). lia. }
  assert (out_sack_rexmit cc tp l0 = Some l0) as ->.
  { unfold out_sack_rexmit. destruct (TCP_SACK_ENABLED tp); [|done]. simpl. destruct (Z.ltb_spec (t_partialacks tp) 0); [done|lia]. }
  cbn [mbind option_bind]. unfold out_force. rewrite F, Z.eqb_refl. set (l1 := out_length cc tp l0).
  assert (no_hole l1 /\ l_sendalot l1 = false /\ l_txsegsize l1 = tx /\ l_win l1 = win /\ (win = 0 -> l_len l1 = 0)) as (N1 & A1 & T1 & W1 & L1).
  { unfold l1, out_length, l0, out_locals. simpl. replace (TCP_SACK_ENABLED tp && (0 <=? t_partialacks tp)) with false
      by (destruct (Z.leb_spec 0 (t_partialacks tp)); [lia|by rewrite andb_false_r]). fold win.
    destruct (Z.ltb_spec win cc); unfold no_fin; (split; [done|]); (split; [done|]); (split; [done|]); (split; [done|]); upd_simpl; intros Z0;
      (destruct W as [E|?]; [|done]); rewrite E, Z.sub_diag, s32_small by lia; rewrite s64_small by lia; lia. }
  clearbody l1.
  assert (Sh : forall tp' l2, out_shrunk e tp l1 = Some (tp', l2) ->
    tp' = tp /\ no_hole l2 /\ l_sendalot l2 = false /\ l_txsegsize l2 = tx /\ (win = 0 -> l_len l2 = 0)).
  { intros tp' l2. unfold out_shrunk. destruct (Z.leb_spec 0 (l_len l1)); [by intros [= <- <-]|]. unfold no_fin. upd_simpl. rewrite W1.
    destruct (Z.eqb_spec win 0) as [Z0|]; [specialize (L1 Z0); lia|]. by intros [= <- <-]. }
  destruct (out_shrunk e tp l1) as [[tp' l2]|]; [|done]. destruct (Sh tp' l2 eq_refl) as (-> & N2 & A2 & T2 & L2). clear Sh.
  cbn [mbind option_bind]. rewrite out_autosize_tp.
  assert (Sg : forall l3, out_segment cc tp l2 = Some l3 -> no_hole l3 /\ (l_sendalot l3 = true -> win <> 0)).
  { intros l3. unfold out_segment. destruct N2 as [S2 H2]. destruct (Z.ltb_spec (l_txsegsize l2) (l_len l2)).
    - assert (win <> 0) by (intros Z0; specialize (L2 Z0); lia).
      destruct (l_use_tso l2); [destruct (_ =? 0); [done|]; destruct (_ <=? _)|]; cbn [mbind option_bind]; unfold no_fin; upd_simpl; rewrite S2;
        by intros [= <-].
    - cbn [mbind option_bind]. upd_simpl. rewrite S2. intros [= <-]. split; [done|]. upd_simpl. congruence. }
  change (o_tp (st <| o_tp := tp |>)) with tp.
  destruct (out_segment cc tp l2) as [l3|]; [|done]. cbn [mbind option_bind]. intros [= <- <-].
  destruct (Sg l3 eq_refl) as [N3 A3]. split; [by rewrite out_autosize_tp|]. split; [by rewrite out_autosize_cc|]. done.
Qed.

Lemma quiet_pass nosack rx tso idle st r : quiet (o_tp st) -> 0 <= sb_cc (o_snd st) < 2 ^ 63 -> 0 <= nosack ->
  out_pass e nosack rx tso idle st = Some r ->
  match r with
  | OAgain st' => quiet (o_tp st') /\ sb_cc (o_snd st') = sb_cc (o_snd st) /\ quiet_view (o_tp st') = quiet_view (o_tp st)
  | ODone _ st' => rexmt_kept net_errors (o_tp st) (o_tp st')
  end.
Proof.
  intros Q Cc Ns. unfold out_pass. destruct (out_prepare _ _ _ _) as [[st1 l]|] eqn:E; [|done]. cbn [mbind option_bind].
  destruct (quiet_prepare nosack tso st st1 l Q Cc Ns E) as (T1 & C1 & N & A). destruct (out_send _ _ _ _ _ _).
  - intros X. rewrite <- T1 in Q. pose proof (quiet_transmit rx st1 l r Q N X) as H. rewrite T1 in *. destruct r as [st2|er st2]; [|done].
    destruct H as (V & S & More). split; [by eapply quiet_ext; [exact Q|exact V|apply A]|]. split; [by rewrite S|done].
  - unfold out_return. rewrite T1. rewrite (q_timer _ Q). simpl. rewrite !andb_false_r. cbn [mbind option_bind]. intros [= <-].
    upd_simpl. by apply quiet_view_kept.
Qed.

Lemma quiet_loop nosack rx tso idle fuel : forall maxburst st error st', quiet (o_tp st) -> 0 <= sb_cc (o_snd st) < 2 ^ 63 -> 0 <= nosack ->
  out_loop e fuel maxburst nosack rx tso idle st = OReturn error st' -> rexmt_kept net_errors (o_tp st) (o_tp st').
Proof.
  induction fuel as [|fuel IH]; intros maxburst st error st' Q Cc Ns; simpl; [done|].
  destruct (out_pass _ _ _ _ _ _) as [r|] eqn:E; [|done]. pose proof (quiet_pass nosack rx tso idle st r Q Cc Ns E) as H.
  destruct r as [st1|er st1]; [|by intros [= _ <-]]. destruct H as (Q1 & C1 & V1).
  assert (Next : forall mb, out_loop e fuel mb nosack rx tso idle st1 = OReturn error st' -> rexmt_kept net_errors (o_tp st) (o_tp st')).
  { intros mb X. destruct (IH mb st1 error st' Q1 ltac:(by rewrite C1) Ns X) as [V S]. destruct (quiet_view_kept _ _ V1) as [V2 S2].
    split; [congruence|]. destruct S as [->|?]; [done|by right]. }
  case_match; [apply Next|]. case_match; [|apply Next]. intros [= _ <-]. by apply quiet_view_kept.
Qed.
End passes.

(** ** Rounds of the timer *)

(** A call of [tcp_output]: what surrounds it, the fuel of its loop, the send buffer
    and whether it is sized automatically.  Calls that end the process are among
    them, with no effect. *)
Definition a_call (out : tcpcb -> tcpcb) : Prop :=
  exists e fuel snd autosize, 0 <= sb_cc snd < 2 ^ 63 /\ out = output_tp e fuel snd autosize.

Lemma output_tp_retransmits out : a_call out -> output_retransmits net_errors out.
Proof.
  intros (e & fuel & snd & autosize & Cc & ->) tp [T F X H P]. unfold output_tp.
  destruct (tcp_output_run _ _ _) as [| |error st'] eqn:E; [split; [done|by left]..|]. revert E. unfold tcp_output_run. cbn [o_tp o_snd].
  destruct (negb (oe_inet e)); [intros [= _ <-]; split; [done|by left]|]. destruct (negb (t_inpcb tp)); [intros [= _ <-]; split; [done|by left]|].
  destruct (tcp_segsize e tp snd) as [[[tx rx] tp1]|] eqn:Sz; [|intros [= _ <-]; split; [done|by left]].
  assert (0 <= tx /\ rexmt_view tp1 = rexmt_view tp /\ (t_softerror tp1, snd_holes tp1, snd_nxt tp1, snd_una tp1, t_partialacks tp1) = (t_softerror tp, snd_holes tp, snd_nxt tp, snd_una tp, t_partialacks tp)) as (Tx & V1 & G1).
  { revert Sz. unfold tcp_segsize. generalize (segsize_route e tp). intros f. set (size := s32 _). destruct (size <? 0); [done|].
    set (txs := if t_inpcb tp then _ else _). assert (0 <= txs).
    { unfold txs, umin. repeat match goal with |- context [u32 ?x] => lazymatch goal with H : 0 <= u32 x < _ |- _ => fail | _ => pose proof (u32_range x) end end.
      case_match; lia. }
    clearbody txs. intros [= <- _ <-]. split; [done|]. by repeat case_match. }
  set (tp2 := out_restart e _ tx tp1).
  assert (rexmt_view tp2 = rexmt_view tp1 /\ (t_softerror tp2, snd_holes tp2, snd_nxt tp2, snd_una tp2, t_partialacks tp2) = (t_softerror tp1, snd_holes tp1, snd_nxt tp1, snd_una tp1, t_partialacks tp1)) as [V2 G2]
    by (unfold tp2, out_restart; by repeat case_match).
  clearbody tp2. intros E. rewrite V1 in V2. rewrite G1 in G2. simplify_eq G2; intros.
  apply quiet_loop in E as [V S]; upd_simpl; try done.
  - upd_simpl in V. upd_simpl in S. split; [congruence|]. destruct S as [S|?]; [left; congruence|by right].
  - unfold rexmt_view in V2. split; try congruence; [|left; congruence]. unfold TCP_TIMER_ISARMED in *.
    by replace (t_timer tp2 !! TCPT_REXMT) with (t_timer tp !! TCPT_REXMT) by congruence.
Qed.

(** C36. The retransmission timer of a connection whose peer is silent expires again
    and again, and each time [tcp_output] is called, in whatever surroundings.  The
    timer is set to intervals that follow the backoff table, clamped to the minimum
    of the connection and 64 seconds; at the expiry after the twelfth
    retransmission, and not before, the connection is closed.  The socket is told
    ETIMEDOUT, or the error that the network reported before or during the rounds. *)
Theorem rexmt_backoff_then_drop timer_hz hz outs g tp : Forall a_call outs -> rexmt_live tp ->
  let s := t_rxtshift tp in
  let n := Z.of_nat (length outs) in
  (0 < n <= 12 - s ->
   exists tp' calls co, rexmt_rounds timer_hz hz outs g tp = (Some tp', calls ++ [CallOutput]) /\
     t_rxtshift tp' = s + n /\ t_rxtcur tp' = rexmt_interval tp (s + n) /\
     t_timer tp' !! TCPT_REXMT = Some co /\ callout_pending co = true /\
     timer co = Some (callout_cycles timer_hz hz (s32 (t_rxtcur tp' * (hz / PR_SLOWHZ))))) /\
  (n = 13 - s ->
   exists calls soft, rexmt_rounds timer_hz hz outs g tp = (None, calls) /\ CallClose ∈ calls /\
     (soft = t_softerror tp \/ soft ∈ net_errors) /\ CallSoError (if soft =? 0 then ETIMEDOUT else soft) ∈ calls).
Proof.
  intros F L. apply rexmt_rounds_spec; [|done]. eapply Forall_impl; [exact F|exact output_tp_retransmits].
Qed.

(** A connection with 300 bytes that are never acknowledged. *)
Definition ex_silent : tcpcb :=
  ex_out_tp <| t_rttmin := 2 |> <| t_srtt := 64 |> <| t_rttvar := 16 |> <| t_inpcb := true |>
    <| t_timer := replicate 4 (mkCallout None (Some 1) None 0 0) |>.

Definition ex_silent_out : tcpcb -> tcpcb := output_tp ex_oenv 451 (o_snd ex_ost) false.

Lemma rexmt_backoff_then_drop_witness :
  exists calls soft, rexmt_rounds 2000000 1000 (replicate 13 ex_silent_out) ex_globals ex_silent = (None, calls) /\ CallClose ∈ calls /\
    (soft = 0 \/ soft ∈ net_errors) /\ CallSoError (if soft =? 0 then ETIMEDOUT else soft) ∈ calls.
Proof.
  apply (rexmt_backoff_then_drop 2000000 1000 (replicate 13 ex_silent_out) ex_globals ex_silent).
  - apply Forall_replicate. exists ex_oenv, 451%nat, (o_snd ex_ost), false. split; [vm_compute; split; congruence|reflexivity].
  - split; try reflexivity; try (vm_compute; split; congruence).
    + exists (mkCallout None (Some 1) None 0 0), 1. split; reflexivity.
    + by eexists.
  - reflexivity.
Defined.
