(* ===== verification/SynCache.v ===== *)
(** * The SYN cache (the routines [syn_cache_add] to [syn_cache_unreach] of
    src/netbsd/netinet/tcp_input.c)

    A listening socket keeps no control block for a connection whose handshake
    is not finished: a SYN makes an entry of the SYN cache, the SYN,ACK is sent
    from the entry, and the ACK of the peer turns it into a connection.

    The entries live in a store; every entry taken from the pool is in it until
    it is given back.  A bucket is the list of the addresses of its entries,
    and so is the list of the entries of a listening control block.  SYN,ACKs are
    built byte by byte and go through the model of [ip_output]; what is sent
    is collected in the state.  [None] is the dereference of a null or stale
    pointer, or a loop that does not end. *)

From S2P Require Import Prelude Pool TcpSeq Callout Tcpcb TcpSack TcpTimer Mbuf Sockbuf InCksum TcpOptions TcpReass TcpInput TcpOutput.
From S2P Require Import IpReass IpId Ip IpOutput.

Definition TCP_SYN_HASH_SIZE : nat := 293.
Definition TCPTV_SRTTDFLT : Z := 3 * PR_SLOWHZ.
Definition SCF_UNREACH : Z := 0x0001.
Definition SCF_TIMESTAMP : Z := 0x0002.
Definition SCF_DEAD : Z := 0x0004.
Definition SCF_SACK_PERMIT : Z := 0x0008.
Definition SCF_ECN_PERMIT : Z := 0x0010.
Definition IPPROTO_TCP : Z := 6.
Definition IPTOS_ECN_ECT0 : Z := 0x02.
Definition MHLEN : Z := MSIZE.

(** Address and port, in network order. *)
Record sockaddr_in := mkSin { sin_addr : Z; sin_port : Z }.

#[export] Instance sockaddr_in_eq_dec : EqDecision sockaddr_in.
Proof. solve_decision. Defined.

Record syn_cache := mkSc {
  sc_timer : callout; sc_route : Ip.route; sc_win : Z; sc_bucketidx : nat; sc_hash : Z; sc_timestamp : Z;
  sc_timebase : Z; sc_src : sockaddr_in; sc_dst : sockaddr_in; sc_irs : tcp_seq; sc_iss : tcp_seq; sc_rxtcur : Z;
  sc_rxttot : Z; sc_rxtshift : Z; sc_flags : Z; sc_ipopts : option ipoption; sc_peermaxseg : Z; sc_ourmaxseg : Z;
  sc_request_r_scale : Z; sc_requested_s_scale : Z; sc_tp : option Z
}.

#[export] Instance eta_syn_cache : EtaRecord syn_cache :=
  fun r => mkSc (sc_timer r) (sc_route r) (sc_win r) (sc_bucketidx r) (sc_hash r) (sc_timestamp r) (sc_timebase r)
    (sc_src r) (sc_dst r) (sc_irs r) (sc_iss r) (sc_rxtcur r) (sc_rxttot r) (sc_rxtshift r) (sc_flags r) (sc_ipopts r)
    (sc_peermaxseg r) (sc_ourmaxseg r) (sc_request_r_scale r) (sc_requested_s_scale r) (sc_tp r).

Record syn_cache_head := mkSch { sch_bucket : list addr; sch_length : Z }.

#[export] Instance eta_syn_cache_head : EtaRecord syn_cache_head := fun r => mkSch (sch_bucket r) (sch_length r).

(** The variables of the cache, the lists [t_sc] of the listening control
    blocks, the counters of IP, and what has been sent. *)
Record synst := mkSyn {
  y_mem : gmap addr syn_cache;
  syn_cache_pool : pool;
  tcp_syn_cache : list syn_cache_head;
  syn_cache_count : Z;
  syn_hash1 : Z;
  syn_hash2 : Z;
  t_sc : gmap Z (list addr);
  y_ipg : ipglobals;
  y_out : list ipout
}.

#[export] Instance eta_synst : EtaRecord synst :=
  fun r => mkSyn (y_mem r) (syn_cache_pool r) (tcp_syn_cache r) (syn_cache_count r) (syn_hash1 r) (syn_hash2 r)
    (t_sc r) (y_ipg r) (y_out r).

(** What surrounds the cache during one call. *)
Record synenv := mkSynenv {
  y_timer_hz : Z; y_hz : Z;
  y_now : Z;                         (* tcp_now *)
  y_keepinit : Z;                    (* tcp_keepinit *)
  y_timer_fn : Z;                    (* the address of syn_cache_timer *)
  tcp_syn_bucket_limit : Z;
  tcp_syn_cache_limit : Z;
  y_random1 : Z; y_random2 : Z;      (* cprng_fast32() for the secrets *)
  y_listener : Z -> tcp_seq * tcp_seq;   (* snd_nxt and snd_max of a listening control block *)
  y_mget : bool;                     (* MGETHDR gives an mbuf *)
  y_max_linkhdr : Z;
  y_ip : ipenv;
  y_defttl : Z;                      (* ip_defttl *)
  y_mtudisc : bool;                  (* ip_mtudisc *)
  y_sb_max : Z;
  y_rfc1323 : bool;                  (* tcp_do_rfc1323 *)
  y_do_sack : bool; y_do_ecn : bool;
  y_compat_42 : bool;                (* tcp_compat_42 *)
  y_iss : Z;                         (* the uninitialised variable of tcp_new_iss1 *)
  y_mss : Z                          (* tcp_mss_to_advertise of the interface of the SYN *)
}.

(** ** Hashing *)

Definition SYN_HASH (h1 h2 : Z) (src dst : sockaddr_in) : Z :=
  u32 (u32 (Z.lxor (sin_addr src) h1) * u32 (Z.lxor (u32 (Z.shiftl (sin_port dst) 16 + sin_port src)) h2)).

Definition syn_hash (s : synst) (src dst : sockaddr_in) : Z := SYN_HASH (syn_hash1 s) (syn_hash2 s) src dst.

Definition bucket_of (hash : Z) : nat := Z.to_nat (hash mod Z.of_nat TCP_SYN_HASH_SIZE).

(** ** Access to the store and the table *)

Definition upd_sc (a : addr) (f : syn_cache -> syn_cache) (s : synst) : synst := s <| y_mem := alter f a (y_mem s) |>.

Definition upd_head (i : nat) (f : syn_cache_head -> syn_cache_head) (s : synst) : synst :=
  s <| tcp_syn_cache := alter f i (tcp_syn_cache s) |>.

(** Unlinking an address from a list. *)
Definition unlink (a : addr) (l : list addr) : list addr := filter (fun b => b <> a) l.

Section syn_cache.
Variable e : synenv.

(** ** Removing and releasing *)

Definition SYN_CACHE_TIMER_ARM (a : addr) (s : synst) : option synst :=
  sc ← y_mem s !! a;
  backoff ← tcp_backoff !! Z.to_nat (sc_rxtshift sc);
  let rxtcur := TCPT_RANGESET (TCPTV_SRTTDFLT * backoff) TCPTV_MIN TCPTV_REXMTMAX in
  Some (upd_sc a (fun sc => sc <| sc_rxtcur := rxtcur |>
    <| sc_timer := callout_reset (y_timer_hz e) (y_hz e) (sc_timer sc) (s32 (rxtcur * (y_hz e / PR_SLOWHZ)))
                     (Some (y_timer_fn e)) (Some (Z.pos a)) |>) s).

Definition syn_cache_rm (a : addr) (s : synst) : option synst :=
  sc ← y_mem s !! a;
  let i := sc_bucketidx sc in
  _ ← tcp_syn_cache s !! i;
  let s := upd_head i (fun h => h <| sch_bucket := unlink a (sch_bucket h) |>) s in
  let s := upd_sc a (fun sc => sc <| sc_tp := None |>) s in
  let s := s <| t_sc := unlink a <$> t_sc s |> in
  let s := upd_head i (fun h => h <| sch_length := u16 (sch_length h - 1) |>) s in
  let s := upd_sc a (fun sc => sc <| sc_timer := callout_stop (sc_timer sc) |>) s in
  Some (s <| syn_cache_count := u64 (syn_cache_count s - 1) |>).

Definition syn_cache_put (a : addr) (s : synst) : synst :=
  upd_sc a (fun sc =>
    let sc := sc <| sc_route := rtcache_free (sc_route sc) |> in
    let sc := sc <| sc_flags := Z.lor (sc_flags sc) SCF_DEAD |> in
    if callout_invoking (sc_timer sc) then sc
    else sc <| sc_timer := callout_schedule (y_timer_hz e) (y_hz e) (sc_timer sc) 1 |>) s.

(** [pool_put(&syn_cache_pool, sc)] *)
Definition syn_cache_free (a : addr) (s : synst) : synst :=
  s <| y_mem := delete a (y_mem s) |> <| syn_cache_pool := pool_put (syn_cache_pool s) a |>.

Definition rm_put (a : addr) (s : synst) : option synst := s ← syn_cache_rm a s; Some (syn_cache_put a s).

(** ** Insertion *)

Definition bucket_empty (s : synst) (i : nat) : bool :=
  match tcp_syn_cache s !! i with Some h => bool_decide (sch_bucket h = []) | None => true end.

(** [for (++scp2; scp2 != scp; scp2++)]: the index of the bucket at which the
    loop stops; [i] is that of [scp2], [scp] that of the entry's bucket. *)
Fixpoint scan_buckets (fuel : nat) (scp i : nat) (s : synst) : option nat :=
  match fuel with
  | O => None
  | S fuel =>
      if (i =? scp)%nat then Some i
      else
        let i := if (TCP_SYN_HASH_SIZE <=? i)%nat then O else i in
        if bucket_empty s i then scan_buckets fuel scp (S i) s else Some i
  end.

(** The bucket from which an entry is tossed when the cache is full. *)
Definition overflow_bucket (scp : nat) (s : synst) : option nat :=
  if bucket_empty s scp then scan_buckets (2 * TCP_SYN_HASH_SIZE) scp (S scp) s else Some scp.

(** [TAILQ_FIRST] of a bucket is removed. *)
Definition toss (i : nat) (s : synst) : option synst :=
  h ← tcp_syn_cache s !! i; a ← head (sch_bucket h); rm_put a s.

Definition make_room (i : nat) (s : synst) : option synst :=
  h ← tcp_syn_cache s !! i;
  if tcp_syn_bucket_limit e <=? sch_length h then toss i s
  else if tcp_syn_cache_limit e <=? syn_cache_count s then j ← overflow_bucket i s; toss j s
  else Some s.

Definition syn_cache_insert (a : addr) (tp : Z) (s : synst) : option synst :=
  let s := if syn_cache_count s =? 0 then s <| syn_hash1 := y_random1 e |> <| syn_hash2 := y_random2 e |> else s in
  sc ← y_mem s !! a;
  let hash := syn_hash s (sc_src sc) (sc_dst sc) in
  let i := bucket_of hash in
  let s := upd_sc a (fun sc => sc <| sc_hash := hash |> <| sc_bucketidx := i |>) s in
  s ← make_room i s;
  let s := upd_sc a (fun sc => sc <| sc_rxttot := 0 |> <| sc_rxtshift := 0 |>) s in
  s ← SYN_CACHE_TIMER_ARM a s;
  let s := s <| t_sc := <[tp := a :: default [] (t_sc s !! tp)]> (t_sc s) |> in
  let s := upd_head i (fun h => h <| sch_bucket := sch_bucket h ++ [a] |> <| sch_length := u16 (sch_length h + 1) |>) s in
  Some (s <| syn_cache_count := u64 (syn_cache_count s + 1) |>).

(** ** The SYN,ACK *)

(** The initial sequence number: the code that computes it is compiled only
    with TCP_SIGNATURE, so the value of the variable is indeterminate. *)
Definition tcp_new_iss1 : tcp_seq := if y_compat_42 e then Z.land (y_iss e) 0x7fffffff else y_iss e.

Definition synack_optlen (sc : syn_cache) : Z :=
  4 + (if sc_request_r_scale sc =? 15 then 0 else 4) +
  (if flag_set (sc_flags sc) SCF_SACK_PERMIT then TCPOLEN_SACK_PERMITTED + 2 else 0) +
  (if flag_set (sc_flags sc) SCF_TIMESTAMP then TCPOLEN_TSTAMP_APPA else 0).

Definition synack_options (sc : syn_cache) : list Z :=
  [TCPOPT_MAXSEG; 4; Z.land (Z.shiftr (sc_ourmaxseg sc) 8) 255; Z.land (sc_ourmaxseg sc) 255] ++
  (if sc_request_r_scale sc =? 15 then []
   else be32 (Z.lor (Z.shiftl TCPOPT_NOP 24) (Z.lor (Z.shiftl TCPOPT_WINDOW 16)
                (Z.lor (Z.shiftl TCPOLEN_WINDOW 8) (sc_request_r_scale sc))))) ++
  (if flag_set (sc_flags sc) SCF_TIMESTAMP
   then be32 TCPOPT_TSTAMP_HDR ++ be32 (u32 (y_now e - sc_timebase sc)) ++ be32 (sc_timestamp sc) else []) ++
  (if flag_set (sc_flags sc) SCF_SACK_PERMIT then [TCPOPT_SACK_PERMITTED; 2; TCPOPT_NOP; TCPOPT_NOP] else []).

Definition synack_ecn (sc : syn_cache) : bool :=
  flag_set (sc_flags sc) SCF_ECN_PERMIT &&
  match sc_tp sc with
  | Some tp => SEQ_GEQ (fst (y_listener e tp)) (snd (y_listener e tp))
  | None => false
  end.

(** The bytes of the TCP header, with a checksum of 0, and of the options. *)
Definition synack_bytes (sc : syn_cache) : list Z :=
  le_bytes 2 (sin_port (sc_dst sc)) ++ le_bytes 2 (sin_port (sc_src sc)) ++
  be32 (sc_iss sc) ++ be32 (u32 (sc_irs sc + 1)) ++
  [Z.shiftl (Z.shiftr (20 + synack_optlen sc) 2) 4;
   Z.lor (Z.lor TH_SYN TH_ACK) (if synack_ecn sc then TH_ECE else 0)] ++
  be16 (u16 (sc_win sc)) ++ [0; 0] ++ [0; 0] ++ synack_options sc.

Definition synack (sc : syn_cache) : option opkt :=
  let tlen := 20 + 20 + synack_optlen sc in
  let hdr len ttl := mkIph (mkIp 0 (if synack_ecn sc then IPTOS_ECN_ECT0 else 0) len 0 0 IPPROTO_TCP
                              (sin_addr (sc_dst sc)) (sin_addr (sc_src sc))) 4 ttl 0 in
  let p := mkOpkt (hdr (tlen - 20) 0) [] (synack_bytes sc) 0 0 0 0 in
  sum ← in4_cksum [mkSegment 0 (p_bytes p) (p_pktlen p)] IPPROTO_TCP 20 (tlen - 20);
  p ← patch16 (20 + 16) (u16 sum) p;
  Some (p <| p_hdr := hdr tlen (y_defttl e) |>).

Definition syn_cache_respond (a : addr) (s : synst) : option (Z * synst) :=
  sc ← y_mem s !! a;
  let tlen := 20 + 20 + synack_optlen sc in
  if negb (y_mget e) || (MHLEN <? y_max_linkhdr e + tlen) then Some (ENOBUFS, s)
  else
    p ← synack sc;
    r ← ip_output (y_ip e) (y_ipg s) p (sc_ipopts sc) (Some (sc_route sc)) (if y_mtudisc e then IP_MTUDISC else 0) None;
    Some (r_error r, (upd_sc a (fun sc => sc <| sc_route := r_ro r |>) s) <| y_ipg := r_g r |> <| y_out := y_out s ++ r_out r |>).

(** ** Timers *)

(** The label [dropit]. *)
Definition syn_cache_dropit (a : addr) (s : synst) : option synst := s ← syn_cache_rm a s; Some (syn_cache_free a s).

Definition syn_cache_timer (a : addr) (s : synst) : option synst :=
  let s := upd_sc a (fun sc => sc <| sc_timer := callout_ack (sc_timer sc) |>) s in
  sc ← y_mem s !! a;
  if flag_set (sc_flags sc) SCF_DEAD then Some (syn_cache_free a s)
  else if sc_rxtshift sc =? TCP_MAXRXTSHIFT then syn_cache_dropit a s
  else
    let rxttot := u32 (sc_rxttot sc + sc_rxtcur sc) in
    let s := upd_sc a (fun sc => sc <| sc_rxttot := rxttot |>) s in
    if u32 (y_keepinit e) <=? rxttot then syn_cache_dropit a s
    else
      r ← syn_cache_respond a s;
      SYN_CACHE_TIMER_ARM a (upd_sc a (fun sc => sc <| sc_rxtshift := u16 (sc_rxtshift sc + 1) |>) r.2).

(** The DPDK timer of an entry expires: it leaves the pending list and the
    wrapper calls [syn_cache_timer]. *)
Definition syn_cache_expire (a : addr) (s : synst) : option synst :=
  sc ← y_mem s !! a;
  _ ← timer (sc_timer sc);
  let '(co, fn) := wrapper_func ((sc_timer sc) <| timer := None |>) in
  let s := upd_sc a (fun sc => sc <| sc_timer := co |>) s in
  match fn with
  | Some (f, Some arg) => if f =? y_timer_fn e then syn_cache_timer (Z.to_pos arg) s else None
  | _ => Some s
  end.

(** ** A listening control block goes away *)

Fixpoint cleanup_loop (l : list addr) (s : synst) : option synst :=
  match l with
  | [] => Some s
  | a :: l => s ← rm_put a s; cleanup_loop l s
  end.

Definition syn_cache_cleanup (tp : Z) (s : synst) : option synst :=
  s ← cleanup_loop (default [] (t_sc s !! tp)) s;
  Some (s <| t_sc := <[tp := []]> (t_sc s) |>).

(** ** Lookup *)

(** [None] inside is NULL. *)
Fixpoint lookup_loop (l : list addr) (hash : Z) (src dst : sockaddr_in) (s : synst) : option (option addr) :=
  match l with
  | [] => Some None
  | a :: l =>
      sc ← y_mem s !! a;
      if negb (sc_hash sc =? hash) then lookup_loop l hash src dst s
      else if bool_decide (sc_src sc = src) && bool_decide (sc_dst sc = dst) then Some (Some a)
      else lookup_loop l hash src dst s
  end.

Definition syn_cache_lookup (src dst : sockaddr_in) (s : synst) : option (option addr) :=
  let hash := syn_hash s src dst in
  h ← tcp_syn_cache s !! bucket_of hash;
  lookup_loop (sch_bucket h) hash src dst s.

Definition syn_cache_reset (src dst : sockaddr_in) (th : tcphdr) (s : synst) : option synst :=
  r ← syn_cache_lookup src dst s;
  match r with
  | None => Some s
  | Some a =>
      sc ← y_mem s !! a;
      if SEQ_LT (th_seq th) (sc_irs sc) || SEQ_GT (th_seq th) (sc_irs sc + 1) then Some s
      else rm_put a s
  end.

(** [seq] is [ntohl (th->th_seq)] of the segment the ICMP message quotes. *)
Definition syn_cache_unreach (src dst : sockaddr_in) (seq : tcp_seq) (s : synst) : option synst :=
  r ← syn_cache_lookup src dst s;
  match r with
  | None => Some s
  | Some a =>
      sc ← y_mem s !! a;
      if negb (seq =? sc_iss sc) then Some s
      else if negb (flag_set (sc_flags sc) SCF_UNREACH) || (sc_rxtshift sc <? 3)
      then Some (upd_sc a (fun sc => sc <| sc_flags := Z.lor (sc_flags sc) SCF_UNREACH |>) s)
      else rm_put a s
  end.

(** ** A SYN arrives *)

(** The smallest shift that scales the window up to [sb_max]. *)
Fixpoint scale_loop (fuel : nat) (r : Z) : Z :=
  match fuel with
  | O => r
  | S fuel => if (r <? TCP_MAX_WINSHIFT) && (Z.shiftl TCP_MAXWIN r <? y_sb_max e) then scale_loop fuel (r + 1) else r
  end.

(** The options of the SYN, read into the control block [tb] on the stack; [tb0]
    is what the stack held before. *)
Definition syn_options (tb0 : tcpcb) (g : sack_globals) (th : tcphdr) (optp : option (list Z)) (oi : tcp_opt_info)
    : option (sack_globals * tcpcb * tcp_opt_info) :=
  match optp with
  | Some cp =>
      let tb := tb0 <| t_flags := if y_rfc1323 e then Z.lor TF_REQ_SCALE TF_REQ_TSTMP else 0 |>
                    <| t_state := TCPS_LISTEN |> in
      tcp_dooptions (y_now e) (y_do_sack e) th g tb cp (Z.of_nat (length cp)) oi
  | None => Some (g, tb0 <| t_flags := 0 |>, oi)
  end.

Definition sc_zero : syn_cache :=
  mkSc callout_zero empty_route 0 0 0 0 0 (mkSin 0 0) (mkSin 0 0) 0 0 0 0 0 0 None 0 0 0 0 None.

Definition both (fl a b : Z) : bool := Z.land fl (Z.lor a b) =? Z.lor a b.

(** Both ends scale their windows. *)
Definition syn_scales (tb : tcpcb) : bool := both (t_flags tb) TF_RCVD_SCALE TF_REQ_SCALE.

Definition syn_flags (th : tcphdr) (tb : tcpcb) : Z :=
  let flags := 0 in
  let flags := if both (t_flags tb) TF_REQ_TSTMP TF_RCVD_TSTMP then Z.lor flags SCF_TIMESTAMP else flags in
  let flags := if flag_set (t_flags tb) TF_SACK_PERMIT && y_do_sack e then Z.lor flags SCF_SACK_PERMIT else flags in
  if flag_set (th_flags th) (Z.lor TH_ECE TH_CWR) && y_do_ecn e then Z.lor flags SCF_ECN_PERMIT else flags.

Definition sc_fill (src dst : sockaddr_in) (th : tcphdr) (tp : Z) (win : Z) (ipopts : option ipoption)
    (tb : tcpcb) (oi : tcp_opt_info) : syn_cache :=
  sc_zero <| sc_timer := callout_init callout_zero |> <| sc_src := src |> <| sc_dst := dst |>
          <| sc_ipopts := ipopts |> <| sc_irs := th_seq th |> <| sc_iss := tcp_new_iss1 |>
          <| sc_peermaxseg := u16 (maxseg oi) |> <| sc_ourmaxseg := u16 (y_mss e) |> <| sc_win := win |>
          <| sc_timebase := u32 (y_now e - 1) |> <| sc_timestamp := ts_recent tb |>
          <| sc_requested_s_scale := if syn_scales tb then requested_s_scale tb else 15 |>
          <| sc_request_r_scale := if syn_scales tb then scale_loop 14 0 else 15 |>
          <| sc_flags := syn_flags th tb |> <| sc_tp := Some tp |>.

(** The SYN,ACK of a new entry is sent; the entry is kept when that worked. *)
Definition syn_cache_answer (a : addr) (tp : Z) (s : synst) : option synst :=
  r ← syn_cache_respond a s;
  if r.1 =? 0 then syn_cache_insert a tp r.2
  else s ← SYN_CACHE_TIMER_ARM a r.2; Some (syn_cache_put a s).

(** [syn_cache_add]: the result, the state, and the holes and options that
    parsing changed.  [space] is that of the receive buffer of the listening
    socket, [ipopts] the result of [ip_srcroute]. *)
Definition syn_cache_add (src dst : sockaddr_in) (th : tcphdr) (tp : Z) (space : Z) (ipopts : option ipoption)
    (tb0 : tcpcb) (g : sack_globals) (optp : option (list Z)) (oi : tcp_opt_info) (s : synst)
    : option (Z * synst * sack_globals * tcp_opt_info) :=
  let win := if TCP_MAXWIN <? space then TCP_MAXWIN else space in
  r ← syn_options tb0 g th optp oi;
  let '(g, tb, oi) := r in
  found ← syn_cache_lookup src dst s;
  match found with
  | Some a =>
      let s := match ipopts with Some _ => upd_sc a (fun sc => sc <| sc_ipopts := ipopts |>) s | None => s end in
      let s := upd_sc a (fun sc => sc <| sc_timestamp := ts_recent tb |>) s in
      r ← syn_cache_respond a s;
      Some (1, r.2, g, oi)
  | None =>
      match pool_get (syn_cache_pool s) with
      | None => Some (0, s, g, oi)
      | Some (a, pl) =>
          let s := s <| syn_cache_pool := pl |> <| y_mem := <[a := sc_fill src dst th tp win ipopts tb oi]> (y_mem s) |> in
          s ← syn_cache_answer a tp s; Some (1, s, g, oi)
      end
  end.

(** ** The ACK arrives: the entry becomes a connection *)

(** [rtcache_copy] *)
Definition rtcache_copy (dup : bool) (new old : Ip.route) : Ip.route :=
  let rt := rtcache_validate old in
  match ro_sa old with
  | None => new
  | Some dst =>
      let '(ok, new) := rtcache_setdst dup new dst in
      if ok then new <| ro_invalid := false |> <| ro_rt := rt |> else new
  end.

(** What creating the socket and its control block gives. *)
Record getenv := mkGetenv {
  g_env : tenv;
  g_sonewconn : option conn;         (* sonewconn(so, SS_ISCONNECTED) *)
  g_srcroute : option ipoption;      (* ip_srcroute() *)
  g_mget : bool;                     (* an mbuf for the address of the peer *)
  g_pcbconnect : Z;                  (* in_pcbconnect *)
  g_template : bool;                 (* tcp_template *)
  g_oflags : Z;                      (* t_flags of the listening control block *)
  g_keepinit : Z                     (* t_keepinit *)
}.

#[export] Instance eta_getenv : EtaRecord getenv :=
  fun r => mkGetenv (g_env r) (g_sonewconn r) (g_srcroute r) (g_mget r) (g_pcbconnect r) (g_template r) (g_oflags r) (g_keepinit r).

(** The results: NULL, -1 after a SYN,ACK has been sent again, -1 with a RST
    (and the aborted socket), -1 after [tcp_drop], or the new connection with its
    IP options and its route. *)
Inductive getres :=
  | GetNull
  | GetAgain
  | GetReset (so : option conn)
  | GetDrop (so : conn)
  | GetConn (so : conn) (options : option ipoption) (ro : Ip.route).

(** The fields set before the template is made. *)
Definition accept_options (ge : getenv) (sc : syn_cache) (tp : tcpcb) : tcpcb :=
  let tp := tp <| t_flags := Z.land (g_oflags ge) TF_NODELAY |> in
  let tp := if sc_request_r_scale sc =? 15 then tp
            else or_flags (tp <| requested_s_scale := sc_requested_s_scale sc |> <| request_r_scale := sc_request_r_scale sc |>
                              <| snd_scale := sc_requested_s_scale sc |> <| rcv_scale := sc_request_r_scale sc |>)
                   (Z.lor TF_REQ_SCALE TF_RCVD_SCALE) in
  let tp := if flag_set (sc_flags sc) SCF_TIMESTAMP then or_flags tp (Z.lor TF_REQ_TSTMP TF_RCVD_TSTMP) else tp in
  tp <| ts_timebase := sc_timebase sc |>.

Definition tcp_sendseqinit (tp : tcpcb) : tcpcb :=
  tp <| snd_una := iss tp |> <| snd_nxt := iss tp |> <| snd_max := iss tp |> <| snd_up := iss tp |>
     <| snd_recover := iss tp |> <| snd_high := iss tp |>.

Definition tcp_rcvseqinit (tp : tcpcb) : tcpcb :=
  tp <| rcv_nxt := u32 (irs tp + 1) |> <| rcv_adv := u32 (irs tp + 1) |>.

(** The sequence numbers, the state and the options that the caches' flags grant. *)
Definition accept_state (ge : getenv) (sc : syn_cache) (tp : tcpcb) : tcpcb :=
  let env := g_env ge in
  let tp := tcp_rcvseqinit (tcp_sendseqinit (tp <| iss := sc_iss sc |> <| irs := sc_irs sc |>)) in
  let tp := arm env (tp <| t_state := TCPS_SYN_RECEIVED |>) TCPT_KEEP (g_keepinit ge) in
  let tp := if flag_set (sc_flags sc) SCF_SACK_PERMIT && TcpInput.tcp_do_sack env then or_flags tp TF_WILL_SACK else tp in
  let tp := if flag_set (sc_flags sc) SCF_ECN_PERMIT && TcpInput.tcp_do_ecn env then or_flags tp TF_ECN_PERMIT else tp in
  tp <| t_ourmss := sc_ourmaxseg sc |>.

(** What sending the SYN,ACK would have set. *)
Definition accept_sent (sc : syn_cache) (tp : tcpcb) : tcpcb :=
  tp <| snd_wl1 := sc_irs sc |> <| rcv_up := u32 (sc_irs sc + 1) |> <| snd_up := snd_una tp |>
     <| snd_max := u32 (iss tp + 1) |> <| snd_nxt := u32 (iss tp + 1) |>.

Definition accept_advertise (sc : syn_cache) (tp : tcpcb) : tcpcb :=
  let tp := if (0 <? sc_win sc) && SEQ_GT (rcv_nxt tp + sc_win sc) (rcv_adv tp)
            then tp <| rcv_adv := u32 (rcv_nxt tp + sc_win sc) |> else tp in
  tp <| last_ack_sent := rcv_nxt tp |> <| t_partialacks := -1 |> <| t_dupacks := 0 |>.

Definition accept_window (ge : getenv) (sc : syn_cache) (tp : tcpcb) : tcpcb :=
  let env := g_env ge in
  let ss := if e_faddr_local env then tcp_init_win_local env else tcp_init_win env in
  let tp := tp <| snd_cwnd := if sc_rxtshift sc =? 0 then TCP_INITIAL_WINDOW ss (t_peermss tp) else t_peermss tp |> in
  let tp := accept_sent sc (tcp_rmx_rtt env tp) in
  accept_advertise sc (arm env tp TCPT_REXMT (t_rxtcur tp)).

Definition accept_conn (ge : getenv) (sc : syn_cache) (c : conn) : conn :=
  let c := upd_tp c (accept_state ge sc) in
  let c := tcp_mss_from_peer (g_env ge) c (sc_peermaxseg sc) in
  upd_tp c (accept_window ge sc).

Definition syn_cache_get (ge : getenv) (src dst : sockaddr_in) (th : tcphdr) (s : synst) : option (getres * synst) :=
  r ← syn_cache_lookup src dst s;
  match r with
  | None => Some (GetNull, s)
  | Some a =>
      sc ← y_mem s !! a;
      if negb (th_ack th =? u32 (sc_iss sc + 1)) || SEQ_LEQ (th_seq th) (sc_irs sc) ||
         SEQ_GT (th_seq th) (sc_irs sc + 1 + sc_win sc)
      then r ← syn_cache_respond a s; Some (GetAgain, r.2)
      else
        s ← syn_cache_rm a s;
        match g_sonewconn ge with
        | None => Some (GetReset None, syn_cache_put a s)
        | Some c =>
            let options := match g_srcroute ge with Some o => Some o | None => sc_ipopts sc end in
            let s := match g_srcroute ge with
                     | Some _ => s
                     | None => upd_sc a (fun sc => sc <| sc_ipopts := None |>) s
                     end in
            let ro := rtcache_copy (e_dup (y_ip e)) empty_route (sc_route sc) in
            let s := upd_sc a (fun sc => sc <| sc_route := rtcache_free (sc_route sc) |>) s in
            if negb (g_mget ge) then Some (GetReset (Some c), syn_cache_put a s)
            else if negb (g_pcbconnect ge =? 0) then Some (GetReset (Some c), syn_cache_put a s)
            else
              let c := upd_tp c (accept_options ge sc) in
              if negb (g_template ge)
              then Some (GetDrop (drop_unsynchronized (g_env ge) c ENOBUFS), syn_cache_put a s)
              else Some (GetConn (accept_conn ge sc c) options ro, syn_cache_put a s)
        end
  end.
End syn_cache.

(** [syn_cache_init], with the number of objects of the pool. *)
Definition syn_cache_init (count : nat) (ipg : ipglobals) : synst :=
  mkSyn ∅ (pool_init count) (replicate TCP_SYN_HASH_SIZE (mkSch [] 0)) 0 0 0 ∅ ipg [].
