(* ===== verification/SynCacheSend.v ===== *)
(** * SYN,ACKs can be sent from every entry

    What [ip_output] needs of an entry (a consistent cached route, IP options
    of legal length) and of the identifications, and that every operation of
    the cache keeps it: [syn_cache_respond] never fails otherwise than with
    an error number. *)

From S2P Require Import Prelude Pool TcpSeq Callout Tcpcb TcpSack TcpTimer InCksum TcpOptions TcpReass TcpInput TcpOutput.
From S2P Require Import IpReass IpId Ip IpOutput IpTotal SynCache.

(** The largest SYN,ACK: two headers of 20 bytes, 24 bytes of TCP options and 40 of IP options. *)
Definition SYNACK_MAX : Z := 104.

Definition sendable_sc (sc : syn_cache) : Prop := route_ok SYNACK_MAX (sc_route sc) /\ opts_ok (sc_ipopts sc).

Definition mem_ok (g : ipglobals) (m : gmap addr syn_cache) : Prop := ids_ok (g_ids g) /\ map_Forall (fun _ => sendable_sc) m.

Definition sendable (s : synst) : Prop := mem_ok (y_ipg s) (y_mem s).

(** ** The SYN,ACK *)

Lemma length_be32 x : length (be32 x) = 4%nat.
Proof. done. Qed.

Lemma synack_total e sc : is_Some (synack e sc).
Proof.
  unfold synack.
  set (p := mkOpkt _ _ _ _ _ _ _).
  assert (38 <= p_pktlen p) as Hlen.
  { unfold p_pktlen, p_bytes, p, synack_bytes, synack_options. cbn [p_hdr p_opts p_payload]. rewrite !length_app, length_ip_encode, !length_le_bytes, !length_be32. unfold be16. cbn [length]. lia. }
  unfold in4_cksum. change (IPPROTO_TCP =? 0) with false. change (20 <? 20) with false. cbv iota.
  destruct (Z.ltb_spec (seg_len (mkSegment 0 (p_bytes p) (p_pktlen p))) 20) as [Hlt|_]; [cbn [seg_len] in Hlt; lia|].
  cbn [mbind option_bind]. unfold patch16. destruct (Z.leb_spec ip_size (20 + 16)); [|lia]. destruct (Z.leb_spec (20 + 16 + 2) (p_pktlen p)); [|lia].
  cbn [andb mbind option_bind]. by eexists.
Qed.

Lemma synack_optlen_range sc : 4 <= synack_optlen sc <= 24.
Proof.
  unfold synack_optlen, TCPOLEN_SACK_PERMITTED, TCPOLEN_TSTAMP_APPA.
  destruct (sc_request_r_scale sc =? 15), (flag_set (sc_flags sc) SCF_SACK_PERMIT), (flag_set (sc_flags sc) SCF_TIMESTAMP); lia.
Qed.

Lemma patch16_csum off v p q : patch16 off v p = Some q -> p_csum_flags q = p_csum_flags p.
Proof. unfold patch16. destruct (_ && _); [|done]. by intros [= <-]. Qed.

Lemma synack_size e sc p : synack e sc = Some p -> p_csum_flags p = 0 /\ ip_len (p_ip p) = 40 + synack_optlen sc.
Proof.
  unfold synack. set (p0 := mkOpkt _ _ _ _ _ _ _). assert (p_csum_flags p0 = 0) as E0 by done. clearbody p0.
  destruct (in4_cksum _ _ _ _) as [sum|]; [|done]. cbn [mbind option_bind].
  destruct (patch16 (20 + 16) (u16 sum) p0) as [q|] eqn:Eq; [|done]. cbn [mbind option_bind]. apply patch16_csum in Eq. rewrite E0 in Eq.
  intros [= <-]. upd_simpl. split; [done|]. unfold p_ip. upd_simpl. cbn [iph ip_len]. lia.
Qed.

(** ** Changes of the store *)

Lemma mem_ok_alter g m a f : (forall sc, sendable_sc sc -> sendable_sc (f sc)) -> mem_ok g m -> mem_ok g (alter f a m).
Proof.
  intros Hf [K M]. split; [done|]. intros b sc Hb. apply lookup_alter_Some in Hb as [(<- & sc0 & E & ->)|[_ E]]; [apply Hf|]; by eapply M.
Qed.

Lemma sendable_upd a f s : (forall sc, sendable_sc sc -> sendable_sc (f sc)) -> sendable s -> sendable (upd_sc a f s).
Proof. apply mem_ok_alter. Qed.

Lemma sendable_insert a sc s pl : sendable_sc sc -> sendable s -> sendable (s <| syn_cache_pool := pl |> <| y_mem := <[a := sc]> (y_mem s) |>).
Proof. intros Hs [K M]. split; [done|]. by apply map_Forall_insert_2. Qed.

Lemma sendable_free a s : sendable s -> sendable (syn_cache_free a s).
Proof. intros [K M]. split; [done|]. simpl. by apply map_Forall_delete. Qed.

Lemma sendable_put e a s : sendable s -> sendable (syn_cache_put e a s).
Proof. apply sendable_upd. intros sc [R O]. cbv zeta. case_match; (split; upd_simpl; [apply rtcache_free_ok|done]). Qed.

Lemma sendable_rm a s s' : sendable s -> syn_cache_rm a s = Some s' -> sendable s'.
Proof.
  intros D. unfold syn_cache_rm. destruct (y_mem s !! a) as [sc|]; [|done]. cbn [mbind option_bind]. destruct (tcp_syn_cache s !! _) as [h|]; [|done].
  cbn [mbind option_bind]. intros [= <-]. unfold sendable, upd_sc, upd_head. simpl. apply mem_ok_alter; [done|]. by apply mem_ok_alter.
Qed.

Lemma sendable_rm_put e a s s' : sendable s -> rm_put e a s = Some s' -> sendable s'.
Proof.
  intros D. unfold rm_put. destruct (syn_cache_rm a s) as [s1|] eqn:E; [|done]. cbn [mbind option_bind]. intros [= <-].
  apply sendable_put. by eapply sendable_rm.
Qed.

Lemma sendable_dropit a s s' : sendable s -> syn_cache_dropit a s = Some s' -> sendable s'.
Proof.
  intros D. unfold syn_cache_dropit. destruct (syn_cache_rm a s) as [s1|] eqn:E; [|done]. cbn [mbind option_bind]. intros [= <-].
  apply sendable_free. by eapply sendable_rm.
Qed.

Lemma sendable_arm e a s s' : sendable s -> SYN_CACHE_TIMER_ARM e a s = Some s' -> sendable s'.
Proof.
  intros D. unfold SYN_CACHE_TIMER_ARM. destruct (y_mem s !! a) as [sc|]; [|done]. cbn [mbind option_bind]. destruct (tcp_backoff !! _); [|done].
  cbn [mbind option_bind]. intros [= <-]. by apply sendable_upd.
Qed.

Lemma sendable_room e i s s' : sendable s -> make_room e i s = Some s' -> sendable s'.
Proof.
  intros D. assert (forall j, toss e j s = Some s' -> sendable s') as T.
  { intros j. unfold toss. destruct (tcp_syn_cache s !! j) as [h|]; [|done]. cbn [mbind option_bind]. destruct (head (sch_bucket h)) as [a|]; [|done].
    cbn [mbind option_bind]. by apply sendable_rm_put. }
  unfold make_room. destruct (tcp_syn_cache s !! i) as [h|]; [|done]. cbn [mbind option_bind]. destruct (_ <=? _); [apply T|].
  destruct (_ <=? _); [|by intros [= <-]]. destruct (overflow_bucket i s) as [j|]; [|done]. apply T.
Qed.

Lemma sendable_table e a tp s s' : sendable s -> syn_cache_insert e a tp s = Some s' -> sendable s'.
Proof.
  intros D. unfold syn_cache_insert. set (s0 := if syn_cache_count s =? 0 then _ else s). assert (sendable s0) as D0 by (unfold s0; by destruct (_ =? 0)). clearbody s0.
  destruct (y_mem s0 !! a) as [sc|]; [|done]. cbn [mbind option_bind]. set (s1 := upd_sc a _ s0). assert (sendable s1) as D1 by (by apply sendable_upd). clearbody s1.
  destruct (make_room e _ s1) as [s2|] eqn:E2; [|done]. cbn [mbind option_bind]. apply (sendable_room _ _ _ _ D1) in E2.
  set (s3 := upd_sc a _ s2). assert (sendable s3) as D3 by (by apply sendable_upd). clearbody s3.
  destruct (SYN_CACHE_TIMER_ARM e a s3) as [s4|] eqn:E4; [|done]. cbn [mbind option_bind]. apply (sendable_arm _ _ _ _ D3) in E4. by intros [= <-].
Qed.

Section send.
Variable e : synenv.
Hypothesis (net : net_ok SYNACK_MAX (y_ip e)).

(** A SYN,ACK is sent, or an error comes back. *)
Lemma respond_total a s : sendable s -> is_Some (y_mem s !! a) -> exists r, syn_cache_respond e a s = Some r /\ sendable r.2.
Proof using net.
  intros [K M] [sc Es]. unfold syn_cache_respond. rewrite Es. cbn [mbind option_bind]. destruct (negb (y_mget e) || _); [by eexists|].
  destruct (synack_total e sc) as [p Ep]. rewrite Ep. cbn [mbind option_bind]. destruct (synack_size e sc p Ep) as [Pc Pl].
  pose proof (synack_optlen_range sc). destruct (M a sc Es) as [R O].
  destruct (ip_output_total SYNACK_MAX (y_ip e) net (y_ipg s) p (sc_ipopts sc) (sc_route sc) (if y_mtudisc e then IP_MTUDISC else 0)) as (r & -> & R' & K');
    try done; [by destruct (y_mtudisc e)|lia|unfold SYNACK_MAX; lia|].
  cbn [mbind option_bind]. eexists. split; [reflexivity|]. cbn [snd]. destruct (mem_ok_alter (r_g r) (y_mem s) a (fun sc => sc <| sc_route := r_ro r |>)) as [? ?]; [|by split|by split].
  intros sc' [_ O']. split; [done|done].
Qed.

Lemma sendable_respond a s r : sendable s -> syn_cache_respond e a s = Some r -> sendable r.2.
Proof using net.
  intros D E. destruct (y_mem s !! a) as [sc|] eqn:Es; [|unfold syn_cache_respond in E; by rewrite Es in E].
  destruct (respond_total a s D) as (r' & E' & D'); [by eexists|]. congruence.
Qed.

Lemma sendable_timer a s s' : sendable s -> syn_cache_timer e a s = Some s' -> sendable s'.
Proof using net.
  intros D. unfold syn_cache_timer. set (s1 := upd_sc a _ s). assert (sendable s1) as D1 by (by apply sendable_upd). clearbody s1.
  destruct (y_mem s1 !! a) as [sc|]; [|done]. cbn [mbind option_bind]. destruct (flag_set _ _); [intros [= <-]; by apply sendable_free|].
  destruct (_ =? _); [by apply sendable_dropit|]. set (s2 := upd_sc a _ s1). assert (sendable s2) as D2 by (by apply sendable_upd). clearbody s2.
  destruct (_ <=? _); [by apply sendable_dropit|]. destruct (syn_cache_respond e a s2) as [r|] eqn:Er; [|done]. cbn [mbind option_bind].
  apply sendable_arm, sendable_upd; [done|]. by eapply sendable_respond.
Qed.

Lemma sendable_expire a s s' : sendable s -> syn_cache_expire e a s = Some s' -> sendable s'.
Proof using net.
  intros D. unfold syn_cache_expire. destruct (y_mem s !! a) as [sc|]; [|done]. cbn [mbind option_bind]. destruct (timer (sc_timer sc)); [|done]. cbn [mbind option_bind].
  destruct (wrapper_func _) as [co fn]. set (s1 := upd_sc a _ s). assert (sendable s1) as D1 by (by apply sendable_upd). clearbody s1.
  repeat case_match; try done; [by apply sendable_timer|by intros [= <-]..].
Qed.

Lemma sendable_cleanup tp s s' : sendable s -> syn_cache_cleanup e tp s = Some s' -> sendable s'.
Proof using.
  unfold syn_cache_cleanup. generalize (default [] (t_sc s !! tp)). intros l. revert s. induction l as [|a l IH]; intros s D.
  - cbn [cleanup_loop mbind option_bind]. by intros [= <-].
  - cbn [cleanup_loop]. destruct (rm_put e a s) as [s1|] eqn:E; [|done]. cbn [mbind option_bind]. apply IH. by eapply sendable_rm_put.
Qed.

Lemma sendable_reset src dst th s s' : sendable s -> syn_cache_reset e src dst th s = Some s' -> sendable s'.
Proof using.
  intros D. unfold syn_cache_reset. destruct (syn_cache_lookup src dst s) as [[a|]|]; [| |done]; cbn [mbind option_bind]; [|by intros [= <-]].
  destruct (y_mem s !! a); [|done]. cbn [mbind option_bind]. destruct (_ || _); [by intros [= <-]|]. by apply sendable_rm_put.
Qed.

Lemma sendable_unreach src dst seq s s' : sendable s -> syn_cache_unreach e src dst seq s = Some s' -> sendable s'.
Proof using.
  intros D. unfold syn_cache_unreach. destruct (syn_cache_lookup src dst s) as [[a|]|]; [| |done]; cbn [mbind option_bind]; [|by intros [= <-]].
  destruct (y_mem s !! a); [|done]. cbn [mbind option_bind]. destruct (negb _); [by intros [= <-]|].
  destruct (_ || _); [intros [= <-]; by apply sendable_upd|]. by apply sendable_rm_put.
Qed.

Lemma sc_fill_sendable src dst th tp win ipopts tb oi : opts_ok ipopts -> sendable_sc (sc_fill e src dst th tp win ipopts tb oi).
Proof using. intros O. split; [exact (empty_route_ok SYNACK_MAX)|exact O]. Qed.

Lemma sendable_answer a tp s s' : sendable s -> syn_cache_answer e a tp s = Some s' -> sendable s'.
Proof using net.
  intros D. unfold syn_cache_answer. destruct (syn_cache_respond e a s) as [r|] eqn:Er; [|done]. cbn [mbind option_bind]. apply (sendable_respond _ _ _ D) in Er.
  destruct (_ =? 0); [by apply sendable_table|]. destruct (SYN_CACHE_TIMER_ARM e a r.2) as [s1|] eqn:E1; [|done]. cbn [mbind option_bind].
  intros [= <-]. apply sendable_put. by eapply sendable_arm.
Qed.

Lemma sendable_add src dst th tp space ipopts tb0 g optp oi s ret s' g' oi' : opts_ok ipopts -> sendable s ->
  syn_cache_add e src dst th tp space ipopts tb0 g optp oi s = Some (ret, s', g', oi') -> sendable s'.
Proof using net.
  intros O D. unfold syn_cache_add. generalize (if TCP_MAXWIN <? space then TCP_MAXWIN else space). intros win.
  destruct (syn_options e tb0 g th optp oi) as [[[g1 tb] oi1]|]; [|done]. cbn [mbind option_bind].
  destruct (syn_cache_lookup src dst s) as [[a|]|]; [| |done]; cbn [mbind option_bind].
  - set (s1 := match ipopts with Some _ => _ | None => s end).
    assert (sendable s1) as D1 by (unfold s1; destruct ipopts; [apply sendable_upd; [|done]; by intros sc [? _]|done]). clearbody s1.
    destruct (syn_cache_respond e a _) as [r|] eqn:Er; [|done]. cbn [mbind option_bind]. intros E. injection E as _ <- _ _.
    eapply sendable_respond; [|done]. by apply sendable_upd.
  - destruct (pool_get (syn_cache_pool s)) as [[a pl]|]; [|intros E; by injection E as _ <- _ _].
    pose proof (sendable_insert a _ s pl (sc_fill_sendable src dst th tp win ipopts tb oi1 O) D) as D1. revert D1.
    generalize (sc_fill e src dst th tp win ipopts tb oi1). intros sc D1.
    destruct (syn_cache_answer e a tp _) as [s2|] eqn:E2; [|done]. cbn [mbind option_bind]. intros E. injection E as _ <- _ _. by eapply sendable_answer.
Qed.

Lemma sendable_get ge src dst th s r s' : sendable s -> syn_cache_get e ge src dst th s = Some (r, s') -> sendable s'.
Proof using net.
  intros D. unfold syn_cache_get. destruct (syn_cache_lookup src dst s) as [[a|]|]; [| |done]; cbn [mbind option_bind]; [|by intros [= _ <-]].
  destruct (y_mem s !! a) as [sc|]; [|done]. cbn [mbind option_bind]. destruct (_ || _ || _).
  { destruct (syn_cache_respond e a s) as [[err s1]|] eqn:Er; [|done]. cbn [mbind option_bind snd]. intros [= _ <-]. exact (sendable_respond _ _ _ D Er). }
  destruct (syn_cache_rm a s) as [s1|] eqn:E1; [|done]. cbn [mbind option_bind]. apply (sendable_rm _ _ _ D) in E1.
  destruct (g_sonewconn ge) as [c|]; [|intros [= _ <-]; by apply sendable_put].
  set (s2 := match g_srcroute ge with Some _ => s1 | None => _ end).
  assert (sendable s2) as D2 by (unfold s2; destruct (g_srcroute ge); [done|apply sendable_upd; [|done]; by intros sc' [? _]]). clearbody s2.
  set (s3 := upd_sc a _ s2). assert (sendable s3) as D3 by (apply sendable_upd; [|done]; intros sc' [_ O]; split; [apply rtcache_free_ok|done]). clearbody s3.
  repeat case_match; intros E; injection E as _ <-; by apply sendable_put.
Qed.
End send.
