(* ===== verification/SynCacheFacts.v ===== *)
(** * The SYN cache keeps its table

    Every entry taken from the pool is in exactly one of three places: in the
    bucket its key hashes to and in the list of its listening control block,
    or dead and waiting for the timer that frees it, or in the hands of the
    routine that is running.  The theorem at the end is for any sequence of events. *)

From S2P Require Import Prelude Pool TcpSeq Callout Tcpcb TcpSack TcpTimer InCksum TcpOptions TcpReass TcpInput TcpOutput.
From S2P Require Import IpReass IpId Ip IpOutput IpTotal SynCache SynCacheSend.

(** The number of entries in a table. *)
Definition sumlen (t : list syn_cache_head) : nat := foldr (fun h n => (length (sch_bucket h) + n)%nat) O t.

Definition linked (s : synst) (a : addr) : Prop := exists i h, tcp_syn_cache s !! i = Some h /\ a ∈ sch_bucket h.

Definition dead (sc : syn_cache) : bool := flag_set (sc_flags sc) SCF_DEAD.

(** The callout calls [syn_cache_timer] on the entry, and is not running. *)
Definition calls (fn : Z) (a : addr) (sc : syn_cache) : Prop :=
  c_func (sc_timer sc) = Some fn /\ c_arg (sc_timer sc) = Some (Z.pos a) /\ callout_invoking (sc_timer sc) = false.

Definition armed (fn : Z) (a : addr) (sc : syn_cache) : Prop := is_Some (timer (sc_timer sc)) /\ calls fn a sc.

(** An entry of the table. *)
Record live (fn : Z) (s : synst) (a : addr) (sc : syn_cache) : Prop := {
  live_hash : sc_hash sc = syn_hash s (sc_src sc) (sc_dst sc);
  live_idx : sc_bucketidx sc = bucket_of (sc_hash sc);
  live_dead : dead sc = false;
  live_tp : exists tp l, sc_tp sc = Some tp /\ t_sc s !! tp = Some l /\ a ∈ l;
  live_shift : 0 <= sc_rxtshift sc <= TCP_MAXRXTSHIFT;
  live_armed : armed fn a sc
}.

Lemma upd_sc_lookup a f s : y_mem (upd_sc a f s) !! a = f <$> y_mem s !! a.
Proof. apply lookup_alter_eq. Qed.

Lemma upd_sc_lookup_ne a b f s : b <> a -> y_mem (upd_sc a f s) !! b = y_mem s !! b.
Proof. intros N. by apply lookup_alter_ne. Qed.

(** ** Lists and tables *)

Lemma elem_of_unlink a b l : b ∈ unlink a l <-> b ∈ l /\ b <> a.
Proof. unfold unlink. rewrite list_elem_of_filter. tauto. Qed.

Lemma unlink_notin a l : a ∉ l -> unlink a l = l.
Proof.
  unfold unlink. induction l as [|b l IH]; intros N; [done|]. apply not_elem_of_cons in N as [N1 N2].
  rewrite filter_cons_True by congruence. by rewrite IH.
Qed.

Lemma length_unlink a l : NoDup l -> a ∈ l -> S (length (unlink a l)) = length l.
Proof.
  unfold unlink. induction 1 as [|b l N D IH]; intros E; [by apply elem_of_nil in E|].
  destruct (decide (b = a)) as [->|Hn].
  - rewrite filter_cons_False by (intros ?; done). simpl. f_equal. f_equal. by apply unlink_notin.
  - rewrite filter_cons_True by done. simpl. f_equal. apply IH. by apply elem_of_cons in E as [->|].
Qed.

Lemma NoDup_unlink a l : NoDup l -> NoDup (unlink a l).
Proof. apply NoDup_filter. Qed.

Lemma sumlen_alter t i h f : t !! i = Some h ->
  (sumlen (alter f i t) + length (sch_bucket h) = sumlen t + length (sch_bucket (f h)))%nat.
Proof.
  revert i. induction t as [|x t IH]; intros [|i] E; try done; simpl in E.
  - injection E as ->. cbn. lia.
  - specialize (IH _ E). change (alter f (S i) (x :: t)) with (x :: alter f i t). cbn [sumlen foldr] in *. unfold sumlen in *. lia.
Qed.

Lemma sumlen_ge t i h : t !! i = Some h -> (length (sch_bucket h) <= sumlen t)%nat.
Proof.
  revert i. induction t as [|x t IH]; intros [|i] E; try done; simpl in E.
  - injection E as ->. cbn. lia.
  - specialize (IH _ E). cbn [sumlen foldr]. unfold sumlen in *. lia.
Qed.

Section inv.
(** The limits, the address of [syn_cache_timer] and the objects of the pool. *)
Variables (bl cl fn : Z) (objs : list addr).

(** [L] are the entries in the hands of the running routine. *)
Record syn_inv (L : list addr) (s : synst) : Prop := {
  i_len : length (tcp_syn_cache s) = TCP_SYN_HASH_SIZE;
  i_length : forall i h, tcp_syn_cache s !! i = Some h -> sch_length h = Z.of_nat (length (sch_bucket h)) /\ sch_length h <= bl /\ NoDup (sch_bucket h);
  i_live : forall i h a, tcp_syn_cache s !! i = Some h -> a ∈ sch_bucket h ->
    exists sc, y_mem s !! a = Some sc /\ sc_bucketidx sc = i /\ live fn s a sc;
  i_count : syn_cache_count s = Z.of_nat (sumlen (tcp_syn_cache s)) /\ syn_cache_count s <= cl;
  i_mem : forall a sc, y_mem s !! a = Some sc -> linked s a \/ a ∈ L \/ dead sc = true /\ armed fn a sc;
  i_keys : forall a b sca scb, linked s a -> linked s b -> y_mem s !! a = Some sca -> y_mem s !! b = Some scb ->
    sc_src sca = sc_src scb -> sc_dst sca = sc_dst scb -> a = b;
  i_tsc : forall tp l, t_sc s !! tp = Some l -> NoDup l /\
    forall a, a ∈ l -> linked s a /\ exists sc, y_mem s !! a = Some sc /\ sc_tp sc = Some tp;
  i_pool : mempool (syn_cache_pool s) ++ elements (dom (y_mem s)) ≡ₚ objs;
  i_limbo : forall a, a ∈ L -> is_Some (y_mem s !! a) /\ ~ linked s a
}.

(** The secrets, addresses and lists that the invariant reads. *)
Lemma syn_inv_ext L s g out : syn_inv L s -> syn_inv L (s <| y_ipg := g |> <| y_out := out |>).
Proof.
  intros [I1 I2 I3 I4 I5 I6 I7 I8 I9]. split; try done.
  intros i h a Hi Ha. destruct (I3 i h a Hi Ha) as (sc & ? & ? & []). exists sc. split; [done|]. split; [done|]. by split.
Qed.

Lemma linked_live s L a : syn_inv L s -> linked s a ->
  exists sc h, y_mem s !! a = Some sc /\ tcp_syn_cache s !! sc_bucketidx sc = Some h /\ a ∈ sch_bucket h /\ live fn s a sc.
Proof. intros I (i & h & Hi & Ha). destruct (i_live _ _ I _ _ _ Hi Ha) as (sc & Hs & <- & Hl). by exists sc, h. Qed.

(** ** Changing an entry *)

Record same_place (a : addr) (sc sc' : syn_cache) : Prop := {
  sp_src : sc_src sc' = sc_src sc;
  sp_dst : sc_dst sc' = sc_dst sc;
  sp_hash : sc_hash sc' = sc_hash sc;
  sp_idx : sc_bucketidx sc' = sc_bucketidx sc;
  sp_dead : dead sc' = dead sc;
  sp_tp : sc_tp sc' = sc_tp sc;
  sp_shift : 0 <= sc_rxtshift sc <= TCP_MAXRXTSHIFT -> 0 <= sc_rxtshift sc' <= TCP_MAXRXTSHIFT;
  sp_armed : armed fn a sc -> armed fn a sc'
}.

Lemma live_same_place s s' a sc sc' : syn_hash1 s' = syn_hash1 s -> syn_hash2 s' = syn_hash2 s -> t_sc s' = t_sc s ->
  same_place a sc sc' -> live fn s a sc -> live fn s' a sc'.
Proof.
  intros E1 E2 E3 [] []. split; auto; unfold syn_hash in *; rewrite ?E1, ?E2, ?E3, ?sp_src0, ?sp_dst0, ?sp_tp0; congruence.
Qed.

Lemma dom_upd_sc a f s : dom (y_mem (upd_sc a f s)) = dom (y_mem s).
Proof. apply dom_alter_L. Qed.

Lemma upd_sc_inv L a f s : syn_inv L s -> (forall sc, y_mem s !! a = Some sc -> same_place a sc (f sc)) -> syn_inv L (upd_sc a f s).
Proof.
  intros I Hf.
  assert (forall b sc', y_mem (upd_sc a f s) !! b = Some sc' -> exists sc, y_mem s !! b = Some sc /\ same_place b sc sc') as Hinv.
  { intros b sc' Hb. unfold upd_sc in Hb. simpl in Hb. apply lookup_alter_Some in Hb as [(<- & sc & Hs & ->)|[Hn Hs]]; [eauto|].
    exists sc'. split; [done|]. by split. }
  assert (forall b sc, y_mem s !! b = Some sc -> exists sc', y_mem (upd_sc a f s) !! b = Some sc' /\ same_place b sc sc') as Hfwd.
  { intros b sc Hb. destruct (decide (b = a)) as [->|Hn].
    - exists (f sc). split; [|auto]. unfold upd_sc. simpl. rewrite lookup_alter_eq, Hb. done.
    - exists sc. split; [|by split]. unfold upd_sc. simpl. by rewrite lookup_alter_ne. }
  destruct I as [I1 I2 I3 I4 I5 I6 I7 I8 I9].
  split; try done.
  - intros i h b Hi Hb. destruct (I3 i h b Hi Hb) as (sc & Hs & E & Hl). destruct (Hfwd _ _ Hs) as (sc' & Hs' & P).
    exists sc'. split; [done|]. split; [by rewrite (sp_idx _ _ _ P)|].
    by apply (live_same_place s (upd_sc a f s) b sc).
  - intros b sc' Hb. destruct (Hinv _ _ Hb) as (sc & Hs & P). destruct (I5 _ _ Hs) as [?|[?|[? ?]]]; [by left|by right; left|].
    right. right. rewrite (sp_dead _ _ _ P). split; [done|]. by apply (sp_armed _ _ _ P).
  - intros b c scb scc Hb Hc Eb Ec E1 E2. destruct (Hinv _ _ Eb) as (sb & Hsb & Pb). destruct (Hinv _ _ Ec) as (sc & Hsc & Pc).
    eapply (I6 b c sb sc); try done. + by rewrite <- (sp_src _ _ _ Pb), <- (sp_src _ _ _ Pc). + by rewrite <- (sp_dst _ _ _ Pb), <- (sp_dst _ _ _ Pc).
  - intros tp l Hl. destruct (I7 tp l Hl) as [N K]. split; [done|]. intros b Hb. destruct (K b Hb) as (? & sc & Hs & E).
    split; [done|]. destruct (Hfwd _ _ Hs) as (sc' & Hs' & P). exists sc'. split; [done|]. by rewrite (sp_tp _ _ _ P).
  - by rewrite dom_upd_sc.
  - intros b Hb. destruct (I9 b Hb) as [[sc Hs] ?]. split; [|done]. destruct (Hfwd _ _ Hs) as (sc' & ? & _). by eexists.
Qed.

Lemma upd_limbo_inv L a f s : syn_inv L s -> a ∈ L -> syn_inv L (upd_sc a f s).
Proof.
  intros I Ha. assert (forall b, linked s b -> y_mem (upd_sc a f s) !! b = y_mem s !! b) as Hsame.
  { intros b Hb. unfold upd_sc; simpl. rewrite lookup_alter_ne; [done|]. intros ->. by destruct (i_limbo _ _ I _ Ha). }
  destruct I as [I1 I2 I3 I4 I5 I6 I7 I8 I9]. split; try done.
  - intros i h b Hi Hb. destruct (I3 i h b Hi Hb) as (sc & Hs & E & Hl). exists sc. rewrite Hsame by (by exists i, h). split; [done|]. split; [done|].
    destruct Hl. by split.
  - intros b sc Hb. destruct (decide (b = a)) as [->|Hn]; [by right; left|]. unfold upd_sc in Hb; simpl in Hb. rewrite lookup_alter_ne in Hb by done. eauto.
  - intros b c scb scc Hb Hc Eb Ec. rewrite Hsame in Eb, Ec by done. eauto.
  - intros tp l Hl. destruct (I7 tp l Hl) as [N K]. split; [done|]. intros b Hb. destruct (K b Hb) as (Hk & sc & Hs & E).
    split; [done|]. exists sc. by rewrite Hsame.
  - by rewrite dom_upd_sc.
  - intros b Hb. destruct (I9 b Hb) as [[sc Hs] ?]. split; [|done]. unfold upd_sc; simpl. rewrite lookup_alter_is_Some. by eexists.
Qed.
(** ** Removal *)

(** The state [syn_cache_rm] leaves behind. *)
Definition removed (a : addr) (i : nat) (s : synst) : synst :=
  mkSyn (alter (fun sc => sc <| sc_tp := None |> <| sc_timer := callout_stop (sc_timer sc) |>) a (y_mem s)) (syn_cache_pool s)
    (alter (fun h => mkSch (unlink a (sch_bucket h)) (u16 (sch_length h - 1))) i (tcp_syn_cache s))
    (u64 (syn_cache_count s - 1)) (syn_hash1 s) (syn_hash2 s) (unlink a <$> t_sc s) (y_ipg s) (y_out s).

Lemma syn_cache_rm_eq a s sc h : y_mem s !! a = Some sc -> tcp_syn_cache s !! sc_bucketidx sc = Some h ->
  syn_cache_rm a s = Some (removed a (sc_bucketidx sc) s).
Proof.
  intros E1 E2. unfold syn_cache_rm. rewrite E1. cbn [mbind option_bind]. rewrite E2. cbn [mbind option_bind]. f_equal.
  unfold removed, upd_sc, upd_head. simpl. rewrite alter_alter_eq, list_alter_alter_eq. reflexivity.
Qed.
Hypothesis (bl_range : 0 < bl < 2 ^ 16) (cl_range : 0 < cl < 2 ^ 63).

Lemma removed_linked L a s sc b : syn_inv L s -> linked s a -> y_mem s !! a = Some sc ->
  linked (removed a (sc_bucketidx sc) s) b <-> linked s b /\ b <> a.
Proof using.
  intros I La Es. split.
  - intros (i & h & Hi & Hb). unfold removed in Hi; simpl in Hi. rewrite list_lookup_alter in Hi. destruct (decide (sc_bucketidx sc = i)) as [<-|Hn];
      [apply fmap_Some in Hi as (h0 & Hi & ->)|].
    + simpl in Hb. apply elem_of_unlink in Hb as [Hb Hn]. split; [by exists (sc_bucketidx sc), h0|done].
    + split; [by exists i, h|]. intros ->. destruct (i_live _ _ I _ _ _ Hi Hb) as (sc1 & E1 & E2 & _). congruence.
  - intros [(i & h & Hi & Hb) Hn]. destruct (decide (i = sc_bucketidx sc)) as [->|Hne].
    + exists (sc_bucketidx sc), (mkSch (unlink a (sch_bucket h)) (u16 (sch_length h - 1))). simpl. rewrite list_lookup_alter, Hi, decide_True by done. split; [done|].
      simpl. by apply elem_of_unlink.
    + exists i, h. split; [|done]. simpl. rewrite list_lookup_alter. destruct decide; [congruence|]. done.
Qed.
Lemma removed_mem_ne a i s b : b <> a -> y_mem (removed a i s) !! b = y_mem s !! b.
Proof using. intros N. simpl. by rewrite lookup_alter_ne. Qed.

Lemma removed_length L a s sc i h : syn_inv L s -> linked s a -> y_mem s !! a = Some sc ->
  tcp_syn_cache (removed a (sc_bucketidx sc) s) !! i = Some h ->
  sch_length h = Z.of_nat (length (sch_bucket h)) /\ sch_length h <= bl /\ NoDup (sch_bucket h).
Proof using bl_range.
  intros I La Es Hi. simpl in Hi. rewrite list_lookup_alter in Hi. destruct (decide (sc_bucketidx sc = i)) as [<-|Hn]; [|by apply (i_length _ _ I i)].
  apply fmap_Some in Hi as (h0 & Hi & ->). destruct (i_length _ _ I _ _ Hi) as (E & Hle & N). cbn [sch_length sch_bucket].
  destruct (linked_live _ _ _ I La) as (sc1 & h1 & E1 & E2 & Ha & _). assert (sc1 = sc) as -> by congruence. assert (h1 = h0) as -> by congruence.
  pose proof (length_unlink a _ N Ha) as E3. split; [|split; [|by apply NoDup_unlink]].
  - rewrite E, u16_small; lia.
  - rewrite E, u16_small; lia.
Qed.

Lemma removed_inv L a s sc : syn_inv L s -> linked s a -> y_mem s !! a = Some sc -> syn_inv (a :: L) (removed a (sc_bucketidx sc) s).
Proof using bl_range cl_range.
  intros I La Es. pose proof (removed_linked L a s sc) as HL.
  destruct (linked_live _ _ _ I La) as (sc1 & h1 & E1 & E2 & Ha & HA). assert (sc1 = sc) as -> by congruence. clear E1.
  split.
  - simpl. rewrite length_alter. apply (i_len _ _ I).
  - intros i h. by apply (removed_length L).
  - intros i h b Hi Hb. assert (linked (removed a (sc_bucketidx sc) s) b) as Lb by (by exists i, h). apply HL in Lb as [Lb Nb]; [|done..].
    simpl in Hi. rewrite list_lookup_alter in Hi. assert (exists h0, tcp_syn_cache s !! i = Some h0 /\ b ∈ sch_bucket h0) as (h0 & Hi0 & Hb0).
    { destruct (decide (sc_bucketidx sc = i)) as [<-|Hn]; [|by exists h]. apply fmap_Some in Hi as (h0 & Hi & ->). exists h0.
      split; [done|]. by apply elem_of_unlink in Hb as [? _]. }
    destruct (i_live _ _ I _ _ _ Hi0 Hb0) as (scb & Eb & <- & []). exists scb. rewrite removed_mem_ne by done. split; [done|]. split; [done|].
    split; try done. destruct live_tp0 as (tp & l & ? & El & Hl). exists tp, (unlink a l). split; [done|]. split; [|by apply elem_of_unlink].
    simpl. by rewrite lookup_fmap, El.
  - simpl. pose proof (sumlen_alter _ _ _ (fun h => mkSch (unlink a (sch_bucket h)) (u16 (sch_length h - 1))) E2) as E.
    destruct (i_length _ _ I _ _ E2) as (_ & _ & N). pose proof (length_unlink a _ N Ha). cbn [sch_bucket] in E.
    destruct (i_count _ _ I) as [-> ?]. pose proof (sumlen_ge _ _ _ E2). rewrite u64_small; lia.
  - intros b scb Hb. destruct (decide (b = a)) as [->|Nb]; [right; left; left|]. rewrite removed_mem_ne in Hb by done.
    destruct (i_mem _ _ I _ _ Hb) as [Lb|[?|?]]; [left; by apply HL|right; left; by right|right; by right].
  - intros b c scb scc Lb Lc. apply HL in Lb as [Lb Nb]; [|done..]. apply HL in Lc as [Lc Nc]; [|done..]. rewrite !removed_mem_ne by done. by apply (i_keys _ _ I).
  - intros tp l Hl. simpl in Hl. rewrite lookup_fmap in Hl. apply fmap_Some in Hl as (l0 & Hl & ->). destruct (i_tsc _ _ I _ _ Hl) as [N K].
    split; [by apply NoDup_unlink|]. intros b Hb. apply elem_of_unlink in Hb as [Hb Nb]. destruct (K b Hb) as (Lb & scb & Eb & Et).
    split; [by apply HL|]. exists scb. by rewrite removed_mem_ne.
  - simpl. rewrite dom_alter_L. apply (i_pool _ _ I).
  - intros b Hb. rewrite HL by done. apply elem_of_cons in Hb as [->|Hb].
    + split; [|by intros [_ ?]]. simpl. rewrite lookup_alter_is_Some. by eexists.
    + destruct (i_limbo _ _ I _ Hb). split; [|tauto]. simpl. by rewrite lookup_alter_is_Some.
Qed.

Lemma syn_cache_rm_inv L a s : syn_inv L s -> linked s a -> exists sc s', y_mem s !! a = Some sc /\ live fn s a sc /\
  syn_cache_rm a s = Some s' /\ s' = removed a (sc_bucketidx sc) s /\ syn_inv (a :: L) s'.
Proof using bl_range cl_range.
  intros I La. destruct (linked_live _ _ _ I La) as (sc & h & E1 & E2 & _ & HA). exists sc, (removed a (sc_bucketidx sc) s).
  split; [done|]. split; [done|]. split; [by eapply syn_cache_rm_eq|]. split; [done|]. by apply removed_inv.
Qed.

(** ** Release *)

Lemma syn_cache_put_inv e L a s sc : syn_inv (a :: L) s -> y_mem s !! a = Some sc -> calls fn a sc -> syn_inv L (syn_cache_put e a s).
Proof using.
  intros I Es (C1 & C2 & C3).
  pose proof (upd_limbo_inv (a :: L) a (fun sc =>
    let sc := sc <| sc_route := rtcache_free (sc_route sc) |> in
    let sc := sc <| sc_flags := Z.lor (sc_flags sc) SCF_DEAD |> in
    if callout_invoking (sc_timer sc) then sc
    else sc <| sc_timer := callout_schedule (y_timer_hz e) (y_hz e) (sc_timer sc) 1 |>) s I ltac:(left)) as I'.
  change (upd_sc a _ s) with (syn_cache_put e a s) in I'. destruct I' as [I1 I2 I3 I4 I5 I6 I7 I8 I9].
  split; try done.
  - intros b scb Hb. destruct (I5 b scb Hb) as [?|[Hin|?]]; [by left| |by right; right]. apply elem_of_cons in Hin as [->|?]; [|by right; left].
    right. right. unfold syn_cache_put, upd_sc in Hb. simpl in Hb. rewrite lookup_alter_eq, Es in Hb. simpl in Hb. rewrite C3 in Hb. injection Hb as <-.
    unfold dead, armed, calls, callout_invoking, callout_schedule. simpl. split; [|split; [by eexists|split; [done|split; [done|]]]]; flag_bits; done.
  - intros b Hb. apply I9. by right.
Qed.

Lemma syn_cache_free_inv L a s : syn_inv (a :: L) s -> a ∉ L -> syn_inv L (syn_cache_free a s).
Proof using.
  intros I Na. destruct (i_limbo _ _ I a ltac:(left)) as [[sc Es] Nl].
  assert (forall b, linked s b -> y_mem (syn_cache_free a s) !! b = y_mem s !! b) as Hsame.
  { intros b Hb. simpl. rewrite lookup_delete_ne; [done|]. by intros ->. }
  destruct I as [I1 I2 I3 I4 I5 I6 I7 I8 I9]. split; try done.
  - intros i h b Hi Hb. destruct (I3 i h b Hi Hb) as (scb & Eb & ? & []). exists scb. rewrite Hsame by (by exists i, h). split; [done|]. split; [done|]. by split.
  - intros b scb Hb. simpl in Hb. apply lookup_delete_Some in Hb as [Nb Hb]. destruct (I5 b scb Hb) as [?|[Hin|?]]; [by left| |by right; right].
    apply elem_of_cons in Hin as [->|?]; [done|by right; left].
  - intros b c scb scc Lb Lc. rewrite !Hsame by done. by apply I6.
  - intros tp l Hl. destruct (I7 tp l Hl) as [N K]. split; [done|]. intros b Hb. destruct (K b Hb) as (Lb & scb & Eb & ?). split; [done|]. exists scb. by rewrite Hsame.
  - simpl. rewrite <- I8, <- app_assoc. f_equiv. rewrite dom_delete_L.
    assert (dom (y_mem s) = {[a]} ∪ dom (y_mem s) ∖ {[a]}) as E.
    { apply union_difference_singleton_L. by apply elem_of_dom_2 in Es. }
    rewrite E at 2. rewrite elements_union_singleton; [done|]. rewrite elem_of_difference, elem_of_singleton. by intros [_ ?].
  - intros b Hb. destruct (I9 b ltac:(by right)) as [[scb Eb] ?]. split; [|done]. simpl. exists scb. rewrite lookup_delete_ne; [done|]. by intros ->.
Qed.

(** A dead entry is taken into the hands of the timer routine. *)
Lemma take_dead L a s sc : syn_inv L s -> y_mem s !! a = Some sc -> dead sc = true -> syn_inv (a :: L) s.
Proof using.
  intros I Es D. destruct I as [I1 I2 I3 I4 I5 I6 I7 I8 I9]. split; try done.
  - intros b scb Hb. destruct (I5 b scb Hb) as [?|[?|?]]; [by left|right; left; by right|by right; right].
  - intros b Hb. apply elem_of_cons in Hb as [->|Hb]; [|by apply I9]. split; [by eexists|]. intros (i & h & Hi & Hb).
    destruct (I3 i h a Hi Hb) as (sc1 & E1 & _ & []). congruence.
Qed.
(** ** Lookup *)

Lemma lookup_loop_spec l hash src dst s : (forall a, a ∈ l -> is_Some (y_mem s !! a)) ->
  exists r, lookup_loop l hash src dst s = Some r /\
  match r with
  | Some a => a ∈ l /\ exists sc, y_mem s !! a = Some sc /\ sc_src sc = src /\ sc_dst sc = dst
  | None => forall a sc, a ∈ l -> y_mem s !! a = Some sc -> sc_hash sc = hash -> sc_src sc = src -> sc_dst sc = dst -> False
  end.
Proof using.
  induction l as [|b l IH]; intros Hl; [exists None; split; [done|]; intros a sc Ha; by apply elem_of_nil in Ha|].
  destruct (Hl b ltac:(left)) as [scb Eb]. simpl. rewrite Eb. cbn [mbind option_bind].
  destruct IH as (r & Er & Hr); [intros a Ha; apply Hl; by right|].
  destruct (Z.eqb_spec (sc_hash scb) hash) as [Eh|Nh]; simpl.
  2: { exists r. split; [done|]. destruct r as [a|]; [destruct Hr; split; [by right|done]|].
       intros a sc Ha Hm Hh. apply elem_of_cons in Ha as [->|Ha]; [congruence|by eapply Hr]. }
  case_bool_decide as E1; [case_bool_decide as E2|]; simpl.
  - exists (Some b). split; [done|]. split; [left|by exists scb].
  - exists r. split; [done|]. destruct r as [a|]; [destruct Hr; split; [by right|done]|].
    intros a sc Ha Hm Hh. apply elem_of_cons in Ha as [->|Ha]; [congruence|by eapply Hr].
  - exists r. split; [done|]. destruct r as [a|]; [destruct Hr; split; [by right|done]|].
    intros a sc Ha Hm Hh. apply elem_of_cons in Ha as [->|Ha]; [congruence|by eapply Hr].
Qed.

Lemma bucket_of_lt hash : (bucket_of hash < TCP_SYN_HASH_SIZE)%nat.
Proof using. unfold bucket_of, TCP_SYN_HASH_SIZE. pose proof (Z.mod_pos_bound hash (Z.of_nat 293)). lia. Qed.

Lemma table_lookup L s i : syn_inv L s -> (i < TCP_SYN_HASH_SIZE)%nat -> exists h, tcp_syn_cache s !! i = Some h.
Proof using. intros I Hi. apply lookup_lt_is_Some. by rewrite (i_len _ _ I). Qed.

(** The lookup finds the entry with a key, if and only if there is one. *)
Lemma syn_cache_lookup_spec L s src dst : syn_inv L s -> exists r, syn_cache_lookup src dst s = Some r /\
  match r with
  | Some a => linked s a /\ exists sc, y_mem s !! a = Some sc /\ sc_src sc = src /\ sc_dst sc = dst
  | None => forall a sc, linked s a -> y_mem s !! a = Some sc -> sc_src sc = src -> sc_dst sc = dst -> False
  end.
Proof using.
  intros I. destruct (table_lookup L s (bucket_of (syn_hash s src dst)) I (bucket_of_lt _)) as [h Hh].
  destruct (lookup_loop_spec (sch_bucket h) (syn_hash s src dst) src dst s) as (r & Er & Hr).
  { intros a Ha. destruct (i_live _ _ I _ _ _ Hh Ha) as (sc & E & _). by eexists. }
  exists r. split. { unfold syn_cache_lookup. rewrite Hh. by cbn [mbind option_bind]. }
  destruct r as [a|].
  - destruct Hr as [Ha ?]. split; [|done]. by exists (bucket_of (syn_hash s src dst)), h.
  - intros a sc La Es <- <-. destruct (linked_live _ _ _ I La) as (sc1 & h1 & E1 & E2 & Ha & []). assert (sc1 = sc) as -> by congruence.
    eapply (Hr a sc); try done. rewrite live_idx0, live_hash0, Hh in E2. by injection E2 as ->.
Qed.

(** ** Room *)

Lemma bucket_empty_false s i : bucket_empty s i = false <-> exists h, tcp_syn_cache s !! i = Some h /\ sch_bucket h <> [].
Proof using.
  unfold bucket_empty. destruct (tcp_syn_cache s !! i) as [h|]; [|split; [done|by intros (h & ? & _)]].
  rewrite bool_decide_eq_false. split; [by exists h|]. by intros (h' & [= ->] & ?).
Qed.

Lemma scan_to scp j s fuel : bucket_empty s j = false -> (j < TCP_SYN_HASH_SIZE)%nat -> forall i, (i <= j)%nat -> (scp < i \/ j < scp)%nat ->
  (j - i < fuel)%nat -> exists k, scan_buckets fuel scp i s = Some k /\ bucket_empty s k = false.
Proof using.
  intros Ej Hj. induction fuel as [|fuel IH]; intros i Hi Hs Hf; [lia|].
  cbn [scan_buckets]. destruct (Nat.eqb_spec i scp) as [->|_]; [lia|]. destruct (Nat.leb_spec TCP_SYN_HASH_SIZE i); [lia|].
  destruct (bucket_empty s i) eqn:Ei; [|by exists i]. assert (i <> j) by congruence. apply IH; lia.
Qed.

Lemma scan_around scp j s fuel : bucket_empty s j = false -> (j < scp < TCP_SYN_HASH_SIZE)%nat -> forall i, (scp < i <= TCP_SYN_HASH_SIZE)%nat ->
  (TCP_SYN_HASH_SIZE - i + S j < fuel)%nat -> exists k, scan_buckets fuel scp i s = Some k /\ bucket_empty s k = false.
Proof using.
  intros Ej Hj. induction fuel as [|fuel IH]; intros i Hi Hf; [lia|].
  cbn [scan_buckets]. destruct (Nat.eqb_spec i scp) as [->|_]; [lia|]. destruct (Nat.leb_spec TCP_SYN_HASH_SIZE i).
  - destruct (bucket_empty s 0) eqn:E0; [|by exists O]. apply (scan_to scp j); try done; try lia.
    destruct j; [congruence|lia].
  - destruct (bucket_empty s i) eqn:Ei; [|by exists i]. apply IH; lia.
Qed.

Lemma overflow_bucket_spec scp s : length (tcp_syn_cache s) = TCP_SYN_HASH_SIZE -> (scp < TCP_SYN_HASH_SIZE)%nat -> (0 < sumlen (tcp_syn_cache s))%nat ->
  exists k, overflow_bucket scp s = Some k /\ bucket_empty s k = false.
Proof using.
  intros Hlen Hscp Hpos. unfold overflow_bucket. destruct (bucket_empty s scp) eqn:E; [|by exists scp].
  assert (exists j, bucket_empty s j = false) as [j Hj].
  { assert (exists j h, tcp_syn_cache s !! j = Some h /\ sch_bucket h <> []) as (j & h & ? & ?).
    { clear -Hpos. induction (tcp_syn_cache s) as [|x t IH]; [simpl in Hpos; lia|]. destruct (sch_bucket x) as [|y l] eqn:Ex.
      - destruct IH as (j & h & ? & ?); [cbn [sumlen foldr] in Hpos; rewrite Ex in Hpos; simpl in Hpos; done|]. by exists (S j), h.
      - exists O, x. by rewrite Ex. }
    exists j. apply bucket_empty_false. eauto. }
  assert (j < TCP_SYN_HASH_SIZE)%nat as Hlt.
  { apply bucket_empty_false in Hj as (h & Hh & _). rewrite <- Hlen. by eapply lookup_lt_Some. }
  assert (j <> scp) by congruence. destruct (decide (scp < j)%nat).
  - apply (scan_to scp j); try done; lia.
  - apply (scan_around scp j); try done; lia.
Qed.
(** What surrounds the cache: limits that do not change, and a network whose
    interfaces carry the largest SYN,ACK. *)
Record env_ok (e : synenv) : Prop := {
  eo_bl : tcp_syn_bucket_limit e = bl;
  eo_cl : tcp_syn_cache_limit e = cl;
  eo_fn : y_timer_fn e = fn;
  eo_net : net_ok SYNACK_MAX (y_ip e)
}.

(** What taking [a] out of the table leaves alone. *)
Record without (a : addr) (s s' : synst) : Prop := {
  wo_linked : forall b, linked s' b <-> linked s b /\ b <> a;
  wo_mem : forall b, b <> a -> y_mem s' !! b = y_mem s !! b;
  wo_key : forall sc', y_mem s' !! a = Some sc' -> exists sc, y_mem s !! a = Some sc /\ sc_src sc' = sc_src sc /\ sc_dst sc' = sc_dst sc;
  wo_count : syn_cache_count s' = syn_cache_count s - 1;
  wo_hash : syn_hash1 s' = syn_hash1 s /\ syn_hash2 s' = syn_hash2 s;
  wo_pool : syn_cache_pool s' = syn_cache_pool s;
  wo_bucket : forall i h, tcp_syn_cache s !! i = Some h -> exists h', tcp_syn_cache s' !! i = Some h' /\ sch_length h' <= sch_length h
}.

Lemma live_calls_stop s a sc : live fn s a sc -> calls fn a (sc <| sc_tp := None |> <| sc_timer := callout_stop (sc_timer sc) |>).
Proof using.
  intros []. destruct live_armed0 as (_ & C1 & C2 & C3). unfold calls, callout_stop, callout_invoking in *. simpl. split; [done|]. split; [done|].
  revert C3. flag_bits. done.
Qed.

Lemma removed_without L a s sc : syn_inv L s -> linked s a -> y_mem s !! a = Some sc -> without a s (removed a (sc_bucketidx sc) s).
Proof using bl_range cl_range.
  intros I La Es. split.
  - intros b. by apply (removed_linked L).
  - intros b. apply removed_mem_ne.
  - intros sc' Hs. simpl in Hs. rewrite lookup_alter_eq, Es in Hs. injection Hs as <-. by exists sc.
  - simpl. destruct (linked_live _ _ _ I La) as (sc1 & h1 & _ & E2 & Ha & _). pose proof (sumlen_ge _ _ _ E2). destruct (i_count _ _ I) as [E ?].
    assert (length (sch_bucket h1) <> O). { destruct (sch_bucket h1); [by apply elem_of_nil in Ha|done]. }
    rewrite u64_small; lia.
  - done.
  - done.
  - intros i h0 Hi. destruct (i_length _ _ I _ _ Hi) as (E & ? & ?). simpl. rewrite list_lookup_alter, Hi.
    destruct (decide (sc_bucketidx sc = i)) as [<-|]; [|by exists h0]. rewrite Hi. eexists. split; [done|]. simpl.
    destruct (decide (sch_bucket h0 = [])) as [E0|Hne].
    + destruct (linked_live _ _ _ I La) as (sc1 & h1 & ? & E2 & Ha & _). assert (sc1 = sc) as -> by congruence. rewrite Hi in E2. injection E2 as <-.
      rewrite E0 in Ha. by apply elem_of_nil in Ha.
    + destruct (sch_bucket h0); [done|]. simpl in E. rewrite u16_small; lia.
Qed.

Lemma syn_cache_put_without e a s s' : without a s s' -> without a s (syn_cache_put e a s').
Proof using.
  intros []. split; try done.
  - intros c Hc. simpl. rewrite lookup_alter_ne by done. by apply wo_mem0.
  - intros sc' Hs. simpl in Hs. rewrite lookup_alter_eq in Hs. apply fmap_Some in Hs as (sc & Hs & ->). destruct (wo_key0 _ Hs) as (sc0 & ? & ? & ?).
    exists sc0. split; [done|]. simpl. case_match; done.
Qed.

Lemma rm_put_inv e L a s : syn_inv L s -> linked s a -> exists s', rm_put e a s = Some s' /\ syn_inv L s' /\ without a s s'.
Proof using bl_range cl_range.
  intros I La. destruct (syn_cache_rm_inv _ _ _ I La) as (sc & s' & Es & Hl & Er & -> & I'). unfold rm_put. rewrite Er. cbn [mbind option_bind].
  eexists. split; [done|]. split.
  - eapply syn_cache_put_inv; [done| |by eapply (live_calls_stop s)]. simpl. by rewrite lookup_alter_eq, Es.
  - apply syn_cache_put_without. by eapply removed_without.
Qed.

Lemma toss_inv e L i s h : syn_inv L s -> tcp_syn_cache s !! i = Some h -> sch_bucket h <> [] ->
  exists a s', toss e i s = Some s' /\ syn_inv L s' /\ linked s a /\ without a s s' /\
    exists h', tcp_syn_cache s' !! i = Some h' /\ sch_length h' = sch_length h - 1.
Proof using bl_range cl_range.
  intros I Hi Hne. destruct (sch_bucket h) as [|a l] eqn:Eb; [done|].
  assert (linked s a) as La. { exists i, h. split; [done|]. rewrite Eb. left. }
  destruct (rm_put_inv e L a s I La) as (s' & Er & I' & W). exists a, s'. unfold toss. rewrite Hi. cbn [mbind option_bind]. rewrite Eb. cbn [head mbind option_bind].
  split; [done|]. split; [done|]. split; [done|]. split; [done|].
  destruct (wo_bucket _ _ _ W _ _ Hi) as (h' & Hh' & _). exists h'. split; [done|].
  destruct (i_length _ _ I _ _ Hi) as (E1 & ? & N). destruct (i_length _ _ I' _ _ Hh') as (E2 & ? & N').
  assert (sch_bucket h' ≡ₚ l) as Hp; [|rewrite E1, E2, Eb, Hp; simpl; lia].
  rewrite Eb in N. apply NoDup_cons in N as [Na N]. apply NoDup_Permutation; [done|done|]. intros x. split.
  - intros Hx. assert (linked s' x) as Lx by (by exists i, h'). destruct (i_live _ _ I' _ _ _ Hh' Hx) as (scx & Ex & Ix & _).
    apply (wo_linked _ _ _ W) in Lx as [Lx Nx]. rewrite (wo_mem _ _ _ W) in Ex by done.
    destruct (linked_live _ _ _ I Lx) as (sc2 & h2 & E3 & E4 & Hx2 & _). assert (sc2 = scx) as -> by congruence. rewrite Ix, Hi in E4. injection E4 as <-.
    rewrite Eb in Hx2. by apply elem_of_cons in Hx2 as [->|].
  - intros Hx. assert (x <> a) as Nx by (by intros ->). assert (x ∈ sch_bucket h) as Hxh by (rewrite Eb; by right).
    destruct (i_live _ _ I _ _ _ Hi Hxh) as (scx & Ex & Ix & _). assert (linked s' x) as Lx by (apply (wo_linked _ _ _ W); split; [by exists i, h|done]).
    destruct (linked_live _ _ _ I' Lx) as (sc2 & h2 & E3 & E4 & Hx2 & _). rewrite (wo_mem _ _ _ W) in E3 by done. assert (sc2 = scx) as -> by congruence.
    rewrite Ix, Hh' in E4. by injection E4 as <-.
Qed.

(** The table after room has been made: at most one entry is gone. *)
Definition at_most_without (s s' : synst) : Prop := s' = s \/ exists a, linked s a /\ without a s s'.

Lemma make_room_inv e L i s : env_ok e -> syn_inv L s -> (i < TCP_SYN_HASH_SIZE)%nat ->
  exists s' h', make_room e i s = Some s' /\ syn_inv L s' /\ at_most_without s s' /\
    tcp_syn_cache s' !! i = Some h' /\ sch_length h' < bl /\ syn_cache_count s' < cl.
Proof using bl_range cl_range.
  intros [Eb Ec Ef _] I Hi. destruct (table_lookup L s i I Hi) as [h Hh]. unfold make_room. rewrite Hh. cbn [mbind option_bind]. rewrite Eb, Ec.
  destruct (i_length _ _ I _ _ Hh) as (El & Hle & _). destruct (i_count _ _ I) as [En Hn].
  destruct (Z.leb_spec bl (sch_length h)).
  - assert (sch_bucket h <> []) by (intros Eh; rewrite Eh in El; simpl in El; lia).
    destruct (toss_inv e L i s h I Hh) as (a & s' & Et & I' & La & W & h' & Hh' & E'); [done|]. exists s', h'. split; [done|]. split; [done|].
    split; [right; by exists a|]. split; [done|]. rewrite (wo_count _ _ _ W). lia.
  - destruct (Z.leb_spec cl (syn_cache_count s)); [|exists s, h; split_and!; try done; by left].
    destruct (overflow_bucket_spec i s) as (k & Ek & Hk); [apply (i_len _ _ I)|done|lia|]. rewrite Ek. cbn [mbind option_bind].
    apply bucket_empty_false in Hk as (hk & Hk & Hne).
    destruct (toss_inv e L k s hk I Hk Hne) as (a & s' & Et & I' & La & W & _). destruct (wo_bucket _ _ _ W _ _ Hh) as (h' & Hh' & Hle').
    exists s', h'. split; [done|]. split; [done|]. split; [right; by exists a|]. split; [done|]. rewrite (wo_count _ _ _ W). lia.
Qed.
(** ** Insertion *)

(** The entry is put into its bucket and into the list of its listener. *)
Definition link (a : addr) (tp : Z) (i : nat) (s : synst) : synst :=
  mkSyn (y_mem s) (syn_cache_pool s)
    (alter (fun h => mkSch (sch_bucket h ++ [a]) (u16 (sch_length h + 1))) i (tcp_syn_cache s))
    (u64 (syn_cache_count s + 1)) (syn_hash1 s) (syn_hash2 s) (<[tp := a :: default [] (t_sc s !! tp)]> (t_sc s)) (y_ipg s) (y_out s).

Lemma link_linked a tp i s h b : tcp_syn_cache s !! i = Some h -> linked (link a tp i s) b <-> linked s b \/ b = a.
Proof using.
  intros Hi. split.
  - intros (j & hj & Hj & Hb). simpl in Hj. rewrite list_lookup_alter in Hj. destruct (decide (i = j)) as [<-|Hn]; [|left; by exists j, hj].
    rewrite Hi in Hj. injection Hj as <-. simpl in Hb. apply elem_of_app in Hb as [Hb|Hb]; [left; by exists i, h|right].
    by apply list_elem_of_singleton in Hb.
  - intros [(j & hj & Hj & Hb)| ->].
    + destruct (decide (i = j)) as [<-|Hn].
      * exists i, (mkSch (sch_bucket hj ++ [a]) (u16 (sch_length hj + 1))). simpl. rewrite list_lookup_alter, decide_True, Hj by done. split; [done|].
        apply elem_of_app. by left.
      * exists j, hj. simpl. rewrite list_lookup_alter. by destruct decide.
    + exists i, (mkSch (sch_bucket h ++ [a]) (u16 (sch_length h + 1))). simpl. rewrite list_lookup_alter, decide_True, Hi by done. split; [done|].
      apply elem_of_app. right. left.
Qed.

Lemma link_inv L a tp i s sc h : syn_inv (a :: L) s -> a ∉ L -> y_mem s !! a = Some sc ->
  sc_hash sc = syn_hash s (sc_src sc) (sc_dst sc) -> sc_bucketidx sc = bucket_of (sc_hash sc) -> sc_bucketidx sc = i -> dead sc = false ->
  sc_tp sc = Some tp -> 0 <= sc_rxtshift sc <= TCP_MAXRXTSHIFT -> armed fn a sc ->
  tcp_syn_cache s !! i = Some h -> sch_length h < bl -> syn_cache_count s < cl ->
  (forall b scb, linked s b -> y_mem s !! b = Some scb -> sc_src scb = sc_src sc -> sc_dst scb = sc_dst sc -> False) ->
  syn_inv L (link a tp i s).
Proof using bl_range cl_range.
  intros I Na Es Hh Hx Hi Hd Ht Hs Har Eh Hb Hc Hk. pose proof (fun b => link_linked a tp i s h b Eh) as HL.
  destruct (i_limbo _ _ I a ltac:(left)) as [_ Nl].
  assert (forall j hj, tcp_syn_cache (link a tp i s) !! j = Some hj ->
    (j <> i /\ tcp_syn_cache s !! j = Some hj) \/ (j = i /\ hj = mkSch (sch_bucket h ++ [a]) (u16 (sch_length h + 1)))) as HT.
  { intros j hj Hj. simpl in Hj. rewrite list_lookup_alter in Hj. destruct (decide (i = j)) as [<-|Hn]; [right|by left].
    rewrite Eh in Hj. by injection Hj as <-. }
  destruct (i_length _ _ I _ _ Eh) as (El & _ & N). split.
  - simpl. rewrite length_alter. apply (i_len _ _ I).
  - intros j hj Hj. destruct (HT j hj Hj) as [[_ Hj']|[-> ->]]; [by apply (i_length _ _ I j)|]. cbn [sch_length sch_bucket]. rewrite length_app. simpl.
    rewrite u16_small by lia. split; [lia|]. split; [lia|]. apply NoDup_app. split; [done|]. split; [|apply NoDup_singleton].
    intros x Hx' Hxa. apply list_elem_of_singleton in Hxa as ->. apply Nl. by exists i, h.
  - intros j hj b Hj Hb'. assert (forall tp' l, t_sc s !! tp' = Some l -> b ∈ l -> exists l', t_sc (link a tp i s) !! tp' = Some l' /\ b ∈ l') as Hts.
    { intros tp' l E E'. simpl. destruct (decide (tp' = tp)) as [->|Hne]; [rewrite lookup_insert_eq, E; eexists; split; [done|by right]|].
      rewrite lookup_insert_ne by done. by exists l. }
    assert (b = a /\ j = i \/ exists hj', tcp_syn_cache s !! j = Some hj' /\ b ∈ sch_bucket hj') as [[-> ->]|(hj' & Hj' & Hb2)].
    { destruct (HT j hj Hj) as [[_ Hj']|[-> ->]]; [right; by exists hj|]. cbn [sch_bucket] in Hb'. apply elem_of_app in Hb' as [?|Hb']; [right; by exists h|].
      apply list_elem_of_singleton in Hb'. by left. }
    + exists sc. split; [done|]. split; [done|]. split; try done. exists tp, (a :: default [] (t_sc s !! tp)). split; [done|]. split; [|left].
      simpl. by rewrite lookup_insert_eq.
    + destruct (i_live _ _ I _ _ _ Hj' Hb2) as (scb & Eb & Ib & []). exists scb. split; [done|]. split; [done|]. split; try done.
      destruct live_tp0 as (tp' & l & ? & E & E'). destruct (Hts _ _ E E') as (l' & ? & ?). by exists tp', l'.
  - simpl. pose proof (sumlen_alter _ _ _ (fun h => mkSch (sch_bucket h ++ [a]) (u16 (sch_length h + 1))) Eh) as E. cbn [sch_bucket] in E.
    rewrite length_app in E. simpl in E. destruct (i_count _ _ I) as [En _]. rewrite u64_small; lia.
  - intros b scb Hb'. destruct (i_mem _ _ I b scb Hb') as [?|[Hin|?]]; [left; apply HL; by left| |by right; right].
    apply elem_of_cons in Hin as [->|?]; [left; apply HL; by right|by right; left].
  - intros b c scb scc Lb Lc Eb Ec E1 E2. simpl in Eb, Ec. apply HL in Lb as [Lb| ->]; apply HL in Lc as [Lc| ->].
    + by eapply (i_keys _ _ I).
    + exfalso. apply (Hk b scb); try done; congruence.
    + exfalso. apply (Hk c scc); try done; congruence.
    + done.
  - intros tp' l Hl. simpl in Hl. destruct (decide (tp' = tp)) as [->|Hne].
    + rewrite lookup_insert_eq in Hl. injection Hl as <-. assert (NoDup (default [] (t_sc s !! tp)) /\ forall b, b ∈ default [] (t_sc s !! tp) ->
        linked s b /\ exists scb, y_mem s !! b = Some scb /\ sc_tp scb = Some tp) as [N' K'].
      { destruct (t_sc s !! tp) as [l|] eqn:E; simpl; [apply (i_tsc _ _ I _ _ E)|]. split; [constructor|]. intros b Hb'. by apply elem_of_nil in Hb'. }
      split; [apply NoDup_cons; split; [|done]; intros Ha; by destruct (K' a Ha)|]. intros b Hb'. apply elem_of_cons in Hb' as [->|Hb'].
      * split; [apply HL; by right|]. by exists sc.
      * destruct (K' b Hb') as [? ?]. split; [apply HL; by left|done].
    + rewrite lookup_insert_ne in Hl by done. destruct (i_tsc _ _ I _ _ Hl) as [N' K']. split; [done|]. intros b Hb'. destruct (K' b Hb') as [? ?].
      split; [apply HL; by left|done].
  - apply (i_pool _ _ I).
  - intros b Hb'. destruct (i_limbo _ _ I b ltac:(by right)) as [? Nb]. split; [done|]. rewrite HL. intros [?| ->]; done.
Qed.
(** The interval and the callout that the timer is started with. *)
Definition rexmt_ticks (shift : Z) : Z := TCPT_RANGESET (TCPTV_SRTTDFLT * nth (Z.to_nat shift) tcp_backoff 0) TCPTV_MIN TCPTV_REXMTMAX.

Definition restart (e : synenv) (a : addr) (ticks : Z) (sc : syn_cache) : syn_cache :=
  sc <| sc_rxtcur := ticks |>
     <| sc_timer := callout_reset (y_timer_hz e) (y_hz e) (sc_timer sc) (s32 (ticks * (y_hz e / PR_SLOWHZ)))
                      (Some (y_timer_fn e)) (Some (Z.pos a)) |>.

Lemma timer_arm_eq e a s sc : y_mem s !! a = Some sc -> 0 <= sc_rxtshift sc <= TCP_MAXRXTSHIFT ->
  SYN_CACHE_TIMER_ARM e a s = Some (upd_sc a (restart e a (rexmt_ticks (sc_rxtshift sc))) s).
Proof using.
  intros Es Hs. unfold SYN_CACHE_TIMER_ARM. rewrite Es. cbn [mbind option_bind].
  assert (tcp_backoff !! Z.to_nat (sc_rxtshift sc) = Some (nth (Z.to_nat (sc_rxtshift sc)) tcp_backoff 0)) as ->; [|done].
  destruct (nth_lookup_or_length tcp_backoff (Z.to_nat (sc_rxtshift sc)) 0) as [?|Hl]; [done|]. unfold TCP_MAXRXTSHIFT in Hs. cbn [tcp_backoff length] in Hl. lia.
Qed.

Lemma restart_armed e a ticks sc : y_timer_fn e = fn -> armed fn a (restart e a ticks sc).
Proof using.
  intros <-. unfold armed, calls, restart, callout_reset, callout_invoking. simpl. split; [by eexists|]. split; [done|]. split; [done|]. flag_bits. done.
Qed.
(** ** Sending *)

Definition touched (a : addr) (s s' : synst) : Prop :=
  s' = s \/ exists ro g out, s' = (upd_sc a (fun sc => sc <| sc_route := ro |>) s) <| y_ipg := g |> <| y_out := out |>.

Lemma respond_spec e a s : env_ok e -> sendable s -> is_Some (y_mem s !! a) -> exists r, syn_cache_respond e a s = Some r /\ touched a s r.2.
Proof using.
  intros Ok D Hs. destruct (respond_total e (eo_net _ Ok) a s D Hs) as (r & Er & _). exists r. split; [done|]. revert Er.
  destruct Hs as [sc Es]. unfold syn_cache_respond. rewrite Es. cbn [mbind option_bind]. destruct (negb (y_mget e) || _); [intros [= <-]; by left|].
  destruct (synack e sc) as [p|]; [|done]. cbn [mbind option_bind]. destruct (ip_output _ _ _ _ _ _ _) as [o|]; [|done].
  cbn [mbind option_bind]. intros [= <-]. right. by eexists _, _, _.
Qed.

Lemma same_route a sc ro : same_place a sc (sc <| sc_route := ro |>).
Proof using. by split. Qed.

Lemma touched_inv L a s s' : touched a s s' -> syn_inv L s -> syn_inv L s'.
Proof using. intros [->|(ro & g & out & ->)] I; [done|]. apply syn_inv_ext. apply upd_sc_inv; [done|]. intros sc _. apply same_route. Qed.

Lemma touched_linked a s s' b : touched a s s' -> linked s' b <-> linked s b.
Proof using. by intros [->|(ro & g & out & ->)]. Qed.

Lemma touched_mem a s s' sc : touched a s s' -> y_mem s !! a = Some sc -> exists ro, y_mem s' !! a = Some (sc <| sc_route := ro |>).
Proof using.
  intros [->|(ro & g & out & ->)] E; [exists (sc_route sc); rewrite E; by destruct sc|]. exists ro. simpl. by rewrite lookup_alter_eq, E.
Qed.

Lemma touched_mem_ne a s s' b : touched a s s' -> b <> a -> y_mem s' !! b = y_mem s !! b.
Proof using. intros [->|(ro & g & out & ->)] N; [done|]. simpl. by rewrite lookup_alter_ne. Qed.
(** ** The whole insertion *)

Lemma rehash_inv L s h1 h2 : syn_inv L s -> syn_cache_count s = 0 -> syn_inv L (s <| syn_hash1 := h1 |> <| syn_hash2 := h2 |>).
Proof using.
  intros I E. assert (forall i h a, tcp_syn_cache s !! i = Some h -> a ∈ sch_bucket h -> False) as Hno.
  { intros i h a Hi Ha. pose proof (sumlen_ge _ _ _ Hi) as Hle. destruct (i_count _ _ I) as [E2 _]. destruct (sch_bucket h); [by apply elem_of_nil in Ha|]. simpl in Hle. clear -E E2 Hle. lia. }
  destruct I as [I1 I2 I3 I4 I5 I6 I7 I8 I9]. split; try done. intros i h a Hi Ha. exfalso. by eapply Hno.
Qed.

(** The entry as the insertion leaves it. *)
Definition inserted_sc (e : synenv) (a : addr) (hash : Z) (sc : syn_cache) : syn_cache :=
  restart e a (rexmt_ticks 0) (sc <| sc_hash := hash |> <| sc_bucketidx := bucket_of hash |> <| sc_rxttot := 0 |> <| sc_rxtshift := 0 |>).

(** A bucket or the whole cache is at its limit. *)
Definition cache_full (e : synenv) (s : synst) : Prop :=
  (exists i h, tcp_syn_cache s !! i = Some h /\ tcp_syn_bucket_limit e <= sch_length h) \/
  tcp_syn_cache_limit e <= syn_cache_count s.

Record added (e : synenv) (a : addr) (sc' : syn_cache) (s s' : synst) : Prop := {
  ad_mem : y_mem s' !! a = Some sc';
  ad_linked : exists gone : option addr, (gone = None \/ cache_full e s) /\
    forall b, linked s' b <-> b = a \/ (linked s b /\ gone <> Some b);
  ad_others : forall b, b <> a -> linked s' b -> y_mem s' !! b = y_mem s !! b
}.

Lemma at_most_without_spec s s' a : at_most_without s s' -> ~ linked s a ->
  (exists gone : option addr, forall b, linked s' b <-> linked s b /\ gone <> Some b) /\
  (forall b, linked s' b \/ b = a -> y_mem s' !! b = y_mem s !! b) /\ syn_hash1 s' = syn_hash1 s /\ syn_hash2 s' = syn_hash2 s.
Proof using.
  intros [->|(c & Lc & W)] Na.
  - split; [exists None; intros b; split; [by split|by intros [? _]]|]. done.
  - split; [exists (Some c); intros b; rewrite (wo_linked _ _ _ W); split; intros [? ?]; split; congruence|]. split; [|apply (wo_hash _ _ _ W)].
    intros b [Lb| ->]; apply (wo_mem _ _ _ W); [|congruence]. by apply (wo_linked _ _ _ W) in Lb as [_ ?].
Qed.

Lemma make_room_full e i s s' : make_room e i s = Some s' -> s' = s \/ cache_full e s.
Proof using.
  unfold make_room. destruct (tcp_syn_cache s !! i) as [h|] eqn:Eh; [|done]. cbn [mbind option_bind].
  destruct (Z.leb_spec (tcp_syn_bucket_limit e) (sch_length h)); [intros _; right; left; by exists i, h|].
  destruct (Z.leb_spec (tcp_syn_cache_limit e) (syn_cache_count s)); [intros _; right; by right|]. intros [= <-]. by left.
Qed.

Lemma syn_cache_insert_inv e L a tp s sc : env_ok e -> syn_inv (a :: L) s -> a ∉ L -> y_mem s !! a = Some sc ->
  dead sc = false -> sc_tp sc = Some tp ->
  (forall b scb, linked s b -> y_mem s !! b = Some scb -> sc_src scb = sc_src sc -> sc_dst scb = sc_dst sc -> False) ->
  exists s' hash, syn_cache_insert e a tp s = Some s' /\ syn_inv L s' /\ added e a (inserted_sc e a hash sc) s s'.
Proof using bl_range cl_range.
  intros Ok I Na Es Hd Ht Hk. unfold syn_cache_insert.
  set (s1 := if syn_cache_count s =? 0 then _ else s).
  assert (syn_inv (a :: L) s1 /\ y_mem s1 = y_mem s /\ tcp_syn_cache s1 = tcp_syn_cache s /\ syn_cache_count s1 = syn_cache_count s) as (I1 & Em & Et & Ecc).
  { unfold s1. destruct (Z.eqb_spec (syn_cache_count s) 0); [|done]. split; [by apply rehash_inv|done]. }
  clearbody s1. rewrite Em, Es. cbn [mbind option_bind].
  set (hash := syn_hash s1 (sc_src sc) (sc_dst sc)). set (i := bucket_of hash).
  assert (forall b, linked s1 b <-> linked s b) as HL1 by (intros b; unfold linked; by rewrite Et).
  set (s2 := upd_sc a _ s1). assert (syn_inv (a :: L) s2) as I2 by (apply upd_limbo_inv; [done|left]).
  assert (y_mem s2 !! a = Some (sc <| sc_hash := hash |> <| sc_bucketidx := i |>)) as Es2.
  { unfold s2, upd_sc. simpl. rewrite lookup_alter_eq, Em, Es. done. }
  assert (forall b, b <> a -> y_mem s2 !! b = y_mem s !! b) as Eo2.
  { intros b Hb. unfold s2, upd_sc. simpl. by rewrite lookup_alter_ne, Em. }
  assert (syn_hash1 s2 = syn_hash1 s1 /\ syn_hash2 s2 = syn_hash2 s1) as [H1 H2] by done.
  assert (forall b, linked s2 b <-> linked s b) as HL2 by exact HL1.
  assert (cache_full e s2 -> cache_full e s) as Full.
  { unfold cache_full, s2, upd_sc. upd_simpl. by rewrite Et, Ecc. }
  clearbody s2. destruct (i_limbo _ _ I2 a ltac:(left)) as [_ Nl].
  destruct (make_room_inv e (a :: L) i s2 Ok I2 (bucket_of_lt _)) as (s3 & h3 & E3 & I3 & AM & Hh & Hlt & Hct). rewrite E3. cbn [mbind option_bind].
  destruct (at_most_without_spec s2 s3 a AM Nl) as ((gone0 & Hg0) & Hm3 & H31 & H32).
  assert (exists gone : option addr, (gone = None \/ cache_full e s) /\ forall b, linked s3 b <-> linked s2 b /\ gone <> Some b) as (gone & Hf & Hg).
  { destruct (make_room_full e i s2 s3 E3) as [->|F]; [exists None; split; [by left|]; intros b; split; [done|by intros [? _]]|].
    exists gone0. split; [right; by apply Full|done]. }
  clear gone0 Hg0.
  assert (y_mem s3 !! a = Some (sc <| sc_hash := hash |> <| sc_bucketidx := i |>)) as Es3 by (rewrite Hm3; [done|by right]).
  set (s4 := upd_sc a _ s3). assert (y_mem s4 !! a = Some (sc <| sc_hash := hash |> <| sc_bucketidx := i |> <| sc_rxttot := 0 |> <| sc_rxtshift := 0 |>)) as Es4.
  { unfold s4, upd_sc. simpl. by rewrite lookup_alter_eq, Es3. }
  rewrite (timer_arm_eq e a s4 _ Es4) by done. cbn [mbind option_bind].
  assert (syn_inv (a :: L) (upd_sc a (restart e a (rexmt_ticks 0)) s4)) as I4 by (apply upd_limbo_inv; [apply upd_limbo_inv; [done|left]|left]).
  change (rexmt_ticks _) with (rexmt_ticks 0). set (s5 := upd_sc a (restart e a (rexmt_ticks 0)) s4) in *.
  assert (y_mem s5 !! a = Some (inserted_sc e a hash sc)) as Es5 by (unfold s5; by rewrite upd_sc_lookup, Es4).
  assert (forall b, b <> a -> y_mem s5 !! b = y_mem s3 !! b) as Eo5.
  { intros b Hb. unfold s5, s4, upd_sc. simpl. by rewrite !lookup_alter_ne. }
  assert (forall b, linked s5 b <-> linked s3 b) as HL5 by done.
  match goal with |- context [Some ?x = Some _] => change x with (link a tp i s5) end.
  assert (tcp_syn_cache s5 !! i = Some h3 /\ syn_cache_count s5 < cl /\ syn_hash1 s5 = syn_hash1 s3 /\ syn_hash2 s5 = syn_hash2 s3) as (Hh5 & Hct5 & H51 & H52) by done.
  clearbody s5. exists (link a tp i s5), hash. split; [done|]. split.
  - eapply (link_inv L a tp i s5 (inserted_sc e a hash sc) h3); try done.
    + unfold syn_hash. rewrite H51, H52, H31, H32, H1, H2. done.
    + apply restart_armed, (eo_fn _ Ok).
    + intros b scb Lb Eb K1 K2. apply HL5 in Lb. pose proof Lb as Lb3. apply Hg in Lb as [Lb _]. assert (b <> a) as Nb by congruence.
      apply (Hk b scb); try done; [by apply HL2|]. rewrite Eo5, Hm3, Eo2 in Eb; auto.
  - split; [done| |].
    + exists gone. split; [done|]. intros b. rewrite (link_linked _ _ _ _ _ _ Hh5), HL5, Hg, HL2. tauto.
    + intros b Nb Lb. apply (link_linked _ _ _ _ _ _ Hh5) in Lb as [Lb| ->]; [|done]. cbn [link y_mem]. rewrite Eo5, Hm3, Eo2; try done. left. by apply HL5.
Qed.
End inv.
