(* ===== verification/SynCacheSafe.v ===== *)
(** * Any sequence of events of the SYN cache

    SYNs, ACKs, RSTs and ICMP errors arrive in any order, timers expire and
    listening sockets are closed.  The table stays consistent, no call
    follows a bad pointer or loops, and the table is a finite map from the two
    ends of a connection to what its SYN,ACKs promise, which every event
    changes in the way one expects. *)

From S2P Require Import Prelude Pool TcpSeq Callout Tcpcb TcpSack TcpTimer InCksum TcpOptions TcpReass TcpInput TcpOutput.
From S2P Require Import IpReass IpId Ip IpOutput IpTotal SynCache SynCacheSend SynCacheFacts.

(** ** What an entry promises to its peer *)

Record promise := mkPromise {
  pr_irs : tcp_seq; pr_iss : tcp_seq; pr_win : Z; pr_peermaxseg : Z; pr_ourmaxseg : Z; pr_request_r_scale : Z;
  pr_requested_s_scale : Z; pr_timebase : Z; pr_flags : Z; pr_tp : option Z
}.

Definition promise_of (sc : syn_cache) : promise :=
  mkPromise (sc_irs sc) (sc_iss sc) (sc_win sc) (sc_peermaxseg sc) (sc_ourmaxseg sc) (sc_request_r_scale sc)
    (sc_requested_s_scale sc) (sc_timebase sc) (Z.land (sc_flags sc) (Z.lor SCF_TIMESTAMP (Z.lor SCF_SACK_PERMIT SCF_ECN_PERMIT))) (sc_tp sc).

(** The table as a set of pairs of a key and a promise. *)
Definition key : Type := sockaddr_in * sockaddr_in.

Definition holds (s : synst) (k : key) (p : promise) : Prop :=
  exists a sc, linked s a /\ y_mem s !! a = Some sc /\ k = (sc_src sc, sc_dst sc) /\ p = promise_of sc.

Definition keeps (sc sc' : syn_cache) : Prop := sc_src sc' = sc_src sc /\ sc_dst sc' = sc_dst sc /\ promise_of sc' = promise_of sc.

(** The same entries with the same promises. *)
Definition kept (s s' : synst) : Prop := (forall b, linked s' b <-> linked s b) /\
  forall b sc, linked s b -> y_mem s !! b = Some sc -> exists sc', y_mem s' !! b = Some sc' /\ keeps sc sc'.

Lemma keeps_refl sc : keeps sc sc.
Proof. done. Qed.

Lemma kept_refl s : kept s s.
Proof. split; [done|]. intros b sc _ E. by exists sc. Qed.

Lemma kept_syn_trans s1 s2 s3 : kept s1 s2 -> kept s2 s3 -> kept s1 s3.
Proof.
  intros [L1 K1] [L2 K2]. split; [intros b; by rewrite L2, L1|]. intros b sc Lb E. destruct (K1 b sc Lb E) as (sc1 & E1 & P1).
  destruct (K2 b sc1) as (sc2 & E2 & P2); [by apply L1|done|]. exists sc2. split; [done|]. unfold keeps in *. intuition congruence.
Qed.

Lemma kept_upd a f s : (forall sc, keeps sc (f sc)) -> kept s (upd_sc a f s).
Proof.
  intros Hf. split; [done|]. intros b sc _ E. destruct (decide (b = a)) as [->|N].
  - exists (f sc). by rewrite upd_sc_lookup, E.
  - exists sc. by rewrite upd_sc_lookup_ne.
Qed.

Lemma kept_touched a s s' : touched a s s' -> kept s s'.
Proof. intros [->|(ro & g & out & ->)]; [apply kept_refl|]. apply (kept_upd a (fun sc => sc <| sc_route := ro |>) s). done. Qed.

Lemma kept_off s s' a : kept s s' -> ~ linked s a -> forall f, kept s (upd_sc a f s').
Proof.
  intros [L K] N f. split; [done|]. intros b sc Lb E. destruct (K b sc Lb E) as (sc' & ? & ?). exists sc'. rewrite upd_sc_lookup_ne; [done|]. by intros ->.
Qed.

(** ** The options of a SYN *)

Lemma syn_options_total e tb0 g th optp oi : flag_set (th_flags th) TH_ACK = false -> is_Some (syn_options e tb0 g th optp oi).
Proof.
  intros _. unfold syn_options. destruct optp as [cp|]; [|by eexists]. apply dooptions_total; [done|lia].
Qed.

(** What the table needs to know of a new entry. *)
Record fresh (src dst : sockaddr_in) (tp : Z) (sc : syn_cache) : Prop := {
  fr_src : sc_src sc = src;
  fr_dst : sc_dst sc = dst;
  fr_tp : sc_tp sc = Some tp;
  fr_dead : dead sc = false;
  fr_shift : sc_rxtshift sc = 0
}.

Lemma sc_fill_fresh e src dst th tp win ipopts tb oi : fresh src dst tp (sc_fill e src dst th tp win ipopts tb oi).
Proof.
  split; try done. unfold dead, sc_fill. upd_simpl. unfold syn_flags. by destruct (both _ _ _), (_ && _), (_ && _).
Qed.

Section safe.
Variables (bl cl fn : Z) (objs : list addr).
Hypothesis (bl_range : 0 < bl < 2 ^ 16) (cl_range : 0 < cl < 2 ^ 63) (objs_nodup : NoDup objs).

Abbreviation inv := (syn_inv bl cl fn objs).
Abbreviation ok := (env_ok bl cl fn).

(** A call returns a state that is consistent. *)
Definition safe (r : option synst) : Prop := exists s', r = Some s' /\ inv [] s'.

Lemma reset_safe e src dst th s : inv [] s -> safe (syn_cache_reset e src dst th s).
Proof using bl_range cl_range.
  intros I. unfold syn_cache_reset. destruct (syn_cache_lookup_spec _ _ _ _ _ s src dst I) as (r & -> & Hr). cbn [mbind option_bind].
  destruct r as [a|]; [|by exists s]. destruct Hr as (La & sc & -> & _). cbn [mbind option_bind].
  destruct (_ || _); [by exists s|]. destruct (rm_put_inv bl cl fn objs bl_range cl_range e [] a s I La) as (s' & -> & I' & _). by exists s'.
Qed.

Lemma unreach_safe e src dst seq s : inv [] s -> safe (syn_cache_unreach e src dst seq s).
Proof using bl_range cl_range.
  intros I. unfold syn_cache_unreach. destruct (syn_cache_lookup_spec _ _ _ _ _ s src dst I) as (r & -> & Hr). cbn [mbind option_bind].
  destruct r as [a|]; [|by exists s]. destruct Hr as (La & sc & -> & _). cbn [mbind option_bind].
  destruct (negb (seq =? sc_iss sc)); [by exists s|]. destruct (_ || _).
  - eexists. split; [done|]. apply upd_sc_inv; [done|]. intros sc' _. split; try done. unfold dead. upd_simpl. flag_bits. done.
  - destruct (rm_put_inv bl cl fn objs bl_range cl_range e [] a s I La) as (s' & -> & I' & _). by exists s'.
Qed.

Lemma cleanup_loop_safe e l : forall s, inv [] s -> NoDup l -> (forall a, a ∈ l -> linked s a) ->
  exists s', cleanup_loop e l s = Some s' /\ inv [] s' /\ (forall b, linked s' b <-> linked s b /\ b ∉ l) /\
    (forall b, b ∉ l -> y_mem s' !! b = y_mem s !! b).
Proof using bl_range cl_range.
  induction l as [|a l IH]; intros s I N Hl; [exists s; split; [done|]; split; [done|]; split; [|done]; intros b; split; [|tauto]; intros ?; split; [done|apply not_elem_of_nil]|].
  apply NoDup_cons in N as [Na N].
  destruct (rm_put_inv bl cl fn objs bl_range cl_range e [] a s I) as (s1 & E1 & I1 & W); [apply Hl; left|]. cbn [cleanup_loop]. rewrite E1. cbn [mbind option_bind].
  destruct (IH s1 I1 N) as (s' & E' & I' & L' & M').
  { intros b Hb. apply (wo_linked _ _ _ W). split; [apply Hl; by right|]. intros ->. done. }
  exists s'. split; [done|]. split; [done|]. split.
  - intros b. rewrite L', (wo_linked _ _ _ W), not_elem_of_cons. tauto.
  - intros b Hb. apply not_elem_of_cons in Hb as [Hb1 Hb2]. rewrite M' by done. by apply (wo_mem _ _ _ W).
Qed.

Lemma cleanup_safe e tp s : inv [] s -> safe (syn_cache_cleanup e tp s).
Proof using bl_range cl_range.
  intros I. unfold syn_cache_cleanup. set (l := default [] (t_sc s !! tp)).
  assert (NoDup l /\ forall a, a ∈ l -> linked s a) as [N Hl].
  { unfold l. destruct (t_sc s !! tp) as [l0|] eqn:E; simpl.
    - destruct (i_tsc _ _ _ _ _ _ I _ _ E) as [N K]. split; [done|]. intros a Ha. by destruct (K a Ha).
    - split; [constructor|]. intros a Ha. by apply elem_of_nil in Ha. }
  destruct (cleanup_loop_safe e l s I N Hl) as (s' & -> & I' & L' & M'). cbn [mbind option_bind]. eexists. split; [done|].
  destruct I' as [I1 I2 I3 I4 I5 I6 I7 I8 I9]. split; try done.
  - intros i h a Hi Ha. destruct (I3 i h a Hi Ha) as (sc & Es & Ei & []). exists sc. split; [done|]. split; [done|]. split; try done.
    destruct live_tp as (tp' & l' & Et & El & Hal). destruct (decide (tp' = tp)) as [->|Hne].
    + exfalso. assert (linked s' a) as La by (by exists i, h). apply L' in La as [La Nal]. apply Nal.
      rewrite M' in Es by done. destruct (linked_live _ _ _ _ _ _ _ I La) as (sc2 & h2 & E2 & _ & _ & []). assert (sc2 = sc) as -> by congruence.
      destruct live_tp as (tp2 & l2 & Et2 & El2 & Hal2). assert (tp2 = tp) as -> by congruence. unfold l. by rewrite El2.
    + exists tp', l'. split; [done|]. split; [|done]. simpl. by rewrite lookup_insert_ne.
  - intros tp' l' Hl'. simpl in Hl'. destruct (decide (tp' = tp)) as [->|Hne].
    + rewrite lookup_insert_eq in Hl'. injection Hl' as <-. split; [constructor|]. intros a Ha. by apply elem_of_nil in Ha.
    + rewrite lookup_insert_ne in Hl' by done. by apply I7.
Qed.
(** ** A SYN *)

Lemma alloc_inv s a pl sc : inv [] s -> pool_get (syn_cache_pool s) = Some (a, pl) ->
  inv [a] (s <| syn_cache_pool := pl |> <| y_mem := <[a := sc]> (y_mem s) |>) /\ y_mem s !! a = None /\ ~ linked s a.
Proof using objs_nodup.
  intros I Ep. assert (mempool (syn_cache_pool s) = a :: mempool pl) as Em.
  { destruct (syn_cache_pool s) as [[|x r]]; [done|]. by injection Ep as -> <-. }
  assert (y_mem s !! a = None) as Na.
  { apply not_elem_of_dom. intros Ha. assert (NoDup (mempool (syn_cache_pool s) ++ elements (dom (y_mem s)))) as N by (by rewrite (i_pool _ _ _ _ _ _ I)).
    rewrite Em in N. apply NoDup_app in N as (_ & N & _). apply (N a); [left|by apply elem_of_elements]. }
  assert (~ linked s a) as Nl by (intros La; destruct (linked_live _ _ _ _ _ _ _ I La) as (? & ? & ? & _); congruence).
  split; [|done]. assert (forall b, linked s b -> <[a := sc]> (y_mem s) !! b = y_mem s !! b) as Hsame.
  { intros b Lb. rewrite lookup_insert_ne; [done|]. by intros ->. }
  destruct I as [I1 I2 I3 I4 I5 I6 I7 I8 I9]. split; try done.
  - intros i h b Hi Hb. destruct (I3 i h b Hi Hb) as (scb & Eb & ? & []). exists scb. simpl. rewrite Hsame by (by exists i, h). split; [done|]. split; [done|]. by split.
  - intros b scb Hb. simpl in Hb. destruct (decide (b = a)) as [->|Hn]; [right; left; left|]. rewrite lookup_insert_ne in Hb by done.
    destruct (I5 b scb Hb) as [?|[Hx|?]]; [by left|by apply elem_of_nil in Hx|by right; right].
  - intros b c scb scc Lb Lc. simpl. rewrite !Hsame by done. by apply I6.
  - intros tp l Hl. destruct (I7 tp l Hl) as [N K]. split; [done|]. intros b Hb. destruct (K b Hb) as (Lb & scb & Eb & ?). split; [done|]. exists scb. simpl. by rewrite Hsame.
  - simpl. rewrite dom_insert_L, elements_union_singleton by (by apply not_elem_of_dom). rewrite <- I8, Em. simpl. rewrite Permutation_middle. done.
  - intros b Hb. apply list_elem_of_singleton in Hb as ->. split; [|done]. simpl. rewrite lookup_insert_eq. by eexists.
Qed.

(** The SYN,ACK of a new entry with the object [a] cannot be sent. *)
Definition unsent (e : synenv) (sc : syn_cache) (s : synst) : Prop :=
  exists a pl err s1, pool_get (syn_cache_pool s) = Some (a, pl) /\
    syn_cache_respond e a (s <| syn_cache_pool := pl |> <| y_mem := <[a := sc]> (y_mem s) |>) = Some (err, s1) /\ err <> 0.

(** What a SYN does to the table: a duplicate changes nothing that the
    table depends on; otherwise the key is new, and either the pool is empty,
    or nothing could be sent, or the entry is in the table. *)
Inductive add_spec (e : synenv) (src dst : sockaddr_in) (sc : syn_cache) (s : synst) : Z -> synst -> Prop :=
  | add_duplicate p s' : holds s (src, dst) p -> kept s s' -> add_spec e src dst sc s 1 s'
  | add_no_memory : mempool (syn_cache_pool s) = [] -> add_spec e src dst sc s 0 s
  | add_not_sent s' : unsent e sc s -> kept s s' -> add_spec e src dst sc s 1 s'
  | add_inserted a ro hash s' : ~ linked s a -> (forall p, ~ holds s (src, dst) p) -> added e a (inserted_sc e a hash (sc <| sc_route := ro |>)) s s' ->
      add_spec e src dst sc s 1 s'.

Lemma add_found_safe e a f s : ok e -> inv [] s -> sendable s -> linked s a -> (forall sc, same_place fn a sc (f sc)) -> (forall sc, keeps sc (f sc)) ->
  (forall sc, sendable_sc sc -> sendable_sc (f sc)) ->
  match syn_cache_respond e a (upd_sc a f s) with
  | Some r => inv [] r.2 /\ kept s r.2
  | None => False
  end.
Proof using.
  intros Ok I D La Hf Hk Hd. destruct (linked_live _ _ _ _ _ _ _ I La) as (sc & _ & Es & _).
  destruct (respond_spec bl cl fn e a (upd_sc a f s) Ok (sendable_upd a f s Hd D)) as (r & -> & R); [rewrite upd_sc_lookup, Es; by eexists|]. split.
  - eapply touched_inv; [done|]. by apply upd_sc_inv.
  - eapply kept_syn_trans; [by apply kept_upd|by eapply kept_touched].
Qed.

Lemma answer_safe e src dst tp s a pl sc : ok e -> inv [] s -> sendable s -> sendable_sc sc -> fresh src dst tp sc ->
  (forall b scb, linked s b -> y_mem s !! b = Some scb -> sc_src scb = src -> sc_dst scb = dst -> False) ->
  pool_get (syn_cache_pool s) = Some (a, pl) ->
  match syn_cache_answer e a tp (s <| syn_cache_pool := pl |> <| y_mem := <[a := sc]> (y_mem s) |>) with
  | Some s' => inv [] s' /\ add_spec e src dst sc s 1 s'
  | None => False
  end.
Proof using bl_range cl_range objs_nodup.
  intros Ok I D Dsc [F1 F2 F3 F4 F5] Hr Ep. destruct (alloc_inv s a pl sc I Ep) as (I1 & Nm & Nl). pose proof (sendable_insert a sc s pl Dsc D) as D1.
  set (s1 := s <| syn_cache_pool := pl |> <| y_mem := <[a := sc]> (y_mem s) |>) in *.
  assert (y_mem s1 !! a = Some sc) as E1 by (unfold s1; simpl; by rewrite lookup_insert_eq).
  assert (forall b, b <> a -> y_mem s1 !! b = y_mem s !! b) as E1' by (intros b Hb; unfold s1; simpl; by rewrite lookup_insert_ne).
  assert (forall b, linked s1 b <-> linked s b) as L1 by done.
  assert (cache_full e s1 -> cache_full e s) as F6 by done.
  assert (forall err s2, syn_cache_respond e a s1 = Some (err, s2) -> err <> 0 -> unsent e sc s) as Un by (intros err s2 ? ?; by exists a, pl, err, s2).
  clearbody s1. unfold syn_cache_answer.
  destruct (respond_spec bl cl fn e a s1 Ok D1 ltac:(rewrite E1; by eexists)) as ([err s2] & Er & R). rewrite Er. cbn [mbind option_bind fst snd] in *.
  assert (cache_full e s2 -> cache_full e s) as F7 by (by destruct R as [->|(? & ? & ? & ->)]).
  destruct (touched_mem _ _ _ _ R E1) as [ro E2]. assert (inv [a] s2) as I2 by (by eapply touched_inv).
  assert (forall b, linked s2 b <-> linked s b) as L2 by (intros b; by rewrite (touched_linked _ _ _ _ R), L1).
  assert (forall b, b <> a -> y_mem s2 !! b = y_mem s !! b) as E2' by (intros b Hb; by rewrite (touched_mem_ne _ _ _ _ R), E1').
  destruct (Z.eqb_spec err 0) as [_|Ne].
  - destruct (syn_cache_insert_inv bl cl fn objs bl_range cl_range e [] a tp s2 (sc <| sc_route := ro |>) Ok I2) as (s3 & hash & -> & I3 & A); try done.
    + apply not_elem_of_nil.
    + intros b scb Lb Eb K1 K2. apply L2 in Lb. assert (b <> a) by congruence. rewrite E2' in Eb by done.
      apply (Hr b scb); try done; [by rewrite K1|by rewrite K2].
    + split; [done|]. eapply (add_inserted e src dst sc s a ro hash); [done| |].
      { intros p (b & scb & Lb & Eb & [= K1 K2] & _). by apply (Hr b scb). }
      destruct A as [A1 [gone A2] A3]. split; [done| |].
      * destruct A2 as [Fg A2]. exists gone. split; [destruct Fg; auto|]. intros b. by rewrite A2, L2.
      * intros b Hb Lb. rewrite A3 by done. by apply E2'.
  - rewrite (timer_arm_eq e a s2 _ E2) by (simpl; by rewrite F5). cbn [mbind option_bind]. split.
    + eapply syn_cache_put_inv; [apply upd_limbo_inv; [exact I2|left]|rewrite upd_sc_lookup, E2; reflexivity|]. apply restart_armed, (eo_fn _ _ _ _ Ok).
    + apply add_not_sent; [by eapply Un|]. unfold syn_cache_put. apply kept_off; [apply kept_off|done]; [|done]. split; [done|]. intros b scb Lb Eb.
      exists scb. rewrite E2'; [done|]. by intros ->.
Qed.

Lemma add_safe e src dst th tp space ipopts tb0 g optp oi s : ok e -> inv [] s -> sendable s -> opts_ok ipopts -> flag_set (th_flags th) TH_ACK = false ->
  match syn_cache_add e src dst th tp space ipopts tb0 g optp oi s with
  | Some (ret, s', _, _) => inv [] s' /\ exists tb oi',
      add_spec e src dst (sc_fill e src dst th tp (if TCP_MAXWIN <? space then TCP_MAXWIN else space) ipopts tb oi') s ret s'
  | None => False
  end.
Proof using bl_range cl_range objs_nodup.
  intros Ok I D O Na. unfold syn_cache_add. destruct (syn_options_total e tb0 g th optp oi Na) as [[[g1 tb] oi1] ->]. cbn [mbind option_bind].
  destruct (syn_cache_lookup_spec _ _ _ _ _ s src dst I) as (r & -> & Hr). cbn [mbind option_bind]. destruct r as [a|].
  - destruct Hr as (La & sc0 & Es0 & K1 & K2).
    set (f := fun sc => (match ipopts with Some _ => sc <| sc_ipopts := ipopts |> | None => sc end) <| sc_timestamp := ts_recent tb |>).
    pose proof (add_found_safe e a f s Ok I D La ltac:(intros sc; unfold f; destruct ipopts; by split) ltac:(intros sc; unfold f; by destruct ipopts)
      ltac:(intros sc [? ?]; unfold f; destruct ipopts; by split)) as H.
    replace (upd_sc a (fun sc => sc <| sc_timestamp := ts_recent tb |>) (match ipopts with Some _ => upd_sc a (fun sc => sc <| sc_ipopts := ipopts |>) s | None => s end))
      with (upd_sc a f s).
    2: { unfold upd_sc, f. destruct ipopts; [|done]. simpl. by rewrite alter_alter_eq. }
    destruct (syn_cache_respond e a (upd_sc a f s)) as [[err s']|]; [|done]. cbn [mbind option_bind snd] in *. destruct H as (I' & K).
    split; [done|]. exists tb, oi1. apply (add_duplicate _ _ _ _ _ (promise_of sc0)); [|done]. exists a, sc0. by rewrite K1, K2.
  - destruct (pool_get (syn_cache_pool s)) as [[a pl]|] eqn:Ep; [|split; [done|]; exists tb, oi1; apply add_no_memory; by destruct (syn_cache_pool s) as [[|]]].
    pose proof (sc_fill_fresh e src dst th tp (if TCP_MAXWIN <? space then TCP_MAXWIN else space) ipopts tb oi1) as F.
    pose proof (sc_fill_sendable e src dst th tp (if TCP_MAXWIN <? space then TCP_MAXWIN else space) ipopts tb oi1 O) as Ds.
    pose proof (answer_safe e src dst tp s a pl _ Ok I D Ds F Hr Ep) as H.
    destruct (syn_cache_answer e a tp _) as [s'|]; [|done]. cbn [mbind option_bind]. destruct H as [I' H]. split; [done|]. by exists tb, oi1.
Qed.

(** ** An ACK *)

(** The acknowledgement is not that of the SYN,ACK, or the segment is outside of
    the window the SYN,ACK offered. *)
Definition ack_wrong (sc : syn_cache) (th : tcphdr) : bool :=
  negb (th_ack th =? u32 (sc_iss sc + 1)) || SEQ_LEQ (th_seq th) (sc_irs sc) || SEQ_GT (th_seq th) (sc_irs sc + 1 + sc_win sc).

(** The table has an entry [sc] for the key [k]. *)
Definition entry (s : synst) (k : key) (sc : syn_cache) : Prop :=
  exists a, linked s a /\ y_mem s !! a = Some sc /\ k = (sc_src sc, sc_dst sc).

(** A connection or a RST takes the entry out of the table. *)
Definition get_spec (src dst : sockaddr_in) (th : tcphdr) (s : synst) (r : getres) (s' : synst) : Prop :=
  match r with
  | GetNull => s' = s /\ forall sc, ~ entry s (src, dst) sc
  | GetAgain => kept s s' /\ exists sc, entry s (src, dst) sc /\ ack_wrong sc th = true
  | _ => exists a sc, linked s a /\ y_mem s !! a = Some sc /\ sc_src sc = src /\ sc_dst sc = dst /\ ack_wrong sc th = false /\ without a s s'
  end.

Lemma upd_sc_without a f s s' : (forall sc, sc_src (f sc) = sc_src sc /\ sc_dst (f sc) = sc_dst sc) -> without a s s' -> without a s (upd_sc a f s').
Proof using.
  intros Hf []. split; try done.
  - intros b Hb. rewrite upd_sc_lookup_ne by done. auto.
  - intros sc' Hs. rewrite upd_sc_lookup in Hs. apply fmap_Some in Hs as (sc & Hs & ->). destruct (wo_key _ Hs) as (sc0 & ? & ? & ?).
    destruct (Hf sc) as [-> ->]. by exists sc0.
Qed.

(** The entry taken out by [syn_cache_rm] is changed and released. *)
Lemma release_safe e a f s sc s1 : inv [a] s1 -> without a s s1 -> y_mem s1 !! a = Some sc -> calls fn a (f sc) ->
  (forall sc, sc_src (f sc) = sc_src sc /\ sc_dst (f sc) = sc_dst sc) ->
  inv [] (syn_cache_put e a (upd_sc a f s1)) /\ without a s (syn_cache_put e a (upd_sc a f s1)).
Proof using.
  intros I W Es C Hf. split.
  - eapply syn_cache_put_inv; [apply upd_limbo_inv; [done|left]|rewrite upd_sc_lookup, Es; reflexivity|done].
  - apply syn_cache_put_without. by apply upd_sc_without.
Qed.

Lemma get_safe e ge src dst th s : ok e -> inv [] s -> sendable s ->
  match syn_cache_get e ge src dst th s with
  | Some (r, s') => inv [] s' /\ get_spec src dst th s r s'
  | None => False
  end.
Proof using bl_range cl_range.
  intros Ok I D. unfold syn_cache_get. destruct (syn_cache_lookup_spec _ _ _ _ _ s src dst I) as (r & -> & Hr). cbn [mbind option_bind].
  destruct r as [a|]; [|split; [done|]; split; [done|]; intros sc (a & La & Es & [= K1 K2]); by apply (Hr a sc)].
  destruct Hr as (La & sc & Es & K1 & K2). rewrite Es. cbn [mbind option_bind].
  fold (ack_wrong sc th). destruct (ack_wrong sc th) eqn:Aw.
  { destruct (respond_spec bl cl fn e a s Ok D ltac:(rewrite Es; by eexists)) as (r & -> & R). cbn [mbind option_bind].
    split; [by eapply touched_inv|]. split; [by eapply kept_touched|]. exists sc. split; [|done]. exists a. by rewrite K1, K2. }
  destruct (syn_cache_rm_inv bl cl fn objs bl_range cl_range [] a s I La) as (sc' & s1 & Es' & Hl & -> & E1 & I1). assert (sc' = sc) as -> by congruence.
  cbn [mbind option_bind]. assert (without a s s1) as W by (rewrite E1; by eapply removed_without).
  assert (y_mem s1 !! a = Some (sc <| sc_tp := None |> <| sc_timer := callout_stop (sc_timer sc) |>)) as Em.
  { rewrite E1. simpl. by rewrite lookup_alter_eq, Es. }
  pose proof (live_calls_stop fn s a sc Hl) as C. clear E1.
  assert (forall f, (forall sc, sc_timer (f sc) = sc_timer sc) -> (forall sc, sc_src (f sc) = sc_src sc /\ sc_dst (f sc) = sc_dst sc) ->
    inv [] (syn_cache_put e a (upd_sc a f s1)) /\
    exists a' sc', linked s a' /\ y_mem s !! a' = Some sc' /\ sc_src sc' = src /\ sc_dst sc' = dst /\ ack_wrong sc' th = false /\ without a' s (syn_cache_put e a (upd_sc a f s1))) as Rel.
  { intros f Ht Hf. destruct (release_safe e a f s _ s1 I1 W Em) as [I' W']; [|done|].
    - unfold calls in *. by rewrite Ht.
    - split; [done|]. by exists a, sc. }
  destruct (g_sonewconn ge) as [c|].
  - set (s2 := upd_sc a (fun sc => sc <| sc_route := rtcache_free (sc_route sc) |>) _).
    assert (exists f, (forall sc, sc_timer (f sc) = sc_timer sc) /\ (forall sc, sc_src (f sc) = sc_src sc /\ sc_dst (f sc) = sc_dst sc) /\ s2 = upd_sc a f s1) as (f & Ht & Hf & ->).
    { unfold s2. destruct (g_srcroute ge); [eexists; split; [|split; [|reflexivity]]; done|].
      exists ((fun sc => sc <| sc_route := rtcache_free (sc_route sc) |>) ∘ (fun sc => sc <| sc_ipopts := None |>)). split; [done|]. split; [done|].
      unfold upd_sc. simpl. by rewrite alter_alter_eq. }
    repeat case_match; simplify_eq; by apply Rel.
  - assert (s1 = upd_sc a id s1) as ->; [|by apply Rel].
    unfold upd_sc. rewrite alter_id by done. by destruct s1.
Qed.

(** ** A timer *)

Lemma free_upd a f s : syn_cache_free a (upd_sc a f s) = syn_cache_free a s.
Proof using. unfold syn_cache_free, upd_sc. simpl. by rewrite delete_alter_eq. Qed.

Lemma dropit_upd a f s sc : y_mem s !! a = Some sc -> sc_bucketidx (f sc) = sc_bucketidx sc ->
  syn_cache_dropit a (upd_sc a f s) = syn_cache_dropit a s.
Proof using.
  intros Es Ei. unfold syn_cache_dropit, syn_cache_rm. rewrite upd_sc_lookup, Es. cbn [fmap option_fmap option_map mbind option_bind]. rewrite Ei.
  change (tcp_syn_cache (upd_sc a f s)) with (tcp_syn_cache s). destruct (tcp_syn_cache s !! sc_bucketidx sc) as [h|]; [|done]. cbn [mbind option_bind].
  f_equal. unfold syn_cache_free, upd_sc, upd_head. simpl. rewrite !delete_alter_eq. done.
Qed.

(** The expiry of the timer of an entry: what [syn_cache_timer] finds. *)
Lemma expire_eq e a s sc : y_timer_fn e = fn -> y_mem s !! a = Some sc -> armed fn a sc ->
  exists f, syn_cache_expire e a s = syn_cache_timer e a (upd_sc a f s) /\
    forall sc, exists co, f sc = sc <| sc_timer := co |>.
Proof using.
  intros Ef Es ([n Et] & C1 & C2 & C3). unfold syn_cache_expire. rewrite Es. cbn [mbind option_bind]. rewrite Et. cbn [mbind option_bind].
  unfold wrapper_func. simpl. rewrite C1, C2. rewrite Ef, Z.eqb_refl. eexists. split; [reflexivity|]. intros sc'. by eexists.
Qed.

(** The entry has been retransmitted as often as possible, or for too long. *)
Definition expired (e : synenv) (sc : syn_cache) : bool :=
  (sc_rxtshift sc =? TCP_MAXRXTSHIFT) || (u32 (y_keepinit e) <=? u32 (sc_rxttot sc + sc_rxtcur sc)).

Lemma timer_live e a s sc f : ok e -> inv [] s -> sendable s -> y_mem s !! a = Some sc -> live fn s a sc -> (forall sc, exists co, f sc = sc <| sc_timer := co |>) ->
  match syn_cache_timer e a (upd_sc a f s) with
  | Some s' => inv [] s' /\ (expired e sc = true /\ s' = syn_cache_free a (removed a (sc_bucketidx sc) s) \/
                             expired e sc = false /\ exists sc', y_mem s' !! a = Some sc' /\ sc_rxtshift sc' = sc_rxtshift sc + 1 /\ kept s s')
  | None => False
  end.
Proof using bl_range cl_range.
  intros Ok I Sd Es Hl Hf. unfold syn_cache_timer, expired.
  set (f1 := (fun sc => sc <| sc_timer := callout_ack (sc_timer sc) |>) ∘ f).
  assert (upd_sc a (fun sc => sc <| sc_timer := callout_ack (sc_timer sc) |>) (upd_sc a f s) = upd_sc a f1 s) as ->.
  { unfold upd_sc, f1. simpl. by rewrite alter_alter_eq. }
  assert (forall sc, exists co, f1 sc = sc <| sc_timer := co |>) as Hf1.
  { intros sc'. unfold f1. simpl. destruct (Hf sc') as [co ->]. by eexists. }
  rewrite upd_sc_lookup, Es. cbn [fmap option_fmap option_map mbind option_bind]. destruct (Hf1 sc) as [co1 Ec]. rewrite Ec. upd_simpl.
  change (flag_set (sc_flags sc) SCF_DEAD) with (dead sc). rewrite (live_dead _ _ _ _ Hl).
  assert (linked s a) as La. { destruct (i_mem _ _ _ _ _ _ I a sc Es) as [?|[Hx|[D _]]]; [done|by apply elem_of_nil in Hx|]. rewrite (live_dead _ _ _ _ Hl) in D. done. }
  assert (exists s', syn_cache_dropit a s = Some s' /\ inv [] s' /\ s' = syn_cache_free a (removed a (sc_bucketidx sc) s)) as (sd & Ed & Id & Hd).
  { destruct (syn_cache_rm_inv bl cl fn objs bl_range cl_range [] a s I La) as (sc' & s1 & Es' & _ & Er & E1 & I1). assert (sc' = sc) as -> by congruence.
    unfold syn_cache_dropit. rewrite Er. cbn [mbind option_bind]. eexists. split; [done|]. split; [|by rewrite E1].
    apply syn_cache_free_inv; [done|apply not_elem_of_nil]. }
  destruct (Z.eqb_spec (sc_rxtshift sc) TCP_MAXRXTSHIFT) as [Esh|Nsh].
  { rewrite (dropit_upd a f1 s sc) by (done || by rewrite Ec). rewrite Ed. split; [done|]. left. by rewrite ?orb_true_r. }
  set (tot := u32 (sc_rxttot sc + sc_rxtcur sc)). set (f2 := (fun sc => sc <| sc_rxttot := tot |>) ∘ f1).
  assert (upd_sc a (fun sc => sc <| sc_rxttot := tot |>) (upd_sc a f1 s) = upd_sc a f2 s) as ->.
  { unfold upd_sc, f2. simpl. by rewrite alter_alter_eq. }
  assert (forall sc, exists co, f2 sc = sc <| sc_timer := co |> <| sc_rxttot := tot |>) as Hf2.
  { intros sc'. unfold f2. simpl. destruct (Hf1 sc') as [co ->]. by eexists. }
  destruct (Hf2 sc) as [co2 Ec2]. destruct (u32 (y_keepinit e) <=? tot). 
  { rewrite (dropit_upd a f2 s sc) by (done || by rewrite Ec2). rewrite Ed. split; [done|]. left. by rewrite ?orb_true_r. }
  assert (sendable (upd_sc a f2 s)) as D2 by (apply sendable_upd; [|done]; intros sc' ?; by destruct (Hf2 sc') as [co ->]).
  destruct (respond_spec bl cl fn e a (upd_sc a f2 s) Ok D2 ltac:(rewrite upd_sc_lookup, Es; by eexists)) as ([err s1] & -> & R). cbn [mbind option_bind snd] in *.
  assert (exists f3 g out, s1 = (upd_sc a f3 s) <| y_ipg := g |> <| y_out := out |> /\
    forall sc, exists co ro, f3 sc = sc <| sc_timer := co |> <| sc_rxttot := tot |> <| sc_route := ro |>) as (f3 & g & out & -> & Hf3).
  { destruct R as [->|(ro & g & out & ->)].
    - exists f2, (y_ipg s), (y_out s). split; [by destruct s|]. intros sc'. destruct (Hf2 sc') as [co ->]. exists co, (sc_route sc'). by destruct sc'.
    - exists ((fun sc => sc <| sc_route := ro |>) ∘ f2), g, out. split; [unfold upd_sc; simpl; by rewrite alter_alter_eq|].
      intros sc'. simpl. destruct (Hf2 sc') as [co ->]. by exists co, ro. }
  destruct (Hf3 sc) as (co3 & ro3 & Ec3). pose proof (live_shift _ _ _ _ Hl) as Hsh.
  set (s2 := upd_sc a (fun sc => sc <| sc_rxtshift := u16 (sc_rxtshift sc + 1) |>) _).
  assert (y_mem s2 !! a = Some ((f3 sc) <| sc_rxtshift := u16 (sc_rxtshift sc + 1) |>)) as Es2.
  { unfold s2. rewrite upd_sc_lookup. change (y_mem (_ <| y_ipg := g |> <| y_out := out |>)) with (y_mem (upd_sc a f3 s)).
    rewrite upd_sc_lookup, Es. cbn [fmap option_fmap option_map]. rewrite Ec3. by upd_simpl. }
  assert (u16 (sc_rxtshift sc + 1) = sc_rxtshift sc + 1) as Eu by (apply u16_small; unfold TCP_MAXRXTSHIFT in *; clear - Hsh; lia).
  rewrite (timer_arm_eq e a s2 _ Es2); [|simpl; rewrite Eu; clear - Hsh Nsh; lia].
  set (ticks := rexmt_ticks _). split.
  - assert (upd_sc a (restart e a ticks) s2 = (upd_sc a (fun sc => restart e a ticks ((f3 sc) <| sc_rxtshift := u16 (sc_rxtshift (f3 sc) + 1) |>)) s) <| y_ipg := g |> <| y_out := out |>) as ->.
    { unfold s2, upd_sc. simpl. by rewrite !alter_alter_eq. }
    apply syn_inv_ext. apply upd_sc_inv; [done|]. intros sc' E'. assert (sc' = sc) as -> by congruence. rewrite Ec3.
    split; try done. + simpl. rewrite Eu. clear - Hsh Nsh. lia. + intros _. apply restart_armed, (eo_fn _ _ _ _ Ok).
  - right. split; [done|]. exists (restart e a ticks ((f3 sc) <| sc_rxtshift := u16 (sc_rxtshift sc + 1) |>)). split; [by rewrite upd_sc_lookup, Es2|]. split; [simpl; by rewrite Eu|].
    split; [done|]. intros b scb Lb Eb. destruct (decide (b = a)) as [->|Nb].
    + assert (scb = sc) as -> by congruence. eexists. split; [by rewrite upd_sc_lookup, Es2|]. by rewrite Ec3.
    + exists scb. split; [|apply keeps_refl]. rewrite upd_sc_lookup_ne by done. unfold s2. rewrite upd_sc_lookup_ne by done.
      change (y_mem (upd_sc a f3 s) !! b = Some scb). by rewrite upd_sc_lookup_ne.
Qed.

Lemma timer_dead e a s sc f : inv [] s -> y_mem s !! a = Some sc -> dead sc = true -> (forall sc, exists co, f sc = sc <| sc_timer := co |>) ->
  syn_cache_timer e a (upd_sc a f s) = Some (syn_cache_free a s) /\ inv [] (syn_cache_free a s).
Proof using.
  intros I Es D Hf. split.
  - unfold syn_cache_timer. rewrite !upd_sc_lookup, Es. cbn [fmap option_fmap option_map mbind option_bind]. destruct (Hf sc) as [co ->]. upd_simpl.
    change (flag_set (sc_flags sc) SCF_DEAD) with (dead sc). rewrite D. by rewrite !free_upd.
  - apply syn_cache_free_inv; [by eapply take_dead|apply not_elem_of_nil].
Qed.

Lemma expire_safe e a s sc : ok e -> inv [] s -> sendable s -> y_mem s !! a = Some sc -> is_Some (timer (sc_timer sc)) -> safe (syn_cache_expire e a s).
Proof using bl_range cl_range.
  intros Ok I Sd Es T. destruct (i_mem _ _ _ _ _ _ I a sc Es) as [La|[Hx|[D A]]]; [|by apply elem_of_nil in Hx|].
  - destruct (linked_live _ _ _ _ _ _ _ I La) as (sc' & h & E' & _ & _ & Hl). assert (sc' = sc) as -> by congruence.
    destruct (expire_eq e a s sc (eo_fn _ _ _ _ Ok) Es (live_armed _ _ _ _ Hl)) as (f & -> & Hf).
    pose proof (timer_live e a s sc f Ok I Sd Es Hl Hf) as H. destruct (syn_cache_timer e a (upd_sc a f s)) as [s'|]; [exists s'; by destruct H|done].
  - destruct (expire_eq e a s sc (eo_fn _ _ _ _ Ok) Es A) as (f & -> & Hf). destruct (timer_dead e a s sc f I Es D Hf) as [-> I']. by eexists.
Qed.

(** ** All events *)

Inductive event :=
  | EvSyn (src dst : sockaddr_in) (th : tcphdr) (tp space : Z) (ipopts : option ipoption) (tb0 : tcpcb) (g : sack_globals)
      (optp : option (list Z)) (oi : tcp_opt_info)
  | EvAck (ge : getenv) (src dst : sockaddr_in) (th : tcphdr)
  | EvRst (src dst : sockaddr_in) (th : tcphdr)
  | EvIcmp (src dst : sockaddr_in) (seq : tcp_seq)
  | EvTimer (a : addr)
  | EvClose (tp : Z).

(** What the code does about an event. *)
Definition syn_run (e : synenv) (ev : event) (s : synst) : option synst :=
  match ev with
  | EvSyn src dst th tp space ipopts tb0 g optp oi => (fun r => r.1.1.2) <$> syn_cache_add e src dst th tp space ipopts tb0 g optp oi s
  | EvAck ge src dst th => snd <$> syn_cache_get e ge src dst th s
  | EvRst src dst th => syn_cache_reset e src dst th s
  | EvIcmp src dst seq => syn_cache_unreach e src dst seq s
  | EvTimer a => syn_cache_expire e a s
  | EvClose tp => syn_cache_cleanup e tp s
  end.

(** A SYN that reaches [syn_cache_add] carries no ACK and its source route has
    legal length; a timer that expires is armed. *)
Definition enabled (ev : event) (s : synst) : Prop :=
  match ev with
  | EvSyn _ _ th _ _ ipopts _ _ _ _ => flag_set (th_flags th) TH_ACK = false /\ opts_ok ipopts
  | EvTimer a => exists sc, y_mem s !! a = Some sc /\ is_Some (timer (sc_timer sc))
  | _ => True
  end.

Lemma event_safe e s ev : ok e -> inv [] s -> sendable s -> enabled ev s -> safe (syn_run e ev s).
Proof using bl_range cl_range objs_nodup.
  intros Ok I D E. destruct ev as [src dst th tp space ipopts tb0 g optp oi|ge src dst th|src dst th|src dst seq|a|tp]; simpl in *.
  - pose proof (add_safe e src dst th tp space ipopts tb0 g optp oi s Ok I D (proj2 E) (proj1 E)) as H.
    destruct (syn_cache_add e src dst th tp space ipopts tb0 g optp oi s) as [[[[ret s'] g'] oi']|]; [exists s'; by destruct H|done].
  - pose proof (get_safe e ge src dst th s Ok I D) as H. destruct (syn_cache_get e ge src dst th s) as [[r s']|]; [exists s'; by destruct H|done].
  - by apply reset_safe.
  - by apply unreach_safe.
  - destruct E as (sc & ? & ?). by eapply expire_safe.
  - by apply cleanup_safe.
Qed.

Inductive syn_reachable (s0 : synst) : synst -> Prop :=
  | reach_init : syn_reachable s0 s0
  | reach_event e ev s s' : syn_reachable s0 s -> ok e -> enabled ev s -> syn_run e ev s = Some s' -> syn_reachable s0 s'.

Lemma event_sendable e s ev s' : ok e -> sendable s -> enabled ev s -> syn_run e ev s = Some s' -> sendable s'.
Proof using.
  intros Ok D En E. pose proof (eo_net _ _ _ _ Ok) as N. destruct ev as [src dst th tp space ipopts tb0 g optp oi|ge src dst th|src dst th|src dst seq|a|tp]; simpl in *.
  - apply fmap_Some in E as ([[[ret s1] g1] oi1] & E & ->). destruct En as [_ O]. exact (sendable_add e N _ _ _ _ _ _ _ _ _ _ _ _ _ _ _ O D E).
  - apply fmap_Some in E as ([r s1] & E & ->). by eapply sendable_get.
  - by eapply sendable_reset.
  - by eapply sendable_unreach.
  - by eapply sendable_expire.
  - by eapply sendable_cleanup.
Qed.

Lemma reachable_inv s0 s : inv [] s0 -> sendable s0 -> syn_reachable s0 s -> inv [] s /\ sendable s.
Proof using bl_range cl_range objs_nodup.
  intros I0 D0. induction 1 as [|e ev s s' R [IH D] Ok En E]; [done|]. split; [|by eapply event_sendable].
  destruct (event_safe e s ev Ok IH D En) as (s2 & E2 & I). by replace s' with s2 by congruence.
Qed.
End safe.

Lemma syn_cache_init_inv bl cl fn count ipg : 0 < bl -> 0 < cl -> syn_inv bl cl fn (mempool (pool_init count)) [] (syn_cache_init count ipg).
Proof.
  intros Hb Hc. assert (forall i h, tcp_syn_cache (syn_cache_init count ipg) !! i = Some h -> h = mkSch [] 0) as Hh.
  { intros i h Hi. by apply lookup_replicate in Hi as [-> _]. }
  assert (forall a, ~ linked (syn_cache_init count ipg) a) as Nl.
  { intros a (i & h & Hi & Ha). rewrite (Hh i h Hi) in Ha. by apply elem_of_nil in Ha. }
  split.
  - apply length_replicate.
  - intros i h Hi. rewrite (Hh i h Hi). simpl. split; [done|]. split; [lia|constructor].
  - intros i h a Hi Ha. exfalso. apply (Nl a). by exists i, h.
  - split; [by vm_compute|cbn [syn_cache_init syn_cache_count]; lia].
  - intros a sc Ha. cbn [syn_cache_init y_mem] in Ha. by rewrite lookup_empty in Ha.
  - intros a b sca scb La. by apply Nl in La.
  - intros tp l Hl. cbn [syn_cache_init t_sc] in Hl. by rewrite lookup_empty in Hl.
  - simpl. by rewrite dom_empty_L, elements_empty, app_nil_r.
  - intros a Ha. by apply elem_of_nil in Ha.
Qed.

Lemma syn_cache_init_sendable count ipg : ids_ok (g_ids ipg) -> sendable (syn_cache_init count ipg).
Proof. intros K. split; [done|apply map_Forall_empty]. Qed.

Lemma syn_cache_reachable_inv bl cl fn count ipg s : 0 < bl < 2 ^ 16 -> 0 < cl < 2 ^ 63 -> ids_ok (g_ids ipg) ->
  syn_reachable bl cl fn (syn_cache_init count ipg) s -> syn_inv bl cl fn (mempool (pool_init count)) [] s /\ sendable s.
Proof.
  intros Hb Hc K R. eapply reachable_inv; [done|done|apply pool_init_nodup| | |exact R]; [apply syn_cache_init_inv; lia|by apply syn_cache_init_sendable].
Qed.

(** C5. From an empty cache, whatever SYNs, ACKs, RSTs and ICMP errors arrive in
    whatever order, whichever timers expire and whichever listening sockets are
    closed, with any secrets, clocks and failures of the layers below: every
    entry is in the bucket its key hashes to, under the secrets in use; no key
    is there twice; the counters are exact and within their limits; the lists of
    the listening sockets hold exactly their entries; an entry that has left the
    table has the timer that will free it; and every object of the pool is
    either free or held.  Every call of the cache in such a state returns: none follows a null or
    stale pointer, fails an assertion in [ip_output] or runs forever. *)
Theorem syn_cache_safe bl cl fn count ipg s : 0 < bl < 2 ^ 16 -> 0 < cl < 2 ^ 63 -> ids_ok (g_ids ipg) ->
  syn_reachable bl cl fn (syn_cache_init count ipg) s ->
  syn_inv bl cl fn (mempool (pool_init count)) [] s /\
  forall e ev, env_ok bl cl fn e -> enabled ev s -> is_Some (syn_run e ev s).
Proof.
  intros Hb Hc K R. destruct (syn_cache_reachable_inv bl cl fn count ipg s Hb Hc K R) as [I D].
  split; [done|]. intros e ev Ok En.
  destruct (event_safe bl cl fn _ Hb Hc (pool_init_nodup count) e s ev Ok I D En) as (s' & -> & _). by eexists.
Qed.

(** ** Entries do not stay forever *)

(** The timer of an entry expires [n] times, the cache being left alone in between. *)
Fixpoint expire_times (n : nat) (es : nat -> synenv) (a : addr) (s : synst) : option synst :=
  match n with
  | O => Some s
  | S n => s ← expire_times n es a s; syn_cache_expire (es n) a s
  end.

Lemma expire_progress bl cl fn objs e a s sc : 0 < bl < 2 ^ 16 -> 0 < cl < 2 ^ 63 -> env_ok bl cl fn e -> syn_inv bl cl fn objs [] s -> sendable s ->
  linked s a -> y_mem s !! a = Some sc ->
  match syn_cache_expire e a s with
  | Some s' => syn_inv bl cl fn objs [] s' /\ sendable s' /\
      (y_mem s' !! a = None \/ sc_rxtshift sc < TCP_MAXRXTSHIFT /\ linked s' a /\ exists sc', y_mem s' !! a = Some sc' /\ sc_rxtshift sc' = sc_rxtshift sc + 1)
  | None => False
  end.
Proof.
  intros Hb Hc Ok I D La Es. destruct (linked_live _ _ _ _ _ _ _ I La) as (sc' & h & E' & _ & _ & Hl). assert (sc' = sc) as -> by congruence.
  destruct (expire_eq fn e a s sc (eo_fn _ _ _ _ Ok) Es (live_armed _ _ _ _ Hl)) as (f & Ef & Hf).
  pose proof (timer_live bl cl fn objs Hb Hc e a s sc f Ok I D Es Hl Hf) as H. rewrite <- Ef in H. clear Ef.
  destruct (syn_cache_expire e a s) as [s'|] eqn:Ee; [|done]. apply (sendable_expire e (eo_net _ _ _ _ Ok) a s s' D) in Ee.
  destruct H as [I' [[_ ->]|(_ & sc2 & E2 & Hs & [HL _])]]; (split; [done|]); (split; [done|]); [left; simpl; apply lookup_delete_eq|].
  right. assert (linked s' a) as La' by (by apply HL). destruct (linked_live _ _ _ _ _ _ _ I' La') as (sc3 & h3 & E3 & _ & _ & []).
  assert (sc3 = sc2) as -> by congruence. split; [lia|]. split; [done|]. by exists sc2.
Qed.

(** After [k] expiries the entry is gone, or has been retransmitted [k] times. *)
Lemma expires bl cl fn objs es a : 0 < bl < 2 ^ 16 -> 0 < cl < 2 ^ 63 -> (forall i, env_ok bl cl fn (es i)) -> forall s sc,
  syn_inv bl cl fn objs [] s -> sendable s -> linked s a -> y_mem s !! a = Some sc -> forall k, (k <= 13)%nat ->
  (exists n s', (n <= 13)%nat /\ expire_times n es a s = Some s' /\ y_mem s' !! a = None /\ syn_inv bl cl fn objs [] s') \/
  exists s' sc, expire_times k es a s = Some s' /\ syn_inv bl cl fn objs [] s' /\ sendable s' /\ linked s' a /\ y_mem s' !! a = Some sc /\ Z.of_nat k <= sc_rxtshift sc.
Proof.
  intros Hb Hc Oks s sc I D La Es. induction k as [|k IH]; intros Hle.
  - right. destruct (linked_live _ _ _ _ _ _ _ I La) as (sc0 & h & E0 & _ & _ & []). assert (sc0 = sc) as -> by congruence. exists s, sc. simpl. split_and!; try done. lia.
  - destruct IH as [?|(s1 & sc1 & E1 & I1 & D1 & L1 & M1 & S1)]; [lia|by left|].
    pose proof (expire_progress bl cl fn objs (es k) a s1 sc1 Hb Hc (Oks k) I1 D1 L1 M1) as P.
    destruct (syn_cache_expire (es k) a s1) as [s2|] eqn:E2; [|done].
    destruct P as (I2 & D2 & [N2|(S2 & L2 & sc2 & M2 & T2)]).
    + left. exists (S k), s2. split; [lia|]. cbn [expire_times]. rewrite E1. by cbn [mbind option_bind].
    + right. exists s2, sc2. cbn [expire_times]. rewrite E1. cbn [mbind option_bind]. split_and!; try done. lia.
Qed.

(** C37. An entry whose peer stays silent does not stay: in every reachable state,
    for every entry of the table, after at most thirteen expiries of its timer
    the entry has been taken out of the table and given back to the pool,
    whatever the clock and the layers below do in the meantime. *)
Theorem syn_entry_expires bl cl fn count ipg s es a : 0 < bl < 2 ^ 16 -> 0 < cl < 2 ^ 63 -> ids_ok (g_ids ipg) ->
  syn_reachable bl cl fn (syn_cache_init count ipg) s -> (forall i, env_ok bl cl fn (es i)) -> linked s a ->
  exists n s', (n <= 13)%nat /\ expire_times n es a s = Some s' /\ y_mem s' !! a = None /\ ~ linked s' a /\ a ∈ mempool (syn_cache_pool s').
Proof.
  intros Hb Hc Hk R Oks La. destruct (syn_cache_reachable_inv bl cl fn count ipg s Hb Hc Hk R) as [I D].
  clear R. set (objs := mempool (pool_init count)) in *.
  destruct (linked_live _ _ _ _ _ _ _ I La) as (sc & h & Es & _ & _ & Hl).
  assert (a ∈ objs) as Ho. { rewrite <- (i_pool _ _ _ _ _ _ I). apply elem_of_app. right. apply elem_of_elements. by apply elem_of_dom_2 in Es. }
  destruct (expires bl cl fn objs es a Hb Hc Oks s sc I D La Es 13 ltac:(lia)) as [(n & s' & Hn & E & N & I')|(s1 & sc1 & E1 & I1 & _ & L1 & M1 & S1)].
  - exists n, s'. split; [done|]. split; [done|]. split; [done|]. split.
    + intros L. destruct (linked_live _ _ _ _ _ _ _ I' L) as (? & ? & ? & _). congruence.
    + rewrite <- (i_pool _ _ _ _ _ _ I') in Ho. apply elem_of_app in Ho as [?|Ho]; [done|]. apply elem_of_elements, elem_of_dom in Ho as [? ?]. congruence.
  - exfalso. destruct (linked_live _ _ _ _ _ _ _ I1 L1) as (sc2 & h2 & E2 & _ & _ & []). assert (sc2 = sc1) as -> by congruence. unfold TCP_MAXRXTSHIFT in *. lia.
Qed.
