(* ===== verification/SynCacheMap.v ===== *)
(** * The SYN cache is a finite map

    Its keys are the two ends of a connection, its values what the SYN,ACKs of
    an entry promise.  Each event changes the map in one of a few ways; in
    particular a new entry pushes out at most one other. *)

From S2P Require Import Prelude Pool TcpSeq Callout Tcpcb TcpSack TcpTimer InCksum TcpOptions TcpReass TcpInput TcpOutput.
From S2P Require Import IpReass IpId Ip IpOutput IpTotal SynCache SynCacheSend SynCacheFacts SynCacheSafe.

(** ** The abstract map *)

Inductive effect :=
  | EffNone
  | EffAdd (k : key) (p : promise) (gone : option key)
  | EffRemove (k : key)
  | EffClose (tp : Z).

Definition after (eff : effect) (H : key -> promise -> Prop) (k : key) (p : promise) : Prop :=
  match eff with
  | EffNone => H k p
  | EffAdd k' p' gone => (k = k' /\ p = p') \/ (H k p /\ gone <> Some k)
  | EffRemove k' => H k p /\ k <> k'
  | EffClose tp => H k p /\ pr_tp p <> Some tp
  end.

(** The sequence number of a RST is not one the peer of the entry can use. *)
Definition rst_wrong (sc : syn_cache) (th : tcphdr) : bool :=
  SEQ_LT (th_seq th) (sc_irs sc) || SEQ_GT (th_seq th) (sc_irs sc + 1).

(** An ICMP error is not about the SYN,ACK, or is the first one, or comes before
    the third retransmission. *)
Definition icmp_ignored (sc : syn_cache) (seq : tcp_seq) : bool :=
  negb (seq =? sc_iss sc) || (negb (flag_set (sc_flags sc) SCF_UNREACH) || (sc_rxtshift sc <? 3)).

(** An event that may remove the entry of the key [k] removes it exactly when
    [keep] does not hold of the entry. *)
Definition removes (s : synst) (k : key) (keep : syn_cache -> bool) (eff : effect) : Prop :=
  match eff with
  | EffNone => forall sc, entry s k sc -> keep sc = true
  | EffRemove k' => k' = k /\ exists sc, entry s k sc /\ keep sc = false
  | _ => False
  end.

(** The effect of an event on a table. *)
Definition allowed (e : synenv) (ev : event) (s : synst) (eff : effect) : Prop :=
  match ev with
  | EvSyn src dst th tp _ _ _ _ _ _ =>
      match eff with
      | EffNone => (exists p, holds s (src, dst) p) \/ mempool (syn_cache_pool s) = [] \/ exists sc, fresh src dst tp sc /\ unsent e sc s
      | EffAdd k p gone =>
          k = (src, dst) /\ (forall p, ~ holds s k p) /\ pr_irs p = th_seq th /\ pr_tp p = Some tp /\ (gone = None \/ cache_full e s)
      | _ => False
      end
  | EvAck _ src dst th => removes s (src, dst) (fun sc => ack_wrong sc th) eff
  | EvRst src dst th => removes s (src, dst) (fun sc => rst_wrong sc th) eff
  | EvIcmp src dst seq => removes s (src, dst) (fun sc => icmp_ignored sc seq) eff
  | EvTimer a =>
      match eff with
      | EffNone => forall sc, linked s a -> y_mem s !! a = Some sc -> expired e sc = false
      | EffRemove k => exists sc, linked s a /\ y_mem s !! a = Some sc /\ k = (sc_src sc, sc_dst sc) /\ expired e sc = true
      | _ => False
      end
  | EvClose tp => eff = EffClose tp
  end.

Section map.
Variables (bl cl fn : Z) (objs : list addr).
Hypothesis (bl_range : 0 < bl < 2 ^ 16) (cl_range : 0 < cl < 2 ^ 63) (objs_nodup : NoDup objs).

Abbreviation inv := (syn_inv bl cl fn objs []).
Abbreviation ok := (env_ok bl cl fn).

Lemma holds_kept s s' k p : inv s -> kept s s' -> holds s' k p <-> holds s k p.
Proof using.
  intros I [L K]. split.
  - intros (a & sc' & La & Es & -> & ->). apply L in La. destruct (linked_live _ _ _ _ _ _ _ I La) as (sc & _ & E & _).
    destruct (K a sc La E) as (sc2 & E2 & K1 & K2 & K3). assert (sc2 = sc') as -> by congruence. exists a, sc. rewrite K1, K2, K3. done.
  - intros (a & sc & La & Es & -> & ->). destruct (K a sc La Es) as (sc' & E' & K1 & K2 & K3). exists a, sc'.
    split; [by apply L|]. split; [done|]. by rewrite K1, K2, K3.
Qed.

(** The table of [s'] is that of [s] without the entry [a]. *)
Definition minus (a : addr) (s s' : synst) : Prop :=
  (forall b, linked s' b <-> linked s b /\ b <> a) /\ forall b, b <> a -> y_mem s' !! b = y_mem s !! b.

Lemma without_minus a s s' : without a s s' -> minus a s s'.
Proof using. intros W. split; [apply (wo_linked _ _ _ W)|apply (wo_mem _ _ _ W)]. Qed.

Lemma holds_minus s s' a sc k p : inv s -> linked s a -> y_mem s !! a = Some sc -> minus a s s' ->
  holds s' k p <-> holds s k p /\ k <> (sc_src sc, sc_dst sc).
Proof using.
  intros I La Es [WL WM]. split.
  - intros (b & scb & Lb & Eb & -> & ->). apply WL in Lb as [Lb Nb]. rewrite WM in Eb by done.
    split; [by exists b, scb|]. intros [= K1 K2]. apply Nb. by apply (i_keys _ _ _ _ _ _ I b a scb sc).
  - intros [(b & scb & Lb & Eb & -> & ->) Nk]. assert (b <> a) as Nb by (intros ->; apply Nk; congruence).
    exists b, scb. split; [by apply WL|]. by rewrite WM.
Qed.

Lemma holds_added e s s' a sc' : inv s -> ~ linked s a -> added e a sc' s s' -> exists gone, (gone = None \/ cache_full e s) /\ forall k p,
  holds s' k p <-> (k = (sc_src sc', sc_dst sc') /\ p = promise_of sc') \/ (holds s k p /\ gone <> Some k).
Proof using.
  intros I Na [E (g & Hf & L) M].
  assert (exists gone : option key, (gone = None \/ cache_full e s) /\ forall b scb, linked s b -> y_mem s !! b = Some scb -> (g <> Some b <-> gone <> Some (sc_src scb, sc_dst scb))) as (gone & Hf' & Hg).
  { destruct g as [g|]; [|exists None; split; [by left|done]]. destruct Hf as [|Hf]; [done|]. destruct (y_mem s !! g) as [scg|] eqn:Eg.
    - exists (if bool_decide (Exists (fun h => g ∈ sch_bucket h) (tcp_syn_cache s)) then Some (sc_src scg, sc_dst scg) else None).
      split; [by right|]. intros b scb Lb Eb. case_bool_decide as Hx.
      + assert (linked s g) as Lg by (apply Exists_exists in Hx as (h & Hh & ?); apply list_elem_of_lookup in Hh as [i ?]; by exists i, h).
        split; [|congruence]. intros N [= K1 K2]. apply N. f_equal. by apply (i_keys _ _ _ _ _ _ I g b scg scb).
      + split; [done|]. intros _ [= ->]. apply Hx. destruct Lb as (i & h & Hi & Hb). apply Exists_exists. exists h. split; [|done]. by eapply list_elem_of_lookup_2.
    - exists None. split; [by left|]. intros b scb Lb Eb. split; [done|]. intros _ [= ->]. congruence. }
  exists gone. split; [done|]. intros k p. split.
  - intros (b & scb & Lb & Eb & -> & ->). destruct (decide (b = a)) as [->|Nb]; [left; by replace scb with sc' by congruence|].
    right. rewrite (M b Nb Lb) in Eb. apply L in Lb as [?|[Lb Gb]]; [done|]. split; [by exists b, scb|]. by apply (Hg b scb Lb Eb).
  - intros [[-> ->]|[(b & scb & Lb & Eb & -> & ->) Gb]]; [exists a, sc'; split; [apply L; by left|done]|].
    assert (b <> a) as Nb by (by intros ->). assert (linked s' b) as Lb' by (apply L; right; split; [done|]; by apply (Hg b scb Lb Eb)).
    exists b, scb. split; [done|]. by rewrite (M b Nb Lb').
Qed.

(** ** Every event *)

Definition simulates (e : synenv) (ev : event) (s s' : synst) : Prop :=
  exists eff, allowed e ev s eff /\ forall k p, holds s' k p <-> after eff (holds s) k p.

Lemma simulates_none e ev s s' : inv s -> allowed e ev s EffNone -> kept s s' -> simulates e ev s s'.
Proof using. intros I A K. exists EffNone. split; [done|]. intros k p. by apply holds_kept. Qed.

Lemma simulates_remove e ev s s' a sc : inv s -> linked s a -> y_mem s !! a = Some sc -> minus a s s' ->
  allowed e ev s (EffRemove (sc_src sc, sc_dst sc)) -> simulates e ev s s'.
Proof using. intros I La Es W A. eexists. split; [done|]. intros k p. by eapply holds_minus. Qed.

Lemma entry_unique s k sc sc' : inv s -> entry s k sc -> entry s k sc' -> sc' = sc.
Proof using.
  intros I (a & La & Es & ->) (b & Lb & Eb & [= K1 K2]). assert (a = b) as -> by (by apply (i_keys _ _ _ _ _ _ I a b sc sc')). congruence.
Qed.

Lemma removes_none s k keep sc : inv s -> entry s k sc -> keep sc = true -> removes s k keep EffNone.
Proof using. intros I E K sc' E'. by rewrite (entry_unique s k sc sc'). Qed.

(** The three events that look their key up. *)
Lemma lookup_absent s src dst keep : (forall a sc, linked s a -> y_mem s !! a = Some sc -> sc_src sc = src -> sc_dst sc = dst -> False) ->
  removes s (src, dst) keep EffNone.
Proof using. intros N sc (a & La & Es & [= K1 K2]). exfalso. by apply (N a sc). Qed.

Lemma rst_simulates e src dst th s s' : inv s -> syn_cache_reset e src dst th s = Some s' -> simulates e (EvRst src dst th) s s'.
Proof using bl_range cl_range.
  intros I. unfold syn_cache_reset. destruct (syn_cache_lookup_spec _ _ _ _ _ s src dst I) as (r & -> & Hr). cbn [mbind option_bind].
  destruct r as [a|]; [|intros [= <-]; apply simulates_none; [done|by apply lookup_absent|apply kept_refl]].
  destruct Hr as (La & sc & Es & <- & <-). rewrite Es. cbn [mbind option_bind]. assert (entry s (sc_src sc, sc_dst sc) sc) as En by (by exists a).
  fold (rst_wrong sc th). destruct (rst_wrong sc th) eqn:Ew; [intros [= <-]; apply simulates_none; [done|by eapply removes_none|apply kept_refl]|].
  destruct (rm_put_inv bl cl fn objs bl_range cl_range e [] a s I La) as (s1 & -> & I' & W). intros [= <-].
  eapply simulates_remove; [done|done|done|by apply without_minus|]. split; [done|]. by exists sc.
Qed.

Lemma icmp_simulates e src dst seq s s' : inv s -> syn_cache_unreach e src dst seq s = Some s' -> simulates e (EvIcmp src dst seq) s s'.
Proof using bl_range cl_range.
  intros I. unfold syn_cache_unreach. destruct (syn_cache_lookup_spec _ _ _ _ _ s src dst I) as (r & -> & Hr). cbn [mbind option_bind].
  destruct r as [a|]; [|intros [= <-]; apply simulates_none; [done|by apply lookup_absent|apply kept_refl]].
  destruct Hr as (La & sc & Es & <- & <-). rewrite Es. cbn [mbind option_bind]. assert (entry s (sc_src sc, sc_dst sc) sc) as En by (by exists a).
  destruct (negb (seq =? sc_iss sc)) eqn:E1.
  { intros [= <-]. apply simulates_none; [done| |apply kept_refl]. eapply removes_none; [done|done|]. unfold icmp_ignored. by rewrite E1. }
  destruct (negb (flag_set (sc_flags sc) SCF_UNREACH) || (sc_rxtshift sc <? 3)) eqn:E2.
  - intros [= <-]. apply simulates_none; [done| |]; [eapply removes_none; [done|done|]; unfold icmp_ignored; by rewrite E1, E2|].
    apply kept_upd. intros sc'. split; [done|]. split; [done|]. unfold promise_of. upd_simpl. f_equal.
    rewrite Z.land_lor_distr_l. change (Z.land SCF_UNREACH _) with 0. by rewrite Z.lor_0_r.
  - destruct (rm_put_inv bl cl fn objs bl_range cl_range e [] a s I La) as (s1 & -> & I' & W). intros [= <-].
    eapply simulates_remove; [done|done|done|by apply without_minus|]. split; [done|]. exists sc. split; [done|]. unfold icmp_ignored. by rewrite E1, E2.
Qed.

Lemma ack_simulates e ge src dst th s r s' : ok e -> inv s -> sendable s -> syn_cache_get e ge src dst th s = Some (r, s') -> simulates e (EvAck ge src dst th) s s'.
Proof using bl_range cl_range.
  intros Ok I D E. pose proof (get_safe bl cl fn objs bl_range cl_range e ge src dst th s Ok I D) as H. rewrite E in H. destruct H as [_ G].
  destruct r; simpl in G.
  - destruct G as [-> N]. apply simulates_none; [done| |apply kept_refl]. intros sc Hs. exfalso. by apply (N sc).
  - destruct G as (K & sc & En & W). apply simulates_none; [done| |done]. by eapply removes_none.
  - destruct G as (a & sc & La & Es & <- & <- & Aw & W). eapply simulates_remove; [done|done|done|by apply without_minus|]. split; [done|]. exists sc. split; [by exists a|done].
  - destruct G as (a & sc & La & Es & <- & <- & Aw & W). eapply simulates_remove; [done|done|done|by apply without_minus|]. split; [done|]. exists sc. split; [by exists a|done].
  - destruct G as (a & sc & La & Es & <- & <- & Aw & W). eapply simulates_remove; [done|done|done|by apply without_minus|]. split; [done|]. exists sc. split; [by exists a|done].
Qed.

Lemma sc_fill_promise e src dst th tp win ipopts tb oi : let p := promise_of (sc_fill e src dst th tp win ipopts tb oi) in
  pr_irs p = th_seq th /\ pr_tp p = Some tp.
Proof using. split; reflexivity. Qed.

Lemma promise_inserted e a hash sc ro : promise_of (inserted_sc e a hash (sc <| sc_route := ro |>)) = promise_of sc.
Proof using. reflexivity. Qed.

Lemma inserted_key e a hash sc : sc_src (inserted_sc e a hash sc) = sc_src sc /\ sc_dst (inserted_sc e a hash sc) = sc_dst sc.
Proof using. split; reflexivity. Qed.

Lemma syn_simulates e src dst th tp space ipopts tb0 g optp oi s ret s' g' oi' : ok e -> inv s -> sendable s -> opts_ok ipopts -> flag_set (th_flags th) TH_ACK = false ->
  syn_cache_add e src dst th tp space ipopts tb0 g optp oi s = Some (ret, s', g', oi') ->
  simulates e (EvSyn src dst th tp space ipopts tb0 g optp oi) s s'.
Proof using bl_range cl_range objs_nodup.
  intros Ok I D O Na E. pose proof (add_safe bl cl fn objs bl_range cl_range objs_nodup e src dst th tp space ipopts tb0 g optp oi s Ok I D O Na) as H.
  rewrite E in H. destruct H as [_ (tb & oi1 & A)]. revert A. generalize (if TCP_MAXWIN <? space then TCP_MAXWIN else space). intros win A.
  destruct (sc_fill_promise e src dst th tp win ipopts tb oi1) as [P1 P2]. pose proof (sc_fill_fresh e src dst th tp win ipopts tb oi1) as Fr.
  revert A P1 P2 Fr. generalize (sc_fill e src dst th tp win ipopts tb oi1). intros sc A P1 P2 Fr.
  inversion A as [p s1 Hp K|HE|s1 Un K|a ro hash s1 Nl Nk Ad]; subst.
  { apply simulates_none; [done|left; by exists p|done]. }
  { apply simulates_none; [done|right; by left|apply kept_refl]. }
  { apply simulates_none; [done|right; right; by exists sc|done]. }
  destruct Fr as [F1 F2 _ _ _].
  destruct (holds_added e s s' a _ I Nl Ad) as (gone & Hf & Hg). exists (EffAdd (src, dst) (promise_of sc) gone).
  split; [done|]. intros k p. rewrite Hg, promise_inserted. cbn [after].
  destruct (inserted_key e a hash (sc <| sc_route := ro |>)) as [-> ->]. change (sc_src (sc <| sc_route := ro |>)) with (sc_src sc).
  change (sc_dst (sc <| sc_route := ro |>)) with (sc_dst sc). by rewrite F1, F2.
Qed.

Lemma timer_simulates e a s s' sc : ok e -> inv s -> sendable s -> y_mem s !! a = Some sc -> is_Some (timer (sc_timer sc)) ->
  syn_cache_expire e a s = Some s' -> simulates e (EvTimer a) s s'.
Proof using bl_range cl_range.
  intros Ok I Sd Es T E. destruct (i_mem _ _ _ _ _ _ I a sc Es) as [La|[Hx|[D A]]]; [|by apply elem_of_nil in Hx|].
  - destruct (linked_live _ _ _ _ _ _ _ I La) as (sc' & h & E' & _ & _ & Hl). assert (sc' = sc) as -> by congruence.
    destruct (expire_eq fn e a s sc (eo_fn _ _ _ _ Ok) Es (live_armed _ _ _ _ Hl)) as (f & Ef & Hf).
    pose proof (timer_live bl cl fn objs bl_range cl_range e a s sc f Ok I Sd Es Hl Hf) as H. rewrite <- Ef, E in H.
    destruct H as [_ [[Ex ->]|(Ex & sc2 & _ & _ & K)]]; [|apply simulates_none; [done|intros sc3 _ E3; congruence|done]].
    apply (simulates_remove _ _ s _ a sc); [done|done|done| |by exists sc]. split.
    + intros b. apply (removed_linked bl cl fn objs [] a s sc b I La Es).
    + intros b Hb. simpl. by rewrite lookup_delete_ne, lookup_alter_ne.
  - destruct (expire_eq fn e a s sc (eo_fn _ _ _ _ Ok) Es A) as (f & Ef & Hf). destruct (timer_dead bl cl fn objs e a s sc f I Es D Hf) as [E1 _].
    rewrite Ef, E1 in E. injection E as <-. apply simulates_none; [done| |].
    { intros sc3 L3 E3. destruct (linked_live _ _ _ _ _ _ _ I L3) as (sc2 & _ & E2 & _ & _ & []). congruence. }
    split; [done|]. intros b scb Lb Eb. exists scb. split; [|apply keeps_refl].
    simpl. rewrite lookup_delete_ne; [done|]. intros ->. destruct (linked_live _ _ _ _ _ _ _ I Lb) as (sc2 & _ & E2 & _ & _ & []). congruence.
Qed.

Lemma close_simulates e tp s s' : inv s -> syn_cache_cleanup e tp s = Some s' -> simulates e (EvClose tp) s s'.
Proof using bl_range cl_range.
  intros I. unfold syn_cache_cleanup. set (l := default [] (t_sc s !! tp)).
  assert (NoDup l /\ forall a, a ∈ l <-> exists sc, linked s a /\ y_mem s !! a = Some sc /\ sc_tp sc = Some tp) as [N Hl].
  { unfold l. destruct (t_sc s !! tp) as [l0|] eqn:E; simpl.
    - destruct (i_tsc _ _ _ _ _ _ I _ _ E) as [N K]. split; [done|]. intros a. split; [intros Ha; destruct (K a Ha) as (? & sc & ? & ?); by exists sc|].
      intros (sc & La & Es & Et). destruct (linked_live _ _ _ _ _ _ _ I La) as (sc2 & _ & E2 & _ & _ & []). assert (sc2 = sc) as -> by congruence.
      destruct live_tp as (tp' & l' & ? & ? & ?). congruence.
    - split; [constructor|]. intros a. split; [intros Ha; by apply elem_of_nil in Ha|]. intros (sc & La & Es & Et).
      destruct (linked_live _ _ _ _ _ _ _ I La) as (sc2 & _ & E2 & _ & _ & []). destruct live_tp as (tp' & l' & ? & ? & ?). congruence. }
  destruct (cleanup_loop_safe bl cl fn objs bl_range cl_range e l s I N) as (s1 & -> & I' & L' & M'); [intros a Ha; by apply Hl in Ha as (? & ? & _)|].
  cbn [mbind option_bind]. intros [= <-]. exists (EffClose tp). split; [done|]. intros k p. split.
  - intros (b & scb & Lb & Eb & -> & ->). apply L' in Lb as [Lb Nb]. change (y_mem s1 !! b = Some scb) in Eb. rewrite M' in Eb by done.
    split; [by exists b, scb|]. simpl. intros Et. apply Nb, Hl. by exists scb.
  - intros [(b & scb & Lb & Eb & -> & ->) Nt]. assert (b ∉ l) as Nb. { intros Hb. apply Hl in Hb as (sc2 & _ & E2 & Et). apply Nt. simpl. congruence. }
    exists b, scb. split; [by apply L'|]. split; [|done]. change (y_mem s1 !! b = Some scb). by rewrite M'.
Qed.

Lemma event_simulates e ev s s' : ok e -> inv s -> sendable s -> enabled ev s -> syn_run e ev s = Some s' -> simulates e ev s s'.
Proof using bl_range cl_range objs_nodup.
  intros Ok I D En E. destruct ev as [src dst th tp space ipopts tb0 g optp oi|ge src dst th|src dst th|src dst seq|a|tp]; simpl in E.
  - apply fmap_Some in E as ([[[ret s1] g1] oi1] & E & ->). destruct En. by eapply syn_simulates.
  - apply fmap_Some in E as ([r s1] & E & ->). by eapply ack_simulates.
  - by eapply rst_simulates.
  - by eapply icmp_simulates.
  - destruct En as (sc & ? & ?). by eapply timer_simulates.
  - by eapply close_simulates.
Qed.

Lemma holds_functional s k p p' : inv s -> holds s k p -> holds s k p' -> p = p'.
Proof using.
  intros I (a & sc & La & Es & -> & ->) (b & scb & Lb & Eb & [= K1 K2] & ->). assert (a = b) as -> by (by apply (i_keys _ _ _ _ _ _ I a b sc scb)). congruence.
Qed.

Lemma lookup_holds s src dst : inv s -> exists r, syn_cache_lookup src dst s = Some r /\ (is_Some r <-> exists p, holds s (src, dst) p).
Proof using.
  intros I. destruct (syn_cache_lookup_spec _ _ _ _ _ s src dst I) as (r & E & Hr). exists r. split; [done|]. destruct r as [a|].
  - destruct Hr as (La & sc & Es & <- & <-). split; [|by eexists]. intros _. exists (promise_of sc). by exists a, sc.
  - split; [by intros [? ?]|]. intros (p & a & sc & La & Es & [= -> ->] & _). exfalso. by apply (Hr a sc).
Qed.
End map.

