(* ===== verification/SynHandshake.v ===== *)
(** * The handshake of a passive open

    The SYN,ACK is built from an entry of the SYN cache and the connection from
    the same entry when the ACK arrives, so that what the peer has been told is
    what the connection is: sequence numbers, window and options. *)

From S2P Require Import Prelude Pool TcpSeq Callout Tcpcb TcpSack TcpTimer InCksum TcpOptions TcpReass TcpInput TcpOutput TcpOutputProps.
From S2P Require Import IpReass IpId Ip IpOutput SynCache SynCacheSend SynCacheFacts SynCacheSafe SynCacheMap.

(** ** The bytes of the SYN,ACK *)

Lemma synack_payload e sc p i : synack e sc = Some p -> (i < 16)%nat -> p_payload p !! i = synack_bytes e sc !! i.
Proof.
  unfold synack. set (q := mkOpkt _ _ _ _ _ _ _). destruct (in4_cksum _ _ _ _) as [sum|]; [|done]. cbn [mbind option_bind].
  unfold patch16. destruct (_ && _); [|done]. cbn [mbind option_bind]. intros [= <-] Hi. cbn [p_opts p_payload q length].
  change (20 + 16 - ip_size) with 16. cbn [app drop]. upd_simpl.
  do 16 (destruct i as [|i]; [done|]). lia.
Qed.

Lemma rd32_be32 l i x : is_u32 x -> (forall j, (j < 4)%nat -> l !! (i + j)%nat = be32 x !! j) -> rd32 l i = Some x.
Proof.
  intros U H. unfold rd32, rd16. pose proof (H 0%nat ltac:(lia)) as H0. pose proof (H 1%nat ltac:(lia)) as H1.
  pose proof (H 2%nat ltac:(lia)) as H2. pose proof (H 3%nat ltac:(lia)) as H3. rewrite Nat.add_0_r in H0.
  replace (i + 1)%nat with (S i) in H1 by lia. replace (i + 2)%nat with (S (S i)) in H2 by lia. replace (i + 3)%nat with (S (S (S i))) in H3 by lia.
  rewrite H0, H1, H2, H3. cbn [be32 lookup list_lookup mbind option_bind]. f_equal. apply be32_read. exact U.
Qed.

(** The fields of the header as a peer reads them. *)
Lemma synack_numbers e sc p : synack e sc = Some p -> is_u32 (sc_iss sc) ->
  rd32 (p_payload p) 4 = Some (sc_iss sc) /\ rd32 (p_payload p) 8 = Some (u32 (sc_irs sc + 1)) /\
  rd16 (p_payload p) 14 = Some (u16 (sc_win sc)).
Proof.
  intros E U. assert (forall i, (i < 16)%nat -> p_payload p !! i = synack_bytes e sc !! i) as H by (intros i; by apply synack_payload).
  split; [|split].
  - apply rd32_be32; [done|]. intros j Hj. rewrite H by lia. do 4 (destruct j as [|j]; [done|]). lia.
  - apply rd32_be32; [apply u32_range|]. intros j Hj. rewrite H by lia. do 4 (destruct j as [|j]; [done|]). lia.
  - unfold rd16. rewrite !H by lia. change (Some (u16 (sc_win sc) / 256 * 256 + u16 (sc_win sc) mod 256) = Some (u16 (sc_win sc))). f_equal.
    pose proof (Z.div_mod (u16 (sc_win sc)) 256 ltac:(done)). lia.
Qed.

(** ** The connection *)

(** The fields that the handshake is about. *)
Definition hview (tp : tcpcb) :=
  (t_state tp, (iss tp, irs tp, snd_una tp, rcv_nxt tp, rcv_adv tp), (snd_scale tp, rcv_scale tp), t_flags tp, t_ourmss tp).

Lemma arm_hview env tp i n : hview (arm env tp i n) = hview tp.
Proof. unfold arm, TCP_TIMER_ARM. by destruct (t_timer tp !! i). Qed.

Lemma mss_from_peer_hview env c offer : hview (tp_of (tcp_mss_from_peer env c offer)) = hview (tp_of c).
Proof. unfold tcp_mss_from_peer. repeat (case_match; simplify_eq); done. Qed.

Lemma rmx_rtt_hview env tp : hview (tcp_rmx_rtt env tp) = hview tp.
Proof. unfold tcp_rmx_rtt. by repeat case_match. Qed.

Definition accept_flags (ge : getenv) (sc : syn_cache) (flags : Z) : Z :=
  let flags := if flag_set (sc_flags sc) SCF_SACK_PERMIT && TcpInput.tcp_do_sack (g_env ge) then Z.lor flags TF_WILL_SACK else flags in
  if flag_set (sc_flags sc) SCF_ECN_PERMIT && TcpInput.tcp_do_ecn (g_env ge) then Z.lor flags TF_ECN_PERMIT else flags.

Lemma accept_init_hview ge sc tp :
  hview (arm (g_env ge) ((tcp_rcvseqinit (tcp_sendseqinit (tp <| iss := sc_iss sc |> <| irs := sc_irs sc |>))) <| t_state := TCPS_SYN_RECEIVED |>)
           TCPT_KEEP (g_keepinit ge)) =
  (TCPS_SYN_RECEIVED, (sc_iss sc, sc_irs sc, sc_iss sc, u32 (sc_irs sc + 1), u32 (sc_irs sc + 1)), (snd_scale tp, rcv_scale tp), t_flags tp, t_ourmss tp).
Proof. rewrite arm_hview. unfold hview, tcp_rcvseqinit, tcp_sendseqinit. upd_simpl. reflexivity. Qed.

Lemma grant_hview tp (b1 b2 : bool) f1 f2 mss st nums scales fl old : hview tp = (st, nums, scales, fl, old) ->
  hview ((let tp := if b1 then or_flags tp f1 else tp in let tp := if b2 then or_flags tp f2 else tp in tp <| t_ourmss := mss |>)) =
  (st, nums, scales, let fl := if b1 then Z.lor fl f1 else fl in if b2 then Z.lor fl f2 else fl, mss).
Proof.
  intros H. unfold hview in *. injection H as H1 H2 H3 H4 H5. subst. unfold or_flags. destruct b1, b2; cbv zeta; upd_simpl; reflexivity.
Qed.

Lemma accept_state_hview ge sc tp : hview (accept_state ge sc tp) =
  (TCPS_SYN_RECEIVED, (sc_iss sc, sc_irs sc, sc_iss sc, u32 (sc_irs sc + 1), u32 (sc_irs sc + 1)), (snd_scale tp, rcv_scale tp),
   accept_flags ge sc (t_flags tp), sc_ourmaxseg sc).
Proof. exact (grant_hview _ _ _ _ _ _ _ _ _ _ _ (accept_init_hview ge sc tp)). Qed.

(** The other end of the window that the SYN,ACK offers. *)
Definition accept_adv (sc : syn_cache) : tcp_seq :=
  if (0 <? sc_win sc) && SEQ_GT (u32 (sc_irs sc + 1) + sc_win sc) (u32 (sc_irs sc + 1))
  then u32 (u32 (sc_irs sc + 1) + sc_win sc) else u32 (sc_irs sc + 1).

(** ... and what is sent next. *)
Definition sview (tp : tcpcb) := (snd_nxt tp, snd_max tp).

Lemma accept_sent_views sc tp : hview (accept_sent sc tp) = hview tp /\ sview (accept_sent sc tp) = (u32 (iss tp + 1), u32 (iss tp + 1)).
Proof. unfold accept_sent, hview, sview. upd_simpl. split; reflexivity. Qed.

Lemma arm_sview env tp i n : sview (arm env tp i n) = sview tp.
Proof. unfold arm, TCP_TIMER_ARM. by destruct (t_timer tp !! i). Qed.

Lemma accept_advertise_views sc tp st (i0 i1 una nxt adv : tcp_seq) scales fl mss : hview tp = (st, (i0, i1, una, nxt, adv), scales, fl, mss) ->
  nxt = u32 (sc_irs sc + 1) -> adv = u32 (sc_irs sc + 1) ->
  hview (accept_advertise sc tp) = (st, (i0, i1, una, nxt, accept_adv sc), scales, fl, mss) /\ sview (accept_advertise sc tp) = sview tp /\
  last_ack_sent (accept_advertise sc tp) = nxt.
Proof.
  intros H En Ea. unfold hview in H. injection H as H1 H2 H3 H4 H5 H6 H7 H8 H9. unfold accept_advertise. rewrite H5, H6, En, Ea. unfold accept_adv, hview, sview.
  destruct (_ && _); cbv zeta; upd_simpl; rewrite H1, H2, H3, H4, H5, H7, H8, H9, ?H6, ?En, ?Ea; split; [reflexivity|split; reflexivity|reflexivity|split; reflexivity].
Qed.

Lemma accept_window_views ge sc tp st (i0 i1 una nxt adv : tcp_seq) scales fl mss : hview tp = (st, (i0, i1, una, nxt, adv), scales, fl, mss) ->
  nxt = u32 (sc_irs sc + 1) -> adv = u32 (sc_irs sc + 1) -> let tp' := accept_window ge sc tp in
  hview tp' = (st, (i0, i1, una, nxt, accept_adv sc), scales, fl, mss) /\ sview tp' = (u32 (i0 + 1), u32 (i0 + 1)) /\ last_ack_sent tp' = nxt.
Proof.
  intros H En Ea. unfold accept_window. set (tp1 := tp <| snd_cwnd := _ |>). assert (hview tp1 = hview tp) as H1 by reflexivity. clearbody tp1.
  cbv zeta. set (tp2 := tcp_rmx_rtt (g_env ge) tp1). assert (hview tp2 = hview tp) as H2 by (unfold tp2; by rewrite rmx_rtt_hview). clearbody tp2.
  destruct (accept_sent_views sc tp2) as [H3 S3]. set (tp3 := accept_sent sc tp2) in *. clearbody tp3.
  set (tp4 := arm (g_env ge) tp3 TCPT_REXMT (t_rxtcur tp3)).
  assert (hview tp4 = (st, (i0, i1, una, nxt, adv), scales, fl, mss)) as H4 by (unfold tp4; by rewrite arm_hview, H3, H2).
  assert (sview tp4 = (u32 (iss tp2 + 1), u32 (iss tp2 + 1))) as S4 by (unfold tp4; by rewrite arm_sview). clearbody tp4.
  destruct (accept_advertise_views sc tp4 _ _ _ _ _ _ _ _ _ H4 En Ea) as (V & S & A). split; [done|]. split; [|done]. rewrite S, S4.
  rewrite H in H2. unfold hview in H2. injection H2 as _ -> _ _ _ _ _ _ _. done.
Qed.

Lemma accept_conn_views ge sc c : let tp := tp_of (accept_conn ge sc c) in
  hview tp = (TCPS_SYN_RECEIVED, (sc_iss sc, sc_irs sc, sc_iss sc, u32 (sc_irs sc + 1), accept_adv sc),
              (snd_scale (tp_of c), rcv_scale (tp_of c)), accept_flags ge sc (t_flags (tp_of c)), sc_ourmaxseg sc) /\
  sview tp = (u32 (sc_iss sc + 1), u32 (sc_iss sc + 1)) /\ last_ack_sent tp = u32 (sc_irs sc + 1).
Proof.
  cbv zeta. unfold accept_conn. set (c2 := tcp_mss_from_peer _ _ _).
  assert (hview (tp_of c2) = hview (accept_state ge sc (tp_of c))) as H by (unfold c2; by rewrite mss_from_peer_hview).
  rewrite accept_state_hview in H. clearbody c2.
  exact (accept_window_views ge sc (tp_of c2) _ _ _ _ _ _ _ _ _ H eq_refl eq_refl).
Qed.

Lemma s32_u32_sub x y : s32 (u32 x - y) = s32 (x - y).
Proof. by rewrite <- s32_u32, u32_sub_u32, s32_u32. Qed.

Lemma accept_adv_window sc : 0 <= sc_win sc <= TCP_MAXWIN -> accept_adv sc = u32 (u32 (sc_irs sc + 1) + u16 (sc_win sc)).
Proof.
  intros W. unfold TCP_MAXWIN in W. rewrite (u16_small (sc_win sc)) by lia. unfold accept_adv, SEQ_GT.
  replace (u32 (sc_irs sc + 1) + sc_win sc - u32 (sc_irs sc + 1)) with (sc_win sc) by lia. rewrite (u32_small (sc_win sc)), s32_small by lia.
  destruct (Z.ltb_spec 0 (sc_win sc)) as [_|H]; cbn [andb]; [done|]. replace (sc_win sc) with 0 by lia.
  rewrite Z.add_0_r. symmetry. apply u32_small, u32_range.
Qed.

(** The ACK is not before the window, nor behind it. *)
Lemma ack_in_window sc : 0 <= sc_win sc <= TCP_MAXWIN ->
  SEQ_LEQ (u32 (sc_irs sc + 1)) (sc_irs sc) = false /\ SEQ_GT (u32 (sc_irs sc + 1)) (sc_irs sc + 1 + sc_win sc) = false.
Proof.
  unfold TCP_MAXWIN. intros W. unfold SEQ_LEQ, SEQ_GT. rewrite !s32_u32, !s32_u32_sub. replace (sc_irs sc + 1 - sc_irs sc) with 1 by lia.
  replace (sc_irs sc + 1 - (sc_irs sc + 1 + sc_win sc)) with (- sc_win sc) by lia. split; [done|]. rewrite s32_small by lia. lia.
Qed.

(** C4. The handshake of a passive open, in every reachable state of the SYN
    cache and for every entry of it: let a peer read the sequence number, the
    acknowledgement number and the window out of the bytes of the SYN,ACK (any
    of its retransmissions), and answer with the ACK that follows from them.
    When the socket and its control block can be had, [syn_cache_get] makes a
    connection in SYN_RECEIVED whose next sequence number, next expected sequence
    number and advertised window are those that the peer has read, and the
    entry is gone. *)
Theorem syn_handshake bl cl fn count ipg s a sc e e' ge p c seq ack win flags : 0 < bl < 2 ^ 16 -> 0 < cl < 2 ^ 63 -> ids_ok (g_ids ipg) ->
  syn_reachable bl cl fn (syn_cache_init count ipg) s -> linked s a -> y_mem s !! a = Some sc ->
  env_ok bl cl fn e' -> is_u32 (sc_iss sc) -> 0 <= sc_win sc <= TCP_MAXWIN ->
  synack e sc = Some p -> rd32 (p_payload p) 4 = Some seq -> rd32 (p_payload p) 8 = Some ack -> rd16 (p_payload p) 14 = Some win ->
  g_sonewconn ge = Some c -> g_mget ge = true -> g_pcbconnect ge = 0 -> g_template ge = true ->
  exists c' options ro s', syn_cache_get e' ge (sc_src sc) (sc_dst sc) (mkTcphdr ack (u32 (seq + 1)) flags) s = Some (GetConn c' options ro, s') /\
    t_state (tp_of c') = TCPS_SYN_RECEIVED /\ snd_una (tp_of c') = seq /\ snd_nxt (tp_of c') = u32 (seq + 1) /\ snd_max (tp_of c') = u32 (seq + 1) /\
    rcv_nxt (tp_of c') = ack /\ last_ack_sent (tp_of c') = ack /\ rcv_adv (tp_of c') = u32 (ack + win) /\
    forall pr, ~ holds s' (sc_src sc, sc_dst sc) pr.
Proof.
  intros Hb Hc K R La Es Ok Ui Hw Ep Rs Ra Rw Gs Gm Gp Gt. destruct (syn_cache_reachable_inv bl cl fn count ipg s Hb Hc K R) as [I D].
  destruct (synack_numbers e sc p Ep Ui) as (N1 & N2 & N3). assert (seq = sc_iss sc) as -> by congruence. assert (ack = u32 (sc_irs sc + 1)) as -> by congruence.
  assert (win = u16 (sc_win sc)) as -> by congruence. clear Ep Rs Ra Rw N1 N2 N3 R.
  pose proof (get_safe bl cl fn _ Hb Hc e' ge (sc_src sc) (sc_dst sc) (mkTcphdr (u32 (sc_irs sc + 1)) (u32 (sc_iss sc + 1)) flags) s Ok I D) as G. revert G.
  unfold syn_cache_get. destruct (syn_cache_lookup_spec _ _ _ _ _ s (sc_src sc) (sc_dst sc) I) as (r & -> & Hr). cbn [mbind option_bind].
  destruct r as [b|]; [|exfalso; by apply (Hr a sc)]. destruct Hr as (Lb & scb & Eb & K1 & K2).
  assert (b = a) as -> by (by apply (i_keys _ _ _ _ _ _ I b a scb sc)). assert (scb = sc) as -> by congruence. clear K1 K2 Lb Eb. rewrite Es. cbn [mbind option_bind th_ack th_seq].
  destruct (ack_in_window sc Hw) as [-> ->]. rewrite Z.eqb_refl. cbn [negb orb].
  destruct (syn_cache_rm_inv bl cl fn _ Hb Hc [] a s I La) as (sc' & s1 & _ & _ & -> & _ & _). cbn [mbind option_bind]. rewrite Gs, Gm, Gp, Gt. cbn [negb Z.eqb].
  destruct (accept_conn_views ge sc (upd_tp c (accept_options ge sc))) as (V & S & A). revert V S A.
  generalize (accept_conn ge sc (upd_tp c (accept_options ge sc))). intros c' V S A [I' (a' & sca & La' & Ea & K1 & K2 & _ & W)].
  eexists c', _, _, _. split; [reflexivity|].
  unfold hview in V. unfold sview in S. injection V as V1 V2 V3 V4 V5 V6 V7 V8 V9 V10. injection S as S1 S2.
  rewrite V1, V4, V5, V6, S1, S2, A. rewrite accept_adv_window by done. do 7 (split; [done|]).
  intros pr Hpr. apply (holds_minus bl cl fn _ s _ a' sca _ pr I La' Ea) in Hpr as [_ Nk]; [|by apply without_minus]. apply Nk. by rewrite K1, K2.
Qed.
