(* ===== verification/SynExample.v ===== *)
(** * A handshake on concrete packets

    One SYN on an empty cache, so that the theorems on the SYN cache are seen
    at work: their hypotheses hold of the state after it. *)

From S2P Require Import Prelude Pool TcpSeq Callout Tcpcb TcpSack TcpTimer InCksum TcpOptions TcpReass TcpInput TcpOutput TcpInputStream.
From S2P Require Import IpReass IpId Ip IpOutput IpTotal SynCache SynCacheSend SynCacheFacts SynCacheSafe SynCacheMap SynHandshake.

Definition exs_rt : rtentry := mkRt RTF_UP 0x0100000a 0 (Some 1) (mkIa 0x0200000a 0 0 0 0 0 0 1) 0 0.
Definition exs_net : ipenv :=
  mkIpenv (fun _ => mkIf (Z.lor IFF_UP IFF_BROADCAST) 1500 0 0 0 50 0 []) (fun _ => Some exs_rt) (fun _ => None) (fun _ _ => false) (fun _ => 0) true
    (fun _ => true) (fun _ => true) true 100 0 false false false false true.
Definition exs_env : synenv :=
  mkSynenv 1000000 100 50 150 7 10 100 0x12345678 0x9abcdef0 (fun _ => (0, 0)) true 16 exs_net 64 true 262144 true true true false 0x01020304 1460.
Definition exs_src : sockaddr_in := mkSin 0x0100000a 0x5000.
Definition exs_dst : sockaddr_in := mkSin 0x0200000a 0x1600.
Definition exs_optp : list Z := [2; 4; 5; 180; 4; 2; 8; 10; 0; 0; 1; 0; 0; 0; 0; 0; 1; 3; 3; 7].
Definition exs_event : event :=
  EvSyn exs_src exs_dst (mkTcphdr 0xfffffff0 0 TH_SYN) 3 8192 None tcpcb_zero (mkSackGlobals (pool_init 1) 32 1024 0) (Some exs_optp) (mkOpt false 0 0 0).

(** The identifications are left symbolic in the computations. *)
Definition exs_init (ids : ipid_state) : synst := syn_cache_init 2 (mkIpg 7 ids).
Definition exs_state (ids : ipid_state) : synst := default (exs_init ids) (syn_run exs_env exs_event (exs_init ids)).
Definition exs_ids : ipid_state := ip_id_init (fun _ => 5).

Lemma exs_ids_ok : ids_ok exs_ids.
Proof. by apply ip_id_init_ok. Qed.

Lemma exs_env_ok : env_ok 10 100 7 exs_env.
Proof.
  split; [done..|]. split.
  - intros d rt [= <-]. split; [by eexists|by left].
  - intros i. unfold SYNACK_MAX. simpl. lia.
Qed.

Lemma exs_reachable ids : syn_reachable 10 100 7 (exs_init ids) (exs_state ids).
Proof. eapply (reach_event _ _ _ _ exs_env exs_event); [apply reach_init|apply exs_env_ok|done|vm_compute; reflexivity]. Qed.

Definition exs_sc (ids : ipid_state) : syn_cache := default sc_zero (y_mem (exs_state ids) !! 1%positive).
Definition exs_synack (ids : ipid_state) : opkt := default (mkOpkt (mkIph (mkIp 0 0 0 0 0 0 0 0) 0 0 0) [] [] 0 0 0 0) (synack exs_env (exs_sc ids)).

Lemma exs_lookup ids : y_mem (exs_state ids) !! 1%positive = Some (exs_sc ids).
Proof. vm_compute. reflexivity. Qed.

Lemma exs_synack_eq ids : synack exs_env (exs_sc ids) = Some (exs_synack ids).
Proof. vm_compute. reflexivity. Qed.

(** The bytes of the SYN,ACK: its numbers and its window. *)
Lemma exs_numbers ids : rd32 (p_payload (exs_synack ids)) 4 = Some 0x01020304 /\ rd32 (p_payload (exs_synack ids)) 8 = Some 0xfffffff1 /\
  rd16 (p_payload (exs_synack ids)) 14 = Some 8192.
Proof. vm_compute. split; [|split]; reflexivity. Qed.

Lemma exs_words ids : is_u32 (sc_iss (exs_sc ids)) /\ 0 <= sc_win (exs_sc ids) <= TCP_MAXWIN.
Proof. vm_compute. split; split; congruence. Qed.

Lemma exs_linked ids : linked (exs_state ids) 1%positive.
Proof. exists 105%nat. eexists. split; [vm_compute; reflexivity|]. left. Qed.

Definition exs_ge : getenv := mkGetenv ex_env (Some ex_conn) None true 0 true 0 150.

Lemma syn_cache_safe_witness : syn_inv 10 100 7 (mempool (pool_init 2)) [] (exs_state exs_ids) /\
  forall e ev, env_ok 10 100 7 e -> enabled ev (exs_state exs_ids) -> is_Some (syn_run e ev (exs_state exs_ids)).
Proof. apply (syn_cache_safe 10 100 7 2 (mkIpg 7 exs_ids) (exs_state exs_ids)); [lia|lia|exact (exs_ids_ok)|exact (exs_reachable exs_ids)]. Defined.

Lemma syn_entry_expires_witness : exists n s', (n <= 13)%nat /\ expire_times n (fun _ => exs_env) 1%positive (exs_state exs_ids) = Some s' /\
  y_mem s' !! 1%positive = None /\ ~ linked s' 1%positive /\ 1%positive ∈ mempool (syn_cache_pool s').
Proof.
  apply (syn_entry_expires 10 100 7 2 (mkIpg 7 exs_ids) (exs_state exs_ids) (fun _ => exs_env) 1%positive);
    [lia|lia|exact (exs_ids_ok)|exact (exs_reachable exs_ids)|intros _; apply exs_env_ok|exact (exs_linked exs_ids)].
Defined.


Lemma syn_handshake_witness : exists c' options ro s',
  syn_cache_get exs_env exs_ge (sc_src (exs_sc exs_ids)) (sc_dst (exs_sc exs_ids)) (mkTcphdr 0xfffffff1 (u32 (0x01020304 + 1)) TH_ACK) (exs_state exs_ids) =
    Some (GetConn c' options ro, s') /\
  t_state (tp_of c') = TCPS_SYN_RECEIVED /\ snd_una (tp_of c') = 0x01020304 /\ snd_nxt (tp_of c') = u32 (0x01020304 + 1) /\
  snd_max (tp_of c') = u32 (0x01020304 + 1) /\ rcv_nxt (tp_of c') = 0xfffffff1 /\ last_ack_sent (tp_of c') = 0xfffffff1 /\
  rcv_adv (tp_of c') = u32 (0xfffffff1 + 8192) /\ forall pr, ~ holds s' (sc_src (exs_sc exs_ids), sc_dst (exs_sc exs_ids)) pr.
Proof.
  destruct (exs_numbers exs_ids) as (N1 & N2 & N3).
  apply (syn_handshake 10 100 7 2 (mkIpg 7 exs_ids) (exs_state exs_ids) 1%positive (exs_sc exs_ids) exs_env exs_env exs_ge (exs_synack exs_ids) ex_conn
           0x01020304 0xfffffff1 8192 TH_ACK);
    [lia|lia|exact (exs_ids_ok)|exact (exs_reachable exs_ids)|exact (exs_linked exs_ids)|exact (exs_lookup exs_ids)|exact exs_env_ok|exact (proj1 (exs_words exs_ids))|exact (proj2 (exs_words exs_ids))|exact (exs_synack_eq exs_ids)|exact N1|exact N2|exact N3|reflexivity..].
Defined.
