(* ===== verification/Socket.v ===== *)
(** * Sockets and the lists of the application glue

    The life of a stream socket (src/netbsd/porting/kern/uipc_socket.c and
    uipc_socket2.c), the part of TCP's user requests that it depends on
    (src/netbsd/netinet/tcp_usrreq.c, tcp_subr.c, in_pcb.c), and the lists on which
    src/glue/app_glue.c collects the sockets that the application has to hear of.

    Sockets live in a store; a socket is in it from [soget] to [soput].  The
    sockets on a queue are lists of addresses.  [None] as a result is the
    dereference of a null pointer or of a socket that has been freed, a panic, or
    a loop that does not end.  What the buffers of a socket contain is the matter
    of [Sockbuf]; here they have limits and counters. *)

From stdpp Require Import functions.
From S2P Require Import Prelude Pool Tcpcb Mbuf Sockbuf SockState.

Definition SOCK_STREAM : Z := 1.
Definition SOCK_DGRAM : Z := 2.
Definition SO_ACCEPTCONN : Z := 0x0002.
Definition SO_LINGER : Z := 0x0080.
Definition SO_ACCEPTFILTER : Z := 0x1000.
Definition SB_NOTIFY : Z := 0x04.
Definition SB_ASYNC : Z := 0x10.
Definition SB_UPCALL : Z := 0x20.
Definition SB_KNOTE : Z := 0x100.
Definition SB_AUTOSIZE : Z := 0x800.
Definition SS_NBIO : Z := 0x2000.
Definition SOMAXCONN : Z := 128.
Definition TCP_LINGERTIME : Z := 120.
Definition EISCONN : Z := 56.
Definition ENOTCONN : Z := 57.
Definition EALREADY : Z := 37.
Definition EOPNOTSUPP : Z := 45.
Definition ECONNABORTED : Z := 53.
Definition EINVAL : Z := 22.

(** The lists of the glue: [QRead] stands for read_ready_socket_list_head,
    read_queue_entry and read_queue_present, and so on. *)
Inductive glueq := QRead | QWrite | QAccept | QClosed | QWaiters.

#[export] Instance glueq_eq_dec : EqDecision glueq.
Proof. solve_decision. Defined.

(** The control block of a socket, with the state of TCP's part of it. *)
Record inpcb := mkInp { inp_lport : Z; inp_ppcb : option Z }.

#[export] Instance eta_inpcb : EtaRecord inpcb := fun r => mkInp (inp_lport r) (inp_ppcb r).

Record sbuf := mkSbuf { b_sb : sockbuf; sb_flags : Z; sb_timeo : Z }.

#[export] Instance eta_sbuf : EtaRecord sbuf := fun r => mkSbuf (b_sb r) (sb_flags r) (sb_timeo r).

(** [so_onq] is the queue of a listening socket: [so_q0] ([false]) or [so_q]
    ([true]). *)
Record socket := mkSocket {
  so_type : Z; so_options : Z; so_linger : Z; so_state : Z; so_pcb : option inpcb;
  so_head : option addr; so_onq : option (addr * bool); so_q0 : list addr; so_q : list addr;
  so_q0len : Z; so_qlen : Z; so_qlimit : Z; so_timeo : Z; so_error : Z; so_aborting : Z;
  so_snd : sbuf; so_rcv : sbuf; so_upcall2 : bool; glueing_block : option Z;
  queue_present : glueq -> bool
}.

#[export] Instance eta_socket : EtaRecord socket :=
  fun r => mkSocket (so_type r) (so_options r) (so_linger r) (so_state r) (so_pcb r) (so_head r) (so_onq r) (so_q0 r)
    (so_q r) (so_q0len r) (so_qlen r) (so_qlimit r) (so_timeo r) (so_error r) (so_aborting r) (so_snd r) (so_rcv r)
    (so_upcall2 r) (glueing_block r) (queue_present r).

(** What the application is told. *)
Inductive notice :=
  | OnClosure (block : option Z)
  | OnAccepted (so2 : addr) (parent : option Z)
  | OnReadable (so : addr) (block : option Z)
  | OnWritable (so : addr) (block : option Z).

Record sostate := mkSos {
  s_mem : gmap addr socket; socket_cache : pool; ready : glueq -> list addr;
  read_sockets_queue_len : Z; write_sockets_queue_len : Z; s_user : list notice
}.

#[export] Instance eta_sostate : EtaRecord sostate :=
  fun r => mkSos (s_mem r) (socket_cache r) (ready r) (read_sockets_queue_len r) (write_sockets_queue_len r) (s_user r).

(** What surrounds one call. *)
Record soenv := mkSoenv {
  se_sb_max : Z; se_sb_max_adj : Z;
  se_sendspace : Z; se_recvspace : Z;   (* tcp_sendspace, tcp_recvspace *)
  se_pcballoc : Z;                      (* in_pcballoc *)
  se_newtcpcb : bool;                   (* tcp_newtcpcb *)
  se_pcbbind : Z * Z;                   (* in_pcbbind: error and port *)
  se_pcbconnect : Z;                    (* in_pcbconnect *)
  se_template : bool;                   (* tcp_template *)
  se_output : Z                         (* the error of tcp_output *)
}.

Definition upd (a : addr) (f : socket -> socket) (s : sostate) : sostate := s <| s_mem := alter f a (s_mem s) |>.

Definition queue (q : bool) (so : socket) : list addr := if q then so_q so else so_q0 so.

(** ** The lists of the glue *)

Definition bump (q : glueq) (s : sostate) : sostate :=
  match q with
  | QRead => s <| read_sockets_queue_len := u64 (read_sockets_queue_len s + 1) |>
  | QWrite => s <| write_sockets_queue_len := u64 (write_sockets_queue_len s + 1) |>
  | _ => s
  end.

Definition set_present (q : glueq) (b : bool) (so : socket) : socket := so <| queue_present := <[q := b]> (queue_present so) |>.

(** [if (present) return; present = 1; TAILQ_INSERT_TAIL] *)
Definition enqueue (q : glueq) (a : addr) (s : sostate) : option sostate :=
  so ← s_mem s !! a;
  if queue_present so q then Some s
  else Some (bump q ((upd a (set_present q true) s) <| ready := <[q := ready s q ++ [a]]> (ready s) |>)).

(** [TAILQ_REMOVE; present = 0] *)
Definition dequeue (q : glueq) (a : addr) (s : sostate) : sostate :=
  (upd a (set_present q false) s) <| ready := <[q := filter (fun b => b <> a) (ready s q)]> (ready s) |>.

(** [sototcpcb(so)]: the inner [None] is a control block without TCP's part. *)
Definition sototcpcb (so : socket) : option (option Z) := p ← so_pcb so; Some (inp_ppcb p).

Definition app_glue_sock_readable (a : addr) (s : sostate) : option sostate :=
  so ← s_mem s !! a;
  if flag_set (so_state so) SS_ISDISCONNECTED then enqueue QClosed a s
  else if so_type so =? SOCK_STREAM then
    tp ← sototcpcb so;
    match tp with
    | Some st =>
        if negb (st =? TCPS_ESTABLISHED) then
          if st =? TCPS_LISTEN then enqueue QAccept a s else Some s
        else enqueue QRead a s
    | None => enqueue QRead a s
    end
  else enqueue QRead a s.

(** The protocol is TCP, which has PR_CONNREQUIRED. *)
Definition sowritable (so : socket) : bool :=
  ((sb_lowat (b_sb (so_snd so)) <=? sbspace (b_sb (so_snd so))) && flag_set (so_state so) SS_ISCONNECTED) ||
  flag_set (so_state so) SS_CANTSENDMORE || negb (so_error so =? 0).

Definition app_glue_sock_write_space (a : addr) (s : sostate) : option sostate :=
  so ← s_mem s !! a;
  if flag_set (so_state so) SS_ISDISCONNECTED then enqueue QClosed a s
  else
    tp ← (if so_type so =? SOCK_STREAM then sototcpcb so else Some None);
    match tp with
    | Some st => if negb (st =? TCPS_ESTABLISHED) then Some s else if sowritable so then enqueue QWrite a s else Some s
    | None => if sowritable so then enqueue QWrite a s else Some s
    end.

(** The tests of the band are [band | POLLIN] and [band | POLLOUT]. *)
Definition app_glue_so_upcall2 (a : addr) (s : sostate) : option sostate :=
  s ← app_glue_sock_readable a s; app_glue_sock_write_space a s.

(** [so_upcall] is never set: SB_UPCALL needs an accept filter. *)
Definition sowakeup (a : addr) (s : sostate) : option sostate :=
  so ← s_mem s !! a; if so_upcall2 so then app_glue_so_upcall2 a s else Some s.

Definition sb_notify (sb : sbuf) : bool := flag_set (sb_flags sb) (Z.lor SB_NOTIFY (Z.lor SB_ASYNC (Z.lor SB_UPCALL SB_KNOTE))).

Definition sorwakeup (a : addr) (s : sostate) : option sostate :=
  so ← s_mem s !! a; if sb_notify (so_rcv so) then sowakeup a s else Some s.

Definition sowwakeup (a : addr) (s : sostate) : option sostate :=
  so ← s_mem s !! a; if sb_notify (so_snd so) then sowakeup a s else Some s.

Definition upd_state (f : Z -> Z) (so : socket) : socket := so <| so_state := f (so_state so) |>.

Definition set_state (a : addr) (f : Z -> Z) (s : sostate) : sostate := upd a (upd_state f) s.

(** ** The queues of a listening socket *)

Definition soqinsque (head so : addr) (q : bool) (s : sostate) : option sostate :=
  o ← s_mem s !! so;
  _ ← s_mem s !! head;
  match so_onq o with
  | Some _ => None
  | None =>
      let s := upd so (fun o => o <| so_head := Some head |>) s in
      let s := upd head (fun h => if q then h <| so_qlen := s16 (so_qlen h + 1) |> else h <| so_q0len := s16 (so_q0len h + 1) |>) s in
      let s := upd so (fun o => o <| so_onq := Some (head, q) |>) s in
      Some (upd head (fun h => if q then h <| so_q := so_q h ++ [so] |> else h <| so_q0 := so_q0 h ++ [so] |>) s)
  end.

Definition del (a : addr) (l : list addr) : list addr := filter (fun b => b <> a) l.

(** The result tells whether the socket was on the queue. *)
Definition soqremque (so : addr) (q : bool) (s : sostate) : option (bool * sostate) :=
  o ← s_mem s !! so;
  match so_head o with
  | None => Some (false, s)
  | Some head =>
      if bool_decide (so_onq o = Some (head, q)) then
        _ ← s_mem s !! head;
        let s := upd head (fun h => if q then h <| so_qlen := s16 (so_qlen h - 1) |> else h <| so_q0len := s16 (so_q0len h - 1) |>) s in
        let s := upd head (fun h => if q then h <| so_q := del so (so_q h) |> else h <| so_q0 := del so (so_q0 h) |>) s in
        Some (true, upd so (fun o => o <| so_onq := None |> <| so_head := None |>) s)
      else Some (false, s)
  end.

(** ** Connection states *)

Definition soisconnecting (a : addr) (s : sostate) : sostate := set_state a state_connecting s.

Definition soisconnected (a : addr) (s : sostate) : option sostate :=
  so ← s_mem s !! a;
  let s := set_state a state_connected s in
  match so_head so with
  | Some head =>
      if bool_decide (so_onq so = Some (head, false)) then
        if negb (flag_set (so_options so) SO_ACCEPTFILTER) then
          r ← soqremque a false s;
          s ← soqinsque head a true r.2;
          sorwakeup head s
        else None
      else s ← sorwakeup a s; sowwakeup a s
  | None => s ← sorwakeup a s; sowwakeup a s
  end.

Definition soisdisconnecting (a : addr) (s : sostate) : option sostate :=
  s ← sowwakeup a (set_state a state_disconnecting s); sorwakeup a s.

Definition soisdisconnected (a : addr) (s : sostate) : option sostate :=
  s ← sowwakeup a (set_state a state_disconnected s); sorwakeup a s.

Definition socantsendmore (a : addr) (s : sostate) : option sostate := sowwakeup a (set_state a state_cantsendmore s).

Definition socantrcvmore (a : addr) (s : sostate) : option sostate := sorwakeup a (set_state a state_cantrcvmore s).

(** ** Creation and release *)

Definition sb_zero : sbuf := mkSbuf (mkSockbuf 0 0 0 0 0 None None None None) 0 0.

(** [memset(so, 0)], and SB_NOTIFY for both buffers *)
Definition so_zero : socket :=
  mkSocket 0 0 0 0 None None None [] [] 0 0 0 0 0 0 (sb_zero <| sb_flags := SB_NOTIFY |>) (sb_zero <| sb_flags := SB_NOTIFY |>)
    false None (fun _ => false).

Definition glueqs : list glueq := [QRead; QWrite; QAccept; QClosed; QWaiters].

(** Clearing a socket that is still on a list of the glue destroys the list. *)
Definition soget (s : sostate) : option (option addr * sostate) :=
  match pool_cache_get (socket_cache s) with
  | None => Some (None, s)
  | Some (a, pl) =>
      if bool_decide (Exists (fun q => a ∈ ready s q) glueqs) then None
      else Some (Some a, s <| socket_cache := pl |> <| s_mem := <[a := so_zero]> (s_mem s) |>)
  end.

Definition soput (a : addr) (s : sostate) : sostate :=
  s <| s_mem := delete a (s_mem s) |> <| socket_cache := pool_cache_put (socket_cache s) a |>.

(** What [sbrelease] leaves behind: [sb_hiwat] stays, as the call of [chgsbsize]
    is commented out. *)
Definition sb_released (sb : sockbuf) : sockbuf :=
  sb <| sb_cc := 0 |> <| sb_mbcnt := 0 |> <| sb_mbmax := 0 |> <| sb_mb := None |> <| sb_mbtail := None |> <| sb_lastrecord := None |>.

Definition sorflush (a : addr) (s : sostate) : option sostate :=
  s ← socantrcvmore a s; Some (upd a (fun so => so <| so_rcv := sb_zero |>) s).

Definition sofree (a : addr) (s : sostate) : option sostate :=
  so ← s_mem s !! a;
  if bool_decide (is_Some (so_pcb so)) || negb (flag_set (so_state so) SS_NOFDREF) then Some s
  else
    r ← (match so_head so with Some _ => soqremque a false s | None => Some (true, s) end);
    if negb r.1 then Some r.2
    else
      s ← sorflush a (upd a (fun so => so <| so_snd := (so_snd so) <| b_sb := sb_released (b_sb (so_snd so)) |> |>) r.2);
      so ← s_mem s !! a;
      if so_aborting so =? 0 then Some (soput a s) else Some s.

(** ** TCP's part *)

Definition set_tcb (a : addr) (st : option Z) (s : sostate) : sostate :=
  upd a (fun so => so <| so_pcb := (fun p => p <| inp_ppcb := st |>) <$> so_pcb so |>) s.

Definition in_pcbdetach (a : addr) (s : sostate) : option sostate :=
  sofree a (upd a (fun so => so <| so_pcb := None |>) s).

(** The end of [tcp_close]; its other parts are in [TcpInput]. *)
Definition close_socket (a : addr) (s : sostate) : option sostate :=
  s ← soisdisconnected a (set_tcb a None s); in_pcbdetach a s.

Definition drop_socket (a : addr) (errno : Z) (s : sostate) : option sostate :=
  close_socket a (upd a (fun so => so <| so_error := u16 errno |>) s).

(** The result tells whether the control block is still there.  The vestigial
    connections of tcp_vtw.c are off ([tcp4_vtw_enable] is 0). *)
Definition tcp_usrclosed (a : addr) (s : sostate) : option (bool * sostate) :=
  so ← s_mem s !! a;
  tp ← sototcpcb so; st ← tp;
  if (st =? TCPS_CLOSED) || (st =? TCPS_LISTEN) || (st =? TCPS_SYN_SENT) then
    s ← close_socket a (set_tcb a (Some TCPS_CLOSED) s); Some (false, s)
  else
    let st := if (st =? TCPS_SYN_RECEIVED) || (st =? TCPS_ESTABLISHED) then TCPS_FIN_WAIT_1
              else if st =? TCPS_CLOSE_WAIT then TCPS_LAST_ACK else st in
    let s := set_tcb a (Some st) s in
    if TCPS_FIN_WAIT_2 <=? st then s ← soisdisconnected a s; Some (true, s) else Some (true, s).

(** [sbflush(&so->so_rcv)] *)
Definition flush_rcv (so : socket) : socket :=
  let sb := b_sb (so_rcv so) in
  so <| so_rcv := (so_rcv so) <| b_sb := sb <| sb_cc := 0 |> <| sb_mbcnt := 0 |> <| sb_mb := None |> <| sb_mbtail := None |> <| sb_lastrecord := None |> |> |>.

Definition tcp_disconnect (a : addr) (s : sostate) : option sostate :=
  so ← s_mem s !! a;
  tp ← sototcpcb so; st ← tp;
  if negb (TCPS_HAVEESTABLISHED st) then close_socket a s
  else if flag_set (so_options so) SO_LINGER && (so_linger so =? 0) then drop_socket a 0 s
  else
    s ← soisdisconnecting a s;
    r ← tcp_usrclosed a (upd a flush_rcv s); Some r.2.

(** The limits of the buffers; no data is in them yet. *)
Definition reserve (e : soenv) (sndcc rcvcc : Z) (so : socket) : socket * Z :=
  let lowat := Z.max sock_loan_thresh MCLBYTES in
  let hiwat := lowat + PIPE_BUF in
  let sndcc := if sndcc <? hiwat then hiwat else sndcc in
  match sbreserve (se_sb_max e) (se_sb_max_adj e) (b_sb (so_snd so)) sndcc with
  | None => (so, ENOBUFS)
  | Some snd =>
      match sbreserve (se_sb_max e) (se_sb_max_adj e) (b_sb (so_rcv so)) rcvcc with
      | None => (so <| so_snd := (so_snd so) <| b_sb := sb_released snd |> |>, ENOBUFS)
      | Some rcv =>
          let rcv := if sb_lowat rcv =? 0 then rcv <| sb_lowat := 1 |> else rcv in
          let snd := if sb_lowat snd =? 0 then snd <| sb_lowat := lowat |> else snd in
          let snd := if sb_hiwat snd <? u64 (sb_lowat snd) then snd <| sb_lowat := sb_hiwat snd |> else snd in
          (so <| so_snd := (so_snd so) <| b_sb := snd |> |> <| so_rcv := (so_rcv so) <| b_sb := rcv |> |>, 0)
      end
  end.

Definition or_sbflags (f : Z) (sb : sbuf) : sbuf := sb <| sb_flags := Z.lor (sb_flags sb) f |>.

Definition tcp_attach (e : soenv) (a : addr) (s : sostate) : option (Z * sostate) :=
  so ← s_mem s !! a;
  let '(so', error) :=
    if (sb_hiwat (b_sb (so_snd so)) =? 0) || (sb_hiwat (b_sb (so_rcv so)) =? 0)
    then reserve e (se_sendspace e) (se_recvspace e) so else (so, 0) in
  let s := upd a (fun _ => so') s in
  if negb (error =? 0) then Some (error, s)
  else
    let s := upd a (fun so => so <| so_rcv := or_sbflags SB_AUTOSIZE (so_rcv so) |> <| so_snd := or_sbflags SB_AUTOSIZE (so_snd so) |>) s in
    if negb (se_pcballoc e =? 0) then Some (se_pcballoc e, s)
    else
      let s := upd a (fun so => so <| so_pcb := Some (mkInp 0 None) |>) s in
      if se_newtcpcb e then Some (0, set_tcb a (Some TCPS_CLOSED) s)
      else
        let nofd := Z.land (so_state so) SS_NOFDREF in
        s ← in_pcbdetach a (set_state a (fun st => flag_clear st SS_NOFDREF) s);
        Some (ENOBUFS, set_state a (fun st => Z.lor st nofd) s).

(** The requests of [tcp_usrreq] that change a socket. *)
Inductive prureq := PRU_ATTACH | PRU_DETACH | PRU_BIND | PRU_LISTEN | PRU_CONNECT | PRU_DISCONNECT | PRU_ACCEPT | PRU_SHUTDOWN | PRU_ABORT.

Definition set_lport (port : Z) (so : socket) : socket := so <| so_pcb := (fun p => p <| inp_lport := port |>) <$> so_pcb so |>.

(** [if (inp->inp_lport == 0) error = in_pcbbind(inp, NULL)] *)
Definition bind_any (e : soenv) (a : addr) (p : inpcb) (s : sostate) : Z * sostate :=
  if inp_lport p =? 0 then
    if (se_pcbbind e).1 =? 0 then (0, upd a (set_lport (se_pcbbind e).2) s) else ((se_pcbbind e).1, s)
  else (0, s).

Definition usr_connect (e : soenv) (a : addr) (p : inpcb) (s : sostate) : Z * sostate :=
  let '(error, s) := bind_any e a p s in
  if negb (error =? 0) then (error, s)
  else if negb (se_pcbconnect e =? 0) then (se_pcbconnect e, s)
  else if negb (se_template e) then (ENOBUFS, s)
  else (se_output e, set_tcb a (Some TCPS_SYN_SENT) (soisconnecting a s)).

Definition tcp_usrreq (e : soenv) (req : prureq) (a : addr) (s : sostate) : option (Z * sostate) :=
  so ← s_mem s !! a;
  match so_pcb so, req with
  | None, PRU_ATTACH =>
      r ← tcp_attach e a s;
      if negb (r.1 =? 0) then Some r
      else Some (0, upd a (fun so => if flag_set (so_options so) SO_LINGER && (so_linger so =? 0)
                                     then so <| so_linger := TCP_LINGERTIME |> else so) r.2)
  | None, _ => Some (EINVAL, s)
  | Some _, PRU_ATTACH => Some (EISCONN, s)
  | Some _, PRU_DETACH | Some _, PRU_DISCONNECT => s ← tcp_disconnect a s; Some (0, s)
  | Some _, PRU_BIND =>
      if (se_pcbbind e).1 =? 0 then Some (0, upd a (set_lport (se_pcbbind e).2) s) else Some ((se_pcbbind e).1, s)
  | Some p, PRU_LISTEN =>
      let '(error, s) := bind_any e a p s in
      if negb (error =? 0) then Some (error, s) else _ ← inp_ppcb p; Some (0, set_tcb a (Some TCPS_LISTEN) s)
  | Some p, PRU_CONNECT => Some (usr_connect e a p s)
  | Some _, PRU_ACCEPT => Some (0, s)
  | Some _, PRU_SHUTDOWN =>
      s ← socantsendmore a s; r ← tcp_usrclosed a s; Some (if r.1 : bool then se_output e else 0, r.2)
  | Some p, PRU_ABORT => _ ← inp_ppcb p; s ← drop_socket a ECONNABORTED s; Some (0, s)
  end.

(** ** The socket calls *)

Definition soabort (e : soenv) (a : addr) (s : sostate) : option (Z * sostate) :=
  so ← s_mem s !! a;
  match so_head so with
  | Some _ => None
  | None =>
      r ← tcp_usrreq e PRU_ABORT a (upd a (fun so => so <| so_aborting := u16 (so_aborting so + 1) |>) s);
      let s := upd a (fun so => so <| so_aborting := u16 (so_aborting so - 1) |>) r.2 in
      so ← s_mem s !! a;
      if negb (r.1 =? 0) || (so_aborting so =? 0) then s ← sofree a s; Some (r.1, s) else Some (r.1, s)
  end.

(** [sonewconn(head, connstatus)]; [None] inside is NULL. *)
Definition sonewconn (e : soenv) (head : addr) (connstatus : Z) (s : sostate) : option (option addr * sostate) :=
  h ← s_mem s !! head;
  let connstatus := if flag_set (so_options h) SO_ACCEPTFILTER then 0 else connstatus in
  let soqueue := negb (connstatus =? 0) in
  if 3 * so_qlimit h / 2 <? so_qlen h + so_q0len h then Some (None, s)
  else
    r ← soget s;
    match r with
    | (None, s) => Some (None, s)
    | (Some a, s) =>
        let s := upd a (fun so => so <| so_type := so_type h |> <| so_options := flag_clear (so_options h) SO_ACCEPTCONN |>
                                     <| so_linger := so_linger h |> <| so_state := Z.lor (so_state h) SS_NOFDREF |>
                                     <| so_timeo := so_timeo h |> <| glueing_block := None |>) s in
        so ← s_mem s !! a;
        let '(so', error) := reserve e (sb_hiwat (b_sb (so_snd h))) (sb_hiwat (b_sb (so_rcv h))) so in
        let s := upd a (fun _ => so') s in
        if negb (error =? 0) then Some (None, soput a s)
        else
          let inherit (from to : sbuf) :=
            (or_sbflags (Z.land (sb_flags from) (Z.lor SB_AUTOSIZE SB_ASYNC)) to)
              <| b_sb := (b_sb to) <| sb_lowat := sb_lowat (b_sb from) |> |> <| sb_timeo := sb_timeo from |> in
          let s := upd a (fun so => so <| so_snd := inherit (so_snd h) (so_snd so) |> <| so_rcv := inherit (so_rcv h) (so_rcv so) |>) s in
          s ← soqinsque head a soqueue s;
          r ← tcp_usrreq e PRU_ATTACH a s;
          if negb (r.1 =? 0) then r ← soqremque a soqueue r.2; Some (None, soput a r.2)
          else if soqueue then
            s ← sorwakeup head r.2; Some (Some a, set_state a (fun st => Z.lor st connstatus) s)
          else Some (Some a, r.2)
    end.

(** [socreate], for a protocol that is found. *)
Definition socreate (e : soenv) (type : Z) (s : sostate) : option (Z * option addr * sostate) :=
  r ← soget s;
  match r with
  | (None, _) => None
  | (Some a, s) =>
      let s := upd a (fun so => so <| so_type := type |>) s in
      r ← tcp_usrreq e PRU_ATTACH a s;
      if negb (r.1 =? 0) then
        s ← sofree a (set_state a (fun st => Z.lor st SS_NOFDREF) r.2); Some (r.1, None, s)
      else
        Some (0, Some a, upd a (fun so => so <| so_rcv := or_sbflags SB_NOTIFY (so_rcv so) |> <| so_snd := or_sbflags SB_NOTIFY (so_snd so) |>) r.2)
  end.

Definition sobind (e : soenv) (a : addr) (s : sostate) : option (Z * sostate) := tcp_usrreq e PRU_BIND a s.

Definition solisten (e : soenv) (a : addr) (backlog : Z) (s : sostate) : option (Z * sostate) :=
  so ← s_mem s !! a;
  if flag_set (so_state so) (Z.lor SS_ISCONNECTED (Z.lor SS_ISCONNECTING SS_ISDISCONNECTING)) then Some (EOPNOTSUPP, s)
  else
    r ← tcp_usrreq e PRU_LISTEN a s;
    if negb (r.1 =? 0) then Some r
    else
      let backlog := if backlog <? 0 then 0 else backlog in
      Some (0, upd a (fun so =>
        (if bool_decide (so_q so = []) then so <| so_options := Z.lor (so_options so) SO_ACCEPTCONN |> else so)
          <| so_qlimit := s16 (Z.min backlog SOMAXCONN) |>) r.2).

Definition sodisconnect (e : soenv) (a : addr) (s : sostate) : option (Z * sostate) :=
  so ← s_mem s !! a;
  if negb (flag_set (so_state so) SS_ISCONNECTED) then Some (ENOTCONN, s)
  else if flag_set (so_state so) SS_ISDISCONNECTING then Some (EALREADY, s)
  else tcp_usrreq e PRU_DISCONNECT a s.

(** TCP requires a connection, so that a second connect is an error. *)
Definition soconnect (e : soenv) (a : addr) (s : sostate) : option (Z * sostate) :=
  so ← s_mem s !! a;
  if flag_set (so_options so) SO_ACCEPTCONN then Some (EOPNOTSUPP, s)
  else if flag_set (so_state so) (Z.lor SS_ISCONNECTED SS_ISCONNECTING) then Some (EISCONN, s)
  else tcp_usrreq e PRU_CONNECT a s.

(** TCP has PR_ABRTACPTDIS.  The mbuf for the address of the peer is there. *)
Definition soaccept (e : soenv) (a : addr) (s : sostate) : option (Z * sostate) :=
  so ← s_mem s !! a;
  if negb (flag_set (so_state so) SS_NOFDREF) then None
  else
    let s := set_state a (fun st => flag_clear st SS_NOFDREF) s in
    if negb (flag_set (so_state so) SS_ISDISCONNECTED) then tcp_usrreq e PRU_ACCEPT a s else Some (ECONNABORTED, s).

Definition soshutdown (e : soenv) (a : addr) (rd wr : bool) (s : sostate) : option (Z * sostate) :=
  s ← (if rd then sorflush a s else Some s);
  if wr then tcp_usrreq e PRU_SHUTDOWN a s else Some (0, s).

Definition EDOM : Z := 33.

(** SO_LINGER of [sosetopt], with [hz] 1000. *)
Definition sosetopt_linger (l_onoff l_linger : Z) (a : addr) (s : sostate) : option (Z * sostate) :=
  _ ← s_mem s !! a;
  if (l_linger <? 0) || (65535 <? l_linger) || (2147483647 / 1000 <? l_linger) then Some (EDOM, s)
  else
    Some (0, upd a (fun so => (so <| so_linger := l_linger |>)
      <| so_options := if negb (l_onoff =? 0) then Z.lor (so_options so) SO_LINGER else flag_clear (so_options so) SO_LINGER |>) s).

(** The label [abort] of [syn_cache_get]. *)
Definition abort_newconn (e : soenv) (a : addr) (s : sostate) : option sostate :=
  r ← soqremque a true s; r ← soabort e a r.2; Some r.2.

(** The connections on the queues of a listening socket are aborted. *)
Fixpoint drain (fuel : nat) (e : soenv) (a : addr) (s : sostate) : option sostate :=
  match fuel with
  | O => None
  | S fuel =>
      so ← s_mem s !! a;
      match so_q0 so, so_q so with
      | so2 :: _, _ => r ← soqremque so2 false s; r ← soabort e so2 r.2; drain fuel e a r.2
      | [], so2 :: _ => r ← soqremque so2 true s; r ← soabort e so2 r.2; drain fuel e a r.2
      | [], [] => Some s
      end
  end.

(** [while (so->so_state & SS_ISCONNECTED) error = sowait(...)]; [sowait] does
    nothing in the port and returns 0. *)
Fixpoint linger (fuel : nat) (a : addr) (s : sostate) : option sostate :=
  match fuel with
  | O => None
  | S fuel => so ← s_mem s !! a; if flag_set (so_state so) SS_ISCONNECTED then linger fuel a s else Some s
  end.

(** From the label [drop] on. *)
Definition close_drop (e : soenv) (a : addr) (error : Z) (s : sostate) : option (Z * sostate) :=
  so ← s_mem s !! a;
  r ← (if bool_decide (is_Some (so_pcb so)) then tcp_usrreq e PRU_DETACH a s else Some (0, s));
  let error := if error =? 0 then r.1 else error in
  so ← s_mem r.2 !! a;
  if flag_set (so_state so) SS_NOFDREF then None
  else s ← sofree a (set_state a (fun st => Z.lor st SS_NOFDREF) r.2); Some (error, s).

Definition soclose (fuel : nat) (e : soenv) (a : addr) (s : sostate) : option (Z * sostate) :=
  so ← s_mem s !! a;
  s ← (if flag_set (so_options so) SO_ACCEPTCONN then drain (S (length (so_q0 so) + length (so_q so))) e a s else Some s);
  so ← s_mem s !! a;
  if bool_decide (is_Some (so_pcb so)) && flag_set (so_state so) SS_ISCONNECTED then
    r ← (if negb (flag_set (so_state so) SS_ISDISCONNECTING) then sodisconnect e a s else Some (0, s));
    if negb (r.1 =? 0) then close_drop e a r.1 r.2
    else
      so ← s_mem r.2 !! a;
      s ← (if flag_set (so_options so) SO_LINGER then
             if flag_set (so_state so) SS_ISDISCONNECTING && flag_set (so_state so) SS_NBIO then Some r.2
             else linger fuel a r.2
           else Some r.2);
      close_drop e a 0 s
  else close_drop e a 0 s.

(** ** The glue *)

Definition app_glue_create_socket (e : soenv) (type : Z) (s : sostate) : option (option addr * sostate) :=
  r ← socreate e type s;
  match r with
  | (_, Some a, s) => Some (Some a, upd a (fun so => so <| so_upcall2 := true |>) s)
  | (_, None, s) => Some (None, s)
  end.

Definition app_glue_set_glueing_block (a : addr) (data : option Z) (s : sostate) : sostate :=
  upd a (fun so => so <| glueing_block := data |>) s.

(** The connections that wait on a listening socket are accepted, and forgotten. *)
Fixpoint forget_loop (fuel : nat) (e : soenv) (a : addr) (s : sostate) : option sostate :=
  match fuel with
  | O => None
  | S fuel =>
      so ← s_mem s !! a;
      if so_qlen so =? 0 then Some s
      else
        so2 ← head (so_q so);
        r ← soqremque so2 true s;
        if negb r.1 then Some r.2 else r ← soaccept e so2 r.2; forget_loop fuel e a r.2
  end.

Definition unlist (q : glueq) (a : addr) (s : sostate) : option sostate :=
  so ← s_mem s !! a; Some (if queue_present so q then dequeue q a s else s).

Definition app_glue_close_socket (fuel : nat) (e : soenv) (a : addr) (s : sostate) : option sostate :=
  s ← unlist QRead a s;
  s ← unlist QWrite a s;
  so ← s_mem s !! a;
  s ← (if queue_present so QAccept then s ← forget_loop (S (length (so_q so))) e a s; Some (dequeue QAccept a s) else Some s);
  s ← unlist QClosed a s;
  r ← soclose fuel e a s; Some r.2.

Fixpoint accept_loop (fuel : nat) (e : soenv) (a : addr) (s : sostate) : option sostate :=
  match fuel with
  | O => None
  | S fuel =>
      so ← s_mem s !! a;
      if so_qlen so =? 0 then Some s
      else
        so2 ← head (so_q so);
        r ← soqremque so2 true s;
        if negb r.1 then None
        else
          r ← soaccept e so2 r.2;
          let s := upd so2 (fun so => so <| so_upcall2 := true |>) r.2 in
          o2 ← s_mem s !! so2;
          _ ← so_pcb o2;
          accept_loop fuel e a (s <| s_user := s_user s ++ [OnAccepted so2 (glueing_block so)] |>)
  end.

Definition user_on_accept (e : soenv) (a : addr) (s : sostate) : option sostate :=
  so ← s_mem s !! a; accept_loop (S (length (so_q so))) e a s.

Definition tell (n : notice) (s : sostate) : sostate := s <| s_user := s_user s ++ [n] |>.

Fixpoint closed_loop (fuel : nat) (s : sostate) : option sostate :=
  match fuel, ready s QClosed with
  | _, [] => Some s
  | O, _ => None
  | S fuel, a :: _ =>
      so ← s_mem s !! a;
      closed_loop fuel (dequeue QClosed a (tell (OnClosure (glueing_block so)) s))
  end.

Fixpoint accepts_loop (fuel : nat) (e : soenv) (s : sostate) : option sostate :=
  match fuel, ready s QAccept with
  | _, [] => Some s
  | O, _ => None
  | S fuel, a :: _ => s ← user_on_accept e a s; accepts_loop fuel e (dequeue QAccept a s)
  end.

(** [limit] rounds at most. *)
Fixpoint readable_loop (limit : nat) (s : sostate) : option sostate :=
  match limit, ready s QRead with
  | O, _ | _, [] => Some s
  | S limit, a :: _ =>
      so ← s_mem s !! a;
      let s := tell (OnReadable a (glueing_block so)) (dequeue QRead a s) in
      readable_loop limit (s <| read_sockets_queue_len := u64 (read_sockets_queue_len s - 1) |>)
  end.

Fixpoint writable_loop (limit : nat) (s : sostate) : option sostate :=
  match limit, ready s QWrite with
  | O, _ | _, [] => Some s
  | S limit, a :: _ =>
      so ← s_mem s !! a;
      let s := tell (OnWritable a (glueing_block so)) (dequeue QWrite a s) in
      writable_loop limit (s <| write_sockets_queue_len := u64 (write_sockets_queue_len s - 1) |>)
  end.

Definition process_rx_ready_sockets (e : soenv) (s : sostate) : option sostate :=
  s ← closed_loop (length (ready s QClosed)) s;
  s ← accepts_loop (length (ready s QAccept)) e s;
  readable_loop (Z.to_nat (read_sockets_queue_len s)) s.

Definition process_tx_ready_sockets (s : sostate) : option sostate :=
  writable_loop (Z.to_nat (write_sockets_queue_len s)) s.

(** For a stream socket; a datagram socket also reports its space. *)
Definition app_glue_process_tx_empty (a : addr) (s : sostate) : option sostate := enqueue QWaiters a s.

(** [soinit2], with the number of objects of the cache, and [app_glue_init]. *)
Definition soinit2 (count : nat) : sostate := mkSos ∅ (pool_init count) (fun _ => []) 0 0 [].
