(* ===== verification/SocketView.v ===== *)
(** * The sockets as their queues see them

    A [view] holds what the ownership of a socket depends on: the queues, the
    references, the control block, but no buffers and no lists of the glue.  Each
    function of [Socket] is shown to return and to have a simple effect on the
    views ([goes]); wakeups have none. *)

From stdpp Require Import functions.
From S2P Require Import Prelude Pool Tcpcb Mbuf Sockbuf SockState Socket.

Record view := mkView {
  v_opts : Z; v_nofd : bool; v_disc : bool; v_up : bool; v_pcb : option (option Z);
  v_head : option addr; v_onq : option (addr * bool); v_q0 : list addr; v_q : list addr;
  v_q0len : Z; v_qlen : Z; v_qlimit : Z; v_abort : Z
}.

#[export] Instance eta_view : EtaRecord view :=
  fun r => mkView (v_opts r) (v_nofd r) (v_disc r) (v_up r) (v_pcb r) (v_head r) (v_onq r) (v_q0 r) (v_q r)
    (v_q0len r) (v_qlen r) (v_qlimit r) (v_abort r).

Definition view_of (so : socket) : view :=
  mkView (so_options so) (flag_set (so_state so) SS_NOFDREF) (flag_set (so_state so) SS_ISDISCONNECTED) (so_upcall2 so)
    (sototcpcb so) (so_head so) (so_onq so) (so_q0 so) (so_q so) (so_q0len so) (so_qlen so) (so_qlimit so) (so_aborting so).

Abbreviation views := (gmap addr view).

Definition vmap (s : sostate) : views := view_of <$> s_mem s.

Definition vw (s : sostate) : views * pool := (vmap s, socket_cache s).

(** A socket is on a list of the glue at most once, and its flag tells. *)
Definition glue_ok (s : sostate) : Prop := forall q,
  NoDup (ready s q) /\ forall a so, s_mem s !! a = Some so -> (queue_present so q = true <-> a ∈ ready s q).

Definition goes (s : sostate) (w : views * pool) (s' : sostate) : Prop :=
  vw s' = w /\ (glue_ok s -> glue_ok s').

(** ** Rules *)

Lemma goes_refl s : goes s (vw s) s.
Proof. by split. Qed.

Lemma goes_trans s w s' w' s'' : goes s w s' -> goes s' w' s'' -> goes s w' s''.
Proof. intros [_ G] [E G']. split; auto. Qed.

Lemma goes_vw s w s' : goes s w s' -> vw s' = w.
Proof. by intros [E _]. Qed.

Lemma vw_inv s m pl : vw s = (m, pl) -> vmap s = m /\ socket_cache s = pl.
Proof. unfold vw. by intros [= -> ->]. Qed.

Lemma vmap_lookup s a v : vmap s !! a = Some v <-> exists so, s_mem s !! a = Some so /\ view_of so = v.
Proof.
  unfold vmap. rewrite lookup_fmap. destruct (s_mem s !! a) as [so|]; simpl; split.
  - intros [= <-]. by exists so.
  - intros (? & [= <-] & <-). done.
  - done.
  - by intros (? & ? & _).
Qed.

Lemma vmap_upd a f g s : (forall so, s_mem s !! a = Some so -> view_of (f so) = g (view_of so)) ->
  vmap (upd a f s) = alter g a (vmap s).
Proof.
  intros H. apply map_eq. intros b. unfold vmap, upd. simplify_upd. rewrite lookup_fmap.
  destruct (decide (b = a)) as [->|N].
  - rewrite !lookup_alter_eq, lookup_fmap. destruct (s_mem s !! a) as [so|] eqn:E; simpl; [|done]. by rewrite (H so eq_refl).
  - rewrite !lookup_alter_ne, lookup_fmap by done. done.
Qed.

Lemma glue_upd a f s : (forall so q, s_mem s !! a = Some so -> queue_present (f so) q = queue_present so q) ->
  glue_ok s -> glue_ok (upd a f s).
Proof.
  intros H G q. destruct (G q) as [N M]. split; [done|]. intros b so. unfold upd. simplify_upd.
  destruct (decide (b = a)) as [->|D].
  - rewrite lookup_alter_eq. destruct (s_mem s !! a) as [o|] eqn:E; simpl; [|done]. intros [= <-].
    rewrite (H o q eq_refl). by apply M.
  - rewrite lookup_alter_ne by done. by apply M.
Qed.

(** An update of a socket. *)
Lemma goes_upd a f g s :
  (forall so, s_mem s !! a = Some so -> view_of (f so) = g (view_of so) /\ queue_present (f so) = queue_present so) ->
  goes s (alter g a (vmap s), socket_cache s) (upd a f s).
Proof.
  intros H. split.
  - unfold vw. rewrite (vmap_upd a f g); [done|]. intros so E. by apply H.
  - apply glue_upd. intros so q E. by rewrite (proj2 (H so E)).
Qed.

(** An update that the views do not show. *)
Lemma goes_quiet a f s :
  (forall so, s_mem s !! a = Some so -> view_of (f so) = view_of so /\ queue_present (f so) = queue_present so) ->
  goes s (vw s) (upd a f s).
Proof.
  intros H. pose proof (goes_upd a f (fun v => v) s H) as [E G]. split; [|done].
  rewrite E, alter_id; done.
Qed.

Lemma goes_state a f s :
  (forall x, flag_set (f x) SS_NOFDREF = flag_set x SS_NOFDREF /\ flag_set (f x) SS_ISDISCONNECTED = flag_set x SS_ISDISCONNECTED) ->
  goes s (vw s) (set_state a f s).
Proof.
  intros H. apply goes_quiet. intros so _. split; [|done]. unfold view_of, upd_state. simplify_upd.
  destruct (H (so_state so)) as [-> ->]. done.
Qed.

(** ** Wakeups *)

Lemma enqueue_runs q a s v : vmap s !! a = Some v -> runs (enqueue q a s) (goes s (vw s)).
Proof.
  intros (so & E & _)%vmap_lookup. unfold enqueue. rewrite E. cbn [mbind option_bind].
  destruct (queue_present so q) eqn:P; apply runs_ret; [apply goes_refl|].
  set (s1 := (upd a _ s) <| ready := _ |>).
  assert (Hb : vw (bump q s1) = vw s1 /\ (glue_ok (bump q s1) <-> glue_ok s1)) by (by destruct q).
  destruct Hb as [Hv Hb]. split; [rewrite Hv|].
  - unfold vw, s1. change (vmap (set ready _ ?x)) with (vmap x).
    assert (vmap (upd a (set_present q true) s) = vmap s) as -> by (rewrite (vmap_upd _ _ id); [apply alter_id; done|done]).
    done.
  - intros G. rewrite Hb. intros q'. unfold s1, upd. simplify_upd.
    destruct (G q') as [N M], (G q) as [_ Mq]. destruct (decide (q' = q)) as [->|D].
    + rewrite fn_lookup_insert. split.
      * apply NoDup_app. split; [done|]. split; [|apply NoDup_singleton].
        intros x Hx ->%list_elem_of_singleton. apply (Mq a so E) in Hx. congruence.
      * intros b o. destruct (decide (b = a)) as [->|Nb].
        -- rewrite lookup_alter_eq, E. simpl. intros [= <-]. unfold set_present. simplify_upd.
           rewrite fn_lookup_insert, elem_of_app, list_elem_of_singleton. tauto.
        -- rewrite lookup_alter_ne by done. intros Eb. rewrite (M b o Eb), elem_of_app, list_elem_of_singleton. tauto.
    + rewrite fn_lookup_insert_ne by done. split; [done|].
      intros b o. destruct (decide (b = a)) as [->|Nb].
      * rewrite lookup_alter_eq, E. simpl. intros [= <-]. unfold set_present. simplify_upd.
        rewrite fn_lookup_insert_ne by done. by apply M.
      * rewrite lookup_alter_ne by done. by apply M.
Qed.

(** A socket that reports to the glue is disconnected or has a control block. *)
Definition wakes (v : view) : Prop := v_up v = true -> v_disc v = true \/ is_Some (v_pcb v).

Ltac vlook H so E V := apply vmap_lookup in H as (so & E & V).

Lemma runs_same s (o : option sostate) : o = Some s -> runs o (goes s (vw s)).
Proof. intros ->. apply runs_ret, goes_refl. Qed.

Lemma readable_runs a s v : vmap s !! a = Some v -> v_disc v = true \/ is_Some (v_pcb v) ->
  runs (app_glue_sock_readable a s) (goes s (vw s)).
Proof.
  intros H W. pose proof (fun q => enqueue_runs q a s v H) as Q. vlook H so E V. subst v. simpl in W.
  unfold app_glue_sock_readable. rewrite E. cbn [mbind option_bind].
  destruct (flag_set (so_state so) SS_ISDISCONNECTED); [apply Q|].
  destruct W as [|[tp P]]; [done|]. rewrite P. cbn [mbind option_bind].
  repeat (case_match; try apply Q; try (by apply runs_same)).
Qed.

Lemma write_space_runs a s v : vmap s !! a = Some v -> v_disc v = true \/ is_Some (v_pcb v) ->
  runs (app_glue_sock_write_space a s) (goes s (vw s)).
Proof.
  intros H W. pose proof (fun q => enqueue_runs q a s v H) as Q. vlook H so E V. subst v. simpl in W.
  unfold app_glue_sock_write_space. rewrite E. cbn [mbind option_bind].
  destruct (flag_set (so_state so) SS_ISDISCONNECTED); [apply Q|].
  destruct W as [|[tp P]]; [done|]. rewrite P.
  destruct (so_type so =? SOCK_STREAM); cbn [mbind option_bind];
    repeat (case_match; try apply Q; try (by apply runs_same)).
Qed.

Lemma vw_vmap s s' : vw s' = vw s -> vmap s' = vmap s.
Proof. by intros [= -> _]. Qed.

(** Two steps that the views do not show. *)
Lemma runs_quiet s (o : option sostate) (f : sostate -> option sostate) :
  runs o (goes s (vw s)) -> (forall s', vw s' = vw s -> runs (f s') (goes s' (vw s'))) ->
  runs (o ≫= f) (goes s (vw s)).
Proof.
  intros H F. eapply runs_bind; [exact H|]. intros s' G. pose proof (goes_vw _ _ _ G) as E.
  eapply runs_mono; [exact (F s' E)|]. intros s'' G'. rewrite <- E. eapply goes_trans; [exact G|exact G'].
Qed.

Lemma sowakeup_runs a s v : vmap s !! a = Some v -> wakes v -> runs (sowakeup a s) (goes s (vw s)).
Proof.
  intros H W. pose proof H as H'. vlook H so E V. unfold sowakeup. rewrite E. cbn [mbind option_bind].
  destruct (so_upcall2 so) eqn:U; [|by apply runs_same]. specialize (W ltac:(by rewrite <- V)).
  unfold app_glue_so_upcall2. apply runs_quiet.
  - by eapply readable_runs.
  - intros s' E'. eapply write_space_runs; [|exact W]. by rewrite (vw_vmap _ _ E').
Qed.

Lemma sorwakeup_runs a s v : vmap s !! a = Some v -> wakes v -> runs (sorwakeup a s) (goes s (vw s)).
Proof.
  intros H W. pose proof (sowakeup_runs a s v H W) as R. vlook H so E V. unfold sorwakeup. rewrite E. cbn [mbind option_bind].
  destruct (sb_notify (so_rcv so)); [done|by apply runs_same].
Qed.

Lemma sowwakeup_runs a s v : vmap s !! a = Some v -> wakes v -> runs (sowwakeup a s) (goes s (vw s)).
Proof.
  intros H W. pose proof (sowakeup_runs a s v H W) as R. vlook H so E V. unfold sowwakeup. rewrite E. cbn [mbind option_bind].
  destruct (sb_notify (so_snd so)); [done|by apply runs_same].
Qed.

Lemma wakeups_run a s v : vmap s !! a = Some v -> wakes v ->
  runs (s ← sowwakeup a s; sorwakeup a s) (goes s (vw s)).
Proof.
  intros H W. apply runs_quiet; [by eapply sowwakeup_runs|].
  intros s' E. eapply sorwakeup_runs; [|exact W]. by rewrite (vw_vmap _ _ E).
Qed.

(** ** State changes *)

Lemma set_state_quiet a f s v o :
  (forall x, flag_set (f x) SS_NOFDREF = flag_set x SS_NOFDREF /\ flag_set (f x) SS_ISDISCONNECTED = flag_set x SS_ISDISCONNECTED) ->
  vmap s !! a = Some v ->
  (forall s', vmap s' !! a = Some v -> runs (o s') (goes s' (vw s'))) -> runs (o (set_state a f s)) (goes s (vw s)).
Proof.
  intros F H R. pose proof (goes_state a f s F) as G. pose proof (goes_vw _ _ _ G) as E.
  eapply runs_mono; [apply R; by rewrite (vw_vmap _ _ E)|]. intros s' G'. rewrite <- E. eapply goes_trans; [exact G|exact G'].
Qed.

Ltac state_bits := intros ?; unfold state_connecting, state_connected, state_disconnecting, state_disconnected,
  state_cantsendmore, state_cantrcvmore, flags_set; split; flag_bits; done.

Lemma soisdisconnecting_runs a s v : vmap s !! a = Some v -> wakes v -> runs (soisdisconnecting a s) (goes s (vw s)).
Proof.
  intros H W. unfold soisdisconnecting. apply (set_state_quiet a _ s v (fun s => s ← sowwakeup a s; sorwakeup a s)); [state_bits|done|].
  intros s' H'. by eapply wakeups_run.
Qed.

Lemma socantsendmore_runs a s v : vmap s !! a = Some v -> wakes v -> runs (socantsendmore a s) (goes s (vw s)).
Proof.
  intros H W. apply (set_state_quiet a _ s v (sowwakeup a)); [state_bits|done|]. intros s' H'. by eapply sowwakeup_runs.
Qed.

Lemma socantrcvmore_runs a s v : vmap s !! a = Some v -> wakes v -> runs (socantrcvmore a s) (goes s (vw s)).
Proof.
  intros H W. apply (set_state_quiet a _ s v (sorwakeup a)); [state_bits|done|]. intros s' H'. by eapply sorwakeup_runs.
Qed.

Definition disconnected (v : view) : view := v <| v_disc := true |>.

Lemma soisdisconnected_runs a s v : vmap s !! a = Some v ->
  runs (soisdisconnected a s) (goes s (alter disconnected a (vmap s), socket_cache s)).
Proof.
  intros H. unfold soisdisconnected.
  assert (G : goes s (alter disconnected a (vmap s), socket_cache s) (set_state a state_disconnected s)).
  { apply goes_upd. intros so _. split; [|done]. unfold view_of, upd_state, disconnected. simplify_upd. f_equal.
    - unfold state_disconnected, flags_set. by flag_bits.
    - unfold state_disconnected, flags_set. by flag_bits. }
  pose proof (goes_vw _ _ _ G) as E. eapply runs_mono; [eapply (wakeups_run a _ (disconnected v))|].
  - rewrite (proj1 (vw_inv _ _ _ E)). by rewrite lookup_alter_eq, H.
  - intros _. by left.
  - intros s' G'. rewrite <- E. eapply goes_trans; [exact G|exact G'].
Qed.

Lemma sorflush_runs a s v : vmap s !! a = Some v -> wakes v -> runs (sorflush a s) (goes s (vw s)).
Proof.
  intros H W. unfold sorflush. apply runs_quiet; [by eapply socantrcvmore_runs|].
  intros s' E. apply runs_ret, goes_quiet. by intros so _.
Qed.

(** ** Queues *)

Definition vqueue (q : bool) (v : view) : list addr := if q then v_q v else v_q0 v.

Definition vdel (b : addr) (q : bool) (v : view) : view :=
  if q then v <| v_qlen := s16 (v_qlen v - 1) |> <| v_q := del b (v_q v) |>
  else v <| v_q0len := s16 (v_q0len v - 1) |> <| v_q0 := del b (v_q0 v) |>.

Definition vadd (b : addr) (q : bool) (v : view) : view :=
  if q then v <| v_qlen := s16 (v_qlen v + 1) |> <| v_q := v_q v ++ [b] |>
  else v <| v_q0len := s16 (v_q0len v + 1) |> <| v_q0 := v_q0 v ++ [b] |>.

Definition off (v : view) : view := v <| v_onq := None |> <| v_head := None |>.
Definition on (h : addr) (q : bool) (v : view) : view := v <| v_onq := Some (h, q) |> <| v_head := Some h |>.

Definition vrem (h b : addr) (q : bool) (m : views) : views := alter off b (alter (vdel b q) h m).
Definition vins (h b : addr) (q : bool) (m : views) : views := alter (vadd b q) h (alter (on h q) b m).

Lemma goes_eq s w w' s' : goes s w s' -> w = w' -> goes s w' s'.
Proof. by intros H <-. Qed.

(** Two updates in a row. *)
Lemma goes_upd_trans s m pl s' a f g :
  goes s (m, pl) s' ->
  (forall so, s_mem s' !! a = Some so -> view_of (f so) = g (view_of so) /\ queue_present (f so) = queue_present so) ->
  goes s (alter g a m, pl) (upd a f s').
Proof.
  intros G H. pose proof (goes_vw _ _ _ G) as [<- <-]%vw_inv. eapply goes_trans; [exact G|]. by apply goes_upd.
Qed.

Lemma soqremque_runs h b q s v : vmap s !! b = Some v -> v_head v = Some h -> v_onq v = Some (h, q) ->
  is_Some (vmap s !! h) ->
  runs (soqremque b q s) (fun r => r.1 = true /\ goes s (vrem h b q (vmap s), socket_cache s) r.2).
Proof.
  intros H Hh Hq [w Hw]. vlook H so E V. vlook Hw ho Eh Vh. subst v. unfold soqremque. rewrite E. cbn [mbind option_bind].
  simpl in Hh, Hq. rewrite Hh. rewrite bool_decide_eq_true_2 by done. rewrite Eh. cbn [mbind option_bind].
  apply runs_ret. split; [done|]. cbn [snd]. unfold vrem. apply goes_upd_trans; [|by intros so' _].
  eapply goes_eq; [eapply goes_upd_trans; [eapply goes_upd|]|].
  - intros so' _. split; [|by destruct q]. instantiate (1 := fun v => if q then v <| v_qlen := s16 (v_qlen v - 1) |> else v <| v_q0len := s16 (v_q0len v - 1) |>).
    by destruct q.
  - intros so' _. split; [|by destruct q]. instantiate (1 := fun v => if q then v <| v_q := del b (v_q v) |> else v <| v_q0 := del b (v_q0 v) |>).
    by destruct q.
  - f_equal. rewrite alter_alter_eq. by apply alter_ext; intros x _; destruct q.
Qed.

Lemma soqremque_other q b s v : vmap s !! b = Some v -> (forall h, v_onq v <> Some (h, q)) -> soqremque b q s = Some (false, s).
Proof.
  intros H N. vlook H so E V. subst v. simpl in N. unfold soqremque. rewrite E. cbn [mbind option_bind].
  destruct (so_head so) as [h|]; [|done]. by rewrite bool_decide_eq_false_2.
Qed.

Lemma soqinsque_runs h b q s v : vmap s !! b = Some v -> v_onq v = None -> is_Some (vmap s !! h) -> b <> h ->
  runs (soqinsque h b q s) (goes s (vins h b q (vmap s), socket_cache s)).
Proof.
  intros H Hq [w Hw] N. vlook H so E V. vlook Hw ho Eh Vh. subst v. unfold soqinsque. rewrite E, Eh. cbn [mbind option_bind].
  simpl in Hq. rewrite Hq. apply runs_ret. unfold vins.
  eapply goes_eq; [eapply goes_upd_trans; [eapply goes_upd_trans; [eapply goes_upd_trans; [eapply goes_upd|]|]|]|].
  - intros so' _. split; [|done]. by instantiate (1 := fun v => v <| v_head := Some h |>).
  - intros so' _. split; [|by destruct q].
    instantiate (1 := fun v => if q then v <| v_qlen := s16 (v_qlen v + 1) |> else v <| v_q0len := s16 (v_q0len v + 1) |>).
    by destruct q.
  - intros so' _. split; [|done]. by instantiate (1 := fun v => v <| v_onq := Some (h, q) |>).
  - intros so' _. split; [|by destruct q].
    instantiate (1 := fun v => if q then v <| v_q := v_q v ++ [b] |> else v <| v_q0 := v_q0 v ++ [b] |>). by destruct q.
  - f_equal. rewrite (alter_alter_ne _ _ _ b h) by done. rewrite !alter_alter_eq.
    rewrite (alter_ext _ (vadd b q)) by (intros x _; by destruct q). done.
Qed.

(** ** Release *)

(** The queue and the listening socket that a socket points to are there. *)
Definition placed (m : views) (v : view) : Prop :=
  match v_onq v with
  | None => v_head v = None
  | Some (h, _) => v_head v = Some h /\ is_Some (m !! h)
  end.

Definition released (a : addr) (abort : Z) (w : views * pool) : views * pool :=
  if abort =? 0 then (delete a w.1, pool_cache_put w.2 a) else w.

Definition vfree (a : addr) (w : views * pool) : views * pool :=
  match w.1 !! a with
  | None => w
  | Some v =>
      if bool_decide (is_Some (v_pcb v)) || negb (v_nofd v) then w
      else match v_onq v with
           | Some (_, true) => w
           | Some (h, false) => released a (v_abort v) (vrem h a false w.1, w.2)
           | None => released a (v_abort v) w
           end
  end.

Lemma soput_goes a s : goes s (delete a (vmap s), pool_cache_put (socket_cache s) a) (soput a s).
Proof.
  split.
  - unfold vw, vmap, soput. simplify_upd. by rewrite fmap_delete.
  - intros G q. destruct (G q) as [N M]. split; [done|]. intros b so. unfold soput. simplify_upd.
    intros [_ E]%lookup_delete_Some. by apply M.
Qed.

(** From the release of the buffers to the end of [sofree]. *)
Lemma release_runs a f s v : vmap s !! a = Some v -> wakes v ->
  (forall so, view_of (f so) = view_of so /\ queue_present (f so) = queue_present so) ->
  runs (s ← sorflush a (upd a f s); so ← s_mem s !! a; if so_aborting so =? 0 then Some (soput a s) else Some s)
    (goes s (released a (v_abort v) (vw s))).
Proof.
  intros H W F. pose proof (goes_quiet a f s ltac:(auto)) as G0. pose proof (goes_vw _ _ _ G0) as E0.
  eapply runs_bind; [eapply (sorflush_runs a _ v); [|done]; by rewrite (vw_vmap _ _ E0)|].
  intros s' G1. rewrite E0 in G1. pose proof (goes_vw _ _ _ G1) as E1. pose proof H as H'.
  rewrite <- (vw_vmap _ _ E1) in H'. vlook H' so E V. rewrite E. cbn [mbind option_bind].
  assert (so_aborting so = v_abort v) as -> by (by rewrite <- V). unfold released.
  destruct (v_abort v =? 0); apply runs_ret.
  - eapply goes_trans; [exact (goes_trans _ _ _ _ _ G0 G1)|]. rewrite <- E1. apply soput_goes.
  - exact (goes_trans _ _ _ _ _ G0 G1).
Qed.

Lemma sofree_runs a s v : vmap s !! a = Some v -> placed (vmap s) v -> wakes v ->
  runs (sofree a s) (goes s (vfree a (vw s))).
Proof.
  intros H P W. unfold sofree, vfree. cbn [fst vw]. rewrite H. pose proof H as H'. vlook H' so E V. rewrite E. cbn [mbind option_bind].
  assert (bool_decide (is_Some (so_pcb so)) = bool_decide (is_Some (v_pcb v))) as ->.
  { rewrite <- V. simpl. unfold sototcpcb. apply bool_decide_ext. destruct (so_pcb so); simpl; split; intros [? [=]]; by eexists. }
  assert (flag_set (so_state so) SS_NOFDREF = v_nofd v) as -> by (by rewrite <- V).
  destruct (bool_decide _ || negb (v_nofd v)); [by apply runs_same|].
  assert (so_head so = v_head v) as -> by (by rewrite <- V). unfold placed in P.
  destruct (v_onq v) as [[h q]|] eqn:Q.
  - destruct P as [Ph Hh]. rewrite Ph. destruct q.
    + rewrite (soqremque_other false a s v H); [|by rewrite Q]. by apply runs_same.
    + eapply runs_bind; [by eapply soqremque_runs|]. intros [r s1] [-> G1]. cbn [negb fst snd] in *.
      pose proof (goes_vw _ _ _ G1) as [E1 E2]%vw_inv.
      assert (Hv : vmap s1 !! a = Some (off v) \/ h = a /\ vmap s1 !! a = Some (off (vdel a false v))).
      { rewrite E1. unfold vrem. rewrite lookup_alter_eq. destruct (decide (h = a)) as [->|N].
        - right. split; [done|]. by rewrite lookup_alter_eq, H.
        - left. by rewrite lookup_alter_ne, H. }
      destruct Hv as [Hv|[-> Hv]].
      * eapply runs_mono; [eapply (release_runs a _ s1 (off v)); [done|exact W|]|].
        -- intros ?. done.
        -- intros s2 G2. eapply goes_trans; [exact G1|]. unfold vw in G2. by rewrite E1, E2 in G2.
      * eapply runs_mono; [eapply (release_runs a _ s1 (off (vdel a false v))); [done|exact W|]|].
        -- intros ?. done.
        -- intros s2 G2. eapply goes_trans; [exact G1|]. unfold vw in G2. by rewrite E1, E2 in G2.
  - rewrite P. cbn [mbind option_bind negb fst snd]. eapply release_runs; [done|done|]. by intros ?.
Qed.

(** ** TCP's part *)

Definition set_vpcb (p : option (option Z)) (v : view) : view := v <| v_pcb := p |>.

Lemma set_tcb_goes a st s : goes s (alter (fun v => set_vpcb (const st <$> v_pcb v) v) a (vmap s), socket_cache s) (set_tcb a st s).
Proof.
  apply goes_upd. intros so _. split; [|done]. unfold view_of, set_vpcb, sototcpcb. simplify_upd. by destruct (so_pcb so).
Qed.

(** What TCP does to the view of a socket: it may disconnect it, and it gives it
    another state or takes its control block away. *)
Definition tcpd (d : bool) (p : option (option Z)) (v : view) : view := v <| v_disc := d || v_disc v |> <| v_pcb := p |>.

Lemma close_socket_runs a s v : vmap s !! a = Some v -> placed (vmap s) v ->
  runs (close_socket a s) (goes s (vfree a (alter (tcpd true None) a (vmap s), socket_cache s))).
Proof.
  intros H P. unfold close_socket, in_pcbdetach. pose proof (set_tcb_goes a None s) as G0. pose proof (goes_vw _ _ _ G0) as [E0 E0']%vw_inv.
  eapply runs_bind; [eapply soisdisconnected_runs; by rewrite E0, lookup_alter_eq, H|].
  intros s1 G1. rewrite E0, E0' in G1. pose proof (goes_trans _ _ _ _ _ G0 G1) as G01.
  assert (G2 : goes s (alter (tcpd true None) a (vmap s), socket_cache s) (upd a (fun so => so <| so_pcb := None |>) s1)).
  { eapply goes_eq; [eapply goes_upd_trans; [exact G01|]|].
    - intros so _. split; [|done]. by instantiate (1 := set_vpcb None).
    - f_equal. by rewrite !alter_alter_eq. }
  pose proof (goes_vw _ _ _ G2) as [E2 E2']%vw_inv.
  eapply runs_mono; [eapply (sofree_runs a _ (tcpd true None v))|].
  - by rewrite E2, lookup_alter_eq, H.
  - rewrite E2. revert P. unfold placed. simpl. destruct (v_onq v) as [[h q]|]; [|done].
    intros [? ?]. split; [done|]. by rewrite lookup_alter_is_Some.
  - intros _. by left.
  - intros s3 G3. eapply goes_trans; [exact G2|]. unfold vw in G3. by rewrite E2, E2' in G3.
Qed.

Definition tstate (d : bool) (p : option (option Z)) : Prop :=
  match p with None => d = true | Some None => False | Some (Some st) => st <> TCPS_LISTEN end.

Definition tgoes (a : addr) (s s' : sostate) : Prop :=
  exists d p, tstate d p /\ goes s (vfree a (alter (tcpd d p) a (vmap s), socket_cache s)) s'.

Lemma tgoes_quiet a s s1 s2 : goes s (vw s) s1 -> tgoes a s1 s2 -> tgoes a s s2.
Proof.
  intros G (d & p & T & G'). pose proof (goes_vw _ _ _ G) as [E E']%vw_inv. exists d, p. split; [done|].
  rewrite E, E' in G'. eapply goes_trans; [exact G|exact G'].
Qed.

(** A change of TCP's state. *)
Lemma tgoes_state a s v d st s' : vmap s !! a = Some v -> st <> TCPS_LISTEN ->
  goes s (alter (tcpd d (Some (Some st))) a (vmap s), socket_cache s) s' -> tgoes a s s'.
Proof.
  intros H N G. exists d, (Some (Some st)). split; [done|]. eapply goes_eq; [exact G|]. unfold vfree. cbn [fst].
  by rewrite lookup_alter_eq, H.
Qed.

Lemma tcb_state s a v st : vmap s !! a = Some v -> v_pcb v = Some (Some st) ->
  exists so, s_mem s !! a = Some so /\ sototcpcb so = Some (Some st) /\ view_of so = v.
Proof. intros H P. vlook H so E V. exists so. by rewrite <- P, <- V. Qed.

Lemma set_tcb_runs a s v st st' : vmap s !! a = Some v -> v_pcb v = Some (Some st) ->
  goes s (alter (tcpd false (Some (Some st'))) a (vmap s), socket_cache s) (set_tcb a (Some st') s).
Proof.
  intros H P. eapply goes_eq; [apply set_tcb_goes|]. f_equal. apply alter_ext. intros x Hx.
  assert (x = v) as -> by congruence. unfold set_vpcb, tcpd. by rewrite P.
Qed.

Lemma alter_tcpd d p d' p' a (m : views) : alter (tcpd d p) a (alter (tcpd d' p') a m) = alter (tcpd (d || d') p) a m.
Proof. rewrite alter_alter_eq. apply alter_ext. intros x _. unfold compose, tcpd. upd_simpl. by rewrite orb_assoc. Qed.

Lemma placed_alter m a f v : placed m v -> placed (alter f a m) v.
Proof.
  unfold placed. destruct (v_onq v) as [[h q]|]; [|done]. intros [? ?]. split; [done|]. by rewrite lookup_alter_is_Some.
Qed.

Lemma tcp_usrclosed_runs a s v st : vmap s !! a = Some v -> placed (vmap s) v -> v_pcb v = Some (Some st) ->
  runs (tcp_usrclosed a s) (fun r => tgoes a s r.2).
Proof.
  intros H P T. destruct (tcb_state s a v st H T) as (so & E & Tc & V). unfold tcp_usrclosed. rewrite E. cbn [mbind option_bind].
  rewrite Tc. cbn [mbind option_bind].
  destruct ((st =? TCPS_CLOSED) || (st =? TCPS_LISTEN) || (st =? TCPS_SYN_SENT)) eqn:C.
  - pose proof (set_tcb_runs a s v st TCPS_CLOSED H T) as G0. pose proof (goes_vw _ _ _ G0) as [E0 E0']%vw_inv.
    eapply runs_bind; [eapply (close_socket_runs a _ (tcpd false (Some (Some TCPS_CLOSED)) v))|].
    + by rewrite E0, lookup_alter_eq, H.
    + rewrite E0. by apply placed_alter.
    + intros s1 G1. apply runs_ret. cbn [snd]. exists true, None. split; [done|]. rewrite E0, E0', alter_tcpd in G1.
      eapply goes_trans; [exact G0|exact G1].
  - set (st' := if _ || _ then _ else _).
    assert (N : st' <> TCPS_LISTEN).
    { unfold st'. unfold TCPS_CLOSED, TCPS_LISTEN, TCPS_SYN_SENT, TCPS_SYN_RECEIVED, TCPS_ESTABLISHED, TCPS_CLOSE_WAIT, TCPS_FIN_WAIT_1, TCPS_LAST_ACK in *.
      zcases; simpl in C; congruence || lia. }
    pose proof (set_tcb_runs a s v st st' H T) as G0. pose proof (goes_vw _ _ _ G0) as [E0 E0']%vw_inv.
    destruct (TCPS_FIN_WAIT_2 <=? st').
    + eapply runs_bind; [eapply (soisdisconnected_runs a _ (tcpd false (Some (Some st')) v)); by rewrite E0, lookup_alter_eq, H|].
      intros s1 G1. apply runs_ret. cbn [snd]. eapply (tgoes_state a s v true); [done|done|].
      eapply goes_eq; [eapply goes_trans; [exact G0|exact G1]|]. rewrite E0, E0', alter_alter_eq. f_equal.
    + apply runs_ret. cbn [snd]. by eapply tgoes_state.
Qed.

Lemma drop_socket_closes a errno s v : vmap s !! a = Some v -> placed (vmap s) v ->
  runs (drop_socket a errno s) (goes s (vfree a (alter (tcpd true None) a (vmap s), socket_cache s))).
Proof.
  intros H P. unfold drop_socket. set (f := fun so : socket => so <| so_error := u16 errno |>).
  pose proof (goes_quiet a f s ltac:(by intros ? _)) as G0. pose proof (goes_vw _ _ _ G0) as [E0 E0']%vw_inv.
  eapply runs_mono; [eapply (close_socket_runs a _ v); by rewrite E0|].
  intros s1 G1. rewrite E0, E0' in G1. eapply goes_trans; [exact G0|exact G1].
Qed.

Lemma drop_socket_runs a errno s v : vmap s !! a = Some v -> placed (vmap s) v -> runs (drop_socket a errno s) (tgoes a s).
Proof. intros H P. eapply runs_mono; [by eapply drop_socket_closes|]. intros s1 G1. by exists true, None. Qed.

Lemma tcp_disconnect_runs a s v st : vmap s !! a = Some v -> placed (vmap s) v -> v_pcb v = Some (Some st) ->
  runs (tcp_disconnect a s) (tgoes a s).
Proof.
  intros H P T. destruct (tcb_state s a v st H T) as (so & E & Tc & V). unfold tcp_disconnect. rewrite E. cbn [mbind option_bind].
  rewrite Tc. cbn [mbind option_bind]. destruct (negb (TCPS_HAVEESTABLISHED st)).
  { eapply runs_mono; [by eapply close_socket_runs|]. intros s1 G1. by exists true, None. }
  case_match; [by eapply drop_socket_runs|].
  eapply runs_bind; [eapply soisdisconnecting_runs; [done|intros _; right; by rewrite T]|].
  intros s1 G1. pose proof (goes_vw _ _ _ G1) as [E1 E1']%vw_inv.
  pose proof (goes_quiet a flush_rcv s1 ltac:(by intros ? _)) as G2. pose proof (goes_vw _ _ _ G2) as [E2 E2']%vw_inv.
  eapply runs_bind; [eapply (tcp_usrclosed_runs a _ v st); rewrite ?E2, ?E1; done|].
  intros r R. apply runs_ret. eapply tgoes_quiet; [|exact R]. eapply goes_trans; [exact G1|].
  eapply goes_eq; [exact G2|]. unfold vw. by rewrite E1, E1'.
Qed.

(** ** User requests *)

Lemma bind_any_goes e a p s : goes s (vw s) (bind_any e a p s).2.
Proof.
  unfold bind_any. repeat case_match; try apply goes_refl. apply goes_quiet. intros so _. split; [|done].
  unfold view_of, set_lport, sototcpcb. simplify_upd. by destruct (so_pcb so).
Qed.

Lemma has_pcb s a v st : vmap s !! a = Some v -> v_pcb v = Some (Some st) ->
  exists so p, s_mem s !! a = Some so /\ so_pcb so = Some p /\ inp_ppcb p = Some st.
Proof.
  intros H T. destruct (tcb_state s a v st H T) as (so & E & Tc & V). exists so. unfold sototcpcb in Tc.
  destruct (so_pcb so) as [p|]; [|done]. exists p. simpl in Tc. split; [done|]. split; congruence.
Qed.

(** The requests that leave TCP in control: a change of TCP's state or none. *)
Definition effect (a : addr) (s s' : sostate) : Prop := goes s (vw s) s' \/ tgoes a s s'.

Definition tcp_req (req : prureq) : Prop := match req with PRU_ATTACH | PRU_LISTEN => False | _ => True end.

Lemma usr_connect_effect e a p s v st : vmap s !! a = Some v -> v_pcb v = Some (Some st) -> effect a s (usr_connect e a p s).2.
Proof.
  intros H T. unfold usr_connect. pose proof (bind_any_goes e a p s) as G0. destruct (bind_any e a p s) as [error s1].
  cbn [snd] in G0. pose proof (goes_vw _ _ _ G0) as [E0 E0']%vw_inv.
  repeat (case_match; [by left|]). right. eapply tgoes_quiet; [exact G0|].
  pose proof (goes_state a state_connecting s1 ltac:(state_bits)) as G1. pose proof (goes_vw _ _ _ G1) as [E1 E1']%vw_inv.
  eapply tgoes_quiet; [exact G1|]. cbn [snd]. eapply (tgoes_state a _ v false TCPS_SYN_SENT); [by rewrite E1, E0|done|].
  eapply (set_tcb_runs a _ v st); [by rewrite E1, E0|exact T].
Qed.

Lemma tcp_usrreq_runs e req a s v st : tcp_req req -> vmap s !! a = Some v -> placed (vmap s) v -> v_pcb v = Some (Some st) ->
  runs (tcp_usrreq e req a s) (fun r => effect a s r.2).
Proof.
  intros R H P T. destruct (has_pcb s a v st H T) as (so & p & E & Ep & Et). unfold tcp_usrreq. rewrite E. cbn [mbind option_bind].
  rewrite Ep. destruct req; try done.
  1, 4: eapply runs_bind; [by eapply tcp_disconnect_runs|]; intros s1 G1; apply runs_ret; by right.
  - case_match; apply runs_ret; left; [|apply goes_refl]. apply goes_quiet. intros o _. split; [|done].
    unfold view_of, set_lport, sototcpcb. simplify_upd. by destruct (so_pcb o).
  - apply runs_ret. by eapply usr_connect_effect.
  - apply runs_ret. left. apply goes_refl.
  - eapply runs_bind; [eapply socantsendmore_runs; [done|intros _; right; by rewrite T]|].
    intros s1 G1. pose proof (goes_vw _ _ _ G1) as [E1 E1']%vw_inv.
    eapply runs_bind; [eapply (tcp_usrclosed_runs a _ v st); rewrite ?E1; done|].
    intros r R1. apply runs_ret. right. by eapply tgoes_quiet.
  - rewrite Et. cbn [mbind option_bind]. eapply runs_bind; [by eapply drop_socket_runs|]. intros s1 G1. apply runs_ret. by right.
Qed.

Lemma tcp_usrreq_none e req a s v : req <> PRU_ATTACH -> vmap s !! a = Some v -> v_pcb v = None ->
  tcp_usrreq e req a s = Some (EINVAL, s).
Proof.
  intros N H T. vlook H so E V. unfold tcp_usrreq. rewrite E. cbn [mbind option_bind].
  assert (so_pcb so = None) as -> by (rewrite <- V in T; simpl in T; unfold sototcpcb in T; by destruct (so_pcb so)).
  by destruct req.
Qed.

(** ** Attaching a control block, and listening *)

Definition attached (st : Z) (a : addr) (s : sostate) (r : Z * sostate) : Prop :=
  (r.1 = 0 /\ goes s (alter (set_vpcb (Some (Some st))) a (vmap s), socket_cache s) r.2) \/
  (r.1 <> 0 /\ goes s (vw s) r.2).

Lemma reserve_view e x y so : view_of (reserve e x y so).1 = view_of so /\ queue_present (reserve e x y so).1 = queue_present so.
Proof. unfold reserve. by repeat case_match. Qed.

Lemma attached_quiet st a s s1 r : goes s (vw s) s1 -> attached st a s1 r -> attached st a s r.
Proof.
  intros G H. pose proof (goes_vw _ _ _ G) as [E E']%vw_inv. unfold attached, vw in *. rewrite E, E' in H.
  destruct H as [[? ?]|[? ?]]; [left|right]; (split; [done|]); eapply goes_trans; eauto.
Qed.

Lemma set_pcb_goes s m pl s' a p : goes s (m, pl) s' ->
  goes s (alter (set_vpcb (const None <$> p)) a m, pl) (upd a (fun so => so <| so_pcb := (fun x => mkInp x None) <$> p |>) s').
Proof. intros G. eapply goes_upd_trans; [exact G|]. intros so _. split; [|done]. unfold view_of, sototcpcb. simplify_upd. by destruct p. Qed.

Lemma tcp_attach_runs e a s v : vmap s !! a = Some v -> v_pcb v = None -> v_up v = false ->
  runs (tcp_attach e a s) (attached TCPS_CLOSED a s).
Proof.
  intros H T U. pose proof H as H'. vlook H' so E V. unfold tcp_attach. rewrite E. cbn [mbind option_bind].
  match goal with |- context [if ?b then reserve e ?x ?y so else (so, 0)] => set (r := if b then reserve e x y so else (so, 0)) end.
  assert (view_of r.1 = view_of so /\ queue_present r.1 = queue_present so) as [R1 R2].
  { unfold r. case_match; [apply reserve_view|done]. }
  destruct r as [so' error]. cbn [fst] in R1, R2.
  assert (G0 : goes s (vw s) (upd a (fun _ => so') s)).
  { apply goes_quiet. intros o Eo. assert (o = so) as -> by congruence. done. }
  pose proof (goes_vw _ _ _ G0) as [E0 E0']%vw_inv.
  destruct (Z.eqb_spec error 0) as [->|Ne]; cbn [negb]; [|apply runs_ret; right; done].
  eapply runs_mono; [|intros r; apply attached_quiet; exact G0].
  generalize dependent (upd a (fun _ => so') s). intros s0 G0 E0 E0'. rewrite <- E0 in H. clear G0 E0 E0' s R1 R2 E.
  match goal with |- context [upd a ?g s0] => set (f := g) end.
  pose proof (goes_quiet a f s0 ltac:(by intros ? _)) as G1. pose proof (goes_vw _ _ _ G1) as [E1 E1']%vw_inv.
  destruct (Z.eqb_spec (se_pcballoc e) 0) as [_|Na]; cbn [negb]; [|apply runs_ret; right; done].
  eapply runs_mono; [|intros r; apply attached_quiet; exact G1].
  generalize dependent (upd a f s0). intros s1 G1 E1 E1'. rewrite <- E1 in H. clear G1 E1 E1' s0 f.
  pose proof (set_pcb_goes _ _ _ _ a (Some 0) (goes_refl s1)) as G2. simpl in G2.
  destruct (se_newtcpcb e).
  - apply runs_ret. left. split; [done|]. pose proof (goes_vw _ _ _ G2) as [E2 E2']%vw_inv.
    eapply goes_eq; [eapply goes_trans; [exact G2|apply set_tcb_goes]|]. rewrite E2, E2', alter_alter_eq. done.
  - set (s2 := upd a _ s1) in *.
    assert (G3 : goes s1 (alter (fun x => x <| v_nofd := false |>) a (vmap s1), socket_cache s1)
        (upd a (fun so => so <| so_pcb := None |>) (set_state a (fun st => flag_clear st SS_NOFDREF) s2))).
    { eapply goes_eq; [eapply (set_pcb_goes _ _ _ _ a None); eapply goes_upd_trans; [exact G2|]|].
      - intros o _. split; [|done]. instantiate (1 := fun x => x <| v_nofd := false |>).
        unfold view_of, upd_state. simplify_upd. f_equal; unfold flag_clear; by flag_bits.
      - f_equal. rewrite !alter_alter_eq. apply alter_ext. intros x Hx. assert (x = v) as -> by congruence.
        unfold compose, set_vpcb. simpl. destruct v; simpl in T; by subst. }
    pose proof (goes_vw _ _ _ G3) as [E3 E3']%vw_inv. unfold in_pcbdetach.
    eapply runs_bind; [apply runs_same|].
    + assert (Hv : vmap (upd a (fun so => so <| so_pcb := None |>) (set_state a (fun st => flag_clear st SS_NOFDREF) s2)) !! a
        = Some (v <| v_nofd := false |>)) by (by rewrite E3, lookup_alter_eq, H).
      vlook Hv o Eo Vo. unfold sofree. rewrite Eo. cbn [mbind option_bind].
      assert (flag_set (so_state o) SS_NOFDREF = false) as -> by (change (v_nofd (view_of o) = false); by rewrite Vo).
      by rewrite orb_true_r.
    + intros s4 G4. apply runs_ret. right. split; [done|]. cbn [snd].
      pose proof (goes_trans _ _ _ _ _ G3 G4) as G5. unfold vw in G5. rewrite E3, E3' in G5.
      eapply goes_eq; [eapply goes_upd_trans; [exact G5|]|].
      * intros o _. split; [|done]. instantiate (1 := fun x => x <| v_nofd := v_nofd x || v_nofd v |>).
        unfold view_of, upd_state. simplify_upd. rewrite <- V. simpl. f_equal; by flag_bits.
      * unfold vw. f_equal. rewrite alter_alter_eq. apply alter_id. intros x Hx. assert (x = v) as -> by congruence.
        by destruct v.
Qed.

Lemma tcp_usrreq_attach_runs e a s v : vmap s !! a = Some v -> v_pcb v = None -> v_up v = false ->
  runs (tcp_usrreq e PRU_ATTACH a s) (attached TCPS_CLOSED a s).
Proof.
  intros H T U. pose proof (tcp_attach_runs e a s v H T U) as R. vlook H so E V. unfold tcp_usrreq. rewrite E. cbn [mbind option_bind].
  assert (so_pcb so = None) as -> by (rewrite <- V in T; simpl in T; unfold sototcpcb in T; by destruct (so_pcb so)).
  eapply runs_bind; [exact R|]. intros [error s1] A. cbn [fst snd].
  destruct (Z.eqb_spec error 0) as [->|Ne]; cbn [negb]; apply runs_ret; [|exact A].
  destruct A as [[_ G]|[? _]]; [|done]. left. split; [done|]. cbn [snd] in *.
  pose proof (goes_vw _ _ _ G) as E1. eapply goes_trans; [exact G|]. rewrite <- E1. apply goes_quiet. intros o _. by case_match.
Qed.

Lemma tcp_usrreq_listen_runs e a s v st : vmap s !! a = Some v -> v_pcb v = Some (Some st) ->
  runs (tcp_usrreq e PRU_LISTEN a s) (attached TCPS_LISTEN a s).
Proof.
  intros H T. destruct (has_pcb s a v st H T) as (so & p & E & Ep & Et). unfold tcp_usrreq. rewrite E. cbn [mbind option_bind].
  rewrite Ep. pose proof (bind_any_goes e a p s) as G0. destruct (bind_any e a p s) as [error s1]. cbn [snd] in G0.
  destruct (Z.eqb_spec error 0) as [_|Ne]; cbn [negb]; [|apply runs_ret; by right].
  rewrite Et. cbn [mbind option_bind]. apply runs_ret. eapply attached_quiet; [exact G0|]. left. split; [done|].
  pose proof (goes_vw _ _ _ G0) as [E0 E0']%vw_inv. eapply goes_eq; [apply set_tcb_goes|]. f_equal. apply alter_ext. intros x Hx.
  rewrite E0 in Hx. assert (x = v) as -> by congruence. unfold set_vpcb. by rewrite T.
Qed.
