(* ===== verification/SocketInv.v ===== *)
(** * Who owns a socket

    The invariant of the sockets, on views: queues and back pointers agree, the
    lengths are exact and bounded, a socket has an owner, and every object of the
    pool is free or a socket. *)

From S2P Require Import Prelude Pool Tcpcb SockState Socket SocketView.

(** The most connections on the two queues of a listening socket. *)
Definition backlog_max : Z := 3 * SOMAXCONN / 2 + 1.

Definition on_queue (m : views) (b h : addr) (q : bool) : Prop := exists w, m !! b = Some w /\ v_onq w = Some (h, q).

Definition has_conn (m : views) (b h : addr) (q : bool) : Prop := exists w, m !! h = Some w /\ b ∈ vqueue q w.

Definition vlens (v : view) : Prop :=
  v_q0len v = Z.of_nat (length (v_q0 v)) /\ v_qlen v = Z.of_nat (length (v_q v)) /\ v_q0len v + v_qlen v <= backlog_max /\
  0 <= v_qlimit v <= SOMAXCONN /\ NoDup (v_q0 v) /\ NoDup (v_q v).

Definition vplace (v : view) : Prop :=
  match v_onq v with None => v_head v = None | Some (h, _) => v_head v = Some h /\ v_nofd v = true end.

(** Only a listening socket that the application holds has connections waiting. *)
Definition vlistens (v : view) : Prop :=
  v_q0 v ++ v_q v <> [] -> v_nofd v = false /\ flag_set (v_opts v) SO_ACCEPTCONN = true.

(** The application, TCP, or the queue of a listening socket. *)
Definition vowned (v : view) : Prop :=
  v_nofd v = false \/ is_Some (v_pcb v) \/ exists h, v_onq v = Some (h, true).

Definition vtcp (v : view) : Prop :=
  v_pcb v <> Some None /\ (v_pcb v = Some (Some TCPS_LISTEN) -> v_nofd v = false) /\ wakes v.

Record vloc (v : view) : Prop := mkVloc {
  k_lens : vlens v; k_place : vplace v; k_listens : vlistens v; k_owned : vowned v; k_tcp : vtcp v;
  k_abort : v_abort v = 0; k_filter : flag_set (v_opts v) SO_ACCEPTFILTER = false
}.

Record core (objs : list addr) (m : views) (pl : pool) : Prop := mkCore {
  c_loc : forall a v, m !! a = Some v -> vloc v;
  c_links : forall b h q, on_queue m b h q <-> has_conn m b h q;
  c_pool : mempool pl ++ elements (dom m) ≡ₚ objs
}.

(** ** Views *)

Lemma on_queue_fun m b h q h' q' : on_queue m b h q -> on_queue m b h' q' -> h = h' /\ q = q'.
Proof. intros (w & E & H) (w' & E' & H'). split; congruence. Qed.

Lemma on_queue_alter m a f b h q : (forall v, m !! a = Some v -> v_onq (f v) = v_onq v) ->
  on_queue (alter f a m) b h q <-> on_queue m b h q.
Proof.
  intros F. unfold on_queue. destruct (decide (b = a)) as [->|N].
  - rewrite lookup_alter_eq. destruct (m !! a) as [v|] eqn:E; simpl; [|done]. specialize (F v eq_refl).
    split; intros (w & [= <-] & H); eexists; (split; [done|]); congruence.
  - by rewrite lookup_alter_ne.
Qed.

Lemma has_conn_alter m a f b h q : (forall v, m !! a = Some v -> vqueue q (f v) = vqueue q v) ->
  has_conn (alter f a m) b h q <-> has_conn m b h q.
Proof.
  intros F. unfold has_conn. destruct (decide (h = a)) as [->|N].
  - rewrite lookup_alter_eq. destruct (m !! a) as [v|] eqn:E; simpl; [|done]. specialize (F v eq_refl).
    split; intros (w & [= <-] & H); eexists; (split; [done|]); congruence.
  - by rewrite lookup_alter_ne.
Qed.

Lemma dom_alter_elements (m : views) a f : elements (dom (alter f a m)) = elements (dom m).
Proof. by rewrite dom_alter_L. Qed.

(** A change of one socket that leaves its place and its queues alone. *)
Lemma core_alter objs m pl a f v : core objs m pl -> m !! a = Some v ->
  v_onq (f v) = v_onq v -> v_q0 (f v) = v_q0 v -> v_q (f v) = v_q v -> vloc (f v) -> core objs (alter f a m) pl.
Proof.
  intros [L K P] H Hq H0 H1 Lf. constructor.
  - intros b w. destruct (decide (b = a)) as [->|N]; [|rewrite lookup_alter_ne by done; apply L].
    rewrite lookup_alter_eq, H. by intros [= <-].
  - intros b h q. rewrite on_queue_alter, has_conn_alter, K; [done| |].
    + intros x Hx. assert (x = v) as -> by congruence. unfold vqueue. by destruct q.
    + intros x Hx. by assert (x = v) as -> by congruence.
  - by rewrite dom_alter_elements.
Qed.

Lemma del_elem b l c : c ∈ del b l <-> c ∈ l /\ c <> b.
Proof. unfold del. rewrite list_elem_of_filter. tauto. Qed.

Lemma del_notin b l : b ∉ l -> del b l = l.
Proof.
  intros N. unfold del. induction l as [|c l IH]; [done|]. apply not_elem_of_cons in N as [? ?].
  rewrite filter_cons_True by done. by rewrite IH.
Qed.

Lemma del_length b l : NoDup l -> b ∈ l -> S (length (del b l)) = length l.
Proof.
  intros N. induction N as [|c l Nc N IH]; intros H; [by apply elem_of_nil in H|]. unfold del in *.
  destruct (decide (c = b)) as [->|D].
  - rewrite filter_cons_False by tauto. fold (del b l). by rewrite del_notin.
  - rewrite filter_cons_True by done. simpl. rewrite IH; [done|]. apply elem_of_cons in H as [->|H]; done.
Qed.

Lemma del_NoDup b l : NoDup l -> NoDup (del b l).
Proof. apply NoDup_filter. Qed.

Lemma backlog_max_eq : backlog_max = 193.
Proof. reflexivity. Qed.

Lemma vlens_vdel b q v : vlens v -> b ∈ vqueue q v -> vlens (vdel b q v).
Proof.
  intros (A & B & S & Q & N0 & N1) H. unfold vlens in *. rewrite backlog_max_eq in *.
  destruct q; unfold vdel, vqueue in *; simplify_upd.
  - pose proof (del_length b _ N1 H). rewrite s16_small by lia. repeat split; try lia; try done. by apply del_NoDup.
  - pose proof (del_length b _ N0 H). rewrite s16_small by lia. repeat split; try lia; try done. by apply del_NoDup.
Qed.

Lemma vlens_vadd b q v : vlens v -> b ∉ vqueue q v -> v_q0len v + v_qlen v < backlog_max -> vlens (vadd b q v).
Proof.
  intros (A & B & S & Q & N0 & N1) H L. unfold vlens in *. rewrite backlog_max_eq in *.
  destruct q; unfold vadd, vqueue in *; simplify_upd; rewrite s16_small by lia; rewrite length_app; simpl;
    (repeat split; try lia; try done); apply NoDup_app; (split; [done|]); split; try apply NoDup_singleton;
    by intros x Hx ->%list_elem_of_singleton.
Qed.

(** A change of the queues of the listening socket. *)
Lemma vloc_vdel b q v : vloc v -> b ∈ vqueue q v -> vloc (vdel b q v).
Proof.
  intros [L P S O T A F] H. pose proof (vlens_vdel b q v L H) as L'.
  assert (Hn : v_q0 v ++ v_q v <> []) by (intros [E0 E1]%app_eq_nil; unfold vqueue in H; destruct q; rewrite ?E0, ?E1 in H; by apply elem_of_nil in H).
  specialize (S Hn). destruct q; (constructor; [done| | | | | |]); try done; by intros _.
Qed.

Lemma vloc_vadd b q v : vloc v -> b ∉ vqueue q v -> v_q0len v + v_qlen v < backlog_max ->
  v_nofd v = false -> flag_set (v_opts v) SO_ACCEPTCONN = true -> vloc (vadd b q v).
Proof.
  intros [L P S O T A F] H B N C. pose proof (vlens_vadd b q v L H B) as L'.
  destruct q; (constructor; [done| | | | | |]); try done; by intros _.
Qed.

Lemma queued_facts objs m pl h b q v : core objs m pl -> m !! b = Some v -> v_onq v = Some (h, q) ->
  h <> b /\ v_nofd v = true /\ v_head v = Some h /\ v_q0 v = [] /\ v_q v = [] /\ exists w, m !! h = Some w /\ b ∈ vqueue q w.
Proof.
  intros C H Q. pose proof (c_loc _ _ _ C b v H) as [_ P S _ _ _ _]. unfold vplace in P. rewrite Q in P. destruct P as [P1 P2].
  destruct (proj1 (c_links _ _ _ C b h q)) as (w & Hw & Hb); [by exists v|].
  assert (E : v_q0 v ++ v_q v = []) by (destruct (v_q0 v ++ v_q v) eqn:E; [done|]; destruct S as [S _]; congruence).
  apply app_eq_nil in E as [E0 E1]. repeat split; try done; [|by exists w].
  intros ->. assert (w = v) as -> by congruence. unfold vqueue in Hb. destruct q; rewrite ?E0, ?E1 in Hb; by apply elem_of_nil in Hb.
Qed.

Lemma vrem_lookup h b q (m : views) c : h <> b ->
  vrem h b q m !! c = if decide (c = b) then off <$> m !! b else if decide (c = h) then vdel b q <$> m !! h else m !! c.
Proof.
  intros N. unfold vrem. destruct (decide (c = b)) as [->|D].
  - by rewrite lookup_alter_eq, lookup_alter_ne.
  - rewrite lookup_alter_ne by done. destruct (decide (c = h)) as [->|D']; [by rewrite lookup_alter_eq|by rewrite lookup_alter_ne].
Qed.

Lemma vrem_on_queue h b q m c h' q' : h <> b ->
  on_queue (vrem h b q m) c h' q' <-> on_queue m c h' q' /\ c <> b.
Proof.
  intros N. unfold on_queue. rewrite vrem_lookup by done. destruct (decide (c = b)) as [->|D].
  - split; [|tauto]. intros (w & E & H). destruct (m !! b); simpl in E; [|done]. injection E as <-. done.
  - destruct (decide (c = h)) as [->|D']; [|naive_solver]. destruct (m !! h) as [w|]; simpl; [|naive_solver].
    split.
    + intros (x & [= <-] & H). split; [|done]. exists w. split; [done|]. by destruct q.
    + intros ((x & [= <-] & H) & _). eexists. split; [done|]. by destruct q.
Qed.

Lemma vrem_has_conn h b q m c h' q' : h <> b ->
  has_conn (vrem h b q m) c h' q' <-> has_conn m c h' q' /\ ~ (h' = h /\ q' = q /\ c = b).
Proof.
  intros N. unfold has_conn. rewrite vrem_lookup by done. destruct (decide (h' = b)) as [->|D].
  - split.
    + intros (w & E & H). destruct (m !! b) as [x|]; simpl in E; [|done]. injection E as <-. split; [by exists x|naive_solver].
    + intros ((w & -> & H) & _). by exists (off w).
  - destruct (decide (h' = h)) as [->|D'].
    + destruct (m !! h) as [w|]; simpl; [|naive_solver]. split.
      * intros (x & [= <-] & H). destruct q, q'; simpl in H; try apply del_elem in H as [H ?]; (split; [by exists w|naive_solver]).
      * intros ((x & [= <-] & H) & Ne). exists (vdel b q w). split; [done|]. destruct q, q'; simpl; try done; apply del_elem; naive_solver.
    + naive_solver.
Qed.

(** ** A connection leaves its queue *)

Lemma pool_release (objs : list addr) (m : views) pl a : is_Some (m !! a) -> mempool pl ++ elements (dom m) ≡ₚ objs ->
  mempool (pool_cache_put pl a) ++ elements (dom (delete a m)) ≡ₚ objs.
Proof.
  intros Ha P. unfold pool_cache_put, pool_put. simpl. rewrite <- P, <- app_assoc. f_equiv. simpl.
  rewrite dom_delete_L. rewrite <- (elements_union_singleton (dom m ∖ {[a]}) a) by set_solver.
  f_equiv. rewrite union_comm_L, difference_union_L.
  assert (dom m ∪ {[a]} = dom m) as -> by (apply elem_of_dom in Ha; set_solver). done.
Qed.

(** The connection is freed. *)
Lemma core_discard objs m pl h b q v : core objs m pl -> m !! b = Some v -> v_onq v = Some (h, q) ->
  core objs (delete b (vrem h b q m)) (pool_cache_put pl b).
Proof.
  intros C H Q. destruct (queued_facts _ _ _ _ _ _ _ C H Q) as (N & Hn & Hh & E0 & E1 & w & Hw & Hb). constructor.
  - intros c x [D Hc]%lookup_delete_Some. rewrite vrem_lookup in Hc by done. rewrite decide_False in Hc by done.
    destruct (decide (c = h)) as [->|D']; [|by eapply c_loc]. rewrite Hw in Hc. injection Hc as <-.
    apply vloc_vdel; [by eapply c_loc|done].
  - intros c h' q'.
    assert (A : on_queue (delete b (vrem h b q m)) c h' q' <-> on_queue m c h' q' /\ c <> b).
    { rewrite <- (vrem_on_queue h b q) by done. unfold on_queue. destruct (decide (c = b)) as [->|D].
      - rewrite lookup_delete_eq, vrem_lookup, decide_True, H by done. simpl. naive_solver.
      - by rewrite lookup_delete_ne. }
    assert (B : has_conn (delete b (vrem h b q m)) c h' q' <-> has_conn m c h' q' /\ ~ (h' = h /\ q' = q /\ c = b)).
    { rewrite <- (vrem_has_conn h b q) by done. unfold has_conn. destruct (decide (h' = b)) as [->|D].
      - rewrite lookup_delete_eq, vrem_lookup, decide_True, H by done. simpl. split; [naive_solver|].
        intros (x & [= <-] & Hc). destruct q'; simpl in Hc; rewrite ?E0, ?E1 in Hc; by apply elem_of_nil in Hc.
      - by rewrite lookup_delete_ne. }
    rewrite A, B, (c_links _ _ _ C). split; intros [Hc D]; (split; [done|]); [naive_solver|].
    intros ->. apply D. apply (c_links _ _ _ C) in Hc. destruct (on_queue_fun m b h q h' q') as [-> ->]; [by exists v|done|done].
  - apply pool_release; [by rewrite vrem_lookup, decide_True, H by done|]. unfold vrem. rewrite !dom_alter_elements. apply C.
Qed.

(** The connection leaves the queue and stays, with an owner. *)
Lemma core_vrem objs m pl h b q v f : core objs m pl -> m !! b = Some v -> v_onq v = Some (h, q) ->
  (forall x, v_onq (f x) = v_onq x /\ v_q0 (f x) = v_q0 x /\ v_q (f x) = v_q x) -> vloc (f (off v)) ->
  core objs (alter f b (vrem h b q m)) pl.
Proof.
  intros C H Q F L. destruct (queued_facts _ _ _ _ _ _ _ C H Q) as (N & Hn & Hh & E0 & E1 & w & Hw & Hb). constructor.
  - intros c x. destruct (decide (c = b)) as [->|D].
    + rewrite lookup_alter_eq, vrem_lookup, decide_True, H by done. by intros [= <-].
    + rewrite lookup_alter_ne, vrem_lookup, decide_False by done.
      destruct (decide (c = h)) as [->|D']; [|by apply C]. rewrite Hw. intros [= <-]. apply vloc_vdel; [by eapply c_loc|done].
  - intros c h' q'. rewrite on_queue_alter, has_conn_alter, vrem_on_queue, vrem_has_conn, (c_links _ _ _ C) by
      (try done; intros x _; destruct (F x) as (? & ? & ?); try done; unfold vqueue; by destruct q').
    split; intros [Hc D]; (split; [done|]); [naive_solver|].
    intros ->. apply D. apply (c_links _ _ _ C) in Hc. destruct (on_queue_fun m b h q h' q') as [-> ->]; [by exists v|done|done].
  - unfold vrem. rewrite !dom_alter_elements. apply C.
Qed.

Definition held (v : view) : view := v <| v_nofd := false |>.

Lemma core_accept objs m pl h b v : core objs m pl -> m !! b = Some v -> v_onq v = Some (h, true) ->
  core objs (alter held b (vrem h b true m)) pl.
Proof.
  intros C H Q. destruct (queued_facts _ _ _ _ _ _ _ C H Q) as (N & Hn & Hh & E0 & E1 & _).
  destruct (c_loc _ _ _ C b v H) as [L P S O (T1 & T2 & T3) A F]. eapply core_vrem; [done|done|done|done|]. constructor; try done.
  - intros X. exfalso. apply X. simpl. by rewrite E0, E1.
  - by left.
Qed.

(** A socket that no queue refers to is freed. *)
Lemma core_delete objs m pl a v : core objs m pl -> m !! a = Some v -> v_onq v = None -> v_q0 v = [] -> v_q v = [] ->
  core objs (delete a m) (pool_cache_put pl a).
Proof.
  intros C H Q E0 E1. constructor.
  - intros c x [_ Hc]%lookup_delete_Some. by eapply c_loc.
  - intros c h q.
    assert (A : on_queue (delete a m) c h q <-> on_queue m c h q).
    { unfold on_queue. destruct (decide (c = a)) as [->|D]; [|by rewrite lookup_delete_ne].
      rewrite lookup_delete_eq, H. split; [naive_solver|]. intros (x & [= <-] & Hx). congruence. }
    assert (B : has_conn (delete a m) c h q <-> has_conn m c h q).
    { unfold has_conn. destruct (decide (h = a)) as [->|D]; [|by rewrite lookup_delete_ne].
      rewrite lookup_delete_eq, H. split; [naive_solver|].
      intros (x & [= <-] & Hc). destruct q; simpl in Hc; rewrite ?E0, ?E1 in Hc; by apply elem_of_nil in Hc. }
    rewrite A, B. apply C.
  - apply pool_release; [by rewrite H|apply C].
Qed.

(** ** A connection joins a queue *)

Lemma vins_lookup h b q (m : views) c : h <> b ->
  vins h b q m !! c = if decide (c = b) then on h q <$> m !! b else if decide (c = h) then vadd b q <$> m !! h else m !! c.
Proof.
  intros N. unfold vins. destruct (decide (c = b)) as [->|D].
  - by rewrite lookup_alter_ne, lookup_alter_eq.
  - destruct (decide (c = h)) as [->|D']; [by rewrite lookup_alter_eq, lookup_alter_ne|by rewrite !lookup_alter_ne].
Qed.

Lemma vins_on_queue h b q m c h' q' : h <> b -> is_Some (m !! b) ->
  on_queue (vins h b q m) c h' q' <-> (c = b /\ h' = h /\ q' = q) \/ (on_queue m c h' q' /\ c <> b).
Proof.
  intros N [v H]. unfold on_queue. rewrite vins_lookup by done. destruct (decide (c = b)) as [->|D].
  - rewrite H. simpl. split; [intros (x & [= <-] & [= -> ->]); by left|]. intros [(_ & -> & ->)|[_ ?]]; [by eexists|done].
  - destruct (decide (c = h)) as [->|D']; [|naive_solver]. destruct (m !! h) as [w|]; simpl; [|naive_solver]. split.
    + intros (x & [= <-] & Hx). right. split; [|done]. exists w. split; [done|]. by destruct q.
    + intros [(? & _)|[(x & [= <-] & Hx) _]]; [done|]. eexists. split; [done|]. by destruct q.
Qed.

Lemma vins_has_conn h b q m c h' q' : h <> b -> is_Some (m !! h) ->
  has_conn (vins h b q m) c h' q' <-> (c = b /\ h' = h /\ q' = q) \/ has_conn m c h' q'.
Proof.
  intros N [w Hw]. unfold has_conn. rewrite vins_lookup by done. destruct (decide (h' = b)) as [->|D].
  - destruct (m !! b) as [v|]; simpl; [|naive_solver]. split.
    + intros (x & [= <-] & Hx). right. by exists v.
    + intros [(_ & ? & _)|(x & [= <-] & Hx)]; [done|]. by eexists.
  - destruct (decide (h' = h)) as [->|D']; [|naive_solver]. rewrite Hw. simpl.
    split.
    + intros (x & [= <-] & Hx). destruct q, q'; simpl in Hx; try (right; by exists w);
        (apply elem_of_app in Hx as [Hx|Hx%list_elem_of_singleton]; [right; by exists w|by left]).
    + intros [(-> & _ & ->)|(x & [= <-] & Hx)]; (eexists; split; [done|]).
      * destruct q; simpl; apply elem_of_app; right; by apply list_elem_of_singleton.
      * destruct q, q'; simpl; try done; apply elem_of_app; by left.
Qed.

Lemma core_vins objs m pl h b q v w : core objs m pl -> m !! b = Some v -> v_onq v = None -> v_nofd v = true ->
  m !! h = Some w -> h <> b -> v_nofd w = false -> flag_set (v_opts w) SO_ACCEPTCONN = true -> v_q0len w + v_qlen w < backlog_max ->
  core objs (vins h b q m) pl.
Proof.
  intros C Hb Q Nf Hw N Nw Aw Room. pose proof (c_loc _ _ _ C b v Hb) as [L P S O T A F].
  assert (Nb : b ∉ vqueue q w).
  { intros Hc. destruct (proj2 (c_links _ _ _ C b h q)) as (x & Hx & Qx); [by exists w|]. congruence. }
  constructor.
  - intros c x. rewrite vins_lookup by done. destruct (decide (c = b)) as [->|D].
    { rewrite Hb. intros <-%(inj Some). constructor; try done. destruct O as [O|[O|[h' O]]]; [by left|right; by left|congruence]. }
    destruct (decide (c = h)) as [->|D']; [|by apply C]. rewrite Hw. intros <-%(inj Some).
    apply vloc_vadd; try done. by eapply c_loc.
  - intros c h' q'. rewrite vins_on_queue, vins_has_conn, (c_links _ _ _ C) by (by eexists || done).
    split; [naive_solver|]. intros [?|Hc]; [by left|]. right. split; [done|]. intros ->.
    apply (c_links _ _ _ C) in Hc as (x & Hx & Qx). congruence.
  - unfold vins. rewrite !dom_alter_elements. apply C.
Qed.

(** A connection moves to the queue of those that are complete. *)
Lemma core_connected objs m pl h b v : core objs m pl -> m !! b = Some v -> v_onq v = Some (h, false) ->
  core objs (vins h b true (vrem h b false m)) pl.
Proof.
  intros C H Q. destruct (queued_facts _ _ _ _ _ _ _ C H Q) as (N & Hn & Hh & E0 & E1 & w & Hw & Hb).
  pose proof (c_loc _ _ _ C b v H) as [L P S O T A F]. pose proof (c_loc _ _ _ C h w Hw) as Lw.
  assert (C' : core objs (alter id b (vrem h b false m)) pl).
  { eapply core_vrem; [done|done|done|done|]. constructor; try done. destruct O as [O|[O|[h' O]]]; [by left|right; by left|congruence]. }
  rewrite alter_id in C' by done. destruct (k_listens _ Lw) as [Sn Sa].
  { simpl in Hb. intros [Z _]%app_eq_nil. rewrite Z in Hb. by apply elem_of_nil in Hb. }
  pose proof (vloc_vdel b false w Lw Hb) as Lw'.
  eapply (core_vins _ _ _ _ _ _ (off v) (vdel b false w)); try done.
  - by rewrite vrem_lookup, decide_True, H.
  - by rewrite vrem_lookup, decide_False, decide_True, Hw.
  - destruct (k_lens _ Lw) as (La & Lb & Ls & _ & Nd & _). destruct (k_lens _ Lw') as (La' & Lb' & _).
    pose proof (del_length b _ Nd Hb). unfold vdel in *. simplify_upd. lia.
Qed.

(** ** Creation *)

Lemma pool_fresh objs m a rest : NoDup objs -> core objs m (mkPool (a :: rest)) -> m !! a = None.
Proof.
  intros N C. destruct (m !! a) as [v|] eqn:E; [|done]. exfalso. pose proof (c_pool _ _ _ C) as P. simpl in P.
  rewrite <- P in N. apply NoDup_cons in N as [N _]. apply N. apply elem_of_app. right. apply elem_of_elements, elem_of_dom. by eexists.
Qed.

Lemma core_create objs m a rest v : NoDup objs -> core objs m (mkPool (a :: rest)) -> vloc v -> v_onq v = None -> v_q0 v = [] -> v_q v = [] ->
  core objs (<[a := v]> m) (mkPool rest).
Proof.
  intros N C L Q E0 E1. pose proof (pool_fresh _ _ _ _ N C) as Fr. constructor.
  - intros c x. destruct (decide (c = a)) as [->|D].
    + rewrite lookup_insert_eq. by intros [= <-].
    + rewrite lookup_insert_ne by done. by apply C.
  - intros c h q.
    assert (A : on_queue (<[a := v]> m) c h q <-> on_queue m c h q).
    { unfold on_queue. destruct (decide (c = a)) as [->|D]; [|by rewrite lookup_insert_ne].
      rewrite lookup_insert_eq, Fr. split; [|naive_solver]. intros (x & [= <-] & Hx). congruence. }
    assert (B : has_conn (<[a := v]> m) c h q <-> has_conn m c h q).
    { unfold has_conn. destruct (decide (h = a)) as [->|D]; [|by rewrite lookup_insert_ne].
      rewrite lookup_insert_eq, Fr. split; [|naive_solver].
      intros (x & [= <-] & Hc). destruct q; simpl in Hc; rewrite ?E0, ?E1 in Hc; by apply elem_of_nil in Hc. }
    rewrite A, B. apply C.
  - rewrite dom_insert_L, elements_union_singleton by (by rewrite not_elem_of_dom). simpl.
    rewrite <- (c_pool _ _ _ C). simpl. symmetry. apply Permutation_middle.
Qed.

(** An object that is taken and put back. *)
Lemma core_rotate objs m a rest : core objs m (mkPool (a :: rest)) -> core objs m (pool_cache_put (mkPool rest) a).
Proof.
  intros C. constructor; [apply C|apply C|]. rewrite <- (c_pool _ _ _ C). unfold pool_cache_put, pool_put. simpl.
  rewrite <- app_assoc. simpl. symmetry. apply Permutation_middle.
Qed.

(** ** TCP lets go of a socket, and so does the application *)

Lemma delete_vrem_alter h a q f (m : views) : h <> a -> delete a (vrem h a q (alter f a m)) = delete a (vrem h a q m).
Proof.
  intros N. apply map_eq. intros c. destruct (decide (c = a)) as [->|D]; [by rewrite !lookup_delete_eq|].
  rewrite !lookup_delete_ne, !vrem_lookup by done. destruct (decide (c = a)); [done|]. by rewrite !lookup_alter_ne.
Qed.

Lemma core_tcp objs m pl a v d p : core objs m pl -> m !! a = Some v -> tstate d p ->
  let w := vfree a (alter (tcpd d p) a m, pl) in core objs w.1 w.2.
Proof.
  intros C H T. pose proof (c_loc _ _ _ C a v H) as [L P S O (T1 & T2 & T3) A F].
  assert (Al : vowned (tcpd d p v) -> core objs (alter (tcpd d p) a m) pl).
  { intros Ho. eapply core_alter; [done|done|done|done|done|]. constructor; try done. split; [|split]; simpl.
    - intros ->. done.
    - intros ->. done.
    - intros U. simpl. destruct p as [p'|]; [right; by eexists|]. left. simpl in T. by rewrite T. }
  unfold vfree. cbn [fst snd]. rewrite lookup_alter_eq, H. simpl.
  destruct p as [p'|]; simpl; [apply Al; right; left; by eexists|].
  destruct (v_nofd v) eqn:Nf; simpl; [|apply Al; left; exact Nf].
  destruct (v_onq v) as [[h q]|] eqn:Q.
  - destruct (queued_facts _ _ _ _ _ _ _ C H Q) as (N & _). destruct q.
    + apply Al. right. right. by exists h.
    + unfold released. rewrite A. simpl. rewrite delete_vrem_alter by done. by eapply core_discard.
  - unfold released. rewrite A. simpl. rewrite delete_alter_eq.
    assert (E : v_q0 v ++ v_q v = []) by (destruct (v_q0 v ++ v_q v) eqn:E; [done|]; destruct S as [S _]; congruence).
    apply app_eq_nil in E as [E0 E1]. by eapply core_delete.
Qed.

Definition let_go (v : view) : view := v <| v_nofd := true |>.

Lemma core_let_go objs m pl a v : core objs m pl -> m !! a = Some v -> v_nofd v = false -> v_q0 v = [] -> v_q v = [] ->
  v_pcb v <> Some (Some TCPS_LISTEN) -> let w := vfree a (alter let_go a m, pl) in core objs w.1 w.2.
Proof.
  intros C H Nf E0 E1 Nl. pose proof (c_loc _ _ _ C a v H) as [L P S O (T1 & T2 & T3) A F].
  assert (Q : v_onq v = None).
  { unfold vplace in P. destruct (v_onq v) as [[h q]|]; [|done]. destruct P. congruence. }
  unfold vfree. cbn [fst snd]. rewrite lookup_alter_eq, H. simpl. rewrite Q, A. simpl. rewrite orb_false_r.
  destruct (v_pcb v) as [st|] eqn:Pc; simpl.
  - eapply core_alter; [done|done|done|done|done|]. constructor; try done.
    + unfold vplace in *. simpl. by rewrite Q in *.
    + intros X. exfalso. apply X. simpl. by rewrite E0, E1.
    + right. left. simpl. rewrite Pc. by eexists.
    + split; [|split]; simpl; rewrite ?Pc; try done.
  - rewrite delete_alter_eq. by eapply core_delete.
Qed.
