(* ===== verification/SocketCalls.v ===== *)
(** * The socket calls

    Each call of uipc_socket.c, each event of TCP and each function of the glue
    returns and keeps the invariant of [SocketInv]. *)

From stdpp Require Import functions.
From S2P Require Import Prelude Pool Tcpcb Mbuf Sockbuf SockState Socket SocketView SocketInv.

Section calls.
Context (objs : list addr) (objs_nodup : NoDup objs).

Definition cored (s : sostate) : Prop := core objs (vmap s) (socket_cache s).

Definition safe (s s' : sostate) : Prop := cored s' /\ (glue_ok s -> glue_ok s').

Lemma safe_goes s w s' : goes s w s' -> core objs w.1 w.2 -> safe s s'.
Proof. intros [E G] C. split; [|done]. unfold cored. by inversion E; subst w. Qed.

Lemma safe_trans s s' s'' : safe s s' -> safe s' s'' -> safe s s''.
Proof. intros [_ G] [C G']. split; auto. Qed.

Lemma safe_refl s : cored s -> safe s s.
Proof. by intros C. Qed.

Lemma safe_quiet s s' : cored s -> goes s (vw s) s' -> safe s s'.
Proof. intros C G. by eapply safe_goes. Qed.

Lemma core_placed s a v : cored s -> vmap s !! a = Some v -> placed (vmap s) v.
Proof.
  intros C H. pose proof (k_place _ (c_loc _ _ _ C a v H)) as P. unfold vplace, placed in *.
  destruct (v_onq v) as [[h q]|] eqn:Q; [|done]. destruct P as [P _]. split; [done|].
  destruct (proj1 (c_links _ _ _ C a h q)) as (w & Hw & _); [by exists v|]. by exists w.
Qed.

Lemma core_wakes s a v : cored s -> vmap s !! a = Some v -> wakes v.
Proof. intros C H. by destruct (k_tcp _ (c_loc _ _ _ C a v H)) as (_ & _ & ?). Qed.

Lemma tgoes_safe s a v s' : cored s -> vmap s !! a = Some v -> tgoes a s s' -> safe s s'.
Proof. intros C H (d & p & T & G). eapply safe_goes; [exact G|]. by eapply core_tcp. Qed.

Lemma effect_safe s a v s' : cored s -> vmap s !! a = Some v -> effect a s s' -> safe s s'.
Proof. intros C H [G|G]; [by apply safe_quiet|by eapply tgoes_safe]. Qed.

Lemma core_tcb s a v : cored s -> vmap s !! a = Some v -> v_pcb v = None \/ exists st, v_pcb v = Some (Some st).
Proof.
  intros C H. destruct (k_tcp _ (c_loc _ _ _ C a v H)) as (T & _). destruct (v_pcb v) as [[st|]|]; [right; by exists st|done|by left].
Qed.

(** A request to TCP, with or without a control block. *)
Lemma usrreq_runs e req a s v : cored s -> tcp_req req -> vmap s !! a = Some v ->
  runs (tcp_usrreq e req a s) (fun r => effect a s r.2).
Proof.
  intros C R H. destruct (core_tcb s a v C H) as [T|[st T]].
  - rewrite (tcp_usrreq_none e req a s v); [|by destruct req|done|done]. apply runs_ret. left. apply goes_refl.
  - eapply tcp_usrreq_runs; [done|done|by eapply core_placed|done].
Qed.

(** ** Events of TCP *)

Lemma soisconnected_safe a s v : cored s -> vmap s !! a = Some v -> runs (soisconnected a s) (safe s).
Proof.
  intros C H. unfold soisconnected. pose proof H as H'. vlook H' so E V. rewrite E. cbn [mbind option_bind].
  pose proof (goes_state a state_connected s ltac:(state_bits)) as G0. pose proof (goes_vw _ _ _ G0) as E0.
  pose proof (vw_vmap _ _ E0) as Em. pose proof (safe_quiet _ _ C G0) as [C0 S0]. set (s0 := set_state a state_connected s) in *.
  assert (Wake : runs (s ← sorwakeup a s0; sowwakeup a s) (safe s)).
  { eapply runs_mono; [apply runs_quiet; [eapply sorwakeup_runs|]|].
    - by rewrite Em.
    - exact (core_wakes s a v C H).
    - intros s' E'. eapply (sowwakeup_runs a _ v); [by rewrite (vw_vmap _ _ E'), Em|exact (core_wakes s a v C H)].
    - intros s' G'. eapply safe_trans; [split; [exact C0|exact S0]|by apply safe_quiet]. }
  assert (so_head so = v_head v /\ so_onq so = v_onq v /\ so_options so = v_opts v) as (-> & -> & ->) by (by rewrite <- V).
  destruct (v_head v) as [h|] eqn:Hh; [|exact Wake].
  case_bool_decide as Q; [|exact Wake].
  rewrite (k_filter _ (c_loc _ _ _ C a v H)). cbn [negb]. destruct (queued_facts _ _ _ _ _ _ _ C H Q) as (N & Nf & _ & _ & _ & w & Hw & _).
  eapply runs_bind; [eapply (soqremque_runs h a false s0 v); rewrite ?Em; try done; by eexists|].
  intros [r s1] [_ G1]. cbn [snd] in *. pose proof (goes_vw _ _ _ G1) as [E1 E1']%vw_inv. rewrite Em in E1.
  eapply runs_bind; [eapply (soqinsque_runs h a true s1 (off v))|].
  - rewrite E1, vrem_lookup, decide_True by done. by rewrite H.
  - done.
  - rewrite E1, vrem_lookup, decide_False, decide_True, Hw by done. by eexists.
  - done.
  - intros s2 G2. pose proof (goes_vw _ _ _ G2) as [E2 E2']%vw_inv. rewrite E1 in E2. rewrite E1, E1' in G2.
    assert (C2 : safe s s2).
    { eapply safe_goes; [eapply goes_trans; [exact G0|eapply goes_trans; [exact G1|exact G2]]|].
      cbn [fst snd]. rewrite (proj2 (vw_inv _ _ _ E0)). by eapply core_connected. }
    destruct C2 as [C2 S2].
    assert (Hh2 : is_Some (vmap s2 !! h)) by (rewrite E2, vins_lookup, decide_False, decide_True, vrem_lookup, decide_False, decide_True, Hw by done; by eexists).
    destruct Hh2 as [w2 Hw2]. eapply runs_mono; [eapply sorwakeup_runs; [exact Hw2|exact (core_wakes s2 h w2 C2 Hw2)]|].
    intros s3 G3. eapply safe_trans; [split; [exact C2|exact S2]|by apply safe_quiet].
Qed.

Lemma close_safe a s v : cored s -> vmap s !! a = Some v -> runs (close_socket a s) (safe s).
Proof.
  intros C H. eapply runs_mono; [eapply close_socket_runs; [done|by eapply core_placed]|].
  intros s' G. eapply (tgoes_safe s a v); [done|done|]. by exists true, None.
Qed.

Lemma drop_safe a errno s v : cored s -> vmap s !! a = Some v -> runs (drop_socket a errno s) (safe s).
Proof.
  intros C H. eapply runs_mono; [eapply drop_socket_runs; [done|by eapply core_placed]|].
  intros s' G. by eapply tgoes_safe.
Qed.

(** ** Aborting a connection *)

Definition aborting (n : Z) (v : view) : view := v <| v_abort := n |>.

(** [vfree] of a socket that no queue and no control block refers to. *)
Lemma vfree_gone m pl b v : m !! b = Some v -> v_pcb v = None -> v_nofd v = true -> v_onq v = None ->
  vfree b (m, pl) = released b (v_abort v) (m, pl).
Proof. intros H T N Q. unfold vfree. cbn [fst]. by rewrite H, T, N, Q. Qed.

(** The end of [soabort]. *)
Lemma abort_end b m pl s v : goes s (alter (aborting 1) b m, pl) s -> m !! b = Some v -> v_pcb v = None -> v_nofd v = true ->
  v_onq v = None -> v_head v = None -> wakes v ->
  let s1 := upd b (fun so => so <| so_aborting := u16 (so_aborting so - 1) |>) s in
  is_Some (s_mem s1 !! b) /\ (forall so, s_mem s1 !! b = Some so -> so_aborting so = 0) /\
  runs (sofree b s1) (goes s (delete b m, pool_cache_put pl b)).
Proof.
  intros G H T N Q Hh W s1.
  assert (G1 : goes s (alter (aborting 0) b m, pl) s1).
  { eapply goes_eq; [eapply goes_upd_trans; [exact G|]|].
    - intros so _. split; [|done]. by instantiate (1 := fun v => v <| v_abort := u16 (v_abort v - 1) |>).
    - f_equal. by rewrite alter_alter_eq. }
  pose proof (goes_vw _ _ _ G1) as [E1 E1']%vw_inv.
  assert (H1 : vmap s1 !! b = Some (aborting 0 v)) by (by rewrite E1, lookup_alter_eq, H).
  split; [|split].
  - pose proof H1 as H2. vlook H2 so Es Vs. by exists so.
  - intros so Es. pose proof H1 as H2. vlook H2 so' Es' Vs. assert (so' = so) as -> by congruence.
    change (v_abort (view_of so) = 0). by rewrite Vs.
  - eapply runs_mono; [eapply (sofree_runs b s1 (aborting 0 v)); [done| |done]|].
    + unfold placed. simpl. by rewrite Q.
    + intros s2 G2. eapply goes_trans; [exact G1|]. eapply goes_eq; [exact G2|]. unfold vw. rewrite E1, E1'.
      rewrite (vfree_gone _ _ _ (aborting 0 v)); [|by rewrite lookup_alter_eq, H|done..]. simpl. unfold released. simpl. by rewrite delete_alter_eq.
Qed.

Lemma soabort_runs e b s v : vmap s !! b = Some v -> v_onq v = None -> v_head v = None -> v_nofd v = true -> v_abort v = 0 ->
  v_pcb v <> Some None -> wakes v -> runs (soabort e b s) (fun r => goes s (delete b (vmap s), pool_cache_put (socket_cache s) b) r.2).
Proof.
  intros H Q Hh N A T W. pose proof H as H'. vlook H' so E V. unfold soabort. rewrite E. cbn [mbind option_bind].
  assert (so_head so = None) as -> by (by rewrite <- Hh, <- V).
  set (f := fun so : socket => so <| so_aborting := u16 (so_aborting so + 1) |>).
  assert (G0 : goes s (alter (aborting 1) b (vmap s), socket_cache s) (upd b f s)).
  { eapply goes_eq; [eapply (goes_upd b f (fun v => v <| v_abort := u16 (v_abort v + 1) |>)); by intros ? _|].
    f_equal. apply alter_ext. intros x Hx. assert (x = v) as -> by congruence. by rewrite A. }
  pose proof (goes_vw _ _ _ G0) as [E0 E0']%vw_inv. set (s0 := upd b f s) in *.
  assert (H0 : vmap s0 !! b = Some (aborting 1 v)) by (by rewrite E0, lookup_alter_eq, H).
  assert (R : runs (tcp_usrreq e PRU_ABORT b s0) (fun r => exists d, (d = true \/ v_pcb v = None) /\ goes s (alter (aborting 1) b (alter (tcpd d None) b (vmap s)), socket_cache s) r.2)).
  { destruct (v_pcb v) as [[st|]|] eqn:Tv; [|done|].
    - destruct (has_pcb s0 b (aborting 1 v) st H0 Tv) as (so0 & p & Es & Ep & Et). unfold tcp_usrreq. rewrite Es. cbn [mbind option_bind].
      rewrite Ep, Et. cbn [mbind option_bind]. eapply runs_bind; [eapply drop_socket_closes; [exact H0|unfold placed; simpl; by rewrite Q]|].
      intros s1 G1. apply runs_ret. exists true. split; [by left|]. cbn [snd]. eapply goes_trans; [exact G0|]. eapply goes_eq; [exact G1|].
      rewrite E0, E0'. rewrite (vfree_gone _ _ _ (tcpd true None (aborting 1 v))); [|by rewrite !lookup_alter_eq, H|done..].
      unfold released. simpl. f_equal. by rewrite !alter_alter_eq.
    - rewrite (tcp_usrreq_none e PRU_ABORT b s0 (aborting 1 v)); [|done|done|done]. apply runs_ret. exists false. split; [by right|]. cbn [snd].
      eapply goes_eq; [exact G0|]. f_equal. f_equal. symmetry. apply alter_id. intros x Hx. assert (x = v) as -> by congruence.
      destruct v. simpl in Tv. by subst. }
  eapply runs_bind; [exact R|]. intros [error s1] (d & D & G1). cbn [fst snd] in *.
  destruct (abort_end b (alter (tcpd d None) b (vmap s)) (socket_cache s) s1 (tcpd d None v)) as ([so1 Es1] & Ab & Rf); try done.
  - split; [exact (goes_vw _ _ _ G1)|done].
  - by rewrite lookup_alter_eq, H.
  - intros U. destruct D as [->|D]; [by left|]. destruct (W U) as [W'|[? W']]; [left; simpl; rewrite W'; apply orb_true_r|congruence].
  - rewrite Es1. cbn [mbind option_bind]. rewrite (Ab so1 Es1), orb_true_r. eapply runs_bind; [exact Rf|].
    intros s2 G2. apply runs_ret. cbn [snd]. rewrite delete_alter_eq in G2. eapply goes_trans; [exact G1|exact G2].
Qed.

(** A connection on a queue is taken off it and aborted. *)
Lemma discard_runs e h b q s v : cored s -> vmap s !! b = Some v -> v_onq v = Some (h, q) ->
  runs (r ← soqremque b q s; soabort e b r.2)
    (fun r => goes s (delete b (vrem h b q (vmap s)), pool_cache_put (socket_cache s) b) r.2).
Proof.
  intros C H Q. destruct (queued_facts _ _ _ _ _ _ _ C H Q) as (N & Nf & Hh & _ & _ & w & Hw & _).
  destruct (c_loc _ _ _ C b v H) as [_ _ _ _ (T & _ & W) A _].
  eapply runs_bind; [eapply (soqremque_runs h b q s v); try done; by eexists|].
  intros [r s1] [_ G1]. cbn [snd] in *. pose proof (goes_vw _ _ _ G1) as [E1 E1']%vw_inv.
  eapply runs_mono; [eapply (soabort_runs e b s1 (off v)); try done|].
  - by rewrite E1, vrem_lookup, decide_True, H.
  - intros [x s2] G2. cbn [snd] in *. rewrite E1, E1' in G2. eapply goes_trans; [exact G1|exact G2].
Qed.

Lemma abort_newconn_safe e h b s v : cored s -> vmap s !! b = Some v -> v_onq v = Some (h, true) -> runs (abort_newconn e b s) (safe s).
Proof.
  intros C H Q. destruct (discard_runs e h b true s v C H Q) as ([x s1] & E & G). unfold abort_newconn.
  destruct (soqremque b true s) as [r|]; [|done]. cbn [mbind option_bind] in *. rewrite E. cbn [mbind option_bind].
  apply runs_ret. eapply safe_goes; [exact G|]. by eapply core_discard.
Qed.

(** ** Closing *)

Definition waiting (v : view) : list addr := v_q0 v ++ v_q v.

(** The connections of [a] are gone; nothing else has changed. *)
Definition drained (a : addr) (v : view) (s s' : sostate) : Prop :=
  (exists v', vmap s' !! a = Some v' /\ waiting v' = [] /\ v_nofd v' = v_nofd v /\ v_pcb v' = v_pcb v /\ v_opts v' = v_opts v) /\
  (forall c, c ∈ waiting v -> vmap s' !! c = None) /\
  (forall c, c <> a -> c ∉ waiting v -> vmap s' !! c = vmap s !! c) /\
  mempool (socket_cache s') = mempool (socket_cache s) ++ waiting v.

(** The first connection of a queue, and its abortion. *)
Lemma drain_step e a s v b rest q : cored s -> vmap s !! a = Some v -> vqueue q v = b :: rest -> (q = true -> v_q0 v = []) ->
  runs (r ← soqremque b q s; soabort e b r.2) (fun r =>
    safe s r.2 /\ b <> a /\ vmap r.2 !! b = None /\ (exists v', vmap r.2 !! a = Some v' /\ b :: waiting v' = waiting v /\
      v_nofd v' = v_nofd v /\ v_pcb v' = v_pcb v /\ v_opts v' = v_opts v) /\
    (forall c, c <> a -> c <> b -> vmap r.2 !! c = vmap s !! c) /\ mempool (socket_cache r.2) = mempool (socket_cache s) ++ [b]).
Proof.
  intros C H Hq Q0. destruct (proj2 (c_links _ _ _ C b a q)) as (w & Hw & Qw); [exists v; split; [done|]; rewrite Hq; by left|].
  destruct (queued_facts _ _ _ _ _ _ _ C Hw Qw) as (N & _). eapply runs_mono; [by eapply discard_runs|].
  intros [x s1] G. cbn [snd] in *. pose proof (goes_vw _ _ _ G) as [E E']%vw_inv. split; [|split; [|split; [|split; [|split]]]].
  - eapply safe_goes; [exact G|]. by eapply core_discard.
  - done.
  - by rewrite E, lookup_delete_eq.
  - exists (vdel b q v). rewrite E, lookup_delete_ne, vrem_lookup, decide_False, decide_True, H by done. split; [done|].
    destruct (k_lens _ (c_loc _ _ _ C a v H)) as (_ & _ & _ & _ & N0 & N1).
    assert (D : forall l, NoDup (b :: l) -> del b (b :: l) = l).
    { intros l [Nb _]%NoDup_cons. unfold del. rewrite filter_cons_False by tauto. by apply del_notin. }
    unfold waiting. destruct q; simpl in Hq |- *.
    + rewrite Q0, Hq by done. rewrite D by (by rewrite <- Hq). done.
    + rewrite Hq. rewrite D by (by rewrite <- Hq). done.
  - intros c Da Db. rewrite E, lookup_delete_ne, vrem_lookup, decide_False, decide_False by done. done.
  - rewrite E'. done.
Qed.

Lemma drain_runs e a fuel : forall s v, cored s -> vmap s !! a = Some v -> (length (waiting v) < fuel)%nat ->
  runs (drain fuel e a s) (fun s' => safe s s' /\ drained a v s s').
Proof.
  induction fuel as [|fuel IH]; intros s v C H L; [lia|]. simpl.
  assert (Step : forall b rest q, vqueue q v = b :: rest -> (q = true -> v_q0 v = []) ->
    runs (r ← soqremque b q s; r ← soabort e b r.2; drain fuel e a r.2) (fun s' => safe s s' /\ drained a v s s')).
  { intros b rest q Hq Q0. destruct (drain_step e a s v b rest q C H Hq Q0) as ([x s1] & Ex & S1 & N & Hb & (v' & H' & W & F1 & F2 & F3) & O & M).
    destruct (soqremque b q s) as [r|]; [|done]. cbn [mbind option_bind] in *. rewrite Ex. cbn [mbind option_bind snd] in *.
    eapply runs_mono; [eapply (IH s1 v'); [apply S1|done|rewrite <- W in L; simpl in L; lia]|].
    intros s2 (S2 & (v2 & H2 & W2 & F1' & F2' & F3') & Hc & O' & M'). split; [by eapply safe_trans|].
    assert (Nb : b ∉ waiting v').
    { intros Hb'. unfold waiting in Hb'. rewrite elem_of_app in Hb'.
      assert (exists q', has_conn (vmap s1) b a q') as [q' Hb2] by (destruct Hb' as [?|?]; [exists false|exists true]; by exists v').
      apply (c_links _ _ _ (proj1 S1)) in Hb2 as (w & Hw & _). congruence. }
    split; [|split; [|split]].
    - exists v2. rewrite F1', F2', F3', F1, F2, F3. done.
    - intros c Hcw. rewrite <- W in Hcw. apply elem_of_cons in Hcw as [->|Hcw]; [|by apply Hc]. rewrite O'; done.
    - intros c Da Nc. rewrite <- W in Nc. apply not_elem_of_cons in Nc as [? ?]. rewrite O', O; done.
    - rewrite M', M, <- W, <- app_assoc. done. }
  pose proof H as H'. vlook H' so E V. rewrite E. cbn [mbind option_bind].
  assert (so_q0 so = v_q0 v /\ so_q so = v_q v) as [-> ->] by (by rewrite <- V).
  destruct (v_q0 v) as [|b0 r0] eqn:E0; [|by eapply (Step b0 r0 false)].
  destruct (v_q v) as [|b1 r1] eqn:E1; [|by eapply (Step b1 r1 true)].
  apply runs_ret. split; [by apply safe_refl|]. assert (Ew : waiting v = []) by (unfold waiting; by rewrite E0, E1).
  split; [by exists v|]. rewrite Ew, app_nil_r. split; [|done]. by intros c ?%elem_of_nil.
Qed.

(** What TCP leaves alone of a socket that the application holds. *)
Definition same_user (v v' : view) : Prop := v_nofd v' = v_nofd v /\ waiting v' = waiting v /\ v_opts v' = v_opts v.

Lemma tgoes_view s a v s' : vmap s !! a = Some v -> v_nofd v = false -> tgoes a s s' ->
  exists d p, tstate d p /\ goes s (alter (tcpd d p) a (vmap s), socket_cache s) s'.
Proof.
  intros H N (d & p & T & G). exists d, p. split; [done|]. eapply goes_eq; [exact G|]. unfold vfree. cbn [fst].
  rewrite lookup_alter_eq, H. simpl. by rewrite N, orb_true_r.
Qed.

Lemma effect_view s a v s' : vmap s !! a = Some v -> v_nofd v = false -> effect a s s' ->
  exists v', vmap s' !! a = Some v' /\ same_user v v'.
Proof.
  intros H N [G|G].
  - exists v. pose proof (goes_vw _ _ _ G) as [-> _]%vw_inv. done.
  - destruct (tgoes_view s a v s' H N G) as (d & p & T & G'). pose proof (goes_vw _ _ _ G') as [E _]%vw_inv.
    exists (tcpd d p v). by rewrite E, lookup_alter_eq, H.
Qed.

(** The last part of [close_drop]. *)
Lemma let_go_runs a s : forall v, vmap s !! a = Some v -> v_onq v = None -> v_head v = None -> wakes v ->
  runs (sofree a (set_state a (fun st => Z.lor st SS_NOFDREF) s)) (goes s (vfree a (alter let_go a (vmap s), socket_cache s))).
Proof.
  intros v H Q Hh W. assert (G : goes s (alter let_go a (vmap s), socket_cache s) (set_state a (fun st => Z.lor st SS_NOFDREF) s)).
  { apply goes_upd. intros so _. split; [|done]. unfold view_of, upd_state, let_go. simplify_upd. f_equal; by flag_bits. }
  pose proof (goes_vw _ _ _ G) as [E E']%vw_inv. eapply runs_mono; [eapply (sofree_runs a _ (let_go v))|].
  - by rewrite E, lookup_alter_eq, H.
  - unfold placed. simpl. by rewrite Q.
  - exact W.
  - intros s' G'. eapply goes_trans; [exact G|]. eapply goes_eq; [exact G'|]. unfold vw. by rewrite E, E'.
Qed.

Lemma held_off s a v : cored s -> vmap s !! a = Some v -> v_nofd v = false -> v_onq v = None /\ v_head v = None.
Proof.
  intros C H N. pose proof (k_place _ (c_loc _ _ _ C a v H)) as P. unfold vplace in P.
  destruct (v_onq v) as [[h q]|]; [destruct P; congruence|done].
Qed.

(** Detaching from TCP: either nothing is attached, or TCP lets go or keeps the connection. *)
Lemma detach_runs e a s v : cored s -> vmap s !! a = Some v -> v_nofd v = false ->
  runs (so ← s_mem s !! a; if bool_decide (is_Some (so_pcb so)) then tcp_usrreq e PRU_DETACH a s else Some (0, s))
    (fun r => safe s r.2 /\ exists v', vmap r.2 !! a = Some v' /\ same_user v v' /\ v_pcb v' <> Some (Some TCPS_LISTEN)).
Proof.
  intros C H N. pose proof H as H'. vlook H' so E V. rewrite E. cbn [mbind option_bind].
  destruct (core_tcb s a v C H) as [T|[st T]].
  - assert (so_pcb so = None) as -> by (rewrite <- V in T; simpl in T; unfold sototcpcb in T; by destruct (so_pcb so)).
    apply runs_ret. split; [by apply safe_refl|]. exists v. rewrite T. done.
  - destruct (has_pcb s a v st H T) as (so' & p & E' & Ep & _). assert (so' = so) as -> by congruence. rewrite Ep. simpl.
    unfold tcp_usrreq. rewrite E. cbn [mbind option_bind]. rewrite Ep.
    eapply runs_bind; [eapply tcp_disconnect_runs; [done|by eapply core_placed|done]|].
    intros s1 G. apply runs_ret. cbn [snd]. split; [by eapply tgoes_safe|].
    destruct (tgoes_view s a v s1 H N G) as (d & q & Tq & G'). pose proof (goes_vw _ _ _ G') as [E1 _]%vw_inv.
    exists (tcpd d q v). rewrite E1, lookup_alter_eq, H. split; [done|]. split; [done|]. simpl. intros ->. done.
Qed.

Lemma close_drop_safe e a error s v : cored s -> vmap s !! a = Some v -> v_nofd v = false -> waiting v = [] ->
  runs (close_drop e a error s) (fun r => safe s r.2).
Proof.
  intros C H N W. destruct (detach_runs e a s v C H N) as ([er s1] & E1 & S1 & v1 & H1 & (N1 & W1 & _) & T1).
  unfold close_drop. destruct (s_mem s !! a) as [so|]; [|done]. cbn [mbind option_bind] in *. rewrite E1. cbn [mbind option_bind fst snd] in *.
  rewrite N in N1. rewrite W in W1. pose proof H1 as H1'. vlook H1' so1 Es Vs. rewrite Es. cbn [mbind option_bind].
  assert (flag_set (so_state so1) SS_NOFDREF = false) as -> by (change (v_nofd (view_of so1) = false); by rewrite Vs).
  destruct (held_off s1 a v1 (proj1 S1) H1 N1) as [Q Hh].
  eapply runs_bind; [eapply let_go_runs; [done|done|done|by eapply core_wakes; [apply S1|]]|].
  intros s2 G2. apply runs_ret. cbn [snd]. eapply safe_trans; [exact S1|]. eapply safe_goes; [exact G2|].
  apply app_eq_nil in W1 as [E0 E0']. eapply core_let_go; try done. apply S1.
Qed.

Lemma sodisconnect_runs e a s v : cored s -> vmap s !! a = Some v -> runs (sodisconnect e a s) (fun r => effect a s r.2).
Proof.
  intros C H. pose proof H as H'. vlook H' so E V. unfold sodisconnect. rewrite E. cbn [mbind option_bind].
  repeat (case_match; [apply runs_ret; left; apply goes_refl|]). by eapply usrreq_runs.
Qed.

(** The computation returns, or it fails and [X] is the reason. *)
Definition runs_or {A} (X : Prop) (o : option A) (P : A -> Prop) : Prop := (o = None /\ X) \/ runs o P.

Lemma runs_or_bind {A B} X (o : option A) (f : A -> option B) P Q :
  runs o P -> (forall x, P x -> runs_or X (f x) Q) -> runs_or X (o ≫= f) Q.
Proof. intros (x & -> & H) F. exact (F x H). Qed.

Lemma linger_same fuel a : forall s s', linger fuel a s = Some s' -> s' = s.
Proof.
  induction fuel as [|fuel IH]; intros s s'; simpl; [done|]. destruct (s_mem s !! a); [|done]. cbn [mbind option_bind].
  case_match; [apply IH|by intros [= <-]].
Qed.

Lemma soclose_safe fuel e a s v : cored s -> vmap s !! a = Some v -> v_nofd v = false ->
  runs_or (flag_set (v_opts v) SO_LINGER = true) (soclose fuel e a s) (fun r => safe s r.2).
Proof.
  intros C H N. pose proof H as H'. vlook H' so E V. unfold soclose. rewrite E. cbn [mbind option_bind].
  assert (so_q0 so = v_q0 v /\ so_q so = v_q v /\ so_options so = v_opts v) as (-> & -> & ->) by (by rewrite <- V).
  eapply (runs_or_bind _ _ _ (fun s1 => safe s s1 /\ exists v1, vmap s1 !! a = Some v1 /\ v_nofd v1 = false /\ waiting v1 = [] /\ v_opts v1 = v_opts v)).
  { destruct (flag_set (v_opts v) SO_ACCEPTCONN) eqn:Ac.
    - eapply runs_mono; [eapply (drain_runs e a); [done|done|unfold waiting; rewrite length_app; lia]|].
      intros s1 (S1 & (v1 & H1 & W1 & F1 & F2 & F3) & _). split; [done|]. exists v1. rewrite F1. done.
    - apply runs_ret. split; [by apply safe_refl|]. exists v. split; [done|]. split; [done|]. split; [|done]. unfold waiting.
      pose proof (k_listens _ (c_loc _ _ _ C a v H)) as Kl. unfold vlistens in Kl. destruct (v_q0 v ++ v_q v); [done|].
      destruct Kl; congruence. }
  intros s1 (S1 & v1 & H1 & N1 & W1 & O1). pose proof (proj1 S1) as C1.
  assert (CD : forall er, runs (close_drop e a er s1) (fun r => safe s r.2)).
  { intros er. eapply runs_mono; [by eapply close_drop_safe|]. intros r S2. by eapply safe_trans. }
  pose proof H1 as H1'. vlook H1' so1 E1 V1. rewrite E1. cbn [mbind option_bind]. destruct (_ && _); [|right; apply CD].
  eapply (runs_or_bind _ _ _ (fun r => effect a s1 r.2)).
  { case_match; [by eapply sodisconnect_runs|]. apply runs_ret. left. apply goes_refl. }
  intros [er s2] Ef. cbn [fst snd] in *. destruct (effect_view s1 a v1 s2 H1 N1 Ef) as (v2 & H2 & (N2 & W2 & O2)).
  pose proof (effect_safe s1 a v1 s2 C1 H1 Ef) as S2. rewrite N1 in N2. rewrite W1 in W2.
  assert (CD2 : forall er, runs (close_drop e a er s2) (fun r => safe s r.2)).
  { intros er'. eapply runs_mono; [eapply close_drop_safe; [apply S2|done|done|done]|]. intros r S3.
    eapply safe_trans; [exact S1|]. by eapply safe_trans. }
  destruct (negb (er =? 0)); [right; apply CD2|]. pose proof H2 as H2'. vlook H2' so2 E2 V2. rewrite E2. cbn [mbind option_bind].
  assert (so_options so2 = v_opts v) as -> by (rewrite <- O1, <- O2, <- V2; done).
  destruct (flag_set (v_opts v) SO_LINGER) eqn:Lg; [|right; apply CD2]. case_match; [right; apply CD2|].
  destruct (linger fuel a s2) as [s3|] eqn:Ln; [|left; done]. rewrite (linger_same _ _ _ _ Ln). right. apply CD2.
Qed.

(** ** Closing a listening socket *)

Definition idle (v : view) : Prop := v_pcb v = None \/ v_pcb v = Some (Some TCPS_LISTEN).

Lemma listen_closes a s v : cored s -> vmap s !! a = Some v -> v_nofd v = false -> v_pcb v = Some (Some TCPS_LISTEN) ->
  runs (tcp_disconnect a s) (goes s (alter (tcpd true None) a (vmap s), socket_cache s)).
Proof.
  intros C H N T. destruct (tcb_state s a v _ H T) as (so & E & Tc & V). unfold tcp_disconnect. rewrite E. cbn [mbind option_bind].
  rewrite Tc. cbn [mbind option_bind]. change (negb (TCPS_HAVEESTABLISHED TCPS_LISTEN)) with true. cbn [negb].
  eapply runs_mono; [eapply close_socket_runs; [done|by eapply core_placed]|]. intros s1 G1. eapply goes_eq; [exact G1|].
  unfold vfree. cbn [fst]. rewrite lookup_alter_eq, H. simpl. by rewrite N.
Qed.

Lemma close_drop_idle e a er s v : cored s -> vmap s !! a = Some v -> v_nofd v = false -> waiting v = [] -> idle v ->
  runs (close_drop e a er s) (fun r => goes s (delete a (vmap s), pool_cache_put (socket_cache s) a) r.2).
Proof.
  intros C H N W I. pose proof (k_abort _ (c_loc _ _ _ C a v H)) as Ab. pose proof (core_wakes s a v C H) as Wk.
  destruct (held_off s a v C H N) as [Q Hh].
  assert (D : exists d, (d = true \/ v_pcb v = None) /\ runs (so ← s_mem s !! a; if bool_decide (is_Some (so_pcb so)) then tcp_usrreq e PRU_DETACH a s else Some (0, s))
    (fun r => goes s (alter (tcpd d None) a (vmap s), socket_cache s) r.2)).
  { pose proof H as H'. vlook H' so E V. rewrite E. cbn [mbind option_bind]. destruct I as [T|T].
    - exists false. split; [by right|]. assert (so_pcb so = None) as -> by (rewrite <- V in T; simpl in T; unfold sototcpcb in T; by destruct (so_pcb so)).
      apply runs_ret. cbn [snd]. eapply goes_eq; [apply goes_refl|]. unfold vw. f_equal. symmetry. apply alter_id. intros x Hx.
      assert (x = v) as -> by congruence. destruct v. simpl in T. by subst.
    - exists true. split; [by left|]. destruct (has_pcb s a v _ H T) as (so' & p & E' & Ep & _). assert (so' = so) as -> by congruence. rewrite Ep. simpl.
      unfold tcp_usrreq. rewrite E. cbn [mbind option_bind]. rewrite Ep.
      eapply runs_bind; [by eapply listen_closes|]. intros s1 G. by apply runs_ret. }
  destruct D as (d & Dd & [er1 s1] & E1 & G1). unfold close_drop. destruct (s_mem s !! a) as [so|]; [|done].
  cbn [mbind option_bind] in *. rewrite E1. cbn [mbind option_bind fst snd] in *. pose proof (goes_vw _ _ _ G1) as [M1 M1']%vw_inv.
  assert (H1 : vmap s1 !! a = Some (tcpd d None v)) by (by rewrite M1, lookup_alter_eq, H). pose proof H1 as H1'. vlook H1' so1 Es Vs. rewrite Es. cbn [mbind option_bind].
  assert (flag_set (so_state so1) SS_NOFDREF = false) as -> by (change (v_nofd (view_of so1) = false); by rewrite Vs).
  eapply runs_bind; [eapply (let_go_runs a s1 (tcpd d None v)); [done|done|done|]|].
  - intros U. destruct Dd as [->|Dd]; [by left|]. destruct (Wk U) as [W'|[? W']]; [left; simpl; rewrite W'; apply orb_true_r|congruence].
  - intros s2 G2. apply runs_ret. cbn [snd]. eapply goes_trans; [exact G1|]. eapply goes_eq; [exact G2|]. rewrite M1, M1'.
    rewrite (vfree_gone _ _ _ (let_go (tcpd d None v))); [|by rewrite !lookup_alter_eq, H|done..]. unfold released. simpl. rewrite Ab. simpl. by rewrite !delete_alter_eq.
Qed.

Lemma sodisconnect_idle e a s v : cored s -> vmap s !! a = Some v -> v_nofd v = false -> idle v ->
  runs (sodisconnect e a s) (fun r => safe s r.2 /\ (exists v', vmap r.2 !! a = Some v' /\ same_user v v' /\ idle v') /\
    delete a (vmap r.2) = delete a (vmap s) /\ socket_cache r.2 = socket_cache s).
Proof.
  intros C H N I. pose proof H as H'. vlook H' so E V. unfold sodisconnect. rewrite E. cbn [mbind option_bind].
  assert (Same : forall er : Z, runs (Some (er, s)) (fun r => safe s r.2 /\ (exists v', vmap r.2 !! a = Some v' /\ same_user v v' /\ idle v') /\
    delete a (vmap r.2) = delete a (vmap s) /\ socket_cache r.2 = socket_cache s)).
  { intros er. apply runs_ret. split; [by apply safe_refl|]. split; [by exists v|done]. }
  repeat (case_match; [apply Same|]). destruct I as [T|T].
  - rewrite (tcp_usrreq_none e PRU_DISCONNECT a s v); [apply Same|done|done|done].
  - destruct (has_pcb s a v _ H T) as (so' & p & E' & Ep & _). unfold tcp_usrreq. rewrite E'. cbn [mbind option_bind]. rewrite Ep.
    eapply runs_bind; [by eapply listen_closes|]. intros s1 G. apply runs_ret. cbn [snd]. pose proof (goes_vw _ _ _ G) as [M M']%vw_inv.
    split; [|split; [|split]].
    + eapply (tgoes_safe s a v); [done|done|]. exists true, None. split; [done|]. eapply goes_eq; [exact G|]. unfold vfree. cbn [fst].
      rewrite lookup_alter_eq, H. simpl. by rewrite N.
    + exists (tcpd true None v). rewrite M, lookup_alter_eq, H. split; [done|]. split; [done|by left].
    + by rewrite M, delete_alter_eq.
    + done.
Qed.

Lemma soclose_listener fuel e a s v : cored s -> vmap s !! a = Some v -> v_nofd v = false -> flag_set (v_opts v) SO_ACCEPTCONN = true ->
  flag_set (v_opts v) SO_LINGER = false -> idle v ->
  runs (soclose fuel e a s) (fun r => (forall c, c ∈ a :: waiting v -> vmap r.2 !! c = None) /\
    (forall c, c ∉ a :: waiting v -> vmap r.2 !! c = vmap s !! c) /\
    mempool (socket_cache r.2) = mempool (socket_cache s) ++ waiting v ++ [a]).
Proof.
  intros C H N Ac Lg I. pose proof H as H'. vlook H' so E V. unfold soclose. rewrite E. cbn [mbind option_bind].
  assert (so_q0 so = v_q0 v /\ so_q so = v_q v /\ so_options so = v_opts v) as (-> & -> & ->) by (by rewrite <- V). rewrite Ac.
  eapply runs_bind; [eapply (drain_runs e a); [done|done|unfold waiting; rewrite length_app; lia]|].
  intros s1 (S1 & (v1 & H1 & W1 & F1 & F2 & F3) & Dc & Oc & Mc). pose proof (proj1 S1) as C1. rewrite N in F1.
  assert (Fin : forall er s2 v2, cored s2 -> vmap s2 !! a = Some v2 -> v_nofd v2 = false -> waiting v2 = [] -> idle v2 ->
    delete a (vmap s2) = delete a (vmap s1) -> socket_cache s2 = socket_cache s1 ->
    runs (close_drop e a er s2) (fun r => (forall c, c ∈ a :: waiting v -> vmap r.2 !! c = None) /\
      (forall c, c ∉ a :: waiting v -> vmap r.2 !! c = vmap s !! c) /\ mempool (socket_cache r.2) = mempool (socket_cache s) ++ waiting v ++ [a])).
  { intros er s2 v2 C2 H2 N2 W2 I2 D2 P2. eapply runs_mono; [by eapply close_drop_idle|]. intros r G. pose proof (goes_vw _ _ _ G) as [M M']%vw_inv.
    rewrite M, M', D2, P2. split; [|split].
    - intros c Hc. destruct (decide (c = a)) as [->|D]; [by rewrite lookup_delete_eq|]. rewrite lookup_delete_ne by done.
      apply Dc. apply elem_of_cons in Hc as [?|?]; done.
    - intros c [D Hc]%not_elem_of_cons. rewrite lookup_delete_ne by done. by apply Oc.
    - simpl. by rewrite Mc, <- app_assoc. }
  assert (I1 : idle v1) by (unfold idle; by rewrite F2).
  pose proof H1 as H1'. vlook H1' so1 E1 V1. rewrite E1. cbn [mbind option_bind]. destruct (_ && _); [|by eapply Fin].
  eapply (runs_bind _ _ (fun r => safe s1 r.2 /\ (exists v', vmap r.2 !! a = Some v' /\ same_user v1 v' /\ idle v') /\
    delete a (vmap r.2) = delete a (vmap s1) /\ socket_cache r.2 = socket_cache s1)).
  { case_match; [by eapply sodisconnect_idle|]. apply runs_ret. split; [by apply safe_refl|]. split; [by exists v1|done]. }
  intros [er s2] (S2 & (v2 & H2 & (N2 & W2 & O2) & I2) & D2 & P2). cbn [fst snd] in *. rewrite F1 in N2. rewrite W1 in W2.
  destruct (negb (er =? 0)); [eapply (Fin er s2 v2); try done; apply S2|]. pose proof H2 as H2'. vlook H2' so2 E2 V2. rewrite E2. cbn [mbind option_bind].
  assert (so_options so2 = v_opts v) as -> by (rewrite <- F3, <- O2, <- V2; done). rewrite Lg. cbn [mbind option_bind].
  eapply (Fin 0 s2 v2); try done; apply S2.
Qed.

End calls.
