(* ===== verification/SocketGlue.v ===== *)
(** * Creation, acceptance and the lists of the glue

    Sockets are created and connections arrive; the glue hands connections and
    events to the application. *)

From stdpp Require Import functions.
From S2P Require Import Prelude Pool Tcpcb Mbuf Sockbuf SockState Socket SocketView SocketInv SocketCalls.

Section glue.
Context (objs : list addr) (objs_nodup : NoDup objs).

Abbreviation cored := (cored objs).
Abbreviation safe := (safe objs).

(** ** Creation *)

Definition fresh : view := mkView 0 false false false None None None [] [] 0 0 0 0.

Lemma soget_runs s r : soget s = Some r ->
  (r = (None, s) /\ mempool (socket_cache s) = []) \/
  exists a rest, r.1 = Some a /\ socket_cache s = mkPool (a :: rest) /\ goes s (<[a := fresh]> (vmap s), mkPool rest) r.2.
Proof.
  unfold soget, pool_cache_get, pool_get. destruct (socket_cache s) as [[|a rest]] eqn:P; simpl; [intros [= <-]; by left|].
  case_bool_decide as X; [done|]. intros [= <-]. right. exists a, rest. split; [done|]. split; [done|]. cbn [snd]. split.
  - unfold vw, vmap. simplify_upd. by rewrite fmap_insert.
  - intros G q. destruct (G q) as [N M]. split; [done|]. intros b so. simplify_upd. destruct (decide (b = a)) as [->|D].
    + rewrite lookup_insert_eq. intros [= <-]. simpl. split; [done|]. intros Ha. exfalso. apply X. apply Exists_exists. exists q.
      split; [|done]. apply list_elem_of_In. destruct q; simpl; tauto.
    + rewrite lookup_insert_ne by done. by apply M.
Qed.

Lemma vloc_new opts nofd disc pcb : (nofd = false \/ is_Some pcb) -> pcb <> Some None -> (pcb = Some (Some TCPS_LISTEN) -> nofd = false) ->
  flag_set opts SO_ACCEPTFILTER = false -> vloc (mkView opts nofd disc false pcb None None [] [] 0 0 0 0).
Proof.
  intros O T1 T2 F. constructor; try done.
  - split; [done|]. split; [done|]. split; [done|]. split; [done|]. split; apply NoDup_nil_2.
  - destruct O as [O|O]; [by left|by right; left].
Qed.

Lemma socreate_runs e type s r : cored s -> soget s = Some r -> r.1 <> None ->
  runs (socreate e type s) (fun x => safe s x.2 /\ forall a, x.1.2 = Some a -> vmap x.2 !! a = Some (fresh <| v_pcb := Some (Some TCPS_CLOSED) |>)).
Proof.
  intros C Hr Nr. unfold socreate. rewrite Hr. cbn [mbind option_bind].
  destruct (soget_runs s r Hr) as [[-> _]|(a & rest & Ha & Pl & G0)]; [done|]. destruct r as [o s0]. cbn [fst snd] in *. subst o.
  pose proof (pool_fresh _ _ _ _ objs_nodup ltac:(rewrite <- Pl; exact C)) as Fr.
  set (f := fun so : socket => so <| so_type := type |>).
  assert (G1 : goes s (<[a := fresh]> (vmap s), mkPool rest) (upd a f s0)).
  { pose proof (goes_vw _ _ _ G0) as E0. eapply goes_trans; [exact G0|]. rewrite <- E0. apply goes_quiet. by intros ? _. }
  pose proof (goes_vw _ _ _ G1) as [E1 E1']%vw_inv. set (s1 := upd a f s0) in *.
  eapply runs_bind; [eapply (tcp_usrreq_attach_runs e a s1 fresh); [by rewrite E1, lookup_insert_eq|done|done]|].
  intros [er s2] A. cbn [fst snd] in *. destruct A as [[Er G2]|[Er G2]]; cbn [fst snd] in *.
  - rewrite Er. cbn [negb Z.eqb]. apply runs_ret. cbn [fst snd].
    set (g := fun so : socket => _). pose proof (goes_vw _ _ _ G2) as E2.
    assert (G3 : goes s (<[a := fresh <| v_pcb := Some (Some TCPS_CLOSED) |>]> (vmap s), mkPool rest) (upd a g s2)).
    { eapply goes_trans; [exact G1|]. eapply goes_trans; [exact G2|]. eapply goes_eq; [apply goes_quiet; by intros ? _|]. rewrite E2, E1, E1'. f_equal.
      by rewrite alter_insert_eq. }
    split.
    + eapply safe_goes; [exact G3|]. eapply core_create; [done|by rewrite <- Pl| |done|done|done]. by apply vloc_new; [left|..].
    + intros b [= <-]. pose proof (goes_vw _ _ _ G3) as [-> _]%vw_inv. by rewrite lookup_insert_eq.
  - destruct (Z.eqb_spec er 0); [done|]. cbn [negb]. pose proof (goes_vw _ _ _ G2) as [E2 E2']%vw_inv. rewrite E1 in E2. rewrite E1' in E2'.
    eapply runs_bind; [eapply (let_go_runs a s2 fresh); [by rewrite E2, lookup_insert_eq|done|done|done]|].
    intros s3 G3. apply runs_ret. cbn [fst snd]. split; [|done].
    eapply safe_goes; [eapply goes_trans; [exact G1|eapply goes_trans; [exact G2|exact G3]]|].
    rewrite E2, E2', alter_insert_eq. rewrite (vfree_gone _ _ _ (let_go fresh)); [|by rewrite lookup_insert_eq|done..].
    unfold released. simpl. rewrite delete_insert_id by done. eapply core_rotate. by rewrite <- Pl.
Qed.

(** ** A connection arrives *)

(** A listening socket that the application holds. *)
Definition listening (v : view) : Prop :=
  v_nofd v = false /\ flag_set (v_opts v) SO_ACCEPTCONN = true.

Definition child (pcb : option (option Z)) (v : view) : view :=
  mkView (flag_clear (v_opts v) SO_ACCEPTCONN) true (v_disc v) false pcb None None [] [] 0 0 0 0.

Lemma vadd_vdel b q v : vlens v -> b ∉ vqueue q v -> vdel b q (vadd b q v) = v.
Proof.
  intros (A & B & S & _) N. rewrite backlog_max_eq in S.
  assert (D : forall l, b ∉ l -> del b (l ++ [b]) = l).
  { intros l Nl. unfold del. rewrite filter_app, filter_cons_False by tauto. fold (del b l). rewrite del_notin by done. by rewrite filter_nil, app_nil_r. }
  destruct v as [o nf di up pc hd oq l0 l1 n0 n1 lim ab]. simpl in *.
  assert (S16 : forall z, 0 <= z <= 193 -> s16 (s16 (z + 1) - 1) = z) by (intros z Hz; rewrite (s16_small (z + 1)), s16_small by lia; lia).
  destruct q; unfold vdel, vadd; simplify_upd; rewrite S16, D by (done || lia); done.
Qed.

(** A connection that could not be completed leaves no trace. *)
Lemma vins_undo h b q (m : views) v w : h <> b -> m !! b = None -> m !! h = Some w -> vlens w -> b ∉ vqueue q w ->
  delete b (vrem h b q (vins h b q (<[b := v]> m))) = m.
Proof.
  intros N Hb Hh L Nb. apply map_eq. intros c. destruct (decide (c = b)) as [->|D]; [by rewrite lookup_delete_eq|].
  rewrite lookup_delete_ne, vrem_lookup, decide_False by done. destruct (decide (c = h)) as [->|D'].
  - rewrite vins_lookup, decide_False, decide_True, lookup_insert_ne, Hh by done. simpl. by rewrite vadd_vdel.
  - by rewrite vins_lookup, decide_False, decide_False, lookup_insert_ne.
Qed.

Lemma vins_insert h b q (m : views) v f : (forall x, f (on h q x) = on h q (f x)) -> h <> b ->
  alter f b (vins h b q (<[b := v]> m)) = vins h b q (<[b := f v]> m).
Proof.
  intros F N. apply map_eq. intros c. destruct (decide (c = b)) as [->|D].
  - rewrite lookup_alter_eq, !vins_lookup, !decide_True, !lookup_insert_eq by done. simpl. by rewrite F.
  - rewrite lookup_alter_ne, !vins_lookup by done. destruct (decide (c = b)); [done|].
    destruct (decide (c = h)); by rewrite !lookup_insert_ne.
Qed.

(** The queue, the control block, and the end of [sonewconn]. *)
Lemma newconn_attach e h a q cs s s0 v rest : cored s -> vmap s !! h = Some v -> listening v -> v_q0len v + v_qlen v < backlog_max ->
  socket_cache s = mkPool (a :: rest) -> goes s (<[a := child None v]> (vmap s), mkPool rest) s0 ->
  (cs = 0 \/ cs = SS_ISCONFIRMING \/ cs = SS_ISCONNECTED) ->
  runs (s ← soqinsque h a q s0;
        r ← tcp_usrreq e PRU_ATTACH a s;
        if negb (r.1 =? 0) then r ← soqremque a q r.2; Some (None, soput a r.2)
        else if q then s ← sorwakeup h r.2; Some (Some a, set_state a (fun st => Z.lor st cs) s)
        else Some (Some a, r.2)) (fun x => safe s x.2).
Proof.
  intros C H [Nf Ac] Room Pl G0 Cs. pose proof (pool_fresh _ _ _ _ objs_nodup ltac:(rewrite <- Pl; exact C)) as Fr.
  assert (N : h <> a) by congruence. pose proof (goes_vw _ _ _ G0) as [E0 E0']%vw_inv.
  pose proof (c_loc _ _ _ C h v H) as Lh.
  assert (Na : a ∉ vqueue q v).
  { intros Ha. destruct (proj2 (c_links _ _ _ C a h q)) as (x & Hx & _); [by exists v|]. congruence. }
  eapply runs_bind; [eapply (soqinsque_runs h a q s0 (child None v)); [by rewrite E0, lookup_insert_eq|done| |done]|].
  { rewrite E0, lookup_insert_ne by done. by rewrite H. }
  intros s1 G1. pose proof (goes_vw _ _ _ G1) as [E1 E1']%vw_inv. rewrite E0 in E1. rewrite E0' in E1'.
  assert (Ha1 : vmap s1 !! a = Some (on h q (child None v))) by (by rewrite E1, vins_lookup, decide_True, lookup_insert_eq).
  eapply runs_bind; [by eapply tcp_usrreq_attach_runs|]. intros [er s2] [[Er G2]|[Er G2]]; cbn [fst snd] in *.
  - rewrite Er. cbn [negb Z.eqb]. rewrite E1, E1' in G2. rewrite vins_insert in G2 by done.
    assert (S2 : safe s s2).
    { eapply safe_goes; [eapply goes_trans; [exact G0|eapply goes_trans; [exact G1|exact G2]]|]. cbn [fst snd].
      change (set_vpcb _ (child None v)) with (child (Some (Some TCPS_CLOSED)) v).
      eapply core_vins; [eapply core_create; [done|by rewrite <- Pl| |done|done|done]|by rewrite lookup_insert_eq|done|done| |done|done|done|done].
      - apply vloc_new; [right; by eexists|done|done|]. pose proof (k_filter _ Lh). revert H0. unfold flag_clear. by flag_bits.
      - by rewrite lookup_insert_ne. }
    destruct q; [|by apply runs_ret].
    assert (Hh2 : is_Some (vmap s2 !! h)).
    { rewrite (proj1 (vw_inv _ _ _ (goes_vw _ _ _ G2))), vins_lookup, decide_False, decide_True, lookup_insert_ne, H by done. by eexists. }
    destruct Hh2 as [w2 Hw2]. eapply runs_bind; [eapply sorwakeup_runs; [exact Hw2|exact (core_wakes objs s2 h w2 (proj1 S2) Hw2)]|].
    intros s3 G3. apply runs_ret. cbn [snd]. pose proof (safe_quiet objs _ _ (proj1 S2) G3) as S3.
    eapply safe_trans; [exact S2|]. eapply safe_trans; [exact S3|]. apply safe_quiet; [apply S3|]. apply goes_state.
    intros x. destruct Cs as [->|[->| ->]]; split; by flag_bits.
  - destruct (Z.eqb_spec er 0); [done|]. cbn [negb]. pose proof (goes_vw _ _ _ G2) as [E2 E2']%vw_inv. rewrite E1 in E2. rewrite E1' in E2'.
    eapply runs_bind; [eapply (soqremque_runs h a q s2 (on h q (child None v))); [by rewrite E2, <- E1|done|done|]|].
    { rewrite E2, vins_lookup, decide_False, decide_True, lookup_insert_ne, H by done. by eexists. }
    intros [b s3] [_ G3]. cbn [fst snd] in *. apply runs_ret. cbn [snd]. rewrite E2, E2' in G3. pose proof (goes_vw _ _ _ G3) as [E3 E3']%vw_inv.
    pose proof (soput_goes a s3) as G4. rewrite E3, E3' in G4.
    rewrite (vins_undo h a q (vmap s) (child None v) v N Fr H (k_lens _ Lh) Na) in G4.
    eapply safe_goes; [eapply goes_trans; [exact G0|eapply goes_trans; [exact G1|eapply goes_trans; [exact G2|eapply goes_trans; [exact G3|exact G4]]]]|].
    eapply core_rotate. by rewrite <- Pl.
Qed.

Lemma sonewconn_safe e h cs s v r : cored s -> vmap s !! h = Some v -> listening v -> soget s = Some r ->
  (cs = 0 \/ cs = SS_ISCONFIRMING \/ cs = SS_ISCONNECTED) -> runs (sonewconn e h cs s) (fun x => safe s x.2).
Proof.
  intros C H L Hr Cs. pose proof H as H'. vlook H' ho Eh Vh. pose proof (c_loc _ _ _ C h v H) as Lh.
  unfold sonewconn. rewrite Eh. cbn [mbind option_bind].
  assert (so_options ho = v_opts v /\ so_qlimit ho = v_qlimit v /\ so_qlen ho = v_qlen v /\ so_q0len ho = v_q0len v) as (-> & -> & -> & ->) by (by rewrite <- Vh).
  rewrite (k_filter _ Lh). destruct (Z.ltb_spec (3 * v_qlimit v / 2) (v_qlen v + v_q0len v)) as [_|Lim]; [by apply runs_ret, safe_refl|].
  rewrite Hr. cbn [mbind option_bind]. destruct (soget_runs s r Hr) as [[-> _]|(a & rest & Ha & Pl & G0)]; [by apply runs_ret, safe_refl|].
  destruct r as [o s0]. cbn [fst snd] in *. subst o.
  match goal with |- context [upd a ?g s0] => set (f := g) end.
  assert (G1 : goes s (<[a := child None v]> (vmap s), mkPool rest) (upd a f s0)).
  { set (g := fun x => x <| v_opts := flag_clear (v_opts v) SO_ACCEPTCONN |> <| v_nofd := true |> <| v_disc := v_disc v |>).
    eapply goes_eq; [eapply (goes_upd_trans _ _ _ _ a f g); [exact G0|]|].
    - intros so _. split; [|done]. subst f g v. clear. unfold view_of. simpl. f_equal; by flag_bits.
    - f_equal. by rewrite alter_insert_eq. }
  pose proof (goes_vw _ _ _ G1) as [E1 E1']%vw_inv. set (s1 := upd a f s0) in *.
  assert (Ha1 : vmap s1 !! a = Some (child None v)) by (by rewrite E1, lookup_insert_eq). vlook Ha1 so1 Es1 Vs1.
  rewrite Es1. cbn [mbind option_bind]. destruct (reserve_view e (sb_hiwat (b_sb (so_snd ho))) (sb_hiwat (b_sb (so_rcv ho))) so1) as [R1 R2].
  destruct (reserve e _ _ so1) as [so2 er]. cbn [fst] in *.
  assert (G2 : goes s1 (vw s1) (upd a (fun _ => so2) s1)) by (apply goes_quiet; intros o Eo; assert (o = so1) as -> by congruence; done).
  pose proof (goes_trans _ _ _ _ _ G1 G2) as G12. unfold vw in G12. rewrite E1, E1' in G12. set (s2 := upd a (fun _ => so2) s1) in *.
  assert (Ro : v_q0len v + v_qlen v < backlog_max).
  { destruct (k_lens _ Lh) as (_ & _ & _ & Q & _). unfold SOMAXCONN in Q. rewrite backlog_max_eq. pose proof (Z.div_le_mono (3 * v_qlimit v) 384 2 ltac:(lia) ltac:(lia)) as D. change (384 / 2) with 192 in D. lia. }
  destruct (negb (er =? 0)).
  - apply runs_ret. cbn [snd]. pose proof (goes_vw _ _ _ G12) as [E2 E2']%vw_inv. pose proof (soput_goes a s2) as G3. rewrite E2, E2' in G3.
    eapply safe_goes; [eapply goes_trans; [exact G12|exact G3]|]. cbn [fst snd].
    rewrite delete_insert_id by (exact (pool_fresh _ _ _ _ objs_nodup ltac:(rewrite <- Pl; exact C))). eapply core_rotate. by rewrite <- Pl.
  - match goal with |- context [upd a ?g s2] => set (f3 := g) end.
    assert (G3 : goes s (<[a := child None v]> (vmap s), mkPool rest) (upd a f3 s2)).
    { pose proof (goes_vw _ _ _ G12) as E2. eapply goes_trans; [exact G12|]. rewrite <- E2. apply goes_quiet. by intros ? _. }
    destruct (Z.eqb_spec cs 0); by eapply newconn_attach.
Qed.

(** ** Acceptance *)

(** The functions of the glue do not change what the application has attached to
    a socket, nor the lists they do not serve. *)
Definition block (s : sostate) (c : addr) : option Z := so ← s_mem s !! c; glueing_block so.

Definition gkept (s s' : sostate) : Prop := (forall c, block s' c = block s c) /\ ready s' = ready s /\
  read_sockets_queue_len s' = read_sockets_queue_len s.

Lemma block_upd a f s c : (forall so, glueing_block (f so) = glueing_block so) -> block (upd a f s) c = block s c.
Proof.
  intros F. unfold block, upd. simplify_upd. destruct (decide (c = a)) as [->|D]; [|by rewrite lookup_alter_ne].
  rewrite lookup_alter_eq. destruct (s_mem s !! a) as [so|]; simpl; [apply F|done].
Qed.

Lemma gkept_upd a f s : (forall so, glueing_block (f so) = glueing_block so) -> gkept s (upd a f s).
Proof. intros F. split; [|done]. intros c. by apply block_upd. Qed.

Lemma gkept_trans s s' s'' : gkept s s' -> gkept s' s'' -> gkept s s''.
Proof. intros (A & B & D) (A' & B' & D'). split; [|split]; [intros c; by rewrite A', A|congruence|congruence]. Qed.

Lemma soqremque_kept b q s r : soqremque b q s = Some r -> gkept s r.2 /\ s_user r.2 = s_user s.
Proof.
  unfold soqremque. intros H. destruct (s_mem s !! b) as [o|]; [|done]. cbn [mbind option_bind] in H.
  destruct (so_head o) as [h|]; [|by injection H as <-].
  case_bool_decide; [|by injection H as <-]. destruct (s_mem s !! h); [|done]. cbn [mbind option_bind] in H. injection H as <-.
  split; [|done]. cbn [snd]. eapply gkept_trans; [eapply gkept_trans|]; apply gkept_upd; by destruct q.
Qed.

Lemma soaccept_runs e b s v : vmap s !! b = Some v -> v_nofd v = true ->
  runs (soaccept e b s) (fun r => goes s (alter SocketInv.held b (vmap s), socket_cache s) r.2 /\ gkept s r.2 /\ s_user r.2 = s_user s).
Proof.
  intros H N. pose proof H as H'. vlook H' so E V. unfold soaccept. rewrite E. cbn [mbind option_bind].
  assert (flag_set (so_state so) SS_NOFDREF = true) as -> by (by rewrite <- N, <- V). cbn [negb].
  set (s1 := set_state b _ s).
  assert (G1 : goes s (alter SocketInv.held b (vmap s), socket_cache s) s1 /\ gkept s s1 /\ s_user s1 = s_user s).
  { split; [|split; [by apply gkept_upd|done]]. apply goes_upd. intros o _. split; [|done].
    unfold view_of, upd_state, SocketInv.held. simplify_upd. f_equal; unfold flag_clear; by flag_bits. }
  destruct (negb _); [|by apply runs_ret]. pose proof (goes_vw _ _ _ (proj1 G1)) as [E1 _]%vw_inv.
  assert (H1 : vmap s1 !! b = Some (SocketInv.held v)) by (by rewrite E1, lookup_alter_eq, H). vlook H1 so1 Es Vs.
  unfold tcp_usrreq. rewrite Es. cbn [mbind option_bind]. destruct (so_pcb so1); by apply runs_ret.
Qed.

(** The first connection of [a] is taken. *)
Lemma take_runs e a s v b rest : cored s -> vmap s !! a = Some v -> v_q v = b :: rest ->
  exists r1 r2, soqremque b true s = Some r1 /\ r1.1 = true /\ soaccept e b r1.2 = Some r2 /\
    safe s r2.2 /\ gkept s r2.2 /\ s_user r2.2 = s_user s /\ a <> b /\ vmap r2.2 = alter SocketInv.held b (vrem a b true (vmap s)).
Proof.
  intros C H Hq. destruct (proj2 (c_links _ _ _ C b a true)) as (w & Hw & Qw); [exists v; split; [done|]; simpl; rewrite Hq; by left|].
  destruct (queued_facts _ _ _ _ _ _ _ C Hw Qw) as (N & Nf & Hh & _).
  destruct (soqremque_runs a b true s w Hw Hh Qw) as ([t s1] & E1 & Et & G1); [by eexists|]. cbn [fst snd] in *.
  destruct (soqremque_kept _ _ _ _ E1) as [K1 U1]. cbn [snd] in *. pose proof (goes_vw _ _ _ G1) as [V1 V1']%vw_inv.
  destruct (soaccept_runs e b s1 (off w)) as ([er s2] & E2 & G2 & K2 & U2); [by rewrite V1, vrem_lookup, decide_True, Hw|done|]. cbn [snd] in *.
  exists (t, s1), (er, s2). cbn [fst snd]. rewrite V1, V1' in G2. repeat (split; [done|]).
  split; [|split; [by eapply gkept_trans|split; [congruence|split; [done|]]]].
  - eapply safe_goes; [eapply goes_trans; [exact G1|exact G2]|]. by eapply core_accept.
  - exact (proj1 (vw_inv _ _ _ (goes_vw _ _ _ G2))).
Qed.

(** The queue of [a] after that. *)
Lemma taken_view a b rest (m : views) v : vloc v -> a <> b -> m !! a = Some v -> v_q v = b :: rest ->
  alter SocketInv.held b (vrem a b true m) !! a = Some (vdel b true v) /\ v_q (vdel b true v) = rest.
Proof.
  intros L N H Hq. split.
  - by rewrite lookup_alter_ne, vrem_lookup, decide_False, decide_True, H.
  - destruct (k_lens _ L) as (_ & _ & _ & _ & _ & N1). simpl. rewrite Hq in *. apply NoDup_cons in N1 as [Nb _].
    unfold del. rewrite filter_cons_False by tauto. by apply del_notin.
Qed.

Lemma qlen_view s a v so : cored s -> vmap s !! a = Some v -> s_mem s !! a = Some so ->
  so_q so = v_q v /\ (so_qlen so =? 0) = bool_decide (v_q v = []).
Proof.
  intros C H E. pose proof H as H'. vlook H' so' E' V. assert (so' = so) as -> by congruence. split; [by rewrite <- V|].
  destruct (k_lens _ (c_loc _ _ _ C a v H)) as (_ & L & _). assert (so_qlen so = v_qlen v) as -> by (by rewrite <- V). rewrite L.
  destruct (v_q v); [done|]. by rewrite bool_decide_eq_false_2.
Qed.

Lemma forget_loop_safe e a fuel : forall s v, cored s -> vmap s !! a = Some v -> (length (v_q v) < fuel)%nat ->
  runs (forget_loop fuel e a s) (fun s' => safe s s' /\ exists v', vmap s' !! a = Some v' /\ v_nofd v' = v_nofd v /\ v_opts v' = v_opts v).
Proof.
  induction fuel as [|fuel IH]; intros s v C H L; [lia|]. simpl. pose proof H as H'. vlook H' so E V. rewrite E. cbn [mbind option_bind].
  destruct (qlen_view s a v so C H E) as [-> ->]. case_bool_decide as Q.
  { apply runs_ret. split; [by apply safe_refl|]. by exists v. }
  destruct (v_q v) as [|b rest] eqn:Hq; [done|]. cbn [head mbind option_bind].
  destruct (take_runs e a s v b rest C H Hq) as (r1 & r2 & -> & Et & E2 & S2 & _ & _ & N & M2). cbn [mbind option_bind]. rewrite Et. cbn [negb].
  rewrite E2. cbn [mbind option_bind]. destruct (taken_view a b rest (vmap s) v) as [Ha Hr]; [by eapply c_loc|done|done|done|]. rewrite <- M2 in Ha.
  eapply runs_mono; [eapply (IH r2.2 _ (proj1 S2) Ha); rewrite Hr; simpl in L; lia|].
  intros s' (S' & v' & H3 & F1 & F2). split; [by eapply safe_trans|]. by exists v'.
Qed.

(** What [user_on_accept] tells the application. *)
Definition accepted (s : sostate) (a : addr) (l : list addr) : list notice := (fun b => OnAccepted b (block s a)) <$> l.

Definition reporting (v : view) : view := v <| v_up := true |>.

Definition connected_only (m : views) (l : list addr) : Prop := forall b w, b ∈ l -> m !! b = Some w -> is_Some (v_pcb w).

Lemma accept_step fuel e a s v b rest w : cored s -> vmap s !! a = Some v -> v_q v = b :: rest -> vmap s !! b = Some w ->
  (v_pcb w = None -> accept_loop (S fuel) e a s = None) /\
  (is_Some (v_pcb w) -> exists s1, accept_loop (S fuel) e a s = accept_loop fuel e a s1 /\ safe s s1 /\ gkept s s1 /\
    s_user s1 = s_user s ++ accepted s a [b] /\ vmap s1 !! a = Some (vdel b true v) /\ v_q (vdel b true v) = rest /\
    (forall c, v_pcb <$> vmap s1 !! c = v_pcb <$> vmap s !! c) /\ (forall c, c <> a -> v_q <$> vmap s1 !! c = v_q <$> vmap s !! c)).
Proof.
  intros C H Hq Hw. cbn [accept_loop]. pose proof H as H'. vlook H' so E V. rewrite E. cbn [mbind option_bind].
  destruct (qlen_view s a v so C H E) as [-> ->]. rewrite Hq, bool_decide_eq_false_2 by done. cbn [head mbind option_bind].
  destruct (take_runs e a s v b rest C H Hq) as (r1 & r2 & -> & Et & E2 & S2 & K2 & U2 & N & M2). cbn [mbind option_bind]. rewrite Et. cbn [negb].
  rewrite E2. cbn [mbind option_bind]. destruct (taken_view a b rest (vmap s) v) as [Ha Hr]; [by eapply c_loc|done|done|done|]. rewrite <- M2 in Ha.
  set (f := fun so : socket => so <| so_upcall2 := true |>).
  assert (Hb : vmap r2.2 !! b = Some (SocketInv.held (off w))) by (by rewrite M2, lookup_alter_eq, vrem_lookup, decide_True, Hw).
  pose proof (goes_upd b f reporting r2.2 ltac:(by intros ? _)) as G3. pose proof (goes_vw _ _ _ G3) as [E3 E3']%vw_inv.
  assert (Hb3 : vmap (upd b f r2.2) !! b = Some (reporting (SocketInv.held (off w)))) by (by rewrite E3, lookup_alter_eq, Hb).
  vlook Hb3 o2 Eo Vo. rewrite Eo. cbn [mbind option_bind].
  assert (Pc : (fun p => inp_ppcb p) <$> so_pcb o2 = v_pcb w) by (change (v_pcb w) with (v_pcb (reporting (SocketInv.held (off w)))); by rewrite <- Vo).
  split.
  - intros Pw. rewrite Pw in Pc. by destruct (so_pcb o2).
  - intros [pw Pw]. rewrite Pw in Pc. destruct (so_pcb o2) as [ip|]; [|done]. cbn [mbind option_bind]. eexists. split; [done|].
    assert (S3 : safe r2.2 (upd b f r2.2)).
    { eapply safe_goes; [exact G3|]. eapply core_alter; [apply S2|exact Hb|done|done|done|].
      destruct (c_loc _ _ _ (proj1 S2) b _ Hb) as [L P S O (T1 & T2 & T3) A F]. constructor; try done.
      split; [done|]. split; [done|]. intros _. right. simpl. rewrite Pw. by eexists. }
    assert (Lk : forall c, vmap (upd b f r2.2) !! c = if decide (c = b) then Some (reporting (SocketInv.held (off w)))
      else if decide (c = a) then Some (vdel b true v) else vmap s !! c).
    { intros c. rewrite E3. destruct (decide (c = b)) as [->|D]; [by rewrite lookup_alter_eq, Hb|]. rewrite lookup_alter_ne by done.
      destruct (decide (c = a)) as [->|D']; [done|]. by rewrite M2, lookup_alter_ne, vrem_lookup, decide_False, decide_False. }
    split; [exact (safe_trans _ _ _ _ S2 S3)|]. split.
    { eapply gkept_trans; [exact K2|]. pose proof (gkept_upd b f r2.2 ltac:(done)) as K3. exact K3. }
    split.
    { change (s_user r2.2 ++ [OnAccepted b (glueing_block so)] = s_user s ++ accepted s a [b]). rewrite U2. unfold accepted, block. simpl. by rewrite E. }
    change (vmap (set s_user _ (upd b f r2.2))) with (vmap (upd b f r2.2)).
    split; [by rewrite Lk, decide_False, decide_True|]. split; [exact Hr|]. split; intros c.
    + rewrite Lk. destruct (decide (c = b)) as [->|D]; [by rewrite Hw|]. destruct (decide (c = a)) as [->|D']; [by rewrite H|done].
    + intros D'. rewrite Lk. destruct (decide (c = b)) as [->|D]; [by rewrite Hw|]. by rewrite decide_False.
Qed.

Lemma first_conn s a v b rest : cored s -> vmap s !! a = Some v -> v_q v = b :: rest -> exists w, vmap s !! b = Some w.
Proof.
  intros C H Hq. destruct (proj2 (c_links _ _ _ C b a true)) as (w & Hw & _); [exists v; split; [done|]; simpl; rewrite Hq; by left|].
  by exists w.
Qed.

Lemma accept_loop_end fuel e a s v : cored s -> vmap s !! a = Some v -> v_q v = [] -> accept_loop (S fuel) e a s = Some s.
Proof.
  intros C H Q. cbn [accept_loop]. pose proof H as H'. vlook H' so E V. rewrite E. cbn [mbind option_bind].
  destruct (qlen_view s a v so C H E) as [_ ->]. by rewrite bool_decide_eq_true_2.
Qed.

Lemma accept_loop_safe e a fuel : forall s v s', cored s -> vmap s !! a = Some v -> accept_loop fuel e a s = Some s' -> safe s s'.
Proof.
  induction fuel as [|fuel IH]; intros s v s' C H R; [done|]. destruct (v_q v) as [|b rest] eqn:Hq.
  { rewrite (accept_loop_end fuel e a s v C H Hq) in R. injection R as <-. by apply safe_refl. }
  destruct (first_conn s a v b rest C H Hq) as [w Hw]. destruct (accept_step fuel e a s v b rest w C H Hq Hw) as [Bad Good].
  destruct (v_pcb w); [|rewrite Bad in R; done]. destruct Good as (s1 & E1 & S1 & _ & _ & H1 & _); [by eexists|]. rewrite E1 in R.
  eapply safe_trans; [exact S1|]. exact (IH s1 _ s' (proj1 S1) H1 R).
Qed.

(** All connections of the queue have control blocks. *)
Definition attached_all (m : views) (l : list addr) : Prop := forall b, b ∈ l -> exists p, v_pcb <$> m !! b = Some (Some p).

Definition accept_done (a : addr) (l : list addr) (s s' : sostate) : Prop :=
  safe s s' /\ gkept s s' /\ s_user s' = s_user s ++ accepted s a l /\ (v_q <$> vmap s' !! a = Some []) /\
  (forall c, v_pcb <$> vmap s' !! c = v_pcb <$> vmap s !! c) /\ (forall c, c <> a -> v_q <$> vmap s' !! c = v_q <$> vmap s !! c).

Lemma accept_loop_runs e a fuel : forall s v, cored s -> vmap s !! a = Some v -> attached_all (vmap s) (v_q v) -> (length (v_q v) < fuel)%nat ->
  runs (accept_loop fuel e a s) (accept_done a (v_q v) s).
Proof.
  induction fuel as [|fuel IH]; intros s v C H P L; [lia|]. destruct (v_q v) as [|b rest] eqn:Hq.
  { rewrite (accept_loop_end fuel e a s v C H Hq). apply runs_ret. split; [by apply safe_refl|]. split; [done|].
    rewrite app_nil_r, H. simpl. by rewrite Hq. }
  destruct (first_conn s a v b rest C H Hq) as [w Hw]. destruct (accept_step fuel e a s v b rest w C H Hq Hw) as [_ Good].
  destruct Good as (s1 & E1 & S1 & K1 & U1 & H1 & Q1 & P1 & O1).
  { destruct (P b ltac:(by left)) as [p Pp]. rewrite Hw in Pp. injection Pp as ->. by eexists. }
  rewrite E1. eapply runs_mono; [eapply (IH s1 _ (proj1 S1) H1)|].
  - rewrite Q1. intros c Hc. rewrite P1. apply P. by right.
  - rewrite Q1. simpl in L. lia.
  - intros s2 (S2 & K2 & U2 & Q2 & P2 & O2). rewrite Q1 in U2. split; [by eapply safe_trans|]. split; [by eapply gkept_trans|].
    split; [|split; [done|split]].
    + rewrite U2, U1. unfold accepted. rewrite (proj1 K1). simpl. by rewrite <- app_assoc.
    + intros c. by rewrite P2, P1.
    + intros c D. by rewrite O2, O1.
Qed.
End glue.
