(* ===== verification/SocketRun.v ===== *)
(** * Serving the lists

    The loops of app_glue.c that hand events to the application, and the closing
    of a socket by the application. *)

From stdpp Require Import functions.
From S2P Require Import Prelude Pool Tcpcb Mbuf Sockbuf SockState Socket SocketView SocketInv SocketCalls SocketGlue.

Section run.
Context (objs : list addr) (objs_nodup : NoDup objs).

Abbreviation cored := (cored objs).
Abbreviation safe := (safe objs).

(** A step that only takes sockets off the lists and tells the application. *)
Definition serves (s s' : sostate) : Prop := goes s (vw s) s' /\ forall c, block s' c = block s c.

Lemma serves_trans s s' s'' : serves s s' -> serves s' s'' -> serves s s''.
Proof.
  intros [G B] [G' B']. split; [|intros c; by rewrite B', B]. rewrite <- (goes_vw _ _ _ G) at 1. by eapply goes_trans.
Qed.

Lemma serves_safe s s' : cored s -> serves s s' -> safe s s'.
Proof. intros C [G _]. by apply safe_quiet. Qed.

Lemma dequeue_serves q a s : serves s (dequeue q a s).
Proof.
  split; [split|].
  - unfold dequeue. change (vw (set ready _ ?x)) with (vw x). unfold vw. rewrite (vmap_upd _ _ id) by done. by rewrite alter_id.
  - intros G q'. destruct (G q') as [N M]. unfold dequeue, upd. simplify_upd. destruct (decide (q' = q)) as [->|D].
    + rewrite fn_lookup_insert. split; [by apply NoDup_filter|]. intros b so. rewrite list_elem_of_filter.
      destruct (decide (b = a)) as [->|Nb].
      * rewrite lookup_alter_eq. destruct (s_mem s !! a); simpl; [|done]. intros [= <-]. unfold set_present. simplify_upd.
        rewrite fn_lookup_insert. split; [done|tauto].
      * rewrite lookup_alter_ne by done. intros E. rewrite (M b so E). tauto.
    + rewrite fn_lookup_insert_ne by done. split; [done|]. intros b so. destruct (decide (b = a)) as [->|Nb].
      * rewrite lookup_alter_eq. destruct (s_mem s !! a) as [o|] eqn:Eo; simpl; [|done]. intros [= <-]. unfold set_present. simplify_upd.
        rewrite fn_lookup_insert_ne by done. by apply M.
      * rewrite lookup_alter_ne by done. by apply M.
  - intros c. unfold dequeue. change (block (upd a (set_present q false) s) c = block s c). by apply block_upd.
Qed.

Lemma tell_serves n s : serves s (tell n s).
Proof. split; [|done]. by split. Qed.

(** The list [q] is now [l]; the others are as before. *)
Definition relisted (q : glueq) (l : list addr) (s s' : sostate) : Prop :=
  ready s' q = l /\ forall q', q' <> q -> ready s' q' = ready s q'.

Lemma ready_dequeue q a s rest : glue_ok s -> ready s q = a :: rest -> relisted q rest s (dequeue q a s).
Proof.
  intros G E. destruct (G q) as [N _]. rewrite E in N. apply NoDup_cons in N as [Na _].
  unfold dequeue. split; simpl.
  - rewrite fn_lookup_insert, E, filter_cons_False by tauto. by apply del_notin.
  - intros q' D. by rewrite fn_lookup_insert_ne.
Qed.

Lemma dequeue_user q a s : s_user (dequeue q a s) = s_user s.
Proof. done. Qed.

Lemma dequeue_vmap q a s : vmap (dequeue q a s) = vmap s.
Proof. exact (vw_vmap _ _ (goes_vw _ _ _ (proj1 (dequeue_serves q a s)))). Qed.

(** ** Closed sockets *)

Definition live (s : sostate) (l : list addr) : Prop := forall a, a ∈ l -> is_Some (s_mem s !! a).

Lemma live_vmap s s' l : vmap s' = vmap s -> live s l -> live s' l.
Proof.
  intros E L a Ha. destruct (L a Ha) as [so Hs]. assert (H : vmap s' !! a = Some (view_of so)) by (rewrite E; apply vmap_lookup; by exists so).
  apply vmap_lookup in H as (so' & ? & _). by exists so'.
Qed.

Lemma live_pcb s s' l : (forall c, v_pcb <$> vmap s' !! c = v_pcb <$> vmap s !! c) -> live s l -> live s' l.
Proof.
  intros P L b Hb. destruct (L b Hb) as [o Eo]. specialize (P b). rewrite (proj2 (vmap_lookup s b (view_of o)) ltac:(by exists o)) in P.
  destruct (vmap s' !! b) as [v|] eqn:Hv; [|done]. vlook Hv o' Eo' Vo. by exists o'.
Qed.

Lemma closed_loop_serves fuel : forall s s', closed_loop fuel s = Some s' -> serves s s'.
Proof.
  assert (R : forall s, serves s s) by (intros s; split; [apply goes_refl|done]).
  induction fuel as [|fuel IH]; intros s s'; simpl; (destruct (ready s QClosed) as [|a rest]; [intros [= <-]; apply R|]); [done|].
  destruct (s_mem s !! a) as [so|]; [|done]. cbn [mbind option_bind]. intros H.
  eapply serves_trans; [apply (tell_serves (OnClosure (glueing_block so)))|]. eapply serves_trans; [apply (dequeue_serves QClosed a)|]. by apply IH.
Qed.

Lemma closed_loop_runs fuel : forall s, glue_ok s -> live s (ready s QClosed) -> (length (ready s QClosed) <= fuel)%nat ->
  runs (closed_loop fuel s) (fun s' => serves s s' /\ relisted QClosed [] s s' /\ read_sockets_queue_len s' = read_sockets_queue_len s /\
    s_user s' = s_user s ++ ((fun a => OnClosure (block s a)) <$> ready s QClosed)).
Proof.
  assert (Done : forall s, ready s QClosed = [] -> serves s s /\ relisted QClosed [] s s /\ read_sockets_queue_len s = read_sockets_queue_len s /\
    s_user s = s_user s ++ ((fun a => OnClosure (block s a)) <$> [])).
  { intros s E. simpl. rewrite app_nil_r. split; [split; [apply goes_refl|done]|]. done. }
  induction fuel as [|fuel IH]; intros s G L F; simpl; (destruct (ready s QClosed) as [|a rest] eqn:E; [by apply runs_ret, Done|]); [simpl in F; lia|].
  destruct (L a ltac:(by left)) as [so Es]. rewrite Es. cbn [mbind option_bind].
  set (s1 := tell _ s). set (s2 := dequeue QClosed a s1).
  assert (E1 : ready s1 QClosed = a :: rest) by done.
  assert (Sv : serves s s2) by (eapply serves_trans; [apply (tell_serves (OnClosure (glueing_block so)))|apply dequeue_serves]).
  assert (relisted QClosed rest s s2) as [R2 R2'] by (exact (ready_dequeue QClosed a s1 rest G E1)).
  eapply runs_mono; [eapply (IH s2)|].
  - exact (proj2 (proj1 Sv) G).
  - rewrite R2. eapply live_vmap; [exact (vw_vmap _ _ (goes_vw _ _ _ (proj1 Sv)))|]. intros b Hb. apply L. by right.
  - rewrite R2. simpl in F. lia.
  - intros s' (Sv' & (R' & R'') & Ln & U'). split; [by eapply serves_trans|].
    split; [split; [done|intros q' D; by rewrite R'', R2']|]. split; [exact Ln|]. rewrite U', R2. unfold s2, s1. rewrite dequeue_user. simpl. rewrite <- app_assoc. simpl. f_equal. f_equal.
    + unfold block. by rewrite Es.
    + apply list_fmap_ext. intros i x _. by rewrite (proj2 Sv).
Qed.

(** ** Connections *)

Definition vq (s : sostate) (a : addr) : list addr := default [] (v_q <$> vmap s !! a).

Lemma user_on_accept_safe e a s s' : cored s -> user_on_accept e a s = Some s' -> safe s s'.
Proof.
  intros C. unfold user_on_accept. destruct (s_mem s !! a) as [so|] eqn:E; [|done]. cbn [mbind option_bind].
  apply (accept_loop_safe objs e a _ s (view_of so)); [done|]. apply vmap_lookup. by exists so.
Qed.

Lemma accepts_loop_safe e fuel : forall s s', cored s -> accepts_loop fuel e s = Some s' -> safe s s'.
Proof.
  induction fuel as [|fuel IH]; intros s s' C; simpl; (destruct (ready s QAccept) as [|a rest]; [intros [= <-]; by apply safe_refl|]); [done|].
  destruct (user_on_accept e a s) as [s1|] eqn:E; [|done]. cbn [mbind option_bind]. intros H.
  pose proof (user_on_accept_safe e a s s1 C E) as S1.
  pose proof (serves_safe _ _ (proj1 S1) (dequeue_serves QAccept a s1)) as S2.
  eapply safe_trans; [exact S1|]. eapply safe_trans; [exact S2|]. exact (IH _ _ (proj1 S2) H).
Qed.

Lemma bind_ext_elem {A B} (f g : A -> list B) l : (forall x, x ∈ l -> f x = g x) -> l ≫= f = l ≫= g.
Proof.
  induction l as [|x l IH]; intros H; [done|]. simpl. rewrite (H x) by (by left). f_equal. apply IH. intros y Hy. apply H. by right.
Qed.

Definition all_accepted (s : sostate) (l : list addr) : list notice := a ← l; accepted s a (vq s a).

Lemma accepts_loop_runs e fuel : forall s l, glue_ok s -> cored s -> ready s QAccept = l -> live s l ->
  (forall a, a ∈ l -> attached_all (vmap s) (vq s a)) -> (length l <= fuel)%nat ->
  runs (accepts_loop fuel e s) (fun s' => safe s s' /\ relisted QAccept [] s s' /\ read_sockets_queue_len s' = read_sockets_queue_len s /\
    (forall c, block s' c = block s c) /\ s_user s' = s_user s ++ all_accepted s l /\
    (forall a, a ∈ l -> vq s' a = []) /\ (forall c, c ∉ l -> vq s' c = vq s c) /\ forall c, v_pcb <$> vmap s' !! c = v_pcb <$> vmap s !! c).
Proof.
  induction fuel as [|fuel IH]; intros s l G C E L P F; (destruct l as [|a rest]; simpl; rewrite E);
    try (apply runs_ret; split; [by apply safe_refl|]; split; [done|]; split; [done|]; split; [done|]; split; [by rewrite app_nil_r|]; split; [by intros a ?%elem_of_nil|done]);
    [simpl in F; lia|].
  destruct (L a ltac:(by left)) as [so Es]. pose proof (proj2 (vmap_lookup s a (view_of so)) ltac:(by exists so)) as Ha.
  assert (Q : vq s a = v_q (view_of so)) by (unfold vq; by rewrite Ha).
  unfold user_on_accept at 1. rewrite Es. cbn [mbind option_bind].
  eapply runs_bind; [eapply (accept_loop_runs objs e a _ s (view_of so) C Ha); [rewrite <- Q; apply P; by left|simpl; lia]|].
  rewrite <- Q. intros s1 (S1 & (B1 & R1 & L1) & U1 & Q1 & P1 & O1). pose proof (proj2 S1 G) as G1.
  pose proof (dequeue_serves QAccept a s1) as Sv. destruct (ready_dequeue QAccept a s1 rest G1 ltac:(by rewrite R1)) as [R2 R2'].
  pose proof (serves_safe _ _ (proj1 S1) Sv) as S2. pose proof (dequeue_vmap QAccept a s1) as V2.
  assert (N : a ∉ rest) by (destruct (G QAccept) as [N _]; rewrite E in N; by apply NoDup_cons in N as [N _]).
  assert (Vq : forall c, c <> a -> vq (dequeue QAccept a s1) c = vq s c) by (intros c D; unfold vq; by rewrite V2, O1).
  eapply runs_mono; [eapply (IH _ rest (proj2 S2 G1) (proj1 S2) R2)|].
  - eapply (live_pcb s); [intros c; by rewrite V2|]. intros b Hb. apply L. by right.
  - intros b Hb. rewrite V2, Vq by (intros ->; done). intros c Hc. rewrite P1. by apply (P b ltac:(by right)).
  - simpl in F. lia.
  - intros s' (S3 & (R3 & R3') & L3 & B3 & U3 & Q3 & O3 & P3). split; [by eapply safe_trans; [exact S1|eapply safe_trans]|].
    split; [split; [done|intros q D; by rewrite R3', R2', R1]|]. split; [rewrite L3; exact L1|].
    assert (Bk : forall c, block (dequeue QAccept a s1) c = block s c) by (intros c; by rewrite (proj2 Sv), B1).
    split; [intros c; by rewrite B3|]. split; [|split; [|split]].
    + rewrite U3. change (s_user (dequeue QAccept a s1)) with (s_user s1). rewrite U1, <- app_assoc. simpl. f_equal. f_equal.
      unfold all_accepted. apply bind_ext_elem. intros b Hb. unfold accepted. rewrite Bk. rewrite Vq; [done|]. intros ->. done.
    + intros b Hb. destruct (decide (b ∈ rest)) as [Hr|Hr]; [by apply Q3|]. apply elem_of_cons in Hb as [->|?]; [|done].
      rewrite O3 by done. unfold vq. by rewrite V2, Q1.
    + intros c Hc. apply not_elem_of_cons in Hc as [D Hr]. by rewrite O3, Vq.
    + intros c. by rewrite P3, V2, P1.
Qed.

(** ** Readable and writable sockets *)

Lemma read_count_serves n s : serves s (s <| read_sockets_queue_len := n |>).
Proof. split; [by split|done]. Qed.

Lemma write_count_serves n s : serves s (s <| write_sockets_queue_len := n |>).
Proof. split; [by split|done]. Qed.

Lemma readable_loop_serves limit : forall s s', readable_loop limit s = Some s' -> serves s s'.
Proof.
  assert (R : forall s, serves s s) by (intros s; split; [apply goes_refl|done]).
  induction limit as [|limit IH]; intros s s'; simpl; [intros [= <-]; apply R|]. destruct (ready s QRead) as [|a rest]; [intros [= <-]; apply R|].
  destruct (s_mem s !! a) as [so|]; [|done]. cbn [mbind option_bind]. intros H. eapply serves_trans; [apply (dequeue_serves QRead a)|].
  eapply serves_trans; [apply (tell_serves (OnReadable a (glueing_block so)))|]. eapply serves_trans; [|exact (IH _ _ H)]. apply read_count_serves.
Qed.

Lemma writable_loop_serves limit : forall s s', writable_loop limit s = Some s' -> serves s s'.
Proof.
  assert (R : forall s, serves s s) by (intros s; split; [apply goes_refl|done]).
  induction limit as [|limit IH]; intros s s'; simpl; [intros [= <-]; apply R|]. destruct (ready s QWrite) as [|a rest]; [intros [= <-]; apply R|].
  destruct (s_mem s !! a) as [so|]; [|done]. cbn [mbind option_bind]. intros H. eapply serves_trans; [apply (dequeue_serves QWrite a)|].
  eapply serves_trans; [apply (tell_serves (OnWritable a (glueing_block so)))|]. eapply serves_trans; [|exact (IH _ _ H)]. apply write_count_serves.
Qed.

Lemma readable_loop_runs limit : forall s l, glue_ok s -> ready s QRead = l -> live s l ->
  runs (readable_loop limit s) (fun s' => serves s s' /\ relisted QRead (drop limit l) s s' /\
    s_user s' = s_user s ++ ((fun a => OnReadable a (block s a)) <$> take limit l)).
Proof.
  assert (Done : forall s l, ready s QRead = l -> serves s s /\ relisted QRead l s s /\ s_user s = s_user s ++ []).
  { intros s l E. rewrite app_nil_r. split; [split; [apply goes_refl|done]|done]. }
  induction limit as [|limit IH]; intros s l G E L; simpl; [by apply runs_ret, Done|]. rewrite E.
  destruct l as [|a rest]; [by apply runs_ret, Done|]. destruct (L a ltac:(by left)) as [so Es]. rewrite Es. cbn [mbind option_bind].
  match goal with |- context [readable_loop limit ?x] => set (s1 := x) end.
  assert (Sv : serves s s1).
  { eapply serves_trans; [apply (dequeue_serves QRead a)|]. eapply serves_trans; [apply (tell_serves (OnReadable a (glueing_block so)))|]. apply read_count_serves. }
  assert (relisted QRead rest s s1) as [R1 R1'] by (exact (ready_dequeue QRead a s rest G E)).
  eapply runs_mono; [eapply (IH s1 rest (proj2 (proj1 Sv) G) R1)|].
  - eapply live_vmap; [exact (vw_vmap _ _ (goes_vw _ _ _ (proj1 Sv)))|]. intros b Hb. apply L. by right.
  - intros s' (Sv' & (R' & R'') & U'). split; [by eapply serves_trans|]. split; [split; [done|intros q D; by rewrite R'', R1']|].
    rewrite U'. change (s_user s1) with (s_user s ++ [OnReadable a (glueing_block so)]). rewrite <- app_assoc. simpl. f_equal. f_equal.
    + unfold block. by rewrite Es.
    + apply list_fmap_ext. intros i x _. by rewrite (proj2 Sv).
Qed.

(** ** One pass *)

Lemma process_rx_safe e s s' : cored s -> process_rx_ready_sockets e s = Some s' -> safe s s'.
Proof.
  intros C. unfold process_rx_ready_sockets. destruct (closed_loop _ s) as [s1|] eqn:E1; [|done]. cbn [mbind option_bind].
  destruct (accepts_loop _ e s1) as [s2|] eqn:E2; [|done]. cbn [mbind option_bind]. intros E3.
  pose proof (serves_safe _ _ C (closed_loop_serves _ _ _ E1)) as S1. pose proof (accepts_loop_safe e _ _ _ (proj1 S1) E2) as S2.
  pose proof (serves_safe _ _ (proj1 S2) (readable_loop_serves _ _ _ E3)) as S3. eapply safe_trans; [exact S1|]. by eapply safe_trans.
Qed.

Lemma process_tx_safe s s' : cored s -> process_tx_ready_sockets s = Some s' -> safe s s'.
Proof. intros C H. apply serves_safe; [done|]. by eapply writable_loop_serves. Qed.

Lemma process_rx_runs e s : glue_ok s -> cored s -> live s (ready s QClosed) -> live s (ready s QAccept) -> live s (ready s QRead) ->
  (forall a, a ∈ ready s QAccept -> attached_all (vmap s) (vq s a)) ->
  runs (process_rx_ready_sockets e s) (fun s' => ready s' QClosed = [] /\ ready s' QAccept = [] /\
    ready s' QRead = drop (Z.to_nat (read_sockets_queue_len s)) (ready s QRead) /\
    (forall a, a ∈ ready s QAccept -> vq s' a = []) /\
    s_user s' = s_user s ++ ((fun a => OnClosure (block s a)) <$> ready s QClosed) ++ all_accepted s (ready s QAccept) ++
      ((fun a => OnReadable a (block s a)) <$> take (Z.to_nat (read_sockets_queue_len s)) (ready s QRead))).
Proof.
  intros G C Lc La Lr P. unfold process_rx_ready_sockets.
  eapply runs_bind; [by apply closed_loop_runs|]. intros s1 (Sv1 & (R1 & R1') & N1 & U1).
  pose proof (serves_safe _ _ C Sv1) as S1. pose proof (vw_vmap _ _ (goes_vw _ _ _ (proj1 Sv1))) as V1.
  assert (Vq1 : forall c, vq s1 c = vq s c) by (intros c; unfold vq; by rewrite V1).
  eapply runs_bind; [eapply (accepts_loop_runs e _ s1 (ready s QAccept) (proj2 S1 G) (proj1 S1))|].
  - by apply R1'.
  - by eapply live_vmap.
  - intros a Ha. rewrite V1, Vq1. by apply P.
  - rewrite R1' by done. lia.
  - intros s2 (S2 & (R2 & R2') & N2 & B2 & U2 & Q2 & O2 & P2).
    eapply runs_mono; [eapply (readable_loop_runs _ s2 (ready s QRead) (proj2 S2 (proj2 S1 G)))|].
    + by rewrite R2', R1'.
    + eapply (live_pcb s); [intros c; by rewrite P2, V1|done].
    + intros s3 (Sv3 & (R3 & R3') & U3). rewrite N2, N1 in R3, U3. split; [by rewrite R3', R2', R1|]. split; [by rewrite R3', R2|].
      split; [done|]. split.
      * intros a Ha. unfold vq. rewrite (vw_vmap _ _ (goes_vw _ _ _ (proj1 Sv3))). by apply Q2.
      * rewrite U3, U2, U1, <- !app_assoc. do 2 f_equal. f_equal.
        -- unfold all_accepted. apply bind_ext_elem. intros a _. unfold accepted. by rewrite Vq1, (proj2 Sv1).
        -- apply list_fmap_ext. intros i x _. by rewrite B2, (proj2 Sv1).
Qed.
End run.
