(* ===== verification/SocketStep.v ===== *)
(** * The steps of sockets

    The operations of an application, of TCP and of the glue as steps, the states
    that they reach, and that each step keeps the invariant and returns. *)

From stdpp Require Import functions.
From S2P Require Import Prelude Pool Tcpcb Mbuf Sockbuf SockState Socket SocketView SocketInv SocketCalls SocketGlue SocketRun.

(** ** Operations *)

(** What the application calls ([OCreate] to [OClose]), what TCP does, and the
    periodic work of the glue. *)
Inductive sop :=
  | OCreate | OBlock (a : addr) (data : option Z) | OBind (a : addr) | OListen (a : addr) (backlog : Z) | OConnect (a : addr)
  | OShutdown (a : addr) (rd wr : bool) | OLinger (a : addr) (l_onoff l_linger : Z) | OClose (fuel : nat) (a : addr)
  | ONewconn (h : addr) | OAbort (b : addr) | OState (a : addr) (st : Z) | OConnected (a : addr) | ODisconnected (a : addr)
  | OCantrcv (a : addr) | ODrop (a : addr) (errno : Z) | OTcpClose (a : addr) | ORead (a : addr) | OWrite (a : addr)
  | ORx | OTx | OTxEmpty (a : addr).

Definition sstep (e : soenv) (op : sop) (s : sostate) : option sostate :=
  match op with
  | OCreate => r ← app_glue_create_socket e SOCK_STREAM s; Some r.2
  | OBlock a data => Some (app_glue_set_glueing_block a data s)
  | OBind a => r ← sobind e a s; Some r.2
  | OListen a backlog => r ← solisten e a backlog s; Some r.2
  | OConnect a => r ← soconnect e a s; Some r.2
  | OShutdown a rd wr => r ← soshutdown e a rd wr s; Some r.2
  | OLinger a l_onoff l_linger => r ← sosetopt_linger l_onoff l_linger a s; Some r.2
  | OClose fuel a => app_glue_close_socket fuel e a s
  | ONewconn h => r ← sonewconn e h SS_ISCONNECTED s; Some r.2
  | OAbort b => abort_newconn e b s
  | OState a st => Some (set_tcb a (Some st) s)
  | OConnected a => soisconnected a s
  | ODisconnected a => soisdisconnected a s
  | OCantrcv a => socantrcvmore a s
  | ODrop a errno => drop_socket a errno s
  | OTcpClose a => close_socket a s
  | ORead a => sorwakeup a s
  | OWrite a => sowwakeup a s
  | ORx => process_rx_ready_sockets e s
  | OTx => process_tx_ready_sockets s
  | OTxEmpty a => app_glue_process_tx_empty a s
  end.

(** The application uses sockets that it holds; TCP those that have its state;
    a connection arrives at a listening socket. *)
Definition allowed (op : sop) (s : sostate) : Prop :=
  let held a := exists so, s_mem s !! a = Some so /\ flag_set (so_state so) SS_NOFDREF = false in
  let tcp a P := exists so st, s_mem s !! a = Some so /\ sototcpcb so = Some (Some st) /\ P so st in
  match op with
  | OCreate | ORx | OTx => True
  | OBlock a _ | OBind a | OListen a _ | OConnect a | OShutdown a _ _ | OLinger a _ _ | OClose _ a | OTxEmpty a => held a
  | ONewconn h => tcp h (fun so st => st = TCPS_LISTEN /\ flag_set (so_options so) SO_ACCEPTCONN = true)
  | OAbort b => exists so h, s_mem s !! b = Some so /\ so_onq so = Some (h, true)
  | OState a st => st <> TCPS_LISTEN /\ tcp a (fun _ _ => True)
  | OConnected a | ODisconnected a | OCantrcv a | ODrop a _ | OTcpClose a | ORead a | OWrite a => tcp a (fun _ _ => True)
  end.

Inductive reachable (n : nat) : sostate -> Prop :=
  | reach_init : reachable n (soinit2 n)
  | reach_step e op s s' : reachable n s -> allowed op s -> sstep e op s = Some s' -> reachable n s'.

(** No list of the glue mentions the next socket. *)
Definition next_unlisted (s : sostate) : Prop := forall a rest q, mempool (socket_cache s) = a :: rest -> a ∉ ready s q.

(** The conditions under which the calls return. *)
Definition fine (op : sop) (s : sostate) : Prop :=
  match op with
  | OCreate => mempool (socket_cache s) <> [] /\ next_unlisted s
  | ONewconn _ => next_unlisted s
  | OClose _ a => forall so, s_mem s !! a = Some so -> flag_set (so_options so) SO_LINGER = false
  | ORx => live s (ready s QClosed ++ ready s QAccept ++ ready s QRead) /\
      forall a so b so2, a ∈ ready s QAccept -> s_mem s !! a = Some so -> b ∈ so_q so -> s_mem s !! b = Some so2 -> is_Some (so_pcb so2)
  | OTx => live s (ready s QWrite)
  | _ => True
  end.

Section step.
Context (objs : list addr) (objs_nodup : NoDup objs).

Abbreviation cored := (cored objs).
Abbreviation safe := (safe objs).

Lemma view_at s a so : s_mem s !! a = Some so -> vmap s !! a = Some (view_of so).
Proof. intros E. apply vmap_lookup. by exists so. Qed.

Lemma runs_snd {A} (o : option (A * sostate)) (P : sostate -> Prop) : runs o (fun r => P r.2) -> runs (r ← o; Some r.2) P.
Proof. intros (x & -> & H). by exists x.2. Qed.

Lemma usrreq_safe e req a s so : cored s -> tcp_req req -> s_mem s !! a = Some so ->
  runs (tcp_usrreq e req a s) (fun r => safe s r.2).
Proof.
  intros C R E. eapply runs_mono; [eapply usrreq_runs; [done|done|by apply view_at]|]. intros r Ef. by eapply effect_safe; [|apply view_at|].
Qed.

Lemma create_safe e s r : cored s -> soget s = Some r -> r.1 <> None -> runs (app_glue_create_socket e SOCK_STREAM s) (fun x => safe s x.2).
Proof.
  intros C Hr N. unfold app_glue_create_socket. eapply runs_bind; [by eapply socreate_runs|]. intros [[er [a|]] s1] [S1 F]; cbn [snd fst] in *; apply runs_ret; [|done].
  cbn [snd]. specialize (F a eq_refl). eapply safe_trans; [exact S1|].
  eapply safe_goes; [apply (goes_upd a _ reporting); by intros ? _|]. eapply core_alter; [apply S1|exact F|done|done|done|].
  destruct (c_loc _ _ _ (proj1 S1) a _ F) as [L P S O (T1 & T2 & T3) A Fl]. constructor; try done.
  split; [done|]. split; [done|]. intros _. right. by eexists.
Qed.

Lemma listen_safe e a n s so : cored s -> s_mem s !! a = Some so -> flag_set (so_state so) SS_NOFDREF = false -> runs (solisten e a n s) (fun r => safe s r.2).
Proof.
  intros C E N. pose proof (view_at s a so E) as H. unfold solisten. rewrite E. cbn [mbind option_bind]. case_match; [by apply runs_ret, safe_refl|].
  destruct (core_tcb objs s a _ C H) as [T|[st T]].
  { rewrite (tcp_usrreq_none e PRU_LISTEN a s _ ltac:(done) H T). cbn [mbind option_bind]. by apply runs_ret, safe_refl. }
  eapply runs_bind; [by eapply tcp_usrreq_listen_runs|]. intros [er s1] A. cbn [fst snd]. destruct A as [[Er G]|[Er G]]; cbn [fst snd] in *.
  - rewrite Er. cbn [negb Z.eqb]. apply runs_ret. cbn [snd]. set (v := view_of so) in *.
    set (q := fun v : view => v <| v_opts := if bool_decide (v_q v = []) then Z.lor (v_opts v) SO_ACCEPTCONN else v_opts v |>
      <| v_qlimit := s16 (Z.min (if n <? 0 then 0 else n) SOMAXCONN) |>).
    eapply safe_goes; [eapply (goes_upd_trans _ _ _ _ a _ q); [exact G|]|].
    + intros o _. unfold q. split; [|by case_bool_decide]. unfold view_of. simpl. by repeat case_bool_decide.
    + cbn [fst snd]. rewrite alter_alter_eq. destruct (c_loc _ _ _ C a _ H) as [L P S O (T1 & T2 & T3) Ab Fl].
      eapply core_alter; [done|exact H|done|done|done|]. constructor; try done.
      * destruct L as (L1 & L2 & L3 & L4 & L5 & L6). unfold vlens. simpl. repeat (split; [done|]). split; [|done].
        unfold SOMAXCONN. rewrite s16_small; destruct (Z.ltb_spec n 0); lia.
      * intros X. simpl in X. destruct (S X) as [S1 S2]. split; [done|]. simpl. case_bool_decide; [by flag_bits|done].
      * left. exact N.
      * split; [done|]. split; [by intros _|]. intros _. right. by eexists.
      * simpl. revert Fl. case_bool_decide; [|done]. flag_bits. done.
  - destruct (Z.eqb_spec er 0); [done|]. cbn [negb]. apply runs_ret. by apply safe_quiet.
Qed.

Lemma soget_fine s : soget s = None -> ~ next_unlisted s.
Proof.
  unfold soget, pool_cache_get, pool_get. destruct (mempool (socket_cache s)) as [|a rest] eqn:P; [done|].
  case_bool_decide as X; [|done]. intros _ U. apply Exists_exists in X as (q & _ & Ha). by apply (U a rest q).
Qed.

Lemma create_step e s : cored s -> runs_or (~ fine OCreate s) (sstep e OCreate s) (safe s).
Proof.
  intros C. simpl. destruct (soget s) as [r|] eqn:R.
  - destruct (decide (r.1 = None)) as [N|N]; [left|right; apply runs_snd; by eapply create_safe].
    unfold app_glue_create_socket, socreate. rewrite R. destruct r as [o s']. simpl in N. subst o. split; [done|].
    destruct (soget_runs s (None, s') R) as [[_ P]|(a & rest & ? & _)]; [|done]. intros [? _]. done.
  - left. unfold app_glue_create_socket, socreate. rewrite R. split; [done|]. intros [_ U]. by eapply soget_fine.
Qed.

Lemma newconn_step e h s : cored s -> allowed (ONewconn h) s -> runs_or (~ fine (ONewconn h) s) (sstep e (ONewconn h) s) (safe s).
Proof.
  intros C (so & st & E & Tc & -> & Ac). simpl. pose proof (view_at s h so E) as H. destruct (c_loc _ _ _ C h _ H) as [_ _ _ _ (_ & Tl & _) _ _].
  destruct (soget s) as [r|] eqn:R.
  - right. apply runs_snd. eapply (sonewconn_safe objs objs_nodup e h _ s _ r C H); [|done|by right; right]. split; [by apply Tl|exact Ac].
  - unfold sonewconn. rewrite E. cbn [mbind option_bind]. case_match; [right; by apply runs_ret, safe_refl|].
    left. rewrite R. split; [done|]. by apply soget_fine.
Qed.

Lemma unlist_serves q a s so : s_mem s !! a = Some so -> runs (unlist q a s) (serves s).
Proof.
  intros E. unfold unlist. rewrite E. cbn [mbind option_bind]. apply runs_ret. case_match; [apply dequeue_serves|]. split; [apply goes_refl|done].
Qed.

Lemma serves_lookup s s' a v : serves s s' -> vmap s !! a = Some v -> vmap s' !! a = Some v /\ exists so, s_mem s' !! a = Some so /\ view_of so = v.
Proof.
  intros [G _] H. rewrite <- (vw_vmap _ _ (goes_vw _ _ _ G)) in H. split; [done|]. by apply vmap_lookup.
Qed.

(** A socket leaves a list before it is closed. *)
Lemma unlist_safe q a s s0 v : safe s s0 -> vmap s0 !! a = Some v -> runs (unlist q a s0) (fun s' => safe s s' /\ vmap s' !! a = Some v).
Proof.
  intros S0 H. pose proof H as H'. vlook H' so E V. eapply runs_mono; [by eapply unlist_serves|]. intros s' Sv. split.
  - eapply safe_trans; [exact S0|]. apply serves_safe; [apply S0|done].
  - by apply (serves_lookup s0).
Qed.

Lemma close_step fuel e a s : cored s -> allowed (OClose fuel a) s -> runs_or (~ fine (OClose fuel a) s) (sstep e (OClose fuel a) s) (safe s).
Proof.
  intros C (so & E & N). simpl. pose proof (view_at s a so E) as H. unfold app_glue_close_socket.
  eapply runs_or_bind; [eapply (unlist_safe QRead a s s); [by apply safe_refl|exact H]|]. intros s1 [S1 H1].
  eapply runs_or_bind; [by eapply (unlist_safe QWrite a s s1)|]. intros s2 [S2 H2].
  pose proof H2 as H2'. vlook H2' so2 E2 V2. rewrite E2. cbn [mbind option_bind].
  eapply (runs_or_bind _ _ _ (fun s3 => safe s s3 /\ exists v, vmap s3 !! a = Some v /\ v_nofd v = false /\ v_opts v = so_options so)).
  { case_match.
    - eapply runs_bind; [eapply (forget_loop_safe objs e a _ s2 _ (proj1 S2) H2); rewrite <- V2; simpl; lia|].
      intros s3 (S3 & v3 & H3 & F1 & F2). apply runs_ret. pose proof (dequeue_serves QAccept a s3) as Sv. split.
      + eapply safe_trans; [exact S2|]. eapply safe_trans; [exact S3|]. apply serves_safe; [apply S3|done].
      + exists v3. rewrite F1, F2. split; [by apply (serves_lookup s3)|done].
    - apply runs_ret. split; [done|]. by exists (view_of so). }
  intros s3 (S3 & v3 & H3 & N3 & O3). eapply runs_or_bind; [by eapply (unlist_safe QClosed a s s3)|]. intros s4 [S4 H4].
  destruct (soclose_safe objs fuel e a s4 v3 (proj1 S4) H4 N3) as [[Bad Lg]|([er s5] & Ok & S5)].
  - left. rewrite Bad. split; [done|]. intros F. specialize (F so E). congruence.
  - right. rewrite Ok. cbn [mbind option_bind]. apply runs_ret. by eapply safe_trans.
Qed.

Lemma live_app s l1 l2 : live s (l1 ++ l2) -> live s l1 /\ live s l2.
Proof. intros L. split; intros a Ha; apply L, elem_of_app; tauto. Qed.

Lemma fine_attached s : cored s -> fine ORx s -> forall a, a ∈ ready s QAccept -> attached_all (vmap s) (vq s a).
Proof.
  intros C [L F] a Ha b Hb. unfold vq in Hb. destruct (vmap s !! a) as [v|] eqn:H; [|by apply elem_of_nil in Hb]. simpl in Hb.
  destruct (proj2 (c_links _ _ _ C b a true)) as (w & Hw & _); [by exists v|]. rewrite Hw. vlook H so E V. vlook Hw so2 E2 V2.
  subst v w. destruct (F a so b so2 Ha E Hb E2) as [p Hp]. exists (inp_ppcb p). simpl. unfold sototcpcb. by rewrite Hp.
Qed.

Lemma rx_step e s : cored s -> glue_ok s -> runs_or (~ fine ORx s) (sstep e ORx s) (safe s).
Proof.
  intros C G. simpl. destruct (process_rx_ready_sockets e s) as [s'|] eqn:E.
  - right. apply runs_ret. by eapply process_rx_safe.
  - left. split; [done|]. intros F. pose proof (fine_attached s C F) as P. destruct F as [L _].
    apply live_app in L as [L1 L2]. apply live_app in L2 as [L2 L3].
    destruct (process_rx_runs objs e s G C L1 L2 L3 P) as (x & Ex & _). congruence.
Qed.

Lemma writable_loop_runs limit : forall s, glue_ok s -> live s (ready s QWrite) -> is_Some (writable_loop limit s).
Proof.
  induction limit as [|limit IH]; intros s G L; simpl; [done|]. destruct (ready s QWrite) as [|a rest] eqn:E; [done|].
  destruct (L a ltac:(by left)) as [so Es]. rewrite Es. cbn [mbind option_bind].
  match goal with |- context [writable_loop limit ?x] => set (s1 := x) end.
  assert (Sv : serves s s1).
  { eapply serves_trans; [apply (dequeue_serves QWrite a)|]. eapply serves_trans; [apply (tell_serves (OnWritable a (glueing_block so)))|]. apply write_count_serves. }
  destruct (ready_dequeue QWrite a s rest G E) as [R1 _]. apply IH; [exact (proj2 (proj1 Sv) G)|]. change (ready s1 QWrite) with (ready (dequeue QWrite a s) QWrite).
  rewrite R1. eapply live_vmap; [exact (vw_vmap _ _ (goes_vw _ _ _ (proj1 Sv)))|]. intros b Hb. apply L. by right.
Qed.

Lemma tx_step e s : cored s -> glue_ok s -> runs_or (~ fine OTx s) (sstep e OTx s) (safe s).
Proof.
  intros C G. simpl. destruct (process_tx_ready_sockets s) as [s'|] eqn:E.
  - right. apply runs_ret. by apply process_tx_safe.
  - left. split; [done|]. intros L. destruct (writable_loop_runs (Z.to_nat (write_sockets_queue_len s)) s G L) as [x Ex].
    unfold process_tx_ready_sockets in E. congruence.
Qed.

Lemma quiet_step s (o : option sostate) : cored s -> runs o (goes s (vw s)) -> runs o (safe s).
Proof. intros C R. eapply runs_mono; [exact R|]. intros s' G. by apply safe_quiet. Qed.

Lemma effect_step s a v (o : option sostate) : cored s -> vmap s !! a = Some v -> runs o (effect a s) -> runs o (safe s).
Proof. intros C H R. eapply runs_mono; [exact R|]. intros s' G. by eapply effect_safe. Qed.

(** The calls of the application that are requests to TCP. *)
Lemma app_step e op s : cored s -> allowed op s ->
  match op with OBlock _ _ | OBind _ | OListen _ _ | OConnect _ | OShutdown _ _ _ | OLinger _ _ _ | OTxEmpty _ => True | _ => False end ->
  runs (sstep e op s) (safe s).
Proof.
  intros C Al Op. destruct op as [|a data|a|a n|a|a rd wr|a on l| | | | | | | | | | | | | |a]; try done; destruct Al as (so & E & N); simpl; pose proof (view_at s a so E) as H.
  - apply runs_ret, safe_quiet; [done|]. apply goes_quiet. by intros ? _.
  - apply runs_snd. by eapply usrreq_safe.
  - apply runs_snd. by eapply listen_safe.
  - apply runs_snd. unfold soconnect. rewrite E. cbn [mbind option_bind]. repeat (case_match; [by apply runs_ret, safe_refl|]). by eapply usrreq_safe.
  - apply runs_snd. unfold soshutdown. eapply (runs_bind _ _ (goes s (vw s))).
    { destruct rd; [eapply sorflush_runs; [exact H|by eapply core_wakes]|apply runs_ret, goes_refl]. }
    intros s1 G1. pose proof (safe_quiet objs s s1 C G1) as S1. destruct wr; [|by apply runs_ret].
    assert (H1 : vmap s1 !! a = Some (view_of so)) by (by rewrite (vw_vmap _ _ (goes_vw _ _ _ G1))). vlook H1 so1 E1 V1.
    eapply runs_mono; [eapply usrreq_safe; [apply S1|done|exact E1]|]. intros r S2. by eapply safe_trans.
  - apply runs_snd. unfold sosetopt_linger. rewrite E. cbn [mbind option_bind]. case_match; [by apply runs_ret, safe_refl|]. apply runs_ret. cbn [snd].
    set (g := fun v : view => v <| v_opts := if negb (on =? 0) then Z.lor (v_opts v) SO_LINGER else flag_clear (v_opts v) SO_LINGER |>).
    eapply safe_goes; [apply (goes_upd a _ g); by intros ? _|]. destruct (c_loc _ _ _ C a _ H) as [L P S O T Ab Fl].
    eapply core_alter; [done|exact H|done|done|done|]. constructor; try done.
    + intros X. destruct (S X) as [S1 S2]. split; [done|]. simpl in *. revert S2. case_match; unfold flag_clear; flag_bits; done.
    + simpl in *. revert Fl. case_match; unfold flag_clear; flag_bits; done.
  - apply quiet_step; [done|]. by eapply enqueue_runs.
Qed.

(** The events of TCP. *)
Lemma tcp_step e op s : cored s -> allowed op s ->
  match op with OState _ _ | OConnected _ | ODisconnected _ | OCantrcv _ | ODrop _ _ | OTcpClose _ | ORead _ | OWrite _ | OAbort _ => True | _ => False end ->
  runs (sstep e op s) (safe s).
Proof.
  intros C Al Op. destruct op as [| | | | | | | | |b|a st|a|a|a|a errno|a|a|a| | |]; try done; simpl in *.
  1: { destruct Al as (so & h & E & Q). by eapply abort_newconn_safe; [|apply view_at|]. }
  1: { destruct Al as (Nl & so & st0 & E & Tc & _). pose proof (view_at s a so E) as H. apply runs_ret. eapply tgoes_safe; [done|exact H|].
       eapply (tgoes_state a s _ false st _ H Nl). by eapply set_tcb_runs. }
  all: destruct Al as (so & st0 & E & Tc & _); pose proof (view_at s a so E) as H; pose proof (core_wakes objs s a _ C H) as W.
  - by eapply soisconnected_safe.
  - eapply runs_mono; [by eapply soisdisconnected_runs|]. intros s' G. eapply safe_goes; [exact G|].
    destruct (c_loc _ _ _ C a _ H) as [L P S O (T1 & T2 & T3) Ab Fl].
    eapply core_alter; [done|exact H|done|done|done|]. constructor; try done. split; [done|]. split; [done|]. intros _. by left.
  - apply quiet_step; [done|]. by eapply socantrcvmore_runs.
  - by eapply drop_safe.
  - by eapply close_safe.
  - apply quiet_step; [done|]. by eapply sorwakeup_runs.
  - apply quiet_step; [done|]. by eapply sowwakeup_runs.
Qed.

Lemma step_runs e op s : cored s -> glue_ok s -> allowed op s -> runs_or (~ fine op s) (sstep e op s) (safe s).
Proof.
  intros C G Al. destruct op; try (right; by apply app_step); try (right; by apply tcp_step).
  - by apply create_step.
  - by apply close_step.
  - by apply newconn_step.
  - by apply rx_step.
  - by apply tx_step.
Qed.
End step.
