(* ===== verification/SocketProps.v ===== *)
(** * Sockets: what holds of every run, and what the glue delivers

    The theorems on the sockets: consistency of every reachable state, the bound
    on the backlog, that the calls return, what closing a listening socket frees
    and what one pass of the glue tells the application; and the runs on which
    the port fails. *)

From stdpp Require Import functions.
From S2P Require Import Prelude Pool Tcpcb Mbuf Sockbuf SockState Socket SocketView SocketInv SocketCalls SocketGlue SocketRun SocketStep.

(** ** Consistency *)

(** Every object of the cache is free or a socket, never both; back pointers,
    queues and counters agree; a socket that is not held by the application is
    kept by TCP or waits to be accepted; only a socket that the application
    listens on has connections waiting; the flags of the glue tell its lists. *)
Record sockets_wf (n : nat) (s : sostate) : Prop := mkWf {
  w_pool : mempool (socket_cache s) ++ elements (dom (s_mem s)) ≡ₚ mempool (pool_init n);
  w_queues : forall b so h q, s_mem s !! b = Some so ->
    so_onq so = Some (h, q) <-> exists ho, s_mem s !! h = Some ho /\ b ∈ queue q ho;
  w_head : forall b so, s_mem s !! b = Some so -> so_head so = fst <$> so_onq so;
  w_lens : forall a so, s_mem s !! a = Some so ->
    so_q0len so = Z.of_nat (length (so_q0 so)) /\ so_qlen so = Z.of_nat (length (so_q so)) /\ NoDup (so_q0 so) /\ NoDup (so_q so);
  w_owned : forall a so, s_mem s !! a = Some so ->
    flag_set (so_state so) SS_NOFDREF = false \/ is_Some (so_pcb so) \/ exists h, so_onq so = Some (h, true);
  w_listens : forall a so, s_mem s !! a = Some so -> so_q0 so ++ so_q so <> [] ->
    flag_set (so_state so) SS_NOFDREF = false /\ flag_set (so_options so) SO_ACCEPTCONN = true;
  w_glue : glue_ok s
}.

Lemma dom_vmap s : dom (vmap s) = dom (s_mem s).
Proof. unfold vmap. by rewrite dom_fmap_L. Qed.

Lemma cored_wf n s : cored (mempool (pool_init n)) s -> glue_ok s -> sockets_wf n s.
Proof.
  intros C G. assert (Lo : forall a so, s_mem s !! a = Some so -> vloc (view_of so)) by (intros a so E; eapply c_loc; [exact C|by apply view_at]).
  constructor; [| | | | | |done].
  - rewrite <- dom_vmap. apply C.
  - intros b so h q E. pose proof (c_links _ _ _ C b h q) as L. unfold on_queue, has_conn in L. rewrite (view_at s b so E) in L. split.
    + intros Q. destruct (proj1 L) as (w & Hw & Hb); [by eexists|]. vlook Hw ho Eh Vh. subst w. exists ho. split; [done|]. by destruct q.
    + intros (ho & Eh & Hb). destruct (proj2 L) as (w & [= <-] & Hq); [|exact Hq]. exists (view_of ho). split; [by apply view_at|]. by destruct q.
  - intros b so E. pose proof (k_place _ (Lo b so E)) as P. unfold vplace in P. simpl in P. destruct (so_onq so) as [[h q]|]; [apply P|done].
  - intros a so E. destruct (k_lens _ (Lo a so E)) as (A & B & _ & _ & N0 & N1). done.
  - intros a so E. destruct (k_owned _ (Lo a so E)) as [O|[O|O]]; [by left| |by right; right]. right. left. simpl in O. unfold sototcpcb in O.
    destruct (so_pcb so); [by eexists|by destruct O].
  - intros a so E X. exact (k_listens _ (Lo a so E) X).
Qed.

Lemma reachable_cored n s : reachable n s -> cored (mempool (pool_init n)) s /\ glue_ok s.
Proof.
  induction 1 as [|e op s s' R [C G] Al E].
  - split.
    + constructor; [done| |].
      * intros b h q. unfold on_queue, has_conn. split; by intros (w & ? & _).
      * simpl. by rewrite app_nil_r.
    + intros q. split; [apply NoDup_nil_2|done].
  - destruct (step_runs _ (pool_init_nodup n) e op s C G Al) as [[? _]|(x & Ex & C' & G')]; [congruence|].
    assert (x = s') as -> by congruence. auto.
Qed.

(** C6. In every state that the application, TCP and the glue reach together, in
    whatever order they act, the sockets are consistent ([sockets_wf]): no socket
    is lost or freed twice, and queues, back pointers, counters and flags agree. *)
Theorem sockets_safe n s : reachable n s -> sockets_wf n s.
Proof. intros R. destruct (reachable_cored n s R) as [C G]. by apply cored_wf. Qed.

(** C25. A listening socket never has more than 3 * SOMAXCONN / 2 + 1 connections on
    its two queues, so that the 16-bit counters of the queues do not overflow, and
    its limit stays between 0 and SOMAXCONN. *)
Theorem backlog_bounded n s a so : reachable n s -> s_mem s !! a = Some so ->
  0 <= so_q0len so /\ 0 <= so_qlen so /\ so_q0len so + so_qlen so <= 3 * SOMAXCONN / 2 + 1 /\ 0 <= so_qlimit so <= SOMAXCONN.
Proof.
  intros R E. destruct (reachable_cored n s R) as [C _]. destruct (k_lens _ (c_loc _ _ _ C a _ (view_at s a so E))) as (A & B & S & Q & _).
  simpl in *. split; [lia|]. split; [lia|]. split; [exact S|exact Q].
Qed.

(** C8. Every call of the application, every event of TCP and every pass of the glue
    returns and leaves the sockets consistent, in any reachable state, if a new
    socket is not still on a list of the glue, a socket that is closed does not
    linger, and the listed sockets exist and have their control blocks. *)
Theorem socket_calls_return n e op s : reachable n s -> allowed op s -> fine op s ->
  exists s', sstep e op s = Some s' /\ sockets_wf n s'.
Proof.
  intros R Al F. destruct (reachable_cored n s R) as [C G].
  destruct (step_runs _ (pool_init_nodup n) e op s C G Al) as [[_ N]|(x & Ex & C' & G')]; [done|].
  exists x. split; [done|]. apply cored_wf; auto.
Qed.

(** C23. Closing a listening socket returns, and frees it together with all
    connections on its two queues, finished or not: their objects go back to the
    pool, in this order, and no other socket loses or gains an owner, a queue or a
    place on one. *)
Theorem soclose_drains n fuel e s a so : reachable n s -> s_mem s !! a = Some so ->
  flag_set (so_state so) SS_NOFDREF = false -> flag_set (so_options so) SO_ACCEPTCONN = true ->
  flag_set (so_options so) SO_LINGER = false -> sototcpcb so = Some (Some TCPS_LISTEN) ->
  exists error s', soclose fuel e a s = Some (error, s') /\
    mempool (socket_cache s') = mempool (socket_cache s) ++ (so_q0 so ++ so_q so) ++ [a] /\
    (forall b, b ∈ a :: so_q0 so ++ so_q so -> s_mem s' !! b = None) /\
    (forall b, b ∉ a :: so_q0 so ++ so_q so -> view_of <$> s_mem s' !! b = view_of <$> s_mem s !! b).
Proof.
  intros R E N Ac Lg T. destruct (reachable_cored n s R) as [C _].
  destruct (soclose_listener _ fuel e a s _ C (view_at s a so E) N Ac Lg ltac:(by right)) as ([er s'] & Ex & Gone & Kept & Pl). cbn [snd] in *.
  exists er, s'. split; [done|]. split; [exact Pl|]. split.
  - intros b Hb. specialize (Gone b Hb). unfold vmap in Gone. rewrite lookup_fmap in Gone. by destruct (s_mem s' !! b).
  - intros b Hb. specialize (Kept b Hb). unfold vmap in Kept. by rewrite !lookup_fmap in Kept.
Qed.

(** ** Delivery *)

(** The connections that wait to be accepted on [a], and what the application is
    told of them. *)
Definition pending (s : sostate) (a : addr) : list addr := default [] (so_q <$> s_mem s !! a).

Definition accept_notices (s : sostate) (a : addr) : list notice := (fun b => OnAccepted b (block s a)) <$> pending s a.

Lemma vq_pending s a : vq s a = pending s a.
Proof. unfold vq, pending, vmap. rewrite lookup_fmap. by destruct (s_mem s !! a). Qed.

(** C24. One pass of the glue over the lists returns and tells the application, in
    this order, of every closed socket, of every connection that waits on a listed
    listening socket, and of the readable sockets that the counter covers, each
    once and with the data that the application attached; it leaves nothing on
    the first two lists, and no connection waiting on a listed socket.  The listed
    sockets are live and the waiting connections have control blocks ([fine]); see
    [freed_socket_listed] and [accept_after_reset_crashes] for states in which they
    do not. *)
Theorem process_rx_delivers n e s : reachable n s -> fine ORx s ->
  exists s', process_rx_ready_sockets e s = Some s' /\ ready s' QClosed = [] /\ ready s' QAccept = [] /\
    ready s' QRead = drop (Z.to_nat (read_sockets_queue_len s)) (ready s QRead) /\
    (forall a, a ∈ ready s QAccept -> pending s' a = []) /\
    s_user s' = s_user s ++ ((fun a => OnClosure (block s a)) <$> ready s QClosed) ++ (a ← ready s QAccept; accept_notices s a) ++
      ((fun a => OnReadable a (block s a)) <$> take (Z.to_nat (read_sockets_queue_len s)) (ready s QRead)).
Proof.
  intros R F. destruct (reachable_cored n s R) as [C G]. pose proof (fine_attached _ s C F) as P. destruct F as [L _].
  apply live_app in L as [L1 L2]. apply live_app in L2 as [L2 L3].
  destruct (process_rx_runs _ e s G C L1 L2 L3 P) as (s' & E & Rc & Ra & Rr & Q & U). exists s'.
  split; [done|]. split; [done|]. split; [done|]. split; [done|]. split; [intros a Ha; rewrite <- vq_pending; by apply Q|].
  rewrite U. do 3 f_equal. apply bind_ext_elem. intros a _. unfold accept_notices, accepted. by rewrite vq_pending.
Qed.

(** ** Runs *)

Definition allowedb (op : sop) (s : sostate) : bool :=
  let held a := match s_mem s !! a with Some so => negb (flag_set (so_state so) SS_NOFDREF) | None => false end in
  let tcp a P := match s_mem s !! a with
                 | Some so => match sototcpcb so with Some (Some st) => P so st | _ => false end
                 | None => false end in
  match op with
  | OCreate | ORx | OTx => true
  | OBlock a _ | OBind a | OListen a _ | OConnect a | OShutdown a _ _ | OLinger a _ _ | OClose _ a | OTxEmpty a => held a
  | ONewconn h => tcp h (fun so st => (st =? TCPS_LISTEN) && flag_set (so_options so) SO_ACCEPTCONN)
  | OAbort b => match s_mem s !! b with Some so => match so_onq so with Some (_, true) => true | _ => false end | None => false end
  | OState a st => negb (st =? TCPS_LISTEN) && tcp a (fun _ _ => true)
  | OConnected a | ODisconnected a | OCantrcv a | ODrop a _ | OTcpClose a | ORead a | OWrite a => tcp a (fun _ _ => true)
  end.

Lemma tcpb_spec s a (P : socket -> Z -> bool) :
  match s_mem s !! a with Some so => match sototcpcb so with Some (Some st) => P so st | _ => false end | None => false end = true ->
  exists so st, s_mem s !! a = Some so /\ sototcpcb so = Some (Some st) /\ P so st = true.
Proof. intros H. destruct (s_mem s !! a) as [so|]; [|done]. destruct (sototcpcb so) as [[st|]|] eqn:T; try done. by exists so, st. Qed.

Lemma heldb_spec s a :
  match s_mem s !! a with Some so => negb (flag_set (so_state so) SS_NOFDREF) | None => false end = true ->
  exists so, s_mem s !! a = Some so /\ flag_set (so_state so) SS_NOFDREF = false.
Proof. intros H. destruct (s_mem s !! a) as [so|]; [|done]. exists so. by apply negb_true_iff in H. Qed.

Lemma allowedb_allowed op s : allowedb op s = true -> allowed op s.
Proof.
  destruct op as [| | | | | | | |h|b| | | | | | | | | | |]; simpl; try done; try apply heldb_spec;
    try (intros (so & st & E & T & _)%tcpb_spec; by exists so, st).
  - intros (so & st & E & T & [->%Z.eqb_eq A]%andb_true_iff)%tcpb_spec. by exists so, TCPS_LISTEN.
  - intros H. destruct (s_mem s !! b) as [so|]; [|done]. destruct (so_onq so) as [[h [|]]|] eqn:Q; try done. by exists so, h.
  - intros [N%negb_true_iff%Z.eqb_neq (so & st' & E & T & _)%tcpb_spec]%andb_true_iff. split; [done|]. by exists so, st'.
Qed.

Fixpoint srun (e : soenv) (ops : list sop) (s : sostate) : option sostate :=
  match ops with
  | [] => Some s
  | op :: ops => if allowedb op s then s' ← sstep e op s; srun e ops s' else None
  end.

Lemma srun_reachable n e ops : forall s s', reachable n s -> srun e ops s = Some s' -> reachable n s'.
Proof.
  induction ops as [|op ops IH]; intros s s' R; simpl; [by intros [= <-]|]. destruct (allowedb op s) eqn:A; [|done].
  destruct (sstep e op s) as [s1|] eqn:E; [|done]. cbn [mbind option_bind]. apply IH. eapply reach_step; [done|by apply allowedb_allowed|exact E].
Qed.

Definition sok {A} (o : option A) : bool := match o with Some _ => true | None => false end.

Definition exe : soenv := mkSoenv 262144 233016 32768 32768 0 true (0, 1024) 0 true 0.

Definition after (n : nat) (ops : list sop) : sostate := default (soinit2 n) (srun exe ops (soinit2 n)).

Lemma after_reachable n ops : sok (srun exe ops (soinit2 n)) = true -> reachable n (after n ops).
Proof.
  intros H. unfold after. destruct (srun exe ops (soinit2 n)) as [s|] eqn:E; [|done].
  exact (srun_reachable n exe ops _ _ (reach_init n) E).
Qed.

(** ** Where the port fails *)

(** A socket that the application creates and closes is freed while it is on
    the list of closed sockets: creating the next one, or the next pass over the
    lists, then uses the freed object. *)
Theorem freed_socket_listed : exists s, srun exe [OCreate; OClose 1 1] (soinit2 1) = Some s /\
  s_mem s !! 1%positive = None /\ mempool (socket_cache s) = [1%positive] /\ ready s QClosed = [1%positive] /\
  sstep exe OCreate s = None /\ sstep exe ORx s = None.
Proof. eexists. split; [vm_compute; reflexivity|]. by vm_compute. Qed.

(** The state after connecting with the option to linger. *)
Definition lingering : sostate :=
  after 1 [OCreate; OConnect 1; OState 1 TCPS_ESTABLISHED; OConnected 1; OLinger 1 1 5].

Lemma linger_stuck fuel a s so : s_mem s !! a = Some so -> flag_set (so_state so) SS_ISCONNECTED = true -> linger fuel a s = None.
Proof. intros E C. induction fuel as [|fuel IH]; [done|]. simpl. rewrite E. cbn [mbind option_bind]. by rewrite C. Qed.

(** Closing a connected socket that lingers, up to the wait. *)
Lemma soclose_waits fuel e a s so s2 so2 : s_mem s !! a = Some so -> flag_set (so_options so) SO_ACCEPTCONN = false ->
  is_Some (so_pcb so) -> flag_set (so_state so) SS_ISCONNECTED = true -> flag_set (so_state so) SS_ISDISCONNECTING = false ->
  sodisconnect e a s = Some (0, s2) -> s_mem s2 !! a = Some so2 -> flag_set (so_options so2) SO_LINGER = true ->
  flag_set (so_state so2) SS_NBIO = false -> flag_set (so_state so2) SS_ISCONNECTED = true -> soclose fuel e a s = None.
Proof.
  intros E Ac Pc Co Di D E2 Lg Nb Co2. unfold soclose. rewrite E. cbn [mbind option_bind]. rewrite Ac. cbn [mbind option_bind]. rewrite E. cbn [mbind option_bind].
  rewrite bool_decide_eq_true_2, Co, Di, D by done. cbn [mbind option_bind andb negb fst snd Z.eqb]. rewrite E2. cbn [mbind option_bind].
  rewrite Lg, Nb, andb_false_r, (linger_stuck fuel a s2 so2) by done. done.
Qed.

(** Closing a connected socket with SO_LINGER does not return, however long it
    waits: the function that should wait returns at once and without an error, and
    nothing else runs that could end the connection. *)
Theorem linger_close_hangs : reachable 1 lingering /\ allowed (OClose 0 1) lingering /\
  forall fuel, soclose fuel exe 1 lingering = None.
Proof.
  split; [apply after_reachable; by vm_compute|]. split; [apply allowedb_allowed; by vm_compute|]. intros fuel.
  eapply (soclose_waits fuel exe 1 lingering); try (vm_compute; reflexivity). vm_compute. by eexists.
Qed.

(** A connection that is reset before it is accepted has no control block when
    [user_on_accept] reads its address. *)
Lemma accept_after_reset_crashes :
  let s := after 2 [OCreate; OListen 1 5; ONewconn 1; OState 2 TCPS_ESTABLISHED; ODrop 2 54] in
  reachable 2 s /\ sstep exe ORx s = None.
Proof. split; [apply after_reachable; by vm_compute|by vm_compute]. Qed.

(** The connections that wait on a listening socket when it is closed are accepted
    on behalf of the application, which never hears of them: they stay. *)
Lemma close_listener_leaks :
  let s := after 2 [OCreate; OListen 1 5; ONewconn 1; OState 2 TCPS_ESTABLISHED; OClose 1 1] in
  reachable 2 s /\ s_user s = [] /\ exists so, s_mem s !! 2%positive = Some so /\ flag_set (so_state so) SS_NOFDREF = false.
Proof. split; [apply after_reachable; by vm_compute|]. vm_compute. split; [done|]. by eexists. Qed.

(** ** Witnesses *)

Definition exs_backlog : sostate :=
  after 4 [OCreate; OBlock 1 (Some 7); OListen 1 5; ONewconn 1; OState 2 TCPS_ESTABLISHED; ONewconn 1; OState 3 TCPS_ESTABLISHED].

Lemma exs_backlog_reachable : reachable 4 exs_backlog.
Proof. apply after_reachable. by vm_compute. Qed.

Lemma sockets_safe_witness : reachable 4 exs_backlog /\ sockets_wf 4 exs_backlog /\ pending exs_backlog 1 = [2; 3]%positive.
Proof.
  split; [exact exs_backlog_reachable|]. split; [exact (sockets_safe 4 exs_backlog exs_backlog_reachable)|]. by vm_compute.
Defined.

Lemma backlog_bounded_witness : exists so, s_mem exs_backlog !! 1%positive = Some so /\ so_qlen so = 2 /\
  0 <= so_q0len so /\ 0 <= so_qlen so /\ so_q0len so + so_qlen so <= 3 * SOMAXCONN / 2 + 1 /\ 0 <= so_qlimit so <= SOMAXCONN.
Proof.
  destruct (s_mem exs_backlog !! 1%positive) as [so|] eqn:E; [|exfalso; vm_compute in E; discriminate]. exists so. split; [reflexivity|].
  split; [|exact (backlog_bounded 4 exs_backlog 1 so exs_backlog_reachable E)]. vm_compute in E. injection E as <-. reflexivity.
Defined.

Lemma exs_rx_fine : fine ORx exs_backlog.
Proof.
  split.
  - intros a Ha. assert (a = 1%positive) as ->; [|vm_compute; by eexists]. revert Ha. change (a ∈ [1%positive] -> a = 1%positive). by intros ?%list_elem_of_singleton.
  - intros a so b so2 Ha. assert (a = 1%positive) as ->; [revert Ha; change (a ∈ [1%positive] -> a = 1%positive); by intros ?%list_elem_of_singleton|].
    intros E Hb E2. assert (Hb' : b ∈ [2; 3]%positive) by (vm_compute in E; injection E as <-; exact Hb).
    apply elem_of_cons in Hb' as [->|Hb'%list_elem_of_singleton]; [|subst b]; vm_compute in E2; injection E2 as <-; by eexists.
Qed.

Lemma socket_calls_return_witness : fine ORx exs_backlog /\ exists s', sstep exe ORx exs_backlog = Some s' /\ sockets_wf 4 s'.
Proof. split; [exact exs_rx_fine|]. exact (socket_calls_return 4 exe ORx exs_backlog exs_backlog_reachable I exs_rx_fine). Defined.

Lemma soclose_drains_witness : exists error s', soclose 1 exe 1 exs_backlog = Some (error, s') /\ mempool (socket_cache s') = [4; 2; 3; 1]%positive.
Proof.
  destruct (s_mem exs_backlog !! 1%positive) as [so|] eqn:E; [|exfalso; vm_compute in E; discriminate].
  destruct (soclose_drains 4 1 exe exs_backlog 1 so exs_backlog_reachable E) as (er & s' & Ex & P & _);
    try (vm_compute in E; injection E as <-; reflexivity).
  exists er, s'. split; [exact Ex|]. rewrite P. vm_compute in E. injection E as <-. reflexivity.
Defined.

Lemma process_rx_delivers_witness : exists s', process_rx_ready_sockets exe exs_backlog = Some s' /\
  s_user s' = [OnAccepted 2 (Some 7); OnAccepted 3 (Some 7)] /\ pending s' 1 = [].
Proof.
  destruct (process_rx_delivers 4 exe exs_backlog exs_backlog_reachable exs_rx_fine) as (s' & Ex & _ & _ & _ & Q & U).
  exists s'. split; [exact Ex|]. split; [rewrite U; reflexivity|]. apply Q. vm_compute. left.
Defined.
