(* ===== verification/InPcb.v ===== *)
(** * Protocol control blocks

    The table of control blocks of a protocol (src/netbsd/netinet/in_pcb.c): its
    queue and its hash chains, binding, connecting, and the lookups that find the
    control block of a packet; and the selection of anonymous ports
    (src/netbsd/netinet/rfc6056.c).

    Addresses and ports are in network byte order.  A control block knows the
    chains that it is linked on, as its list entries do.  [None] as a result of an
    operation is the use of a control block that is not there or is not linked.
    There are no vestigial connections. *)

From stdpp Require Import functions.
From S2P Require Import Prelude Pool IpReass IpId Ip IpOutput.

Definition INP_ATTACHED : Z := 0.
Definition INP_BOUND : Z := 1.
Definition INP_CONNECTED : Z := 2.
Definition INP_LOWPORT : Z := 0x20.
Definition INP_ANONPORT : Z := 0x40.
Definition SO_REUSEADDR : Z := 0x0004.
Definition SO_REUSEPORT : Z := 0x0200.
Definition SOCK_STREAM : Z := 1.
Definition SOCK_DGRAM : Z := 2.
Definition EPFNOSUPPORT : Z := 46.
Definition EADDRINUSE : Z := 48.
Definition RFC6056_ALGO_DEFAULT : Z := 0xffff.
Definition RFC6056_ALGO_BSD : Z := 0.
Definition NALGOS : Z := 4.

Definition ntohs (z : Z) : Z := htons z.

Definition ntohl (z : Z) : Z :=
  Z.land z 0xff * 2 ^ 24 + Z.land (Z.shiftr z 8) 0xff * 2 ^ 16 + Z.land (Z.shiftr z 16) 0xff * 2 ^ 8 + Z.land (Z.shiftr z 24) 0xff.

(** The table of a state: those of the bound and of the connected blocks. *)
Inductive chain := BindHash | ConnectHash.

#[export] Instance chain_eq_dec : EqDecision chain.
Proof. solve_decision. Defined.

(** [inp_hash] and [inp_lhash] are the chains of the two list entries; the options
    and the type are those of the socket. *)
Record inpcb := mkInpcb {
  inp_laddr : Z; inp_lport : Z; inp_faddr : Z; inp_fport : Z; inp_state : Z; inp_flags : Z;
  inp_rfc6056algo : Z; inp_bindportonsend : bool; inp_so_options : Z; inp_so_type : Z;
  inp_hash : option (chain * Z); inp_lhash : option Z
}.

#[export] Instance eta_inpcb : EtaRecord inpcb :=
  fun r => mkInpcb (inp_laddr r) (inp_lport r) (inp_faddr r) (inp_fport r) (inp_state r) (inp_flags r) (inp_rfc6056algo r)
    (inp_bindportonsend r) (inp_so_options r) (inp_so_type r) (inp_hash r) (inp_lhash r).

Record inpcbtable := mkTable {
  pcbs : gmap addr inpcb; inpcb_pool : pool; inpt_queue : list addr;
  inpt_porthashtbl : Z -> list addr; inpt_hashtbl : chain * Z -> list addr;
  inpt_lastlow : Z; inpt_lastport : Z; inet4_rfc6056algo : Z;
  rfc6056_next_ephemeral : Z * bool * Z -> Z
}.

#[export] Instance eta_inpcbtable : EtaRecord inpcbtable :=
  fun r => mkTable (pcbs r) (inpcb_pool r) (inpt_queue r) (inpt_porthashtbl r) (inpt_hashtbl r) (inpt_lastlow r) (inpt_lastport r)
    (inet4_rfc6056algo r) (rfc6056_next_ephemeral r).

(** What surrounds the table. *)
Record penv := mkPenv {
  inpt_porthash : Z; inpt_bindhash : Z; inpt_connecthash : Z;   (* the masks of the tables *)
  anonportmin : Z; anonportmax : Z; lowportmin : Z; lowportmax : Z;
  pe_ifaddrs : list Z;              (* in_ifaddrhead *)
  pe_broadaddr : option Z;          (* of the first interface that broadcasts *)
  pe_ifwithaddr : Z -> bool;        (* ifa_ifwithaddr *)
  pe_selectsrc : Z -> Z * option Z; (* in_selectsrc: error and address *)
  cprng_fast32 : nat -> Z
}.

Definition INPCBHASH_PORT (e : penv) (lport : Z) : Z := Z.land (ntohs lport) (inpt_porthash e).

Definition INPCBHASH_BIND (e : penv) (laddr lport : Z) : Z := Z.land (u32 (ntohl laddr + ntohs lport)) (inpt_bindhash e).

Definition INPCBHASH_CONNECT (e : penv) (faddr fport laddr lport : Z) : Z :=
  Z.land (u32 (u32 (ntohl faddr + ntohs fport) + u32 (ntohl laddr + ntohs lport))) (inpt_connecthash e).

Definition upd_pcb (a : addr) (f : inpcb -> inpcb) (p : inpcbtable) : inpcbtable := p <| pcbs := alter f a (pcbs p) |>.

Definition list_remove (a : addr) (l : list addr) : list addr := filter (fun b => b <> a) l.

(** ** Chains *)

Definition hash_remove (a : addr) (p : inpcbtable) : option inpcbtable :=
  inp ← pcbs p !! a;
  k ← inp_hash inp;
  Some ((upd_pcb a (fun inp => inp <| inp_hash := None |>) p) <| inpt_hashtbl := <[k := list_remove a (inpt_hashtbl p k)]> (inpt_hashtbl p) |>).

Definition hash_insert (k : chain * Z) (a : addr) (p : inpcbtable) : inpcbtable :=
  (upd_pcb a (fun inp => inp <| inp_hash := Some k |>) p) <| inpt_hashtbl := <[k := a :: inpt_hashtbl p k]> (inpt_hashtbl p) |>.

Definition lhash_remove (a : addr) (p : inpcbtable) : option inpcbtable :=
  inp ← pcbs p !! a;
  i ← inp_lhash inp;
  Some ((upd_pcb a (fun inp => inp <| inp_lhash := None |>) p) <| inpt_porthashtbl := <[i := list_remove a (inpt_porthashtbl p i)]> (inpt_porthashtbl p) |>).

Definition lhash_insert (i : Z) (a : addr) (p : inpcbtable) : inpcbtable :=
  (upd_pcb a (fun inp => inp <| inp_lhash := Some i |>) p) <| inpt_porthashtbl := <[i := a :: inpt_porthashtbl p i]> (inpt_porthashtbl p) |>.

Definition in_pcbstate (e : penv) (a : addr) (state : Z) (p : inpcbtable) : option inpcbtable :=
  inp ← pcbs p !! a;
  p ← (if INP_ATTACHED <? inp_state inp then hash_remove a p else Some p);
  let p :=
    if state =? INP_BOUND then hash_insert (BindHash, INPCBHASH_BIND e (inp_laddr inp) (inp_lport inp)) a p
    else if state =? INP_CONNECTED
    then hash_insert (ConnectHash, INPCBHASH_CONNECT e (inp_faddr inp) (inp_fport inp) (inp_laddr inp) (inp_lport inp)) a p
    else p in
  Some (upd_pcb a (fun inp => inp <| inp_state := state |>) p).

(** ** Creation and release *)

Definition ENOBUFS : Z := 55.

(** [None] inside is the failure of the allocation. *)
Definition in_pcballoc (e : penv) (so_options so_type : Z) (p : inpcbtable) : option (option addr * inpcbtable) :=
  match pool_get (inpcb_pool p) with
  | None => Some (None, p)
  | Some (a, pl) =>
      let inp := mkInpcb 0 0 0 0 0 0 RFC6056_ALGO_DEFAULT false so_options so_type None None in
      let p := p <| inpcb_pool := pl |> <| pcbs := <[a := inp]> (pcbs p) |> <| inpt_queue := a :: inpt_queue p |> in
      p ← in_pcbstate e a INP_ATTACHED (lhash_insert (INPCBHASH_PORT e 0) a p);
      Some (Some a, p)
  end.

(** The part of [in_pcbdetach] that concerns the table. *)
Definition in_pcbdetach (e : penv) (a : addr) (p : inpcbtable) : option inpcbtable :=
  p ← in_pcbstate e a INP_ATTACHED p;
  p ← lhash_remove a p;
  Some (p <| inpt_queue := list_remove a (inpt_queue p) |> <| pcbs := delete a (pcbs p) |> <| inpcb_pool := pool_put (inpcb_pool p) a |>).

(** ** Lookups *)

(** How far a control block is from an exact match; [None] if it does not match. *)
Definition wildcard (inp : inpcb) (laddr lport : Z) : option Z :=
  if negb (inp_lport inp =? lport) then None
  else
    let w := if negb (in_nullhost (inp_faddr inp)) then 1 else 0 in
    if in_nullhost (inp_laddr inp) then Some (if negb (in_nullhost laddr) then w + 1 else w)
    else if in_nullhost laddr then Some (w + 1)
    else if negb (in_hosteq (inp_laddr inp) laddr) then None else Some w.

Fixpoint port_loop (p : inpcbtable) (laddr lport : Z) (wild : bool) (l : list addr) (best : option addr * Z) : option (option addr * Z) :=
  match l with
  | [] => Some best
  | a :: l =>
      inp ← pcbs p !! a;
      match wildcard inp laddr lport with
      | None => port_loop p laddr lport wild l best
      | Some w =>
          if negb (w =? 0) && negb wild then port_loop p laddr lport wild l best
          else if w <? best.2 then
            if w =? 0 then Some (Some a, w) else port_loop p laddr lport wild l (Some a, w)
          else port_loop p laddr lport wild l best
      end
  end.

Definition in_pcblookup_port (e : penv) (p : inpcbtable) (laddr lport : Z) (lookup_wildcard : bool) : option (option addr) :=
  r ← port_loop p laddr lport lookup_wildcard (inpt_porthashtbl p (INPCBHASH_PORT e lport)) (None, 3);
  Some r.1.

Fixpoint find_pcb (P : inpcb -> bool) (p : inpcbtable) (l : list addr) : option (option addr) :=
  match l with
  | [] => Some None
  | a :: l => inp ← pcbs p !! a; if P inp then Some (Some a) else find_pcb P p l
  end.

(** The control block is moved to the head of its chain. *)
Definition to_front (k : chain * Z) (a : addr) (p : inpcbtable) : option inpcbtable :=
  if bool_decide (head (inpt_hashtbl p k) = Some a) then Some p
  else p ← hash_remove a p; Some (hash_insert k a p).

Definition lookup_in (k : chain * Z) (P : inpcb -> bool) (p : inpcbtable) : option (option addr * inpcbtable) :=
  r ← find_pcb P p (inpt_hashtbl p k);
  match r with
  | Some a => p ← to_front k a p; Some (Some a, p)
  | None => Some (None, p)
  end.

Definition same_conn (faddr fport laddr lport : Z) (inp : inpcb) : bool :=
  in_hosteq (inp_faddr inp) faddr && (inp_fport inp =? fport) && (inp_lport inp =? lport) && in_hosteq (inp_laddr inp) laddr.

Definition in_pcblookup_connect (e : penv) (faddr fport laddr lport : Z) (p : inpcbtable) : option (option addr * inpcbtable) :=
  lookup_in (ConnectHash, INPCBHASH_CONNECT e faddr fport laddr lport) (same_conn faddr fport laddr lport) p.

Definition same_bind (laddr lport : Z) (inp : inpcb) : bool := (inp_lport inp =? lport) && in_hosteq (inp_laddr inp) laddr.

Definition in_pcblookup_bind (e : penv) (laddr lport : Z) (p : inpcbtable) : option (option addr * inpcbtable) :=
  r ← lookup_in (BindHash, INPCBHASH_BIND e laddr lport) (same_bind laddr lport) p;
  match r with
  | (Some a, p) => Some (Some a, p)
  | (None, p) => lookup_in (BindHash, INPCBHASH_BIND e INADDR_ANY lport) (same_bind INADDR_ANY lport) p
  end.

(** The control block of a segment: [findpcb] of [tcp_input]. *)
Definition findpcb (e : penv) (src sport dst dport : Z) (p : inpcbtable) : option (option addr * inpcbtable) :=
  r ← in_pcblookup_connect e src sport dst dport p;
  match r with
  | (Some a, p) => Some (Some a, p)
  | (None, p) => in_pcblookup_bind e dst dport p
  end.

(** ** Anonymous ports *)

Record portrange := mkRange { pr_lastport : Z; pr_min : Z; pr_max : Z; pr_key : Z * bool * Z }.

(** The result is an error or the range of the control block. *)
Definition pcb_getports (e : penv) (algo : Z) (inp : inpcb) (p : inpcbtable) : Z + portrange :=
  if (inp_so_type inp =? SOCK_DGRAM) || (inp_so_type inp =? SOCK_STREAM) then
    let low := flag_set (inp_flags inp) INP_LOWPORT in
    let mymin := u16 (if low then lowportmin e else anonportmin e) in
    let mymax := u16 (if low then lowportmax e else anonportmax e) in
    let last := if low then inpt_lastlow p else inpt_lastport p in
    let key := (inp_so_type inp, low, algo) in
    inr (if mymax <? mymin then mkRange last mymax mymin key else mkRange last mymin mymax key)
  else inl EPFNOSUPPORT.

(** The only [return true] for IPv4 is inside an [#if 0]. *)
Definition check_suitable_port (e : penv) (port : Z) (inp : inpcb) (p : inpcbtable) : option bool :=
  pcb ← in_pcblookup_port e p (inp_laddr inp) (htons port) true;
  match pcb with None => Some false | Some _ => Some false end.

Definition set_next (key : Z * bool * Z) (z : Z) (p : inpcbtable) : inpcbtable :=
  p <| rfc6056_next_ephemeral := <[key := u16 z]> (rfc6056_next_ephemeral p) |>.

(** The number of rounds of [do ... while (count > 0)] with a 16-bit counter. *)
Definition rounds (r : portrange) : nat :=
  let num := u16 (pr_max r - pr_min r + 1) in Z.to_nat (if num =? 0 then 2 ^ 16 else num).

(** The loops of the algorithms.  [step] gives the port that is tried in a round,
    the state if it is taken, and the state for the next round. *)
Fixpoint try_ports (e : penv) (inp : inpcb) (step : nat -> inpcbtable -> Z * inpcbtable * inpcbtable) (n : nat) (i : nat) (p : inpcbtable)
    : option (option Z * inpcbtable) :=
  match n with
  | O => Some (None, p)
  | S n =>
      let '(port, p1, p2) := step i p in
      ok ← check_suitable_port e port inp p1;
      if ok : bool then Some (Some port, p1) else try_ports e inp step n (S i) p2
  end.

Definition algo_bsd (e : penv) (r : portrange) (inp : inpcb) (p : inpcbtable) : option (option Z * inpcbtable) :=
  let p := if rfc6056_next_ephemeral p (pr_key r) =? 0 then set_next (pr_key r) (pr_max r) p else p in
  try_ports e inp (fun _ p =>
    let myport := rfc6056_next_ephemeral p (pr_key r) in
    let p := set_next (pr_key r) (if myport <=? pr_min r then pr_max r else myport - 1) p in (myport, p, p)) (rounds r) 0 p.

(** The range has fewer than 65536 ports. *)
Definition num_ephemeral (r : portrange) : Z := u16 (pr_max r - pr_min r + 1).

Definition rand_port (e : penv) (r : portrange) (i : nat) : Z := pr_min r + (u32 (cprng_fast32 e i)) mod num_ephemeral r.

Definition algo_random_start (e : penv) (r : portrange) (inp : inpcb) (p : inpcbtable) : option (option Z * inpcbtable) :=
  try_ports e inp (fun _ p =>
    let port := rfc6056_next_ephemeral p (pr_key r) in
    (port, p, set_next (pr_key r) (if port =? pr_max r then pr_min r else port + 1) p)) (rounds r) 0
    (set_next (pr_key r) (rand_port e r 0) p).

Definition algo_random_pick (e : penv) (r : portrange) (inp : inpcb) (p : inpcbtable) : option (option Z * inpcbtable) :=
  try_ports e inp (fun i p => (rfc6056_next_ephemeral p (pr_key r), p, set_next (pr_key r) (rand_port e r (S i)) p)) (rounds r) 0
    (set_next (pr_key r) (rand_port e r 0) p).

Definition algo_randinc (e : penv) (r : portrange) (inp : inpcb) (p : inpcbtable) : option (option Z * inpcbtable) :=
  let p := if rfc6056_next_ephemeral p (pr_key r) =? 0 then set_next (pr_key r) (Z.land (cprng_fast32 e 0) 0xffff) p else p in
  try_ports e inp (fun i p =>
    let p := set_next (pr_key r) (rfc6056_next_ephemeral p (pr_key r) + (u32 (cprng_fast32 e (S i))) mod 500 + 1) p in
    (u16 (pr_min r + rfc6056_next_ephemeral p (pr_key r) mod num_ephemeral r), p, p)) (rounds r) 0 p.

(** The result is an error or a port; [None] is an algorithm out of range. *)
Definition rfc6056_randport (e : penv) (a : addr) (p : inpcbtable) : option ((Z + Z) * inpcbtable) :=
  inp ← pcbs p !! a;
  let algo := if inp_rfc6056algo inp =? RFC6056_ALGO_DEFAULT then
                if inet4_rfc6056algo p =? RFC6056_ALGO_DEFAULT then RFC6056_ALGO_BSD else inet4_rfc6056algo p
              else inp_rfc6056algo inp in
  match pcb_getports e algo inp p with
  | inl error => Some (inl error, p)
  | inr r =>
      f ← (if algo =? 0 then Some algo_bsd else if algo =? 1 then Some algo_random_start
           else if algo =? 2 then Some algo_random_pick else if algo =? 3 then Some algo_randinc else None);
      res ← f e r inp p;
      Some (inr (match res.1 with Some port => port | None => u16 (pr_lastport r - 1) end), res.2)
  end.

Definition in_pcbsetport (e : penv) (a : addr) (p : inpcbtable) : option (Z * inpcbtable) :=
  inp ← pcbs p !! a;
  res ← rfc6056_randport e a p;
  match res with
  | (inl error, p) => Some (error, p)
  | (inr lport, p) =>
      let p := if flag_set (inp_flags inp) INP_LOWPORT then p <| inpt_lastlow := lport |> else p <| inpt_lastport := lport |> in
      let p := upd_pcb a (fun inp => inp <| inp_flags := Z.lor (inp_flags inp) INP_ANONPORT |> <| inp_lport := htons lport |>) p in
      p ← in_pcbstate e a INP_BOUND p; Some (0, p)
  end.

(** ** Binding *)

Definition in_pcbbind_addr (e : penv) (a : addr) (sin_addr : Z) (p : inpcbtable) : Z * inpcbtable :=
  if negb (IN_MULTICAST sin_addr) && negb (in_nullhost sin_addr) && negb (bool_decide (sin_addr ∈ pe_ifaddrs e)) && negb (pe_ifwithaddr e sin_addr)
  then (EADDRNOTAVAIL, p)
  else (0, upd_pcb a (fun inp => inp <| inp_laddr := sin_addr |>) p).

Definition in_pcbbind_port (e : penv) (a : addr) (sin_addr sin_port : Z) (p : inpcbtable) : option (Z * inpcbtable) :=
  inp ← pcbs p !! a;
  let opts := inp_so_options inp in
  let reuseport := if IN_MULTICAST sin_addr && flag_set opts SO_REUSEADDR then Z.lor SO_REUSEADDR SO_REUSEPORT else Z.land opts SO_REUSEPORT in
  r ← (if sin_port =? 0 then in_pcbsetport e a p
       else
         let wild := negb (flag_set opts (Z.lor SO_REUSEADDR SO_REUSEPORT)) in
         t ← in_pcblookup_port e p sin_addr sin_port wild;
         used ← (match t with Some b => t ← pcbs p !! b; Some (negb (flag_set (inp_so_options t) reuseport)) | None => Some false end);
         if used : bool then Some (EADDRINUSE, p)
         else p ← in_pcbstate e a INP_BOUND (upd_pcb a (fun inp => inp <| inp_lport := sin_port |>) p); Some (0, p));
  if negb (r.1 =? 0) then Some r
  else
    inp ← pcbs r.2 !! a;
    p ← lhash_remove a r.2;
    Some (0, lhash_insert (INPCBHASH_PORT e (inp_lport inp)) a p).

(** Without an address it is the one of [dom_sa_any], with port 0. *)
Definition in_pcbbind (e : penv) (a : addr) (nam : option (Z * Z)) (p : inpcbtable) : option (Z * inpcbtable) :=
  inp ← pcbs p !! a;
  if bool_decide (pe_ifaddrs e = []) then Some (EADDRNOTAVAIL, p)
  else if negb (inp_lport inp =? 0) || negb (in_nullhost (inp_laddr inp)) then Some (EINVAL, p)
  else
    let '(sin_addr, sin_port) := default (INADDR_ANY, 0) nam in
    let '(error, p) := in_pcbbind_addr e a sin_addr p in
    if negb (error =? 0) then Some (error, p)
    else
      r ← in_pcbbind_port e a sin_addr sin_port p;
      if negb (r.1 =? 0) then Some (r.1, upd_pcb a (fun inp => inp <| inp_laddr := INADDR_ANY |>) r.2) else Some (0, r.2).

(** ** Connecting *)

(** The address that the caller gives, with the special ones replaced. *)
Definition connect_addr (e : penv) (sin_addr : Z) : Z :=
  match pe_ifaddrs e with
  | [] => sin_addr
  | ia :: _ =>
      if in_nullhost sin_addr then ia
      else if sin_addr =? INADDR_BROADCAST then default sin_addr (pe_broadaddr e) else sin_addr
  end.

(** The local address: that of the control block, or that of the route. *)
Definition connect_src (e : penv) (inp : inpcb) (dst : Z) : Z + Z :=
  if in_nullhost (inp_laddr inp) then
    match pe_selectsrc e dst with
    | (xerror, None) => inl (if xerror =? 0 then EADDRNOTAVAIL else xerror)
    | (_, Some src) => if bool_decide (src ∈ pe_ifaddrs e) then inr src else inl EADDRNOTAVAIL
    end
  else inr (inp_laddr inp).

Definition in_pcbconnect (e : penv) (a : addr) (sin_addr sin_port : Z) (p : inpcbtable) : option (Z * inpcbtable) :=
  inp ← pcbs p !! a;
  if sin_port =? 0 then Some (EADDRNOTAVAIL, p)
  else
    let dst := connect_addr e sin_addr in
    match connect_src e inp dst with
    | inl error => Some (error, p)
    | inr src =>
        r ← in_pcblookup_connect e dst sin_port src (inp_lport inp) p;
        match r with
        | (Some _, p) => Some (EADDRINUSE, p)
        | (None, p) =>
            r ← (if in_nullhost (inp_laddr inp) then
                   r ← (if inp_lport inp =? 0 then in_pcbbind e a None p else Some (0, p));
                   if negb (r.1 =? 0) then Some r else Some (0, upd_pcb a (fun inp => inp <| inp_laddr := src |>) r.2)
                 else Some (0, p));
            if negb (r.1 =? 0) then Some r
            else
              let p := upd_pcb a (fun inp => inp <| inp_faddr := dst |> <| inp_fport := sin_port |>) r.2 in
              r ← (if inp_bindportonsend inp then in_pcbbind_port e a src 0 p else Some (0, p));
              if negb (r.1 =? 0) then Some r else p ← in_pcbstate e a INP_CONNECTED r.2; Some (0, p)
        end
    end.

(** The socket is held, so that it is not detached. *)
Definition in_pcbdisconnect (e : penv) (a : addr) (p : inpcbtable) : option inpcbtable :=
  in_pcbstate e a INP_BOUND (upd_pcb a (fun inp => inp <| inp_faddr := 0 |> <| inp_fport := 0 |>) p).

(** The request PRU_CONNECT of TCP: bind, then connect. *)
Definition tcp_connect (e : penv) (a : addr) (sin_addr sin_port : Z) (p : inpcbtable) : option (Z * inpcbtable) :=
  inp ← pcbs p !! a;
  r ← (if inp_lport inp =? 0 then in_pcbbind e a None p else Some (0, p));
  if negb (r.1 =? 0) then Some r else in_pcbconnect e a sin_addr sin_port r.2.

(** [syn_cache_get] gives the ends of the connection to the new control block. *)
Definition syn_bind (e : penv) (a : addr) (dst dport src sport : Z) (p : inpcbtable) : option (Z * inpcbtable) :=
  p ← in_pcbstate e a INP_BOUND (upd_pcb a (fun inp => inp <| inp_laddr := dst |> <| inp_lport := dport |>) p);
  in_pcbconnect e a src sport p.

(** ** Notification *)

Definition told (P : inpcb -> bool) (p : inpcbtable) (a : addr) : bool :=
  match pcbs p !! a with Some inp => P inp | None => false end.

(** The control blocks that are told of an error, in order. *)
Definition in_pcbnotify (e : penv) (faddr fport laddr lport : Z) (p : inpcbtable) : list addr :=
  if in_nullhost faddr then []
  else List.filter (told (same_conn faddr fport laddr lport) p) (inpt_hashtbl p (ConnectHash, INPCBHASH_CONNECT e faddr fport laddr lport)).

Definition in_pcbnotifyall (faddr : Z) (p : inpcbtable) : list addr :=
  if in_nullhost faddr then [] else List.filter (told (fun inp => in_hosteq (inp_faddr inp) faddr) p) (inpt_queue p).

(** [in_pcbinit], with the number of objects of the pool. *)
Definition in_pcbinit (e : penv) (count : nat) : inpcbtable :=
  mkTable ∅ (pool_init count) [] (fun _ => []) (fun _ => []) 1023 (u16 (anonportmax e)) RFC6056_ALGO_BSD (fun _ => 0).
