(* ===== verification/InPcbFacts.v ===== *)
(** * The chains of control blocks

    Every control block is on the queue and on the chains that it is linked on,
    once.  The operations are described by what they do to the control blocks;
    the chains follow. *)

From stdpp Require Import functions.
From S2P Require Import Prelude Pool IpReass IpId Ip IpOutput InPcb.

(** ** Chains in general *)

Section chains.
Context {K : Type} `{EqDecision K} (g : inpcb -> option K).

Definition is_on (m : gmap addr inpcb) (a : addr) (k : K) : Prop := exists inp, m !! a = Some inp /\ g inp = Some k.

Definition linked (m : gmap addr inpcb) (T : K -> list addr) : Prop := forall k, NoDup (T k) /\ forall a, a ∈ T k <-> is_on m a k.

Lemma is_on_alter m a f b k : is_on (alter f a m) b k <-> (b <> a /\ is_on m b k) \/ (b = a /\ exists inp, m !! a = Some inp /\ g (f inp) = Some k).
Proof.
  unfold is_on. destruct (decide (b = a)) as [->|N].
  - rewrite lookup_alter_eq. destruct (m !! a) as [inp|]; simpl; naive_solver.
  - rewrite lookup_alter_ne by done. naive_solver.
Qed.

Lemma linked_alter m T a f : (forall inp, m !! a = Some inp -> g (f inp) = g inp) -> linked m T -> linked (alter f a m) T.
Proof.
  intros F L k. destruct (L k) as [N M]. split; [done|]. intros b. rewrite is_on_alter, M. unfold is_on. split.
  - intros (inp & E & G). destruct (decide (b = a)) as [->|D]; [right|left; naive_solver]. split; [done|]. exists inp. by rewrite F.
  - intros [[_ H]|[-> (inp & E & G)]]; [done|]. exists inp. by rewrite <- (F inp E).
Qed.

Lemma linked_remove m T a f inp k : linked m T -> m !! a = Some inp -> g inp = Some k -> g (f inp) = None ->
  linked (alter f a m) (<[k := list_remove a (T k)]> T).
Proof.
  intros L E G F k'. destruct (L k') as [N M]. assert (X : forall b, is_on (alter f a m) b k' <-> b <> a /\ is_on m b k').
  { intros b. rewrite is_on_alter. split; [|tauto]. intros [?|[-> (i & Ei & Gi)]]; [done|]. congruence. }
  destruct (decide (k' = k)) as [->|D].
  - rewrite fn_lookup_insert. split; [by apply NoDup_filter|]. intros b. unfold list_remove. rewrite list_elem_of_filter, X, M. tauto.
  - rewrite fn_lookup_insert_ne by done. split; [done|]. intros b. rewrite X, M. split; [|tauto]. intros H. split; [|done].
    intros ->. destruct H as (i & Ei & Gi). congruence.
Qed.

Lemma linked_insert m T a f inp k : linked m T -> m !! a = Some inp -> g inp = None -> g (f inp) = Some k ->
  linked (alter f a m) (<[k := a :: T k]> T).
Proof.
  intros L E G F k'. destruct (L k') as [N M].
  assert (Na : a ∉ T k') by (rewrite M; intros (i & Ei & Gi); congruence).
  destruct (decide (k' = k)) as [->|D].
  - rewrite fn_lookup_insert. split; [by apply NoDup_cons|]. intros b. rewrite elem_of_cons, is_on_alter, M. split.
    + intros [->|H]; [right; split; [done|]; by exists inp|]. destruct (decide (b = a)) as [->|Db]; [|by left].
      by rewrite M in Na.
    + intros [[_ H]|[-> _]]; [by right|by left].
  - rewrite fn_lookup_insert_ne by done. split; [done|]. intros b. rewrite is_on_alter, M. split.
    + intros H. left. split; [|done]. intros ->. by rewrite M in Na.
    + intros [[_ H]|[-> (i & Ei & Gi)]]; [done|]. congruence.
Qed.

Lemma linked_delete m T a inp : linked m T -> m !! a = Some inp -> g inp = None -> linked (delete a m) T.
Proof.
  intros L E G k. destruct (L k) as [N M]. split; [done|]. intros b. rewrite M. unfold is_on.
  destruct (decide (b = a)) as [->|D]; [rewrite lookup_delete_eq|by rewrite lookup_delete_ne]. naive_solver.
Qed.

Lemma linked_new m T a inp : linked m T -> m !! a = None -> g inp = None -> linked (<[a := inp]> m) T.
Proof.
  intros L E G k. destruct (L k) as [N M]. split; [done|]. intros b. rewrite M. unfold is_on.
  destruct (decide (b = a)) as [->|D]; [rewrite lookup_insert_eq, E|by rewrite lookup_insert_ne]. naive_solver.
Qed.
End chains.

(** ** The table *)

Record links (objs : list addr) (p : inpcbtable) : Prop := mkLinks {
  l_pool : mempool (inpcb_pool p) ++ elements (dom (pcbs p)) ≡ₚ objs;
  l_queue : NoDup (inpt_queue p) /\ forall a, a ∈ inpt_queue p <-> is_Some (pcbs p !! a);
  l_port : linked inp_lhash (pcbs p) (inpt_porthashtbl p);
  l_hash : linked inp_hash (pcbs p) (inpt_hashtbl p)
}.

(** The state that an operation on the control block [a] leaves: [a] is [inp], and
    nothing else has changed but the chains and the selection of ports. *)
Definition becomes (objs : list addr) (a : addr) (inp : inpcb) (p p' : inpcbtable) : Prop :=
  links objs p' /\ pcbs p' = <[a := inp]> (pcbs p) /\ inet4_rfc6056algo p' = inet4_rfc6056algo p.

Section table.
Context (objs : list addr).

Abbreviation links := (links objs).
Abbreviation becomes := (becomes objs).

Lemma alter_insert_at (m : gmap addr inpcb) a f inp : m !! a = Some inp -> alter f a m = <[a := f inp]> m.
Proof. intros E. rewrite <- (insert_id m a inp E) at 1. by rewrite alter_insert_eq. Qed.

Lemma becomes_lookup a inp p p' : becomes a inp p p' -> pcbs p' !! a = Some inp.
Proof. intros (_ & -> & _). by rewrite lookup_insert_eq. Qed.

Lemma becomes_trans a i j p p' p'' : becomes a i p p' -> becomes a j p' p'' -> becomes a j p p''.
Proof. intros (_ & E & A) (L & E' & A'). split; [done|]. split; [by rewrite E', E, insert_insert_eq|congruence]. Qed.

Lemma becomes_same a inp p p' : links p' -> pcbs p' = pcbs p -> inet4_rfc6056algo p' = inet4_rfc6056algo p -> pcbs p !! a = Some inp -> becomes a inp p p'.
Proof. intros L M A E. split; [done|]. split; [|done]. by rewrite insert_id. Qed.

Lemma queue_alter p a f : (NoDup (inpt_queue p) /\ forall b, b ∈ inpt_queue p <-> is_Some (pcbs p !! b)) ->
  NoDup (inpt_queue p) /\ forall b, b ∈ inpt_queue p <-> is_Some (alter f a (pcbs p) !! b).
Proof. intros [N M]. split; [done|]. intros b. by rewrite lookup_alter_is_Some, M. Qed.

Lemma upd_becomes a f p inp : links p -> pcbs p !! a = Some inp -> inp_hash (f inp) = inp_hash inp -> inp_lhash (f inp) = inp_lhash inp ->
  becomes a (f inp) p (upd_pcb a f p).
Proof.
  intros [P Q Lp Lh] E Fh Fl. split; [|split; [by apply alter_insert_at|done]]. constructor; unfold upd_pcb; simpl.
  - by rewrite dom_alter_L.
  - by apply queue_alter.
  - apply linked_alter; [|done]. intros i Ei. by assert (i = inp) as -> by congruence.
  - apply linked_alter; [|done]. intros i Ei. by assert (i = inp) as -> by congruence.
Qed.

Lemma hash_remove_runs a p inp k : links p -> pcbs p !! a = Some inp -> inp_hash inp = Some k ->
  runs (hash_remove a p) (becomes a (inp <| inp_hash := None |>) p).
Proof.
  intros [P Q Lp Lh] E Hk. unfold hash_remove. rewrite E. cbn [mbind option_bind]. rewrite Hk. cbn [mbind option_bind]. apply runs_ret.
  split; [|split; [by apply alter_insert_at|done]]. constructor; unfold upd_pcb; simpl.
  - by rewrite dom_alter_L.
  - by apply queue_alter.
  - apply linked_alter; [|done]. by intros i Ei.
  - by eapply linked_remove.
Qed.

Lemma hash_insert_becomes k a p inp : links p -> pcbs p !! a = Some inp -> inp_hash inp = None ->
  becomes a (inp <| inp_hash := Some k |>) p (hash_insert k a p).
Proof.
  intros [P Q Lp Lh] E Hk. split; [|split; [by apply alter_insert_at|done]]. constructor; unfold hash_insert, upd_pcb; simpl.
  - by rewrite dom_alter_L.
  - by apply queue_alter.
  - apply linked_alter; [|done]. by intros i Ei.
  - by eapply linked_insert.
Qed.

Lemma lhash_remove_runs a p inp i : links p -> pcbs p !! a = Some inp -> inp_lhash inp = Some i ->
  runs (lhash_remove a p) (becomes a (inp <| inp_lhash := None |>) p).
Proof.
  intros [P Q Lp Lh] E Hk. unfold lhash_remove. rewrite E. cbn [mbind option_bind]. rewrite Hk. cbn [mbind option_bind]. apply runs_ret.
  split; [|split; [by apply alter_insert_at|done]]. constructor; unfold upd_pcb; simpl.
  - by rewrite dom_alter_L.
  - by apply queue_alter.
  - by eapply linked_remove.
  - apply linked_alter; [|done]. by intros x Ex.
Qed.

Lemma lhash_insert_becomes i a p inp : links p -> pcbs p !! a = Some inp -> inp_lhash inp = None ->
  becomes a (inp <| inp_lhash := Some i |>) p (lhash_insert i a p).
Proof.
  intros [P Q Lp Lh] E Hk. split; [|split; [by apply alter_insert_at|done]]. constructor; unfold lhash_insert, upd_pcb; simpl.
  - by rewrite dom_alter_L.
  - by apply queue_alter.
  - by eapply linked_insert.
  - apply linked_alter; [|done]. by intros x Ex.
Qed.

(** ** State changes *)

(** The chain of a control block in a state. *)
Definition place (e : penv) (state : Z) (inp : inpcb) : option (chain * Z) :=
  if state =? INP_BOUND then Some (BindHash, INPCBHASH_BIND e (inp_laddr inp) (inp_lport inp))
  else if state =? INP_CONNECTED
  then Some (ConnectHash, INPCBHASH_CONNECT e (inp_faddr inp) (inp_fport inp) (inp_laddr inp) (inp_lport inp))
  else None.

(** Linked if and only if bound or connected. *)
Definition hashed (inp : inpcb) : Prop :=
  (INP_ATTACHED < inp_state inp -> is_Some (inp_hash inp)) /\ (inp_state inp <= INP_ATTACHED -> inp_hash inp = None).

Definition in_state (e : penv) (state : Z) (inp : inpcb) : inpcb := inp <| inp_hash := place e state inp |> <| inp_state := state |>.

Lemma in_pcbstate_runs e a state p inp : links p -> pcbs p !! a = Some inp -> hashed inp ->
  runs (in_pcbstate e a state p) (becomes a (in_state e state inp) p).
Proof.
  intros L E [H1 H2]. unfold in_pcbstate. rewrite E. cbn [mbind option_bind].
  eapply (runs_bind _ _ (becomes a (inp <| inp_hash := None |>) p)).
  { destruct (Z.ltb_spec INP_ATTACHED (inp_state inp)) as [X|X].
    - destruct (H1 X) as [k Hk]. by eapply hash_remove_runs.
    - apply runs_ret, becomes_same; [done..|]. rewrite E. f_equal. specialize (H2 X). destruct inp. simpl in *. by subst. }
  intros p1 B1. pose proof (becomes_lookup _ _ _ _ B1) as E1. apply runs_ret.
  set (p2 := if state =? INP_BOUND then _ else _).
  assert (B2 : becomes a (inp <| inp_hash := place e state inp |>) p1 p2).
  { unfold p2, place. destruct (state =? INP_BOUND); [|destruct (state =? INP_CONNECTED)].
    - eapply hash_insert_becomes in E1; [exact E1|apply B1|done].
    - eapply hash_insert_becomes in E1; [exact E1|apply B1|done].
    - apply becomes_same; [apply B1|done..|]. rewrite E1. by destruct inp. }
  pose proof (becomes_lookup _ _ _ _ B2) as E2. eapply becomes_trans; [exact (becomes_trans _ _ _ _ _ _ B1 B2)|].
  eapply upd_becomes in E2; [exact E2|apply B2|done|done].
Qed.

Lemma in_state_hashed e state inp : (state = INP_ATTACHED \/ state = INP_BOUND \/ state = INP_CONNECTED) -> hashed (in_state e state inp).
Proof. intros [->|[->| ->]]; split; simpl; unfold INP_ATTACHED, INP_BOUND, INP_CONNECTED; try lia; intros _; try done; by eexists. Qed.

(** ** Lookups *)

(** The control blocks are the same; the order on the chains may have changed. *)
Definition keeps (p p' : inpcbtable) : Prop :=
  links p' /\ pcbs p' = pcbs p /\ inpt_lastport p' = inpt_lastport p /\ inpt_lastlow p' = inpt_lastlow p /\
  inet4_rfc6056algo p' = inet4_rfc6056algo p.

Lemma keeps_self p : links p -> keeps p p.
Proof. by intros L. Qed.

Lemma keeps_trans p p' p'' : keeps p p' -> keeps p' p'' -> keeps p p''.
Proof. intros (_ & E & A & B & C) (L & E' & A' & B' & C'). split; [done|]. repeat split; congruence. Qed.

Lemma find_pcb_runs P p l : (forall a, a ∈ l -> is_Some (pcbs p !! a)) ->
  runs (find_pcb P p l) (fun r => match r with
    | Some a => a ∈ l /\ exists inp, pcbs p !! a = Some inp /\ P inp = true
    | None => forall a inp, a ∈ l -> pcbs p !! a = Some inp -> P inp = false end).
Proof.
  induction l as [|a l IH]; intros S; simpl; [apply runs_ret; by intros a inp ?%elem_of_nil|].
  destruct (S a ltac:(by left)) as [inp E]. rewrite E. cbn [mbind option_bind]. destruct (P inp) eqn:Pi.
  - apply runs_ret. split; [by left|]. by exists inp.
  - eapply runs_mono; [apply IH; intros b Hb; apply S; by right|]. intros [b|].
    + intros [Hb H]. split; [by right|done].
    + intros H b i [->|Hb]%elem_of_cons Ei; [congruence|by eapply H].
Qed.

Lemma to_front_runs k a p inp : links p -> pcbs p !! a = Some inp -> inp_hash inp = Some k -> runs (to_front k a p) (keeps p).
Proof.
  intros L E Hk. unfold to_front. case_bool_decide; [by apply runs_ret, keeps_self|].
  assert (R : runs (hash_remove a p) (fun p1 => becomes a (inp <| inp_hash := None |>) p p1 /\ inpt_lastport p1 = inpt_lastport p /\ inpt_lastlow p1 = inpt_lastlow p)).
  { destruct (hash_remove_runs a p inp k L E Hk) as (p1 & E1 & B1). exists p1. split; [done|]. split; [done|].
    unfold hash_remove in E1. rewrite E in E1. cbn [mbind option_bind] in E1. rewrite Hk in E1. cbn [mbind option_bind] in E1. by injection E1 as <-. }
  eapply runs_bind; [exact R|]. intros p1 (B1 & A1 & A2). pose proof (becomes_lookup _ _ _ _ B1) as E1. apply runs_ret.
  destruct (hash_insert_becomes k a p1 _ (proj1 B1) E1 eq_refl) as (L2 & M2 & C2). destruct B1 as (_ & M1 & C1).
  split; [done|]. split; [|split; [done|]; split; [done|congruence]]. rewrite M2, M1, insert_insert_eq, insert_id; [done|]. rewrite E. f_equal. destruct inp. simpl in *. by subst.
Qed.

Lemma lookup_in_runs k P p : links p ->
  runs (lookup_in k P p) (fun r => keeps p r.2 /\ match r.1 with
    | Some a => exists inp, pcbs p !! a = Some inp /\ inp_hash inp = Some k /\ P inp = true
    | None => forall a inp, pcbs p !! a = Some inp -> inp_hash inp = Some k -> P inp = false end).
Proof.
  intros L. destruct (l_hash _ _ L k) as [_ M]. unfold lookup_in.
  eapply runs_bind; [apply find_pcb_runs; intros a (inp & E & _)%M; by exists inp|]. intros [a|].
  - intros (Ha & inp & E & Pi). apply M in Ha as (i & Ei & Hk). assert (i = inp) as -> by congruence.
    eapply runs_bind; [by eapply to_front_runs|]. intros p' K. apply runs_ret. split; [done|]. by exists inp.
  - intros H. apply runs_ret. split; [by apply keeps_self|]. intros a inp E Hk. eapply H; [|exact E]. apply M. by exists inp.
Qed.

(** ** Ports *)

Lemma wildcard_range inp laddr lport w : wildcard inp laddr lport = Some w -> 0 <= w <= 2 /\ inp_lport inp = lport.
Proof.
  unfold wildcard. destruct (Z.eqb_spec (inp_lport inp) lport) as [->|]; [|done]. simpl.
  repeat case_match; intros [= <-]; (split; [lia|done]).
Qed.

(** A control block that [in_pcblookup_port] may return. *)
Definition candidate (laddr lport : Z) (wild : bool) (inp : inpcb) (w : Z) : Prop :=
  wildcard inp laddr lport = Some w /\ (w = 0 \/ wild = true).

Lemma port_loop_runs p laddr lport wild l : forall best bw, (forall a, a ∈ l -> is_Some (pcbs p !! a)) -> 0 < bw ->
  runs (port_loop p laddr lport wild l (best, bw)) (fun r =>
    (r = (best, bw) \/ exists a inp, r.1 = Some a /\ a ∈ l /\ pcbs p !! a = Some inp /\ candidate laddr lport wild inp r.2) /\
    r.2 <= bw /\ forall a inp w, a ∈ l -> pcbs p !! a = Some inp -> candidate laddr lport wild inp w -> r.2 <= w).
Proof.
  induction l as [|a l IH]; intros best bw S Hb; simpl.
  { apply runs_ret. split; [by left|]. split; [simpl; lia|]. by intros a inp w ?%elem_of_nil. }
  destruct (S a ltac:(by left)) as [inp E]. rewrite E. cbn [mbind option_bind].
  assert (S' : forall b, b ∈ l -> is_Some (pcbs p !! b)) by (intros b Hb'; apply S; by right).
  assert (Skip : (forall w, candidate laddr lport wild inp w -> bw <= w) -> runs (port_loop p laddr lport wild l (best, bw)) (fun r =>
    (r = (best, bw) \/ exists b i, r.1 = Some b /\ b ∈ a :: l /\ pcbs p !! b = Some i /\ candidate laddr lport wild i r.2) /\
    r.2 <= bw /\ forall b i w, b ∈ a :: l -> pcbs p !! b = Some i -> candidate laddr lport wild i w -> r.2 <= w)).
  { intros No. eapply runs_mono; [by apply IH|]. intros r ([Hr|(b & i & H1 & H2 & H3 & H4)] & Le & M).
    - split; [by left|]. split; [done|]. intros b i w [->|Hb']%elem_of_cons Ei Cw; [|by eapply M].
      assert (i = inp) as -> by congruence. specialize (No w Cw). lia.
    - split; [right; exists b, i; split; [done|]; split; [by right|done]|]. split; [done|].
      intros c j w [->|Hc]%elem_of_cons Ej Cw; [|by eapply M]. assert (j = inp) as -> by congruence. specialize (No w Cw). lia. }
  destruct (wildcard inp laddr lport) as [w|] eqn:W; [|apply Skip; intros w [Hw _]; congruence].
  destruct (wildcard_range _ _ _ _ W) as [Rw _]. destruct (negb (w =? 0) && negb wild) eqn:G.
  { apply Skip. intros w' [Hw [Z0|Ww]]; rewrite W in Hw; injection Hw as <-; [by rewrite Z0 in G|]. by rewrite Ww, andb_false_r in G. }
  assert (Cw : candidate laddr lport wild inp w).
  { split; [done|]. destruct (Z.eqb_spec w 0); [by left|]. destruct wild; [by right|done]. }
  destruct (Z.ltb_spec w bw) as [Lt|Ge]; [|apply Skip; intros w' [Hw _]; rewrite W in Hw; injection Hw as <-; lia].
  destruct (Z.eqb_spec w 0) as [->|Nz].
  { apply runs_ret. simpl. split; [right; exists a, inp; split; [done|]; split; [by left|done]|]. split; [lia|].
    intros b i w' _ _ [Hw _]. apply wildcard_range in Hw. lia. }
  eapply runs_mono; [apply (IH (Some a) w S'); lia|]. intros r (Hr & Le & M). split; [|split; [lia|]].
  - destruct Hr as [->|(b & i & H1 & H2 & H3 & H4)].
    + right. exists a, inp. split; [done|]. split; [by left|done].
    + right. exists b, i. split; [done|]. split; [by right|done].
  - intros b i w' [->|Hb']%elem_of_cons Ei Ci; [|by eapply M]. assert (i = inp) as -> by congruence. destruct Ci as [Hw _].
    rewrite W in Hw. injection Hw as <-. lia.
Qed.

(** The result is a best match among the control blocks of the chain. *)
Lemma lookup_port_runs e p laddr lport wild : links p ->
  let on inp := inp_lhash inp = Some (INPCBHASH_PORT e lport) in
  runs (in_pcblookup_port e p laddr lport wild) (fun r => match r with
    | Some a => exists inp w, pcbs p !! a = Some inp /\ on inp /\ candidate laddr lport wild inp w /\
        forall b i w', pcbs p !! b = Some i -> on i -> candidate laddr lport wild i w' -> w <= w'
    | None => forall b i w', pcbs p !! b = Some i -> on i -> ~ candidate laddr lport wild i w' end).
Proof.
  intros L on. destruct (l_port _ _ L (INPCBHASH_PORT e lport)) as [_ M]. unfold in_pcblookup_port.
  eapply runs_bind; [apply port_loop_runs; [|lia]; intros a (inp & E & _)%M; by exists inp|].
  intros [o w] (Hr & Le & Mi). apply runs_ret. cbn [fst snd] in *.
  assert (All : forall b i w', pcbs p !! b = Some i -> on i -> candidate laddr lport wild i w' -> w <= w').
  { intros b i w' Ei Oi Ci. eapply Mi; [|exact Ei|exact Ci]. apply M. by exists i. }
  destruct Hr as [[= -> ->]|(a & inp & -> & Ha & E & Cd)].
  - intros b i w' Ei Oi Ci. specialize (All b i w' Ei Oi Ci). destruct Ci as [Hw _]. apply wildcard_range in Hw. lia.
  - apply M in Ha as (i & Ei & Oi). assert (i = inp) as -> by congruence. by exists inp, w.
Qed.

(** ** Anonymous ports *)

Lemma set_next_keeps key z p : links p -> keeps p (set_next key z p).
Proof. intros [P Q Lp Lh]. by split. Qed.

Lemma check_suitable_port_none e port inp p : links p -> check_suitable_port e port inp p = Some false.
Proof. intros L. unfold check_suitable_port. destruct (lookup_port_runs e p (inp_laddr inp) (htons port) true L) as (r & -> & _). by destruct r. Qed.

(** No port is ever found, so the loops of the algorithms end without one. *)
Lemma try_ports_none e inp step n : forall i p, links p ->
  (forall i p, links p -> keeps p (step i p).1.2 /\ keeps p (step i p).2) ->
  runs (try_ports e inp step n i p) (fun r => r.1 = None /\ keeps p r.2).
Proof.
  induction n as [|n IH]; intros i p L K; simpl; [by apply runs_ret; split; [|apply keeps_self]|].
  destruct (K i p L) as [K1 K2]. destruct (step i p) as [[port p1] p2]. cbn [fst snd] in K1, K2.
  rewrite check_suitable_port_none by apply K1. cbn [mbind option_bind].
  eapply runs_mono; [apply IH; [apply K2|done]|]. intros r [N Kr]. split; [done|]. by eapply keeps_trans.
Qed.

Lemma algo_bsd_none e r inp p : links p -> runs (algo_bsd e r inp p) (fun x => x.1 = None /\ keeps p x.2).
Proof.
  intros L. unfold algo_bsd. set (p1 := if rfc6056_next_ephemeral p _ =? 0 then _ else p).
  assert (K1 : keeps p p1) by (unfold p1; destruct (_ =? 0); [by apply set_next_keeps|by apply keeps_self]).
  eapply runs_mono; [apply try_ports_none; [apply K1|intros i q Lq; split; by apply set_next_keeps]|].
  intros x [N K]. split; [done|]. exact (keeps_trans _ _ _ K1 K).
Qed.

Lemma algo_random_start_none e r inp p : links p -> runs (algo_random_start e r inp p) (fun x => x.1 = None /\ keeps p x.2).
Proof.
  intros L. unfold algo_random_start. set (p1 := set_next _ _ p). assert (K1 : keeps p p1) by (apply (set_next_keeps (pr_key r) (rand_port e r 0) p L)).
  eapply runs_mono; [apply try_ports_none; [apply K1|intros i q Lq; split; [by apply keeps_self|by apply set_next_keeps]]|].
  intros x [N K]. split; [done|]. exact (keeps_trans _ _ _ K1 K).
Qed.

Lemma algo_random_pick_none e r inp p : links p -> runs (algo_random_pick e r inp p) (fun x => x.1 = None /\ keeps p x.2).
Proof.
  intros L. unfold algo_random_pick. set (p1 := set_next _ _ p). assert (K1 : keeps p p1) by (apply (set_next_keeps (pr_key r) (rand_port e r 0) p L)).
  eapply runs_mono; [apply try_ports_none; [apply K1|intros i q Lq; split; [by apply keeps_self|by apply set_next_keeps]]|].
  intros x [N K]. split; [done|]. exact (keeps_trans _ _ _ K1 K).
Qed.

Lemma algo_randinc_none e r inp p : links p -> runs (algo_randinc e r inp p) (fun x => x.1 = None /\ keeps p x.2).
Proof.
  intros L. unfold algo_randinc. set (p1 := if rfc6056_next_ephemeral p _ =? 0 then _ else p).
  assert (K1 : keeps p p1) by (unfold p1; destruct (_ =? 0); [by apply set_next_keeps|by apply keeps_self]).
  eapply runs_mono; [apply try_ports_none; [apply K1|intros i q Lq; split; by apply set_next_keeps]|].
  intros x [N K]. split; [done|]. exact (keeps_trans _ _ _ K1 K).
Qed.

(** The algorithms that the table [algos] has. *)
Definition algo_ok (algo : Z) : Prop := algo = RFC6056_ALGO_DEFAULT \/ 0 <= algo < NALGOS.

(** The port that is taken: one less than the last one. *)
Definition next_port (inp : inpcb) (p : inpcbtable) : Z :=
  u16 ((if flag_set (inp_flags inp) INP_LOWPORT then inpt_lastlow p else inpt_lastport p) - 1).

Definition inet_type (inp : inpcb) : Prop := inp_so_type inp = SOCK_STREAM \/ inp_so_type inp = SOCK_DGRAM.

Lemma randport_runs e a inp p : links p -> pcbs p !! a = Some inp -> inet_type inp -> algo_ok (inp_rfc6056algo inp) -> algo_ok (inet4_rfc6056algo p) ->
  runs (rfc6056_randport e a p) (fun r => r.1 = inr (next_port inp p) /\ keeps p r.2).
Proof.
  intros L E T A1 A2. unfold rfc6056_randport. rewrite E. cbn [mbind option_bind].
  set (algo := if _ =? RFC6056_ALGO_DEFAULT then _ else _).
  assert (A : 0 <= algo < 4).
  { unfold algo, algo_ok, NALGOS, RFC6056_ALGO_BSD in *. destruct (Z.eqb_spec (inp_rfc6056algo inp) RFC6056_ALGO_DEFAULT); [|lia].
    destruct (Z.eqb_spec (inet4_rfc6056algo p) RFC6056_ALGO_DEFAULT); lia. }
  unfold pcb_getports. replace (_ || _) with true by (destruct T as [-> | ->]; done).
  set (r := if u16 _ <? u16 _ then _ else _).
  assert (Last : u16 (pr_lastport r - 1) = next_port inp p) by (unfold r, next_port; by case_match).
  assert (F : exists f, (if algo =? 0 then Some algo_bsd else if algo =? 1 then Some algo_random_start
           else if algo =? 2 then Some algo_random_pick else if algo =? 3 then Some algo_randinc else None) = Some f /\
     runs (f e r inp p) (fun x => x.1 = None /\ keeps p x.2)).
  { assert (C : algo = 0 \/ algo = 1 \/ algo = 2 \/ algo = 3) by lia. destruct C as [->|[->|[->| ->]]]; simpl; eexists; (split; [done|]).
    - by apply algo_bsd_none.
    - by apply algo_random_start_none.
    - by apply algo_random_pick_none.
    - by apply algo_randinc_none. }
  destruct F as (f & -> & R). cbn [mbind option_bind]. eapply runs_bind; [exact R|]. intros [o p'] [-> K]. apply runs_ret.
  cbn [fst snd]. by rewrite Last.
Qed.
End table.
