(* ===== verification/InPcbOps.v ===== *)
(** * What the operations on control blocks do

    Each operation returns, and its effect is described by the control block that
    it leaves. *)

From stdpp Require Import functions.
From S2P Require Import Prelude Pool IpReass IpId Ip IpOutput InPcb InPcbFacts.

(** A control block between two operations: linked by its state, on a port chain,
    and of a socket whose ports can be chosen. *)
Record pcb_ok (e : penv) (inp : inpcb) : Prop := mkPcbOk {
  ok_state : inp_state inp = INP_ATTACHED \/ inp_state inp = INP_BOUND \/ inp_state inp = INP_CONNECTED;
  ok_place : inp_hash inp = place e (inp_state inp) inp;
  ok_lhash : is_Some (inp_lhash inp);
  ok_type : inet_type inp;
  ok_algo : algo_ok (inp_rfc6056algo inp);
  ok_onsend : inp_bindportonsend inp = false
}.

(** A control block that is bound to the port [q]. *)
Definition bound_as (e : penv) (q flags : Z) (inp : inpcb) : inpcb :=
  (in_state e INP_BOUND (inp <| inp_flags := flags |> <| inp_lport := q |>)) <| inp_lhash := Some (INPCBHASH_PORT e q) |>.

(** The sockets that do not share ports. *)
Definition exclusive (inp : inpcb) : Prop := flag_set (inp_so_options inp) (Z.lor SO_REUSEADDR SO_REUSEPORT) = false.

(** A control block with this port, on the chain of the port, whose address
    conflicts with the given one. *)
Definition conflicts (e : penv) (laddr lport : Z) (i : inpcb) : Prop :=
  inp_lhash i = Some (INPCBHASH_PORT e lport) /\ inp_lport i = lport /\
  (inp_laddr i = INADDR_ANY \/ laddr = INADDR_ANY \/ inp_laddr i = laddr).

Lemma pcb_ok_hashed e inp : pcb_ok e inp -> hashed inp.
Proof.
  intros [S P _ _ _ _]. unfold hashed, place, INP_ATTACHED, INP_BOUND, INP_CONNECTED in *. rewrite P.
  destruct S as [->|[->| ->]]; simpl; (split; [|try lia; done]); try lia; intros _; by eexists.
Qed.

Lemma candidate_conflicts e laddr lport inp : inp_lhash inp = Some (INPCBHASH_PORT e lport) ->
  (exists w, candidate laddr lport true inp w) <-> conflicts e laddr lport inp.
Proof.
  intros H. unfold candidate, conflicts, wildcard, in_nullhost, in_hosteq. split.
  - intros (w & W & _). destruct (Z.eqb_spec (inp_lport inp) lport) as [E|]; [|done]. simpl in W. split; [done|]. split; [done|].
    destruct (Z.eqb_spec (inp_laddr inp) INADDR_ANY); [by left|]. destruct (Z.eqb_spec laddr INADDR_ANY); [by right; left|].
    destruct (Z.eqb_spec (inp_laddr inp) laddr); [by right; right|done].
  - intros (_ & E & C). rewrite E, Z.eqb_refl. simpl. setoid_rewrite <- (and_True (_ = Some _)).
    destruct (Z.eqb_spec (inp_laddr inp) INADDR_ANY); [eexists; split; [done|by right]|].
    destruct (Z.eqb_spec laddr INADDR_ANY); [eexists; split; [done|by right]|].
    destruct C as [?|[?|C]]; [done..|]. rewrite C, Z.eqb_refl. eexists. split; [done|by right].
Qed.

Section ops.
Context (objs : list addr).

Abbreviation links := (links objs).
Abbreviation becomes := (becomes objs).
Abbreviation keeps := (keeps objs).

Lemma becomes_after_keeps a i p p' p'' : keeps p p' -> becomes a i p' p'' -> becomes a i p p''.
Proof. intros (_ & E & _ & _ & A) (L & E' & A'). split; [done|]. split; congruence. Qed.

(** ** Binding *)

Lemma setport_runs e a inp p : links p -> pcbs p !! a = Some inp -> hashed inp -> inet_type inp -> algo_ok (inp_rfc6056algo inp) ->
  algo_ok (inet4_rfc6056algo p) ->
  runs (in_pcbsetport e a p) (fun r => r.1 = 0 /\
    becomes a (in_state e INP_BOUND (inp <| inp_flags := Z.lor (inp_flags inp) INP_ANONPORT |> <| inp_lport := htons (next_port inp p) |>)) p r.2).
Proof.
  intros L E H T A1 A2. unfold in_pcbsetport. rewrite E. cbn [mbind option_bind].
  eapply runs_bind; [by eapply randport_runs|]. intros [o p1] [O K]. cbn [fst snd] in O, K. subst o.
  set (p2 := if flag_set _ _ then _ else _).
  assert (K2 : pcbs p2 = pcbs p /\ links p2 /\ inet4_rfc6056algo p2 = inet4_rfc6056algo p).
  { destruct K as ([P Q Lp Lh] & M & _ & _ & Al). unfold p2. destruct (flag_set _ _); (split; [exact M|]; split; [by constructor|exact Al]). }
  destruct K2 as (M2 & L2 & A3). set (f := fun i : inpcb => _). assert (E2 : pcbs p2 !! a = Some inp) by by rewrite M2.
  pose proof (upd_becomes objs a f p2 inp L2 E2 eq_refl eq_refl) as B.
  eapply runs_bind; [eapply (in_pcbstate_runs objs e a INP_BOUND _ (f inp)); [apply B|by eapply becomes_lookup|exact H]|].
  intros p3 B3. apply runs_ret. split; [done|]. destruct (becomes_trans _ _ _ _ _ _ _ B B3) as (L3 & M3 & A4).
  split; [done|]. cbn [snd]. split; [by rewrite M3, M2|congruence].
Qed.

(** The chain of the port follows the port. *)
Lemma rechain_runs e a i p : links p -> pcbs p !! a = Some i -> is_Some (inp_lhash i) ->
  runs (p' ← lhash_remove a p; Some (0, lhash_insert (INPCBHASH_PORT e (inp_lport i)) a p'))
    (fun r => r.1 = 0 /\ becomes a (i <| inp_lhash := Some (INPCBHASH_PORT e (inp_lport i)) |>) p r.2).
Proof.
  intros L E [k Hk]. eapply runs_bind; [by eapply lhash_remove_runs|]. intros p1 B1. apply runs_ret. split; [done|].
  eapply becomes_trans; [exact B1|].
  exact (lhash_insert_becomes objs (INPCBHASH_PORT e (inp_lport i)) a p1 _ (proj1 B1) (becomes_lookup _ _ _ _ _ B1) eq_refl).
Qed.

Lemma bind_anon_runs e a inp p sin_addr : links p -> pcbs p !! a = Some inp -> hashed inp -> is_Some (inp_lhash inp) -> inet_type inp ->
  algo_ok (inp_rfc6056algo inp) -> algo_ok (inet4_rfc6056algo p) ->
  runs (in_pcbbind_port e a sin_addr 0 p) (fun r => r.1 = 0 /\
    becomes a (bound_as e (htons (next_port inp p)) (Z.lor (inp_flags inp) INP_ANONPORT) inp) p r.2).
Proof.
  intros L E H Hl T A1 A2. unfold in_pcbbind_port. rewrite E. cbn [mbind option_bind]. rewrite Z.eqb_refl.
  eapply runs_bind; [by eapply setport_runs|]. intros [z p1] [Z0 B]. cbn [fst snd] in Z0, B. subst z. rewrite Z.eqb_refl. cbn [negb fst snd].
  pose proof (becomes_lookup _ _ _ _ _ B) as E1. rewrite E1. cbn [mbind option_bind].
  eapply runs_mono; [exact (rechain_runs e a _ p1 (proj1 B) E1 Hl)|]. intros [z p2] [Z1 B2]. split; [exact Z1|].
  exact (becomes_trans _ _ _ _ _ _ _ B B2).
Qed.

Lemma flag_set_none f : flag_set f 0 = false.
Proof. unfold flag_set. by rewrite Z.land_0_r. Qed.

Lemma exclusive_reuse inp sin_addr : exclusive inp ->
  (if IN_MULTICAST sin_addr && flag_set (inp_so_options inp) SO_REUSEADDR then Z.lor SO_REUSEADDR SO_REUSEPORT
   else Z.land (inp_so_options inp) SO_REUSEPORT) = 0.
Proof.
  unfold exclusive. rewrite flag_set_lor_mask. intros [A B]%orb_false_iff. rewrite A, andb_false_r.
  unfold flag_set in B. destruct (Z.eqb_spec (Z.land (inp_so_options inp) SO_REUSEPORT) 0); done.
Qed.

(** With a port: it is refused if the best match does not share it; otherwise the
    control block is bound to it. *)
Lemma bind_given_runs e a inp p sin_addr sin_port : links p -> pcbs p !! a = Some inp -> hashed inp -> is_Some (inp_lhash inp) ->
  sin_port <> 0 ->
  runs (in_pcbbind_port e a sin_addr sin_port p) (fun r =>
    (r = (EADDRINUSE, p) /\ exists b i, pcbs p !! b = Some i /\ conflicts e sin_addr sin_port i) \/
    (r.1 = 0 /\ becomes a (bound_as e sin_port (inp_flags inp) inp) p r.2 /\
     (exclusive inp -> forall b i, pcbs p !! b = Some i -> ~ conflicts e sin_addr sin_port i))).
Proof.
  intros L E H Hl N. unfold in_pcbbind_port. rewrite E. cbn [mbind option_bind].
  destruct (Z.eqb_spec sin_port 0); [done|]. set (reuse := if IN_MULTICAST _ && _ then _ else _). set (wild := negb _).
  destruct (lookup_port_runs objs e p sin_addr sin_port wild L) as (t & Et & Ht). rewrite Et. cbn [mbind option_bind].
  set (used := match t with Some b => _ | None => _ end).
  assert (U : exists u, used = Some u /\ (u = true -> exists b i, pcbs p !! b = Some i /\ conflicts e sin_addr sin_port i) /\
    (u = false -> exclusive inp -> forall b i, pcbs p !! b = Some i -> ~ conflicts e sin_addr sin_port i)).
  { unfold used. destruct t as [b|].
    - destruct Ht as (i & w & Ei & On & Cd & _). rewrite Ei. cbn [mbind option_bind]. eexists. split; [done|]. split.
      + intros _. exists b, i. split; [done|]. apply candidate_conflicts; [done|]. exists w. split; [apply Cd|by right].
      + intros U X. exfalso. unfold reuse in U. by rewrite (exclusive_reuse inp sin_addr X), flag_set_none in U.
    - exists false. split; [done|]. split; [done|]. intros _ X b i Ei Cf. unfold exclusive in X.
      assert (W : wild = true) by (unfold wild; by rewrite X). pose proof (proj1 Cf) as On.
      apply (candidate_conflicts e sin_addr sin_port i On) in Cf as [w Cd]. rewrite W in Ht. by apply (Ht b i w Ei On). }
  destruct U as (u & -> & U1 & U2). cbn [mbind option_bind]. destruct u; [by apply runs_ret; left; auto|].
  cbn [fst snd]. set (f := fun i : inpcb => i <| inp_lport := sin_port |>).
  pose proof (upd_becomes objs a f p inp L E eq_refl eq_refl) as B.
  destruct (in_pcbstate_runs objs e a INP_BOUND _ (f inp) (proj1 B) (becomes_lookup _ _ _ _ _ B) H) as (p1 & Ep & B1).
  rewrite Ep. cbn [mbind option_bind fst snd]. change (negb (0 =? 0)) with false. cbv iota.
  pose proof (becomes_trans _ _ _ _ _ _ _ B B1) as B2. pose proof (becomes_lookup _ _ _ _ _ B2) as E2. rewrite E2. cbn [mbind option_bind].
  eapply runs_mono; [exact (rechain_runs e a _ p1 (proj1 B2) E2 Hl)|]. intros [z p2] [Z1 B3]. right. split; [exact Z1|]. split; [|exact (U2 eq_refl)].
  replace (bound_as e sin_port (inp_flags inp) inp) with ((in_state e INP_BOUND (f inp)) <| inp_lhash := Some (INPCBHASH_PORT e sin_port) |>) by by destruct inp.
  exact (becomes_trans _ _ _ _ _ _ _ B2 B3).
Qed.

(** A bind that gets as far as the port. *)
Definition local_addr (e : penv) (addr : Z) : bool :=
  IN_MULTICAST addr || in_nullhost addr || bool_decide (addr ∈ pe_ifaddrs e) || pe_ifwithaddr e addr.

Definition bindable (e : penv) (inp : inpcb) (addr : Z) : Prop :=
  pe_ifaddrs e <> [] /\ inp_lport inp = 0 /\ inp_laddr inp = INADDR_ANY /\ local_addr e addr = true.

Lemma bind_addr_local e a addr p : in_pcbbind_addr e a addr p =
  if local_addr e addr then (0, upd_pcb a (fun inp => inp <| inp_laddr := addr |>) p) else (EADDRNOTAVAIL, p).
Proof. unfold in_pcbbind_addr, local_addr. by destruct (IN_MULTICAST addr), (in_nullhost addr), (bool_decide _), (pe_ifwithaddr e addr). Qed.

(** The port part of a bind, with the reset of the address if it fails. *)
Definition bind_rest (e : penv) (a : addr) (addr port : Z) (p : inpcbtable) : option (Z * inpcbtable) :=
  r ← in_pcbbind_port e a addr port (upd_pcb a (fun inp => inp <| inp_laddr := addr |>) p);
  if negb (r.1 =? 0) then Some (r.1, upd_pcb a (fun inp => inp <| inp_laddr := INADDR_ANY |>) r.2) else Some (0, r.2).

Lemma bind_unfold e a nam p inp : pcbs p !! a = Some inp ->
  (bindable e inp (default (INADDR_ANY, 0) nam).1 /\
   in_pcbbind e a nam p = bind_rest e a (default (INADDR_ANY, 0) nam).1 (default (INADDR_ANY, 0) nam).2 p) \/
  (~ bindable e inp (default (INADDR_ANY, 0) nam).1 /\ exists error, error <> 0 /\ in_pcbbind e a nam p = Some (error, p)).
Proof.
  intros E. unfold in_pcbbind, bindable. rewrite E. cbn [mbind option_bind].
  case_bool_decide as I. { right. split; [tauto|]. by exists EADDRNOTAVAIL. }
  unfold in_nullhost. destruct (Z.eqb_spec (inp_lport inp) 0) as [P|P]; [|right; split; [tauto|by exists EINVAL]].
  destruct (Z.eqb_spec (inp_laddr inp) INADDR_ANY) as [A|A]; [|right; split; [tauto|by exists EINVAL]]. cbn [negb orb].
  destruct (default (INADDR_ANY, 0) nam) as [addr port]. cbn [fst snd]. rewrite bind_addr_local.
  destruct (local_addr e addr); [by left|]. right. split; [intros (_ & _ & _ & ?); done|]. by exists EADDRNOTAVAIL.
Qed.

Lemma bind_anonymous e a inp p : links p -> pcbs p !! a = Some inp -> pcb_ok e inp -> algo_ok (inet4_rfc6056algo p) ->
  bindable e inp INADDR_ANY ->
  runs (in_pcbbind e a None p) (fun r => r.1 = 0 /\
    becomes a (bound_as e (htons (next_port inp p)) (Z.lor (inp_flags inp) INP_ANONPORT) inp) p r.2).
Proof.
  intros L E Ok A B. destruct (bind_unfold e a None p inp E) as [[_ ->]|[? _]]; [|done]. simpl. unfold bind_rest.
  set (f := fun i : inpcb => i <| inp_laddr := INADDR_ANY |>).
  assert (Same : f inp = inp). { destruct B as (_ & _ & Z0 & _). unfold f. destruct inp. simpl in *. by subst. }
  pose proof (upd_becomes objs a f p inp L E eq_refl eq_refl) as B1. rewrite Same in B1.
  pose proof (becomes_lookup _ _ _ _ _ B1) as E1.
  eapply runs_bind; [eapply (bind_anon_runs e a inp); [apply B1|exact E1|by eapply pcb_ok_hashed|apply Ok|apply Ok|apply Ok|exact A]|].
  intros [z p1] [Z0 B2]. cbn [fst snd] in *. subst z. rewrite Z.eqb_refl. apply runs_ret. split; [done|]. exact (becomes_trans _ _ _ _ _ _ _ B1 B2).
Qed.

Lemma bind_port_given e a inp p addr port : links p -> pcbs p !! a = Some inp -> pcb_ok e inp -> bindable e inp addr -> port <> 0 ->
  runs (in_pcbbind e a (Some (addr, port)) p) (fun r =>
    (r.1 = EADDRINUSE /\ becomes a inp p r.2 /\ exists b i, b <> a /\ pcbs p !! b = Some i /\ conflicts e addr port i) \/
    (r.1 = 0 /\ becomes a (bound_as e port (inp_flags inp) (inp <| inp_laddr := addr |>)) p r.2 /\
     (exclusive inp -> forall b i, b <> a -> pcbs p !! b = Some i -> ~ conflicts e addr port i))).
Proof.
  intros L E Ok B N. destruct (bind_unfold e a (Some (addr, port)) p inp E) as [[_ ->]|[? _]]; [|done]. simpl. unfold bind_rest.
  set (f := fun i : inpcb => i <| inp_laddr := addr |>).
  pose proof (upd_becomes objs a f p inp L E eq_refl eq_refl) as B1. pose proof (becomes_lookup _ _ _ _ _ B1) as E1.
  assert (Other : forall b, b <> a -> pcbs (upd_pcb a f p) !! b = pcbs p !! b) by (intros b Hb; unfold upd_pcb; simpl; by apply lookup_alter_ne).
  eapply runs_bind; [eapply (bind_given_runs e a (f inp)); [apply B1|exact E1|exact (pcb_ok_hashed _ _ Ok)|apply Ok|exact N]|].
  intros [z p1] [[Er (b & i & Ei & Cf)]|(Z0 & B2 & Ex)].
  - injection Er as -> ->. cbn [fst snd]. apply runs_ret. left. split; [done|]. split.
    + set (g := fun i : inpcb => i <| inp_laddr := INADDR_ANY |>).
      assert (Same : g (f inp) = inp). { destruct B as (_ & _ & Z0 & _). unfold f, g. destruct inp. simpl in *. by subst. }
      rewrite <- Same at 1. exact (becomes_trans _ _ _ _ _ _ _ B1 (upd_becomes objs a g _ (f inp) (proj1 B1) E1 eq_refl eq_refl)).
    + exists b, i. assert (b <> a) by (intros ->; rewrite E1 in Ei; injection Ei as <-; destruct Cf as (_ & Cp & _), B as (_ & Z0 & _); simpl in Cp; congruence).
      split; [done|]. by rewrite <- Other.
  - cbn [fst snd] in *. subst z. rewrite Z.eqb_refl. apply runs_ret. right. split; [done|]. split; [exact (becomes_trans _ _ _ _ _ _ _ B1 B2)|].
    intros X b i Nb Ei. apply (Ex X b). by rewrite Other.
Qed.

(** What a bind leaves, in any case. *)
Lemma bind_runs e a inp nam p : links p -> pcbs p !! a = Some inp -> pcb_ok e inp -> algo_ok (inet4_rfc6056algo p) ->
  runs (in_pcbbind e a nam p) (fun r => (r.1 <> 0 /\ becomes a inp p r.2) \/
    (r.1 = 0 /\ exists q flags laddr, becomes a (bound_as e q flags (inp <| inp_laddr := laddr |>)) p r.2)).
Proof.
  intros L E Ok A. destruct (bind_unfold e a nam p inp E) as [[B Eq]|(_ & error & Ne & ->)].
  2: { apply runs_ret. left. split; [done|]. by apply becomes_same. }
  destruct nam as [[addr port]|]; simpl in *.
  - destruct (decide (port = 0)) as [->|N].
    + rewrite Eq. unfold bind_rest. set (f := fun i : inpcb => i <| inp_laddr := addr |>).
      pose proof (upd_becomes objs a f p inp L E eq_refl eq_refl) as B1. pose proof (becomes_lookup _ _ _ _ _ B1) as E1.
      eapply runs_bind; [eapply (bind_anon_runs e a (f inp)); [apply B1|exact E1|exact (pcb_ok_hashed _ _ Ok)|apply Ok|apply Ok|apply Ok|exact A]|].
      intros [z p1] [Z0 B2]. cbn [fst snd] in *. subst z. rewrite Z.eqb_refl. apply runs_ret. right. split; [done|].
      do 3 eexists. exact (becomes_trans _ _ _ _ _ _ _ B1 B2).
    + eapply runs_mono; [by apply bind_port_given|]. intros r [(R & Bc & _)|(R & Bc & _)].
      * left. split; [by rewrite R|done].
      * right. split; [done|]. by do 3 eexists.
  - eapply runs_mono; [by apply bind_anonymous|]. intros r [R Bc]. right. split; [done|]. destruct B as (_ & _ & Z0 & _).
    do 3 eexists. replace (inp <| inp_laddr := INADDR_ANY |>) with inp; [exact Bc|]. destruct inp. simpl in *. by subst.
Qed.

Lemma bound_as_ok e q flags laddr inp : pcb_ok e inp -> pcb_ok e (bound_as e q flags (inp <| inp_laddr := laddr |>)).
Proof.
  intros [S P Hl T A O]. constructor; simpl; [by right; left|done|by eexists|exact T|exact A|exact O].
Qed.

(** ** Connecting *)

Definition connected_as (e : penv) (laddr faddr fport : Z) (inp : inpcb) : inpcb :=
  in_state e INP_CONNECTED (inp <| inp_laddr := laddr |> <| inp_faddr := faddr |> <| inp_fport := fport |>).

Definition connects (faddr fport laddr lport : Z) (i : inpcb) : Prop :=
  inp_state i = INP_CONNECTED /\ same_conn faddr fport laddr lport i = true.

Lemma same_conn_spec faddr fport laddr lport i : same_conn faddr fport laddr lport i = true <->
  inp_faddr i = faddr /\ inp_fport i = fport /\ inp_laddr i = laddr /\ inp_lport i = lport.
Proof. unfold same_conn, in_hosteq. rewrite !andb_true_iff, !Z.eqb_eq. tauto. Qed.

(** A connection is on the chain that is searched for it. *)
Lemma connects_chain e faddr fport laddr lport i : pcb_ok e i ->
  connects faddr fport laddr lport i <->
  inp_hash i = Some (ConnectHash, INPCBHASH_CONNECT e faddr fport laddr lport) /\ same_conn faddr fport laddr lport i = true.
Proof.
  intros [S P _ _ _ _]. unfold connects. rewrite P. unfold place. split.
  - intros [-> M]. split; [|done]. apply same_conn_spec in M as (-> & -> & -> & ->). done.
  - intros [H M]. split; [|done]. destruct (inp_state i =? INP_BOUND); [done|].
    destruct (Z.eqb_spec (inp_state i) INP_CONNECTED); done.
Qed.

Definition all_ok (e : penv) (p : inpcbtable) : Prop := forall b i, pcbs p !! b = Some i -> pcb_ok e i.

Lemma lookup_connect_runs e faddr fport laddr lport p : links p -> all_ok e p ->
  runs (in_pcblookup_connect e faddr fport laddr lport p) (fun r => keeps p r.2 /\ match r.1 with
    | Some a => exists i, pcbs p !! a = Some i /\ connects faddr fport laddr lport i
    | None => forall b i, pcbs p !! b = Some i -> ~ connects faddr fport laddr lport i end).
Proof.
  intros L Ok. eapply runs_mono; [by apply lookup_in_runs|]. intros [[a|] p'] [K H]; (split; [exact K|]); cbn [fst snd] in *.
  - destruct H as (i & E & M). exists i. split; [done|]. exact (proj2 (connects_chain e _ _ _ _ i (Ok _ _ E)) M).
  - intros b i E [Hk M]%(connects_chain e _ _ _ _ _ (Ok _ _ E)). by rewrite (H b i E Hk) in M.
Qed.

Lemma connect_src_error e inp dst error : connect_src e inp dst = inl error -> error <> 0.
Proof.
  unfold connect_src. destruct (in_nullhost _); [|done]. destruct (pe_selectsrc e _) as [x [src|]].
  - case_bool_decide; [done|]. by intros [= <-].
  - destruct (Z.eqb_spec x 0); by intros [= <-].
Qed.

(** The local end of a connection: a port is chosen if there is none, and the address is set. *)
Definition local_end (e : penv) (a : addr) (inp : inpcb) (src : Z) (p : inpcbtable) : option (Z * inpcbtable) :=
  if in_nullhost (inp_laddr inp) then
    r ← (if inp_lport inp =? 0 then in_pcbbind e a None p else Some (0, p));
    if negb (r.1 =? 0) then Some r else Some (0, upd_pcb a (fun inp => inp <| inp_laddr := src |>) r.2)
  else Some (0, p).

Lemma local_end_runs e a inp p dst src : links p -> pcbs p !! a = Some inp -> pcb_ok e inp -> algo_ok (inet4_rfc6056algo p) ->
  connect_src e inp dst = inr src ->
  runs (local_end e a inp src p) (fun r => (r.1 <> 0 /\ becomes a inp p r.2) \/ (r.1 = 0 /\ exists i, becomes a (i <| inp_laddr := src |>) p r.2 /\ pcb_ok e i /\
    (i = inp \/ (inp_lport inp = 0 /\ exists q flags l, i = bound_as e q flags (inp <| inp_laddr := l |>))))).
Proof.
  intros L E Ok A Src. unfold local_end. destruct (in_nullhost (inp_laddr inp)) eqn:Null.
  - set (f := fun i : inpcb => i <| inp_laddr := src |>).
    assert (Set_ : forall q i, becomes a i p q -> becomes a (f i) p (upd_pcb a f q)).
    { intros q i B. eapply becomes_trans; [exact B|]. apply (upd_becomes objs a f q i (proj1 B) (becomes_lookup _ _ _ _ _ B)); done. }
    destruct (Z.eqb_spec (inp_lport inp) 0) as [Z0|Z0].
    + eapply runs_bind; [by apply (bind_runs e a inp None p)|]. intros [z p2] [[N B]|(N & q & fl & l & B)]; cbn [fst snd] in *.
      * destruct (Z.eqb_spec z 0); [done|]. apply runs_ret. by left.
      * subst z. rewrite Z.eqb_refl. apply runs_ret. right. split; [done|]. eexists. split; [exact (Set_ _ _ B)|].
        split; [by apply bound_as_ok|]. right. split; [done|]. by do 3 eexists.
    + cbn [mbind option_bind fst snd]. rewrite Z.eqb_refl. apply runs_ret. right. split; [done|]. exists inp.
      split; [apply Set_; by apply becomes_same|]. split; [done|by left].
  - apply runs_ret. right. split; [done|]. exists inp. unfold connect_src in Src. rewrite Null in Src. injection Src as <-.
    split; [|split; [done|by left]]. apply becomes_same; [done..|]. rewrite E. by destruct inp.
Qed.

Lemma connect_runs e a inp p sin_addr sin_port : links p -> all_ok e p -> pcbs p !! a = Some inp -> algo_ok (inet4_rfc6056algo p) ->
  runs (in_pcbconnect e a sin_addr sin_port p) (fun r => (r.1 <> 0 /\ becomes a inp p r.2) \/
    (r.1 = 0 /\ exists src i, let dst := connect_addr e sin_addr in
       connect_src e inp dst = inr src /\ becomes a (connected_as e src dst sin_port i) p r.2 /\
       ((i = inp /\ forall b j, pcbs p !! b = Some j -> ~ connects dst sin_port src (inp_lport inp) j) \/
        (inp_lport inp = 0 /\ exists q flags l, i = bound_as e q flags (inp <| inp_laddr := l |>))))).
Proof.
  intros L All E A. pose proof (All a inp E) as Ok. unfold in_pcbconnect. rewrite E. cbn [mbind option_bind].
  assert (Fail : forall q, keeps p q -> becomes a inp p q) by (intros q (Lq & M & _ & _ & Aq); by apply becomes_same).
  destruct (sin_port =? 0). { apply runs_ret. left. split; [done|]. by apply Fail, keeps_self. }
  destruct (connect_src e inp (connect_addr e sin_addr)) as [error|src] eqn:Src.
  { apply runs_ret. left. split; [by eapply connect_src_error|]. by apply Fail, keeps_self. }
  eapply runs_bind; [by apply lookup_connect_runs|]. intros [[b|] p1] [K M]; cbn [fst snd] in K, M.
  { apply runs_ret. left. split; [done|]. by apply Fail. }
  pose proof K as (L1 & M1 & _ & _ & A1). assert (E1 : pcbs p1 !! a = Some inp) by by rewrite M1.
  assert (A2 : algo_ok (inet4_rfc6056algo p1)) by by rewrite A1.
  eapply runs_bind; [exact (local_end_runs e a inp p1 _ src L1 E1 Ok A2 Src)|]. intros [z p2] [[N B]|(N & i & B & Oi & Hi)]; cbn [fst snd] in *.
  { destruct (Z.eqb_spec z 0); [done|]. apply runs_ret. left. split; [done|]. by eapply becomes_after_keeps. }
  subst z. rewrite Z.eqb_refl. cbn [negb]. rewrite (ok_onsend _ _ Ok). cbn [mbind option_bind fst snd]. change (negb (0 =? 0)) with false. cbv iota.
  set (f := fun i : inpcb => _). pose proof (upd_becomes objs a f p2 _ (proj1 B) (becomes_lookup _ _ _ _ _ B) eq_refl eq_refl) as B2.
  eapply runs_bind; [exact (in_pcbstate_runs objs e a INP_CONNECTED _ _ (proj1 B2) (becomes_lookup _ _ _ _ _ B2) (pcb_ok_hashed _ _ Oi))|].
  intros p3 B3. apply runs_ret. right. split; [done|]. exists src, i. cbv zeta. split; [done|]. split.
  - exact (becomes_after_keeps _ _ _ _ _ K (becomes_trans _ _ _ _ _ _ _ B (becomes_trans _ _ _ _ _ _ _ B2 B3))).
  - destruct Hi as [->|H]; [left; split; [done|]|by right]. intros b j Ej. by apply (M b).
Qed.

Lemma connected_as_ok e laddr faddr fport inp : pcb_ok e inp -> pcb_ok e (connected_as e laddr faddr fport inp).
Proof. intros [S P Hl T A O]. constructor; simpl; [by right; right|done|exact Hl|exact T|exact A|exact O]. Qed.

Lemma disconnect_runs e a inp p : links p -> pcbs p !! a = Some inp -> hashed inp ->
  runs (in_pcbdisconnect e a p) (becomes a (in_state e INP_BOUND (inp <| inp_faddr := 0 |> <| inp_fport := 0 |>)) p).
Proof.
  intros L E H. unfold in_pcbdisconnect. set (f := fun i : inpcb => _). pose proof (upd_becomes objs a f p inp L E eq_refl eq_refl) as B.
  eapply runs_mono; [exact (in_pcbstate_runs objs e a INP_BOUND _ (f inp) (proj1 B) (becomes_lookup _ _ _ _ _ B) H)|].
  intros p1 B1. exact (becomes_trans _ _ _ _ _ _ _ B B1).
Qed.

Lemma state_ok e state inp : (state = INP_ATTACHED \/ state = INP_BOUND \/ state = INP_CONNECTED) -> pcb_ok e inp -> pcb_ok e (in_state e state inp).
Proof. intros S [_ P Hl T A O]. constructor; simpl; [exact S|done|exact Hl|exact T|exact A|exact O]. Qed.

(** ** Creation and release *)

Definition new_pcb (e : penv) (so_options so_type : Z) : inpcb :=
  mkInpcb 0 0 0 0 INP_ATTACHED 0 RFC6056_ALGO_DEFAULT false so_options so_type None (Some (INPCBHASH_PORT e 0)).

Lemma alloc_runs e so_options so_type p : NoDup objs -> links p ->
  runs (in_pcballoc e so_options so_type p) (fun r => match r.1 with
    | None => r.2 = p
    | Some a => pcbs p !! a = None /\ becomes a (new_pcb e so_options so_type) p r.2 end).
Proof.
  intros N L. unfold in_pcballoc. destruct (pool_get (inpcb_pool p)) as [[a pl]|] eqn:G; [|by apply runs_ret].
  pose proof L as [P Q Lp Lh].
  assert (Fresh : pcbs p !! a = None).
  { pose proof (pool_get_objects _ _ _ (elements (dom (pcbs p))) G) as Perm. unfold pool_objects in Perm. rewrite P in Perm.
    rewrite <- Perm in N. apply NoDup_app in N as (_ & _ & N). apply NoDup_cons in N as [N _].
    rewrite elem_of_elements, not_elem_of_dom in N. done. }
  set (inp := mkInpcb _ _ _ _ _ _ _ _ _ _ _ _). set (p1 := p <| inpcb_pool := pl |> <| pcbs := _ |> <| inpt_queue := _ |>).
  assert (L1 : links p1).
  { constructor; unfold p1; simpl.
    - rewrite dom_insert_L, elements_union_singleton by (by apply not_elem_of_dom). rewrite <- P.
      exact (pool_get_objects _ _ _ _ G).
    - destruct Q as [Nq Mq]. split.
      + apply NoDup_cons. split; [|done]. rewrite Mq, Fresh. by intros [? ?].
      + intros b. rewrite elem_of_cons, Mq. destruct (decide (b = a)) as [->|D]; [rewrite lookup_insert_eq|rewrite lookup_insert_ne by done]; naive_solver.
    - by apply linked_new.
    - by apply linked_new. }
  assert (E1 : pcbs p1 !! a = Some inp) by (unfold p1; simpl; by rewrite lookup_insert_eq).
  pose proof (lhash_insert_becomes objs (INPCBHASH_PORT e 0) a p1 inp L1 E1 eq_refl) as B1.
  eapply runs_bind; [eapply (in_pcbstate_runs objs e a INP_ATTACHED _ _ (proj1 B1) (becomes_lookup _ _ _ _ _ B1)); done|].
  intros p2 B2. apply runs_ret. cbn [fst snd]. split; [done|]. destruct (becomes_trans _ _ _ _ _ _ _ B1 B2) as (L2 & M2 & A2).
  split; [done|]. split; [|done]. rewrite M2. unfold p1. simpl. by rewrite insert_insert_eq.
Qed.

Lemma pcb_detach_runs e a inp p : links p -> pcbs p !! a = Some inp -> pcb_ok e inp ->
  runs (in_pcbdetach e a p) (fun p' => links p' /\ pcbs p' = delete a (pcbs p) /\ inet4_rfc6056algo p' = inet4_rfc6056algo p).
Proof.
  intros L E Ok. unfold in_pcbdetach.
  eapply runs_bind; [exact (in_pcbstate_runs objs e a INP_ATTACHED _ _ L E (pcb_ok_hashed _ _ Ok))|]. intros p1 B1.
  destruct (ok_lhash _ _ Ok) as [k Hk].
  eapply runs_bind; [exact (lhash_remove_runs objs a p1 _ k (proj1 B1) (becomes_lookup _ _ _ _ _ B1) Hk)|]. intros p2 B2.
  pose proof (becomes_lookup _ _ _ _ _ B2) as E2. destruct (becomes_trans _ _ _ _ _ _ _ B1 B2) as ([P Q Lp Lh] & M & A). apply runs_ret.
  split; [|split; [simpl; by rewrite M, delete_insert_eq|done]]. constructor; simpl.
  - rewrite <- P. etrans; [exact (pool_put_objects (inpcb_pool p2) a (elements (dom (delete a (pcbs p2)))))|]. unfold pool_objects. f_equiv.
    rewrite dom_delete_L, <- elements_union_singleton by set_solver. rewrite <- union_difference_singleton_L; [done|]. apply elem_of_dom. by eexists.
  - destruct Q as [Nq Mq]. split; [by apply NoDup_filter|]. intros b. unfold list_remove. rewrite list_elem_of_filter, Mq.
    destruct (decide (b = a)) as [->|D]; [rewrite lookup_delete_eq|rewrite lookup_delete_ne by done]; naive_solver.
  - by eapply linked_delete.
  - by eapply linked_delete.
Qed.
End ops.
