(* ===== verification/InPcbProps.v ===== *)
(** * The table of control blocks of TCP

    The operations on the table in any order: its invariant, the lookup of the
    control block of a segment, and the exclusive use of ports and connections. *)

From stdpp Require Import functions.
From S2P Require Import Prelude Pool IpReass IpId Ip IpOutput InPcb InPcbFacts InPcbOps.

(** What the stack does with the table. *)
Inductive pcb_op :=
  | Attach (so_options : Z)
  | Bind (a : addr) (nam : option (Z * Z))
  | Connect (a : addr) (sin_addr sin_port : Z)
  | Accept (a : addr) (dst dport src sport : Z)
  | Disconnect (a : addr)
  | Detach (a : addr)
  | Segment (src sport dst dport : Z).

Definition pcb_step (e : penv) (op : pcb_op) (p : inpcbtable) : option inpcbtable :=
  match op with
  | Attach so_options => snd <$> in_pcballoc e so_options SOCK_STREAM p
  | Bind a nam => snd <$> in_pcbbind e a nam p
  | Connect a sin_addr sin_port => snd <$> tcp_connect e a sin_addr sin_port p
  | Accept a dst dport src sport => snd <$> syn_bind e a dst dport src sport p
  | Disconnect a => in_pcbdisconnect e a p
  | Detach a => in_pcbdetach e a p
  | Segment src sport dst dport => snd <$> findpcb e src sport dst dport p
  end.

(** The control block of a request is that of an open socket. *)
Definition live (op : pcb_op) (p : inpcbtable) : Prop :=
  match op with
  | Attach _ | Segment _ _ _ _ => True
  | Bind a _ | Connect a _ _ | Accept a _ _ _ _ | Disconnect a | Detach a => is_Some (pcbs p !! a)
  end.

(** The states that requests with the property [ok] lead to. *)
Inductive pcb_reach (e : penv) (count : nat) (ok : pcb_op -> inpcbtable -> Prop) : inpcbtable -> Prop :=
  | pcb_reach_init : pcb_reach e count ok (in_pcbinit e count)
  | pcb_reach_step op p p' : pcb_reach e count ok p -> live op p -> ok op p -> pcb_step e op p = Some p' -> pcb_reach e count ok p'.

Definition any_op (op : pcb_op) (p : inpcbtable) : Prop := True.

(** The open control blocks that come from the SYN cache. *)
Definition accepted (op : pcb_op) (A : gset addr) : gset addr :=
  match op with Accept a _ _ _ _ => {[a]} ∪ A | Detach a => A ∖ {[a]} | _ => A end.

(** The states that requests lead to, with those control blocks. *)
Inductive pcb_history (e : penv) (count : nat) : gset addr -> inpcbtable -> Prop :=
  | pcb_history_init : pcb_history e count ∅ (in_pcbinit e count)
  | pcb_history_step op A p p' : pcb_history e count A p -> live op p -> pcb_step e op p = Some p' -> pcb_history e count (accepted op A) p'.

(** The port of a connection is known when the connection is made. *)
Definition port_known (op : pcb_op) (p : inpcbtable) : Prop :=
  match op with
  | Connect a _ _ => match pcbs p !! a with Some inp => inp_lport inp <> 0 \/ next_port inp p <> 0 | None => True end
  | Accept _ _ dport _ _ => dport <> 0
  | _ => True
  end.

#[export] Instance live_dec op p : Decision (live op p).
Proof. destruct op; apply _. Defined.

#[export] Instance port_known_dec op p : Decision (port_known op p).
Proof. destruct op as [| |a ?| | | |]; cbn [port_known]; try destruct (pcbs p !! a); apply _. Defined.

(** A sequence of requests. *)
Fixpoint pcb_run (e : penv) (ok : pcb_op -> inpcbtable -> Prop) `{forall op p, Decision (ok op p)} (ops : list pcb_op) (p : inpcbtable) : option inpcbtable :=
  match ops with
  | [] => Some p
  | op :: ops => if decide (live op p /\ ok op p) then p ← pcb_step e op p; pcb_run e ok ops p else None
  end.

(** ** Invariants *)

Definition pcb_objs (count : nat) : list addr := mempool (pool_init count).

(** [links]: the pool has what is free, the queue and the chains are as the
    entries of the control blocks say.  [all_ok]: a control block is on the chain
    of its state, addresses and ports. *)
Record table_inv (e : penv) (count : nat) (p : inpcbtable) : Prop := mkTableInv {
  pi_links : links (pcb_objs count) p;
  pi_ok : all_ok e p;
  pi_algo : algo_ok (inet4_rfc6056algo p)
}.

Definition port_placed (e : penv) (i : inpcb) : Prop := inp_lhash i = Some (INPCBHASH_PORT e (inp_lport i)).

(** The control blocks outside of [A] are on the chains of their ports. *)
Definition ports_placed (e : penv) (A : gset addr) (p : inpcbtable) : Prop := forall b i, b ∉ A -> pcbs p !! b = Some i -> port_placed e i.

(** The invariant of the table.  [A] has the control blocks that come from the SYN
    cache: [syn_cache_get] sets their ports without moving them to the chain of the
    port. *)
Definition pcb_inv (e : penv) (count : nat) (A : gset addr) (p : inpcbtable) : Prop := table_inv e count p /\ ports_placed e A p.

Definition conn_of (i j : inpcb) : Prop := connects (inp_faddr i) (inp_fport i) (inp_laddr i) (inp_lport i) j.

Definition conns_unique (p : inpcbtable) : Prop :=
  forall a b i j, pcbs p !! a = Some i -> pcbs p !! b = Some j -> inp_state i = INP_CONNECTED -> conn_of i j -> a = b.

(** The change of one control block that keeps the connections apart. *)
Definition apart (p : inpcbtable) (a : addr) (i : inpcb) : Prop :=
  inp_state i <> INP_CONNECTED \/ pcbs p !! a = Some i \/ forall b j, b <> a -> pcbs p !! b = Some j -> ~ conn_of i j.

(** What an operation on [a] leaves; [placed] and [known] are what it
    needs to keep the control block on its port chain and the connections apart. *)
Definition leaves (e : penv) (count : nat) (a : addr) (placed known : Prop) (p p' : inpcbtable) : Prop :=
  exists inp i, pcbs p !! a = Some inp /\ becomes (pcb_objs count) a i p p' /\ pcb_ok e i /\ (placed -> port_placed e inp -> port_placed e i) /\ (known -> apart p a i).

Section steps.
Context (e : penv) (count : nat).

Abbreviation inv := (table_inv e count).
Abbreviation leaves := (leaves e count).
Abbreviation becomes := (becomes (pcb_objs count)).

Lemma conn_of_sym i j : inp_state i = INP_CONNECTED -> conn_of i j -> conn_of j i.
Proof. intros S [Sj (A & B & C & D)%same_conn_spec]. split; [done|]. by apply same_conn_spec. Qed.

Lemma leaves_inv a P K p p' : inv p -> leaves a P K p p' -> inv p'.
Proof.
  intros [L O A] (inp & i & E & (L' & M & A') & Oi & _). constructor; [done| |by rewrite A'].
  intros b j. rewrite M. destruct (decide (b = a)) as [->|N]; [rewrite lookup_insert_eq; intros [= <-]; done|].
  rewrite lookup_insert_ne by done. apply O.
Qed.

Lemma leaves_placed a (P : Prop) K A p p' : P -> ports_placed e A p -> leaves a P K p p' -> ports_placed e A p'.
Proof.
  intros HP P0 (inp & i & E & (_ & M & _) & _ & Pi & _) b j Nb. rewrite M.
  destruct (decide (b = a)) as [->|N]; [rewrite lookup_insert_eq; intros [= <-]; exact (Pi HP (P0 a inp Nb E))|].
  rewrite lookup_insert_ne by done. by apply P0.
Qed.

Lemma leaves_placed_out a (P K : Prop) A p p' : ports_placed e A p -> leaves a P K p p' -> ports_placed e ({[a]} ∪ A) p'.
Proof.
  intros P0 (inp & i & E & (_ & M & _) & _) b j Nb. rewrite M, lookup_insert_ne by set_solver. apply P0. set_solver.
Qed.

Lemma insert_unique a i p p' : conns_unique p -> pcbs p' = <[a := i]> (pcbs p) ->
  (forall b j, b <> a -> pcbs p !! b = Some j -> inp_state i = INP_CONNECTED -> ~ conn_of i j) -> conns_unique p'.
Proof.
  intros U M New x y j k. rewrite M. destruct (decide (x = a)) as [->|Nx], (decide (y = a)) as [->|Ny]; [done|..].
  - rewrite lookup_insert_eq, lookup_insert_ne by done. intros [= <-] Ek S C. by destruct (New y k Ny Ek S).
  - rewrite lookup_insert_eq, lookup_insert_ne by done. intros Ej [= <-] S C. pose proof (conn_of_sym _ _ S C) as C'.
    destruct C as [Si _]. by destruct (New x j Nx Ej Si).
  - rewrite !lookup_insert_ne by done. apply U.
Qed.

Lemma leaves_unique a P (K : Prop) p p' : K -> conns_unique p -> leaves a P K p p' -> conns_unique p'.
Proof.
  intros HK U (inp & i & E & (_ & M & _) & _ & _ & Ap). specialize (Ap HK). eapply insert_unique; [done|exact M|].
  intros b j N Ej S C. destruct Ap as [?|[Same|H]]; [done| |by eapply H].
  apply N. symmetry. exact (U a b i j Same Ej S C).
Qed.

Lemma leaves_trans a (P Q K K1 K2 : Prop) p p1 p2 : leaves a P K1 p p1 -> leaves a Q K2 p1 p2 -> (K -> K1 /\ K2) -> leaves a (P /\ Q) K p p2.
Proof.
  intros (inp & i & E & B1 & O1 & P1 & A1) (inp1 & j & E1 & B2 & O2 & P2 & A2) HK.
  pose proof (becomes_lookup _ _ _ _ _ B1) as X. rewrite X in E1. injection E1 as <-.
  exists inp, j. split; [done|]. split; [by eapply becomes_trans|]. split; [done|]. split; [intros [? ?]; auto|].
  intros [K1' K2']%HK. specialize (A1 K1'). specialize (A2 K2'). destruct A2 as [?|[Same|H]]; [by left| |].
  - assert (j = i) as -> by congruence. done.
  - right; right. intros b k N Ek. apply (H b k N). destruct B1 as (_ & M & _). by rewrite M, lookup_insert_ne.
Qed.

Lemma leaves_same a P K p p' inp : inv p -> pcbs p !! a = Some inp -> becomes a inp p p' -> leaves a P K p p'.
Proof. intros [_ O _] E B. exists inp, inp. split; [done|]. split; [done|]. split; [by eapply O|]. split; [done|]. intros _. by right; left. Qed.

Lemma leaves_bound a P K p p' inp q flags l : inv p -> pcbs p !! a = Some inp -> becomes a (bound_as e q flags (inp <| inp_laddr := l |>)) p p' -> leaves a P K p p'.
Proof.
  intros [_ O _] E B. eexists _, _. split; [done|]. split; [exact B|]. split; [by apply bound_as_ok, (O a)|]. split; [done|]. intros _. by left.
Qed.

Lemma bind_leaves a nam P K p : inv p -> is_Some (pcbs p !! a) -> runs (in_pcbbind e a nam p) (fun r => leaves a P K p r.2).
Proof.
  intros I [inp E]. pose proof I as [L O A].
  eapply runs_mono; [exact (bind_runs _ e a inp nam p L E (O a inp E) A)|]. intros r [[_ B]|(_ & q & fl & l & B)].
  - by eapply leaves_same.
  - by eapply leaves_bound.
Qed.

Lemma connect_leaves a sin_addr sin_port p inp : inv p -> pcbs p !! a = Some inp ->
  runs (in_pcbconnect e a sin_addr sin_port p) (fun r => leaves a True (inp_lport inp <> 0) p r.2).
Proof.
  intros I E. pose proof I as [L O A]. pose proof (O a inp E) as Oi.
  eapply runs_mono; [exact (connect_runs _ e a inp p sin_addr sin_port L O E A)|]. intros r [[_ B]|(_ & src & i & _ & B & H)].
  { by eapply leaves_same. }
  cbv zeta in B, H. eexists inp, _. split; [done|]. split; [exact B|]. destruct H as [[-> U]|(Z0 & q & fl & l & ->)].
  - split; [by apply connected_as_ok|]. split; [done|]. intros _. right; right. intros b j _ Ej. by apply (U b).
  - split; [by apply connected_as_ok, bound_as_ok|]. split; [by intros _|]. intros X. by destruct (X Z0).
Qed.

Lemma htons_zero z : 0 <= z < 2 ^ 16 -> htons z = 0 -> z = 0.
Proof. unfold htons, u16. intros R. rewrite (Z.mod_small z) by lia. intros H. pose proof (Z.mod_pos_bound z 256 ltac:(lia)). pose proof (Z.div_mod z 256 ltac:(lia)).
  pose proof (Z.div_pos z 256). change (2 ^ 8) with 256 in *. lia. Qed.

Lemma tcp_connect_leaves a sin_addr sin_port p inp : inv p -> pcbs p !! a = Some inp ->
  runs (tcp_connect e a sin_addr sin_port p) (fun r => leaves a (True /\ True) (inp_lport inp <> 0 \/ next_port inp p <> 0) p r.2).
Proof.
  intros I E. pose proof I as [L O A]. pose proof (O a inp E) as Oi. unfold tcp_connect. rewrite E. cbn [mbind option_bind].
  destruct (Z.eqb_spec (inp_lport inp) 0) as [Z0|N0].
  2: { cbn [mbind option_bind fst snd]. rewrite Z.eqb_refl. cbn [negb]. eapply runs_mono; [by apply connect_leaves|].
       intros r H. eapply (leaves_trans a _ _ _ True); [by eapply leaves_same, becomes_same|exact H|tauto]. }
  destruct (bind_unfold e a None p inp E) as [[B _]|(_ & error & Ne & ->)].
  2: { cbn [mbind option_bind fst snd]. destruct (Z.eqb_spec error 0); [done|]. apply runs_ret. by eapply leaves_same, becomes_same. }
  eapply runs_bind; [exact (bind_anonymous _ e a inp p L E Oi A B)|]. intros [z p1] [R B1]. cbn [fst snd] in *. subst z. rewrite Z.eqb_refl. cbn [negb].
  assert (L1 : leaves a True True p p1).
  { apply (leaves_bound a True True p p1 inp (htons (next_port inp p)) (Z.lor (inp_flags inp) INP_ANONPORT) INADDR_ANY I E).
    destruct B as (_ & _ & Za & _). replace (inp <| inp_laddr := INADDR_ANY |>) with inp; [exact B1|]. simpl in *. destruct inp. simpl in *. by subst. }
  eapply runs_mono; [exact (connect_leaves a sin_addr sin_port p1 _ (leaves_inv _ _ _ _ _ I L1) (becomes_lookup _ _ _ _ _ B1))|].
  intros r H. eapply leaves_trans; [exact L1|exact H|]. intros [?|N]; [done|]. split; [done|]. simpl. intros Hz. apply N, htons_zero; [|done].
  unfold next_port, u16. by apply Z.mod_pos_bound.
Qed.

Lemma accept_leaves a dst dport src sport p : inv p -> is_Some (pcbs p !! a) ->
  runs (syn_bind e a dst dport src sport p) (fun r => leaves a (False /\ True) (dport <> 0) p r.2).
Proof.
  intros I [inp E]. pose proof I as [L O A]. pose proof (O a inp E) as Oi. unfold syn_bind. set (f := fun i : inpcb => _).
  pose proof (upd_becomes _ a f p inp L E eq_refl eq_refl) as B.
  eapply runs_bind; [exact (in_pcbstate_runs _ e a INP_BOUND _ (f inp) (proj1 B) (becomes_lookup _ _ _ _ _ B) (pcb_ok_hashed _ _ Oi))|].
  intros p1 B1. pose proof (becomes_trans _ _ _ _ _ _ _ B B1) as B2.
  assert (L1 : leaves a False True p p1).
  { eexists inp, _. split; [done|]. split; [exact B2|]. split; [|split; [done|by left]].
    destruct Oi as [? ? ? ? ? ?]. constructor; simpl; [by right; left|done..]. }
  eapply runs_mono; [exact (connect_leaves a src sport p1 _ (leaves_inv _ _ _ _ _ I L1) (becomes_lookup _ _ _ _ _ B2))|].
  intros r H. eapply leaves_trans; [exact L1|exact H|]. simpl. tauto.
Qed.

(** The control block of a connection from the SYN cache. *)
Lemma syn_bind_runs a dst dport src sport p : inv p -> is_Some (pcbs p !! a) ->
  runs (syn_bind e a dst dport src sport p) (fun r => exists i, pcbs r.2 = <[a := i]> (pcbs p) /\
    (r.1 = 0 -> inp_state i = INP_CONNECTED /\
       (dst <> INADDR_ANY -> dport <> 0 -> connects (connect_addr e src) sport dst dport i /\
          forall b j, b <> a -> pcbs p !! b = Some j -> ~ connects (connect_addr e src) sport dst dport j))).
Proof.
  intros I [inp E]. pose proof I as [L O A]. pose proof (O a inp E) as Oi. unfold syn_bind. set (f := fun i : inpcb => _).
  pose proof (upd_becomes _ a f p inp L E eq_refl eq_refl) as B.
  eapply runs_bind; [exact (in_pcbstate_runs _ e a INP_BOUND _ (f inp) (proj1 B) (becomes_lookup _ _ _ _ _ B) (pcb_ok_hashed _ _ Oi))|].
  intros p1 B1. pose proof (becomes_trans _ _ _ _ _ _ _ B B1) as B2.
  assert (L1 : leaves a False True p p1).
  { eexists inp, _. split; [done|]. split; [exact B2|]. split; [|split; [done|by left]].
    destruct Oi as [? ? ? ? ? ?]. constructor; simpl; [by right; left|done..]. }
  destruct (leaves_inv _ _ _ _ _ I L1) as [L' O' A']. pose proof (becomes_lookup _ _ _ _ _ B2) as E2. destruct B2 as (_ & M2 & _).
  eapply runs_mono; [exact (connect_runs _ e a _ p1 src sport L' O' E2 A')|]. intros [z p2] [[N (_ & M & _)]|(_ & ad & i & Src & (_ & M & _) & H)]; cbn [fst snd] in *.
  - eexists. split; [rewrite M, M2, insert_insert_eq; reflexivity|]. done.
  - eexists. split; [rewrite M, M2, insert_insert_eq; reflexivity|]. intros _. split; [done|]. intros Nd Np. destruct H as [[-> U]|[Z0 _]]; [|done].
    unfold connect_src in Src. simpl in Src. unfold in_nullhost in Src. destruct (Z.eqb_spec dst INADDR_ANY); [done|]. injection Src as <-.
    split; [split; [done|by apply same_conn_spec]|]. intros b j Nb Ej. apply (U b). by rewrite M2, lookup_insert_ne.
Qed.

Lemma disconnect_leaves a p : inv p -> is_Some (pcbs p !! a) -> runs (in_pcbdisconnect e a p) (leaves a True True p).
Proof.
  intros I [inp E]. pose proof I as [L O A]. pose proof (O a inp E) as Oi.
  eapply runs_mono; [exact (disconnect_runs _ e a inp p L E (pcb_ok_hashed _ _ Oi))|]. intros p' B.
  eexists inp, _. split; [done|]. split; [exact B|]. split; [|split; [done|by left]].
  destruct Oi as [? ? ? ? ? ?]. constructor; simpl; [by right; left|done..].
Qed.

(** The invariants only look at the control blocks. *)
Lemma same_pcbs_inv p p' : inv p -> keeps (pcb_objs count) p p' -> inv p' /\ (forall A, ports_placed e A p -> ports_placed e A p') /\ (conns_unique p -> conns_unique p').
Proof.
  intros [L O A] (L' & M & _ & _ & A'). unfold ports_placed, conns_unique. rewrite M.
  split; [|done]. constructor; [done| |by rewrite A']. intros b i. rewrite M. apply O.
Qed.

(** ** The lookup of the control block of a segment *)

Definition binds (laddr lport : Z) (i : inpcb) : Prop := inp_state i = INP_BOUND /\ same_bind laddr lport i = true.

Lemma binds_chain laddr lport i : pcb_ok e i -> binds laddr lport i <->
  inp_hash i = Some (BindHash, INPCBHASH_BIND e laddr lport) /\ same_bind laddr lport i = true.
Proof.
  intros [S P _ _ _ _]. unfold binds. rewrite P. unfold place. split.
  - intros [-> M]. split; [|done]. unfold same_bind, in_hosteq in M. apply andb_true_iff in M as [Mp%Z.eqb_eq Ma%Z.eqb_eq]. by rewrite <- Ma, <- Mp.
  - intros [H M]. split; [|done]. destruct (Z.eqb_spec (inp_state i) INP_BOUND); [done|]. by destruct (inp_state i =? INP_CONNECTED).
Qed.

Lemma lookup_bound_runs laddr lport p : inv p ->
  runs (lookup_in (BindHash, INPCBHASH_BIND e laddr lport) (same_bind laddr lport) p) (fun r => keeps (pcb_objs count) p r.2 /\ match r.1 with
    | Some a => exists i, pcbs p !! a = Some i /\ binds laddr lport i
    | None => forall b i, pcbs p !! b = Some i -> ~ binds laddr lport i end).
Proof.
  intros [L Ok _]. eapply runs_mono; [by apply (lookup_in_runs (pcb_objs count))|]. intros [[a|] p'] [K H]; (split; [exact K|]); cbn [fst snd] in *.
  - destruct H as (i & E & M). exists i. split; [done|]. exact (proj2 (binds_chain laddr lport i (Ok _ _ E)) M).
  - intros b i E [Hk M]%(binds_chain _ _ _ (Ok _ _ E)). by rewrite (H b i E Hk) in M.
Qed.
End steps.

(** The control block that serves a segment: that of the connection, else one bound
    to the destination, else one bound to the port on any address. *)
Inductive serves (m : gmap addr inpcb) (src sport dst dport : Z) : option addr -> Prop :=
  | serves_connection a i : m !! a = Some i -> connects src sport dst dport i -> serves m src sport dst dport (Some a)
  | serves_bound a i : (forall b j, m !! b = Some j -> ~ connects src sport dst dport j) ->
      m !! a = Some i -> binds dst dport i -> serves m src sport dst dport (Some a)
  | serves_any a i : (forall b j, m !! b = Some j -> ~ connects src sport dst dport j /\ ~ binds dst dport j) ->
      m !! a = Some i -> binds INADDR_ANY dport i -> serves m src sport dst dport (Some a)
  | serves_none : (forall b j, m !! b = Some j -> ~ connects src sport dst dport j /\ ~ binds dst dport j /\ ~ binds INADDR_ANY dport j) ->
      serves m src sport dst dport None.

Section reach.
Context (e : penv) (count : nat).

Lemma findpcb_runs src sport dst dport p : table_inv e count p ->
  runs (findpcb e src sport dst dport p) (fun r => serves (pcbs p) src sport dst dport r.1 /\ keeps (pcb_objs count) p r.2).
Proof.
  intros I. unfold findpcb. eapply runs_bind; [apply (lookup_connect_runs (pcb_objs count)); apply I|]. intros [[a|] p1] [K1 H1]; cbn [fst snd] in *.
  { apply runs_ret. destruct H1 as (i & E & C). split; [by eapply serves_connection|done]. }
  destruct (same_pcbs_inv e count p p1 I K1) as [I1 _]. assert (M1 : pcbs p1 = pcbs p) by apply K1.
  unfold in_pcblookup_bind. eapply runs_bind; [by apply (lookup_bound_runs e count)|]. intros [[a|] p2] [K2 H2]; rewrite M1 in H2; cbn [fst snd] in *.
  { apply runs_ret. destruct H2 as (i & E & B). split; [by eapply serves_bound|by eapply keeps_trans]. }
  destruct (same_pcbs_inv e count p1 p2 I1 K2) as [I2 _]. assert (M2 : pcbs p2 = pcbs p) by (rewrite <- M1; apply K2).
  eapply runs_mono; [by apply (lookup_bound_runs e count)|]. intros [[a|] p3] [K3 H3]; rewrite M2 in H3; cbn [fst snd] in *.
  - destruct H3 as (i & E & B). split; [|by do 2 (eapply keeps_trans; [done|])]. eapply serves_any; [|done..]. intros b j Ej. split; [by eapply H1|by eapply H2].
  - split; [|by do 2 (eapply keeps_trans; [done|])]. apply serves_none. intros b j Ej. split; [by eapply H1|]. split; [by eapply H2|by eapply H3].
Qed.

(** ** Every request *)

Lemma pcb_objs_nodup : NoDup (pcb_objs count).
Proof. apply pool_init_nodup. Qed.

Lemma attach_step so_options p : table_inv e count p -> runs (in_pcballoc e so_options SOCK_STREAM p) (fun r =>
  table_inv e count r.2 /\ (forall X, ports_placed e X p -> ports_placed e X r.2) /\ (conns_unique p -> conns_unique r.2)).
Proof.
  intros [L O A]. eapply runs_mono; [exact (alloc_runs _ e so_options SOCK_STREAM p pcb_objs_nodup L)|]. intros [[a|] p']; cbn [fst snd].
  2: { intros ->. by split; [constructor|]. }
  intros (F & L' & M & A').
  assert (All : forall (P : inpcb -> Prop) b i, P (new_pcb e so_options SOCK_STREAM) -> (forall b i, pcbs p !! b = Some i -> P i) -> pcbs p' !! b = Some i -> P i).
  { intros P b i Pn Pp. rewrite M. destruct (decide (b = a)) as [->|N]; [rewrite lookup_insert_eq; by intros [= <-]|rewrite lookup_insert_ne by done; apply Pp]. }
  split; [|split].
  - constructor; [done| |by rewrite A']. intros b i. apply (All (pcb_ok e)); [|exact O].
    constructor; simpl; [by left|done|by eexists|by left|by left|done].
  - intros X Pl b i Nb. rewrite M. destruct (decide (b = a)) as [->|N]; [rewrite lookup_insert_eq; by intros [= <-]|rewrite lookup_insert_ne by done; by apply Pl].
  - intros U. by eapply insert_unique.
Qed.

Lemma detach_step a p : table_inv e count p -> is_Some (pcbs p !! a) -> runs (in_pcbdetach e a p) (fun p' =>
  table_inv e count p' /\ (forall X, ports_placed e X p -> ports_placed e (X ∖ {[a]}) p') /\ (conns_unique p -> conns_unique p')).
Proof.
  intros [L O A] [inp E]. eapply runs_mono; [exact (pcb_detach_runs _ e a inp p L E (O a inp E))|]. intros p' (L' & M & A').
  assert (Sub : forall b i, pcbs p' !! b = Some i -> pcbs p !! b = Some i) by (intros b i; rewrite M; by intros [_ ?]%lookup_delete_Some).
  split; [|split].
  - constructor; [done| |by rewrite A']. intros b i ?%Sub. by eapply O.
  - intros X P b i Nb Ei. rewrite M in Ei. apply lookup_delete_Some in Ei as [? ?]. apply (P b i); [set_solver|done].
  - intros U x y i j ?%Sub ?%Sub. by apply U.
Qed.

Lemma runs_fmap_snd {A B} (o : option (A * B)) (P : B -> Prop) : runs o (fun r => P r.2) -> runs (snd <$> o) P.
Proof. intros (x & -> & H). by exists x.2. Qed.

Lemma leaves_step a (P K : Prop) p p' : table_inv e count p -> leaves e count a P K p p' ->
  table_inv e count p' /\ (forall A, ports_placed e A p -> ports_placed e ({[a]} ∪ A) p') /\ (P -> forall A, ports_placed e A p -> ports_placed e A p') /\
  (K -> conns_unique p -> conns_unique p').
Proof.
  intros I H. split; [by eapply leaves_inv|]. split; [intros A Y; exact (leaves_placed_out _ _ _ _ _ _ _ _ Y H)|].
  split; [intros X A Y; exact (leaves_placed _ _ _ _ _ _ _ _ X Y H)|intros X Y; exact (leaves_unique _ _ _ _ _ _ _ X Y H)].
Qed.

Lemma pcb_step_inv op p : table_inv e count p -> live op p -> runs (pcb_step e op p) (fun p' => table_inv e count p' /\
  (forall A, ports_placed e A p -> ports_placed e (accepted op A) p') /\ (port_known op p -> conns_unique p -> conns_unique p')).
Proof.
  intros I Lv. destruct op as [opts|a nam|a ad port|a dst dport src sport|a|a|src sport dst dport]; cbn [pcb_step live accepted] in *; try apply runs_fmap_snd.
  - eapply runs_mono; [by apply attach_step|]. intros r (? & ? & ?). split; [done|]. split; auto.
  - eapply runs_mono; [by apply (bind_leaves e count a nam True True)|]. intros r H. apply (leaves_step _ _ _ _ _ I) in H as (? & _ & HP & HK). split; [done|]. split; auto.
  - destruct Lv as [inp E]. eapply runs_mono; [by apply tcp_connect_leaves|]. intros r H. apply (leaves_step _ _ _ _ _ I) in H as (? & _ & HP & HK).
    split; [done|]. split; [auto|]. intros X. apply HK. cbn [port_known] in X. by rewrite E in X.
  - eapply runs_mono; [by apply (accept_leaves e count)|]. intros r H. apply (leaves_step _ _ _ _ _ I) in H as (? & HP & _ & HK). split; [done|]. split; auto.
  - eapply runs_mono; [by apply (disconnect_leaves e count)|]. intros r H. apply (leaves_step _ _ _ _ _ I) in H as (? & _ & HP & HK). split; [done|]. split; auto.
  - eapply runs_mono; [by apply detach_step|]. intros r (? & ? & ?). split; [done|]. split; auto.
  - eapply runs_mono; [by apply findpcb_runs|]. intros r [_ K]. destruct (same_pcbs_inv e count _ _ I K) as (? & ? & ?). split; [done|]. split; auto.
Qed.

Lemma pcb_init_inv : table_inv e count (in_pcbinit e count) /\ ports_placed e ∅ (in_pcbinit e count) /\ conns_unique (in_pcbinit e count).
Proof.
  assert (Li : forall (K : Type) (g : inpcb -> option K), linked g ∅ (fun _ => [])).
  { intros K g k. split; [constructor|]. intros a. rewrite elem_of_nil. split; [done|]. intros (i & E & _). by rewrite lookup_empty in E. }
  assert (None_ : forall b, pcbs (in_pcbinit e count) !! b = None) by (intros b; apply lookup_empty).
  split; [|split; [intros b i _ E; by rewrite None_ in E|intros a b i j E; by rewrite None_ in E]].
  constructor; [|intros b i E; by rewrite None_ in E|by right].
  constructor; simpl; [by rewrite dom_empty_L, elements_empty, app_nil_r| |apply Li|apply Li].
  split; [constructor|]. intros a. rewrite elem_of_nil, lookup_empty. split; [done|by intros [? ?]].
Qed.

Lemma pcb_reach_inv ok p : pcb_reach e count ok p -> table_inv e count p.
Proof.
  induction 1 as [|op p p' _ I Lv _ St]; [apply pcb_init_inv|]. destruct (pcb_step_inv op p I Lv) as (q & Eq & Iq & _). congruence.
Qed.

Lemma pcb_history_inv A p : pcb_history e count A p -> pcb_inv e count A p.
Proof.
  induction 1 as [|op A p p' _ [I P] Lv St]; [split; apply pcb_init_inv|].
  destruct (pcb_step_inv op p I Lv) as (q & Eq & Iq & Pq & _). assert (q = p') as -> by congruence. split; auto.
Qed.

Lemma pcb_reach_unique p : pcb_reach e count port_known p -> conns_unique p.
Proof.
  induction 1 as [|op p p' R U Lv Ok St]; [apply pcb_init_inv|].
  destruct (pcb_step_inv op p (pcb_reach_inv _ _ R) Lv) as (q & Eq & _ & _ & Hq). assert (q = p') as -> by congruence. auto.
Qed.
End reach.

Lemma pcb_run_reach e count ok `{forall op p, Decision (ok op p)} ops : forall p p', pcb_reach e count ok p -> pcb_run e ok ops p = Some p' -> pcb_reach e count ok p'.
Proof.
  induction ops as [|op ops IH]; intros p p' R; simpl; [by intros <-%(inj Some)|].
  destruct (decide _) as [[Lv Ok]|]; [|done]. destruct (pcb_step e op p) as [p1|] eqn:St; cbn [mbind option_bind]; [|done].
  apply IH. by eapply pcb_reach_step.
Qed.

(** ** Properties *)

(** C15. After any sequence of requests, whatever their errors, every request on an
    open socket completes without touching a control block that is not linked, and
    the table is consistent: a control block is either free in the pool or on the
    queue, it is on the chains that its entries say and on no other, the chain of a
    bound or connected one is that of its addresses and ports, and one that does not
    come from the SYN cache is on the port chain of its port. *)
Theorem pcb_table_safe e count A p op : pcb_history e count A p -> live op p ->
  exists p', pcb_step e op p = Some p' /\ pcb_inv e count (accepted op A) p'.
Proof.
  intros R Lv. destruct (pcb_history_inv _ _ _ _ R) as [I P]. destruct (pcb_step_inv e count op p I Lv) as (p' & E & I' & P' & _).
  exists p'. split; [done|]. split; auto.
Qed.

(** C16. The hash chains and the moves to their heads implement a search of all the
    control blocks: a segment goes to the connection with its four addresses and
    ports if there is one, else to a control block bound to its destination, else to
    one bound to its port on any address, else to none; no control block changes. *)
Theorem findpcb_refines e count p src sport dst dport : pcb_reach e count any_op p ->
  exists r, findpcb e src sport dst dport p = Some r /\ serves (pcbs p) src sport dst dport r.1 /\ pcbs r.2 = pcbs p.
Proof.
  intros R. destruct (findpcb_runs e count src sport dst dport p (pcb_reach_inv _ _ _ _ R)) as (r & E & S & K).
  exists r. split; [done|]. split; [done|apply K].
Qed.

(** C17. Two control blocks are never connected with the same addresses and ports, and
    a segment of a connection is given to its control block.  The port must be known
    when the connection is made: [in_pcbconnect] looks for the connection before it
    chooses a port. *)
Theorem connections_unique e count p a i : pcb_reach e count port_known p -> pcbs p !! a = Some i -> inp_state i = INP_CONNECTED ->
  (forall b j, pcbs p !! b = Some j -> conn_of i j -> b = a) /\
  exists p', findpcb e (inp_faddr i) (inp_fport i) (inp_laddr i) (inp_lport i) p = Some (Some a, p').
Proof.
  intros R E S. pose proof (pcb_reach_unique e count p R) as U.
  assert (Ua : forall b j, pcbs p !! b = Some j -> conn_of i j -> b = a) by (intros b j Ej C; symmetry; exact (U a b i j E Ej S C)).
  assert (Ci : conn_of i i) by (split; [done|]; by apply same_conn_spec). split; [done|].
  destruct (findpcb_runs e count (inp_faddr i) (inp_fport i) (inp_laddr i) (inp_lport i) p (pcb_reach_inv _ _ _ _ R)) as ([o p'] & F & Sv & _).
  exists p'. rewrite F. cbn [fst] in Sv.
  inversion Sv as [b j Ej Cj|b j No|b j No|No]; subst; [by rewrite (Ua b j Ej Cj)|by destruct (No a i E Ci)|by destruct (No a i E) as [[] _]|by destruct (No a i E) as [[] _]].
Qed.

(** A control block that has the port on a common address. *)
Definition shares (laddr lport : Z) (i : inpcb) : Prop :=
  inp_lport i = lport /\ (inp_laddr i = INADDR_ANY \/ laddr = INADDR_ANY \/ inp_laddr i = laddr).

(** C18. A socket that does not share ports asks for a port on an address.  Either the
    bind is refused and nothing changes, and then another control block has the port on
    a common address; or the socket is bound to the port, and then no other control
    block has it on a common address, those of connections that came from the SYN
    cache excepted: they are not on the chain that is searched. *)
Theorem bind_exclusive e count A p a inp addr port : pcb_history e count A p -> pcbs p !! a = Some inp ->
  exclusive inp -> bindable e inp addr -> port <> 0 ->
  let has_port b := b <> a /\ exists i, pcbs p !! b = Some i /\ shares addr port i in
  exists error p', in_pcbbind e a (Some (addr, port)) p = Some (error, p') /\
    ((error = EADDRINUSE /\ (exists b, has_port b) /\ pcbs p' = pcbs p) \/
     (error = 0 /\ (forall b, has_port b -> b ∈ A) /\
      exists i, pcbs p' = <[a := i]> (pcbs p) /\ inp_state i = INP_BOUND /\ inp_laddr i = addr /\ inp_lport i = port)).
Proof.
  intros R E X B N has_port. destruct (pcb_history_inv _ _ _ _ R) as [[L O Al] P].
  destruct (bind_port_given _ e a inp p addr port L E (O a inp E) B N) as ([error p'] & Eq & [(Er & (_ & M & _) & b & i & Nb & Ei & Cf)|(Er & (_ & M & _) & Fr)]);
    exists error, p'; (split; [done|]); cbn [fst snd] in *.
  - left. split; [done|]. split; [exists b; split; [done|]; exists i; split; [done|apply Cf]|]. rewrite M. by apply insert_id.
  - right. split; [done|]. split; [|by eexists]. intros b (Nb & i & Ei & Sh). destruct (decide (b ∈ A)) as [|Na]; [done|].
    destruct (Fr X b i Nb Ei). split; [|exact Sh]. rewrite (P b i Na Ei). by destruct Sh as [-> _].
Qed.

(** C40. A socket that asks for any port is given the one below the port that was
    chosen last, whatever it is and whoever has it: [check_suitable_port] accepts
    no port, so none of the algorithms finds one and [rfc6056_randport] falls through
    to its last assignment. *)
Theorem anon_port_unchecked e count p a inp : pcb_reach e count any_op p -> pcbs p !! a = Some inp ->
  bindable e inp INADDR_ANY -> flag_set (inp_flags inp) INP_LOWPORT = false ->
  exists p', in_pcbbind e a None p = Some (0, p') /\
    option_map inp_lport (pcbs p' !! a) = Some (htons (u16 (inpt_lastport p - 1))).
Proof.
  intros R E B F. pose proof (pcb_reach_inv _ _ _ _ R) as [L O A].
  destruct (bind_anonymous _ e a inp p L E (O a inp E) A B) as ([z p'] & Eq & Z0 & Bc). cbn [fst snd] in *. subst z. exists p'. split; [done|].
  rewrite (becomes_lookup _ _ _ _ _ Bc). unfold next_port. by rewrite F.
Qed.
