(* ===== verification/InPcbExample.v ===== *)
(** * The control blocks on an example

    A server bound to a port on any address, and a client that connects to another
    host. *)

From stdpp Require Import functions.
From S2P Require Import Prelude Pool IpReass IpId Ip IpOutput InPcb InPcbFacts InPcbOps InPcbProps.

Definition expcb_env : penv := mkPenv 7 7 7 49152 49159 600 1023 [0x0100000a] None (fun _ => false) (fun _ => (0, Some 0x0100000a)) (fun _ => 0).

Definition expcb_server : list pcb_op := [Attach 0; Attach 0; Bind 1 (Some (INADDR_ANY, htons 49158))].

Definition expcb_client : list pcb_op := expcb_server ++ [Connect 2 0x0200000a (htons 80)].

Definition expcb_after (ok : pcb_op -> inpcbtable -> Prop) `{forall op p, Decision (ok op p)} (ops : list pcb_op) : inpcbtable :=
  default (in_pcbinit expcb_env 4) (pcb_run expcb_env ok ops (in_pcbinit expcb_env 4)).

#[export] Instance any_op_dec op p : Decision (any_op op p).
Proof. unfold any_op. apply _. Defined.

Lemma expcb_reach ok `{forall op p, Decision (ok op p)} ops : is_Some (pcb_run expcb_env ok ops (in_pcbinit expcb_env 4)) ->
  pcb_reach expcb_env 4 ok (expcb_after ok ops).
Proof.
  intros [p E]. unfold expcb_after. rewrite E. simpl. eapply pcb_run_reach; [apply pcb_reach_init|exact E].
Qed.

(** The run that every witness starts from. *)
Ltac expcb_run := apply expcb_reach; vm_compute; eexists; reflexivity.

Definition expcb_pcb (a : addr) (ok : pcb_op -> inpcbtable -> Prop) `{forall op p, Decision (ok op p)} (ops : list pcb_op) : inpcb :=
  default (new_pcb expcb_env 0 0) (pcbs (expcb_after ok ops) !! a).

(** The same runs, with the control blocks that come from the SYN cache. *)
Fixpoint expcb_accepted (ops : list pcb_op) (A : gset addr) : gset addr :=
  match ops with [] => A | op :: ops => expcb_accepted ops (accepted op A) end.

Lemma pcb_run_history e count ops : forall A p p', pcb_history e count A p -> pcb_run e any_op ops p = Some p' -> pcb_history e count (expcb_accepted ops A) p'.
Proof.
  induction ops as [|op ops IH]; intros A p p' R; simpl; [by intros <-%(inj Some)|].
  destruct (decide _) as [[Lv Ok]|]; [|done]. destruct (pcb_step e op p) as [p1|] eqn:St; cbn [mbind option_bind]; [|done].
  apply IH. by eapply pcb_history_step.
Qed.

Lemma expcb_history ops : is_Some (pcb_run expcb_env any_op ops (in_pcbinit expcb_env 4)) ->
  pcb_history expcb_env 4 (expcb_accepted ops ∅) (expcb_after any_op ops).
Proof. intros [p E]. unfold expcb_after. rewrite E. simpl. eapply pcb_run_history; [apply pcb_history_init|exact E]. Qed.

(** The server accepts a connection, too. *)
Definition expcb_accept : list pcb_op := expcb_server ++ [Attach 0; Accept 3 0x0100000a (htons 49158) 0x0200000a (htons 80)].

Lemma pcb_table_safe_witness : exists p', pcb_step expcb_env (Detach 2) (expcb_after any_op expcb_accept) = Some p' /\
  pcb_inv expcb_env 4 (accepted (Detach 2) (expcb_accepted expcb_accept ∅)) p'.
Proof.
  apply (pcb_table_safe expcb_env 4 (expcb_accepted expcb_accept ∅) (expcb_after any_op expcb_accept) (Detach 2)); [|vm_compute; eexists; reflexivity].
  apply expcb_history. vm_compute. eexists. reflexivity.
Defined.

(** A segment of the client's connection, and one for the server. *)
Lemma findpcb_refines_witness :
  exists r, findpcb expcb_env 0x0300000a (htons 99) 0x0100000a (htons 49158) (expcb_after any_op expcb_client) = Some r /\
    serves (pcbs (expcb_after any_op expcb_client)) 0x0300000a (htons 99) 0x0100000a (htons 49158) r.1 /\
    pcbs r.2 = pcbs (expcb_after any_op expcb_client).
Proof. apply (findpcb_refines expcb_env 4). expcb_run. Defined.

Lemma connections_unique_witness :
  (inp_faddr (expcb_pcb 2 port_known expcb_client), inp_lport (expcb_pcb 2 port_known expcb_client)) = (0x0200000a, htons 49158) /\
  (forall b j, pcbs (expcb_after port_known expcb_client) !! b = Some j -> conn_of (expcb_pcb 2 port_known expcb_client) j -> b = 2%positive) /\
  exists p', findpcb expcb_env (inp_faddr (expcb_pcb 2 port_known expcb_client)) (inp_fport (expcb_pcb 2 port_known expcb_client))
    (inp_laddr (expcb_pcb 2 port_known expcb_client)) (inp_lport (expcb_pcb 2 port_known expcb_client)) (expcb_after port_known expcb_client) =
    Some (Some 2%positive, p').
Proof.
  split; [vm_compute; reflexivity|].
  apply (connections_unique expcb_env 4 (expcb_after port_known expcb_client) 2 (expcb_pcb 2 port_known expcb_client)).
  - expcb_run.
  - vm_compute. reflexivity.
  - vm_compute. reflexivity.
Defined.

Lemma bind_exclusive_witness : let p := expcb_after any_op expcb_accept in
  let has_port b := b <> 2%positive /\ exists i, pcbs p !! b = Some i /\ shares 0x0100000a (htons 49158) i in
  exists error p', in_pcbbind expcb_env 2 (Some (0x0100000a, htons 49158)) p = Some (error, p') /\
    ((error = EADDRINUSE /\ (exists b, has_port b) /\ pcbs p' = pcbs p) \/
     (error = 0 /\ (forall b, has_port b -> b ∈ expcb_accepted expcb_accept ∅) /\
        exists i, pcbs p' = <[2%positive := i]> (pcbs p) /\ inp_state i = INP_BOUND /\ inp_laddr i = 0x0100000a /\ inp_lport i = htons 49158)).
Proof.
  apply (bind_exclusive expcb_env 4 (expcb_accepted expcb_accept ∅) (expcb_after any_op expcb_accept) 2 (expcb_pcb 2 any_op expcb_accept)).
  - apply expcb_history. vm_compute. eexists. reflexivity.
  - vm_compute. reflexivity.
  - vm_compute. reflexivity.
  - split; [done|]. vm_compute. repeat split; reflexivity.
  - vm_compute. discriminate.
Defined.

(** The client is given the port of the server. *)
Lemma anon_port_unchecked_witness :
  option_map inp_lport (pcbs (expcb_after any_op expcb_server) !! 1%positive) = Some (htons 49158) /\
  exists p', in_pcbbind expcb_env 2 None (expcb_after any_op expcb_server) = Some (0, p') /\
    option_map inp_lport (pcbs p' !! 2%positive) = Some (htons (u16 (inpt_lastport (expcb_after any_op expcb_server) - 1))) /\
    htons (u16 (inpt_lastport (expcb_after any_op expcb_server) - 1)) = htons 49158.
Proof.
  split; [vm_compute; reflexivity|].
  destruct (anon_port_unchecked expcb_env 4 (expcb_after any_op expcb_server) 2 (expcb_pcb 2 any_op expcb_server)) as (p' & E & P).
  - expcb_run.
  - vm_compute. reflexivity.
  - split; [done|]. vm_compute. repeat split; reflexivity.
  - vm_compute. reflexivity.
  - exists p'. split; [exact E|]. split; [exact P|]. vm_compute. reflexivity.
Defined.
