(* ===== verification/TcpFront.v ===== *)
(** * The front of TCP input (src/netbsd/netinet/tcp_input.c)

    [tcp_input] from its beginning to [after_listen]: the checks of the packet, the
    lookup of the control block, the checksum, and the LISTEN state, with the
    control blocks of [InPcb] and the SYN cache of [SynCache].  An ACK that completes
    a handshake makes a control block ([syn_cache_pcb]).  The outcome of a
    packet is that it is dropped, answered with a reset, or goes on to
    [after_listen] of a connection, which [TcpInput] models.

    The packet is its bytes, in one mbuf, as [ip_input] hands it over.  Reading
    outside of it is [None].  IPv6, IPsec and vestigial connections are not
    compiled in or off; the traces of SO_DEBUG are left out. *)

From stdpp Require Import functions.
From S2P Require Import Prelude Pool TcpSeq Callout Tcpcb TcpSack TcpTimer InCksum TcpOptions TcpReass TcpInput.
From S2P Require Import IpReass IpId Ip IpOutput SynCache InPcb.

Definition SO_ACCEPTCONN : Z := 0x0002.
Definition M_CSUM_TCP_UDP_BAD : Z := 0x4.
Definition M_CSUM_DATA : Z := 0x8.
Definition M_CSUM_NO_PSEUDOHDR : Z := 0x80000000.
Definition TCPOPT_TSTAMP_HDR : Z := 0x0101080a.

Record tpkt := mkTpkt {
  k_m : list Z;                      (* the bytes, from the IP header on *)
  k_toff : Z;                        (* the length of the IP header *)
  k_flags : Z; k_csum_flags : Z; k_csum_data : Z
}.

(** What surrounds TCP during one call. *)
Record fenv := mkFenv {
  f_pcb : penv;
  f_syn : synenv;
  f_get : getenv;                    (* for the connection that an ACK creates *)
  f_rcvif : Ip.ifnet;
  f_hostzero : bool;                 (* hostzeroisbroadcast *)
  tcp_do_loopback_cksum : bool;
  f_rst_ok : bool;                   (* ppsratecheck for resets *)
  f_srcroute : option ipoption;      (* ip_srcroute() *)
  f_tb : tcpcb                       (* the local control block of syn_cache_add *)
}.

(** What [tcp_input] reads of a control block and its socket; [x_conn] is [None] when
    there is no [struct tcpcb]. *)
Record tcpend := mkEnd {
  x_minttl : Z; x_conn : option conn; x_qlen : Z; x_qlimit : Z; x_space : Z
}.

Record fstate := mkFst {
  k_pcbs : inpcbtable; k_syn : synst; k_ends : gmap addr tcpend; k_sack : sack_globals
}.

#[export] Instance eta_fstate : EtaRecord fstate := fun r => mkFst (k_pcbs r) (k_syn r) (k_ends r) (k_sack r).

(** ** The header *)

(** The local variables after the options have been looked at. *)
Record parsed := mkParsed {
  q_th : tcphdr; q_sport : Z; q_dport : Z; q_win : Z; q_urp : Z;
  q_off : Z; q_tlen : Z; q_optp : option (list Z); q_opti : tcp_opt_info
}.

Definition no_opti : tcp_opt_info := mkOpt false 0 0 0.

(** A timestamp that is the only option, in the recommended form. *)
Definition quick_tstamp (optp : list Z) (flags : Z) : option (option tcp_opt_info) :=
  let optlen := Z.of_nat (length optp) in
  eol ← (if optlen =? TCPOLEN_TSTAMP_APPA then Some true
         else if TCPOLEN_TSTAMP_APPA <? optlen then b ← optp !! 12%nat; Some (b =? TCPOPT_EOL)
         else Some false);
  if eol : bool then
    hd ← rd32 optp 0;
    if (hd =? TCPOPT_TSTAMP_HDR) && negb (flag_set flags TH_SYN) then
      v ← rd32 optp 4; e ← rd32 optp 8; Some (Some (mkOpt true v e 0))
    else Some None
  else Some None.

(** A load of a port: the first byte is the lowest. *)
Definition rdport (t : list Z) (i : nat) : option Z := a ← t !! i; b ← t !! S i; Some (a + b * 2 ^ 8).

(** [Some None]: the packet is dropped. *)
Definition tcp_parse (k : tpkt) : option (option parsed) :=
  let h := ip_decode (k_m k) in
  let mlen := Z.of_nat (length (k_m k)) in
  if flag_set (k_flags k) (Z.lor M_BCAST M_MCAST) then Some None
  else if negb (ip_v h =? 4) then Some None
  else if mlen <? k_toff k + 20 then Some None
  else
    let t := drop (Z.to_nat (k_toff k)) (k_m k) in
    offx2 ← t !! 12%nat;
    flags ← t !! 13%nat;
    let tlen := ip_len (iph h) - k_toff k in
    let off := Z.shiftl (Z.shiftr offx2 4) 2 in
    if (off <? 20) || (tlen <? off) then Some None
    else if (20 <? off) && (mlen <? k_toff k + off) then Some None
    else
      let optp := take (Z.to_nat (off - 20)) (drop 20 t) in
      quick ← (if 20 <? off then quick_tstamp optp flags else Some None);
      sport ← rdport t 0; dport ← rdport t 2; seq ← rd32 t 4; ack ← rd32 t 8; win ← rd16 t 14; urp ← rd16 t 18;
      Some (Some (mkParsed (mkTcphdr seq ack flags) sport dport win urp off (tlen - off)
        (match quick with Some _ => None | None => if 20 <? off then Some optp else None end) (default no_opti quick))).

(** ** The checksum *)

Definition in_cksum_phdr (src dst lenproto : Z) : Z :=
  let sum := u32 (lenproto + u16 (Z.shiftr src 16) + u16 src + u16 (Z.shiftr dst 16) + u16 dst) in
  let sum := u16 (Z.shiftr sum 16) + u16 sum in
  u16 (if 0xffff <? sum then sum - 0xffff else sum).

(** The result says whether the checksum is bad. *)
Definition tcp_input_checksum (e : fenv) (k : tpkt) (off tlen : Z) : option bool :=
  let h := iph (ip_decode (k_m k)) in
  let hw := Z.land (k_csum_flags k) (Z.lor (Z.land (if_csum_flags_rx (f_rcvif e)) M_CSUM_TCPv4) (Z.lor M_CSUM_TCP_UDP_BAD M_CSUM_DATA)) in
  if hw =? Z.lor M_CSUM_TCPv4 M_CSUM_TCP_UDP_BAD then Some true
  else if hw =? Z.lor M_CSUM_TCPv4 M_CSUM_DATA then
    let hw_csum := if flag_set (k_csum_flags k) M_CSUM_NO_PSEUDOHDR
                   then in_cksum_phdr (ip_src h) (ip_dst h) (IpId.htons (k_csum_data k + tlen + off + IPPROTO_TCP))
                   else k_csum_data k in
    Some (negb (Z.lxor hw_csum 0xffff =? 0))
  else if hw =? M_CSUM_TCPv4 then Some false
  else if negb (flag_set (if_flags (f_rcvif e)) IFF_LOOPBACK) || tcp_do_loopback_cksum e then
    sum ← in4_cksum [mkSegment 0 (k_m k) (Z.of_nat (length (k_m k)))] IPPROTO_TCP (k_toff k) (tlen + off);
    Some (negb (sum =? 0))
  else Some false.

(** ** Outcomes *)

Inductive outcome :=
  | ODrop
  | ORespond (ack seq : tcp_seq) (flags : Z)             (* tcp_respond(NULL, m, m, th, ...) *)
  | OConn (a : addr) (c : conn) (optp : option (list Z)) (s : seg)
  | ONew (a : addr) (c : conn) (optp : option (list Z)) (s : seg).

Definition dst_multi (e : fenv) (dst : Z) : bool := IN_MULTICAST dst || in_broadcast (f_hostzero e) dst (f_rcvif e).

(** The label [dropwithreset], with no control block. *)
Definition front_reset (e : fenv) (dst : Z) (q : parsed) : outcome :=
  let flags := th_flags (q_th q) in
  if flag_set flags TH_RST then ODrop
  else if dst_multi e dst then ODrop
  else if flag_set flags TH_ACK then ORespond 0 (th_ack (q_th q)) TH_RST
  else
    let len := if flag_set flags TH_SYN then q_tlen q + 1 else q_tlen q in
    ORespond (u32 (th_seq (q_th q) + len)) 0 (Z.lor TH_RST TH_ACK).

Definition reset_ratelim (e : fenv) (dst : Z) (q : parsed) : outcome := if f_rst_ok e then front_reset e dst q else ODrop.

(** The segment as [after_listen] finds it. *)
Definition front_seg (k : tpkt) (q : parsed) (tiwin : Z) : seg :=
  mkSeg (q_th q) (q_urp q) (th_flags (q_th q)) tiwin (q_tlen q) (k_m k) (k_toff k + q_off q) (q_opti q) 0
    (ip_tos (iph (ip_decode (k_m k)))) false false.

(** ** The LISTEN state *)

(** What [syn_cache_get] does to the table when it completes a handshake:
    [sonewconn] attaches a control block with the options of the new socket, which is
    bound to the destination and connected to the source of the ACK.  The results are
    what [syn_cache_get] finds out of it, the control block and the table. *)
Definition syn_cache_pcb (e : fenv) (opts : Z) (src dst : sockaddr_in) (p : inpcbtable) : option (getenv * option addr * inpcbtable) :=
  let ge := f_get e in
  match g_sonewconn ge with
  | None => Some (ge, None, p)
  | Some c =>
      r ← in_pcballoc (f_pcb e) opts SOCK_STREAM p;
      match r with
      | (None, p) => Some (ge <| g_sonewconn := None |>, None, p)
      | (Some a, p) =>
          let ge := ge <| g_sonewconn := Some (c <| so_options := opts |>) |> in
          if negb (g_mget ge) then
            p ← in_pcbstate (f_pcb e) a INP_BOUND (upd_pcb a (fun inp => inp <| inp_laddr := sin_addr dst |> <| inp_lport := sin_port dst |>) p);
            Some (ge, Some a, p)
          else
            r ← syn_bind (f_pcb e) a (sin_addr dst) (sin_port dst) (sin_addr src) (sin_port src) p;
            Some (ge <| g_pcbconnect := r.1 |>, Some a, r.2)
      end
  end.

(** [soabort] or [tcp_drop]: the new control block is released. *)
Definition syn_cache_abort (e : fenv) (a : option addr) (p : inpcbtable) : option inpcbtable :=
  match a with Some a => in_pcbdetach (f_pcb e) a p | None => Some p end.

(** The table of [syn_cache_pcb] is taken if the handshake is completed; [opts] are
    the options of the listening socket. *)
Definition listen_ack (e : fenv) (k : tpkt) (q : parsed) (tiwin opts : Z) (src dst : sockaddr_in) (s : fstate) : option (outcome * fstate) :=
  n ← syn_cache_pcb e (Z.ldiff opts SO_ACCEPTCONN) src dst (k_pcbs s);
  let '(ge, new, p) := n in
  r ← syn_cache_get (f_syn e) ge src dst (q_th q) (k_syn s);
  let s := s <| k_syn := r.2 |> in
  match r.1 with
  | GetNull => Some (front_reset e (sin_addr dst) q, s)
  | GetAgain => Some (ODrop, s)
  | GetDrop _ => p ← syn_cache_abort e new p; Some (ODrop, s <| k_pcbs := p |>)
  | GetReset _ => p ← syn_cache_abort e new p; Some (ORespond 0 (th_ack (q_th q)) TH_RST, s <| k_pcbs := p |>)
  | GetConn c _ _ =>
      a ← new;
      Some (ONew a c (q_optp q) (front_seg k q (u64 (Z.shiftl tiwin (snd_scale (tp_of c))))),
            s <| k_pcbs := p |> <| k_ends := <[a := mkEnd 0 (Some c) 0 0 (e_rcv_space (g_env ge))]> (k_ends s) |>)
  end.

Definition listen_syn (e : fenv) (q : parsed) (a : addr) (x : tcpend) (src dst : sockaddr_in) (s : fstate) : option (outcome * fstate) :=
  if dst_multi e (sin_addr dst) then Some (ODrop, s)
  else if (sin_port src =? sin_port dst) && in_hosteq (sin_addr src) (sin_addr dst) then Some (ODrop, s)
  else if x_qlen x <=? x_qlimit x then
    r ← syn_cache_add (f_syn e) src dst (q_th q) (Z.pos a) (x_space x) (f_srcroute e) (f_tb e) (k_sack s) (q_optp q) (q_opti q) (k_syn s);
    let '(_, y, g, _) := r in
    Some (ODrop, s <| k_syn := y |> <| k_sack := g |>)
  else Some (ODrop, s).

Definition tcp_listen (e : fenv) (k : tpkt) (q : parsed) (tiwin opts : Z) (a : addr) (x : tcpend) (s : fstate) : option (outcome * fstate) :=
  let h := iph (ip_decode (k_m k)) in
  let src := mkSin (ip_src h) (q_sport q) in
  let dst := mkSin (ip_dst h) (q_dport q) in
  let flags := th_flags (q_th q) in
  if negb (Z.land flags (Z.lor TH_RST (Z.lor TH_ACK TH_SYN)) =? TH_SYN) then
    if flag_set flags TH_RST then y ← syn_cache_reset (f_syn e) src dst (q_th q) (k_syn s); Some (ODrop, s <| k_syn := y |>)
    else if Z.land flags (Z.lor TH_ACK TH_SYN) =? Z.lor TH_ACK TH_SYN then Some (front_reset e (ip_dst h) q, s)
    else if flag_set flags TH_ACK then listen_ack e k q tiwin opts src dst s
    else Some (front_reset e (ip_dst h) q, s)
  else listen_syn e q a x src dst s.

(** ** The front as a whole *)

(** What is done for a control block, from the check of its TTL on. *)
Definition tcp_front_pcb (e : fenv) (k : tpkt) (q : parsed) (a : addr) (s : fstate) : option (outcome * fstate) :=
  let h := ip_decode (k_m k) in
  x ← k_ends s !! a;
  if ip_ttl h <? x_minttl x then Some (ODrop, s)
  else
    match x_conn x with
    | None => Some (reset_ratelim e (ip_dst (iph h)) q, s)
    | Some c =>
        if t_state (tp_of c) =? TCPS_CLOSED then Some (ODrop, s)
        else
          bad ← tcp_input_checksum e k (q_off q) (q_tlen q);
          if bad : bool then Some (ODrop, s)
          else
            let tiwin := if flag_set (th_flags (q_th q)) TH_SYN then q_win q else u64 (Z.shiftl (q_win q) (snd_scale (tp_of c))) in
            if flag_set (so_options c) SO_ACCEPTCONN then tcp_listen e k q tiwin (so_options c) a x s
            else Some (OConn a c (q_optp q) (front_seg k q tiwin), s)
    end.

Definition tcp_front (e : fenv) (k : tpkt) (s : fstate) : option (outcome * fstate) :=
  r ← tcp_parse k;
  match r with
  | None => Some (ODrop, s)
  | Some q =>
      let h := iph (ip_decode (k_m k)) in
      found ← findpcb (f_pcb e) (ip_src h) (q_sport q) (ip_dst h) (q_dport q) (k_pcbs s);
      let s := s <| k_pcbs := found.2 |> in
      match found.1 with
      | None => Some (reset_ratelim e (ip_dst h) q, s)
      | Some a => tcp_front_pcb e k q a s
      end
  end.
