(* ===== verification/TcpFrontProps.v ===== *)
(** * From the packet to the connection

    The front of TCP input with the table of control blocks and the SYN cache: it
    returns on every packet, only the end of a handshake changes the control blocks,
    resets are those of RFC 793, and a segment goes to the connection with its
    addresses and ports. *)

From stdpp Require Import functions.
From S2P Require Import Prelude Pool TcpSeq Callout Tcpcb TcpSack TcpTimer InCksum TcpOptions TcpReass TcpInput TcpOutput MbufFacts.
From S2P Require Import IpReass IpId Ip IpOutput IpTotal SynCache SynCacheSend SynCacheFacts SynCacheSafe.
From S2P Require Import InPcb InPcbFacts InPcbOps InPcbProps TcpFront.

(** ** The header *)

Lemma quick_tstamp_total optp flags : is_Some (quick_tstamp optp flags).
Proof.
  unfold quick_tstamp. set (eol := if Z.of_nat (length optp) =? _ then _ else _).
  assert (E : exists b, eol = Some b /\ (b = true -> (12 <= length optp)%nat)).
  { unfold eol, TCPOLEN_TSTAMP_APPA. destruct (Z.eqb_spec (Z.of_nat (length optp)) 12); [exists true; split; [done|lia]|].
    destruct (Z.ltb_spec 12 (Z.of_nat (length optp))); [|by exists false].
    destruct (lookup_lt_is_Some_2 optp 12) as [b ->]; [lia|]. eexists. split; [done|lia]. }
  destruct E as (b & -> & Hb). cbn [mbind option_bind]. destruct b; [|by eexists]. specialize (Hb eq_refl).
  destruct (rd32_in optp 0) as [hd ->]; [lia|]. cbn [mbind option_bind]. destruct (_ && _); [|by eexists].
  destruct (rd32_in optp 4) as [v ->]; [lia|]. cbn [mbind option_bind]. destruct (rd32_in optp 8) as [w ->]; [lia|]. by eexists.
Qed.

Lemma rdport_in t i : (S i < length t)%nat -> is_Some (rdport t i).
Proof.
  intros L. unfold rdport. destruct (lookup_lt_is_Some_2 t i) as [a ->]; [lia|]. cbn [mbind option_bind].
  destruct (lookup_lt_is_Some_2 t (S i)) as [b ->]; [lia|]. by eexists.
Qed.

(** The header, the options and the data lie in the packet. *)
Definition fits (k : tpkt) (q : parsed) : Prop :=
  20 <= q_off q /\ k_toff k + q_off q <= Z.of_nat (length (k_m k)) /\ 0 <= q_tlen q /\
  k_toff k + q_off q + q_tlen q = ip_len (iph (ip_decode (k_m k))).

Lemma tcp_parse_runs k : 0 <= k_toff k -> runs (tcp_parse k) (fun r => match r with None => True | Some q => fits k q end).
Proof.
  intros H0. unfold tcp_parse. cbv zeta. set (mlen := Z.of_nat (length (k_m k))).
  destruct (flag_set (k_flags k) _); [by apply runs_ret|]. destruct (negb _); [by apply runs_ret|].
  destruct (Z.ltb_spec mlen (k_toff k + 20)) as [|Lm]; [by apply runs_ret|]. set (t := drop _ (k_m k)).
  assert (Lt : (20 <= length t)%nat) by (unfold t; rewrite length_drop; lia).
  destruct (lookup_lt_is_Some_2 t 12) as [offx2 ->]; [lia|]. cbn [mbind option_bind].
  destruct (lookup_lt_is_Some_2 t 13) as [flags ->]; [lia|]. cbn [mbind option_bind].
  set (off := Z.shiftl _ 2). set (tlen := ip_len _ - _).
  destruct (Z.ltb_spec off 20) as [|G1]; [by apply runs_ret|]. destruct (Z.ltb_spec tlen off) as [|G2]; [by apply runs_ret|]. cbn [orb].
  destruct ((20 <? off) && (mlen <? k_toff k + off)) eqn:G3; [by apply runs_ret|].
  set (quick := if 20 <? off then quick_tstamp _ flags else _).
  assert (Q : is_Some quick) by (unfold quick; destruct (20 <? off); [apply quick_tstamp_total|by eexists]).
  destruct Q as [qk ->]. cbn [mbind option_bind].
  destruct (rdport_in t 0) as [sport ->]; [lia|]. cbn [mbind option_bind]. destruct (rdport_in t 2) as [dport ->]; [lia|]. cbn [mbind option_bind].
  destruct (rd32_in t 4) as [sq ->]; [lia|]. cbn [mbind option_bind]. destruct (rd32_in t 8) as [ak ->]; [lia|]. cbn [mbind option_bind].
  destruct (rd16_in t 14) as [win ->]; [lia|]. cbn [mbind option_bind]. destruct (rd16_in t 18) as [urp ->]; [lia|]. cbn [mbind option_bind].
  apply runs_ret. unfold fits. cbn [q_off q_tlen]. fold mlen. split; [done|]. split; [|unfold tlen in *; lia].
  apply andb_false_iff in G3 as [G3|G3]; [apply Z.ltb_ge in G3; lia|]. apply Z.ltb_ge in G3. lia.
Qed.

Lemma tcp_input_checksum_total e k off tlen : 20 <= k_toff k <= Z.of_nat (length (k_m k)) -> is_Some (tcp_input_checksum e k off tlen).
Proof.
  intros H. unfold tcp_input_checksum. cbv zeta. repeat (case_match; try by eexists).
  unfold in4_cksum. change (IPPROTO_TCP =? 0) with false. cbv iota. destruct (Z.ltb_spec (k_toff k) 20); [lia|]. cbn [seg_len].
  destruct (Z.ltb_spec (Z.of_nat (length (k_m k))) 20); [lia|]. cbn [mbind option_bind]. by eexists.
Qed.

(** ** Resets *)

(** The reset that a segment is answered with (RFC 793, page 36). *)
Definition rfc793_reset (q : parsed) (o : outcome) : Prop :=
  match o with
  | ORespond ack seq flags =>
      flag_set (th_flags (q_th q)) TH_RST = false /\
      if flag_set (th_flags (q_th q)) TH_ACK then (ack, seq, flags) = (0, th_ack (q_th q), TH_RST)
      else (ack, seq, flags) =
             (u32 (th_seq (q_th q) + q_tlen q + (if flag_set (th_flags (q_th q)) TH_SYN then 1 else 0)), 0, Z.lor TH_RST TH_ACK)
  | _ => True
  end.

Lemma front_reset_rfc793 e dst q : rfc793_reset q (front_reset e dst q).
Proof.
  unfold front_reset, rfc793_reset. destruct (flag_set _ TH_RST) eqn:R; [done|]. destruct (dst_multi e dst); [done|].
  destruct (flag_set _ TH_ACK); [done|]. split; [done|]. f_equal. f_equal. f_equal. destruct (flag_set _ TH_SYN); lia.
Qed.

Lemma reset_ratelim_rfc793 e dst q : rfc793_reset q (reset_ratelim e dst q).
Proof. unfold reset_ratelim. destruct (f_rst_ok e); [apply front_reset_rfc793|done]. Qed.

(** ** The LISTEN state *)

Section front.
Context (pcount ycount : nat) (ipg : ipglobals) (bl cl fn : Z).
Hypotheses (bl_range : 0 < bl < 2 ^ 16) (cl_range : 0 < cl < 2 ^ 63) (ids : ids_ok (g_ids ipg)).

Abbreviation syn_reached := (syn_reachable bl cl fn (syn_cache_init ycount ipg)).

Lemma event_returns e ev y : syn_reached y -> env_ok bl cl fn e -> enabled ev y -> runs (syn_run e ev y) syn_reached.
Proof using bl_range cl_range ids.
  intros R Ok En. destruct (syn_cache_reachable_inv bl cl fn ycount ipg y bl_range cl_range ids R) as [I D].
  destruct (event_safe bl cl fn _ bl_range cl_range (pool_init_nodup ycount) e y ev Ok I D En) as (y' & E & _).
  exists y'. split; [done|]. by eapply reach_event.
Qed.

(** A reset says nothing of the control blocks. *)
Lemma front_reset_cases e dst q : front_reset e dst q = ODrop \/ exists ack seq flags, front_reset e dst q = ORespond ack seq flags.
Proof. unfold front_reset. repeat case_match; eauto. Qed.

(** The connection that an ACK has made: a new control block, connected with the
    addresses and ports of the ACK, and nothing else. *)
Definition created (e : fenv) (src dst : sockaddr_in) (a : addr) (c : conn) (s s' : fstate) : Prop :=
  pcbs (k_pcbs s) !! a = None /\
  (exists i, pcbs (k_pcbs s') = <[a := i]> (pcbs (k_pcbs s)) /\ inp_state i = INP_CONNECTED /\
     (sin_addr dst <> INADDR_ANY -> sin_port dst <> 0 ->
        connects (connect_addr (f_pcb e) (sin_addr src)) (sin_port src) (sin_addr dst) (sin_port dst) i /\
        forall b j, pcbs (k_pcbs s) !! b = Some j -> ~ connects (connect_addr (f_pcb e) (sin_addr src)) (sin_port src) (sin_addr dst) (sin_port dst) j)) /\
  (exists x, k_ends s' = <[a := x]> (k_ends s) /\ x_conn x = Some c).

(** What an outcome says of the control blocks and the connections. *)
Definition front_changes (e : fenv) (src dst : sockaddr_in) (o : outcome) (s s' : fstate) : Prop :=
  match o with
  | ONew a c _ _ => created e src dst a c s s'
  | _ => pcbs (k_pcbs s') = pcbs (k_pcbs s) /\ k_ends s' = k_ends s
  end.

Lemma front_reset_changes e src dst ad q s s' : pcbs (k_pcbs s') = pcbs (k_pcbs s) -> k_ends s' = k_ends s -> front_changes e src dst (front_reset e ad q) s s'.
Proof. intros P X. destruct (front_reset_cases e ad q) as [->|(? & ? & ? & ->)]; by split. Qed.

Lemma reset_ratelim_changes e src dst ad q s s' : pcbs (k_pcbs s') = pcbs (k_pcbs s) -> k_ends s' = k_ends s -> front_changes e src dst (reset_ratelim e ad q) s s'.
Proof. intros P X. unfold reset_ratelim. destruct (f_rst_ok e); [by apply front_reset_changes|by split]. Qed.

Abbreviation pcb_reached e := (pcb_reach (f_pcb e) pcount any_op).

Definition front_post (e : fenv) (src dst : sockaddr_in) (q : parsed) (s : fstate) (r : outcome * fstate) : Prop :=
  syn_reached (k_syn r.2) /\ pcb_reached e (k_pcbs r.2) /\ front_changes e src dst r.1 s r.2 /\ rfc793_reset q r.1.

(** What [syn_cache_pcb] leaves: no control block, or a new one; [ok] says that it
    is connected. *)
Definition pcb_new (e : fenv) (src dst : sockaddr_in) (p : inpcbtable) (n : getenv * option addr * inpcbtable) : Prop :=
  let '(ge, new, p') := n in
  pcb_reached e p' /\ match new with
  | None => g_sonewconn ge = None /\ pcbs p' = pcbs p
  | Some a => pcbs p !! a = None /\ exists i, pcbs p' = <[a := i]> (pcbs p) /\
      (g_mget ge = true -> g_pcbconnect ge = 0 -> inp_state i = INP_CONNECTED /\
        (sin_addr dst <> INADDR_ANY -> sin_port dst <> 0 ->
          connects (connect_addr (f_pcb e) (sin_addr src)) (sin_port src) (sin_addr dst) (sin_port dst) i /\
          forall b j, pcbs p !! b = Some j -> ~ connects (connect_addr (f_pcb e) (sin_addr src)) (sin_port src) (sin_addr dst) (sin_port dst) j))
  end.

Lemma accepted_pcb_runs e a p dst src : pcb_reached e p -> is_Some (pcbs p !! a) ->
  runs (syn_bind (f_pcb e) a (sin_addr dst) (sin_port dst) (sin_addr src) (sin_port src) p) (fun r => pcb_reached e r.2 /\
    exists i, pcbs r.2 = <[a := i]> (pcbs p) /\ (r.1 = 0 -> inp_state i = INP_CONNECTED /\
       (sin_addr dst <> INADDR_ANY -> sin_port dst <> 0 ->
          connects (connect_addr (f_pcb e) (sin_addr src)) (sin_port src) (sin_addr dst) (sin_port dst) i /\
          forall b j, b <> a -> pcbs p !! b = Some j -> ~ connects (connect_addr (f_pcb e) (sin_addr src)) (sin_port src) (sin_addr dst) (sin_port dst) j))).
Proof.
  intros R Pa. destruct (syn_bind_runs (f_pcb e) pcount a (sin_addr dst) (sin_port dst) (sin_addr src) (sin_port src) p (pcb_reach_inv _ _ _ _ R) Pa) as (r & E & H).
  exists r. split; [done|]. split; [|exact H].
  apply (pcb_reach_step _ _ _ (Accept a (sin_addr dst) (sin_port dst) (sin_addr src) (sin_port src)) p); [done..|]. simpl. by rewrite E.
Qed.

(** Without an mbuf for the address the control block is bound only, as if the port
    of the peer were 0. *)
Lemma accept_bound e a p dst : pcb_reached e p -> is_Some (pcbs p !! a) ->
  runs (in_pcbstate (f_pcb e) a INP_BOUND (upd_pcb a (fun inp => inp <| inp_laddr := sin_addr dst |> <| inp_lport := sin_port dst |>) p))
    (fun p' => pcb_reached e p' /\ exists i, pcbs p' = <[a := i]> (pcbs p)).
Proof.
  intros R Pa. destruct (accepted_pcb_runs e a p dst (mkSin 0 0) R Pa) as (r & E & Rr & i & M & _). unfold syn_bind in E.
  destruct (in_pcbstate _ _ _ _) as [p'|]; cbn [mbind option_bind] in E; [|done]. apply runs_ret.
  unfold in_pcbconnect in E. destruct (pcbs p' !! a); cbn [mbind option_bind] in E; [|done]. simpl in E. injection E as <-. cbn [snd] in *. split; [done|by exists i].
Qed.

Lemma syn_cache_pcb_runs e opts src dst p : pcb_reached e p -> runs (syn_cache_pcb e opts src dst p) (pcb_new e src dst p).
Proof.
  intros R. unfold syn_cache_pcb. cbv zeta. destruct (g_sonewconn (f_get e)) as [c|] eqn:So; [|apply runs_ret; split; [done|]; done].
  pose proof (pcb_reach_inv _ _ _ _ R) as [L _ _].
  destruct (alloc_runs _ (f_pcb e) opts SOCK_STREAM p (pcb_objs_nodup pcount) L) as ([o p1] & E & H). rewrite E. cbn [mbind option_bind fst snd] in *.
  assert (R1 : pcb_reached e p1) by (apply (pcb_reach_step _ _ _ (Attach opts) p); [done..|]; simpl; by rewrite E).
  destruct o as [a|]; [|subst p1; apply runs_ret; split; [done|]; done]. destruct H as (Fr & _ & M1 & _).
  assert (Pa : is_Some (pcbs p1 !! a)) by (rewrite M1, lookup_insert_eq; by eexists).
  destruct (g_mget _) eqn:Mg; cbn [negb].
  - eapply runs_bind; [exact (accepted_pcb_runs e a p1 dst src R1 Pa)|]. intros r (Rr & i & M & H). apply runs_ret. split; [done|]. split; [done|].
    exists i. split; [by rewrite M, M1, insert_insert_eq|]. intros _ Z0. destruct (H Z0) as [S C]. split; [done|]. intros Nd Np.
    destruct (C Nd Np) as [Ci Co]. split; [done|]. intros b j Ej. assert (b <> a) by congruence. apply (Co b j); [done|]. by rewrite M1, lookup_insert_ne.
  - eapply runs_bind; [exact (accept_bound e a p1 dst R1 Pa)|]. intros p2 (Rr & i & M). apply runs_ret. split; [done|]. split; [done|].
    exists i. split; [by rewrite M, M1, insert_insert_eq|]. intros X. simpl in X, Mg. congruence.
Qed.

Lemma syn_cache_abort_runs e src dst p ge new p' : pcb_new e src dst p (ge, new, p') ->
  runs (syn_cache_abort e new p') (fun q => pcb_reached e q /\ pcbs q = pcbs p).
Proof.
  intros [R H]. destruct new as [a|]; simpl; [|apply runs_ret; tauto]. destruct H as (Fr & i & M & _).
  assert (Ea : pcbs p' !! a = Some i) by by rewrite M, lookup_insert_eq. pose proof (pcb_reach_inv _ _ _ _ R) as [L O _].
  destruct (pcb_detach_runs _ (f_pcb e) a i p' L Ea (O a i Ea)) as (q & E & _ & Mq & _). exists q. split; [done|]. split.
  - apply (pcb_reach_step _ _ _ (Detach a) p'); [done|by exists i|done|exact E].
  - by rewrite Mq, M, delete_insert_id.
Qed.

(** A connection comes from a socket whose control block is connected. *)
Lemma syn_cache_get_conn e ge src dst th y c options ro y' : syn_cache_get e ge src dst th y = Some (GetConn c options ro, y') ->
  is_Some (g_sonewconn ge) /\ g_mget ge = true /\ g_pcbconnect ge = 0.
Proof.
  unfold syn_cache_get. destruct (syn_cache_lookup _ _ _) as [[a|]|]; cbn [mbind option_bind]; [|done|done].
  destruct (y_mem y !! a) as [sc|]; cbn [mbind option_bind]; [|done]. destruct (_ || _); [by destruct (syn_cache_respond _ _ _)|].
  destruct (syn_cache_rm _ _); cbn [mbind option_bind]; [|done]. destruct (g_sonewconn ge); [|done].
  destruct (g_mget ge); [|done]. cbn [negb]. destruct (Z.eqb_spec (g_pcbconnect ge) 0); [|done]. by eexists; [eexists|].
Qed.

Lemma listen_ack_runs e k q tiwin opts src dst s : syn_reached (k_syn s) -> pcb_reached e (k_pcbs s) -> env_ok bl cl fn (f_syn e) ->
  flag_set (th_flags (q_th q)) TH_ACK = true -> flag_set (th_flags (q_th q)) TH_RST = false ->
  runs (listen_ack e k q tiwin opts src dst s) (front_post e src dst q s).
Proof using bl_range cl_range ids.
  intros R Rp Ok A N. unfold listen_ack. eapply runs_bind; [exact (syn_cache_pcb_runs e _ src dst (k_pcbs s) Rp)|]. intros [[ge new] p] Hn.
  destruct (event_returns (f_syn e) (EvAck ge src dst (q_th q)) _ R Ok I) as (y' & E & Ry).
  cbn [syn_run] in E. apply fmap_Some in E as ([r y] & E & ->). rewrite E. cbn [mbind option_bind fst snd] in *.
  assert (Reset : rfc793_reset q (ORespond 0 (th_ack (q_th q)) TH_RST)) by (split; [done|by rewrite A]).
  destruct r as [| |so|so|c options ro].
  - apply runs_ret. split; [exact Ry|]. split; [done|]. split; [by apply front_reset_changes|apply front_reset_rfc793].
  - by apply runs_ret.
  - eapply runs_bind; [exact (syn_cache_abort_runs _ _ _ _ _ _ _ Hn)|]. intros p' [Rp' M]. by apply runs_ret.
  - eapply runs_bind; [exact (syn_cache_abort_runs _ _ _ _ _ _ _ Hn)|]. intros p' [Rp' M]. by apply runs_ret.
  - destruct (syn_cache_get_conn _ _ _ _ _ _ _ _ _ _ E) as (So & Mg & Pc). destruct Hn as [Rn Hn]. destruct new as [a|]; [|destruct Hn as [Hn _]; rewrite Hn in So; by destruct So].
    cbn [mbind option_bind]. apply runs_ret. destruct Hn as (Fr & i & M & H). destruct (H Mg Pc) as [S C].
    split; [exact Ry|]. split; [exact Rn|]. split; [|done]. split; [done|]. split; [by exists i|]. by eexists.
Qed.

Lemma pure_syn_no_ack flags : (Z.land flags (Z.lor TH_RST (Z.lor TH_ACK TH_SYN)) =? TH_SYN) = true -> flag_set flags TH_ACK = false.
Proof.
  intros H%Z.eqb_eq. change TH_ACK with (2 ^ 4). rewrite flag_set_pow2 by lia.
  assert (T : Z.testbit (Z.land flags (Z.lor TH_RST (Z.lor TH_ACK TH_SYN))) 4 = Z.testbit TH_SYN 4) by by rewrite H.
  rewrite Z.land_spec in T. change (Z.testbit (Z.lor TH_RST (Z.lor TH_ACK TH_SYN)) 4) with true in T. by rewrite andb_true_r in T.
Qed.

Lemma listen_syn_runs e q a x src dst s : syn_reached (k_syn s) -> pcb_reached e (k_pcbs s) -> env_ok bl cl fn (f_syn e) -> opts_ok (f_srcroute e) ->
  flag_set (th_flags (q_th q)) TH_ACK = false -> runs (listen_syn e q a x src dst s) (front_post e src dst q s).
Proof using bl_range cl_range ids.
  intros R Rp Ok O A. unfold listen_syn. destruct (dst_multi _ _); [by apply runs_ret|]. destruct (_ && _); [by apply runs_ret|].
  destruct (x_qlen x <=? x_qlimit x); [|by apply runs_ret].
  destruct (event_returns (f_syn e) (EvSyn src dst (q_th q) (Z.pos a) (x_space x) (f_srcroute e) (f_tb e) (k_sack s) (q_optp q) (q_opti q)) _ R Ok (conj A O))
    as (y' & E & Ry). cbn [syn_run] in E. apply fmap_Some in E as ([[[z y] g] oi] & E & ->). rewrite E. cbn [mbind option_bind]. by apply runs_ret.
Qed.

(** The ends of the connection that a packet is of. *)
Definition pkt_src (k : tpkt) (q : parsed) : sockaddr_in := mkSin (ip_src (iph (ip_decode (k_m k)))) (q_sport q).
Definition pkt_dst (k : tpkt) (q : parsed) : sockaddr_in := mkSin (ip_dst (iph (ip_decode (k_m k)))) (q_dport q).

Lemma tcp_listen_runs e k q tiwin opts a x s : syn_reached (k_syn s) -> pcb_reached e (k_pcbs s) -> env_ok bl cl fn (f_syn e) -> opts_ok (f_srcroute e) ->
  runs (tcp_listen e k q tiwin opts a x s) (front_post e (pkt_src k q) (pkt_dst k q) q s).
Proof using bl_range cl_range ids.
  intros R Rp Ok O. unfold tcp_listen. cbv zeta. destruct (Z.land _ _ =? TH_SYN) eqn:S; cbn [negb]; [apply listen_syn_runs; try done; by apply pure_syn_no_ack|].
  destruct (flag_set (th_flags (q_th q)) TH_RST) eqn:Rst.
  { eapply runs_bind; [exact (event_returns (f_syn e) (EvRst _ _ (q_th q)) _ R Ok I)|]. intros y Ry. by apply runs_ret. }
  assert (Bad : front_post e (pkt_src k q) (pkt_dst k q) q s (front_reset e (ip_dst (iph (ip_decode (k_m k)))) q, s)).
  { split; [done|]. split; [done|]. split; [by apply front_reset_changes|apply front_reset_rfc793]. }
  destruct (Z.land (th_flags (q_th q)) (Z.lor TH_ACK TH_SYN) =? Z.lor TH_ACK TH_SYN); [by apply runs_ret|].
  destruct (flag_set (th_flags (q_th q)) TH_ACK) eqn:A; [by apply listen_ack_runs|]. by apply runs_ret.
Qed.

(** ** The front *)

Record front_ok (e : fenv) (s : fstate) : Prop := mkFrontOk {
  fo_pcbs : pcb_reach (f_pcb e) pcount any_op (k_pcbs s);
  fo_syn : syn_reached (k_syn s);
  fo_ends : forall a, is_Some (pcbs (k_pcbs s) !! a) -> is_Some (k_ends s !! a)
}.

(** What surrounds TCP, and a packet that [ip_input] hands over. *)
Record call_ok (e : fenv) (k : tpkt) : Prop := mkCallOk {
  co_env : env_ok bl cl fn (f_syn e);
  co_route : opts_ok (f_srcroute e);
  co_toff : 20 <= k_toff k <= Z.of_nat (length (k_m k))
}.

Lemma front_pcb_runs e k q a s : front_ok e s -> call_ok e k -> is_Some (pcbs (k_pcbs s) !! a) ->
  runs (tcp_front_pcb e k q a s) (front_post e (pkt_src k q) (pkt_dst k q) q s).
Proof using bl_range cl_range ids.
  intros F C Pa. destruct (fo_ends _ _ F a Pa) as [x Ex]. pose proof (fo_syn _ _ F) as R. pose proof (fo_pcbs _ _ F) as Rp.
  unfold tcp_front_pcb. cbv zeta. rewrite Ex. cbn [mbind option_bind].
  destruct (_ <? _); [by apply runs_ret|]. destruct (x_conn x) as [c|].
  2: { apply runs_ret. split; [done|]. split; [done|]. split; [by apply reset_ratelim_changes|apply reset_ratelim_rfc793]. }
  destruct (_ =? TCPS_CLOSED); [by apply runs_ret|].
  destruct (tcp_input_checksum_total e k (q_off q) (q_tlen q) (co_toff _ _ C)) as [bad ->]. cbn [mbind option_bind].
  destruct bad; [by apply runs_ret|]. destruct (flag_set (so_options c) SO_ACCEPTCONN); [|by apply runs_ret].
  apply tcp_listen_runs; [done|done|apply C|apply C].
Qed.

Lemma pcb_reach_segment e p src sport dst dport p' o : pcb_reach e pcount any_op p -> findpcb e src sport dst dport p = Some (o, p') ->
  pcb_reach e pcount any_op p'.
Proof. intros R E. eapply (pcb_reach_step _ _ _ (Segment src sport dst dport)); [exact R|done|done|]. simpl. by rewrite E. Qed.

(** The connections are still those of the control blocks. *)
Lemma changes_ends e src dst o s s' : front_changes e src dst o s s' -> (forall a, is_Some (pcbs (k_pcbs s) !! a) -> is_Some (k_ends s !! a)) ->
  forall a, is_Some (pcbs (k_pcbs s') !! a) -> is_Some (k_ends s' !! a).
Proof.
  intros H F a. destruct o as [| | |b c ? ?]; try (destruct H as [-> ->]; apply F).
  destruct H as (_ & (i & -> & _) & (x & -> & _)). rewrite !lookup_insert_is_Some. intros [->|[N P]]; [by left|]. right. auto.
Qed.

Lemma tcp_front_runs e k s : front_ok e s -> call_ok e k ->
  runs (tcp_front e k s) (fun r => front_ok e r.2 /\
    match tcp_parse k with
    | Some (Some q) => front_changes e (pkt_src k q) (pkt_dst k q) r.1 s r.2 /\ rfc793_reset q r.1
    | _ => r = (ODrop, s)
    end).
Proof using bl_range cl_range ids.
  intros F C. unfold tcp_front. pose proof (co_toff _ _ C) as T. destruct (tcp_parse_runs k ltac:(lia)) as (r & Er & _). rewrite Er. cbn [mbind option_bind].
  destruct r as [q|]; [|by apply runs_ret]. pose proof (fo_pcbs _ _ F) as R.
  destruct (findpcb_runs (f_pcb e) pcount (ip_src (iph (ip_decode (k_m k)))) (q_sport q) (ip_dst (iph (ip_decode (k_m k)))) (q_dport q)
    (k_pcbs s) (pcb_reach_inv _ _ _ _ R)) as ([o p'] & E & Sv & K). cbv zeta. rewrite E. cbn [mbind option_bind fst snd].
  set (s1 := s <| k_pcbs := p' |>). assert (M : pcbs p' = pcbs (k_pcbs s)) by apply K.
  assert (F1 : front_ok e s1).
  { constructor; [exact (pcb_reach_segment _ _ _ _ _ _ _ _ R E)|apply F|]. simpl. rewrite M. apply F. }
  destruct o as [a|].
  - assert (Pa : is_Some (pcbs (k_pcbs s1) !! a)) by (simpl; rewrite M; cbn [fst] in Sv; inversion Sv; subst; by eexists).
    eapply runs_mono; [exact (front_pcb_runs e k q a s1 F1 C Pa)|]. intros [o s2] (Ry & Rp & Ch & Rs). cbn [fst snd] in *.
    split; [constructor; [exact Rp|exact Ry|exact (changes_ends _ _ _ _ _ _ Ch (fo_ends _ _ F1))]|]. split; [|done].
    destruct o as [| | |b c ? ?]; unfold front_changes, created in *; simpl in Ch; by rewrite M in Ch.
  - apply runs_ret. split; [exact F1|]. split; [by apply reset_ratelim_changes|apply reset_ratelim_rfc793].
Qed.
End front.

(** ** Properties *)

(** C13. Whatever packet IP hands over, in whatever state the control blocks and the
    SYN cache have got into: the front of [tcp_input] returns, reads nothing outside
    of the packet, follows no null or stale pointer, and leaves control blocks
    and SYN cache consistent.  If the packet completes a handshake there is one more
    control block, connected with the addresses and ports of the packet, of the new
    connection; the control block of a handshake that cannot be completed is released.
    Nothing else changes the control blocks and the connections. *)
Theorem tcp_front_safe pcount ycount ipg bl cl fn e k s : 0 < bl < 2 ^ 16 -> 0 < cl < 2 ^ 63 -> ids_ok (g_ids ipg) ->
  front_ok pcount ycount ipg bl cl fn e s -> call_ok bl cl fn e k ->
  exists o s', tcp_front e k s = Some (o, s') /\ front_ok pcount ycount ipg bl cl fn e s' /\
    match tcp_parse k with
    | Some (Some q) => front_changes e (pkt_src k q) (pkt_dst k q) o s s'
    | _ => o = ODrop /\ s' = s
    end.
Proof.
  intros Hb Hc Hi F C. destruct (tcp_front_runs pcount ycount ipg bl cl fn Hb Hc Hi e k s F C) as ([o s'] & E & F' & H).
  exists o, s'. split; [done|]. split; [done|]. destruct (tcp_parse k) as [[q|]|]; [apply H|by injection H..].
Qed.

(** C19. A segment without a connection is answered with the reset of RFC 793 or not at
    all: never if it is a reset itself; otherwise with the sequence number that it
    acknowledges, or, if it acknowledges nothing, with an acknowledgement of all that
    it occupies. *)
Theorem tcp_front_resets pcount ycount ipg bl cl fn e k s ack seq flags s' : 0 < bl < 2 ^ 16 -> 0 < cl < 2 ^ 63 -> ids_ok (g_ids ipg) ->
  front_ok pcount ycount ipg bl cl fn e s -> call_ok bl cl fn e k -> tcp_front e k s = Some (ORespond ack seq flags, s') ->
  exists q, tcp_parse k = Some (Some q) /\ flag_set (th_flags (q_th q)) TH_RST = false /\
    if flag_set (th_flags (q_th q)) TH_ACK then (ack, seq, flags) = (0, th_ack (q_th q), TH_RST)
    else (ack, seq, flags) = (u32 (th_seq (q_th q) + q_tlen q + (if flag_set (th_flags (q_th q)) TH_SYN then 1 else 0)), 0, Z.lor TH_RST TH_ACK).
Proof.
  intros Hb Hc Hi F C E. destruct (tcp_front_runs pcount ycount ipg bl cl fn Hb Hc Hi e k s F C) as ([o s2] & E2 & _ & H).
  rewrite E in E2. injection E2 as <- <-. destruct (tcp_parse k) as [[q|]|]; [|done|done]. destruct H as [_ [N H]]. exists q. split; [done|]. split; [exact N|exact H].
Qed.

(** C14. A segment of a connection, with a good checksum, reaches [after_listen] of that
    connection and of no other, with the window unscaled and with a data part
    that is the packet without its headers. *)
Theorem tcp_front_delivers pcount e k s q a i x c : pcb_reach (f_pcb e) pcount port_known (k_pcbs s) -> 0 <= k_toff k ->
  tcp_parse k = Some (Some q) -> ip_len (iph (ip_decode (k_m k))) = Z.of_nat (length (k_m k)) ->
  pcbs (k_pcbs s) !! a = Some i -> connects (ip_src (iph (ip_decode (k_m k)))) (q_sport q) (ip_dst (iph (ip_decode (k_m k)))) (q_dport q) i ->
  k_ends s !! a = Some x -> x_conn x = Some c -> x_minttl x <= ip_ttl (ip_decode (k_m k)) -> t_state (tp_of c) <> TCPS_CLOSED ->
  flag_set (so_options c) SO_ACCEPTCONN = false -> tcp_input_checksum e k (q_off q) (q_tlen q) = Some false ->
  exists sg s', tcp_front e k s = Some (OConn a c (q_optp q) sg, s') /\ pcbs (k_pcbs s') = pcbs (k_pcbs s) /\ k_ends s' = k_ends s /\
    s_th sg = q_th q /\
    tiwin sg = (if flag_set (th_flags (q_th q)) TH_SYN then q_win q else u64 (Z.shiftl (q_win q) (snd_scale (tp_of c)))) /\
    adj_bytes (hdroptlen sg) (s_m sg) = drop (Z.to_nat (k_toff k + q_off q)) (k_m k) /\
    Z.of_nat (length (adj_bytes (hdroptlen sg) (s_m sg))) = tlen sg.
Proof.
  intros R T0 Q Len Ei Ci Ex Ec Ttl Nc Na Cs.
  destruct (tcp_parse_runs k T0) as (r & Er & Fr). rewrite Q in Er. injection Er as <-. destruct Fr as (O20 & Fit & Tl & Sum).
  unfold tcp_front. rewrite Q. cbn [mbind option_bind]. cbv zeta.
  destruct (findpcb_runs (f_pcb e) pcount (ip_src (iph (ip_decode (k_m k)))) (q_sport q) (ip_dst (iph (ip_decode (k_m k)))) (q_dport q)
    (k_pcbs s) (pcb_reach_inv _ _ _ _ R)) as ([o p'] & E & Sv & K). rewrite E. cbn [mbind option_bind fst snd] in *.
  assert (Eo : o = Some a).
  { inversion Sv as [b j Ej Cj|b j No|b j No|No]; subst; [|by destruct (No a i Ei)|by destruct (No a i Ei) as [[] _]|by destruct (No a i Ei) as [[] _]].
    f_equal. destruct Ci as [Si Mi]. apply same_conn_spec in Mi as (A1 & A2 & A3 & A4).
    symmetry. apply (pcb_reach_unique (f_pcb e) pcount _ R a b i j Ei Ej Si). unfold conn_of. by rewrite A1, A2, A3, A4. }
  subst o. unfold tcp_front_pcb. cbv zeta. cbn [k_ends]. change (k_ends (s <| k_pcbs := p' |>)) with (k_ends s). rewrite Ex. cbn [mbind option_bind].
  destruct (Z.ltb_spec (ip_ttl (ip_decode (k_m k))) (x_minttl x)); [lia|]. rewrite Ec. destruct (Z.eqb_spec (t_state (tp_of c)) TCPS_CLOSED); [done|].
  rewrite Cs. cbn [mbind option_bind]. rewrite Na. eexists _, _. split; [done|]. split; [apply K|]. split; [done|]. split; [done|]. split; [done|].
  cbn [hdroptlen s_m tlen front_seg].
  assert (Adj : adj_bytes (k_toff k + q_off q) (k_m k) = drop (Z.to_nat (k_toff k + q_off q)) (k_m k)).
  { unfold adj_bytes. destruct (Z.leb_spec 0 (k_toff k + q_off q)); [done|lia]. }
  split; [exact Adj|]. rewrite Adj, length_drop. lia.
Qed.
