(* ===== verification/TcpFrontExample.v ===== *)
(** * Three packets

    A segment of the client's connection of [InPcbExample], a SYN for a port that
    nobody has, and the ACK that completes the handshake of [SynExample]. *)

From stdpp Require Import functions.
From S2P Require Import Prelude Pool TcpSeq Callout Tcpcb TcpSack TcpTimer InCksum TcpOptions TcpReass TcpInput TcpOutput TcpInputStream MbufFacts.
From S2P Require Import IpReass IpId Ip IpOutput IpTotal SynCache SynCacheSend SynCacheFacts SynCacheSafe SynExample.
From S2P Require Import InPcb InPcbFacts InPcbOps InPcbProps InPcbExample TcpFront TcpFrontProps.

Definition exf_env : fenv :=
  mkFenv expcb_env exs_env exs_ge (mkIf (Z.lor IFF_UP IFF_BROADCAST) 1500 0 0 0 50 0 []) true true true None tcpcb_zero.

(** A segment with five bytes, and a SYN. *)
Definition exf_data : tpkt :=
  mkTpkt [69; 0; 0; 45; 0; 0; 0; 0; 64; 6; 0; 0; 10; 0; 0; 2; 10; 0; 0; 1; 0; 80; 192; 6; 0; 0; 3; 232; 0; 0; 7; 208; 80; 16; 32; 0; 107; 236; 0; 0;
    104; 101; 108; 108; 111] 20 0 0 0.
Definition exf_syn : tpkt :=
  mkTpkt [69; 0; 0; 40; 0; 0; 0; 0; 64; 6; 0; 0; 10; 0; 0; 2; 10; 0; 0; 1; 0; 80; 0; 9; 0; 0; 3; 232; 0; 0; 0; 0; 80; 2; 32; 0; 119; 159; 0; 0] 20 0 0 0.

Definition exf_server : conn := ex_conn <| so_options := SO_ACCEPTCONN |>.
Definition exf_ends : gmap addr tcpend :=
  <[1%positive := mkEnd 0 (Some exf_server) 0 5 8192]> (<[2%positive := mkEnd 0 (Some ex_conn) 0 0 8192]> ∅).

Definition exf_state (ok : pcb_op -> inpcbtable -> Prop) `{forall op p, Decision (ok op p)} (ids : ipid_state) : fstate :=
  mkFst (expcb_after ok expcb_client) (syn_cache_init 2 (mkIpg 7 ids)) exf_ends (mkSackGlobals (pool_init 1) 32 1024 0).

Lemma exf_ok ids : front_ok 4 2 (mkIpg 7 ids) 10 100 7 exf_env (exf_state any_op ids).
Proof.
  constructor; [expcb_run|apply reach_init|]. intros a [i E].
  assert (S : dom (pcbs (expcb_after any_op expcb_client)) ⊆ dom exf_ends) by (apply (bool_decide_unpack _); vm_compute; exact I).
  apply elem_of_dom, S, elem_of_dom. by exists i.
Qed.

Lemma exf_call k : (k = exf_data \/ k = exf_syn) -> call_ok 10 100 7 exf_env k.
Proof. intros [->| ->]; (split; [exact exs_env_ok|done|simpl; lia]). Qed.

(** A server with the handshake of [SynExample], and the ACK that completes it. *)
Definition exf_ack : tpkt := mkTpkt [69; 0; 0; 40; 0; 0; 0; 0; 64; 6; 0; 0; 10; 0; 0; 1; 10; 0; 0; 2; 0; 80; 0; 22; 255; 255; 255; 241; 1; 2; 3; 5; 80; 16; 32; 0; 119; 115; 0; 0] 20 0 0 0.

Definition exf_listen : list pcb_op := [Attach SO_ACCEPTCONN; Bind 1 (Some (INADDR_ANY, sin_port exs_dst))].

Definition exf_handshake (ids : ipid_state) : fstate :=
  mkFst (expcb_after any_op exf_listen) (exs_state ids) (<[1%positive := mkEnd 0 (Some exf_server) 0 5 8192]> ∅) (mkSackGlobals (pool_init 1) 32 1024 0).

Lemma exf_handshake_ok ids : front_ok 4 2 (mkIpg 7 ids) 10 100 7 exf_env (exf_handshake ids).
Proof.
  constructor; [expcb_run|apply exs_reachable|]. intros a [i E].
  assert (S : dom (pcbs (expcb_after any_op exf_listen)) ⊆ dom (k_ends (exf_handshake ids))) by (apply (bool_decide_unpack _); vm_compute; exact I).
  apply elem_of_dom, S, elem_of_dom. by exists i.
Qed.

Lemma exf_new ids : exists c sg s', tcp_front exf_env exf_ack (exf_handshake ids) = Some (ONew 2 c None sg, s').
Proof. vm_compute. do 3 eexists. reflexivity. Qed.

Lemma tcp_front_safe_witness : (exists c sg s', tcp_front exf_env exf_ack (exf_handshake exs_ids) = Some (ONew 2 c None sg, s')) /\
  exists o s', tcp_front exf_env exf_ack (exf_handshake exs_ids) = Some (o, s') /\ front_ok 4 2 (mkIpg 7 exs_ids) 10 100 7 exf_env s' /\
    match tcp_parse exf_ack with
    | Some (Some q) => front_changes exf_env (pkt_src exf_ack q) (pkt_dst exf_ack q) o (exf_handshake exs_ids) s'
    | _ => o = ODrop /\ s' = exf_handshake exs_ids
    end.
Proof.
  split; [exact (exf_new exs_ids)|].
  apply (tcp_front_safe 4 2 (mkIpg 7 exs_ids) 10 100 7 exf_env exf_ack (exf_handshake exs_ids));
    [lia|lia|exact exs_ids_ok|exact (exf_handshake_ok exs_ids)|split; [exact exs_env_ok|done|simpl; lia]].
Defined.

Definition exf_after (ids : ipid_state) : fstate := (default (ODrop, exf_state any_op ids) (tcp_front exf_env exf_syn (exf_state any_op ids))).2.

Lemma exf_reset ids : tcp_front exf_env exf_syn (exf_state any_op ids) = Some (ORespond 1001 0 (Z.lor TH_RST TH_ACK), exf_after ids).
Proof. vm_compute. reflexivity. Qed.

Lemma tcp_front_resets_witness : exists q, tcp_parse exf_syn = Some (Some q) /\ flag_set (th_flags (q_th q)) TH_RST = false /\
  if flag_set (th_flags (q_th q)) TH_ACK then (1001, 0, Z.lor TH_RST TH_ACK) = (0, th_ack (q_th q), TH_RST)
  else (1001, 0, Z.lor TH_RST TH_ACK) =
    (u32 (th_seq (q_th q) + q_tlen q + (if flag_set (th_flags (q_th q)) TH_SYN then 1 else 0)), 0, Z.lor TH_RST TH_ACK).
Proof.
  apply (tcp_front_resets 4 2 (mkIpg 7 exs_ids) 10 100 7 exf_env exf_syn (exf_state any_op exs_ids) 1001 0 (Z.lor TH_RST TH_ACK) (exf_after exs_ids));
    [lia|lia|exact exs_ids_ok|exact (exf_ok exs_ids)|apply exf_call; by right|exact (exf_reset exs_ids)].
Defined.

Definition exf_parsed : parsed := mkParsed (mkTcphdr 1000 2000 TH_ACK) (htons 80) (htons 49158) 8192 0 20 5 None no_opti.

Lemma tcp_front_delivers_witness : exists sg s', tcp_front exf_env exf_data (exf_state port_known exs_ids) = Some (OConn 2 ex_conn None sg, s') /\
  pcbs (k_pcbs s') = pcbs (k_pcbs (exf_state port_known exs_ids)) /\ k_ends s' = exf_ends /\ s_th sg = mkTcphdr 1000 2000 TH_ACK /\
  tiwin sg = u64 (Z.shiftl 8192 (snd_scale (tp_of ex_conn))) /\
  adj_bytes (hdroptlen sg) (s_m sg) = [104; 101; 108; 108; 111] /\ Z.of_nat (length (adj_bytes (hdroptlen sg) (s_m sg))) = tlen sg.
Proof.
  apply (tcp_front_delivers 4 exf_env exf_data (exf_state port_known exs_ids) exf_parsed 2 (expcb_pcb 2 port_known expcb_client)
    (mkEnd 0 (Some ex_conn) 0 0 8192) ex_conn).
  - expcb_run.
  - simpl. lia.
  - vm_compute. reflexivity.
  - vm_compute. reflexivity.
  - cbn [exf_state k_pcbs]. vm_compute. reflexivity.
  - vm_compute. split; reflexivity.
  - cbn [exf_state k_ends]. vm_compute. reflexivity.
  - reflexivity.
  - vm_compute. discriminate.
  - vm_compute. discriminate.
  - vm_compute. reflexivity.
  - vm_compute. reflexivity.
Defined.
